(* ===== verification/_CoqProject ===== *)
-Q . S2P
Prelude.v
StreamModels.v
Checkpoints.v
StreamLog.v
StreamLogFacts.v
StreamHistory.v
StreamOwnership.v
StreamFencing.v
StreamProperties.v
StreamDelivery.v
Consumers.v
EsEvents.v
EsCodec.v
EsStore.v
EsStoreFacts.v
EsStoreProperties.v
EsAggregate.v
EsUnitOfWork.v
EsUowProperties.v
EsRepository.v
EsRepositoryProperties.v
DiDeclarations.v
DiCompiler.v
DiFinish.v
DiGraphFacts.v
DiFinishFacts.v
DiPlanFacts.v
DiWalkFacts.v
DiTermination.v
DiProperties.v
RtContainer.v
RtContainerFacts.v
RtScopes.v
RtGraph.v
RtResolution.v
RtKernel.v
RtKernelFacts.v
RtShutdown.v
RtStart.v
RtProperties.v
CqMessages.v
CqRegistry.v
CqDispatch.v
CqDispatchFacts.v
CqTransport.v
CqTransportFacts.v
CqTransportReplies.v
CqProperties.v
CqTransportProperties.v
Pipeline.v
MsWire.v
MsValues.v
MsBroker.v
MsEndpoints.v
MsWireFacts.v
MsBrokerFacts.v
MsBrokerSteps.v
MsRoutes.v
MsProperties.v
MsCodec.v
MsCodecFacts.v
MsCodecScenarios.v
MsCodecProperties.v
MsInvoke.v
MsInvokeProperties.v
MsRuntime.v
MsRuntimeProperties.v
MsCluster.v
MsClusterFacts.v
MsClusterProperties.v
HttpResponses.v
HttpPipeline.v
HttpRoutes.v
AsgiRouter.v
AsgiRequests.v
HttpScenarios.v
HttpProperties.v
AsgiRouterProperties.v
AsgiProperties.v
AsgiLifespan.v
