(* ===== verification/Prelude.v ===== *)
(** * Tori Py: a verification development

    Tori Py is a Python application framework. This development models seven of
    its subsystems and proves what they promise:

    - the persistent streams core ([src/packages/tori-py-persistent-streams-core]):
      partitioned append-only logs, consumer groups, leases, checkpoints;
    - the event-sourcing core ([src/packages/tori-py-cqrs-event-sourcing-core]):
      event store, aggregates, unit of work, repository, event codecs;
    - the dependency injection compiler ([src/packages/tori-py], [core/compiler.py]
      with [providers.py] and [modules.py]): from decorated modules to a checked
      graph of providers;
    - the runtime of an application ([core/runtime.py]): the container that
      constructs the providers of a graph, the scopes they live in, and the
      kernel that starts the application and shuts it down;
    - the CQRS core ([src/packages/tori-py-cqrs-core]): commands, queries and
      events, the registry of their handlers, dispatch, the buses and the
      in-memory transport;
    - the microservices package ([src/packages/tori-py-microservices]): service
      identities, wire values and their JSON codec, the in-memory broker with its
      servers and clients, the invocation of handlers, the service's dispatch of a
      delivery, and the cluster a client calls services through;
    - the HTTP layer ([src/packages/tori-py], [http] and [asgi]): compiling the
      routes of controllers, the pipeline of a request, and the native ASGI adapter
      that routes requests, reads them and answers.

    ** The parts, the files and the code

    Paths are relative to the package of the subsystem.

    Persistent streams. A producer appends records to a stream; the stream's
    router sends each to a partition; a consumer group reads a partition through
    a lease and checkpoints what it has handled.
    - [StreamModels]: [models.py], [errors.py], [routing.py], [validation.py];
      each dataclass is a record, its [__post_init__] the function [X_new].
    - [Checkpoints]: [checkpoints.py]; the class [CheckpointStore] is the
      protocol with its laws, [InMemoryCheckpointStore] an instance.
    - [StreamLog]: [inmemory.py]; the record [log] is the state of
      [InMemoryPersistentLog], lease objects included, and each method is a
      definition of the same name ([append], [read], [trim], [acquire],
      [next_record], [checkpoint], ...).
    - [StreamLogFacts], [StreamHistory]: a partition against the history of all
      that was ever appended to it. [StreamOwnership]: the critical sections of
      the log as the steps of a transition system and its invariants.
      [StreamFencing]: what holds between a state and every later one.
    - [Consumers]: [consumers.py]; the runner is proved against the class
      [PartitionLease] ([protocols.py]), which the log's leases discharge.

    Event sourcing. A repository loads an aggregate by replaying its stream,
    stages its new events in a unit of work, and the unit of work commits them
    in one transaction of the store.
    - [EsEvents]: [events.py], [errors.py], [outcomes.py]. [EsCodec]: [codec.py].
    - [EsStore]: [store.py]; a [database] is one store with any number of
      transactions that interleave. [EsStoreFacts]: its invariants.
    - [EsAggregate]: [aggregate.py]; the application's state and [_apply] are the
      class [Domain].
    - [EsUnitOfWork], [EsRepository]: the two halves of [repository.py]; the unit
      of work is written against the class of transactions ([protocols.py]) and
      the in-memory transaction is an instance.

    Dependency injection. [compile_graph] walks the imports of a root module,
    collects the providers of every module, decides what each module sees,
    resolves aliases and dependencies, refuses cycles and captive dependencies
    and orders the providers.
    - [DiDeclarations]: [providers.py], [modules.py]. [DiCompiler]: the state of
      [_Compiler], the module walk, signatures and recipes. [DiFinish]:
      [_Compiler._finish] and every function it calls.
    - [DiWalkFacts], [DiGraphFacts], [DiFinishFacts], [DiPlanFacts],
      [DiTermination]: the lemmas for each phase.

    Runtime. The container constructs providers on demand, with a cache and a
    stack of resources per scope; a request scope belongs to the task that
    entered it; the kernel constructs all singletons, calls the lifecycle hooks,
    admits scopes, and undoes everything in reverse order.
    - [RtContainer]: leases, [_ResourceStack], [Container], [RequestScope]; the
      application's constructors, factories and context managers are the class
      [Application]. [RtScopes]: how the kernel admits scopes, and the container
      with its scopes as a transition system.
    - [RtGraph]: the class [Runnable], what the container relies on in a graph,
      discharged by every graph that compiles. [RtResolution]: resolution on such
      a graph.
    - [RtKernel]: [ApplicationKernel]; hooks, validators and the driver binder
      are the class [Lifecycle]. [RtContainerFacts], [RtKernelFacts],
      [RtShutdown], [RtStart]: the lemmas for each part.

    CQRS. A bus wraps a message in an envelope and gives it to its transport; the
    transport's worker hands it to the dispatcher, which looks the handler up,
    calls it, and answers with a reply that goes back through the transport.
    - [CqMessages]: [errors.py], [messages.py], [identity.py], [envelope.py],
      [registrations.py], [registry.py], [builder.py]; what Python says about
      classes and callables is the class [Inspection]. [CqRegistry]: which
      registrations a registry accepts.
    - [CqDispatch]: [context.py], [provider.py], [dispatch.py], [buses.py];
      handlers and providers are the classes [HandlerCode] and
      [HandlerProvider], the default provider is an instance.
      [CqDispatchFacts]: the path of a request.
    - [CqTransport]: [inmemory.py]; the record [transport] is the state of
      [InMemoryTransport] with its worker, its callers and its shutdown, and
      [tstep] runs one section of code between two awaits. [CqTransportFacts],
      [CqTransportReplies]: its invariants.

    Microservices. A server registers its service and its event subscriptions
    with the broker, which keeps a queue for each and hands messages to the
    servers that are ready; a server settles each delivery; a client publishes
    calls and events and receives replies.
    - [MsWire]: [errors.py], [identities.py], [wire.py]. [MsValues]:
      [transport.py]. The JSON encoding of a value is the class [Json].
    - [MsCodec]: [codec.py]. The libraries it calls are the class [WireText], what
      it relies on is [WireTextLaws] in [MsCodecFacts], which also has the lemmas
      on canonical values; [MsCodecScenarios] has an instance and envelopes.
    - [MsBroker]: [InMemoryBroker] of [inmemory.py]; queues, servers, clients and
      reply queues are objects on a heap of the record [broker]. [MsEndpoints]:
      [InMemoryServerTransport], [InMemoryClientTransport], and [bstep], one
      section of code between two awaits.
    - [MsBrokerFacts], [MsBrokerSteps]: where each copy of a publication is, and
      that every step keeps it so. [MsWireFacts]: frozen headers, and reading dotted
      names back. [MsRoutes]: what the routes lead to, and publishing.
    - [MsInvoke]: [invocation.py], [plans.py], [contexts.py]; the application with
      the container that resolves its objects is the class [Application].
    - [MsRuntime]: the dispatch of a delivery in [runtime.py]; the transport and the
      codec it runs on are the class [Host].
    - [MsCluster]: [cluster.py]; pending requests and their futures are objects on a
      heap of the record that is the state, and a definition is a section between
      two awaits. [MsClusterFacts]: its invariant.

    HTTP. The compiler turns controllers into route plans; the adapter matches a
    request against them and runs the plan's pipeline: middleware, guards, the
    binding of arguments, pipes, interceptors, the handler, and filters for what
    fails.
    - [Pipeline]: the chain of interceptors around a handler, which the HTTP layer
      and the microservices share. What an interceptor does is a program [icode]: it
      runs code of its own, awaits [next] any number of times, and ends.
    - [HttpResponses]: [http/response.py], [http/errors.py], [asgi/errors.py],
      [asgi/pipeline.py] and the sending of a response; the transport's part in the
      pipeline is the class [HttpPipelineAdapter], the native adapter an instance.
    - [HttpPipeline]: [http/pipeline.py]; the application is [HttpApplication].
    - [HttpRoutes]: [http/routes.py]; what Python says about controllers is
      [RouteReflection].
    - [AsgiRouter], [AsgiRequests]: [asgi/routes.py], [asgi/context.py] and the
      dispatch of [asgi/application.py]; the state of the application holds the
      request it serves ([AsgiHost]). [AsgiLifespan]: the wrapper that starts and
      stops the application.
    - [HttpScenarios]: a small application.

    This file is the prelude: results, the state and error monad of methods,
    Python values, dictionaries as lists of items, the tactics that run and
    invert monadic code ([m_run], [m_inv], [r_simpl], [solve_keeps],
    [solve_pres]) and the shared lemmas on lists and numbers.

    ** What the theorems show

    - Streams ([StreamProperties]): the retained records are the history from
      the retention boundary on; appends are exact, retries idempotent, reads
      exact or a typed gap; trimming loses nothing else; a timestamp start hides
      nothing; one owner per partition, and a stale one stays stale; cursors
      never move back.
    - Delivery ([StreamDelivery], [Consumers]): stale leases are fenced, delivery
      is in order and gap-free, a checkpoint moves the cursor exactly past its
      record; a run of the consumer handles each record once, and when one fails its
      record is not checkpointed and every record before it is. [transfer_can_overlap] shows an interleaving in which a
      transfer does overlap a delivery.
    - Store ([EsStoreProperties]): one gap-free global sequence, atomic commits,
      no lost updates, the exact condition of success, consistent reads.
    - Unit of work and repository ([EsUowProperties], [EsRepositoryProperties],
      [EsAggregate], [EsCodec]): the reported outcome is the truth about the
      store; aggregates move exactly with their streams; saving, committing and
      loading gives the aggregate back; old schema versions stay readable.
    - Compiler ([DiProperties]): dependency-first module and provider orders, no
      captive dependencies, encapsulation, termination.
    - Runtime ([RtProperties]): resources are released in reverse order and none
      is forgotten; a failed resolution leaves its scope as it was, but for
      singletons whose construction was completed; a singleton is one object; a closed scope is final; on a compiled graph only the
      application's own code can fail; start and shutdown are complete, in order
      and symmetric, and a failed start calls, in reverse order, the hooks that
      undo exactly the hooks that had returned.
    - CQRS ([CqProperties], [CqTransportProperties]): a registry holds exactly
      what was registered; a command or query runs the handler registered for it in
      a context of its own, and its caller gets what that handler returned or raised; the transport's queue is bounded, first in first out,
      and every accepted request is answered once and properly.
      [base_exception_strands_request] shows the one way to lose a request.

    - Microservices ([MsProperties]): the broker duplicates no publication and
      loses none but with a temporary queue that is removed, an ended one stays ended, no server gets more than its
      prefetch, settling does what its outcome says and only once, a publication
      reaches exactly the queues on its route, and a call finds exactly its
      service. [rotation_starves] and [removal_race] show two defects. Of the codec
      ([MsCodecProperties]): requests and responses are read back as they were
      sent; [event_limits_ignored] shows events for which this fails. Of handlers
      ([MsInvokeProperties], [MsRuntimeProperties]): a handler runs at most once, and
      not at all when a guard of its plan refuses, an invocation has one of three outcomes, a call is
      acknowledged exactly if it is answered and of an internal error the caller sees
      a fixed text only; [public_error_unanswered] shows a call that is never answered.
      Of the cluster ([MsClusterProperties]): pending requests and proxies stay
      bounded, a future is settled once, the loss of the transport wakes every
      caller, and the proxy cache is a least-recently-used cache;
      [late_reply_answers_retry] and [request_limits_ignored] show two defects.
    - HTTP ([HttpProperties]): compiled routes are unique and complete; a handler runs at most
      once, guards protect it and the body, every error is answered but the
      disconnect of the client, an [OSError] and what is no [Exception], the fast
      path is the pipeline, and a response cannot break its framing.
    - ASGI ([AsgiRouterProperties], [AsgiProperties], [AsgiLifespan]): the first matching route is chosen and its parameters are read
      back exactly, redirects lead to a route, bodies are read exactly and within
      their limits, binding arguments fails only through the client, a cookie header
      that cannot be parsed, a message the server must not send, or the application, and the application is started once. [redirect_unanswered] shows
      a request that gets no response.

    ** Modelling

    A function that may raise returns [result]; a method of a mutable object is
    a function on the state in the monad [M], and what it wrote before it raised
    stays written. Objects compared with [is] carry an identity. An argument
    whose type the code tests at run time is a [pyobj]. A section of code that
    holds a lock and does not await is atomic; where a method awaits or releases
    the lock it is split into sections, and the theorems on reachable states
    quantify over every interleaving of them. What the environment decides is an
    argument: the clock's value, the outcome of waiting for a lock, fresh
    identifiers. Code outside these packages is a parameter: the digest of the
    router, the application's checkpoint stores, domain functions, encoders and
    upcasters, the Unicode database, and the reflection of Python signatures and
    annotations ([Reflection]).

    Numbers are Python's unbounded integers, so there is no overflow; the limits
    the code itself imposes (sizes, counts, step limits) are modelled. Fuel
    stands for recursion that is not structural: [load_pages] needs more rounds
    than the stream has events ([repository_load]); the module walk needs more
    than the number of modules, and the searches in [_finish] compute their own
    fuel, which is proved to be enough ([compile_terminates]). [upcast_loop]
    counts down the distance to the schema's version; the code's own step limit
    is never hit ([decode_upcasts]). Resolving a provider needs less fuel than
    the graph has providers, which [depth] gives ([only_application_raises]).
    Where the kernel waits, an arbitrary sequence of steps of other tasks runs
    ([pause]); one resolution is a single step of its task. The transport and
    the broker need no fuel: their loops are unrolled into steps. Parsing a path
    template needs less fuel than the path is long ([compile_pieces_fuel]), and a
    body stream is drained within as many rounds as it has messages and one more
    ([stream_exact]).

    ** What is not modelled

    A cancellation that arrives while a shielded release runs; the text of error
    messages; the decorators that attach declarations to classes. Of the runtime:
    two tasks that construct the same provider at once, an application without a
    shutdown timeout, context variables, the threads of synchronous context managers
    and logging. Of the CQRS core: deadlines, and the cancellation of event tasks
    when a drain runs out of time. Of the microservices package: the start and
    shutdown of a service and its admission of deliveries, the dispatcher of events,
    status streams, the reading of handlers and contracts by reflection, and the
    RabbitMQ transport. Of the HTTP layer: the monitor that cancels a handler when
    its client disconnects, and the request scope around a request, which is
    modelled with the container. The remaining packages are adapters to Starlette,
    WebSockets, SQLAlchemy, RabbitMQ and the browser (LiveView, OpenAPI), whose
    behaviour is that of the libraries they wrap, and the framework's modules that
    bind handlers found by reflection to the cores modelled here. *)

From Stdlib Require Import ZArith Lia.
From Stdlib Require Import Strings.Byte.
From stdpp Require Import base tactics list gmap strings sorting.

Declare Scope tori_scope.
Delimit Scope tori_scope with tori.

(** ** Results of fallible code

    A Python function that may raise returns [Ok] of its value or [Err] of the
    exception. *)

Inductive result (E A : Type) : Type :=
| Ok (a : A)
| Err (e : E).
Arguments Ok {E A} a.
Arguments Err {E A} e.

#[export] Instance result_ret {E} : MRet (result E) := λ A a, Ok a.
#[export] Instance result_bind {E} : MBind (result E) :=
  λ A B f m, match m with Ok a => f a | Err e => Err e end.

(** [if b: raise e] *)
Definition raise_if {E} (b : bool) (e : E) : result E unit :=
  if b then Err e else Ok tt.

(** The elements of a sequence checked or converted one after the other; the
    first exception ends the loop. *)
Fixpoint rmap {E A B} (f : A → result E B) (l : list A) : result E (list B) :=
  match l with
  | [] => Ok []
  | x :: l => y ← f x; ys ← rmap f l; Ok (y :: ys)
  end.

Fixpoint rfold {E A B} (f : B → A → result E B) (acc : B) (l : list A) : result E B :=
  match l with
  | [] => Ok acc
  | x :: l => acc ← f acc x; rfold f acc l
  end.

Definition is_ok {E A} (r : result E A) : bool :=
  match r with Ok _ => true | Err _ => false end.

(** ** Methods of mutable objects

    A method reads and writes the state of its object and may raise; what it
    wrote before it raised stays written. *)

Definition M (S E A : Type) : Type := S → result E A * S.

#[export] Instance M_ret {S E} : MRet (M S E) := λ A a s, (Ok a, s).
#[export] Instance M_bind {S E} : MBind (M S E) :=
  λ A B f m s, match m s with
               | (Ok a, s1) => f a s1
               | (Err e, s1) => (Err e, s1)
               end.

Definition raise {S E A} (e : E) : M S E A := λ s, (Err e, s).
Definition get {S E} : M S E S := λ s, (Ok s, s).
Definition gets {S E A} (f : S → A) : M S E A := λ s, (Ok (f s), s).
Definition modify {S E} (f : S → S) : M S E unit := λ s, (Ok tt, f s).
Definition lift {S E A} (r : result E A) : M S E A := λ s, (r, s).
Definition throw_if {S E} (b : bool) (e : E) : M S E unit :=
  λ s, (if b then Err e else Ok tt, s).

(** [try: m  except: h] *)
Definition try_except {S E A} (m : M S E A) (h : E → M S E A) : M S E A :=
  λ s, match m s with
       | (Ok a, s1) => (Ok a, s1)
       | (Err e, s1) => h e s1
       end.

(** A method of a part of the state, run on the whole. *)
Definition zoom {S T E A} (proj : S → T) (upd : T → S → S) (m : M T E A) : M S E A :=
  λ s, match m (proj s) with (r, t) => (r, upd t s) end.

Fixpoint mfor {S E A} (f : A → M S E unit) (l : list A) : M S E unit :=
  match l with
  | [] => mret tt
  | x :: l => f x;; mfor f l
  end.

(** ** Python values

    A string is its list of code points, a byte string its list of bytes, an
    [int] an unbounded [Z]. A datetime is its wall-clock reading in
    microseconds since 0001-01-01T00:00 with its UTC offset, if it has one. *)

Definition pystr : Type := list Z.
Definition bytes : Type := list byte.
Definition uuid : Type := Z.

Definition str (s : string) : pystr :=
  (λ c, Z.of_nat (Ascii.nat_of_ascii c)) <$> String.list_ascii_of_string s.

Record datetime := Datetime { dt_wall : Z; dt_offset : option Z }.

(** What a dynamically typed argument may be. [PyObject] is any other object,
    by identity. *)
Inductive pyobj :=
| PyNone
| PyBool (b : bool)
| PyInt (z : Z)
| PyStr (s : pystr)
| PyBytes (b : bytes)
| PyByteArray (b : bytes)
| PyMemoryView (b : bytes)
| PyUUID (u : uuid)
| PyDatetime (d : datetime)
| PyTimedelta (us : Z)
| PyObject (id : Z).

#[export] Instance byte_eq_dec : EqDecision byte := Byte.byte_eq_dec.
#[export] Instance datetime_eq_dec : EqDecision datetime.
Proof. solve_decision. Defined.
#[export] Instance pyobj_eq_dec : EqDecision pyobj.
Proof. solve_decision. Defined.

(** The instant an aware datetime denotes; aware datetimes are ordered by it. *)
Definition instant (d : datetime) : Z := dt_wall d - default 0%Z (dt_offset d).
Definition dt_aware (d : datetime) : bool := bool_decide (is_Some (dt_offset d)).
Definition dt_ltb (a b : datetime) : bool := (instant a <? instant b)%Z.
Definition dt_leb (a b : datetime) : bool := (instant a <=? instant b)%Z.

(** [datetime.max] in microseconds since [datetime.min]. *)
Definition dt_max_wall : Z := 315537897599999999.

(** [d - timedelta(microseconds=us)]; [None] is [OverflowError]. *)
Definition dt_sub (d : datetime) (us : Z) : option datetime :=
  let wall := (dt_wall d - us)%Z in
  if ((wall <? 0) || (dt_max_wall <? wall))%Z then None
  else Some (Datetime wall (dt_offset d)).

(** Bytes one code point takes in UTF-8; a surrogate cannot be encoded. *)
Definition utf8_cp_len (c : Z) : option Z :=
  (if c <? 128 then Some 1
   else if c <? 2048 then Some 2
   else if (55296 <=? c) && (c <=? 57343) then None
   else if c <? 65536 then Some 3
   else Some 4)%Z.

(** [len(s.encode())]; [None] is [UnicodeEncodeError]. *)
Fixpoint utf8_len (s : pystr) : option Z :=
  match s with
  | [] => Some 0%Z
  | c :: s => n ← utf8_cp_len c; m ← utf8_len s; Some (n + m)%Z
  end.

(** [str.isspace] on one code point. *)
Definition cp_space (c : Z) : bool :=
  ((9 <=? c) && (c <=? 13) || (28 <=? c) && (c <=? 32) || (c =? 133) || (c =? 160)
   || (c =? 5760) || (8192 <=? c) && (c <=? 8202) || (c =? 8232) || (c =? 8233)
   || (c =? 8239) || (c =? 8287) || (c =? 12288))%Z.

(** [s != s.strip()] for a non-empty [s]: a whitespace character at an end. *)
Definition has_outer_space (s : pystr) : bool :=
  match head s, last s with
  | Some a, Some b => cp_space a || cp_space b
  | _, _ => false
  end.

(** [len] as a Python [int]. *)
Definition zlen {A} (l : list A) : Z := Z.of_nat (length l).

(** [seq[a:b]] for [0 <= a] and [0 <= b]. *)
Definition py_slice {A} (l : list A) (a b : Z) : list A :=
  take (Z.to_nat b - Z.to_nat a) (drop (Z.to_nat a) l).

(** ** Dictionaries whose iteration order is observable

    A Python [dict] as the list of its items in insertion order: assigning to a
    key that is present keeps its place. *)

Definition dict_get {K A} `{EqDecision K} (d : list (K * A)) (k : K) : option A :=
  snd <$> (snd <$> list_find (λ kv, kv.1 = k) d).

Definition dict_has {K A} `{EqDecision K} (d : list (K * A)) (k : K) : bool :=
  existsb (λ kv, bool_decide (kv.1 = k)) d.

Fixpoint dict_set {K A} `{EqDecision K} (d : list (K * A)) (k : K) (v : A) : list (K * A) :=
  match d with
  | [] => [(k, v)]
  | (k', v') :: d => if decide (k' = k) then (k, v) :: d else (k', v') :: dict_set d k v
  end.

(** [d == e] on dictionaries: the order of insertion does not count. *)
Definition dict_eqb {K A} `{Countable K, EqDecision A} (d e : list (K * A)) : bool :=
  bool_decide (list_to_map d =@{gmap K A} list_to_map e).

(** [a == b] on the values the sources compare: [True == 1], byte strings by
    content, aware datetimes by instant. *)
Definition py_eqb (a b : pyobj) : bool :=
  match a, b with
  | PyBool x, PyInt z | PyInt z, PyBool x => (z =? Z.b2z x)%Z
  | (PyBytes x | PyByteArray x | PyMemoryView x),
    (PyBytes y | PyByteArray y | PyMemoryView y) => bool_decide (x = y)
  | PyDatetime x, PyDatetime y =>
      match dt_offset x, dt_offset y with
      | Some _, Some _ => (instant x =? instant y)%Z
      | None, None => (dt_wall x =? dt_wall y)%Z
      | _, _ => false
      end
  | _, _ => bool_decide (a = b)
  end.

(** A list with strictly increasing keys. *)
Definition increasing {A} (f : A → Z) (l : list A) : Prop :=
  StronglySorted (λ a b, f a < f b)%Z l.

Definition nondecreasing {A} (f : A → Z) (l : list A) : Prop :=
  StronglySorted (λ a b, f a <= f b)%Z l.

(** The Python test [all(a < b for a, b in zip(l, l[1:]))]. *)
Fixpoint adjacent_lt {A} (f : A → Z) (l : list A) : bool :=
  match l with
  | a :: (b :: _) as t => (f a <? f b)%Z && adjacent_lt f t
  | _ => true
  end.

(** ** Automation *)

Create HintDb tori.
Create Rewrite HintDb tori.

(** Unfold the monads and split every match of the context and of the goal. *)
Ltac m_unfold :=
  unfold mbind, M_bind, mret, M_ret, result_bind, result_ret, raise, get, gets,
    modify, lift, throw_if, raise_if, try_except, zoom in *.
Ltac m_inv :=
  repeat (first [progress (m_unfold; simplify_eq/=) | case_match]); try done.

(** Turn boolean comparisons of the context into propositions. *)
Ltac bool_hyps :=
  repeat match goal with
  | H : (_ && _) = true |- _ => apply andb_true_iff in H as [? ?]
  | H : (_ || _) = false |- _ => apply orb_false_iff in H as [? ?]
  | H : (_ || _) = true |- _ => apply orb_true_iff in H as [?|?]
  | H : (_ && _) = false |- _ => apply andb_false_iff in H as [?|?]
  | H : negb _ = true |- _ => apply negb_true_iff in H
  | H : negb _ = false |- _ => apply negb_false_iff in H
  | H : bool_decide _ = true |- _ => apply bool_decide_eq_true in H
  | H : bool_decide _ = false |- _ => apply bool_decide_eq_false in H
  | H : (_ <? _)%Z = true |- _ => apply Z.ltb_lt in H
  | H : (_ <? _)%Z = false |- _ => apply Z.ltb_ge in H
  | H : (_ <=? _)%Z = true |- _ => apply Z.leb_le in H
  | H : (_ <=? _)%Z = false |- _ => apply Z.leb_gt in H
  | H : (_ =? _)%Z = true |- _ => apply Z.eqb_eq in H
  | H : (_ =? _)%Z = false |- _ => apply Z.eqb_neq in H
  end.

(** ** Inversion of sequenced code *)

Lemma result_ok_bind {E A B} (a : A) (f : A → result E B) : Ok a ≫= f = f a.
Proof. done. Qed.
Lemma result_err_bind {E A B} (e : E) (f : A → result E B) : Err e ≫= f = Err e.
Proof. done. Qed.
Lemma raise_if_false {E} (e : E) : raise_if false e = Ok tt.
Proof. done. Qed.
Lemma raise_if_true {E} (e : E) : raise_if true e = Err e.
Proof. done. Qed.

(** Run the binds of [result] that are decided. *)
Ltac r_simpl :=
  repeat (progress (rewrite ?raise_if_true, ?raise_if_false, ?result_ok_bind, ?result_err_bind;
                    simpl negb)).

Lemma result_bind_ok {E A B} (m : result E A) (f : A → result E B) b :
  m ≫= f = Ok b ↔ ∃ a, m = Ok a ∧ f a = Ok b.
Proof. destruct m; naive_solver. Qed.

Lemma result_bind_err {E A B} (m : result E A) (f : A → result E B) e :
  m ≫= f = Err e ↔ m = Err e ∨ ∃ a, m = Ok a ∧ f a = Err e.
Proof. destruct m; naive_solver. Qed.

Lemma raise_if_ok {E} b (e : E) u : raise_if b e = Ok u ↔ b = false.
Proof. destruct b, u; naive_solver. Qed.

Lemma M_bind_ok {S E A B} (m : M S E A) (f : A → M S E B) s b s' :
  (m ≫= f) s = (Ok b, s') ↔ ∃ a s1, m s = (Ok a, s1) ∧ f a s1 = (Ok b, s').
Proof. unfold mbind, M_bind. destruct (m s) as [[?|?] ?]; naive_solver. Qed.

Lemma M_bind_err {S E A B} (m : M S E A) (f : A → M S E B) s e s' :
  (m ≫= f) s = (Err e, s') ↔
  m s = (Err e, s') ∨ ∃ a s1, m s = (Ok a, s1) ∧ f a s1 = (Err e, s').
Proof. unfold mbind, M_bind. destruct (m s) as [[?|?] ?]; naive_solver. Qed.

Lemma M_bind_run {S E A B} (m : M S E A) (f : A → M S E B) s a s1 :
  m s = (Ok a, s1) → (m ≫= f) s = f a s1.
Proof. unfold mbind, M_bind. by intros ->. Qed.

Lemma M_bind_eq {S E A B} (m : M S E A) (f : A → M S E B) s r s1 :
  m s = (r, s1) → (m ≫= f) s = match r with Ok a => f a s1 | Err e => (Err e, s1) end.
Proof. unfold mbind, M_bind. intros ->. by destruct r. Qed.

(** Running a method one statement at a time: rewriting rules for [autorewrite
    with mrun]. *)

Section run.
Context {S E : Type}.
Implicit Types s : S.

Lemma run_bind_get {B} (f : S → M S E B) s : (get ≫= f) s = f s s.
Proof. done. Qed.
Lemma run_bind_gets {A B} (g : S → A) (f : A → M S E B) s : (gets g ≫= f) s = f (g s) s.
Proof. done. Qed.
Lemma run_bind_modify {B} g (f : unit → M S E B) s : (modify g ≫= f) s = f tt (g s).
Proof. done. Qed.
Lemma run_bind_ret {A B} (a : A) (f : A → M S E B) s : (mret a ≫= f) s = f a s.
Proof. done. Qed.
Lemma run_bind_raise {A B} (e : E) (f : A → M S E B) s : (raise e ≫= f) s = (Err e, s).
Proof. done. Qed.
Lemma run_bind_lift {A B} (r : result E A) (f : A → M S E B) s :
  (lift r ≫= f) s = match r with Ok a => f a s | Err e => (Err e, s) end.
Proof. by destruct r. Qed.
Lemma run_bind_throw {B} b (e : E) (f : unit → M S E B) s :
  (throw_if b e ≫= f) s = if b then (Err e, s) else f tt s.
Proof. by destruct b. Qed.
Lemma run_bind_bind {A B C} (m : M S E A) (g : A → M S E B) (f : B → M S E C) s :
  ((m ≫= g) ≫= f) s = (m ≫= (λ a, g a ≫= f)) s.
Proof. unfold mbind, M_bind. by destruct (m s) as [[]]. Qed.
Lemma run_get s : (get : M S E S) s = (Ok s, s).
Proof. done. Qed.
Lemma run_modify g s : (modify g : M S E unit) s = (Ok tt, g s).
Proof. done. Qed.
Lemma run_ret {A} (a : A) s : (mret a : M S E A) s = (Ok a, s).
Proof. done. Qed.
Lemma run_raise {A} (e : E) s : (raise e : M S E A) s = (Err e, s).
Proof. done. Qed.
Lemma run_lift {A} (r : result E A) s : lift r s = (r, s).
Proof. done. Qed.
Lemma run_throw b (e : E) s : throw_if b e s = (if b then Err e else Ok tt, s).
Proof. done. Qed.

Lemma M_bind_cases {A B} (m : M S E A) (f : A → M S E B) s r s' :
  (m ≫= f) s = (r, s') →
  (∃ e, m s = (Err e, s') ∧ r = Err e) ∨ ∃ a s1, m s = (Ok a, s1) ∧ f a s1 = (r, s').
Proof. unfold mbind, M_bind. destruct (m s) as [[?|?] ?]; naive_solver. Qed.
End run.

Create Rewrite HintDb mrun.
#[export] Hint Rewrite @run_bind_get @run_bind_gets @run_bind_modify @run_bind_ret @run_bind_raise
  @run_bind_lift @run_bind_throw @run_bind_bind @run_get @run_modify @run_ret @run_raise
  @run_lift @run_throw : mrun.

(** Run the statements a hypothesis equates with an outcome, splitting on what
    they test. *)
Ltac m_run H :=
  repeat (autorewrite with mrun in H; cbv beta in H;
          match type of H with
          | (match ?x with _ => _ end) _ = _ => destruct x eqn:?
          | (if ?x then _ else _) _ = _ => destruct x eqn:?
          | match ?x with _ => _ end = _ => destruct x eqn:?
          | (if ?x then _ else _) = _ => destruct x eqn:?
          end; try (simplify_eq; done)).

Lemma rmap_ok_length {E A B} (f : A → result E B) l l' :
  rmap f l = Ok l' → length l' = length l.
Proof.
  revert l'; induction l as [|x l IH]; intros l' H; simpl in H; [by simplify_eq|].
  apply result_bind_ok in H as (y & _ & H).
  apply result_bind_ok in H as (ys & Hys & H). simplify_eq/=. by rewrite (IH ys).
Qed.

Lemma rmap_ok_iff {E A B} (f : A → result E B) l l' :
  rmap f l = Ok l' ↔ Forall2 (λ x y, f x = Ok y) l l'.
Proof.
  revert l'; induction l as [|x l IH]; intros l'; simpl.
  - split; intros H; [simplify_eq; constructor|by inversion H].
  - rewrite result_bind_ok. split.
    + intros (y & Hy & H). apply result_bind_ok in H as (ys & Hys & H). simplify_eq/=.
      constructor; [done|by apply IH].
    + inversion 1 as [|? y ? ys Hy Hys]; subst. exists y; split; [done|].
      apply result_bind_ok. exists ys. split; [by apply IH|done].
Qed.

(** ** Frames

    A method keeps a view of the state when no path through it, error paths
    included, changes the view. *)

Definition keeps {S E A T} (view : S → T) (m : M S E A) : Prop :=
  ∀ s, view (m s).2 = view s.

Lemma keeps_bind {S E A B T} (view : S → T) (m : M S E A) (f : A → M S E B) :
  keeps view m → (∀ a, keeps view (f a)) → keeps view (m ≫= f).
Proof.
  intros Hm Hf s. unfold mbind, M_bind. specialize (Hm s).
  destruct (m s) as [[a|e] s1]; simpl in *; [|done]. by rewrite Hf.
Qed.

Lemma keeps_ret {S E A T} (view : S → T) (a : A) : keeps view (mret a : M S E A).
Proof. done. Qed.
Lemma keeps_raise {S E A T} (view : S → T) (e : E) : keeps view (raise e : M S E A).
Proof. done. Qed.
Lemma keeps_get {S E T} (view : S → T) : keeps view (get : M S E S).
Proof. done. Qed.
Lemma keeps_gets {S E A T} (view : S → T) (f : S → A) : keeps view (gets f : M S E A).
Proof. done. Qed.
Lemma keeps_lift {S E A T} (view : S → T) (r : result E A) : keeps view (lift r : M S E A).
Proof. done. Qed.
Lemma keeps_throw {S E T} (view : S → T) b (e : E) : keeps view (throw_if b e : M S E unit).
Proof. done. Qed.
Lemma keeps_modify {S E T} (view : S → T) (f : S → S) :
  (∀ s, view (f s) = view s) → keeps view (modify f : M S E unit).
Proof. intros Hf s. apply Hf. Qed.
Lemma keeps_try {S E A T} (view : S → T) (m : M S E A) (h : E → M S E A) :
  keeps view m → (∀ e, keeps view (h e)) → keeps view (try_except m h).
Proof.
  intros Hm Hh s. unfold try_except. specialize (Hm s).
  destruct (m s) as [[a|e] s1]; simpl in *; [done|]. by rewrite Hh.
Qed.

#[export] Hint Resolve keeps_ret keeps_raise keeps_get keeps_gets keeps_lift
  keeps_throw : tori.

(** Solve a frame goal by following the code; hints give the frames of calls. *)
Ltac solve_keeps :=
  repeat first
    [ solve [eauto 2 with tori nocore]
    | apply keeps_bind; [|intros ?]
    | apply keeps_try; [|intros ?]
    | case_match ];
  try (intros ?; reflexivity).

(** A method preserves an invariant when every path through it does. *)

Definition pres {S E A} (I : S → Prop) (m : M S E A) : Prop := ∀ s, I s → I (m s).2.

Lemma pres_bind {S E A B} (I : S → Prop) (m : M S E A) (f : A → M S E B) :
  pres I m → (∀ a, pres I (f a)) → pres I (m ≫= f).
Proof.
  intros Hm Hf s Hs. unfold mbind, M_bind. specialize (Hm s Hs).
  destruct (m s) as [[a|e] s1]; simpl in *; [|done]. by apply Hf.
Qed.

Lemma pres_ret {S E A} (I : S → Prop) (a : A) : pres I (mret a : M S E A).
Proof. by intros ??. Qed.
Lemma pres_raise {S E A} (I : S → Prop) (e : E) : pres I (raise e : M S E A).
Proof. by intros ??. Qed.
Lemma pres_get {S E} (I : S → Prop) : pres I (get : M S E S).
Proof. by intros ??. Qed.
Lemma pres_gets {S E A} (I : S → Prop) (f : S → A) : pres I (gets f : M S E A).
Proof. by intros ??. Qed.
Lemma pres_lift {S E A} (I : S → Prop) (r : result E A) : pres I (lift r : M S E A).
Proof. by intros ??. Qed.
Lemma pres_throw {S E} (I : S → Prop) b (e : E) : pres I (throw_if b e : M S E unit).
Proof. by intros ??. Qed.
Lemma pres_modify {S E} (I : S → Prop) (f : S → S) :
  (∀ s, I s → I (f s)) → pres I (modify f : M S E unit).
Proof. intros Hf s. apply Hf. Qed.
Lemma pres_try {S E A} (I : S → Prop) (m : M S E A) (h : E → M S E A) :
  pres I m → (∀ e, pres I (h e)) → pres I (try_except m h).
Proof.
  intros Hm Hh s Hs. unfold try_except. specialize (Hm s Hs).
  destruct (m s) as [[a|e] s1]; simpl in *; [done|]. by apply Hh.
Qed.

#[export] Hint Resolve pres_ret pres_raise pres_get pres_gets pres_lift pres_throw : tori.

(** Prove that a method preserves an invariant by following its code. *)
Ltac solve_pres :=
  repeat first
    [ solve [eauto 2 with tori nocore]
    | apply pres_bind; [|intros ?]
    | apply pres_try; [|intros ?]
    | case_match ].

(** ** Dictionaries *)

Lemma dict_get_cons {K A} `{EqDecision K} (d : list (K * A)) k' v k :
  dict_get ((k', v) :: d) k = if decide (k' = k) then Some v else dict_get d k.
Proof.
  unfold dict_get. simpl. destruct (decide (k' = k)); [done|].
  by destruct (list_find _ d) as [[]|].
Qed.

Lemma dict_get_elem {K A} `{EqDecision K} (d : list (K * A)) k v : dict_get d k = Some v → (k, v) ∈ d.
Proof.
  induction d as [|[j w] d IH]; [done|]. rewrite dict_get_cons. case_decide; intros Hg.
  - simplify_eq. left.
  - right. auto.
Qed.

Lemma dict_get_None {K A} `{EqDecision K} (d : list (K * A)) k : dict_get d k = None ↔ k ∉ d.*1.
Proof.
  induction d as [|[j v] d IH]; [simpl; set_solver|]. rewrite dict_get_cons, fmap_cons. simpl.
  case_decide; set_solver.
Qed.

Lemma dict_get_set {K A} `{EqDecision K} (d : list (K * A)) k v k' :
  dict_get (dict_set d k v) k' = if decide (k = k') then Some v else dict_get d k'.
Proof.
  induction d as [|[j w] d IH]; simpl.
  - rewrite dict_get_cons. done.
  - destruct (decide (j = k)) as [->|Hne]; rewrite !dict_get_cons.
    + by destruct (decide (k = k')).
    + rewrite IH. destruct (decide (j = k')), (decide (k = k')); congruence.
Qed.

Lemma dict_set_keys {K A} `{EqDecision K} (d : list (K * A)) k v k' :
  k' ∈ (dict_set d k v).*1 ↔ k' = k ∨ k' ∈ d.*1.
Proof.
  induction d as [|[j w] d IH]; simpl; [set_solver|].
  destruct (decide (j = k)) as [->|]; simpl; rewrite !elem_of_cons; [set_solver|].
  rewrite IH. set_solver.
Qed.

Lemma dict_set_NoDup {K A} `{EqDecision K} (d : list (K * A)) k v :
  NoDup d.*1 → NoDup (dict_set d k v).*1.
Proof.
  induction d as [|[j w] d IH]; simpl; intros Hd.
  - apply NoDup_singleton.
  - apply NoDup_cons in Hd as [Hj Hd]. destruct (decide (j = k)) as [->|]; simpl;
      apply NoDup_cons; [done|]. rewrite dict_set_keys. naive_solver.
Qed.

(** ** Lists *)

Lemma length_filter_split {A} (P : A → Prop) `{∀ x, Decision (P x)} (l : list A) :
  length (filter P l) + length (filter (λ x, ¬ P x) l) = length l.
Proof.
  induction l as [|x l IH]; [done|]. rewrite !filter_cons.
  destruct (decide (P x)), (decide (¬ P x)); simpl; (done || lia).
Qed.

Lemma zlen_nonneg {A} (l : list A) : (0 <= zlen l)%Z.
Proof. unfold zlen. lia. Qed.

Lemma zlen_app {A} (l k : list A) : zlen (l ++ k) = (zlen l + zlen k)%Z.
Proof. unfold zlen. rewrite length_app. lia. Qed.

Lemma zlen_cons {A} (x : A) l : zlen (x :: l) = (1 + zlen l)%Z.
Proof. unfold zlen. simpl. lia. Qed.

Lemma zlen_0 {A} (l : list A) : zlen l = 0%Z ↔ l = [].
Proof. unfold zlen. destruct l; simpl; split; intros; simplify_eq; try lia; done. Qed.

#[export] Hint Rewrite @zlen_app @zlen_cons : tori.

Lemma StronglySorted_snoc {A} (R : relation A) l x :
  StronglySorted R (l ++ [x]) ↔ StronglySorted R l ∧ Forall (λ y, R y x) l.
Proof.
  rewrite StronglySorted_app, Forall_forall. split; [set_solver|].
  intros [? ?]. split_and!; [set_solver|done|repeat constructor].
Qed.

Lemma StronglySorted_filter {A} (R : relation A) (P : A → Prop) `{∀ x, Decision (P x)} l :
  StronglySorted R l → StronglySorted R (filter P l).
Proof.
  induction 1 as [|a l Hs IH Hf]; [constructor|].
  rewrite filter_cons. case_decide; [|done]. constructor; [done|].
  apply Forall_forall. intros x Hx. apply list_elem_of_filter in Hx as [_ Hx].
  rewrite Forall_forall in Hf. auto.
Qed.

Lemma StronglySorted_take {A} (R : relation A) l n :
  StronglySorted R l → StronglySorted R (take n l).
Proof.
  intros Hs; revert n; induction Hs as [|a l Hs IH Hf]; intros [|n]; simpl;
    constructor; auto. by apply Forall_take.
Qed.

Lemma StronglySorted_lookup_lt {A} (R : relation A) l i j x y :
  StronglySorted R l → l !! i = Some x → l !! j = Some y → (i < j)%nat → R x y.
Proof.
  intros Hs; revert i j. induction Hs as [|a l Hs IH Hf]; intros i j Hi Hj Hlt; [done|].
  destruct j as [|j]; [lia|]. simpl in Hj. destruct i as [|i]; simplify_eq/=.
  - rewrite Forall_forall in Hf. apply Hf. by eapply list_elem_of_lookup_2.
  - eapply IH; [done..|lia].
Qed.

(** On a list with increasing keys, a smaller key means an earlier place. *)
Lemma increasing_sorted {A} (f : A → Z) (R : relation A) l x y :
  increasing f l → StronglySorted R l → x ∈ l → y ∈ l → (f x < f y)%Z → R x y.
Proof.
  intros Hi Hs [i Hx]%list_elem_of_lookup [j Hy]%list_elem_of_lookup Hlt.
  eapply StronglySorted_lookup_lt; [exact Hs|done..|].
  destruct (decide (j < i)%nat) as [Hji|].
  - pose proof (StronglySorted_lookup_lt _ _ _ _ _ _ Hi Hy Hx Hji) as Hc. simpl in Hc. lia.
  - destruct (decide (i = j)) as [->|]; [simplify_eq; lia|lia].
Qed.

(** A list sorted on its keys splits at a boundary into what a filter below
    and a filter above the boundary keep. *)
Lemma increasing_filter_split {A} (f : A → Z) (l : list A) b :
  increasing f l →
  filter (λ x, f x < b)%Z l ++ filter (λ x, b <= f x)%Z l = l.
Proof.
  induction 1 as [|a l Hs IH Hf]; [done|].
  rewrite !filter_cons. case_decide as Ha.
  - rewrite decide_False by lia. simpl. by f_equal.
  - rewrite decide_True by lia.
    assert (filter (λ x, f x < b)%Z l = []) as Hnil.
    { apply elem_of_nil_inv. intros x (Hx & Hin)%list_elem_of_filter.
      rewrite Forall_forall in Hf. specialize (Hf x Hin). lia. }
    rewrite Hnil in IH |- *. simpl in *. by f_equal.
Qed.

Lemma adjacent_lt_increasing {A} (f : A → Z) l :
  adjacent_lt f l = true ↔ increasing f l.
Proof.
  split.
  - intros H. apply Sorted_StronglySorted; [intros ???; lia|].
    revert H. induction l as [|a [|b l] IH]; intros H; [constructor|repeat constructor|].
    simpl in H. apply andb_true_iff in H as [Hab H]. apply Z.ltb_lt in Hab.
    constructor; [by apply IH|by constructor].
  - induction 1 as [|a l Hs IH Hf]; [done|]. destruct l as [|b l]; [done|].
    simpl in *. rewrite IH, andb_true_r. apply Z.ltb_lt. by inversion Hf.
Qed.

Lemma increasing_inj {A} (f : A → Z) l x y :
  increasing f l → x ∈ l → y ∈ l → f x = f y → x = y.
Proof.
  induction 1 as [|a l Hs IH Hf]; [set_solver|]. rewrite Forall_forall in Hf.
  intros [->|Hx]%elem_of_cons [->|Hy]%elem_of_cons E; [done| | |by apply IH].
  - specialize (Hf _ Hy). lia.
  - specialize (Hf _ Hx). lia.
Qed.

(** The first element with a property of a list with increasing keys is the
    one with the least key, as the loops of the sources find it. *)
Lemma list_find_least {A} (f : A → Z) (P : A → Prop) `{∀ x, Decision (P x)} l i x :
  increasing f l → list_find P l = Some (i, x) →
  x ∈ l ∧ P x ∧ ∀ y, y ∈ l → P y → (f x <= f y)%Z.
Proof.
  intros Hs (Hi & HP & Hlt)%list_find_Some. split_and!; [by eapply list_elem_of_lookup_2|done|].
  intros y [j Hj]%list_elem_of_lookup HPy. destruct (decide (j < i)%nat) as [Hji|].
  - by destruct (Hlt j y Hj Hji).
  - destruct (decide (i = j)) as [->|]; [simplify_eq; lia|].
    apply Z.lt_le_incl. eapply StronglySorted_lookup_lt in Hs; [exact Hs|done..|lia].
Qed.
