(* ===== verification/StreamModels.v ===== *)
(** * Persistent streams: value objects, routing and append limits

    The data of [tori_py_persistent_streams_core]: [models.py], [errors.py],
    [routing.py], [validation.py]. A frozen dataclass is a [Record]; its
    [__post_init__] is the function [X_new] that takes the constructor's
    arguments and returns the validated record or the exception. An argument
    whose type the source tests at run time is a [pyobj]. *)

From Stdlib Require Import ZArith Lia.
From stdpp Require Import base tactics list gmap strings.
From S2P Require Import Prelude.
Local Open Scope Z_scope.

(** ** Offsets, cursors, ownership *)

Record AvailableBounds := { earliest_offset : Z; end_offset : Z }.

Inductive CursorKind := INITIALIZED | LAST_SUCCESSFUL.

Record ResumeCursor := { kind : CursorKind; cursor_offset : Z }.

Record CheckpointKey := { key_stream : pystr; key_group : pystr; key_partition : Z }.

Record OwnershipToken := { owner_id : pystr; generation : Z }.

(** ** Exceptions *)

Inductive stream_error :=
| ValidationError
| ResourceLimitError
| UnknownStreamError (name : pystr)
| IncompatibleStreamError (name : pystr)
| InvalidPartitionError
| PublishingConflictError
| StalePublishingIdError
| RetentionGapError (stream : pystr) (partition : Z) (requested_offset : option Z)
    (requested_timestamp : option datetime) (bounds : option AvailableBounds)
    (group : option pystr)
| OwnershipError
| CheckpointError
| CheckpointPersistenceError (cursor : option ResumeCursor) (cause : stream_error)
| CheckpointStrategyError
| LifecycleError
| PoisonRecordError (stream group : pystr) (partition offset : Z) (record_id : uuid)
    (cause : stream_error)
| AdapterContractError
| UnicodeEncodeError
| ValueError
| TypeError
| KeyError
| IndexError
| CancelledError
| KeyboardInterrupt
| ForeignError (id : Z).

(** [isinstance(error, Exception)]: not a cancellation or an interrupt. *)
Definition is_exception (e : stream_error) : bool :=
  match e with CancelledError | KeyboardInterrupt => false | _ => true end.

(** ** Validators *)

Definition _positive (value : pyobj) : result stream_error Z :=
  match value with
  | PyInt z => if z <=? 0 then Err ValidationError else Ok z
  | _ => Err ValidationError
  end.

Definition _offset (value : pyobj) : result stream_error Z :=
  match value with
  | PyInt z => if z <? 0 then Err ValidationError else Ok z
  | _ => Err ValidationError
  end.

Definition _name (value : pyobj) (limit : Z) : result stream_error pystr :=
  match value with
  | PyStr [] => Err ValidationError
  | PyStr s => if limit <? zlen s then Err ResourceLimitError else Ok s
  | _ => Err ValidationError
  end.

Definition _aware (value : pyobj) : result stream_error datetime :=
  match value with
  | PyDatetime d => if dt_aware d then Ok d else Err ValidationError
  | _ => Err ValidationError
  end.

Definition _bytes (value : pyobj) : result stream_error bytes :=
  match value with
  | PyBytes b | PyByteArray b | PyMemoryView b => Ok b
  | _ => Err ValidationError
  end.

(** [isinstance(value, str) and value] *)
Definition non_empty_str (value : pyobj) : result stream_error pystr :=
  match value with
  | PyStr (c :: s) => Ok (c :: s)
  | _ => Err ValidationError
  end.

(** ** Stream definitions *)

Record StreamLimits := {
  max_name_chars : Z;
  max_group_chars : Z;
  max_owner_chars : Z;
  max_producer_chars : Z;
  max_header_name_chars : Z;
  max_partitions : Z;
  max_payload_bytes : Z;
  max_partition_key_bytes : Z;
  max_headers : Z;
  max_header_value_bytes : Z;
  max_header_bytes : Z;
  max_read_records : Z;
  max_relative_age_days : Z
}.

Definition StreamLimits_default : StreamLimits := {|
  max_name_chars := 128;
  max_group_chars := 128;
  max_owner_chars := 128;
  max_producer_chars := 128;
  max_header_name_chars := 128;
  max_partitions := 1024;
  max_payload_bytes := 1048576;
  max_partition_key_bytes := 4096;
  max_headers := 64;
  max_header_value_bytes := 16384;
  max_header_bytes := 65536;
  max_read_records := 1000;
  max_relative_age_days := 365000
|}.

Definition StreamLimits_new (l : StreamLimits) : result stream_error StreamLimits :=
  _ ← rmap (λ v, _positive (PyInt v))
        [max_name_chars l; max_group_chars l; max_owner_chars l; max_producer_chars l;
         max_header_name_chars l; max_partitions l; max_payload_bytes l;
         max_partition_key_bytes l; max_headers l; max_header_value_bytes l;
         max_header_bytes l; max_read_records l; max_relative_age_days l];
  Ok l.

(** A router object: [router_copyable] whether [deepcopy] succeeds,
    [router_implements] the [isinstance] test, [router_identity] and
    [router_compatibility_key] what reading the property gives ([None]: reading,
    copying or hashing it raises), [router_route] its method. *)
Record PartitionRouter := {
  router_copyable : bool;
  router_implements : bool;
  router_identity : option pyobj;
  router_compatibility_key : option pyobj;
  router_route : bytes → Z → result stream_error pyobj
}.

Record StreamDefinition := {
  def_name : pystr;
  partition_count : Z;
  limits : StreamLimits;
  router : PartitionRouter;
  _router_identity : pystr;
  _router_compatibility_key : pyobj
}.

Definition StreamDefinition_new (name count : pyobj) (lim : StreamLimits)
    (r : PartitionRouter) : result stream_error StreamDefinition :=
  n ← _name name (max_name_chars lim);
  c ← _positive count;
  _ ← raise_if (max_partitions lim <? c) ResourceLimitError;
  _ ← raise_if (negb (router_copyable r)) ValidationError;
  _ ← raise_if (negb (router_implements r)) ValidationError;
  identity ← match router_identity r with
             | Some v => non_empty_str v
             | None => Err ValidationError
             end;
  key ← match router_compatibility_key r with
        | Some k => Ok k
        | None => Err ValidationError
        end;
  Ok {| def_name := n; partition_count := c; limits := lim; router := r;
        _router_identity := identity; _router_compatibility_key := key |}.

#[export] Instance StreamLimits_eq_dec : EqDecision StreamLimits.
Proof. solve_decision. Defined.

(** [a.compatibility_key == b.compatibility_key] *)
Definition compatibility_key_eqb (a b : StreamDefinition) : bool :=
  (partition_count a =? partition_count b)
  && bool_decide (limits a = limits b)
  && bool_decide (_router_identity a = _router_identity b)
  && py_eqb (_router_compatibility_key a) (_router_compatibility_key b).

(** ** Requests, receipts and records *)

Record AppendRequest := {
  ar_record_id : uuid;
  ar_partition_key : bytes;
  ar_payload : bytes;
  ar_headers : list (pystr * bytes);
  ar_producer_name : option pystr;
  ar_publishing_id : option Z
}.

Definition copy_request_header (copied : list (pystr * bytes)) (item : pyobj * pyobj)
    : result stream_error (list (pystr * bytes)) :=
  name ← non_empty_str item.1;
  _ ← raise_if (dict_has copied name) ValidationError;
  value ← _bytes item.2;
  Ok (dict_set copied name value).

Definition AppendRequest_new (record_id partition_key payload : pyobj)
    (headers : list (pyobj * pyobj)) (producer_name publishing_id : pyobj)
    : result stream_error AppendRequest :=
  id ← match record_id with PyUUID u => Ok u | _ => Err ValidationError end;
  key ← _bytes partition_key;
  _ ← raise_if (bool_decide (key = [])) ValidationError;
  body ← _bytes payload;
  copied ← rfold copy_request_header [] headers;
  _ ← raise_if
        (xorb (bool_decide (producer_name = PyNone)) (bool_decide (publishing_id = PyNone)))
        ValidationError;
  producer ← match producer_name with
             | PyNone => Ok None
             | p => n ← non_empty_str p; Ok (Some n)
             end;
  publishing ← match publishing_id with
               | PyNone => Ok None
               | p => z ← _offset p; Ok (Some z)
               end;
  Ok {| ar_record_id := id; ar_partition_key := key; ar_payload := body;
        ar_headers := copied; ar_producer_name := producer;
        ar_publishing_id := publishing |}.

(** [a == b] on frozen requests: field by field, headers as dictionaries. *)
Definition AppendRequest_eqb (a b : AppendRequest) : bool :=
  (ar_record_id a =? ar_record_id b)
  && bool_decide (ar_partition_key a = ar_partition_key b)
  && bool_decide (ar_payload a = ar_payload b)
  && dict_eqb (ar_headers a) (ar_headers b)
  && bool_decide (ar_producer_name a = ar_producer_name b)
  && bool_decide (ar_publishing_id a = ar_publishing_id b).

Inductive PublishOutcome :=
| CONFIRMED
| DEDUPLICATED
| REJECTED
| TIMED_OUT
| CLOSED
| BACKPRESSURED
| INDETERMINATE.

Record PublishReceipt := {
  pr_record_id : uuid;
  pr_partition : Z;
  pr_outcome : PublishOutcome;
  confirmation_facts : list pystr
}.

Definition PublishReceipt_new (record_id : uuid) (partition : pyobj)
    (outcome : PublishOutcome) (facts : list pystr) : result stream_error PublishReceipt :=
  p ← _offset partition;
  _ ← raise_if ((16 <? zlen facts) || existsb (λ f, 256 <? zlen f) facts)
        ResourceLimitError;
  Ok {| pr_record_id := record_id; pr_partition := p; pr_outcome := outcome;
        confirmation_facts := facts |}.

Record StoredRecord := {
  sr_record_id : uuid;
  sr_stream : pystr;
  sr_partition_key : bytes;
  sr_payload : bytes;
  sr_headers : list (pystr * bytes);
  sr_partition : Z;
  sr_offset : Z;
  appended_at : datetime
}.

Definition copy_stored_header (headers : list (pystr * bytes)) (item : pystr * bytes)
    : result stream_error (list (pystr * bytes)) :=
  name ← non_empty_str (PyStr item.1);
  value ← _bytes (PyBytes item.2);
  Ok (dict_set headers name value).

Definition StoredRecord_new (record_id : uuid) (stream : pystr)
    (partition_key payload : bytes) (headers : list (pystr * bytes))
    (partition offset : pyobj) (at_ : datetime) : result stream_error StoredRecord :=
  s ← non_empty_str (PyStr stream);
  _ ← raise_if (bool_decide (partition_key = [])) ValidationError;
  hs ← rfold copy_stored_header [] headers;
  p ← _offset partition;
  o ← _offset offset;
  t ← _aware (PyDatetime at_);
  Ok {| sr_record_id := record_id; sr_stream := s; sr_partition_key := partition_key;
        sr_payload := payload; sr_headers := hs; sr_partition := p; sr_offset := o;
        appended_at := t |}.

Definition AvailableBounds_new (earliest end_ : pyobj) : result stream_error AvailableBounds :=
  e ← _offset earliest;
  n ← _offset end_;
  _ ← raise_if (n <? e) ValidationError;
  Ok {| earliest_offset := e; end_offset := n |}.

Record RecordPage := { page_records : list StoredRecord; page_bounds : option AvailableBounds }.

Definition RecordPage_new (records : list StoredRecord) (bounds : option AvailableBounds)
    : result stream_error RecordPage :=
  _ ← raise_if (negb (adjacent_lt sr_offset records)) ValidationError;
  Ok {| page_records := records; page_bounds := bounds |}.

(** ** Start positions and subscriptions *)

Inductive StartPosition :=
| Beginning
| End
| ExactOffset (offset : Z)
| Timestamp (timestamp : datetime)
| RelativeTime (age : Z).

Definition ExactOffset_new (offset : pyobj) : result stream_error StartPosition :=
  z ← _offset offset; Ok (ExactOffset z).

Definition Timestamp_new (timestamp : pyobj) : result stream_error StartPosition :=
  d ← _aware timestamp; Ok (Timestamp d).

Definition RelativeTime_new (age : pyobj) : result stream_error StartPosition :=
  match age with
  | PyTimedelta us => if us <? 0 then Err ValidationError else Ok (RelativeTime us)
  | _ => Err ValidationError
  end.

Record StartModeCapabilities := {
  cap_beginning : bool;
  cap_end : bool;
  cap_exact_offset : bool;
  cap_timestamp : bool;
  cap_relative_time : bool
}.

Definition supports (c : StartModeCapabilities) (start : StartPosition) : bool :=
  match start with
  | Beginning => cap_beginning c
  | End => cap_end c
  | ExactOffset _ => cap_exact_offset c
  | Timestamp _ => cap_timestamp c
  | RelativeTime _ => cap_relative_time c
  end.

Definition ResumeCursor_new (k : CursorKind) (offset : pyobj)
    : result stream_error ResumeCursor :=
  o ← _offset offset; Ok {| kind := k; cursor_offset := o |}.

Definition initialized (offset : Z) : result stream_error ResumeCursor :=
  ResumeCursor_new INITIALIZED (PyInt offset).

Definition last_successful (offset : Z) : result stream_error ResumeCursor :=
  ResumeCursor_new LAST_SUCCESSFUL (PyInt offset).

Definition CheckpointKey_new (stream group partition : pyobj)
    : result stream_error CheckpointKey :=
  s ← non_empty_str stream;
  g ← non_empty_str group;
  p ← _offset partition;
  Ok {| key_stream := s; key_group := g; key_partition := p |}.

Definition OwnershipToken_new (owner gen : pyobj) : result stream_error OwnershipToken :=
  o ← non_empty_str owner;
  g ← _positive gen;
  Ok {| owner_id := o; generation := g |}.

Record Subscription := {
  sub_stream : pystr;
  sub_group : pystr;
  sub_owner_id : pystr;
  sub_start : StartPosition
}.

Definition Subscription_new (stream group owner : pyobj) (start : StartPosition)
    : result stream_error Subscription :=
  s ← non_empty_str stream;
  g ← non_empty_str group;
  o ← non_empty_str owner;
  Ok {| sub_stream := s; sub_group := g; sub_owner_id := o; sub_start := start |}.

(** ** The default router (routing.py)

    [sha256] is [hashlib.sha256(_).digest()]. *)

(** [int.from_bytes(b, "big")] *)
Definition from_bytes_big (b : bytes) : Z :=
  foldl (λ acc x, acc * 256 + Z.of_N (Byte.to_N x)) 0 b.

Definition sha256_route (sha256 : bytes → bytes) (partition_key : bytes) (count : pyobj)
    : result stream_error pyobj :=
  _ ← raise_if (bool_decide (partition_key = [])) ValidationError;
  n ← _positive count;
  Ok (PyInt (from_bytes_big (sha256 partition_key) mod n)).

(** The compatibility key, a one-tuple in the source, is its component here. *)
Definition Sha256PartitionRouter (sha256 : bytes → bytes) : PartitionRouter := {|
  router_copyable := true;
  router_implements := true;
  router_identity := Some (PyStr (str "sha256-v1"));
  router_compatibility_key := Some (PyStr (str "sha256-v1"));
  router_route k n := sha256_route sha256 k (PyInt n)
|}.

(** ** Limits of an append (validation.py) *)

Definition add_header_size (lim : StreamLimits) (aggregate : Z) (item : pystr * bytes)
    : result stream_error Z :=
  _ ← raise_if (max_header_name_chars lim <? zlen item.1) ResourceLimitError;
  _ ← raise_if (max_header_value_bytes lim <? zlen item.2) ResourceLimitError;
  n ← match utf8_len item.1 with Some n => Ok n | None => Err UnicodeEncodeError end;
  Ok (aggregate + (n + zlen item.2)).

Definition validate_append_request_limits (definition : StreamDefinition)
    (request : AppendRequest) : result stream_error unit :=
  let lim := limits definition in
  _ ← raise_if (max_partition_key_bytes lim <? zlen (ar_partition_key request))
        ResourceLimitError;
  _ ← raise_if (max_payload_bytes lim <? zlen (ar_payload request)) ResourceLimitError;
  _ ← raise_if (max_headers lim <? zlen (ar_headers request)) ResourceLimitError;
  aggregate ← rfold (add_header_size lim) 0 (ar_headers request);
  _ ← raise_if (max_header_bytes lim <? aggregate) ResourceLimitError;
  match ar_producer_name request with
  | Some p => raise_if (max_producer_chars lim <? zlen p) ResourceLimitError
  | None => Ok tt
  end.

(** ** Decidable equality and countability *)

#[export] Instance AvailableBounds_eq_dec : EqDecision AvailableBounds.
Proof. solve_decision. Defined.
#[export] Instance CursorKind_eq_dec : EqDecision CursorKind.
Proof. solve_decision. Defined.
#[export] Instance ResumeCursor_eq_dec : EqDecision ResumeCursor.
Proof. solve_decision. Defined.
#[export] Instance OwnershipToken_eq_dec : EqDecision OwnershipToken.
Proof. solve_decision. Defined.
#[export] Instance StoredRecord_eq_dec : EqDecision StoredRecord.
Proof. solve_decision. Defined.
#[export] Instance StartPosition_eq_dec : EqDecision StartPosition.
Proof. solve_decision. Defined.
#[export] Instance CheckpointKey_eq_dec : EqDecision CheckpointKey.
Proof. solve_decision. Defined.
#[export] Instance CheckpointKey_countable : Countable CheckpointKey.
Proof.
  refine (inj_countable' (λ k, (key_stream k, key_group k, key_partition k))
    (λ t, {| key_stream := t.1.1; key_group := t.1.2; key_partition := t.2 |}) _).
  by intros [].
Defined.
#[export] Instance AppendRequest_eq_dec : EqDecision AppendRequest.
Proof. solve_decision. Defined.
#[export] Instance PublishOutcome_eq_dec : EqDecision PublishOutcome.
Proof. solve_decision. Defined.
#[export] Instance PublishReceipt_eq_dec : EqDecision PublishReceipt.
Proof. solve_decision. Defined.

(** ** What construction guarantees *)

(** The type invariant of an [AppendRequest]. *)
Record wf_request (r : AppendRequest) : Prop := {
  wf_key : ar_partition_key r ≠ [];
  wf_headers : NoDup (ar_headers r).*1;
  wf_header_names : Forall (λ kv, kv.1 ≠ []) (ar_headers r);
  wf_producer : is_Some (ar_producer_name r) ↔ is_Some (ar_publishing_id r);
  wf_producer_name : ar_producer_name r ≠ Some [];
  wf_publishing : ∀ z, ar_publishing_id r = Some z → 0 <= z
}.

(** The limits [validate_append_request_limits] enforces, declaratively. *)
Definition header_size (kv : pystr * bytes) : Z := default 0 (utf8_len kv.1) + zlen kv.2.

Record within_limits (lim : StreamLimits) (r : AppendRequest) : Prop := {
  wl_key : zlen (ar_partition_key r) <= max_partition_key_bytes lim;
  wl_payload : zlen (ar_payload r) <= max_payload_bytes lim;
  wl_count : zlen (ar_headers r) <= max_headers lim;
  wl_each : Forall (λ kv, zlen kv.1 <= max_header_name_chars lim ∧
                          zlen kv.2 <= max_header_value_bytes lim ∧
                          is_Some (utf8_len kv.1)) (ar_headers r);
  wl_total : foldr (λ kv acc, header_size kv + acc) 0 (ar_headers r) <= max_header_bytes lim;
  wl_producer : ∀ p, ar_producer_name r = Some p → zlen p <= max_producer_chars lim
}.

Lemma offset_int z : 0 <= z → _offset (PyInt z) = Ok z.
Proof. intros H. simpl. destruct (Z.ltb_spec z 0); [lia|done]. Qed.

Lemma offset_ok v z : _offset v = Ok z ↔ v = PyInt z ∧ 0 <= z.
Proof.
  split; [|intros [-> H]; by apply offset_int].
  destruct v as [| |y| | | | | | | |]; simpl; try done.
  destruct (Z.ltb_spec y 0); intros; simplify_eq. done.
Qed.

Lemma positive_ok v z : _positive v = Ok z ↔ v = PyInt z ∧ 0 < z.
Proof.
  destruct v as [| |y| | | | | | | |]; simpl; try naive_solver.
  destruct (Z.leb_spec y 0); naive_solver lia.
Qed.

Lemma non_empty_str_ok v s : non_empty_str v = Ok s ↔ v = PyStr s ∧ s ≠ [].
Proof. destruct v as [| | |[|c t]| | | | | | |]; naive_solver. Qed.

Lemma dict_has_spec {A} (d : list (pystr * A)) k : dict_has d k = true ↔ k ∈ d.*1.
Proof.
  unfold dict_has. rewrite existsb_exists. split.
  - intros ([k' v] & Hin & Hk). bool_hyps. simpl in Hk. subst.
    apply list_elem_of_fmap. exists (k, v). by rewrite list_elem_of_In.
  - intros ([k' v] & -> & Hin)%list_elem_of_fmap. exists (k', v).
    rewrite <- list_elem_of_In. split; [done|]. by apply bool_decide_eq_true.
Qed.

Lemma dict_set_fresh {A} (d : list (pystr * A)) k v :
  k ∉ d.*1 → dict_set d k v = d ++ [(k, v)].
Proof.
  induction d as [|[k' v'] d IH]; simpl; [done|]. intros Hk.
  rewrite not_elem_of_cons in Hk. destruct Hk as [? ?].
  rewrite decide_False by done. by rewrite IH.
Qed.

Lemma copy_request_header_ok c it c' :
  copy_request_header c it = Ok c' →
  ∃ n v, it.1 = PyStr n ∧ n ≠ [] ∧ (n ∉ c.*1) ∧ _bytes it.2 = Ok v ∧ c' = c ++ [(n, v)].
Proof.
  unfold copy_request_header. intros H.
  apply result_bind_ok in H as (n & [Hn Hne]%non_empty_str_ok & H).
  apply result_bind_ok in H as (? & Hdup%raise_if_ok & H).
  apply result_bind_ok in H as (v & Hv & H). simplify_eq.
  assert (n ∉ c.*1) by (rewrite <- dict_has_spec, Hdup; done).
  exists n, v. split_and!; try done. by apply dict_set_fresh.
Qed.

Lemma copy_request_headers_wf items c c' :
  NoDup c.*1 → Forall (λ kv, kv.1 ≠ []) c →
  rfold copy_request_header c items = Ok c' →
  NoDup c'.*1 ∧ Forall (λ kv, kv.1 ≠ []) c'.
Proof.
  revert c; induction items as [|it items IH]; intros c Hn Hf H; simpl in H; [by simplify_eq|].
  apply result_bind_ok in H as (c1 & Hc1 & H).
  apply copy_request_header_ok in Hc1 as (n & v & _ & Hne & Hni & _ & ->).
  eapply IH; [| |exact H].
  - rewrite fmap_app. apply NoDup_app. split_and!; [done| |simpl; apply NoDup_singleton].
    intros x Hx Hin. simpl in Hin. apply list_elem_of_singleton in Hin. by subst.
  - rewrite Forall_app, Forall_singleton. done.
Qed.

Lemma AppendRequest_new_wf a b c d e f r : AppendRequest_new a b c d e f = Ok r → wf_request r.
Proof.
  unfold AppendRequest_new. intros H.
  apply result_bind_ok in H as (id & _ & H).
  apply result_bind_ok in H as (key & _ & H).
  apply result_bind_ok in H as (? & Hkey%raise_if_ok & H).
  apply result_bind_ok in H as (body & _ & H).
  apply result_bind_ok in H as (hs & Hhs & H).
  apply copy_request_headers_wf in Hhs as [Hnd Hne]; [|constructor..].
  apply result_bind_ok in H as (? & Hx%raise_if_ok & H).
  apply result_bind_ok in H as (pn & Hpn & H).
  apply result_bind_ok in H as (pid & Hpid & H). simplify_eq.
  assert (pn = None ↔ e = PyNone) as Hpe.
  { destruct e; simplify_eq/=; try (split; done);
      apply result_bind_ok in Hpn as (? & _ & ?); simplify_eq; split; done. }
  assert (pid = None ↔ f = PyNone) as Hpf.
  { destruct f; simplify_eq/=; try (split; done);
      apply result_bind_ok in Hpid as (? & _ & ?); simplify_eq; split; done. }
  assert (e = PyNone ↔ f = PyNone) as Hef.
  { destruct (bool_decide_reflect (e = PyNone)), (bool_decide_reflect (f = PyNone));
      simpl in Hx; naive_solver. }
  constructor; simpl; try done.
  - by apply bool_decide_eq_false in Hkey.
  - rewrite <- !not_eq_None_Some. tauto.
  - intros ->. destruct e; try discriminate;
      apply result_bind_ok in Hpn as (? & [_ ?]%non_empty_str_ok & ?); by simplify_eq.
  - intros z ->. destruct f; try discriminate;
      apply result_bind_ok in Hpid as (? & [_ ?]%offset_ok & ?); by simplify_eq.
Qed.

Lemma copy_stored_headers_id hs acc :
  NoDup (acc ++ hs).*1 → Forall (λ kv, kv.1 ≠ []) hs →
  rfold copy_stored_header acc hs = Ok (acc ++ hs).
Proof.
  revert acc; induction hs as [|[k v] hs IH]; intros acc Hnd Hf; simpl.
  - by rewrite app_nil_r.
  - inversion Hf as [|? ? Hk Hf']; subst; simpl in Hk.
    assert (copy_stored_header acc (k, v) = Ok (acc ++ [(k, v)])) as E.
    { unfold copy_stored_header. simpl. destruct k as [|c k]; [done|]. simpl.
      rewrite dict_set_fresh; [done|].
      rewrite fmap_app in Hnd. apply NoDup_app in Hnd as (_ & Hd & _).
      intros Hin. apply (Hd _ Hin). simpl. apply elem_of_cons. by left. }
    rewrite E. simpl. rewrite IH; [by rewrite <- app_assoc| |done].
    by rewrite <- app_assoc.
Qed.

(** A record built from a well-formed request is that request's data: the
    checks of [StoredRecord.__post_init__] cannot fail on it. *)
Lemma StoredRecord_of_request r stream p o at_ :
  wf_request r → stream ≠ [] → 0 <= p → 0 <= o → dt_aware at_ = true →
  StoredRecord_new (ar_record_id r) stream (ar_partition_key r) (ar_payload r)
    (ar_headers r) (PyInt p) (PyInt o) at_ =
  Ok {| sr_record_id := ar_record_id r; sr_stream := stream;
        sr_partition_key := ar_partition_key r; sr_payload := ar_payload r;
        sr_headers := ar_headers r; sr_partition := p; sr_offset := o; appended_at := at_ |}.
Proof.
  intros Hr Hs Hp Ho Ht. unfold StoredRecord_new.
  rewrite (proj2 (non_empty_str_ok _ stream)) by done. simpl.
  rewrite bool_decide_eq_false_2 by apply Hr. simpl.
  rewrite copy_stored_headers_id; [|apply Hr..]. simpl.
  rewrite (proj2 (Z.ltb_ge p 0)), (proj2 (Z.ltb_ge o 0)) by lia. simpl. by rewrite Ht.
Qed.

Lemma add_header_size_ok lim acc kv a :
  add_header_size lim acc kv = Ok a ↔
  (zlen kv.1 <= max_header_name_chars lim ∧ zlen kv.2 <= max_header_value_bytes lim ∧
   is_Some (utf8_len kv.1)) ∧ a = acc + header_size kv.
Proof.
  unfold add_header_size, header_size. split.
  - intros H.
    apply result_bind_ok in H as (? & Hn%raise_if_ok & H).
    apply result_bind_ok in H as (? & Hv%raise_if_ok & H). bool_hyps.
    destruct (utf8_len kv.1); simplify_eq/=. eauto.
  - intros [(Hn & Hv & [n ->]) ->]. simpl.
    do 2 (rewrite (proj2 (Z.ltb_ge _ _)) by lia; simpl). done.
Qed.

Lemma add_header_sizes_ok lim hs acc total :
  rfold (add_header_size lim) acc hs = Ok total ↔
  Forall (λ kv, zlen kv.1 <= max_header_name_chars lim ∧
                zlen kv.2 <= max_header_value_bytes lim ∧ is_Some (utf8_len kv.1)) hs ∧
  total = acc + foldr (λ kv a, header_size kv + a) 0 hs.
Proof.
  revert acc; induction hs as [|kv hs IH]; intros acc; simpl.
  - split; [intros; simplify_eq; split; [constructor|lia]|].
    intros [_ ->]. f_equal. lia.
  - rewrite Forall_cons, result_bind_ok. split.
    + intros (a1 & [? ->]%add_header_size_ok & [? ->]%IH). split; [done|lia].
    + intros [[? ?] ->]. exists (acc + header_size kv).
      split; [by apply add_header_size_ok|]. apply IH. split; [done|lia].
Qed.

(** The imperative limit checks accept exactly the requests within limits. *)
Lemma validate_append_request_limits_spec d r u :
  validate_append_request_limits d r = Ok u ↔ within_limits (limits d) r.
Proof.
  destruct u. unfold validate_append_request_limits. split.
  - intros H.
    apply result_bind_ok in H as (? & ?%raise_if_ok & H).
    apply result_bind_ok in H as (? & ?%raise_if_ok & H).
    apply result_bind_ok in H as (? & ?%raise_if_ok & H).
    apply result_bind_ok in H as (tot & [Hf ->]%add_header_sizes_ok & H).
    apply result_bind_ok in H as (? & ?%raise_if_ok & H). bool_hyps.
    constructor; try lia; [done|].
    intros p Hp. rewrite Hp in H. apply raise_if_ok in H. bool_hyps. lia.
  - intros [H1 H2 H3 H4 H5 H6].
    do 3 (rewrite (proj2 (Z.ltb_ge _ _)) by lia; simpl).
    rewrite (proj2 (add_header_sizes_ok _ _ _ _) (conj H4 eq_refl)). simpl.
    rewrite (proj2 (Z.ltb_ge _ _)) by lia. simpl.
    destruct (ar_producer_name r) as [p|] eqn:E; [|done]. specialize (H6 p eq_refl).
    by rewrite (proj2 (Z.ltb_ge _ _)) by lia.
Qed.

Lemma sha256_route_range sha key n v :
  sha256_route sha key (PyInt n) = Ok v → ∃ z, v = PyInt z ∧ 0 <= z < n.
Proof.
  unfold sha256_route. intros H.
  apply result_bind_ok in H as (? & _ & H).
  apply result_bind_ok in H as (m & [Hm Hpos]%positive_ok & H). simplify_eq.
  eexists; split; [done|]. by apply Z.mod_pos_bound.
Qed.
