(* ===== verification/Checkpoints.v ===== *)
(** * Checkpoint stores

    [checkpoints.py] of [tori_py_persistent_streams_core]: the [CheckpointStore]
    protocol as a type class with the laws its documentation promises, the
    in-memory store that implements it, and the wrapper that normalises what an
    external store returns or raises. *)

From Stdlib Require Import ZArith Lia.
From stdpp Require Import base tactics list gmap strings.
From S2P Require Import Prelude StreamModels.
Local Open Scope Z_scope.

(** ** The protocol *)

(** What a store call may return: [None], a cursor, or an object of another
    type (a contract violation the caller tests for). *)
Inductive store_value :=
| SVNone
| SVCursor (c : ResumeCursor)
| SVOther.

Class CheckpointStore (S : Type) := {
  fence : CheckpointKey → OwnershipToken → M S stream_error store_value;
  load : CheckpointKey → M S stream_error store_value;
  compare_and_create :
    CheckpointKey → ResumeCursor → OwnershipToken → M S stream_error store_value;
  save :
    CheckpointKey → ResumeCursor → ResumeCursor → OwnershipToken →
    M S stream_error store_value
}.

(** A cursor may be replaced by a later one only: past a processed record, or
    at or after an initialised start. *)
Definition advances (expected cursor : ResumeCursor) : Prop :=
  match kind expected with
  | LAST_SUCCESSFUL => cursor_offset expected < cursor_offset cursor
  | INITIALIZED => cursor_offset expected <= cursor_offset cursor
  end.

(** The documented contract: [fence] replaces the owner, and the writes accept
    only that owner; a write happens completely or not at all. *)
Class CheckpointStoreLaws (S : Type) `{CheckpointStore S} := {
  store_owner : S → CheckpointKey → option OwnershipToken;
  store_cursor : S → CheckpointKey → option ResumeCursor;
  fence_law s k o v s' : fence k o s = (Ok v, s') →
    v = SVNone ∧ store_owner s' k = Some o ∧ store_cursor s' = store_cursor s;
  load_law s k v s' : load k s = (Ok v, s') →
    s' = s ∧ v = match store_cursor s k with Some c => SVCursor c | None => SVNone end;
  create_law s k c o v s' : compare_and_create k c o s = (Ok v, s') →
    store_owner s k = Some o ∧ store_owner s' = store_owner s ∧
    v = SVCursor (default c (store_cursor s k)) ∧
    store_cursor s' k = Some (default c (store_cursor s k));
  save_law s k e c o v s' : save k e c o s = (Ok v, s') →
    v = SVNone ∧ store_owner s k = Some o ∧ store_owner s' = store_owner s ∧
    store_cursor s k = Some e ∧ store_cursor s' k = Some c ∧
    kind c = LAST_SUCCESSFUL ∧ advances e c;
  create_other s k c o v s' k' : compare_and_create k c o s = (Ok v, s') → k' ≠ k →
    store_cursor s' k' = store_cursor s k';
  save_other s k e c o v s' k' : save k e c o s = (Ok v, s') → k' ≠ k →
    store_cursor s' k' = store_cursor s k';
  create_err s k c o e s' : compare_and_create k c o s = (Err e, s') → s' = s;
  save_err s k e c o x s' : save k e c o s = (Err x, s') → s' = s
}.

(** ** Strategies *)

(** The broker's own cursors, or an external store named by its identity text
    and referenced by object. [UnsupportedStrategy] is any other argument. *)
Inductive CheckpointStrategy :=
| BROKER_MANAGED
| ExternalCheckpointStrategy (identity : pystr) (store : Z)
| UnsupportedStrategy.

Definition ExternalCheckpointStrategy_new (identity : pyobj) (implements : bool) (store : Z)
    : result stream_error CheckpointStrategy :=
  i ← non_empty_str identity;
  _ ← raise_if (256 <? zlen i) ValidationError;
  _ ← raise_if (negb implements) TypeError;
  Ok (ExternalCheckpointStrategy i store).

(** ** The in-memory store *)

Record InMemoryCheckpointStore := {
  _cursors : gmap CheckpointKey ResumeCursor;
  _store_owners : gmap CheckpointKey OwnershipToken
}.

Definition InMemoryCheckpointStore_new : InMemoryCheckpointStore :=
  {| _cursors := ∅; _store_owners := ∅ |}.

Definition set_cursor (k : CheckpointKey) (c : ResumeCursor) (s : InMemoryCheckpointStore)
    : InMemoryCheckpointStore :=
  {| _cursors := <[k := c]> (_cursors s); _store_owners := _store_owners s |}.

Definition _require_owner (k : CheckpointKey) (owner : OwnershipToken)
    : M InMemoryCheckpointStore stream_error unit :=
  s ← get;
  throw_if (bool_decide (_store_owners s !! k ≠ Some owner)) OwnershipError.

Definition mem_fence (k : CheckpointKey) (owner : OwnershipToken)
    : M InMemoryCheckpointStore stream_error store_value :=
  modify (λ s, {| _cursors := _cursors s; _store_owners := <[k := owner]> (_store_owners s) |});;
  mret SVNone.

Definition mem_load (k : CheckpointKey) : M InMemoryCheckpointStore stream_error store_value :=
  s ← get;
  mret match _cursors s !! k with Some c => SVCursor c | None => SVNone end.

Definition mem_compare_and_create (k : CheckpointKey) (cursor : ResumeCursor)
    (owner : OwnershipToken) : M InMemoryCheckpointStore stream_error store_value :=
  throw_if (bool_decide (kind cursor ≠ INITIALIZED)) CheckpointError;;
  _require_owner k owner;;
  s ← get;
  match _cursors s !! k with
  | Some c => mret (SVCursor c)
  | None => modify (set_cursor k cursor);; mret (SVCursor cursor)
  end.

Definition mem_save (k : CheckpointKey) (expected cursor : ResumeCursor)
    (owner : OwnershipToken) : M InMemoryCheckpointStore stream_error store_value :=
  _require_owner k owner;;
  s ← get;
  throw_if (bool_decide (_cursors s !! k ≠ Some expected)) CheckpointError;;
  throw_if (bool_decide (kind cursor ≠ LAST_SUCCESSFUL)) CheckpointError;;
  throw_if (bool_decide (kind expected = LAST_SUCCESSFUL)
            && (cursor_offset cursor <=? cursor_offset expected)) CheckpointError;;
  throw_if (bool_decide (kind expected = INITIALIZED)
            && (cursor_offset cursor <? cursor_offset expected)) CheckpointError;;
  modify (set_cursor k cursor);;
  mret SVNone.

#[export] Instance InMemory_CheckpointStore : CheckpointStore InMemoryCheckpointStore := {|
  fence := mem_fence;
  load := mem_load;
  compare_and_create := mem_compare_and_create;
  save := mem_save
|}.

(** ** Normalising external calls *)

Inductive returns_contract := returns_none | returns_cursor | returns_optional_cursor.

(** The [try] body: the returned object against the contract of the call. *)
Definition check_store_value (returns : returns_contract) (v : store_value)
    : result stream_error (option ResumeCursor) :=
  match returns, v with
  | returns_none, SVNone => Ok None
  | returns_none, _ => Err AdapterContractError
  | returns_cursor, SVCursor c => Ok (Some c)
  | returns_cursor, _ => Err AdapterContractError
  | returns_optional_cursor, SVNone => Ok None
  | returns_optional_cursor, SVCursor c => Ok (Some c)
  | returns_optional_cursor, SVOther => Err AdapterContractError
  end.

Definition validate_checkpoint_store_call {S} (operation : M S stream_error store_value)
    (cursor : option ResumeCursor) (returns : returns_contract)
    : M S stream_error (option ResumeCursor) :=
  try_except
    (v ← operation; lift (check_store_value returns v))
    (λ error,
      if is_exception error then raise (CheckpointPersistenceError cursor error)
      else raise error).

(** ** The in-memory store keeps the contract *)

Lemma store_require_owner_ok k o s u s' :
  _require_owner k o s = (Ok u, s') → s' = s ∧ _store_owners s !! k = Some o.
Proof.
  unfold _require_owner. intros H. m_inv. bool_hyps.
  split; [done|]. destruct (decide (_store_owners s' !! k = Some o)); naive_solver.
Qed.

Lemma store_require_owner_err k o s e s' : _require_owner k o s = (Err e, s') → s' = s.
Proof. unfold _require_owner. intros H. m_inv. Qed.

Lemma mem_create_ok k c o s v s' :
  mem_compare_and_create k c o s = (Ok v, s') →
  _store_owners s !! k = Some o ∧ kind c = INITIALIZED ∧
  ((∃ c0, _cursors s !! k = Some c0 ∧ v = SVCursor c0 ∧ s' = s) ∨
   (_cursors s !! k = None ∧ v = SVCursor c ∧ s' = set_cursor k c s)).
Proof.
  unfold mem_compare_and_create. intros H.
  apply M_bind_ok in H as (? & s1 & H0 & H).
  apply M_bind_ok in H as (? & s2 & H1 & H).
  apply store_require_owner_ok in H1 as [-> Ho].
  unfold throw_if in H0. case_match; [done|]. m_inv; bool_hyps;
    split_and!; try done; try (by destruct (kind c)); eauto.
  all: destruct (kind c); naive_solver.
Qed.

Lemma mem_save_ok k e c o s v s' :
  mem_save k e c o s = (Ok v, s') →
  v = SVNone ∧ _store_owners s !! k = Some o ∧ _cursors s !! k = Some e ∧
  kind c = LAST_SUCCESSFUL ∧ advances e c ∧ s' = set_cursor k c s.
Proof.
  unfold mem_save, advances. intros H.
  apply M_bind_ok in H as (? & s1 & H0 & H).
  apply store_require_owner_ok in H0 as [-> Ho].
  m_inv; bool_hyps; split_and!; try done; try lia;
    destruct (decide (_cursors s !! k = Some e)), (kind e), (kind c);
    simpl in *; naive_solver lia.
Qed.

Lemma mem_save_err k e c o s x s' : mem_save k e c o s = (Err x, s') → s' = s.
Proof.
  unfold mem_save. intros H. apply M_bind_err in H as [H|(? & s1 & H0 & H)].
  - by apply store_require_owner_err in H.
  - apply store_require_owner_ok in H0 as [-> _]. m_inv.
Qed.

Lemma mem_create_err k c o s x s' : mem_compare_and_create k c o s = (Err x, s') → s' = s.
Proof.
  unfold mem_compare_and_create. intros H.
  apply M_bind_err in H as [H|(? & s1 & H0 & H)]; [m_inv|].
  assert (s1 = s) as -> by m_inv.
  apply M_bind_err in H as [H|(? & s2 & H1 & H)]; [by apply store_require_owner_err in H|].
  apply store_require_owner_ok in H1 as [-> _]. m_inv.
Qed.

#[export] Instance InMemory_CheckpointStoreLaws : CheckpointStoreLaws InMemoryCheckpointStore.
Proof.
  refine {| store_owner s k := _store_owners s !! k; store_cursor s k := _cursors s !! k |}.
  - simpl. unfold mem_fence. intros * H. m_inv. by rewrite lookup_insert_eq.
  - simpl. unfold mem_load. intros * H. m_inv.
  - intros * (Ho & _ & [(c0 & Hc & -> & ->)|(Hc & -> & ->)])%mem_create_ok;
      rewrite Hc; simpl; rewrite ?lookup_insert_eq; done.
  - intros * (-> & Ho & Hc & Hk & Ha & ->)%mem_save_ok. simpl.
    by rewrite lookup_insert_eq.
  - intros * (Ho & _ & [(c0 & Hc & -> & ->)|(Hc & -> & ->)])%mem_create_ok Hne; [done|].
    simpl. by rewrite lookup_insert_ne.
  - intros * (-> & Ho & Hc & Hk & Ha & ->)%mem_save_ok Hne. simpl.
    by rewrite lookup_insert_ne.
  - intros *; apply mem_create_err.
  - intros *; apply mem_save_err.
Defined.
