(* ===== verification/StreamLog.v ===== *)
(** * The in-memory persistent log

    [inmemory.py] of [tori_py_persistent_streams_core]. [log] is the state of
    [InMemoryPersistentLog]; the lease objects, which the log and its clients
    share, live in its table [objects] and are referenced by identity. A method
    whose body runs under the log's lock without awaiting is one definition on
    [log]; [acquire], [_initialize], [_next] and [_checkpoint], which release
    the lock or call a checkpoint store in between, are composed from their
    atomic sections on [world], the log with the checkpoint stores it uses. The
    value a call of the clock returns is the argument [now]. *)

From Stdlib Require Import ZArith Lia.
From stdpp Require Import base tactics list gmap strings.
From S2P Require Import Prelude StreamModels Checkpoints.
Local Open Scope Z_scope.

(** ** State *)

Record _PartitionState := {
  records : list StoredRecord;
  next_offset : Z;
  first_offset : Z;
  last_timestamp : option datetime;
  removed_through : option datetime
}.

Definition _PartitionState_new : _PartitionState :=
  {| records := []; next_offset := 0; first_offset := 0; last_timestamp := None;
     removed_through := None |}.

Record _ProducerState := {
  prod_publishing_id : Z;
  prod_request : AppendRequest;
  prod_receipt : PublishReceipt
}.

Record _StreamState := {
  definition : StreamDefinition;
  partitions : list _PartitionState;
  producers : gmap (Z * pystr) _ProducerState
}.

Record _StrategyBinding := {
  mode : pystr;
  binding_identity : option pystr;
  binding_store : option Z
}.

#[export] Instance _StrategyBinding_eq_dec : EqDecision _StrategyBinding.
Proof. solve_decision. Defined.

Record InMemoryPartitionLease := {
  subscription : Subscription;
  lease_key : CheckpointKey;
  lease_owner : OwnershipToken;
  _store : option Z;
  _stopped : bool;
  _released : bool;
  _revocation_requested : bool;
  _in_flight : option StoredRecord;
  _delivery_completed : bool
}.

Record log := MkLog {
  _max_active_leases : Z;
  _streams : gmap pystr _StreamState;
  _owners : gmap CheckpointKey OwnershipToken;
  _leases : gmap CheckpointKey Z;
  _transfers : gmap CheckpointKey Z;
  _generations : gmap CheckpointKey Z;
  _broker_cursors : gmap CheckpointKey ResumeCursor;
  _group_strategies : gmap (pystr * pystr) _StrategyBinding;
  _pending_group_strategies : gmap (pystr * pystr) (_StrategyBinding * Z);
  _closed : bool;
  _started : bool;
  _quiescing : bool;
  objects : gmap Z InMemoryPartitionLease;
  next_object : Z
}.

Definition start_mode_capabilities : StartModeCapabilities :=
  {| cap_beginning := true; cap_end := true; cap_exact_offset := true;
     cap_timestamp := true; cap_relative_time := true |}.

Definition InMemoryPersistentLog_new (max_active_leases : pyobj) : result stream_error log :=
  m ← _positive max_active_leases;
  Ok (MkLog m ∅ ∅ ∅ ∅ ∅ ∅ ∅ ∅ false false false ∅ 0).

(** Assignments to the attributes. *)
Definition set_streams v l := MkLog (_max_active_leases l) v (_owners l) (_leases l)
  (_transfers l) (_generations l) (_broker_cursors l) (_group_strategies l)
  (_pending_group_strategies l) (_closed l) (_started l) (_quiescing l) (objects l) (next_object l).
Definition set_ownership ow le l := MkLog (_max_active_leases l) (_streams l) ow le
  (_transfers l) (_generations l) (_broker_cursors l) (_group_strategies l)
  (_pending_group_strategies l) (_closed l) (_started l) (_quiescing l) (objects l) (next_object l).
Definition set_transfers v l := MkLog (_max_active_leases l) (_streams l) (_owners l) (_leases l)
  v (_generations l) (_broker_cursors l) (_group_strategies l)
  (_pending_group_strategies l) (_closed l) (_started l) (_quiescing l) (objects l) (next_object l).
Definition set_generations v l := MkLog (_max_active_leases l) (_streams l) (_owners l) (_leases l)
  (_transfers l) v (_broker_cursors l) (_group_strategies l)
  (_pending_group_strategies l) (_closed l) (_started l) (_quiescing l) (objects l) (next_object l).
Definition set_broker_cursors v l := MkLog (_max_active_leases l) (_streams l) (_owners l) (_leases l)
  (_transfers l) (_generations l) v (_group_strategies l)
  (_pending_group_strategies l) (_closed l) (_started l) (_quiescing l) (objects l) (next_object l).
Definition set_group_strategies v l := MkLog (_max_active_leases l) (_streams l) (_owners l) (_leases l)
  (_transfers l) (_generations l) (_broker_cursors l) v
  (_pending_group_strategies l) (_closed l) (_started l) (_quiescing l) (objects l) (next_object l).
Definition set_pending v l := MkLog (_max_active_leases l) (_streams l) (_owners l) (_leases l)
  (_transfers l) (_generations l) (_broker_cursors l) (_group_strategies l)
  v (_closed l) (_started l) (_quiescing l) (objects l) (next_object l).
Definition set_flags c st q l := MkLog (_max_active_leases l) (_streams l) (_owners l) (_leases l)
  (_transfers l) (_generations l) (_broker_cursors l) (_group_strategies l)
  (_pending_group_strategies l) c st q (objects l) (next_object l).
Definition set_objects v n l := MkLog (_max_active_leases l) (_streams l) (_owners l) (_leases l)
  (_transfers l) (_generations l) (_broker_cursors l) (_group_strategies l)
  (_pending_group_strategies l) (_closed l) (_started l) (_quiescing l) v n.

Abbreviation L := (M log stream_error).

(** Identity of a new object. *)
Definition fresh_object : L Z :=
  l ← get; modify (set_objects (objects l) (next_object l + 1));; mret (next_object l).

(** Reading and writing a lease object. *)
Definition _lease (lid : Z) : L InMemoryPartitionLease :=
  l ← get; match objects l !! lid with Some x => mret x | None => raise KeyError end.
Definition alter_lease (lid : Z) (f : InMemoryPartitionLease → InMemoryPartitionLease) : L unit :=
  modify (λ l, set_objects (alter f lid (objects l)) (next_object l) l).

Definition set_revocation (b : bool) (x : InMemoryPartitionLease) : InMemoryPartitionLease :=
  {| subscription := subscription x; lease_key := lease_key x; lease_owner := lease_owner x;
     _store := _store x; _stopped := _stopped x; _released := _released x;
     _revocation_requested := b; _in_flight := _in_flight x;
     _delivery_completed := _delivery_completed x |}.
Definition set_delivery (r : option StoredRecord) (completed : bool) (x : InMemoryPartitionLease)
    : InMemoryPartitionLease :=
  {| subscription := subscription x; lease_key := lease_key x; lease_owner := lease_owner x;
     _store := _store x; _stopped := _stopped x; _released := _released x;
     _revocation_requested := _revocation_requested x; _in_flight := r;
     _delivery_completed := completed |}.
Definition set_terminal (stopped released : bool) (x : InMemoryPartitionLease)
    : InMemoryPartitionLease :=
  {| subscription := subscription x; lease_key := lease_key x; lease_owner := lease_owner x;
     _store := _store x; _stopped := stopped; _released := released;
     _revocation_requested := _revocation_requested x; _in_flight := None;
     _delivery_completed := true |}.

(** ** Checks *)

Definition _require_open : L unit :=
  l ← get; throw_if (_closed l) LifecycleError.

Definition _require_owner_locked (key : CheckpointKey) (owner : OwnershipToken) : L unit :=
  _require_open;;
  l ← get; throw_if (bool_decide (_owners l !! key ≠ Some owner)) OwnershipError.

Definition _stream (name : pystr) : L _StreamState :=
  l ← get;
  match _streams l !! name with
  | Some s => mret s
  | None => raise (UnknownStreamError name)
  end.

Definition _partition (state : _StreamState) (partition : pyobj)
    : result stream_error (Z * _PartitionState) :=
  match partition with
  | PyInt p =>
      if (p <? 0) || (zlen (partitions state) <=? p) then Err InvalidPartitionError
      else match partitions state !! Z.to_nat p with
           | Some part => Ok (p, part)
           | None => Err IndexError
           end
  | _ => Err InvalidPartitionError
  end.

Definition _now (clock_value : pyobj) : result stream_error datetime :=
  match clock_value with
  | PyDatetime d => if dt_aware d then Ok d else Err ValidationError
  | _ => Err ValidationError
  end.

Definition _bounds (part : _PartitionState) : result stream_error AvailableBounds :=
  AvailableBounds_new (PyInt (first_offset part)) (PyInt (next_offset part)).

Definition _require_retained (stream : pystr) (partition offset : Z) (part : _PartitionState)
    (group : option pystr) : result stream_error unit :=
  if offset <? first_offset part then
    b ← _bounds part;
    Err (RetentionGapError stream partition (Some offset) None (Some b) group)
  else Ok tt.

Definition _validate_read (d : StreamDefinition) (from_offset limit : pyobj)
    : result stream_error (Z * Z) :=
  from ← match from_offset with
         | PyInt z => if z <? 0 then Err ValidationError else Ok z
         | _ => Err ValidationError
         end;
  n ← match limit with
      | PyInt z => if z <=? 0 then Err ValidationError else Ok z
      | _ => Err ValidationError
      end;
  _ ← raise_if (max_read_records (limits d) <? n) ResourceLimitError;
  Ok (from, n).

Definition day_us : Z := 86400000000.

Definition _validate_subscription (d : StreamDefinition) (sub : Subscription)
    : result stream_error unit :=
  let lim := limits d in
  _ ← raise_if (max_group_chars lim <? zlen (sub_group sub)) ResourceLimitError;
  _ ← raise_if (max_owner_chars lim <? zlen (sub_owner_id sub)) ResourceLimitError;
  match sub_start sub with
  | RelativeTime age =>
      raise_if (max_relative_age_days lim * day_us <? age) ResourceLimitError
  | _ => Ok tt
  end.

Definition _validate_advance (expected cursor : ResumeCursor) : result stream_error unit :=
  _ ← raise_if (bool_decide (kind expected = LAST_SUCCESSFUL)
                && (cursor_offset cursor <=? cursor_offset expected)) CheckpointError;
  raise_if (bool_decide (kind expected = INITIALIZED)
            && (cursor_offset cursor <? cursor_offset expected)) CheckpointError.

(** ** Lifecycle and declaration *)

Definition start : L unit :=
  _require_open;; modify (λ l, set_flags (_closed l) true false l).

Definition quiesce : L unit :=
  modify (λ l, set_flags (_closed l) (_started l) true l).

Definition declare_stream (d : StreamDefinition) : L unit :=
  snapshot ← lift (StreamDefinition_new (PyStr (def_name d)) (PyInt (partition_count d))
                     (limits d) (router d));
  _require_open;;
  l ← get;
  match _streams l !! def_name snapshot with
  | Some current =>
      throw_if (negb (compatibility_key_eqb (definition current) snapshot))
        (IncompatibleStreamError (def_name snapshot))
  | None =>
      modify (set_streams
        (<[def_name snapshot :=
             {| definition := snapshot;
                partitions := replicate (Z.to_nat (partition_count snapshot)) _PartitionState_new;
                producers := ∅ |}]> (_streams l)))
  end.

(** ** Append, read, trim *)

Definition alter_stream (name : pystr) (f : _StreamState → _StreamState) : L unit :=
  modify (λ l, set_streams (alter f name (_streams l)) l).

Definition set_partition (p : Z) (part : _PartitionState) (s : _StreamState) : _StreamState :=
  {| definition := definition s; partitions := <[Z.to_nat p := part]> (partitions s);
     producers := producers s |}.

Definition set_producer (k : Z * pystr) (x : _ProducerState) (s : _StreamState) : _StreamState :=
  {| definition := definition s; partitions := partitions s;
     producers := <[k := x]> (producers s) |}.

(** The partition the stream's router chose, if it is one of the stream's. *)
Definition check_route (count : Z) (routed : pyobj) : result stream_error Z :=
  match routed with
  | PyInt p => if (p <? 0) || (count <=? p) then Err InvalidPartitionError else Ok p
  | _ => Err InvalidPartitionError
  end.

(** The replies a producer's last publishing ID already decides: [None] when
    the request is new. *)
Definition known_publication (state : _StreamState) (partition : Z) (request : AppendRequest)
    : result stream_error (option PublishReceipt) :=
  match ar_producer_name request with
  | None => Ok None
  | Some producer =>
      match producers state !! (partition, producer), ar_publishing_id request with
      | Some existing, Some pid =>
          if pid =? prod_publishing_id existing then
            _ ← raise_if (negb (AppendRequest_eqb request (prod_request existing)))
                  PublishingConflictError;
            receipt ← PublishReceipt_new (pr_record_id (prod_receipt existing))
                        (PyInt partition) DEDUPLICATED
                        (confirmation_facts (prod_receipt existing));
            Ok (Some receipt)
          else if pid <? prod_publishing_id existing then Err StalePublishingIdError
          else Ok None
      | _, _ => Ok None
      end
  end.

(** [appended_at], never before the partition's last timestamp. *)
Definition stamp (part : _PartitionState) (now : datetime) : datetime :=
  match last_timestamp part with
  | Some last => if dt_ltb now last then last else now
  | None => now
  end.

(** The part of [append] that a request which is not a duplicate reaches. *)
Definition append_new (stream : pystr) (request : AppendRequest) (now : pyobj)
    (state : _StreamState) (partition : Z) : L PublishReceipt :=
  part ← lift match partitions state !! Z.to_nat partition with
              | Some part => Ok part
              | None => Err IndexError
              end;
  now ← lift (_now now);
  let at_ := stamp part now in
  let offset := next_offset part in
  let part := {| records := records part; next_offset := next_offset part + 2;
                 first_offset := first_offset part; last_timestamp := last_timestamp part;
                 removed_through := removed_through part |} in
  alter_stream stream (set_partition partition part);;
  record ← lift (StoredRecord_new (ar_record_id request) stream (ar_partition_key request)
                   (ar_payload request) (ar_headers request) (PyInt partition)
                   (PyInt offset) at_);
  let part := {| records := records part ++ [record]; next_offset := next_offset part;
                 first_offset := first_offset part; last_timestamp := Some at_;
                 removed_through := removed_through part |} in
  alter_stream stream (set_partition partition part);;
  receipt ← lift (PublishReceipt_new (ar_record_id request) (PyInt partition) CONFIRMED
                    [str "in-memory-accepted"]);
  match ar_producer_name request, ar_publishing_id request with
  | Some producer, Some pid =>
      alter_stream stream (set_producer (partition, producer)
        {| prod_publishing_id := pid; prod_request := request; prod_receipt := receipt |});;
      mret receipt
  | _, _ => mret receipt
  end.

Definition append (stream : pystr) (request : AppendRequest) (now : pyobj) : L PublishReceipt :=
  _require_open;;
  state ← _stream stream;
  lift (validate_append_request_limits (definition state) request);;
  routed ← lift (router_route (router (definition state)) (ar_partition_key request)
                   (partition_count (definition state)));
  partition ← lift (check_route (partition_count (definition state)) routed);
  known ← lift (known_publication state partition request);
  match known with
  | Some receipt => mret receipt
  | None => append_new stream request now state partition
  end.

Definition bounds (stream : pystr) (partition : pyobj) : L AvailableBounds :=
  _require_open;;
  state ← _stream stream;
  part ← lift (_partition state partition);
  lift (_bounds part.2).

Definition read (stream : pystr) (partition from_offset limit : pyobj) : L RecordPage :=
  _require_open;;
  state ← _stream stream;
  part ← lift (_partition state partition);
  range ← lift (_validate_read (definition state) from_offset limit);
  lift (_require_retained stream part.1 range.1 part.2 None);;
  let matching := filter (λ r, range.1 <= sr_offset r) (records part.2) in
  b ← lift (_bounds part.2);
  lift (RecordPage_new (take (Z.to_nat range.2) matching) (Some b)).

Definition trim (stream : pystr) (partition before_offset : pyobj) : L Z :=
  _require_open;;
  state ← _stream stream;
  part ← lift (_partition state partition);
  range ← lift (_validate_read (definition state) before_offset (PyInt 1));
  let boundary := Z.min range.1 (next_offset part.2) in
  let removed := filter (λ r, sr_offset r < boundary) (records part.2) in
  alter_stream stream (set_partition part.1
    {| records := filter (λ r, boundary <= sr_offset r) (records part.2);
       next_offset := next_offset part.2;
       first_offset := Z.max (first_offset part.2) boundary;
       last_timestamp := last_timestamp part.2;
       removed_through := match last removed with
                          | Some r => Some (appended_at r)
                          | None => removed_through part.2
                          end |});;
  mret (zlen removed).

(** ** Where a subscription starts *)

(** The loop over the records: the first at or after the target, or the end. *)
Definition first_at_or_after (target : datetime) (part : _PartitionState) : Z :=
  match list_find (λ r, dt_leb target (appended_at r) = true) (records part) with
  | Some (_, r) => sr_offset r
  | None => next_offset part
  end.

Definition resolve_timestamp (target : datetime) (stream : pystr) (partition : Z)
    (part : _PartitionState) : result stream_error Z :=
  match removed_through part with
  | Some t =>
      if dt_leb target t then
        b ← _bounds part;
        Err (RetentionGapError stream partition None (Some target) (Some b) None)
      else Ok (first_at_or_after target part)
  | None => Ok (first_at_or_after target part)
  end.

Definition _resolve_start_locked (start : StartPosition) (stream : pystr) (partition : Z)
    (part : _PartitionState) (now : pyobj) : result stream_error Z :=
  match start with
  | Beginning => Ok (first_offset part)
  | End => Ok (next_offset part)
  | ExactOffset o => _ ← _require_retained stream partition o part None; Ok o
  | Timestamp t => resolve_timestamp t stream partition part
  | RelativeTime age =>
      n ← _now now;
      match dt_sub n age with
      | Some target => resolve_timestamp target stream partition part
      | None => Err ValidationError
      end
  end.

(** ** Reservation of a group's checkpoint strategy *)

Definition _reserve_strategy (scope : pystr * pystr) (binding : _StrategyBinding) : L unit :=
  l ← get;
  throw_if match _group_strategies l !! scope with
           | Some current => bool_decide (current ≠ binding)
           | None => false
           end CheckpointStrategyError;;
  throw_if match _pending_group_strategies l !! scope with
           | Some pending => bool_decide (pending.1 ≠ binding)
           | None => false
           end CheckpointStrategyError;;
  modify (set_pending (<[scope := (binding, match _pending_group_strategies l !! scope with
                                            | Some pending => pending.2 + 1
                                            | None => 1
                                            end)]> (_pending_group_strategies l))).

Definition _release_strategy_reservation (scope : pystr * pystr) (binding : _StrategyBinding)
    : L unit :=
  l ← get;
  match _pending_group_strategies l !! scope with
  | None => mret tt
  | Some pending =>
      if bool_decide (pending.1 ≠ binding) then mret tt
      else if pending.2 =? 1 then
        modify (set_pending (delete scope (_pending_group_strategies l)))
      else
        modify (set_pending
          (<[scope := (binding, pending.2 - 1)]> (_pending_group_strategies l)))
  end.

(** ** Acquiring a partition: the sections under the lock *)

Record acquire_ctx := {
  ac_subscription : Subscription;
  ac_scope : pystr * pystr;
  ac_binding : _StrategyBinding;
  ac_store : option Z;
  ac_key : CheckpointKey;
  ac_current_lease : option Z;
  ac_transfer_marker : option Z;
  ac_wait : option Z
}.

Definition strategy_binding (strategy : CheckpointStrategy)
    : result stream_error (option Z * _StrategyBinding) :=
  match strategy with
  | BROKER_MANAGED =>
      Ok (None, {| mode := str "broker_managed"; binding_identity := None;
                   binding_store := None |})
  | ExternalCheckpointStrategy identity store =>
      Ok (Some store, {| mode := str "external"; binding_identity := Some identity;
                         binding_store := Some store |})
  | UnsupportedStrategy => Err CheckpointStrategyError
  end.

(** The first section: validate, reserve the strategy, announce a transfer. *)
Definition acquire_begin (sub : Subscription) (partition : pyobj)
    (strategy : CheckpointStrategy) (transfer : bool) : L acquire_ctx :=
  sb ← lift (strategy_binding strategy);
  let scope := (sub_stream sub, sub_group sub) in
  let ctx key current marker wait :=
    {| ac_subscription := sub; ac_scope := scope; ac_binding := sb.2; ac_store := sb.1;
       ac_key := key; ac_current_lease := current; ac_transfer_marker := marker;
       ac_wait := wait |} in
  _require_open;;
  state ← _stream (sub_stream sub);
  lift (_partition state partition);;
  lift (_validate_subscription (definition state) sub);;
  throw_if (negb (supports start_mode_capabilities (sub_start sub))) ValidationError;;
  _reserve_strategy scope sb.2;;
  key ← lift (CheckpointKey_new (PyStr (sub_stream sub)) (PyStr (sub_group sub)) partition);
  l ← get;
  match _leases l !! key with
  | Some lid =>
      if negb transfer then
        _release_strategy_reservation scope sb.2;; raise OwnershipError
      else if bool_decide (is_Some (_transfers l !! key)) then
        _release_strategy_reservation scope sb.2;; raise OwnershipError
      else
        marker ← fresh_object;
        modify (set_transfers (<[key := marker]> (_transfers l)));;
        alter_lease lid (set_revocation true);;
        x ← _lease lid;
        mret (ctx key (Some lid) (Some marker)
                match _in_flight x with Some _ => Some lid | None => None end)
  | None =>
      if _max_active_leases l <=? Z.of_nat (size (_owners l)) then
        _release_strategy_reservation scope sb.2;; raise ResourceLimitError
      else mret (ctx key None None None)
  end.

(** [del d[key]] *)
Definition del_lease (key : CheckpointKey) : L unit :=
  l ← get;
  throw_if (bool_decide (_leases l !! key = None)) KeyError;;
  throw_if (bool_decide (_owners l !! key = None)) KeyError;;
  modify (set_ownership (delete key (_owners l)) (delete key (_leases l))).

(** The second section: complete a transfer, make the new owner current. *)
Definition acquire_install (ctx : acquire_ctx) : L Z :=
  let key := ac_key ctx in
  _require_open;;
  match ac_transfer_marker ctx with
  | Some marker =>
      l ← get;
      throw_if (bool_decide (_transfers l !! key ≠ Some marker)) OwnershipError;;
      match _leases l !! key, ac_current_lease ctx with
      | Some lid, Some current =>
          if lid =? current then
            x ← _lease lid;
            throw_if (bool_decide (is_Some (_in_flight x))) OwnershipError;;
            del_lease key
          else mret tt
      | _, _ => mret tt
      end;;
      modify (λ l, set_transfers (delete key (_transfers l)) l)
  | None =>
      l ← get; throw_if (bool_decide (is_Some (_leases l !! key))) OwnershipError
  end;;
  l ← get;
  let gen := default 0 (_generations l !! key) + 1 in
  token ← lift (OwnershipToken_new (PyStr (sub_owner_id (ac_subscription ctx))) (PyInt gen));
  lid ← fresh_object;
  let lease := {| subscription := ac_subscription ctx; lease_key := key; lease_owner := token;
                  _store := ac_store ctx; _stopped := false; _released := false;
                  _revocation_requested := false; _in_flight := None;
                  _delivery_completed := true |} in
  modify (λ l, set_objects (<[lid := lease]> (objects l)) (next_object l) l);;
  modify (λ l, set_generations (<[key := gen]> (_generations l)) l);;
  modify (λ l, set_ownership (<[key := token]> (_owners l)) (<[key := lid]> (_leases l)) l);;
  mret lid.

Definition _cancel_acquire (ctx : acquire_ctx) : L unit :=
  let key := ac_key ctx in
  l ← get;
  match ac_transfer_marker ctx with
  | Some marker =>
      if bool_decide (_transfers l !! key = Some marker) then
        modify (set_transfers (delete key (_transfers l)));;
        match _leases l !! key, ac_current_lease ctx with
        | Some lid, Some current =>
            if lid =? current then alter_lease current (set_revocation false) else mret tt
        | _, _ => mret tt
        end
      else mret tt
  | None => mret tt
  end;;
  _release_strategy_reservation (ac_scope ctx) (ac_binding ctx).

(** ** Leases: the sections under the lock *)

Definition _stop (lid : Z) : L unit :=
  alter_lease lid (λ x, set_terminal true (_released x) x).

Definition _release (lid : Z) : L unit :=
  alter_lease lid (λ x, set_terminal (_stopped x) true x);;
  x ← _lease lid;
  l ← get;
  if bool_decide (_leases l !! lease_key x = Some lid) then del_lease (lease_key x)
  else mret tt.

Definition release (lid : Z) : L unit :=
  x ← _lease lid;
  if negb (_released x) then _release lid else mret tt.

Definition _failed_initialization (lid : Z) (ctx : acquire_ctx) : L unit :=
  release lid;; _release_strategy_reservation (ac_scope ctx) (ac_binding ctx).

Definition acquire_finish (ctx : acquire_ctx) : L unit :=
  modify (λ l, set_group_strategies
                 (<[ac_scope ctx := ac_binding ctx]> (_group_strategies l)) l);;
  _release_strategy_reservation (ac_scope ctx) (ac_binding ctx).

Definition _complete_delivery_locked (lid : Z) : L unit :=
  alter_lease lid (set_delivery None true).

Definition close : L unit :=
  modify (λ l, set_flags true (_started l) true l);;
  l ← get;
  modify (set_objects
    (foldr (λ kv heap, alter (λ x, set_terminal (_stopped x) true x) kv.2 heap)
       (objects l) (map_to_list (_leases l))) (next_object l));;
  modify (set_ownership ∅ ∅);;
  modify (set_transfers ∅).

(** The offset a new group starts from. *)
Definition lease_start (x : InMemoryPartitionLease) (now : pyobj) : L Z :=
  state ← _stream (key_stream (lease_key x));
  part ← lift (_partition state (PyInt (key_partition (lease_key x))));
  lift (_resolve_start_locked (sub_start (subscription x)) (key_stream (lease_key x))
          (key_partition (lease_key x)) part.2 now).

Definition _resolved_cursor (lid : Z) (now : pyobj) : L ResumeCursor :=
  x ← _lease lid;
  _require_owner_locked (lease_key x) (lease_owner x);;
  offset ← lease_start x now;
  lift (initialized offset).

Definition _initialize_broker (lid : Z) (now : pyobj) : L unit :=
  x ← _lease lid;
  _require_owner_locked (lease_key x) (lease_owner x);;
  l ← get;
  match _broker_cursors l !! lease_key x with
  | Some _ => mret tt
  | None =>
      offset ← lease_start x now;
      cursor ← lift (initialized offset);
      modify (λ l, set_broker_cursors (<[lease_key x := cursor]> (_broker_cursors l)) l)
  end.

Definition _load_broker_cursor (x : InMemoryPartitionLease) : L ResumeCursor :=
  _require_owner_locked (lease_key x) (lease_owner x);;
  l ← get;
  match _broker_cursors l !! lease_key x with
  | Some c => mret c
  | None => raise CheckpointError
  end.

(** Whether a record comes after a cursor. *)
Definition due (cursor : ResumeCursor) (r : StoredRecord) : Prop :=
  match kind cursor with
  | INITIALIZED => cursor_offset cursor <= sr_offset r
  | LAST_SUCCESSFUL => cursor_offset cursor < sr_offset r
  end.

#[export] Instance due_dec cursor r : Decision (due cursor r).
Proof. unfold due. destruct (kind cursor); apply _. Defined.

Definition _next_locked (lid : Z) (cursor : ResumeCursor) : L (option StoredRecord) :=
  x ← _lease lid;
  _require_owner_locked (lease_key x) (lease_owner x);;
  throw_if (_revocation_requested x) OwnershipError;;
  throw_if (bool_decide (is_Some (_in_flight x))) LifecycleError;;
  state ← _stream (key_stream (lease_key x));
  part ← lift (_partition state (PyInt (key_partition (lease_key x))));
  lift (_require_retained (key_stream (lease_key x)) (key_partition (lease_key x))
          (cursor_offset cursor) part.2 (Some (key_group (lease_key x))));;
  match list_find (due cursor) (records part.2) with
  | Some (_, record) =>
      alter_lease lid (set_delivery (Some record) false);; mret (Some record)
  | None => mret None
  end.

Definition _checkpoint_broker (lid : Z) (expected cursor : ResumeCursor) : L unit :=
  x ← _lease lid;
  _require_owner_locked (lease_key x) (lease_owner x);;
  l ← get;
  throw_if (bool_decide (_broker_cursors l !! lease_key x ≠ Some expected)) CheckpointError;;
  lift (_validate_advance expected cursor);;
  modify (λ l, set_broker_cursors (<[lease_key x := cursor]> (_broker_cursors l)) l);;
  _complete_delivery_locked lid.

Definition _require_active (lid : Z) : L unit :=
  x ← _lease lid;
  throw_if (_released x) LifecycleError;;
  throw_if (_stopped x) LifecycleError.

Definition stop (lid : Z) : L unit := _stop lid.

(** ** The log with its checkpoint stores *)

Section world.
Context {S : Type} `{CheckpointStore S}.

Record world := MkWorld { w_log : log; w_stores : gmap Z S }.

Definition on_log {A} (m : L A) : M world stream_error A :=
  zoom w_log (λ l w, MkWorld l (w_stores w)) m.

Definition on_store {A} (sid : Z) (m : M S stream_error A) : M world stream_error A :=
  λ w, match w_stores w !! sid with
       | Some s => match m s with (r, s') => (r, MkWorld (w_log w) (<[sid := s']> (w_stores w))) end
       | None => (Err KeyError, w)
       end.

Definition _initialize (lid : Z) (now : pyobj) : M world stream_error unit :=
  x ← on_log (_lease lid);
  match _store x with
  | Some sid =>
      validate_checkpoint_store_call (on_store sid (fence (lease_key x) (lease_owner x)))
        None returns_none;;
      existing ← validate_checkpoint_store_call (on_store sid (load (lease_key x)))
                   None returns_optional_cursor;
      match existing with
      | None =>
          cursor ← on_log (_resolved_cursor lid now);
          validate_checkpoint_store_call
            (on_store sid (compare_and_create (lease_key x) cursor (lease_owner x)))
            (Some cursor) returns_cursor;;
          mret tt
      | Some _ => mret tt
      end;;
      on_log (_require_owner_locked (lease_key x) (lease_owner x))
  | None => on_log (_initialize_broker lid now)
  end.

Definition _load_cursor (lid : Z) : M world stream_error ResumeCursor :=
  x ← on_log (_lease lid);
  match _store x with
  | Some sid =>
      cursor ← try_except
        (c ← validate_checkpoint_store_call (on_store sid (load (lease_key x)))
               None returns_optional_cursor;
         match c with
         | Some c => mret c
         | None => raise (CheckpointPersistenceError None AdapterContractError)
         end)
        (λ e, match e with
              | CheckpointPersistenceError _ _ => on_log (_stop lid);; raise e
              | _ => raise e
              end);
      on_log (_require_owner_locked (lease_key x) (lease_owner x));;
      mret cursor
  | None => on_log (_load_broker_cursor x)
  end.

Definition _next (lid : Z) : M world stream_error (option StoredRecord) :=
  cursor ← _load_cursor lid; on_log (_next_locked lid cursor).

Definition _checkpoint (lid : Z) (record : StoredRecord) : M world stream_error unit :=
  expected ← _load_cursor lid;
  cursor ← lift (last_successful (sr_offset record));
  x ← on_log (_lease lid);
  match _store x with
  | Some sid =>
      on_log (_require_owner_locked (lease_key x) (lease_owner x));;
      try_except
        (validate_checkpoint_store_call
           (on_store sid (save (lease_key x) expected cursor (lease_owner x)))
           (Some cursor) returns_none;; mret tt)
        (λ e, match e with
              | CheckpointPersistenceError _ _ => on_log (_stop lid);; raise e
              | _ => raise e
              end);;
      on_log (_require_owner_locked (lease_key x) (lease_owner x);;
              _complete_delivery_locked lid)
  | None => on_log (_checkpoint_broker lid expected cursor)
  end.

(** The client's calls on a lease. *)
Definition next_record (lid : Z) : M world stream_error (option StoredRecord) :=
  on_log (_require_active lid);; _next lid.

(** The source compares [record is not self._in_flight]. The records a log hands out
    are its own objects, and any two of them differ in stream, partition or offset,
    so that on them equality of values is identity; a copy a client has made of its record, which the
    source refuses, is not represented. *)
Definition checkpoint (lid : Z) (record : StoredRecord) : M world stream_error unit :=
  on_log (_require_active lid);;
  x ← on_log (_lease lid);
  on_log (_require_owner_locked (lease_key x) (lease_owner x));;
  x ← on_log (_lease lid);
  throw_if (bool_decide (_in_flight x ≠ Some record)) CheckpointError;;
  _checkpoint lid record.

(** [acquire] from the end of its wait on. *)
Definition acquire_resume (ctx : acquire_ctx) (now : pyobj) : M world stream_error Z :=
  lid ← on_log (try_except (acquire_install ctx) (λ e, _cancel_acquire ctx;; raise e));
  try_except (_initialize lid now) (λ e, on_log (_failed_initialization lid ctx);; raise e);;
  on_log (acquire_finish ctx);;
  mret lid.

(** A call of [acquire] returns a lease, or is suspended until the previous
    owner's delivery completes. *)
Inductive acquire_outcome := Acquired (lid : Z) | Waiting (ctx : acquire_ctx).

Definition acquire (sub : Subscription) (partition : pyobj) (strategy : CheckpointStrategy)
    (transfer : bool) (now : pyobj) : M world stream_error acquire_outcome :=
  ctx ← on_log (acquire_begin sub partition strategy transfer);
  completed ← match ac_wait ctx with
              | Some lid => x ← on_log (_lease lid); mret (_delivery_completed x)
              | None => mret true
              end;
  if completed : bool then lid ← acquire_resume ctx now; mret (Acquired lid)
  else mret (Waiting ctx).

(** Cancelling an [acquire] that is waiting. *)
Definition acquire_cancelled (ctx : acquire_ctx) : M world stream_error Z :=
  on_log (_cancel_acquire ctx);; raise CancelledError.

End world.
Arguments world S : clear implicits.
