(* ===== verification/StreamLogFacts.v ===== *)
(** * The in-memory log: partitions and their history

    What the operations on records guarantee. A partition is related to the
    history of everything ever appended to it ([part_hist]); append extends the
    history, trim only moves the retention boundary, and reading, resolving a
    start position and delivering are specified against the history. *)

From Stdlib Require Import ZArith Lia.
From stdpp Require Import base tactics list gmap strings.
From S2P Require Import Prelude StreamModels Checkpoints StreamLog.
Local Open Scope Z_scope.

(** ** The partition invariant *)

Definition time_of (r : StoredRecord) : Z := instant (appended_at r).

(** [H] is everything ever appended to the partition, in order. *)
Record part_hist (H : list StoredRecord) (part : _PartitionState) : Prop := {
  ph_inc : increasing sr_offset H;
  ph_time : nondecreasing time_of H;
  ph_records : records part = filter (λ r, first_offset part <= sr_offset r) H;
  ph_range : Forall (λ r, 0 <= sr_offset r < next_offset part) H;
  ph_first : 0 <= first_offset part <= next_offset part;
  ph_aware : Forall (λ r, dt_aware (appended_at r) = true) H;
  ph_last : match last_timestamp part with
            | Some t => dt_aware t = true ∧ Forall (λ r, time_of r <= instant t) H
            | None => H = []
            end;
  ph_removed : ∀ r, r ∈ H → sr_offset r < first_offset part →
    ∃ t, removed_through part = Some t ∧ time_of r <= instant t;
  ph_removed_real : ∀ t, removed_through part = Some t →
    ∃ r, r ∈ H ∧ sr_offset r < first_offset part ∧ appended_at r = t
}.

(** What append makes of a partition, and what trim makes of it. *)
Definition part_append (part : _PartitionState) (r : StoredRecord) : _PartitionState :=
  {| records := records part ++ [r]; next_offset := next_offset part + 2;
     first_offset := first_offset part; last_timestamp := Some (appended_at r);
     removed_through := removed_through part |}.

Definition part_trim (part : _PartitionState) (before : Z) : _PartitionState :=
  let boundary := Z.min before (next_offset part) in
  {| records := filter (λ r, boundary <= sr_offset r) (records part);
     next_offset := next_offset part;
     first_offset := Z.max (first_offset part) boundary;
     last_timestamp := last_timestamp part;
     removed_through := match last (filter (λ r, sr_offset r < boundary) (records part)) with
                        | Some r => Some (appended_at r)
                        | None => removed_through part
                        end |}.

Lemma part_hist_new : part_hist [] _PartitionState_new.
Proof. constructor; simpl; try constructor; try done; try lia; set_solver. Qed.

Lemma stamp_aware part now :
  dt_aware now = true → (∀ t, last_timestamp part = Some t → dt_aware t = true) →
  dt_aware (stamp part now) = true.
Proof. intros Hn Hl. unfold stamp. repeat case_match; eauto. Qed.

Lemma part_hist_append H part r now :
  part_hist H part → dt_aware now = true → appended_at r = stamp part now →
  sr_offset r = next_offset part →
  part_hist (H ++ [r]) (part_append part r).
Proof.
  intros [Hinc Htime Hrec Hrange Hfirst Haw Hlast Hrem Hreal] Hnow Hat Hoff.
  assert (dt_aware (appended_at r) = true) as Hawr.
  { rewrite Hat. apply stamp_aware; [done|]. intros t Ht. rewrite Ht in Hlast. apply Hlast. }
  assert (Forall (λ y, time_of y <= time_of r) H) as Hle.
  { unfold time_of at 2. rewrite Hat. unfold stamp.
    destruct (last_timestamp part) as [t|]; [|subst; constructor].
    destruct Hlast as [_ Hl]. unfold dt_ltb. case_match; [done|].
    eapply Forall_impl; [exact Hl|]. simpl. bool_hyps. lia. }
  constructor; simpl.
  - apply StronglySorted_snoc. split; [done|]. rewrite Hoff.
    eapply Forall_impl; [exact Hrange|]. simpl; lia.
  - apply StronglySorted_snoc. done.
  - rewrite filter_app, filter_cons, decide_True, filter_nil by lia. by rewrite Hrec.
  - rewrite Forall_app, Forall_singleton. split; [|lia].
    eapply Forall_impl; [exact Hrange|]. simpl; lia.
  - lia.
  - rewrite Forall_app, Forall_singleton. done.
  - rewrite Forall_app, Forall_singleton. done.
  - intros x [Hx| ->%list_elem_of_singleton]%elem_of_app Hlt; [eauto|lia].
  - intros t Ht. destruct (Hreal t Ht) as (x & ? & ? & ?). exists x.
    rewrite elem_of_app. eauto.
Qed.

Lemma filter_ge_max (l : list StoredRecord) a b :
  filter (λ r, b <= sr_offset r) (filter (λ r, a <= sr_offset r) l) =
  filter (λ r, Z.max a b <= sr_offset r) l.
Proof. rewrite list_filter_filter. apply list_filter_iff. intros; lia. Qed.

Lemma last_elem_of {A} (l : list A) x : last l = Some x → x ∈ l.
Proof. intros [l' ->]%last_Some. rewrite elem_of_app. set_solver. Qed.

Lemma sorted_last_max {A} (f : A → Z) l x y :
  nondecreasing f l → last l = Some x → y ∈ l → f y <= f x.
Proof.
  intros Hs [l' ->]%last_Some. apply StronglySorted_snoc in Hs as [_ Hf].
  rewrite Forall_forall in Hf. intros [?| ->%list_elem_of_singleton]%elem_of_app; [auto|lia].
Qed.

Lemma part_hist_trim H part before :
  part_hist H part → 0 <= before → part_hist H (part_trim part before).
Proof.
  intros [Hinc Htime Hrec Hrange Hfirst Haw Hlast Hrem Hreal] Hb.
  set (b := Z.min before (next_offset part)).
  assert (∀ x, x ∈ filter (λ r, sr_offset r < b) (records part) ↔
               x ∈ H ∧ first_offset part <= sr_offset x < b) as Hin.
  { intros x. rewrite list_elem_of_filter, Hrec, list_elem_of_filter. intuition lia. }
  assert (nondecreasing time_of (filter (λ r, sr_offset r < b) (records part))) as Hnd.
  { rewrite Hrec. by do 2 apply StronglySorted_filter. }
  constructor; simpl; try done; try fold b.
  - rewrite Hrec. apply filter_ge_max.
  - subst b; lia.
  - intros x Hx Hlt. destruct (last _) as [y|] eqn:Hl.
    + eexists; split; [done|]. destruct (Z.lt_ge_cases (sr_offset x) (first_offset part)).
      * destruct (Hrem x Hx) as (t & Ht & Hle); [done|].
        destruct (Hreal t Ht) as (z & Hz & Hzo & <-).
        apply last_elem_of, Hin in Hl as [Hy Hyo].
        etrans; [exact Hle|]. apply (increasing_sorted _ _ _ z y Hinc Htime); try done. lia.
      * apply (sorted_last_max time_of _ y x Hnd Hl). apply Hin. split; [done|lia].
    + destruct (Z.lt_ge_cases (sr_offset x) (first_offset part)); [by apply Hrem|].
      apply last_None in Hl. assert (x ∈ []) as []%not_elem_of_nil.
      rewrite <- Hl. apply Hin. split; [done|lia].
  - intros t Ht. destruct (last _) as [y|] eqn:Hl; simplify_eq.
    + apply last_elem_of, Hin in Hl as [? ?]. exists y. split_and!; [done|lia|done].
    + destruct (Hreal t Ht) as (x & ? & ? & ?). exists x. split_and!; [done|lia|done].
Qed.

(** ** Start positions *)

Section start_positions.
Context (H : list StoredRecord) (part : _PartitionState).
Hypothesis (Hpart : part_hist H part).

Lemma records_elem r : r ∈ records part ↔ r ∈ H ∧ first_offset part <= sr_offset r.
Proof. rewrite (ph_records _ _ Hpart), list_elem_of_filter. tauto. Qed.

Lemma records_increasing : increasing sr_offset (records part).
Proof. rewrite (ph_records _ _ Hpart). apply StronglySorted_filter, Hpart. Qed.

Lemma bounds_ok :
  _bounds part = Ok {| earliest_offset := first_offset part; end_offset := next_offset part |}.
Proof.
  destruct (ph_first _ _ Hpart). unfold _bounds, AvailableBounds_new.
  rewrite !offset_int by lia. simpl. by rewrite (proj2 (Z.ltb_ge _ _)) by lia.
Qed.

(** The loop of [_resolve_start_locked] finds the least retained offset at or
    after the target instant. *)
Lemma first_at_or_after_least target :
  (∀ r, r ∈ records part → instant target <= time_of r →
        first_at_or_after target part <= sr_offset r) ∧
  first_offset part <= first_at_or_after target part <= next_offset part.
Proof.
  unfold first_at_or_after. destruct (list_find _ (records part)) as [[i r0]|] eqn:E.
  - apply (list_find_least sr_offset) in E as (Hr0 & _ & Hle); [|apply records_increasing].
    pose proof (proj1 (records_elem r0) Hr0) as [Hr0H Hge]. split.
    + intros r Hr Ht. apply Hle; [done|]. by apply Z.leb_le.
    + pose proof (ph_range _ _ Hpart) as Hr. rewrite Forall_forall in Hr.
      specialize (Hr _ Hr0H). lia.
  - apply list_find_None in E. split; [|pose proof (ph_first _ _ Hpart); lia].
    intros r Hr Ht. rewrite Forall_forall in E. exfalso. apply (E r Hr).
    unfold dt_leb. by apply Z.leb_le.
Qed.

(** Starting at a time either reports a retention gap or skips nothing: every
    record ever appended at or after the target is still retained and lies at
    or after the resolved offset. *)
Lemma resolve_timestamp_complete target stream p o :
  resolve_timestamp target stream p part = Ok o →
  ∀ r, r ∈ H → instant target <= time_of r → r ∈ records part ∧ o <= sr_offset r.
Proof.
  intros Hres r Hr Ht.
  assert (first_at_or_after target part = o ∧
          ∀ t, removed_through part = Some t → instant t < instant target) as [<- Hgap].
  { unfold resolve_timestamp in Hres. destruct (removed_through part) as [t|]; [|by simplify_eq].
    unfold dt_leb in Hres. case_match; bool_hyps.
    - rewrite bounds_ok in Hres. done.
    - simplify_eq. split; [done|]. intros; simplify_eq; lia. }
  assert (r ∈ records part) as Hin.
  { apply records_elem. split; [done|].
    destruct (Z.le_gt_cases (first_offset part) (sr_offset r)) as [|Hlt]; [done|].
    destruct (ph_removed _ _ Hpart r Hr Hlt) as (t & Hrt & Hle). specialize (Hgap t Hrt). lia. }
  split; [done|]. by apply first_at_or_after_least.
Qed.

(** The retention gap is reported only when a record at or after the target
    was removed. *)
Lemma resolve_timestamp_gap target stream p e :
  resolve_timestamp target stream p part = Err e →
  ∃ r, r ∈ H ∧ sr_offset r < first_offset part ∧ instant target <= time_of r ∧
       e = RetentionGapError stream p None (Some target)
             (Some {| earliest_offset := first_offset part; end_offset := next_offset part |}) None.
Proof.
  unfold resolve_timestamp. destruct (removed_through part) as [t|] eqn:Hrt; [|done].
  unfold dt_leb. case_match; [|done]. bool_hyps. rewrite bounds_ok. simpl. intros; simplify_eq.
  destruct (ph_removed_real _ _ Hpart t Hrt) as (r & ? & ? & <-). exists r.
  split_and!; done.
Qed.

(** ** Delivery *)

(** The delivery loop picks the first record after the cursor. *)
Lemma next_due_least cursor i r :
  list_find (due cursor) (records part) = Some (i, r) →
  r ∈ records part ∧ due cursor r ∧
  ∀ r', r' ∈ records part → due cursor r' → sr_offset r <= sr_offset r'.
Proof. apply list_find_least, records_increasing. Qed.

End start_positions.
