(* ===== verification/StreamHistory.v ===== *)
(** * The in-memory log: what append, read and trim do

    The operations on records as functions of the whole log, the invariant of
    the streams ([wf_streams], against the history of every partition), and the
    theorems on append, deduplication, reading and trimming. *)

From Stdlib Require Import ZArith Lia.
From stdpp Require Import base tactics list gmap strings.
From S2P Require Import Prelude StreamModels Checkpoints StreamLog StreamLogFacts.
Local Open Scope Z_scope.

(** ** Invariant *)

(** What was ever appended, by stream and partition. *)
Abbreviation history := (pystr → Z → list StoredRecord).

Record wf_stream (H : Z → list StoredRecord) (name : pystr) (st : _StreamState) : Prop := {
  ws_name : def_name (definition st) = name;
  ws_nonempty : name ≠ [];
  ws_count : zlen (partitions st) = partition_count (definition st);
  ws_part : ∀ p part, 0 <= p → partitions st !! Z.to_nat p = Some part → part_hist (H p) part;
  ws_home : ∀ p, Forall (λ r, sr_stream r = name ∧ sr_partition r = p) (H p);
  ws_out : ∀ p, (p < 0 ∨ zlen (partitions st) <= p) → H p = [];
  ws_producers : ∀ p n ps, producers st !! (p, n) = Some ps →
    0 <= p < partition_count (definition st) ∧
    prod_receipt ps = {| pr_record_id := ar_record_id (prod_request ps); pr_partition := p;
                         pr_outcome := CONFIRMED;
                         confirmation_facts := [str "in-memory-accepted"] |} ∧
    ar_producer_name (prod_request ps) = Some n ∧
    ar_publishing_id (prod_request ps) = Some (prod_publishing_id ps)
}.

Definition wf_streams (H : history) (l : log) : Prop :=
  (∀ name st, _streams l !! name = Some st → wf_stream (H name) name st) ∧
  (∀ name p, _streams l !! name = None → H name p = []).

(** ** Append as a function *)

Definition record_of (request : AppendRequest) (stream : pystr) (p : Z)
    (part : _PartitionState) (now : datetime) : StoredRecord :=
  {| sr_record_id := ar_record_id request; sr_stream := stream;
     sr_partition_key := ar_partition_key request; sr_payload := ar_payload request;
     sr_headers := ar_headers request; sr_partition := p; sr_offset := next_offset part;
     appended_at := stamp part now |}.

Definition receipt_of (request : AppendRequest) (p : Z) (outcome : PublishOutcome)
    : PublishReceipt :=
  {| pr_record_id := ar_record_id request; pr_partition := p; pr_outcome := outcome;
     confirmation_facts := [str "in-memory-accepted"] |}.

Definition stream_append (st : _StreamState) (p : Z) (part : _PartitionState)
    (r : StoredRecord) (request : AppendRequest) : _StreamState :=
  let st := set_partition p (part_append part r) st in
  match ar_producer_name request, ar_publishing_id request with
  | Some producer, Some pid =>
      set_producer (p, producer) {| prod_publishing_id := pid; prod_request := request;
                                    prod_receipt := receipt_of request p CONFIRMED |} st
  | _, _ => st
  end.

(** The partition a request goes to: the stream is open and known, the request
    within its limits, and its router answers with one of its partitions. *)
Definition routes_to (l : log) (stream : pystr) (request : AppendRequest)
    (st : _StreamState) (p : Z) : Prop :=
  _closed l = false ∧ _streams l !! stream = Some st ∧
  within_limits (limits (definition st)) request ∧
  router_route (router (definition st)) (ar_partition_key request)
    (partition_count (definition st)) = Ok (PyInt p) ∧
  0 <= p < partition_count (definition st).

(** ** Running the code *)

Lemma run_bind_require_open {B} (f : unit → L B) l :
  (_require_open ≫= f) l = if _closed l then (Err LifecycleError, l) else f tt l.
Proof. unfold _require_open. by destruct l as [????????? []]. Qed.
Lemma run_bind_stream {B} n (f : _StreamState → L B) l :
  (_stream n ≫= f) l =
  match _streams l !! n with Some s => f s l | None => (Err (UnknownStreamError n), l) end.
Proof. unfold _stream. autorewrite with mrun. by destruct (_streams l !! n). Qed.
#[export] Hint Rewrite @run_bind_require_open @run_bind_stream : mrun.

Lemma alter_known {K A} `{Countable K} (m : gmap K A) f k x :
  m !! k = Some x → alter f k m = <[k := f x]> m.
Proof.
  intros Hx. apply map_eq. intros j. destruct (decide (k = j)) as [->|].
  - by rewrite lookup_alter_eq, Hx, lookup_insert_eq.
  - by rewrite lookup_alter_ne, lookup_insert_ne.
Qed.

Lemma alter_stream_known name f st l :
  _streams l !! name = Some st →
  alter_stream name f l = (Ok tt, set_streams (<[name := f st]> (_streams l)) l).
Proof. intros Hst. unfold alter_stream. autorewrite with mrun. by rewrite (alter_known _ _ _ st). Qed.

Lemma run_alter_stream {B} name g st (f : unit → L B) l :
  _streams l !! name = Some st →
  (alter_stream name g ≫= f) l = f tt (set_streams (<[name := g st]> (_streams l)) l).
Proof. intros Hst. by apply M_bind_run, alter_stream_known. Qed.

Lemma set_partition_twice p a b st : set_partition p b (set_partition p a st) = set_partition p b st.
Proof. unfold set_partition. simpl. by rewrite list_insert_insert_eq. Qed.

Lemma check_route_ok count v p : check_route count v = Ok p → v = PyInt p ∧ 0 <= p < count.
Proof.
  unfold check_route. destruct v; try done. case_match; [done|]. intros; simplify_eq.
  bool_hyps. split; [done|lia].
Qed.

Lemma receipt_new_ok request p o :
  0 <= p → PublishReceipt_new (ar_record_id request) (PyInt p) o [str "in-memory-accepted"] =
           Ok (receipt_of request p o).
Proof. intros Hp. unfold PublishReceipt_new. by rewrite offset_int. Qed.

Section with_history.
Context (H : history) (l : log).
Hypothesis (Hwf : wf_streams H l).

Lemma partition_ok name st p :
  _streams l !! name = Some st → 0 <= p < partition_count (definition st) →
  ∃ part, partitions st !! Z.to_nat p = Some part ∧ part_hist (H name p) part.
Proof.
  intros Hst Hp. pose proof (proj1 Hwf _ _ Hst) as Hs.
  destruct (lookup_lt_is_Some_2 (partitions st) (Z.to_nat p)) as [part Hpart].
  { pose proof (ws_count _ _ _ Hs) as Hc. unfold zlen in Hc. lia. }
  exists part. split; [done|]. apply (ws_part _ _ _ Hs); [lia|done].
Qed.

Lemma known_publication_cases st name p request known :
  _streams l !! name = Some st → 0 <= p → wf_request request →
  known_publication st p request = Ok known →
  match known with
  | None => ∀ n ps, ar_producer_name request = Some n → producers st !! (p, n) = Some ps →
      ∃ pid, ar_publishing_id request = Some pid ∧ prod_publishing_id ps < pid
  | Some receipt => ∃ n ps, ar_producer_name request = Some n ∧
      producers st !! (p, n) = Some ps ∧
      ar_publishing_id request = Some (prod_publishing_id ps) ∧
      AppendRequest_eqb request (prod_request ps) = true ∧
      receipt = receipt_of request p DEDUPLICATED
  end.
Proof.
  intros Hst Hp Hr. unfold known_publication.
  destruct (ar_producer_name request) as [n|] eqn:Hn; [|intros; by simplify_eq].
  destruct (ar_publishing_id request) as [pid|] eqn:Hpid.
  2: { destruct (wf_producer _ Hr) as [Hx _]. rewrite Hn, Hpid in Hx.
       destruct Hx; [eauto|done]. }
  destruct (producers st !! (p, n)) as [ps|] eqn:Hps; [|intros; simplify_eq; naive_solver].
  destruct (ws_producers _ _ _ (proj1 Hwf _ _ Hst) _ _ _ Hps) as (_ & Hrc & _ & _).
  destruct (Z.eqb_spec pid (prod_publishing_id ps)) as [->|Hne].
  - intros Hk. apply result_bind_ok in Hk as (? & Heq%raise_if_ok & Hk).
    apply negb_false_iff in Heq.
    assert (ar_record_id (prod_request ps) = ar_record_id request) as Hid.
    { unfold AppendRequest_eqb in Heq. bool_hyps. done. }
    rewrite Hrc in Hk. cbn [pr_record_id confirmation_facts] in Hk.
    rewrite receipt_new_ok in Hk by done. simplify_eq/=. exists n, ps.
    split_and!; try done. unfold receipt_of. by rewrite Hid.
  - destruct (Z.ltb_spec pid (prod_publishing_id ps)); [done|]. intros; simplify_eq.
    intros n' ps' ? ?. simplify_eq. exists pid. split; [done|lia].
Qed.

Lemma part_stamp_aware name p part d :
  part_hist (H name p) part → dt_aware d = true → dt_aware (stamp part d) = true.
Proof.
  intros Hph Hd. apply stamp_aware; [done|]. intros t Ht.
  pose proof (ph_last _ _ Hph) as Hl. rewrite Ht in Hl. apply Hl.
Qed.

(** A request that is not a duplicate, at a readable clock: one new record. *)
Lemma append_new_run stream request st p part d :
  wf_request request → _streams l !! stream = Some st → 0 <= p →
  partitions st !! Z.to_nat p = Some part → dt_aware d = true →
  append_new stream request (PyDatetime d) st p l =
  (Ok (receipt_of request p CONFIRMED),
   set_streams (<[stream := stream_append st p part
     (record_of request stream p part d) request]> (_streams l)) l).
Proof.
  intros Hr Hst Hp Hpart Hd. pose proof (proj1 Hwf _ _ Hst) as Hs.
  pose proof (ws_part _ _ _ Hs p part Hp Hpart) as Hph.
  unfold append_new. rewrite Hpart. autorewrite with mrun. simpl. rewrite Hd.
  rewrite (run_alter_stream _ _ st) by done. autorewrite with mrun.
  rewrite StoredRecord_of_request; [|done|apply Hs|done|pose proof (ph_first _ _ Hph); lia|by eapply part_stamp_aware].
  erewrite run_alter_stream by (simpl; by rewrite lookup_insert_eq).
  autorewrite with mrun. rewrite receipt_new_ok by done. rewrite set_partition_twice.
  unfold stream_append. simpl. rewrite insert_insert_eq.
  destruct (ar_producer_name request), (ar_publishing_id request); try done.
  erewrite run_alter_stream by (simpl; by rewrite lookup_insert_eq).
  autorewrite with mrun. simpl. by rewrite insert_insert_eq.
Qed.

(** The outcomes of append: an error, with the log untouched; a duplicate of
    the producer's last request, with the log untouched; or one new record. *)
Lemma append_cases stream request now r l' :
  wf_request request → append stream request now l = (r, l') →
  (l' = l ∧ ∃ e, r = Err e) ∨
  (l' = l ∧ ∃ st p n ps, routes_to l stream request st p ∧
     ar_producer_name request = Some n ∧ producers st !! (p, n) = Some ps ∧
     ar_publishing_id request = Some (prod_publishing_id ps) ∧
     AppendRequest_eqb request (prod_request ps) = true ∧
     r = Ok (receipt_of request p DEDUPLICATED)) ∨
  (∃ st p part d, routes_to l stream request st p ∧
     partitions st !! Z.to_nat p = Some part ∧ now = PyDatetime d ∧ dt_aware d = true ∧
     (∀ n ps, ar_producer_name request = Some n → producers st !! (p, n) = Some ps →
        ∃ pid, ar_publishing_id request = Some pid ∧ prod_publishing_id ps < pid) ∧
     r = Ok (receipt_of request p CONFIRMED) ∧
     l' = set_streams (<[stream := stream_append st p part
            (record_of request stream p part d) request]> (_streams l)) l).
Proof.
  intros Hr Hrun. unfold append in Hrun. autorewrite with mrun in Hrun.
  destruct (_closed l) eqn:Hopen; [simplify_eq; eauto|].
  destruct (_streams l !! stream) as [st|] eqn:Hst; [|simplify_eq; eauto].
  autorewrite with mrun in Hrun.
  destruct (validate_append_request_limits _ _) as [[]|] eqn:Hlim; [|simplify_eq; eauto].
  destruct (router_route _ _ _) as [v|] eqn:Hroute; [|simplify_eq; eauto].
  autorewrite with mrun in Hrun.
  destruct (check_route _ v) as [p|] eqn:Hcheck; [|simplify_eq; eauto].
  apply check_route_ok in Hcheck as [-> Hp]. apply validate_append_request_limits_spec in Hlim.
  assert (routes_to l stream request st p) as Hto by done.
  autorewrite with mrun in Hrun.
  destruct (known_publication st p request) as [known|] eqn:Hknown; [|simplify_eq; eauto].
  apply (known_publication_cases _ stream) in Hknown; [|done|lia|done].
  destruct known as [receipt|].
  { right; left. destruct Hknown as (n & ps & ? & ? & ? & ? & ->).
    autorewrite with mrun in Hrun. simplify_eq. split; [done|]. by exists st, p, n, ps. }
  destruct (partition_ok stream st p Hst Hp) as (part & Hpart & Hph).
  destruct (_now now) as [d|e] eqn:Hnow; last first.
  { left. unfold append_new in Hrun. rewrite Hpart in Hrun. autorewrite with mrun in Hrun.
    rewrite Hnow in Hrun. simplify_eq. eauto. }
  assert (now = PyDatetime d ∧ dt_aware d = true) as [-> Hd].
  { unfold _now in Hnow. destruct now; try done. case_match; by simplify_eq. }
  rewrite (append_new_run _ _ _ _ part) in Hrun by (done || lia). simplify_eq.
  right; right. by exists st, p, part, d.
Qed.

(** ** Trim, declare, read *)

Lemma partition_of_ok st v p part :
  _partition st v = Ok (p, part) →
  v = PyInt p ∧ 0 <= p < zlen (partitions st) ∧ partitions st !! Z.to_nat p = Some part.
Proof.
  unfold _partition. destruct v; try done. repeat case_match; try done.
  intros; simplify_eq. bool_hyps. split_and!; [done|lia|lia|done].
Qed.

Lemma partition_of_int st p :
  0 <= p < zlen (partitions st) →
  ∃ part, partitions st !! Z.to_nat p = Some part ∧ _partition st (PyInt p) = Ok (p, part).
Proof.
  intros Hp. destruct (lookup_lt_is_Some_2 (partitions st) (Z.to_nat p)) as [part Hpart].
  { unfold zlen in Hp. lia. }
  exists part. split; [done|]. unfold _partition.
  destruct (Z.ltb_spec p 0); [lia|]. destruct (Z.leb_spec (zlen (partitions st)) p); [lia|].
  simpl. by rewrite Hpart.
Qed.

Lemma validate_read_ok d f n range :
  _validate_read d f n = Ok range →
  f = PyInt range.1 ∧ n = PyInt range.2 ∧ 0 <= range.1 ∧
  0 < range.2 <= max_read_records (limits d).
Proof.
  unfold _validate_read. intros Hr.
  apply result_bind_ok in Hr as (x & Hx & Hr). apply result_bind_ok in Hr as (y & Hy & Hr).
  apply result_bind_ok in Hr as (? & Hm%raise_if_ok & Hr). simplify_eq.
  destruct f; try done. destruct n; try done. repeat case_match; try done.
  simplify_eq. bool_hyps. simpl. split_and!; done || lia.
Qed.

Lemma validate_read_int d f n :
  0 <= f → 0 < n <= max_read_records (limits d) →
  _validate_read d (PyInt f) (PyInt n) = Ok (f, n).
Proof.
  intros Hf Hn. unfold _validate_read. destruct (Z.ltb_spec f 0); [lia|].
  destruct (Z.leb_spec n 0); [lia|]. simpl.
  destruct (Z.ltb_spec (max_read_records (limits d)) n); [lia|done].
Qed.

Lemma trim_cases stream v before r l' :
  trim stream v before l = (r, l') →
  (l' = l ∧ ∃ e, r = Err e) ∨
  ∃ st p part b, _closed l = false ∧ _streams l !! stream = Some st ∧ v = PyInt p ∧
    0 <= p < zlen (partitions st) ∧ partitions st !! Z.to_nat p = Some part ∧
    before = PyInt b ∧ 0 <= b ∧
    r = Ok (zlen (filter (λ x, sr_offset x < Z.min b (next_offset part)) (records part))) ∧
    l' = set_streams (<[stream := set_partition p (part_trim part b) st]> (_streams l)) l.
Proof.
  unfold trim. intros Hrun. autorewrite with mrun in Hrun.
  destruct (_closed l) eqn:Hopen; [simplify_eq; eauto|].
  destruct (_streams l !! stream) as [st|] eqn:Hst; [|simplify_eq; eauto].
  autorewrite with mrun in Hrun.
  destruct (_partition st v) as [[p part]|] eqn:Hpart; [|simplify_eq; eauto].
  autorewrite with mrun in Hrun.
  destruct (_validate_read _ _ _) as [[b n]|] eqn:Hval; [|simplify_eq; eauto].
  apply partition_of_ok in Hpart as (-> & Hp & Hpart).
  apply validate_read_ok in Hval as (-> & _ & Hb & _). simpl in *.
  rewrite (run_alter_stream _ _ st) in Hrun by done. autorewrite with mrun in Hrun.
  simplify_eq. right. by exists st, p, part, b.
Qed.

Lemma declare_cases d r l' :
  declare_stream d l = (r, l') →
  l' = l ∨
  ∃ snapshot, _streams l !! def_name snapshot = None ∧ def_name snapshot ≠ [] ∧
    0 < partition_count snapshot ∧ r = Ok tt ∧
    l' = set_streams (<[def_name snapshot :=
           {| definition := snapshot;
              partitions := replicate (Z.to_nat (partition_count snapshot)) _PartitionState_new;
              producers := ∅ |}]> (_streams l)) l.
Proof.
  unfold declare_stream. intros Hrun. autorewrite with mrun in Hrun.
  destruct (StreamDefinition_new _ _ _ _) as [snap|] eqn:Hnew; [|simplify_eq; eauto].
  autorewrite with mrun in Hrun. destruct (_closed l); [simplify_eq; eauto|].
  autorewrite with mrun in Hrun.
  destruct (_streams l !! def_name snap) as [cur|] eqn:Hcur.
  { autorewrite with mrun in Hrun. simplify_eq. eauto. }
  right. exists snap. autorewrite with mrun in Hrun. simplify_eq.
  unfold StreamDefinition_new in Hnew.
  apply result_bind_ok in Hnew as (n & Hn & Hnew).
  apply result_bind_ok in Hnew as (c & [_ Hc]%positive_ok & Hnew).
  do 5 (apply result_bind_ok in Hnew as (? & _ & Hnew)). simplify_eq/=. split_and!; try done.
  intros ->. destruct (def_name d); [done|]. simpl in Hn. by case_match.
Qed.

(** Reading a retained range never fails and returns, in order and up to the
    limit, exactly what was appended from the offset on. *)
Lemma read_run stream st p part from n :
  _closed l = false → _streams l !! stream = Some st → 0 <= p →
  partitions st !! Z.to_nat p = Some part → first_offset part <= from →
  0 < n <= max_read_records (limits (definition st)) →
  read stream (PyInt p) (PyInt from) (PyInt n) l =
  (Ok {| page_records := take (Z.to_nat n) (filter (λ r, from <= sr_offset r) (H stream p));
         page_bounds := Some {| earliest_offset := first_offset part;
                                end_offset := next_offset part |} |}, l).
Proof.
  intros Hopen Hst Hp Hpart Hfrom Hn. pose proof (proj1 Hwf _ _ Hst) as Hs.
  pose proof (ws_part _ _ _ Hs p part Hp Hpart) as Hph.
  unfold read. autorewrite with mrun. rewrite Hopen, Hst. autorewrite with mrun.
  destruct (partition_of_int st p) as (part' & ? & ->); [|simplify_eq].
  { apply lookup_lt_Some in Hpart. unfold zlen. lia. }
  autorewrite with mrun. rewrite validate_read_int by (pose proof (ph_first _ _ Hph); lia).
  autorewrite with mrun. unfold _require_retained. simpl.
  rewrite (proj2 (Z.ltb_ge _ _)) by lia. autorewrite with mrun.
  rewrite (bounds_ok _ _ Hph). autorewrite with mrun. unfold RecordPage_new.
  assert (filter (λ r, from <= sr_offset r) (records part) =
          filter (λ r, from <= sr_offset r) (H stream p)) as ->.
  { rewrite (ph_records _ _ Hph), filter_ge_max. by rewrite Z.max_r. }
  rewrite (proj2 (adjacent_lt_increasing _ _)); [done|].
  apply StronglySorted_take, StronglySorted_filter, Hph.
Qed.
End with_history.

(** ** The invariant is preserved *)

Definition hist_add (H : history) (stream : pystr) (p : Z) (r : StoredRecord) : history :=
  λ n q, if decide (n = stream ∧ q = p) then H n q ++ [r] else H n q.

Lemma hist_add_eq H n p r : hist_add H n p r n p = H n p ++ [r].
Proof. unfold hist_add. by rewrite decide_True. Qed.
Lemma hist_add_ne H n p r n' p' :
  (n' ≠ n ∨ p' ≠ p) → hist_add H n p r n' p' = H n' p'.
Proof. intros ?. unfold hist_add. rewrite decide_False; [done|naive_solver]. Qed.

(** Replacing one partition of a stream, with its history. *)
Lemma wf_stream_set_partition H H' name st p part :
  wf_stream H name st → 0 <= p → is_Some (partitions st !! Z.to_nat p) →
  part_hist (H' p) part → Forall (λ r, sr_stream r = name ∧ sr_partition r = p) (H' p) →
  (∀ q, q ≠ p → H' q = H q) → wf_stream H' name (set_partition p part st).
Proof.
  intros [Hn Hne Hc Hpart Hhome Hout Hprod] Hp [old Hold] Hph Hnew Hsame.
  pose proof (lookup_lt_Some _ _ _ Hold) as Hlt.
  constructor; simpl; try done.
  - rewrite <- Hc. unfold zlen. by rewrite length_insert.
  - intros q x Hq Hx. destruct (decide (q = p)) as [->|Hqp].
    + rewrite list_lookup_insert_eq in Hx by done. by simplify_eq.
    + rewrite Hsame by done. rewrite list_lookup_insert_ne in Hx by lia. eauto.
  - intros q. destruct (decide (q = p)) as [->|Hqp]; [done|]. rewrite Hsame by done. done.
  - intros q Hq. unfold zlen in Hq. rewrite length_insert in Hq.
    rewrite Hsame; [by apply Hout|]. intros ->. lia.
Qed.

Lemma wf_streams_insert H H' l name st :
  wf_streams H l → wf_stream (H' name) name st → (∀ n p, n ≠ name → H' n p = H n p) →
  wf_streams H' (set_streams (<[name := st]> (_streams l)) l).
Proof.
  intros [Hw Hn] Hst Hsame. split; simpl.
  - intros n s Hs. destruct (decide (n = name)) as [->|Hne].
    + rewrite lookup_insert_eq in Hs. by simplify_eq.
    + rewrite lookup_insert_ne in Hs by done. specialize (Hw n s Hs).
      destruct Hw as [? ? ? Hp Hh Ho ?].
      constructor; try done; intros; rewrite Hsame by done; eauto.
  - intros n p Hs. destruct (decide (n = name)) as [->|Hne].
    + by rewrite lookup_insert_eq in Hs.
    + rewrite lookup_insert_ne in Hs by done. rewrite Hsame by done. by apply Hn.
Qed.

Lemma append_preserves H l stream request st p part d :
  wf_streams H l → wf_request request → routes_to l stream request st p →
  partitions st !! Z.to_nat p = Some part → dt_aware d = true →
  let r := record_of request stream p part d in
  wf_streams (hist_add H stream p r)
    (set_streams (<[stream := stream_append st p part r request]> (_streams l)) l).
Proof.
  intros Hwf Hr (Hopen & Hst & _ & _ & Hp) Hpart Hd r.
  pose proof (proj1 Hwf _ _ Hst) as Hs.
  assert (0 <= p) as Hp0 by lia. pose proof (ws_part _ _ _ Hs p part Hp0 Hpart) as Hph.
  apply (wf_streams_insert H); [done| |intros; apply hist_add_ne; naive_solver].
  assert (wf_stream (hist_add H stream p r stream) stream (set_partition p (part_append part r) st))
    as Hset.
  { apply (wf_stream_set_partition (H stream)); [done|done|eauto| | |].
    - rewrite hist_add_eq. by apply part_hist_append with d.
    - rewrite hist_add_eq, Forall_app, Forall_singleton. split; [apply Hs|done].
    - intros q Hq. apply hist_add_ne. by right. }
  unfold stream_append.
  destruct (ar_producer_name request) as [n|] eqn:En; [|done].
  destruct (ar_publishing_id request) as [pid|] eqn:Epid; [|done].
  destruct Hset as [? ? ? ? ? ? Hprod]. constructor; try done.
  intros q m ps Hps. simpl in Hps.
  destruct (decide ((p, n) = (q, m))) as [Heq|Hne].
  - rewrite Heq, lookup_insert_eq in Hps. simplify_eq. done.
  - rewrite lookup_insert_ne in Hps by done. by apply Hprod.
Qed.

Lemma trim_preserves H l stream st p part b :
  wf_streams H l → _streams l !! stream = Some st → 0 <= p →
  partitions st !! Z.to_nat p = Some part → 0 <= b →
  wf_streams H (set_streams (<[stream := set_partition p (part_trim part b) st]> (_streams l)) l).
Proof.
  intros Hwf Hst Hp Hpart Hb. pose proof (proj1 Hwf _ _ Hst) as Hs.
  apply (wf_streams_insert H); [done| |done].
  apply (wf_stream_set_partition (H stream)); [done|done|eauto| |apply Hs|done].
  apply part_hist_trim; [|done]. by apply (ws_part _ _ _ Hs).
Qed.

Lemma declare_preserves H l snapshot :
  wf_streams H l → _streams l !! def_name snapshot = None → def_name snapshot ≠ [] →
  0 < partition_count snapshot →
  wf_streams H (set_streams (<[def_name snapshot :=
    {| definition := snapshot;
       partitions := replicate (Z.to_nat (partition_count snapshot)) _PartitionState_new;
       producers := ∅ |}]> (_streams l)) l).
Proof.
  intros Hwf Hnone Hne Hc. apply (wf_streams_insert H); [done| |done].
  pose proof (λ p, proj2 Hwf _ p Hnone) as Hnil.
  constructor; simpl; try done.
  - unfold zlen. rewrite length_replicate. lia.
  - intros p part Hp [-> _]%lookup_replicate. rewrite Hnil. apply part_hist_new.
  - intros p. rewrite Hnil. constructor.
Qed.
