(* ===== verification/StreamOwnership.v ===== *)
(** * The in-memory log: ownership, fencing and cursors

    The atomic sections of the log as the steps of a transition system
    ([log_op], [exec]); the invariants of every reachable state: the streams
    against the history of what was appended, and the ownership of partitions
    (one current owner per checkpoint key, generations that only grow, leases
    told apart by their generation). *)

From Stdlib Require Import ZArith Lia.
From stdpp Require Import base tactics list gmap strings.
From S2P Require Import Prelude StreamModels Checkpoints StreamLog StreamLogFacts.
From S2P Require Import StreamHistory.
Local Open Scope Z_scope.

(** ** Steps *)

(** One critical section of the log, with the arguments it runs with. *)
Inductive log_op :=
| OpStart
| OpQuiesce
| OpDeclare (d : StreamDefinition)
| OpAppend (stream : pystr) (request : AppendRequest) (now : pyobj)
| OpTrim (stream : pystr) (partition before : pyobj)
| OpAcquireBegin (sub : Subscription) (partition : pyobj) (strategy : CheckpointStrategy)
    (transfer : bool)
| OpAcquireInstall (ctx : acquire_ctx)
| OpCancelAcquire (ctx : acquire_ctx)
| OpInitialize (lid : Z) (now : pyobj)
| OpFailedInitialization (lid : Z) (ctx : acquire_ctx)
| OpAcquireFinish (ctx : acquire_ctx)
| OpNext (lid : Z) (cursor : ResumeCursor)
| OpCheckpoint (lid : Z) (expected cursor : ResumeCursor)
| OpComplete (lid : Z) (key : CheckpointKey) (owner : OwnershipToken)
| OpStop (lid : Z)
| OpRelease (lid : Z)
| OpClose.

(** The state after the section, whether it returned or raised. *)
Definition exec (op : log_op) (l : log) : log :=
  match op with
  | OpStart => (start l).2
  | OpQuiesce => (quiesce l).2
  | OpDeclare d => (declare_stream d l).2
  | OpAppend s r n => (append s r n l).2
  | OpTrim s p b => (trim s p b l).2
  | OpAcquireBegin sub p strategy t => (acquire_begin sub p strategy t l).2
  | OpAcquireInstall ctx => (acquire_install ctx l).2
  | OpCancelAcquire ctx => (_cancel_acquire ctx l).2
  | OpInitialize lid n => (_initialize_broker lid n l).2
  | OpFailedInitialization lid ctx => (_failed_initialization lid ctx l).2
  | OpAcquireFinish ctx => (acquire_finish ctx l).2
  | OpNext lid c => (_next_locked lid c l).2
  | OpCheckpoint lid e c => (_checkpoint_broker lid e c l).2
  | OpComplete lid k o => ((_require_owner_locked k o;; _complete_delivery_locked lid) l).2
  | OpStop lid => (_stop lid l).2
  | OpRelease lid => (release lid l).2
  | OpClose => (close l).2
  end.

(** Requests reach the log through their validating constructor. *)
Definition op_ok (op : log_op) : Prop :=
  match op with OpAppend _ r _ => wf_request r | _ => True end.

(** A partition of a stream. *)
Definition part_at (l : log) (stream : pystr) (p : Z) : option _PartitionState :=
  if p <? 0 then None else st ← _streams l !! stream; partitions st !! Z.to_nat p.

(** The records a step added to a partition: those past its old end. *)
Definition added (l l' : log) (stream : pystr) (p : Z) : list StoredRecord :=
  match part_at l stream p, part_at l' stream p with
  | Some a, Some b => filter (λ r, next_offset a <= sr_offset r) (records b)
  | None, Some b => records b
  | _, None => []
  end.

(** The reachable states, with the history of each partition. *)
Inductive reachable : log → history → Prop :=
| reach_new m l : InMemoryPersistentLog_new m = Ok l → reachable l (λ _ _, [])
| reach_step l H H' op : reachable l H → op_ok op →
    (∀ n p, H' n p = H n p ++ added l (exec op l) n p) → reachable (exec op l) H'.

(** ** The ownership invariant *)

Record wf_owners (l : log) : Prop := {
  wo_lease : ∀ key lid, _leases l !! key = Some lid →
    ∃ x, objects l !! lid = Some x ∧ lease_key x = key ∧
         _owners l !! key = Some (lease_owner x) ∧ _released x = false;
  wo_owner : ∀ key t, _owners l !! key = Some t → is_Some (_leases l !! key);
  wo_gen : ∀ lid x, objects l !! lid = Some x →
    lid < next_object l ∧
    0 < generation (lease_owner x) <= default 0 (_generations l !! lease_key x);
  wo_unique : ∀ i j x y, objects l !! i = Some x → objects l !! j = Some y →
    lease_key x = lease_key y → generation (lease_owner x) = generation (lease_owner y) → i = j;
  wo_delivery : ∀ lid x, objects l !! lid = Some x →
    (_in_flight x = None ↔ _delivery_completed x = true);
  wo_nonneg : ∀ key, 0 <= default 0 (_generations l !! key)
}.

(** The part of the state the invariant reads. *)
Definition owner_view (l : log) :=
  (_leases l, _owners l, objects l, next_object l, _generations l).

Lemma wf_owners_view l l' : owner_view l' = owner_view l → wf_owners l → wf_owners l'.
Proof.
  unfold owner_view. destruct l, l'. simpl. intros E [? ? ? ? ? ?]. simplify_eq. by constructor.
Qed.

Lemma pres_owners_keeps {A} (m : L A) : keeps owner_view m → pres wf_owners m.
Proof. intros Hk l Hl. apply (wf_owners_view l); [apply Hk|done]. Qed.

(** Changing a lease object without touching its identity. *)
Lemma wf_owners_alter f lid l :
  (∀ x, lease_key (f x) = lease_key x ∧ lease_owner (f x) = lease_owner x ∧
        _released (f x) = _released x ∧
        ((_in_flight x = None ↔ _delivery_completed x = true) →
         (_in_flight (f x) = None ↔ _delivery_completed (f x) = true))) →
  wf_owners l → wf_owners (set_objects (alter f lid (objects l)) (next_object l) l).
Proof.
  intros Hf [Hl Ho Hg Hu Hd Hn].
  assert (∀ i x, alter f lid (objects l) !! i = Some x →
    ∃ y, objects l !! i = Some y ∧ lease_key x = lease_key y ∧ lease_owner x = lease_owner y ∧
         _released x = _released y ∧
         ((_in_flight y = None ↔ _delivery_completed y = true) →
          (_in_flight x = None ↔ _delivery_completed x = true))) as Hinv.
  { intros i x Hx. destruct (decide (lid = i)) as [->|].
    - rewrite lookup_alter_eq in Hx. destruct (objects l !! i) as [y|]; simplify_eq/=.
      exists y. destruct (Hf y) as (? & ? & ? & ?). done.
    - rewrite lookup_alter_ne in Hx by done. by exists x. }
  constructor; simpl; try done.
  - intros key i Hi. destruct (Hl key i Hi) as (x & Hx & Hk & How & Hr).
    destruct (decide (lid = i)) as [->|].
    + exists (f x). rewrite lookup_alter_eq, Hx. destruct (Hf x) as (-> & -> & -> & _). done.
    + exists x. by rewrite lookup_alter_ne.
  - intros i x (y & Hy & -> & -> & _)%Hinv. eauto.
  - intros i j x y (x' & Hx & -> & -> & _)%Hinv (y' & Hy & -> & -> & _)%Hinv. eauto.
  - intros i x (y & Hy & _ & _ & _ & Himp)%Hinv. eauto.
Qed.

Lemma pres_alter_lease lid f :
  (∀ x, lease_key (f x) = lease_key x ∧ lease_owner (f x) = lease_owner x ∧
        _released (f x) = _released x ∧
        ((_in_flight x = None ↔ _delivery_completed x = true) →
         (_in_flight (f x) = None ↔ _delivery_completed (f x) = true))) →
  pres wf_owners (alter_lease lid f).
Proof. intros Hf. apply pres_modify. intros l. by apply wf_owners_alter. Qed.

Lemma pres_fresh_object : pres wf_owners fresh_object.
Proof.
  intros l [Hl Ho Hg Hu Hd Hn]. unfold fresh_object. autorewrite with mrun.
  constructor; simpl; try done. intros i x Hx. destruct (Hg i x Hx). split; [lia|done].
Qed.

Lemma pres_lease lid : pres wf_owners (_lease lid).
Proof. unfold _lease. solve_pres. Qed.

Lemma pres_require_open : pres wf_owners _require_open.
Proof. unfold _require_open. solve_pres. Qed.

Lemma pres_stream n : pres wf_owners (_stream n).
Proof. unfold _stream. solve_pres. Qed.
#[export] Hint Resolve pres_fresh_object pres_lease pres_require_open pres_stream : tori.

Lemma pres_require_owner k o : pres wf_owners (_require_owner_locked k o).
Proof. unfold _require_owner_locked. solve_pres. Qed.

Lemma pres_set_pending v : pres wf_owners (modify (set_pending v) : L unit).
Proof. by apply pres_owners_keeps, keeps_modify. Qed.
Lemma pres_set_transfers v : pres wf_owners (modify (set_transfers v) : L unit).
Proof. by apply pres_owners_keeps, keeps_modify. Qed.
#[export] Hint Resolve pres_require_owner pres_set_pending pres_set_transfers : tori.

Lemma pres_reserve sc b : pres wf_owners (_reserve_strategy sc b).
Proof. unfold _reserve_strategy. solve_pres. Qed.
Lemma pres_release_reservation sc b : pres wf_owners (_release_strategy_reservation sc b).
Proof. unfold _release_strategy_reservation. solve_pres. Qed.
#[export] Hint Resolve pres_reserve pres_release_reservation : tori.

Lemma pres_del_lease key : pres wf_owners (del_lease key).
Proof.
  intros l [Hl Ho Hg Hu Hd Hn]. unfold del_lease. autorewrite with mrun.
  case_match; [done|]. autorewrite with mrun. case_match; [done|]. simpl.
  constructor; simpl; try done.
  - intros k lid [Hne Hk]%lookup_delete_Some. rewrite lookup_delete_ne by done. eauto.
  - intros k t [Hne Hk]%lookup_delete_Some. rewrite lookup_delete_ne by done. eauto.
Qed.
#[export] Hint Resolve pres_del_lease : tori.

Lemma pres_set_revocation lid b : pres wf_owners (alter_lease lid (set_revocation b)).
Proof. by apply pres_alter_lease. Qed.
Lemma pres_set_delivery lid r :
  pres wf_owners (alter_lease lid (set_delivery (Some r) false)).
Proof. by apply pres_alter_lease. Qed.
Lemma pres_complete lid : pres wf_owners (_complete_delivery_locked lid).
Proof. by apply pres_alter_lease. Qed.
Lemma pres_stop lid : pres wf_owners (_stop lid).
Proof. by apply pres_alter_lease. Qed.
#[export] Hint Resolve pres_set_revocation pres_set_delivery pres_complete pres_stop : tori.

Lemma pres_acquire_begin sub p strategy t : pres wf_owners (acquire_begin sub p strategy t).
Proof. unfold acquire_begin. solve_pres. Qed.

Lemma pres_cancel_acquire ctx : pres wf_owners (_cancel_acquire ctx).
Proof. unfold _cancel_acquire. solve_pres. Qed.

(** ** Making a new owner current *)

Definition install (key : CheckpointKey) (lid gen : Z) (lease : InMemoryPartitionLease)
    (l : log) : log :=
  set_ownership (<[key := lease_owner lease]> (_owners l)) (<[key := lid]> (_leases l))
    (set_generations (<[key := gen]> (_generations l))
      (set_objects (<[lid := lease]> (objects l)) (lid + 1) l)).

Lemma wf_owners_install key lease l :
  lease_key lease = key → _released lease = false →
  generation (lease_owner lease) = default 0 (_generations l !! key) + 1 →
  (_in_flight lease = None ↔ _delivery_completed lease = true) →
  wf_owners l →
  wf_owners (install key (next_object l) (generation (lease_owner lease)) lease l).
Proof.
  intros Hk Hrel Hgen Hdel [Hl Ho Hg Hu Hd Hn]. pose proof (Hn key) as Hnk.
  assert (objects l !! next_object l = None) as Hfresh.
  { destruct (objects l !! next_object l) as [x|] eqn:E; [|done]. apply Hg in E. lia. }
  constructor; simpl.
  - intros k i [[<- <-]|[Hne Hi]]%lookup_insert_Some.
    + exists lease. by rewrite !lookup_insert_eq.
    + destruct (Hl k i Hi) as (x & Hx & ?). exists x.
      rewrite !lookup_insert_ne; [done|done|]. intros <-. congruence.
  - intros k t [[<- <-]|[Hne Hi]]%lookup_insert_Some.
    + rewrite lookup_insert_eq. eauto.
    + rewrite lookup_insert_ne by done. eauto.
  - intros i x [[<- <-]|[Hne Hi]]%lookup_insert_Some.
    + rewrite Hk, lookup_insert_eq. simpl. lia.
    + destruct (Hg i x Hi). split; [lia|]. rewrite lookup_insert. case_decide as E; [|done].
      simpl. rewrite <- E in *. lia.
  - intros i j x y [[<- <-]|[Hne Hi]]%lookup_insert_Some [[<- <-]|[Hne' Hj]]%lookup_insert_Some
      E1 E2; [done| | |eauto].
    + destruct (Hg j y Hj) as [_ Hy]. rewrite <- E1, Hk in Hy. lia.
    + destruct (Hg i x Hi) as [_ Hx]. rewrite E1, Hk in Hx. lia.
  - intros i x [[<- <-]|[Hne Hi]]%lookup_insert_Some; [done|eauto].
  - intros k. rewrite lookup_insert. case_decide; simpl; [lia|apply Hn].
Qed.

(** The tail of [acquire_install]. *)
Lemma acquire_install_tail ctx l r l' :
  (l ← get;
   let gen := default 0 (_generations l !! ac_key ctx) + 1 in
   token ← lift (OwnershipToken_new (PyStr (sub_owner_id (ac_subscription ctx))) (PyInt gen));
   lid ← fresh_object;
   let lease := {| subscription := ac_subscription ctx; lease_key := ac_key ctx;
                   lease_owner := token; _store := ac_store ctx; _stopped := false;
                   _released := false; _revocation_requested := false; _in_flight := None;
                   _delivery_completed := true |} in
   modify (λ l, set_objects (<[lid := lease]> (objects l)) (next_object l) l);;
   modify (λ l, set_generations (<[ac_key ctx := gen]> (_generations l)) l);;
   modify (λ l, set_ownership (<[ac_key ctx := token]> (_owners l))
                  (<[ac_key ctx := lid]> (_leases l)) l);;
   mret lid) l = (r, l') →
  (l' = l ∧ ∃ e, r = Err e) ∨
  ∃ lease, r = Ok (next_object l) ∧ lease_key lease = ac_key ctx ∧
    subscription lease = ac_subscription ctx ∧ _store lease = ac_store ctx ∧
    _stopped lease = false ∧ _released lease = false ∧ _revocation_requested lease = false ∧
    _in_flight lease = None ∧ _delivery_completed lease = true ∧
    lease_owner lease = {| owner_id := sub_owner_id (ac_subscription ctx);
                           generation := default 0 (_generations l !! ac_key ctx) + 1 |} ∧
    l' = install (ac_key ctx) (next_object l) (generation (lease_owner lease)) lease l.
Proof.
  intros Hrun. autorewrite with mrun in Hrun. cbv zeta in Hrun.
  autorewrite with mrun in Hrun.
  destruct (OwnershipToken_new _ _) as [token|e] eqn:Htok; [|simplify_eq; eauto].
  right. unfold OwnershipToken_new in Htok.
  apply result_bind_ok in Htok as (o & [Ho _]%non_empty_str_ok & Htok).
  apply result_bind_ok in Htok as (g & [Hg _]%positive_ok & Htok). simplify_eq.
  unfold fresh_object in Hrun. autorewrite with mrun in Hrun. simplify_eq. simpl.
  eexists {| lease_owner := {| owner_id := _; generation := _ |} |}. split_and!; done.
Qed.

Lemma pres_acquire_install ctx : pres wf_owners (acquire_install ctx).
Proof.
  unfold acquire_install. apply pres_bind; [eauto with tori|intros _].
  apply pres_bind; [solve_pres|intros _].
  { apply pres_owners_keeps. by apply keeps_modify. }
  intros l Hl.
  match goal with |- wf_owners (?m l).2 => destruct (m l) as [r l'] eqn:Hrun end. simpl.
  apply acquire_install_tail in Hrun
    as [[-> _]|(x & _ & Hk & _ & _ & _ & Hr & _ & Hif & Hdc & Ho & ->)]; [done|].
  apply wf_owners_install; try done; by rewrite ?Ho, ?Hif, ?Hdc.
Qed.

(** ** Release and close *)

Lemma wf_owners_release lid x l :
  wf_owners l → objects l !! lid = Some x → _leases l !! lease_key x ≠ Some lid →
  wf_owners (set_objects (alter (λ x, set_terminal (_stopped x) true x) lid (objects l))
               (next_object l) l).
Proof.
  intros Hwf Hx Hne. pose proof Hwf as [Hl Ho Hg Hu Hd Hn].
  assert (∀ i y, alter (λ x, set_terminal (_stopped x) true x) lid (objects l) !! i = Some y →
    ∃ z, objects l !! i = Some z ∧ lease_key y = lease_key z ∧ lease_owner y = lease_owner z ∧
         ((_in_flight z = None ↔ _delivery_completed z = true) →
          (_in_flight y = None ↔ _delivery_completed y = true))) as Hinv.
  { intros i y Hy. destruct (decide (lid = i)) as [<-|].
    - rewrite lookup_alter_eq, Hx in Hy. simplify_eq/=. by exists x.
    - rewrite lookup_alter_ne in Hy by done. by exists y. }
  constructor; simpl; try done.
  - intros key i Hi. destruct (Hl key i Hi) as (y & Hy & Hk & How & Hr).
    exists y. rewrite lookup_alter_ne; [done|]. intros <-. by simplify_eq.
  - intros i y (z & Hz & -> & -> & _)%Hinv. eauto.
  - intros i j y z (y' & Hy & -> & -> & _)%Hinv (z' & Hz & -> & -> & _)%Hinv. eauto.
  - intros i y (z & Hz & _ & _ & Himp)%Hinv. eauto.
Qed.

Lemma pres_release lid : pres wf_owners (release lid).
Proof.
  intros l Hl. unfold release, _release, _lease, alter_lease. autorewrite with mrun.
  destruct (objects l !! lid) as [x|] eqn:Hx; [|done]. autorewrite with mrun.
  case_match; [|done]. autorewrite with mrun. simpl. rewrite lookup_alter_eq, Hx. simpl.
  autorewrite with mrun. simpl. case_match; bool_hyps; [|by apply (wf_owners_release _ x)].
  destruct (wo_lease _ Hl _ _ H0) as (x' & Hx' & _ & Ho & _).
  assert (x' = x) as -> by congruence.
  unfold del_lease. autorewrite with mrun. simpl.
  rewrite bool_decide_eq_false_2 by congruence. autorewrite with mrun. simpl.
  rewrite bool_decide_eq_false_2 by congruence. autorewrite with mrun.
  pose proof (pres_del_lease (lease_key x) l Hl) as Hdel. unfold del_lease in Hdel.
  autorewrite with mrun in Hdel. rewrite bool_decide_eq_false_2 in Hdel by congruence.
  autorewrite with mrun in Hdel. rewrite bool_decide_eq_false_2 in Hdel by congruence.
  simpl in Hdel. eapply (wf_owners_release lid x) in Hdel; [exact Hdel|done|].
  simpl. by rewrite lookup_delete_eq.
Qed.
#[export] Hint Resolve pres_release : tori.

Lemma close_heap ls (heap : gmap Z InMemoryPartitionLease) i y :
  foldr (λ (kv : CheckpointKey * Z) heap, alter (λ x, set_terminal (_stopped x) true x) kv.2 heap)
    heap ls !! i = Some y →
  ∃ z, heap !! i = Some z ∧ lease_key y = lease_key z ∧ lease_owner y = lease_owner z ∧
    ((_in_flight z = None ↔ _delivery_completed z = true) →
     (_in_flight y = None ↔ _delivery_completed y = true)).
Proof.
  revert y; induction ls as [|[k lid] ls IH]; intros y; simpl; [by exists y|].
  destruct (decide (lid = i)) as [->|]; [|rewrite lookup_alter_ne by done; apply IH].
  rewrite lookup_alter_eq. destruct (foldr _ _ _ !! i) as [w|] eqn:E; [|done].
  destruct (IH w eq_refl) as (z & ? & ? & ? & ?). intros; simplify_eq/=. by exists z.
Qed.

Lemma pres_close : pres wf_owners close.
Proof.
  intros l [Hl Ho Hg Hu Hd Hn]. unfold close. autorewrite with mrun. simpl.
  constructor; simpl; try done.
  - intros i y (z & Hz & -> & -> & _)%close_heap. eauto.
  - intros i j y z (y' & Hy & -> & -> & _)%close_heap (z' & Hz & -> & -> & _)%close_heap. eauto.
  - intros i y (z & Hz & _ & _ & Himp)%close_heap. eauto.
Qed.

(** ** Every step preserves the ownership invariant *)

Lemma pres_next lid c : pres wf_owners (_next_locked lid c).
Proof. unfold _next_locked. solve_pres. Qed.

Lemma pres_set_cursors key c :
  pres wf_owners (modify (λ l, set_broker_cursors (<[key := c]> (_broker_cursors l)) l) : L unit).
Proof. by apply pres_owners_keeps, keeps_modify. Qed.
#[export] Hint Resolve pres_next pres_set_cursors : tori.

Lemma pres_lease_start x n : pres wf_owners (lease_start x n).
Proof. unfold lease_start. solve_pres. Qed.
#[export] Hint Resolve pres_lease_start : tori.

Lemma pres_initialize_broker lid n : pres wf_owners (_initialize_broker lid n).
Proof. unfold _initialize_broker. solve_pres. Qed.

Lemma pres_checkpoint_broker lid e c : pres wf_owners (_checkpoint_broker lid e c).
Proof. unfold _checkpoint_broker. solve_pres. Qed.

Lemma pres_acquire_finish ctx : pres wf_owners (acquire_finish ctx).
Proof.
  unfold acquire_finish. apply pres_bind; [|intros ?; eauto with tori].
  by apply pres_owners_keeps, keeps_modify.
Qed.

Lemma keeps_alter_stream {T} (view : log → T) n f :
  (∀ v l, view (set_streams v l) = view l) → keeps view (alter_stream n f).
Proof. intros Hv l. unfold alter_stream. autorewrite with mrun. apply Hv. Qed.

Lemma keeps_require_open {T} (view : log → T) : keeps view _require_open.
Proof. unfold _require_open. solve_keeps. Qed.
Lemma keeps_stream {T} (view : log → T) n : keeps view (_stream n).
Proof. unfold _stream. solve_keeps. Qed.
#[export] Hint Resolve keeps_require_open keeps_stream : tori.

(** The operations on records touch nothing but the streams. *)
Lemma keeps_append {T} (view : log → T) s r n :
  (∀ v l, view (set_streams v l) = view l) → keeps view (append s r n).
Proof.
  intros Hv. pose proof (λ n f, keeps_alter_stream view n f Hv).
  unfold append, append_new. solve_keeps.
Qed.
Lemma keeps_trim {T} (view : log → T) s p b :
  (∀ v l, view (set_streams v l) = view l) → keeps view (trim s p b).
Proof. intros Hv. pose proof (λ n f, keeps_alter_stream view n f Hv). unfold trim. solve_keeps. Qed.
Lemma keeps_declare {T} (view : log → T) d :
  (∀ v l, view (set_streams v l) = view l) → keeps view (declare_stream d).
Proof.
  intros Hv. unfold declare_stream. solve_keeps. apply keeps_modify. intros; apply Hv.
Qed.

Lemma exec_wf_owners op l : wf_owners l → wf_owners (exec op l).
Proof.
  destruct op; simpl.
  - apply (pres_owners_keeps start). unfold start. solve_keeps.
  - apply (pres_owners_keeps quiesce). by apply keeps_modify.
  - by apply (pres_owners_keeps (declare_stream d)), keeps_declare.
  - by apply (pres_owners_keeps (append _ _ _)), keeps_append.
  - by apply (pres_owners_keeps (trim _ _ _)), keeps_trim.
  - apply pres_acquire_begin.
  - apply pres_acquire_install.
  - apply pres_cancel_acquire.
  - apply pres_initialize_broker.
  - unfold _failed_initialization. revert l. solve_pres.
  - apply pres_acquire_finish.
  - apply pres_next.
  - apply pres_checkpoint_broker.
  - revert l. solve_pres.
  - apply pres_stop.
  - apply pres_release.
  - apply pres_close.
Qed.

(** ** Every step extends the history *)

Lemma part_at_some H l n p part :
  wf_streams H l → part_at l n p = Some part → part_hist (H n p) part.
Proof.
  intros [Hw _]. unfold part_at. destruct (Z.ltb_spec p 0); [done|].
  destruct (_streams l !! n) as [st|] eqn:Hst; [|done]. simpl. apply (ws_part _ _ _ (Hw _ _ Hst)).
  lia.
Qed.

Lemma part_at_none H l n p : wf_streams H l → part_at l n p = None → H n p = [].
Proof.
  intros [Hw Hn]. unfold part_at. destruct (_streams l !! n) as [st|] eqn:Hst; [|by auto].
  destruct (Z.ltb_spec p 0); simpl; intros Hp; apply (ws_out _ _ _ (Hw _ _ Hst)); [by left|].
  right. apply lookup_ge_None in Hp. unfold zlen. lia.
Qed.

Lemma history_nonneg l H n p r : wf_streams H l → r ∈ H n p → 0 <= sr_offset r.
Proof.
  intros Hs Hr. destruct (part_at l n p) as [part|] eqn:Hat.
  - pose proof (ph_range _ _ (part_at_some _ _ _ _ _ Hs Hat)) as Hall.
    rewrite Forall_forall in Hall. specialize (Hall r Hr). lia.
  - rewrite (part_at_none _ _ _ _ Hs Hat) in Hr. by apply elem_of_nil in Hr.
Qed.

Lemma filter_all {A} (P : A → Prop) `{∀ x, Decision (P x)} l : Forall P l → filter P l = l.
Proof. induction 1; [done|]. rewrite filter_cons, decide_True by done. by f_equal. Qed.
Lemma filter_none {A} (P : A → Prop) `{∀ x, Decision (P x)} l :
  Forall (λ x, ¬ P x) l → filter P l = [].
Proof. induction 1; [done|]. by rewrite filter_cons, decide_False. Qed.

Lemma added_ext H H' l l' n p X :
  wf_streams H l → wf_streams H' l' → H' n p = H n p ++ X →
  (∀ a b, part_at l n p = Some a → part_at l' n p = Some b →
     Forall (λ r, next_offset a <= sr_offset r ∧ first_offset b <= sr_offset r) X) →
  (part_at l n p = None → X = []) → added l l' n p = X.
Proof.
  intros Hwf Hwf' HX Hab Hnew. unfold added.
  destruct (part_at l' n p) as [b|] eqn:Hb; last first.
  { pose proof (part_at_none _ _ _ _ Hwf' Hb) as E. rewrite HX in E.
    apply app_eq_nil in E as [_ ->]. by case_match. }
  pose proof (part_at_some _ _ _ _ _ Hwf' Hb) as Hph. rewrite (ph_records _ _ Hph), HX.
  destruct (part_at l n p) as [a|] eqn:Ha.
  - specialize (Hab a b eq_refl eq_refl). apply Forall_and in Hab as [Hge Hfst].
    rewrite !filter_app, (filter_all _ X), (filter_all _ X) by done.
    rewrite (filter_none _ (filter _ (H n p))); [done|].
    apply Forall_forall. intros r [_ Hr]%list_elem_of_filter.
    pose proof (ph_range _ _ (part_at_some _ _ _ _ _ Hwf Ha)) as Hrange.
    rewrite Forall_forall in Hrange. specialize (Hrange r Hr). lia.
  - by rewrite (part_at_none _ _ _ _ Hwf Ha), (Hnew eq_refl).
Qed.

Lemma wf_streams_eq H H' l l' :
  _streams l' = _streams l → (∀ n p, H' n p = H n p) → wf_streams H l → wf_streams H' l'.
Proof.
  intros Hs HH [Hw Hn]. split; rewrite Hs; [|intros; rewrite HH; eauto].
  intros n st Hst. destruct (Hw n st Hst). constructor; try done; intros; rewrite HH; eauto.
Qed.

(** What a step makes of the history. *)
Definition extends (H : history) (l l' : log) : Prop :=
  ∃ H', wf_streams H' l' ∧ ∀ n p, H' n p = H n p ++ added l l' n p.

Lemma extends_same H l l' : wf_streams H l → wf_streams H l' → extends H l l'.
Proof.
  intros Hwf Hwf'. exists H. split; [done|]. intros n p.
  rewrite (added_ext H H _ _ n p []); rewrite ?app_nil_r; auto.
Qed.

Lemma extends_keeps {A} H (m : L A) l : keeps _streams m → wf_streams H l → extends H l (m l).2.
Proof. intros Hk Hwf. apply extends_same; [done|]. by apply (wf_streams_eq H _ l). Qed.

(** A confirmed append adds its record to the end of its partition's history. *)
Lemma added_append H l stream request st p part d :
  wf_streams H l → wf_request request → routes_to l stream request st p →
  partitions st !! Z.to_nat p = Some part → dt_aware d = true →
  let r := record_of request stream p part d in
  let l' := set_streams (<[stream := stream_append st p part r request]> (_streams l)) l in
  part_at l stream p = Some part ∧ part_at l' stream p = Some (part_append part r) ∧
  ∀ n q, hist_add H stream p r n q = H n q ++ added l l' n q.
Proof.
  intros Hwf Hr Hroute Hpart Hd r l'.
  pose proof (append_preserves H l _ _ _ _ _ _ Hwf Hr Hroute Hpart Hd) as Hwf'.
  fold r in Hwf'. simpl in Hwf'. fold l' in Hwf'. destruct Hroute as (_ & Hst & _ & _ & Hp).
  assert (part_at l stream p = Some part) as Hat.
  { unfold part_at. destruct (Z.ltb_spec p 0); [lia|]. by rewrite Hst. }
  assert (part_at l' stream p = Some (part_append part r)) as Hat'.
  { unfold part_at. destruct (Z.ltb_spec p 0); [lia|]. simpl. rewrite lookup_insert_eq. simpl.
    unfold stream_append. repeat case_match; simpl;
      (rewrite list_lookup_insert_eq; [done|by eapply lookup_lt_Some]). }
  split_and!; [done..|]. intros n q. destruct (decide (n = stream ∧ q = p)) as [[-> ->]|Hne].
  - rewrite hist_add_eq. erewrite added_ext; [done|done|exact Hwf'|apply hist_add_eq| |by rewrite Hat].
    intros a b Ha Hb. apply Forall_singleton. rewrite Hat in Ha. rewrite Hat' in Hb. simplify_eq/=.
    pose proof (ph_first _ _ (part_at_some _ _ _ _ _ Hwf Hat)). lia.
  - erewrite (added_ext H _ l _ n q []); [|done|exact Hwf'| |done|done];
      rewrite app_nil_r; apply hist_add_ne; apply not_and_r in Hne; naive_solver.
Qed.

Lemma extends_append H l stream request now :
  wf_streams H l → wf_request request → extends H l (append stream request now l).2.
Proof.
  intros Hwf Hr. destruct (append stream request now l) as [r l'] eqn:Hrun.
  destruct (append_cases H l Hwf _ _ _ _ _ Hr Hrun)
    as [[-> _]|[[-> _]|(st & p & part & d & Hroute & Hpart & _ & Hd & _ & _ & ->)]]; simpl;
    [by apply extends_same..|].
  eexists. split; [by eapply append_preserves|]. by eapply added_append.
Qed.

Lemma extends_trim H l stream p before :
  wf_streams H l → extends H l (trim stream p before l).2.
Proof.
  intros Hwf. destruct (trim stream p before l) as [r l'] eqn:Hrun.
  destruct (trim_cases H l Hwf _ _ _ _ _ Hrun)
    as [[-> _]|(st & q & part & b & _ & Hst & _ & Hq & Hpart & _ & Hb & _ & ->)];
    simpl; apply extends_same; try done.
  apply trim_preserves; try done. lia.
Qed.

Lemma extends_declare H l d : wf_streams H l → extends H l (declare_stream d l).2.
Proof.
  intros Hwf. destruct (declare_stream d l) as [r l'] eqn:Hrun.
  destruct (declare_cases H l Hwf _ _ _ Hrun) as [->|(s & Hnone & Hne & Hc & _ & ->)];
    simpl; apply extends_same; try done. by apply declare_preserves.
Qed.

Lemma keeps_alter_lease lid f : keeps _streams (alter_lease lid f).
Proof. by apply keeps_modify. Qed.
Lemma keeps_lease lid : keeps _streams (_lease lid).
Proof. unfold _lease. solve_keeps. Qed.
Lemma keeps_fresh : keeps _streams fresh_object.
Proof. unfold fresh_object. solve_keeps. Qed.
Lemma keeps_del key : keeps _streams (del_lease key).
Proof. unfold del_lease. solve_keeps. Qed.
Lemma keeps_owner k o : keeps _streams (_require_owner_locked k o).
Proof. unfold _require_owner_locked. solve_keeps. Qed.
Lemma keeps_unreserve sc b : keeps _streams (_release_strategy_reservation sc b).
Proof. unfold _release_strategy_reservation. solve_keeps. Qed.
#[export] Hint Resolve keeps_alter_lease keeps_lease keeps_fresh keeps_del keeps_owner
  keeps_unreserve : tori.
Lemma keeps_release lid : keeps _streams (release lid).
Proof. unfold release, _release. solve_keeps. Qed.
Lemma keeps_lease_start x n : keeps _streams (lease_start x n).
Proof. unfold lease_start. solve_keeps. Qed.
#[export] Hint Resolve keeps_release keeps_lease_start : tori.

Lemma exec_extends H l op : wf_streams H l → op_ok op → extends H l (exec op l).
Proof.
  intros Hwf Hok. destruct op; cbv beta iota delta [exec];
    try (apply extends_keeps; [|done];
         unfold start, quiesce, acquire_begin, acquire_install, _cancel_acquire, _reserve_strategy,
           _initialize_broker, _failed_initialization, acquire_finish, _next_locked,
           _checkpoint_broker, _complete_delivery_locked, _stop, close; solve_keeps; done).
  - by apply extends_declare.
  - by apply extends_append.
  - by apply extends_trim.
Qed.

(** ** Reachable states *)

Lemma reachable_wf l H : reachable l H → wf_streams H l ∧ wf_owners l.
Proof.
  induction 1 as [m l Hnew|l H H' op Hr [Hs Ho] Hok HH'].
  - unfold InMemoryPersistentLog_new in Hnew. apply result_bind_ok in Hnew as (x & _ & ?).
    simplify_eq. split; [|constructor]; simpl; try done; intros; by rewrite lookup_empty.
  - split; [|by apply exec_wf_owners].
    destruct (exec_extends _ _ _ Hs Hok) as (H2 & Hw & E).
    apply (wf_streams_eq H2 _ (exec op l)); [done| |done]. intros n p. by rewrite E, HH'.
Qed.
