(* ===== verification/StreamFencing.v ===== *)
(** * The in-memory log: fencing and cursors

    What holds between a state and every later one: ownership generations only
    grow, an owner that lost its partition never gets it back under the same
    token, lease objects keep their identity, and the broker-managed cursor of
    a consumer group never moves back. *)

From Stdlib Require Import ZArith Lia.
From stdpp Require Import base tactics list gmap strings.
From S2P Require Import Prelude StreamModels Checkpoints StreamLog StreamLogFacts.
From S2P Require Import StreamHistory StreamOwnership.
Local Open Scope Z_scope.

(** ** Definitions *)

(** The first offset a cursor has not passed. *)
Definition position (c : ResumeCursor) : Z :=
  match kind c with
  | INITIALIZED => cursor_offset c
  | LAST_SUCCESSFUL => cursor_offset c + 1
  end.

Definition current (l : log) (x : InMemoryPartitionLease) : Prop :=
  _owners l !! lease_key x = Some (lease_owner x).

#[export] Instance current_dec l x : Decision (current l x).
Proof. unfold current. apply _. Defined.

Definition heap_ok (l : log) : Prop := ∀ i x, objects l !! i = Some x → i < next_object l.

(** [l] may come after [l0]. *)
Record later (l0 l : log) : Prop := {
  lt_gen : ∀ key, default 0 (_generations l0 !! key) <= default 0 (_generations l !! key);
  lt_owner : ∀ key t, _owners l !! key = Some t →
    _owners l0 !! key = Some t ∨ default 0 (_generations l0 !! key) < generation t;
  lt_lease : ∀ lid x, objects l0 !! lid = Some x →
    ∃ y, objects l !! lid = Some y ∧ lease_key y = lease_key x ∧ lease_owner y = lease_owner x
}.

Definition cursor_le (a b : option ResumeCursor) : Prop :=
  match a, b with
  | Some c, Some c' => position c <= position c'
  | Some _, None => False
  | None, _ => True
  end.

(** A sequence of steps. *)
Inductive steps : log → log → Prop :=
| steps_refl l : steps l l
| steps_step l op l' : op_ok op → steps (exec op l) l' → steps l l'.

(** ** Later states *)

Lemma later_refl l : later l l.
Proof. constructor; [done|by left|eauto]. Qed.

Lemma later_trans l1 l2 l3 : later l1 l2 → later l2 l3 → later l1 l3.
Proof.
  intros [G1 O1 L1] [G2 O2 L2]. constructor.
  - intros key. specialize (G1 key). specialize (G2 key). lia.
  - intros key t Ht. specialize (G1 key). destruct (O2 key t Ht) as [Ht'|]; [by apply O1|right; lia].
  - intros lid x (y & Hy & Hk & Ho)%L1. apply L2 in Hy as (z & Hz & Hk' & Ho').
    exists z. by rewrite Hk', Ho'.
Qed.

Definition after (l0 l : log) : Prop := heap_ok l ∧ later l0 l.

Lemma pres_after_view {A} l0 (m : L A) : keeps owner_view m → pres (after l0) m.
Proof.
  intros Hk l. specialize (Hk l). destruct (m l) as [r l']. simpl in *. unfold owner_view in Hk.
  destruct l, l'. simpl in *. simplify_eq. intros [? []]. split; [done|]. by constructor.
Qed.

Lemma pres_after_modify l0 f :
  (∀ l, owner_view (f l) = owner_view l) → pres (after l0) (modify f : L unit).
Proof. intros ?. apply pres_after_view. by apply keeps_modify. Qed.

Lemma pres_after_alter l0 lid f :
  (∀ x, lease_key (f x) = lease_key x ∧ lease_owner (f x) = lease_owner x) →
  pres (after l0) (alter_lease lid f).
Proof.
  intros Hf l [Hh [G O Hl]]. simpl. split.
  - intros i x Hx. simpl in *. destruct (decide (lid = i)) as [->|].
    + rewrite lookup_alter_eq in Hx. destruct (objects l !! i) eqn:E; [|done]. by eapply Hh.
    + rewrite lookup_alter_ne in Hx by done. by eapply Hh.
  - constructor; simpl; [done|done|]. intros i x (y & Hy & Hk & Ho)%Hl.
    destruct (decide (lid = i)) as [->|]; [|exists y; by rewrite lookup_alter_ne].
    exists (f y). rewrite lookup_alter_eq, Hy. destruct (Hf y) as [-> ->]. done.
Qed.

Lemma pres_after_del l0 key : pres (after l0) (del_lease key).
Proof.
  intros l [Hh [G O Hl]]. unfold del_lease. autorewrite with mrun.
  case_match; [done|]. autorewrite with mrun. case_match; [done|]. simpl.
  split; [done|]. constructor; simpl; try done. intros k t [_ Hk]%lookup_delete_Some. eauto.
Qed.

Lemma pres_after_fresh l0 : pres (after l0) fresh_object.
Proof.
  intros l [Hh [G O Hl]]. unfold fresh_object. autorewrite with mrun. split; [|done].
  intros i x Hx. simpl in *. specialize (Hh i x Hx). lia.
Qed.

Lemma after_install l0 key lease l :
  generation (lease_owner lease) = default 0 (_generations l !! key) + 1 →
  after l0 l → after l0 (install key (next_object l) (generation (lease_owner lease)) lease l).
Proof.
  intros Hgen [Hh [G O Hl]]. split; [|constructor]; simpl.
  - intros i x Hx. simpl in *. apply lookup_insert_Some in Hx as [[<- <-]|[_ Hi]]; [lia|]. specialize (Hh _ _ Hi). lia.
  - intros k. specialize (G k). rewrite lookup_insert. case_decide as E; simpl; [|done].
    rewrite <- E in *. lia.
  - intros k t [[<- <-]|[_ Ht]]%lookup_insert_Some; [|by apply O].
    specialize (G key). right. lia.
  - intros i x (y & Hy & ?)%Hl. exists y. rewrite lookup_insert_ne; [done|].
    intros <-. specialize (Hh _ _ Hy). lia.
Qed.

Lemma pres_after_install l0 ctx : pres (after l0) (acquire_install ctx).
Proof.
  pose proof (pres_after_del l0). pose proof (λ f, pres_after_modify l0 f).
  unfold acquire_install, _require_open, _lease.
  apply pres_bind; [solve_pres|intros _].
  apply pres_bind; [solve_pres|intros _]; [by apply pres_after_modify..|].
  intros l Hl.
  match goal with |- after l0 (?m l).2 => destruct (m l) as [r l'] eqn:Hrun end. simpl.
  apply acquire_install_tail in Hrun
    as [[-> _]|(x & _ & _ & _ & _ & _ & _ & _ & _ & _ & Ho & ->)]; [done|].
  apply after_install; [by rewrite Ho|done].
Qed.

Lemma close_heap_fwd ls (heap : gmap Z InMemoryPartitionLease) i z :
  heap !! i = Some z →
  ∃ y, foldr (λ (kv : CheckpointKey * Z) heap, alter (λ x, set_terminal (_stopped x) true x) kv.2 heap)
    heap ls !! i = Some y ∧ lease_key y = lease_key z ∧ lease_owner y = lease_owner z.
Proof.
  intros Hz. induction ls as [|[k lid] ls (y & IH & Hk & Ho)]; simpl; [by exists z|].
  destruct (decide (lid = i)) as [->|]; [|rewrite lookup_alter_ne by done; by exists y].
  rewrite lookup_alter_eq, IH. simpl. by eexists.
Qed.

Lemma pres_after_close l0 : pres (after l0) close.
Proof.
  intros l [Hh [G O Hl]]. unfold close. autorewrite with mrun. simpl. split; [|constructor]; simpl.
  - intros i x Hx. simpl in *. apply close_heap in Hx as (z & Hz & _). by eapply Hh.
  - done.
  - intros key t. by rewrite lookup_empty.
  - intros i x (y & Hy & <- & <-)%Hl. by apply close_heap_fwd.
Qed.

Lemma exec_after l0 op l : after l0 l → after l0 (exec op l).
Proof.
  pose proof (pres_after_del l0) as Hdel. pose proof (pres_after_fresh l0) as Hfresh.
  pose proof (λ lid f, pres_after_alter l0 lid f) as Halter.
  revert l. destruct op; cbv beta iota delta [exec];
  match goal with |- ∀ l, after l0 l → after l0 (?m l).2 => change (pres (after l0) m) end.
  all: try (apply pres_after_view; first [by apply keeps_declare|by apply keeps_append|by apply keeps_trim]).
  all: try apply pres_after_install; try apply pres_after_close.
  all: unfold start, quiesce, acquire_begin, _cancel_acquire, _initialize_broker, _failed_initialization,
    acquire_finish, _next_locked, _checkpoint_broker, _stop, release, _release, _complete_delivery_locked,
    lease_start, _reserve_strategy, _release_strategy_reservation, _require_owner_locked,
    _require_open, _lease, _stream.
  all: solve_pres.
  all: first [by apply pres_after_modify | by apply Halter].
Qed.

Lemma heap_ok_wf l : wf_owners l → heap_ok l.
Proof. intros Hwf i x Hx. apply (wo_gen _ Hwf i x Hx). Qed.

Lemma steps_later l l' : wf_owners l → steps l l' → wf_owners l' ∧ later l l'.
Proof.
  intros Hwf Hs. induction Hs as [l|l op l' Hok Hs IH]; [by split; [|apply later_refl]|].
  destruct IH as [Hwf' Hl]; [by apply exec_wf_owners|]. split; [done|].
  apply (later_trans _ (exec op l)); [|done].
  apply exec_after. split; [by apply heap_ok_wf|apply later_refl].
Qed.

(** ** Broker-managed cursors *)

Lemma cursor_le_refl c : cursor_le c c.
Proof. destruct c; simpl; [lia|done]. Qed.
Lemma cursor_le_trans a b c : cursor_le a b → cursor_le b c → cursor_le a c.
Proof. destruct a, b, c; simpl; lia || done. Qed.

Lemma due_position c r : due c r ↔ position c <= sr_offset r.
Proof. unfold due, position. destruct (kind c); lia. Qed.

Lemma position_offset c : cursor_offset c <= position c.
Proof. unfold position. destruct (kind c); lia. Qed.

Lemma validate_advance_position expected cursor :
  _validate_advance expected cursor = Ok tt → position expected <= position cursor.
Proof.
  unfold _validate_advance, position. intros H.
  apply result_bind_ok in H as ([] & H1%raise_if_ok & H2%raise_if_ok).
  destruct expected as [[] e], cursor as [[] c]; simpl in *; lia.
Qed.

Definition cursors_from (l0 l : log) : Prop :=
  ∀ key, cursor_le (_broker_cursors l0 !! key) (_broker_cursors l !! key).

Lemma pres_cursors {A} l0 (m : L A) : keeps _broker_cursors m → pres (cursors_from l0) m.
Proof. intros Hk l Hl key. rewrite Hk. apply Hl. Qed.

Lemma cursors_checkpoint l0 lid expected cursor :
  pres (cursors_from l0) (_checkpoint_broker lid expected cursor).
Proof.
  intros l Hl. unfold _checkpoint_broker, _lease, _require_owner_locked. autorewrite with mrun.
  destruct (objects l !! lid) as [x|]; [|done]. autorewrite with mrun. unfold _require_open.
  autorewrite with mrun. case_match; [done|]. autorewrite with mrun. case_match; [done|].
  autorewrite with mrun. case_match; [done|]. autorewrite with mrun.
  destruct (_validate_advance expected cursor) as [[]|] eqn:Hadv; [|done].
  autorewrite with mrun. simpl. intros key. simpl. specialize (Hl key). bool_hyps.
  rewrite lookup_insert. case_decide as E; [|done]. subst key.
  match goal with H : ¬ (_ ≠ _) |- _ => apply dec_stable in H; rewrite H in Hl end.
  eapply cursor_le_trans; [exact Hl|]. by apply validate_advance_position.
Qed.

Lemma cursors_initialize l0 lid now : pres (cursors_from l0) (_initialize_broker lid now).
Proof.
  intros l Hl. unfold _initialize_broker, _lease, _require_owner_locked, _require_open.
  autorewrite with mrun. destruct (objects l !! lid) as [x|]; [|done]. autorewrite with mrun.
  case_match; [done|]. autorewrite with mrun. case_match; [done|]. autorewrite with mrun.
  destruct (_broker_cursors l !! lease_key x) as [c|] eqn:Hc; [done|].
  destruct (lease_start x now l) as [r l'] eqn:Hstart.
  assert (l' = l) as ->.
  { assert (keeps id (lease_start x now)) as Hk.
    { unfold lease_start. solve_keeps. }
    specialize (Hk l). by rewrite Hstart in Hk. }
  rewrite (M_bind_eq _ _ _ _ _ Hstart). destruct r as [offset|]; [|done].
  autorewrite with mrun. destruct (initialized offset) as [c|]; [|done]. autorewrite with mrun.
  simpl. intros key. simpl. specialize (Hl key). rewrite lookup_insert.
  destruct (decide (lease_key x = key)) as [<-|]; [|done]. rewrite Hc in Hl.
  by destruct (_broker_cursors l0 !! _).
Qed.

Lemma exec_cursors l0 op l : cursors_from l0 l → cursors_from l0 (exec op l).
Proof.
  revert l. destruct op; cbv beta iota delta [exec];
  match goal with |- ∀ l, cursors_from l0 l → cursors_from l0 (?m l).2 =>
    change (pres (cursors_from l0) m) end.
  all: try apply cursors_checkpoint; try apply cursors_initialize.
  all: apply pres_cursors;
    first [by apply keeps_declare|by apply keeps_append|by apply keeps_trim|idtac].
  all: unfold start, quiesce, acquire_begin, acquire_install, _cancel_acquire,
    _failed_initialization, acquire_finish, _next_locked, _stop, release, _release, del_lease,
    _complete_delivery_locked, lease_start, _reserve_strategy, _release_strategy_reservation,
    _require_owner_locked, _require_open, _lease, _stream, close, alter_lease, fresh_object.
  all: solve_keeps.
Qed.

Lemma steps_cursors l l' : steps l l' → cursors_from l l'.
Proof.
  induction 1 as [l|l op l' Hok Hs IH]; [intros ?; apply cursor_le_refl|].
  intros key. eapply cursor_le_trans; [|apply IH]. apply exec_cursors. intros ?. apply cursor_le_refl.
Qed.
