(* ===== verification/StreamProperties.v ===== *)
(** * The in-memory log: what it guarantees

    The properties of the log on its reachable states: appends and their
    retries, exact reads, retention, start positions, ownership, fencing and
    in-order delivery, with the concrete runs they are applied to. *)

From Stdlib Require Import ZArith Lia.
From stdpp Require Import base tactics list gmap strings.
From S2P Require Import Prelude StreamModels Checkpoints StreamLog StreamLogFacts.
From S2P Require Import StreamHistory StreamOwnership StreamFencing.
Local Open Scope Z_scope.

(** ** Runs *)

Fixpoint run_ops (ops : list log_op) (l : log) : log :=
  match ops with [] => l | op :: ops => run_ops ops (exec op l) end.

Fixpoint run_history (ops : list log_op) (l : log) (H : history) : history :=
  match ops with
  | [] => H
  | op :: ops => run_history ops (exec op l) (λ n p, H n p ++ added l (exec op l) n p)
  end.

Definition bounds_of (part : _PartitionState) : AvailableBounds :=
  {| earliest_offset := first_offset part; end_offset := next_offset part |}.

(** A log with one stream of two partitions, its router a constant function. *)
Definition ex_router (p : Z) : PartitionRouter :=
  {| router_copyable := true; router_implements := true;
     router_identity := Some (PyStr (str "fixed")); router_compatibility_key := Some PyNone;
     router_route _ _ := Ok (PyInt p) |}.
Definition ex_name : pystr := str "orders".
Definition ex_definition : StreamDefinition :=
  {| def_name := ex_name; partition_count := 2; limits := StreamLimits_default;
     router := ex_router 1; _router_identity := str "fixed"; _router_compatibility_key := PyNone |}.
Definition ex_request (id : uuid) (producer : option pystr) (pid : option Z) : AppendRequest :=
  {| ar_record_id := id; ar_partition_key := [Byte.x61]; ar_payload := [Byte.x62];
     ar_headers := [(str "h", [Byte.x00])]; ar_producer_name := producer; ar_publishing_id := pid |}.
Definition ex_time (s : Z) : pyobj := PyDatetime (Datetime s (Some 0)).
Definition ex_new : log := MkLog 8 ∅ ∅ ∅ ∅ ∅ ∅ ∅ ∅ false false false ∅ 0.
Definition ex_ops : list log_op :=
  [OpDeclare ex_definition;
   OpAppend ex_name (ex_request 1 None None) (ex_time 10);
   OpAppend ex_name (ex_request 2 None None) (ex_time 5);
   OpAppend ex_name (ex_request 3 None None) (ex_time 30)].
Definition ex_log : log := run_ops ex_ops ex_new.
Definition ex_history : history := run_history ex_ops ex_new (λ _ _, []).

Definition ex_sub (owner : string) : Subscription :=
  {| sub_stream := ex_name; sub_group := str "g"; sub_owner_id := str owner; sub_start := Beginning |}.
Definition ex_key : CheckpointKey :=
  {| key_stream := ex_name; key_group := str "g"; key_partition := 1 |}.
Definition ex_ctx (owner : string) (current marker : option Z) : acquire_ctx :=
  {| ac_subscription := ex_sub owner; ac_scope := (ex_name, str "g");
     ac_binding := {| mode := str "broker_managed"; binding_identity := None; binding_store := None |};
     ac_store := None; ac_key := ex_key; ac_current_lease := current;
     ac_transfer_marker := marker; ac_wait := None |}.
(** Owner [a] acquires the second partition. *)
Definition ex_acquire : list log_op :=
  [OpAcquireBegin (ex_sub "a") (PyInt 1) BROKER_MANAGED false;
   OpAcquireInstall (ex_ctx "a" None None); OpInitialize 0 PyNone;
   OpAcquireFinish (ex_ctx "a" None None)].
(** Owner [b] takes it over. *)
Definition ex_transfer : list log_op :=
  [OpAcquireBegin (ex_sub "b") (PyInt 1) BROKER_MANAGED true;
   OpAcquireInstall (ex_ctx "b" (Some 0) (Some 1)); OpInitialize 2 PyNone;
   OpAcquireFinish (ex_ctx "b" (Some 0) (Some 1))].
Definition ex_owned : log := run_ops ex_acquire ex_log.
Definition ex_owned_history : history := run_history ex_acquire ex_log ex_history.
Definition ex_world (l : log) : world InMemoryCheckpointStore := MkWorld l ∅.

(** ** Reachability of runs *)

Lemma run_reachable ops l H :
  reachable l H → Forall op_ok ops → reachable (run_ops ops l) (run_history ops l H).
Proof.
  revert l H. induction ops as [|op ops IH]; intros l H Hr Hok; simpl; [done|].
  inversion Hok; subst. apply IH; [|done]. by econstructor.
Qed.

Lemma run_steps ops l : Forall op_ok ops → steps l (run_ops ops l).
Proof.
  revert l. induction ops as [|op ops IH]; intros l Hok; simpl; [constructor|].
  inversion Hok; subst. apply steps_step with op; auto.
Qed.

Lemma reachable_step l H op H' :
  reachable l H → op_ok op → (∀ n p, H' n p = H n p ++ added l (exec op l) n p) →
  reachable (exec op l) H'.
Proof. by intros; econstructor. Qed.

Lemma result_of {S E A} (m : M S E A) s r : (m s).1 = r → m s = (r, (m s).2).
Proof. intros <-. apply surjective_pairing. Qed.

Lemma AppendRequest_eqb_refl r : AppendRequest_eqb r r = true.
Proof.
  unfold AppendRequest_eqb, dict_eqb. by rewrite Z.eqb_refl, !bool_decide_eq_true_2.
Qed.

Lemma ex_request_wf id producer pid :
  (is_Some producer ↔ is_Some pid) → producer ≠ Some [] → (∀ z, pid = Some z → 0 <= z) →
  wf_request (ex_request id producer pid).
Proof.
  intros ? ? ?. constructor; simpl; try done.
  - apply NoDup_singleton.
  - by repeat constructor.
Qed.
#[local] Hint Extern 1 (wf_request (ex_request _ None None)) =>
  (apply ex_request_wf; [split; intros []; discriminate|discriminate|discriminate]) : core.
#[local] Hint Extern 1 (wf_request (ex_request _ (Some _) (Some _))) =>
  (apply ex_request_wf; [split; intros; eauto|discriminate|intros; simplify_eq; lia]) : core.

Lemma ex_log_reachable : reachable ex_log ex_history.
Proof.
  apply run_reachable; [by apply reach_new with (PyInt 8)|].
  unfold ex_ops. rewrite !Forall_cons, Forall_nil. simpl. split_and!; auto.
Qed.

Lemma ex_log_part :
  ∃ st part, _streams ex_log !! ex_name = Some st ∧ part_at ex_log ex_name 1 = Some part ∧
    first_offset part = 0 ∧ next_offset part = 6 ∧ limits (definition st) = StreamLimits_default ∧
    _closed ex_log = false.
Proof. do 2 eexists. split; [vm_compute; reflexivity|]. vm_compute. split_and!; reflexivity. Qed.

Lemma ex_owned_reachable : reachable ex_owned ex_owned_history.
Proof. apply run_reachable; [apply ex_log_reachable|]. repeat constructor. Qed.

(** ** Records *)

(** C1: In every reachable state the retained records of a partition are
    exactly the part of its history from the retention boundary on: offsets are
    strictly increasing and below the end offset, timestamps never decrease,
    and every record carries the stream and partition it was appended to. *)
Theorem log_history l H stream p part :
  reachable l H → part_at l stream p = Some part →
  records part = filter (λ r, first_offset part <= sr_offset r) (H stream p) ∧
  increasing sr_offset (H stream p) ∧ nondecreasing time_of (H stream p) ∧
  Forall (λ r, 0 <= sr_offset r < next_offset part ∧
               sr_stream r = stream ∧ sr_partition r = p) (H stream p).
Proof.
  intros [Hs _]%reachable_wf Hp. pose proof (part_at_some _ _ _ _ _ Hs Hp) as Hph.
  split_and!; try apply Hph. apply Forall_and. split; [apply Hph|].
  unfold part_at in Hp. case_match; [done|].
  destruct (_streams l !! stream) as [st|] eqn:Hst; [|done]. apply (ws_home _ _ _ (proj1 Hs _ _ Hst)).
Qed.

Lemma log_history_witness :
  increasing sr_offset (ex_history ex_name 1) ∧ length (ex_history ex_name 1) = 3%nat.
Proof.
  split; [|reflexivity].
  refine (proj1 (proj2 (log_history ex_log ex_history ex_name 1 _ ex_log_reachable eq_refl))).
Defined.



(** Publishing is idempotent: a named producer that repeats its last
    confirmed request, at whatever time, gets a receipt for the same record and
    partition, marked as deduplicated, and the log does not change. *)
Theorem append_retry l H stream request now receipt l' retry :
  reachable l H → wf_request request → is_Some (ar_producer_name request) →
  append stream request now l = (Ok receipt, l') → pr_outcome receipt = CONFIRMED →
  append stream request retry l' =
  (Ok (receipt_of request (pr_partition receipt) DEDUPLICATED), l').
Proof.
  intros Hreach Hr [n Hn] Hrun Hout. pose proof (reachable_wf _ _ Hreach) as [Hs _].
  destruct (append_cases H l Hs _ _ _ _ _ Hr Hrun)
    as [(_ & e & ?)|[(_ & st & p & n' & ps & _ & _ & _ & _ & _ & ?)
       |(st & p & part & d & Hroute & Hpart & _ & _ & _ & ? & ->)]]; simplify_eq/=.
  destruct Hroute as (Hopen & Hst & Hlim & Hrt & Hp).
  assert (is_Some (ar_publishing_id request)) as [pid Hpid] by (apply (wf_producer _ Hr); eauto).
  unfold append. autorewrite with mrun. simpl. rewrite Hopen, lookup_insert_eq.
  autorewrite with mrun. unfold stream_append. rewrite Hn, Hpid. simpl.
  rewrite (proj2 (validate_append_request_limits_spec _ _ tt)) by done.
  autorewrite with mrun. rewrite Hrt. autorewrite with mrun. unfold check_route.
  destruct (Z.ltb_spec p 0); [lia|]. destruct (Z.leb_spec (partition_count (definition st)) p); [lia|].
  simpl. autorewrite with mrun. unfold known_publication. simpl.
  rewrite Hn, lookup_insert_eq, Hpid. simpl. rewrite Z.eqb_refl, AppendRequest_eqb_refl. simpl.
  by rewrite receipt_new_ok.
Qed.

Lemma append_retry_witness :
  let request := ex_request 7 (Some (str "p")) (Some 3) in
  let l' := (append ex_name request (ex_time 40) ex_log).2 in
  append ex_name request (ex_time 50) l' = (Ok (receipt_of request 1 DEDUPLICATED), l').
Proof.
  intros request l'.
  apply (append_retry ex_log ex_history ex_name request (ex_time 40)
           (receipt_of request 1 CONFIRMED) l' (ex_time 50)).
  - apply ex_log_reachable.
  - subst request. auto.
  - by eexists.
  - apply result_of. vm_compute. reflexivity.
  - reflexivity.
Defined.

Lemma part_at_stream l stream p part st :
  part_at l stream p = Some part → _streams l !! stream = Some st →
  0 <= p ∧ partitions st !! Z.to_nat p = Some part.
Proof.
  unfold part_at. destruct (Z.ltb_spec p 0); [done|]. intros Hp Hst. by rewrite Hst in Hp.
Qed.

(** C3: A read with valid arguments either reports a typed retention gap, when
    it starts before the retained history, or returns exactly the first records
    of the history at or after the requested offset: none skipped, none
    repeated, at most [n]; and it changes nothing. *)
Theorem read_exact l H stream st p part from n :
  reachable l H → _closed l = false → _streams l !! stream = Some st →
  part_at l stream p = Some part → 0 <= from → 0 < n <= max_read_records (limits (definition st)) →
  read stream (PyInt p) (PyInt from) (PyInt n) l =
  (if decide (from < first_offset part)
   then Err (RetentionGapError stream p (Some from) None (Some (bounds_of part)) None)
   else Ok {| page_records := take (Z.to_nat n) (filter (λ r, from <= sr_offset r) (H stream p));
              page_bounds := Some (bounds_of part) |}, l).
Proof.
  intros Hreach Hopen Hst Hat Hfrom Hn. pose proof (reachable_wf _ _ Hreach) as [Hs _].
  pose proof (part_at_some _ _ _ _ _ Hs Hat) as Hph.
  destruct (part_at_stream _ _ _ _ _ Hat Hst) as [Hp Hpart].
  destruct (decide (from < first_offset part)) as [Hlt|Hge]; last first.
  { rewrite (read_run H l Hs _ st _ part); [done|done|done|done|done|lia|done]. }
  unfold read. autorewrite with mrun. rewrite Hopen, Hst. autorewrite with mrun.
  destruct (partition_of_int st p) as (part' & ? & ->); [|simplify_eq].
  { apply lookup_lt_Some in Hpart. unfold zlen. lia. }
  autorewrite with mrun. rewrite validate_read_int by lia. autorewrite with mrun.
  unfold _require_retained. simpl. rewrite (proj2 (Z.ltb_lt _ _)) by lia.
  by rewrite (bounds_ok _ _ Hph).
Qed.

Lemma read_exact_witness :
  (read ex_name (PyInt 1) (PyInt 1) (PyInt 5) ex_log).1 =
  Ok {| page_records := drop 1 (ex_history ex_name 1);
        page_bounds := Some {| earliest_offset := 0; end_offset := 6 |} |}.
Proof.
  destruct ex_log_part as (st & part & Hst & Hat & Hfirst & Hnext & Hlim & Hopen).
  rewrite (read_exact ex_log ex_history ex_name st 1 part 1 5 ex_log_reachable);
    [|exact Hopen|exact Hst|exact Hat|lia|rewrite Hlim; simpl; lia].
  unfold bounds_of. rewrite Hfirst, Hnext. vm_compute. reflexivity.
Defined.

(** What was confirmed can be read back: reading one record at the end
    offset the partition had before the append returns a record with the
    request's identity, key, payload and headers. *)
Theorem append_then_read l H stream request now receipt l' part :
  reachable l H → wf_request request →
  append stream request now l = (Ok receipt, l') → pr_outcome receipt = CONFIRMED →
  part_at l stream (pr_partition receipt) = Some part →
  (∀ st, _streams l !! stream = Some st → 0 < max_read_records (limits (definition st))) →
  ∃ page r,
    read stream (PyInt (pr_partition receipt)) (PyInt (next_offset part)) (PyInt 1) l' =
      (Ok page, l') ∧
    page_records page = [r] ∧ sr_record_id r = ar_record_id request ∧
    sr_partition_key r = ar_partition_key request ∧ sr_payload r = ar_payload request ∧
    sr_headers r = ar_headers request ∧ sr_offset r = next_offset part.
Proof.
  intros Hreach Hr Hrun Hout Hat Hmax. pose proof (reachable_wf _ _ Hreach) as [Hs _].
  destruct (append_cases H l Hs _ _ _ _ _ Hr Hrun)
    as [(_ & e & ?)|[(_ & st & p & n' & ps & _ & _ & _ & _ & _ & ?)
       |(st & p & part' & d & Hroute & Hpart & _ & Hd & _ & ? & ->)]]; simplify_eq/=.
  pose proof (append_preserves H l _ _ _ _ _ _ Hs Hr Hroute Hpart Hd) as Hs'. simpl in Hs'.
  destruct (added_append H l _ _ _ _ _ _ Hs Hr Hroute Hpart Hd) as (Hat2 & Hat' & _).
  rewrite Hat in Hat2. simplify_eq. destruct Hroute as (Hopen & Hst & _ & _ & Hp).
  pose proof (part_at_some _ _ _ _ _ Hs Hat) as Hph. pose proof (ph_first _ _ Hph).
  set (r := record_of request stream p part' d) in *.
  eexists _, r. split; [|split_and!]; [|shelve|done..].
  eapply (read_run _ _ Hs').
  - done.
  - simpl. apply lookup_insert_eq.
  - lia.
  - eapply (part_at_stream _ _ _ _ _ Hat'). simpl. apply lookup_insert_eq.
  - simpl. lia.
  - specialize (Hmax st Hst). unfold stream_append. repeat case_match; simpl; lia.
  Unshelve. simpl. rewrite hist_add_eq, filter_app, filter_none.
  + rewrite filter_cons, decide_True, filter_nil; [done|]. simpl. lia.
  + eapply Forall_impl; [apply (ph_range _ _ Hph)|]. simpl. lia.
Qed.

Lemma append_then_read_witness :
  let request := ex_request 9 None None in
  let l' := (append ex_name request (ex_time 40) ex_log).2 in
  ∃ page r, read ex_name (PyInt 1) (PyInt 6) (PyInt 1) l' = (Ok page, l') ∧
    page_records page = [r] ∧ sr_record_id r = 9.
Proof.
  intros request l'.
  destruct ex_log_part as (st & part & Hst & Hat & Hfirst & Hnext & Hlim & Hopen).
  destruct (append_then_read ex_log ex_history ex_name request (ex_time 40)
           (receipt_of request 1 CONFIRMED) l' part) as (page & r & Hread & Hp & Hid & _).
  - apply ex_log_reachable.
  - subst request. auto.
  - apply result_of. vm_compute. reflexivity.
  - reflexivity.
  - exact Hat.
  - intros st' Hst'. rewrite Hst in Hst'. injection Hst' as <-. rewrite Hlim. simpl. lia.
  - exists page, r. split; [|exact (conj Hp Hid)].
    rewrite Hnext in Hread. exact Hread.
Defined.

(** Trimming moves the retention boundary and loses nothing else: the
    history is the same, exactly the records before the boundary disappear and
    their number is returned, and offsets are not renumbered. *)
Theorem trim_exact l H stream st p part before :
  reachable l H → _closed l = false → _streams l !! stream = Some st →
  part_at l stream p = Some part → 0 <= before → 0 < max_read_records (limits (definition st)) →
  ∃ n l' part', trim stream (PyInt p) (PyInt before) l = (Ok n, l') ∧ reachable l' H ∧
    part_at l' stream p = Some part' ∧ next_offset part' = next_offset part ∧
    first_offset part' = Z.max (first_offset part) (Z.min before (next_offset part)) ∧
    records part' = filter (λ r, first_offset part' <= sr_offset r) (H stream p) ∧
    zlen (records part) = n + zlen (records part').
Proof.
  intros Hreach Hopen Hst Hat Hb Hmax. pose proof (reachable_wf _ _ Hreach) as [Hs _].
  destruct (part_at_stream _ _ _ _ _ Hat Hst) as [Hp Hpart].
  destruct (trim stream (PyInt p) (PyInt before) l) as [r l'] eqn:Hrun.
  assert (∃ n, r = Ok n) as [n ->].
  { unfold trim in Hrun. autorewrite with mrun in Hrun. rewrite Hopen, Hst in Hrun.
    autorewrite with mrun in Hrun. destruct (partition_of_int st p) as (part' & ? & Hpart').
    { apply lookup_lt_Some in Hpart. unfold zlen. lia. }
    rewrite Hpart' in Hrun. autorewrite with mrun in Hrun.
    rewrite validate_read_int in Hrun by lia. autorewrite with mrun in Hrun.
    rewrite (run_alter_stream _ _ st) in Hrun by done. autorewrite with mrun in Hrun.
    simplify_eq. eauto. }
  destruct (trim_cases H l Hs _ _ _ _ _ Hrun)
    as [(_ & e & ?)|(st' & q & part0 & b & _ & Hst' & ? & Hq & Hpart0 & ? & _ & ? & El')];
    simplify_eq.
  match type of Hrun with _ = (_, ?m) => set (l' := m) in * end.
  assert (reachable l' H) as Hreach'.
  { replace l' with (exec (OpTrim stream (PyInt q) (PyInt b)) l)
      by (simpl; by rewrite Hrun).
    apply (reachable_step l H); [done|done|]. intros m x. simpl. rewrite Hrun. simpl.
    symmetry. rewrite <- (app_nil_r (H m x)) at 2. f_equal.
    eapply (added_ext H H); [done| |by rewrite app_nil_r|done|done]. by apply trim_preserves. }
  eexists _, l', (part_trim part b). split_and!; [done|done| |done|done| |].
  - unfold part_at. destruct (Z.ltb_spec q 0); [lia|]. simpl.
    rewrite lookup_insert_eq. simpl. rewrite list_lookup_insert_eq; [done|by eapply lookup_lt_Some].
  - apply (ph_records _ (part_trim part b)), part_hist_trim; [by eapply part_at_some|done].
  - simpl. unfold zlen. rewrite <- (length_filter_split (λ r, sr_offset r < Z.min b (next_offset part))).
    rewrite Nat2Z.inj_add. do 2 f_equal. f_equal. apply list_filter_iff. intros x. lia.
Qed.

Lemma trim_exact_witness :
  ∃ l' part', trim ex_name (PyInt 1) (PyInt 3) ex_log = (Ok 2, l') ∧ reachable l' ex_history ∧
    part_at l' ex_name 1 = Some part' ∧ records part' = drop 2 (ex_history ex_name 1).
Proof.
  destruct ex_log_part as (st & part & Hst & Hat & Hfirst & Hnext & Hlim & Hopen).
  destruct (trim_exact ex_log ex_history ex_name st 1 part 3)
    as (n & l' & part' & Hrun & Hr & Hat' & _ & Hf & Hrec & _).
  - exact ex_log_reachable.
  - exact Hopen.
  - exact Hst.
  - exact Hat.
  - lia.
  - rewrite Hlim. simpl. lia.
  - assert ((trim ex_name (PyInt 1) (PyInt 3) ex_log).1 = Ok 2) as Hn by (vm_compute; reflexivity).
    rewrite Hrun in Hn. simpl in Hn. injection Hn as ->.
    exists l', part'. split; [exact Hrun|]. split; [exact Hr|]. split; [exact Hat'|].
    rewrite Hrec, Hf, Hfirst, Hnext. vm_compute. reflexivity.
Defined.

(** A start by timestamp never hides history: either the position returned
    is at or before every record ever appended at or after that time, all of
    which are retained, or a record at or after it was removed and the error
    says so. *)
Theorem timestamp_start_no_silent_gap l H stream p part t now :
  reachable l H → part_at l stream p = Some part →
  match _resolve_start_locked (Timestamp t) stream p part now with
  | Ok o => first_offset part <= o <= next_offset part ∧
      ∀ r, r ∈ H stream p → instant t <= time_of r → r ∈ records part ∧ o <= sr_offset r
  | Err e => e = RetentionGapError stream p None (Some t) (Some (bounds_of part)) None ∧
      ∃ r, r ∈ H stream p ∧ (r ∉ records part) ∧ instant t <= time_of r
  end.
Proof.
  intros [Hs _]%reachable_wf Hat. pose proof (part_at_some _ _ _ _ _ Hs Hat) as Hph. simpl.
  destruct (resolve_timestamp t stream p part) as [o|e] eqn:Hres.
  - split; [|by eapply resolve_timestamp_complete].
    unfold resolve_timestamp in Hres. rewrite (bounds_ok _ _ Hph) in Hres.
    repeat case_match; simplify_eq; by eapply first_at_or_after_least.
  - destruct (resolve_timestamp_gap _ _ Hph _ _ _ _ Hres) as (r & Hr & Hlt & Ht & ->).
    split; [done|]. exists r. split_and!; [done| |done].
    rewrite (records_elem _ _ Hph). lia.
Qed.

Lemma timestamp_start_no_silent_gap_witness :
  ∃ part, part_at ex_log ex_name 1 = Some part ∧
  match _resolve_start_locked (Timestamp (Datetime 10 (Some 0))) ex_name 1 part PyNone with
  | Ok o => 0 <= o ∧ ∀ r, r ∈ ex_history ex_name 1 → 10 <= time_of r → o <= sr_offset r
  | Err _ => False
  end.
Proof.
  destruct ex_log_part as (st & part & Hst & Hat & Hfirst & Hnext & Hlim & Hopen).
  exists part. split; [exact Hat|].
  pose proof (timestamp_start_no_silent_gap ex_log ex_history ex_name 1 part
                (Datetime 10 (Some 0)) PyNone ex_log_reachable Hat) as Hres.
  destruct (_resolve_start_locked _ _ _ _ _) as [o|e].
  - destruct Hres as [Ho Hall]. split; [lia|]. intros r Hr Ht. by apply (Hall r).
  - destruct Hres as (_ & r & Hr & Hnin & _). apply Hnin.
    destruct (reachable_wf _ _ ex_log_reachable) as [Hs _].
    pose proof (part_at_some _ _ _ _ _ Hs Hat) as Hph. pose proof (ph_range _ _ Hph) as Hall.
    apply (records_elem _ _ Hph). split; [done|].
    rewrite Forall_forall in Hall. specialize (Hall r Hr). lia.
Defined.

(** ** Ownership *)

(** At most one lease owns a partition: in every reachable state two lease
    objects of a checkpoint key that both pass the ownership check are the same
    object, and the log's lease table names it. *)
Theorem one_owner l H i j x y :
  reachable l H → objects l !! i = Some x → objects l !! j = Some y →
  lease_key x = lease_key y → current l x → current l y →
  i = j ∧ _leases l !! lease_key x = Some i.
Proof.
  intros [_ Hwf]%reachable_wf Hi Hj Hk Hx Hy. unfold current in *.
  destruct (wo_owner _ Hwf _ _ Hx) as [k Hlk].
  destruct (wo_lease _ Hwf _ _ Hlk) as (z & Hz & Hzk & Hzo & _).
  rewrite Hx in Hzo. injection Hzo as Hxz. rewrite <- Hk, Hx in Hy. injection Hy as Hxy.
  assert (i = j) as -> by (eapply (wo_unique _ Hwf); [done|done|done|congruence]).
  assert (j = k) as -> by (eapply (wo_unique _ Hwf); [done|done|congruence|congruence]).
  done.
Qed.

Lemma ex_owned_lease :
  ∃ x, objects ex_owned !! 0 = Some x ∧ lease_key x = ex_key ∧ _store x = None ∧
    _stopped x = false ∧ _released x = false ∧ current ex_owned x.
Proof. eexists. split; [vm_compute; reflexivity|]. vm_compute. split_and!; reflexivity. Qed.

Lemma one_owner_witness : _leases ex_owned !! ex_key = Some 0.
Proof.
  destruct ex_owned_lease as (x & Hx & Hk & _ & _ & _ & Hc). rewrite <- Hk.
  exact (proj2 (one_owner ex_owned ex_owned_history 0 0 x x ex_owned_reachable
                  Hx Hx eq_refl Hc Hc)).
Defined.

(** An owner that lost its partition never gets it back: whatever the log
    does next, its lease object keeps its token and that token stays stale. *)
Theorem stale_owner_stays_stale l H lid x l' :
  reachable l H → objects l !! lid = Some x → ¬ current l x → steps l l' →
  ∃ y, objects l' !! lid = Some y ∧ lease_key y = lease_key x ∧
       lease_owner y = lease_owner x ∧ ¬ current l' y.
Proof.
  intros [_ Hwf]%reachable_wf Hx Hstale Hsteps.
  destruct (steps_later _ _ Hwf Hsteps) as [_ [_ Howner Hlease]].
  destruct (Hlease _ _ Hx) as (y & Hy & Hk & Ho). exists y. split_and!; [done..|].
  unfold current. rewrite Hk, Ho. intros Hc. destruct (Howner _ _ Hc) as [|Hlt]; [done|].
  destruct (wo_gen _ Hwf _ _ Hx). lia.
Qed.

Lemma stale_owner_stays_stale_witness :
  let l := run_ops ex_transfer ex_owned in
  ∃ y, objects (exec OpQuiesce l) !! 0 = Some y ∧ ¬ current (exec OpQuiesce l) y.
Proof.
  intros l.
  assert (∃ x, objects l !! 0 = Some x ∧ ¬ current l x) as (x & Hx & Hst).
  { eexists. split; [vm_compute; reflexivity|]. vm_compute. discriminate. }
  destruct (stale_owner_stays_stale l (run_history ex_transfer ex_owned ex_owned_history) 0 x
              (exec OpQuiesce l)) as (y & Hy & _ & _ & Hc).
  - apply run_reachable; [apply ex_owned_reachable|]. repeat constructor.
  - exact Hx.
  - exact Hst.
  - apply steps_step with OpQuiesce; [exact I|constructor].
  - exists y. split; [exact Hy|exact Hc].
Defined.

(** The cursor the broker keeps for a group and partition never moves
    back and is never lost, whatever sections run in whatever order. *)
Theorem broker_cursor_monotone l l' key :
  steps l l' → cursor_le (_broker_cursors l !! key) (_broker_cursors l' !! key).
Proof. intros Hs. by apply steps_cursors. Qed.

Lemma broker_cursor_monotone_witness :
  cursor_le (_broker_cursors ex_owned !! ex_key)
            (_broker_cursors (run_ops ex_transfer ex_owned) !! ex_key) ∧
  _broker_cursors ex_owned !! ex_key = Some {| kind := INITIALIZED; cursor_offset := 0 |}.
Proof.
  split; [|vm_compute; reflexivity].
  apply (broker_cursor_monotone ex_owned). apply run_steps. repeat constructor.
Defined.
