(* ===== verification/StreamDelivery.v ===== *)
(** * The in-memory log: delivery through leases

    What a lease hands to its client: the next record of the history after the
    group's cursor, only while the lease owns the partition, and the cursor
    moves exactly past the record that was processed. *)

From Stdlib Require Import ZArith Lia.
From stdpp Require Import base tactics list gmap strings.
From S2P Require Import Prelude StreamModels Checkpoints StreamLog StreamLogFacts.
From S2P Require Import StreamHistory StreamOwnership StreamFencing StreamProperties.
Local Open Scope Z_scope.

(** ** Delivery *)

(** What a stale lease cannot change. *)
Definition shared_view (l : log) := (_streams l, _broker_cursors l, _owners l, _leases l).

Section delivery.
Context {S : Type} {ops : CheckpointStore S}.
Implicit Types (w : world S).

Lemma run_on_log {A} (m : L A) w r l' :
  m (w_log w) = (r, l') → on_log m w = (r, MkWorld l' (w_stores w)).
Proof. unfold on_log, zoom. by intros ->. Qed.

Lemma run_bind_on_log {A B} (m : L A) (f : A → M (world S) stream_error B) w :
  (on_log m ≫= f) w =
  match m (w_log w) with
  | (Ok a, l') => f a (MkWorld l' (w_stores w))
  | (Err e, l') => (Err e, MkWorld l' (w_stores w))
  end.
Proof. unfold on_log, zoom, mbind, M_bind. by destruct (m (w_log w)) as [[]]. Qed.

Lemma on_log_ok {A} (m : L A) w a w' :
  on_log m w = (Ok a, w') → ∃ l', m (w_log w) = (Ok a, l') ∧ w' = MkWorld l' (w_stores w).
Proof. unfold on_log, zoom. destruct (m (w_log w)) as [r l']. intros [= -> <-]. eauto. Qed.

Lemma lease_ok lid l x l' : _lease lid l = (Ok x, l') → l' = l ∧ objects l !! lid = Some x.
Proof. unfold _lease. autorewrite with mrun. by case_match; intros [= <- <-]. Qed.

Lemma require_owner_ok l k o u l' :
  _require_owner_locked k o l = (Ok u, l') → l' = l ∧ _owners l !! k = Some o ∧ _closed l = false.
Proof.
  unfold _require_owner_locked. autorewrite with mrun. destruct (_closed l); [done|].
  autorewrite with mrun. case_match; [done|]. intros [= <- <-]. bool_hyps.
  split_and!; [done| |done]. by apply dec_stable.
Qed.

Lemma require_active_ok lid l u l' :
  _require_active lid l = (Ok u, l') →
  l' = l ∧ ∃ x, objects l !! lid = Some x ∧ _released x = false ∧ _stopped x = false.
Proof.
  unfold _require_active. intros (x & l1 & [-> Hx]%lease_ok & Hrun)%M_bind_ok.
  autorewrite with mrun in Hrun. case_match; [done|]. autorewrite with mrun in Hrun.
  case_match; [done|]. injection Hrun as <- <-. eauto.
Qed.

(** A method that calls a store does not touch the log. *)
Lemma store_call_log {A} sid (m : M S stream_error A) w : w_log (on_store sid m w).2 = w_log w.
Proof. unfold on_store. case_match; [|done]. by destruct (m _). Qed.

Lemma keeps_store_call sid (m : M S stream_error store_value) c returns :
  keeps (@w_log S) (validate_checkpoint_store_call (on_store sid m) c returns).
Proof.
  unfold validate_checkpoint_store_call. apply keeps_try.
  - apply keeps_bind; [intros ?; apply store_call_log|intros ?; intros ?; done].
  - intros e. by case_match.
Qed.

Lemma try_reraise_ok {A} (m : M (world S) stream_error A) h w a w' :
  (∀ e w, is_ok (h e w).1 = false) → try_except m h w = (Ok a, w') → m w = (Ok a, w').
Proof.
  unfold try_except. intros Hh. destruct (m w) as [[x|e] w1]; [done|].
  specialize (Hh e w1). destruct (h e w1) as [[]]; [done|]. congruence.
Qed.

Lemma load_cursor_ok lid w c w1 :
  _load_cursor lid w = (Ok c, w1) →
  w_log w1 = w_log w ∧ _closed (w_log w) = false ∧
  ∃ x, objects (w_log w) !! lid = Some x ∧ current (w_log w) x ∧
    (_store x = None → _broker_cursors (w_log w) !! lease_key x = Some c ∧ w1 = w).
Proof.
  unfold _load_cursor.
  intros (x & w0 & (l1 & [-> Hx]%lease_ok & ->)%on_log_ok & Hrun)%M_bind_ok.
  destruct (_store x) as [sid|] eqn:Hst.
  - apply M_bind_ok in Hrun as (c' & w2 & Hload & Hrun).
    apply try_reraise_ok in Hload; [|intros e ?; by case_match].
    apply M_bind_ok in Hload as (oc & w3 & Hcall & Hload).
    pose proof (keeps_store_call sid (load (lease_key x)) None returns_optional_cursor
                  (MkWorld (w_log w) (w_stores w))) as Hk. rewrite Hcall in Hk. simpl in Hk.
    assert (w2 = w3) as -> by (by destruct oc; injection Hload).
    apply M_bind_ok in Hrun as (u & w4 & (l4 & (-> & Ho & Hcl)%require_owner_ok & ->)%on_log_ok & Hrun).
    injection Hrun as <- <-. rewrite Hk in *. simpl. split_and!; [done|done|].
    exists x. split_and!; [done|done|]. congruence.
  - apply on_log_ok in Hrun as (l2 & Hrun & ->). unfold _load_broker_cursor in Hrun.
    apply M_bind_ok in Hrun as (u & l3 & (-> & Ho & Hcl)%require_owner_ok & Hrun). simpl in *.
    autorewrite with mrun in Hrun. case_match; [|done]. injection Hrun as <- <-.
    split_and!; [done|done|]. exists x. split_and!; [done|done|]. intros _. split; [done|].
    by destruct w.
Qed.

Lemma next_locked_ok lid c l v l' :
  _next_locked lid c l = (Ok v, l') →
  ∃ x part, objects l !! lid = Some x ∧ current l x ∧ _closed l = false ∧
    _revocation_requested x = false ∧ _in_flight x = None ∧
    part_at l (key_stream (lease_key x)) (key_partition (lease_key x)) = Some part ∧
    first_offset part <= cursor_offset c ∧
    match list_find (due c) (records part) with
    | Some (_, r) => v = Some r ∧
        l' = set_objects (alter (set_delivery (Some r) false) lid (objects l)) (next_object l) l
    | None => v = None ∧ l' = l
    end.
Proof.
  unfold _next_locked. intros (x & l1 & [-> Hx]%lease_ok & Hrun)%M_bind_ok.
  apply M_bind_ok in Hrun as (u & l2 & (-> & Ho & Hcl)%require_owner_ok & Hrun).
  autorewrite with mrun in Hrun. destruct (_revocation_requested x) eqn:Hrev; [done|].
  autorewrite with mrun in Hrun. case_match; [done|]. bool_hyps. autorewrite with mrun in Hrun.
  destruct (_streams l !! key_stream (lease_key x)) as [st|] eqn:Hst; [|done].
  autorewrite with mrun in Hrun.
  destruct (_partition st _) as [[p part]|] eqn:Hpart; [|done].
  apply partition_of_ok in Hpart as ([= <-] & Hp & Hpart).
  autorewrite with mrun in Hrun.
  destruct (_require_retained _ _ _ _ _) as [u'|] eqn:Hret; [|done].
  unfold _require_retained in Hret. simpl in Hret.
  destruct (Z.ltb_spec (cursor_offset c) (first_offset part));
    [by apply result_bind_ok in Hret as (? & _ & ?)|]. autorewrite with mrun in Hrun.
  exists x, part. split_and!; try done.
  - by destruct (_in_flight x); [exfalso; eauto|].
  - unfold part_at. destruct (Z.ltb_spec (key_partition (lease_key x)) 0); [lia|]. by rewrite Hst.
  - simpl in Hrun. unfold alter_lease in Hrun.
    destruct (list_find (due c) (records part)) as [[i r]|]; autorewrite with mrun in Hrun;
      by injection Hrun as <- <-.
Qed.

Lemma next_record_ok lid w v w' :
  next_record lid w = (Ok v, w') →
  ∃ c, _load_cursor lid w = (Ok c, MkWorld (w_log w) (w_stores w')) ∧
    _next_locked lid c (w_log w) = (Ok v, w_log w').
Proof.
  unfold next_record.
  intros (u & w0 & (l1 & [-> _]%require_active_ok & ->)%on_log_ok & Hrun)%M_bind_ok.
  unfold _next in Hrun. apply M_bind_ok in Hrun as (c & w1 & Hload & Hrun).
  destruct (load_cursor_ok _ _ _ _ Hload) as [Hlog _]. simpl in Hlog.
  apply on_log_ok in Hrun as (l' & Hrun & ->). simpl. exists c.
  rewrite <- Hlog at 2. rewrite <- Hlog. split; [|done]. rewrite Hlog. destruct w, w1. simpl in *. congruence.
Qed.

(** A checkpoint of a broker-managed lease. *)
Lemma checkpoint_ok lid r w w' :
  checkpoint lid r w = (Ok tt, w') →
  ∃ x, objects (w_log w) !! lid = Some x ∧ current (w_log w) x ∧ _in_flight x = Some r ∧
    (_store x = None →
     ∃ e c, _broker_cursors (w_log w) !! lease_key x = Some e ∧
       last_successful (sr_offset r) = Ok c ∧ advances e c ∧
       w_log w' = set_objects (alter (set_delivery None true) lid (objects (w_log w)))
         (next_object (w_log w))
         (set_broker_cursors (<[lease_key x := c]> (_broker_cursors (w_log w))) (w_log w))).
Proof.
  unfold checkpoint.
  intros (u & w0 & (l1 & [-> _]%require_active_ok & ->)%on_log_ok & Hrun)%M_bind_ok.
  apply M_bind_ok in Hrun as (x & w1 & (l2 & [-> Hx]%lease_ok & ->)%on_log_ok & Hrun).
  apply M_bind_ok in Hrun as (u1 & w2 & (l3 & (-> & Ho & Hcl)%require_owner_ok & ->)%on_log_ok & Hrun).
  apply M_bind_ok in Hrun as (x' & w3 & (l4 & [-> Hx']%lease_ok & ->)%on_log_ok & Hrun).
  simpl in *. rewrite Hx in Hx'. injection Hx' as <-.
  autorewrite with mrun in Hrun. case_match; [done|]. bool_hyps.
  exists x. split_and!; [done|done|by apply dec_stable|]. intros Hst.
  unfold _checkpoint in Hrun. apply M_bind_ok in Hrun as (e & w4 & Hload & Hrun).
  destruct (load_cursor_ok _ _ _ _ Hload) as (_ & _ & x2 & Hx2 & _ & Hbr). simpl in *.
  rewrite Hx in Hx2. injection Hx2 as <-. destruct (Hbr Hst) as [He ->].
  autorewrite with mrun in Hrun. destruct (last_successful (sr_offset r)) as [c|] eqn:Hc; [|done].
  apply M_bind_ok in Hrun as (x2 & w5 & (l5 & [-> Hx2]%lease_ok & ->)%on_log_ok & Hrun).
  simpl in *. rewrite Hx in Hx2. injection Hx2 as <-. rewrite Hst in Hrun.
  apply on_log_ok in Hrun as (l6 & Hrun & ->). simpl in *. unfold _checkpoint_broker in Hrun.
  apply M_bind_ok in Hrun as (x2 & l7 & [-> Hx2]%lease_ok & Hrun).
  rewrite Hx in Hx2. injection Hx2 as <-.
  apply M_bind_ok in Hrun as (u2 & l8 & (-> & _)%require_owner_ok & Hrun).
  autorewrite with mrun in Hrun. case_match; [done|]. autorewrite with mrun in Hrun.
  destruct (_validate_advance e c) as [u3|] eqn:Hadv; [|done]. autorewrite with mrun in Hrun.
  simpl in Hrun. injection Hrun as <-. exists e, c. split_and!; [done|done| |done].
  unfold _validate_advance in Hadv.
  apply result_bind_ok in Hadv as ([] & Ha%raise_if_ok & Hb%raise_if_ok).
  unfold advances. destruct e as [[] o]; simpl in *; lia.
Qed.

(** A broker-managed checkpoint is a step of the log, and a failing one is none. *)
Lemma checkpoint_reach lid x r w w' H :
  reachable (w_log w) H → objects (w_log w) !! lid = Some x → _store x = None →
  checkpoint lid r w = (Ok tt, w') → ∃ H', reachable (w_log w') H'.
Proof.
  intros Hreach Hx Hst Hrun. destruct (checkpoint_ok _ _ _ _ Hrun) as (y & Hy & Hc & Hif & Hbr).
  rewrite Hx in Hy. injection Hy as <-. destruct (Hbr Hst) as (e & c & He & Hlast & Hadv & El).
  unfold checkpoint in Hrun.
  apply M_bind_ok in Hrun as (u & w0 & (l1 & [-> _]%require_active_ok & ->)%on_log_ok & Hrun).
  apply M_bind_ok in Hrun as (x1 & w1 & (l2 & [-> _]%lease_ok & ->)%on_log_ok & Hrun).
  apply M_bind_ok in Hrun as (u1 & w2 & (l3 & (-> & _ & Hcl)%require_owner_ok & ->)%on_log_ok & Hrun).
  simpl in *.
  eexists. replace (w_log w') with (exec (OpCheckpoint lid e c) (w_log w));
    [by apply (reachable_step _ H)|].
  rewrite El. simpl. unfold _checkpoint_broker, _lease, _require_owner_locked.
  autorewrite with mrun. rewrite Hx. autorewrite with mrun. rewrite Hcl. autorewrite with mrun.
  rewrite bool_decide_eq_false_2 by (unfold current in Hc; congruence). autorewrite with mrun.
  rewrite bool_decide_eq_false_2 by congruence. autorewrite with mrun.
  assert (_validate_advance e c = Ok tt) as ->; [|done].
  unfold _validate_advance, advances in *. destruct e as [[] o]; simpl in *;
    rewrite ?(proj2 (Z.ltb_ge _ _)), ?(proj2 (Z.leb_gt _ _)) by lia; done.
Qed.

Lemma keeps_on_log_id {A} (m : L A) w r w' :
  keeps id m → on_log m w = (r, w') → w' = w.
Proof.
  intros Hk. unfold on_log, zoom. specialize (Hk (w_log w)). destruct (m (w_log w)) as [r' l'].
  simpl in Hk. unfold id in Hk. subst l'. intros [= _ <-]. by destruct w.
Qed.

Lemma keeps_id_lease lid : keeps id (_lease lid).
Proof. unfold _lease. solve_keeps. Qed.
Lemma keeps_id_owner k o : keeps id (_require_owner_locked k o).
Proof. unfold _require_owner_locked. solve_keeps. Qed.
Lemma keeps_id_active lid : keeps id (_require_active lid).
Proof. pose proof keeps_id_lease. unfold _require_active. solve_keeps. Qed.

Lemma checkpoint_broker_err lid c0 c l e l' : _checkpoint_broker lid c0 c l = (Err e, l') → l' = l.
Proof.
  unfold _checkpoint_broker, _complete_delivery_locked, alter_lease. intros Hrun.
  apply M_bind_err in Hrun as [Hrun|(x & l1 & [-> Hx]%lease_ok & Hrun)].
  { pose proof (keeps_id_lease lid l) as Hk. by rewrite Hrun in Hk. }
  apply M_bind_err in Hrun as [Hrun|(u & l2 & (-> & _)%require_owner_ok & Hrun)].
  { pose proof (keeps_id_owner (lease_key x) (lease_owner x) l) as Hk. by rewrite Hrun in Hk. }
  autorewrite with mrun in Hrun. case_match; [by injection Hrun|]. autorewrite with mrun in Hrun.
  destruct (_validate_advance c0 c); [|by injection Hrun]. by autorewrite with mrun in Hrun.
Qed.

Lemma checkpoint_err lid r x w e w' :
  objects (w_log w) !! lid = Some x → _store x = None →
  checkpoint lid r w = (Err e, w') → w' = w.
Proof.
  intros Hx Hst Hrun. unfold checkpoint in Hrun.
  apply M_bind_err in Hrun as [Hrun|(u & w0 & Hok & Hrun)];
    [by eapply keeps_on_log_id, Hrun; apply keeps_id_active|].
  apply keeps_on_log_id in Hok as ->; [|apply keeps_id_active].
  apply M_bind_err in Hrun as [Hrun|(x1 & w1 & Hok & Hrun)];
    [by eapply keeps_on_log_id, Hrun; apply keeps_id_lease|].
  apply keeps_on_log_id in Hok as ->; [|apply keeps_id_lease].
  apply M_bind_err in Hrun as [Hrun|(u2 & w2 & Hok & Hrun)];
    [by eapply keeps_on_log_id, Hrun; apply keeps_id_owner|].
  apply keeps_on_log_id in Hok as ->; [|apply keeps_id_owner].
  apply M_bind_err in Hrun as [Hrun|(x3 & w3 & Hok & Hrun)];
    [by eapply keeps_on_log_id, Hrun; apply keeps_id_lease|].
  apply keeps_on_log_id in Hok as ->; [|apply keeps_id_lease].
  autorewrite with mrun in Hrun. case_match; [by injection Hrun|].
  unfold _checkpoint, _load_cursor in Hrun.
  apply M_bind_err in Hrun as [Hrun|(c0 & w4 & Hok & Hrun)].
  - apply M_bind_err in Hrun as [Hrun|(y & w5 & (l5 & [-> Hy]%lease_ok & ->)%on_log_ok & Hrun)];
      [by eapply keeps_on_log_id, Hrun; apply keeps_id_lease|].
    rewrite Hx in Hy. injection Hy as <-. rewrite Hst in Hrun. destruct w.
    eapply keeps_on_log_id, Hrun. unfold _load_broker_cursor, _require_owner_locked. solve_keeps.
  - destruct (load_cursor_ok _ _ _ _ Hok) as (_ & _ & y & Hy & _ & Hbr).
    rewrite Hx in Hy. injection Hy as <-. destruct (Hbr Hst) as [_ ->].
    autorewrite with mrun in Hrun.
    destruct (last_successful _) as [c|]; [|by injection Hrun].
    apply M_bind_err in Hrun as [Hrun|(y & w5 & (l5 & [-> Hy]%lease_ok & ->)%on_log_ok & Hrun)];
      [by eapply keeps_on_log_id, Hrun; apply keeps_id_lease|].
    rewrite Hx in Hy. injection Hy as <-. rewrite Hst in Hrun. destruct w as [l st]. simpl in *.
    unfold on_log, zoom in Hrun. simpl in Hrun.
    destruct (_checkpoint_broker lid c0 c l) as [r' l'] eqn:Hb. injection Hrun as -> <-.
    by apply checkpoint_broker_err in Hb as ->.
Qed.

Lemma keeps_on_log {T A} (view : log → T) (m : L A) :
  keeps view m → keeps (λ w, view (w_log w)) (on_log m).
Proof.
  intros Hk w. unfold on_log, zoom. specialize (Hk (w_log w)). by destruct (m (w_log w)).
Qed.

Lemma keeps_next_record lid : keeps (λ w, shared_view (w_log w)) (next_record lid).
Proof.
  assert (∀ sid m c returns, keeps (λ w, shared_view (w_log w))
            (validate_checkpoint_store_call (on_store sid m) c returns)) as Hcall.
  { intros sid m c returns w. by rewrite (keeps_store_call sid m c returns w). }
  unfold next_record, _next, _load_cursor.
  repeat first [ apply Hcall | apply keeps_bind; [|intros ?] | apply keeps_try; [|intros ?]
               | apply keeps_on_log | case_match ];
    unfold _require_active, _lease, _require_owner_locked, _require_open, _load_broker_cursor,
      _next_locked, _stop, _stream, alter_lease; solve_keeps.
Qed.

(** C4: Fencing: a lease that does not own its partition gets no record and
    cannot checkpoint. Its calls fail; a checkpoint changes nothing at all, in
    the log or in a checkpoint store, and asking for a record leaves the
    streams, the broker's cursors and the ownership tables as they were. *)
Theorem stale_lease_fenced lid x r w :
  objects (w_log w) !! lid = Some x → ¬ current (w_log w) x →
  (∃ e, checkpoint lid r w = (Err e, w)) ∧
  ∃ e w', next_record lid w = (Err e, w') ∧ shared_view (w_log w') = shared_view (w_log w).
Proof.
  intros Hx Hstale. split.
  - destruct (checkpoint lid r w) as [[u|e] w'] eqn:Hrun.
    { destruct u, (checkpoint_ok _ _ _ _ Hrun) as (y & Hy & Hc & _).
      rewrite Hx in Hy. injection Hy as <-. done. }
    exists e. f_equal. unfold checkpoint in Hrun. rewrite run_bind_on_log in Hrun.
    unfold _require_active, _lease in Hrun. autorewrite with mrun in Hrun. rewrite Hx in Hrun.
    autorewrite with mrun in Hrun. destruct w as [l st]. simpl in *.
    destruct (_released x); [congruence|]. autorewrite with mrun in Hrun.
    destruct (_stopped x); [congruence|]. simpl in Hrun. rewrite run_bind_on_log in Hrun.
    simpl in Hrun. autorewrite with mrun in Hrun. rewrite Hx in Hrun. simpl in Hrun.
    rewrite run_bind_on_log in Hrun. simpl in Hrun. unfold _require_owner_locked in Hrun.
    autorewrite with mrun in Hrun. destruct (_closed l); [congruence|].
    autorewrite with mrun in Hrun. rewrite bool_decide_eq_true_2 in Hrun by done. congruence.
  - destruct (next_record lid w) as [v w'] eqn:Hrun. pose proof (keeps_next_record lid w) as Hk.
    rewrite Hrun in Hk. destruct v as [v|e]; [exfalso|by exists e, w'].
    destruct (next_record_ok _ _ _ _ Hrun) as (c & Hload & _).
    destruct (load_cursor_ok _ _ _ _ Hload) as (_ & _ & y & Hy & Hc & _).
    rewrite Hx in Hy. injection Hy as <-. done.
Qed.

(** In-order, gap-free delivery. A record handed to a broker-managed lease
    is the earliest record of the partition's whole history that the group's
    cursor has not passed; the lease owns the partition and had nothing in
    flight, and the record is now in flight. *)
Theorem next_record_in_order lid w H v w' x :
  reachable (w_log w) H → objects (w_log w) !! lid = Some x → _store x = None →
  next_record lid w = (Ok v, w') →
  let h := H (key_stream (lease_key x)) (key_partition (lease_key x)) in
  current (w_log w) x ∧ _in_flight x = None ∧
  ∃ c, _broker_cursors (w_log w) !! lease_key x = Some c ∧
  match v with
  | Some r => r ∈ h ∧ position c <= sr_offset r ∧
      (∀ r', r' ∈ h → position c <= sr_offset r' → sr_offset r <= sr_offset r') ∧
      ∃ y, objects (w_log w') !! lid = Some y ∧ _in_flight y = Some r
  | None => ∀ r, r ∈ h → sr_offset r < position c
  end.
Proof.
  intros Hreach Hx Hst Hrun h. destruct (reachable_wf _ _ Hreach) as [Hs _].
  destruct (next_record_ok _ _ _ _ Hrun) as (c & Hload & Hnext).
  destruct (load_cursor_ok _ _ _ _ Hload) as (_ & _ & y & Hy & Hc & Hbr).
  rewrite Hx in Hy. injection Hy as <-. destruct (Hbr Hst) as [Hcur _].
  destruct (next_locked_ok _ _ _ _ _ Hnext)
    as (y & part & Hy & _ & _ & _ & Hif & Hat & Hret & Hfind).
  rewrite Hx in Hy. injection Hy as <-.
  pose proof (part_at_some _ _ _ _ _ Hs Hat) as Hph. fold h in Hph.
  split_and!; [done|done|]. exists c. split; [done|].
  assert (∀ r, r ∈ h → position c <= sr_offset r → r ∈ records part ∧ due c r) as Hdue.
  { intros r Hr Hp. rewrite (records_elem _ _ Hph), due_position.
    pose proof (position_offset c). split_and!; done || lia. }
  destruct (list_find (due c) (records part)) as [[i r]|] eqn:E; destruct Hfind as [-> Hl].
  - apply (next_due_least _ _ Hph) in E as (Hr & Hd & Hle).
    apply (records_elem _ _ Hph) in Hr as [Hr Hge]. split_and!; [done| | |].
    + by apply due_position.
    + intros r' Hr' Hp. destruct (Hdue r' Hr' Hp). by apply Hle.
    + rewrite Hl. simpl. rewrite lookup_alter_eq, Hx. simpl. eauto.
  - apply list_find_None in E. rewrite Forall_forall in E. intros r Hr.
    destruct (Z.lt_ge_cases (sr_offset r) (position c)) as [|Hge]; [done|].
    destruct (Hdue r Hr Hge) as [Hin Hd]. by destruct (E r Hin).
Qed.

(** A successful checkpoint through a broker-managed lease was of the
    record in flight, by the owner, and moves the group's cursor exactly past
    that record; nothing else about the cursors changes and the lease is free
    for the next record. *)
Theorem checkpoint_moves_past lid r w w' x H :
  reachable (w_log w) H → objects (w_log w) !! lid = Some x → _store x = None →
  checkpoint lid r w = (Ok tt, w') →
  current (w_log w) x ∧ _in_flight x = Some r ∧
  (∃ e c, _broker_cursors (w_log w) !! lease_key x = Some e ∧ advances e c ∧
     position c = sr_offset r + 1 ∧
     _broker_cursors (w_log w') = <[lease_key x := c]> (_broker_cursors (w_log w))) ∧
  (∃ y, objects (w_log w') !! lid = Some y ∧ _in_flight y = None ∧ _stopped y = _stopped x) ∧
  _streams (w_log w') = _streams (w_log w) ∧ _owners (w_log w') = _owners (w_log w).
Proof.
  intros Hreach Hx Hst Hrun. destruct (checkpoint_ok _ _ _ _ Hrun) as (y & Hy & Hc & Hif & Hbr).
  rewrite Hx in Hy. injection Hy as <-. destruct (Hbr Hst) as (e & c & He & Hlast & Hadv & ->).
  assert (c = {| kind := LAST_SUCCESSFUL; cursor_offset := sr_offset r |}) as ->.
  { unfold last_successful, ResumeCursor_new in Hlast.
    apply result_bind_ok in Hlast as (o & [? _]%offset_ok & Hlast). by simplify_eq. }
  simpl. rewrite lookup_alter_eq, Hx. simpl. split_and!; [done|done| | |done|done].
  - eexists _, _. split_and!; done.
  - by eexists.
Qed.

End delivery.

(** ** Concrete deliveries *)

Definition ex_next : world InMemoryCheckpointStore := (next_record 0 (ex_world ex_owned)).2.

(** The lease of [ex_owned] after its first delivery. *)
Lemma ex_next_lease :
  ∃ x r, objects (w_log ex_next) !! 0 = Some x ∧ _store x = None ∧ _in_flight x = Some r ∧
    sr_record_id r = 1 ∧ current (w_log ex_next) x ∧
    (checkpoint 0 r ex_next).1 = Ok tt.
Proof.
  do 2 eexists. split; [vm_compute; reflexivity|]. split; [reflexivity|].
  split; [reflexivity|]. vm_compute. split_and!; reflexivity.
Qed.

Lemma stale_lease_fenced_witness :
  let w := ex_world (run_ops ex_transfer ex_owned) in
  let r := record_of (ex_request 1 None None) ex_name 1 _PartitionState_new (Datetime 10 (Some 0)) in
  (∃ e, checkpoint 0 r w = (Err e, w)) ∧ ∃ e w', next_record 0 w = (Err e, w').
Proof.
  intros w r.
  assert (∃ x, objects (w_log w) !! 0 = Some x ∧ ¬ current (w_log w) x) as (x & Hx & Hst).
  { eexists. split; [vm_compute; reflexivity|]. vm_compute. discriminate. }
  destruct (stale_lease_fenced 0 x r w Hx Hst) as [Hc (e & w' & Hn & _)].
  split; [exact Hc|]. exists e, w'. exact Hn.
Defined.

Lemma next_record_in_order_witness :
  ∃ r, (next_record 0 (ex_world ex_owned)).1 = Ok (Some r) ∧ r ∈ ex_owned_history ex_name 1 ∧
    ∀ r', r' ∈ ex_owned_history ex_name 1 → sr_offset r <= sr_offset r'.
Proof.
  destruct ex_owned_lease as (x & Hx & Hk & Hst & _).
  assert (∃ r, (next_record 0 (ex_world ex_owned)).1 = Ok (Some r)) as [r Hr].
  { eexists. vm_compute. reflexivity. }
  exists r. split; [exact Hr|]. apply result_of in Hr.
  destruct (next_record_in_order 0 (ex_world ex_owned) ex_owned_history (Some r) _ x
              ex_owned_reachable Hx Hst Hr) as (_ & _ & c & Hc & Hin & _ & Hmin & _).
  rewrite Hk in *. split; [exact Hin|]. intros r' Hr'. apply Hmin; [exact Hr'|].
  assert (_broker_cursors ex_owned !! ex_key = Some {| kind := INITIALIZED; cursor_offset := 0 |})
    as Hc' by (vm_compute; reflexivity).
  change (w_log (ex_world ex_owned)) with ex_owned in Hc. rewrite Hc' in Hc.
  injection Hc as <-. change (0 <= sr_offset r').
  apply (history_nonneg ex_owned ex_owned_history ex_name 1 r');
    [apply (reachable_wf _ _ ex_owned_reachable)|exact Hr'].
Defined.

Lemma ex_next_reachable :
  ∃ H, reachable (w_log ex_next) H.
Proof.
  eexists. replace (w_log ex_next) with
    (exec (OpNext 0 {| kind := INITIALIZED; cursor_offset := 0 |}) ex_owned)
    by (vm_compute; reflexivity).
  apply (reachable_step ex_owned ex_owned_history); [apply ex_owned_reachable|done|reflexivity].
Qed.

Lemma checkpoint_moves_past_witness :
  ∃ r c, _broker_cursors (w_log (checkpoint 0 r ex_next).2) !! ex_key = Some c ∧
    position c = sr_offset r + 1 ∧ sr_record_id r = 1.
Proof.
  destruct ex_next_lease as (x & r & Hx & Hst & Hif & Hid & Hc & Hrun).
  destruct ex_next_reachable as [H Hreach].
  destruct (checkpoint_moves_past 0 r ex_next _ x H Hreach Hx Hst (result_of _ _ _ Hrun))
    as (_ & _ & (e & c & He & _ & Hp & Hcur) & _).
  exists r, c. split; [|split; [exact Hp|exact Hid]]. rewrite Hcur.
  assert (lease_key x = ex_key) as -> by (revert Hx; vm_compute; by intros [= <-]).
  apply lookup_insert_eq.
Defined.

(** ** A transfer that overlaps the next owner *)

(** Owner [a] holds a record while [b] waits for the partition; [a] releases
    it, and [c] acquires it and takes the record before [b] resumes. *)
Definition overlap_ctx : acquire_ctx :=
  {| ac_subscription := ex_sub "b"; ac_scope := (ex_name, str "g");
     ac_binding := {| mode := str "broker_managed"; binding_identity := None; binding_store := None |};
     ac_store := None; ac_key := ex_key; ac_current_lease := Some 0;
     ac_transfer_marker := Some 1; ac_wait := Some 0 |}.
Definition overlap_waiting := (acquire (ex_sub "b") (PyInt 1) BROKER_MANAGED true PyNone ex_next).2.
Definition overlap_released := (on_log (release 0) overlap_waiting).2.
Definition overlap_taken :=
  (next_record 2 (acquire (ex_sub "c") (PyInt 1) BROKER_MANAGED false PyNone overlap_released).2).2.
Definition overlap_resumed := (acquire_resume overlap_ctx PyNone overlap_taken).2.

(** The wait of a transfer is for the owner it saw, not for the one it
    replaces. If the old owner releases the partition and a third client
    acquires it and takes a record before the transfer resumes, the transfer
    replaces that client with its record still in flight, and is given the same
    record: two live handlers of one partition hold it. *)
Theorem transfer_can_overlap :
  (acquire (ex_sub "b") (PyInt 1) BROKER_MANAGED true PyNone ex_next).1 = Ok (Waiting overlap_ctx) ∧
  (on_log (release 0) overlap_waiting).1 = Ok tt ∧
  (acquire (ex_sub "c") (PyInt 1) BROKER_MANAGED false PyNone overlap_released).1 = Ok (Acquired 2) ∧
  (acquire_resume overlap_ctx PyNone overlap_taken).1 = Ok 3 ∧
  ∃ x r, objects (w_log overlap_resumed) !! 2 = Some x ∧ _in_flight x = Some r ∧
    _stopped x = false ∧ _released x = false ∧ _revocation_requested x = false ∧
    (next_record 3 overlap_resumed).1 = Ok (Some r).
Proof.
  split; [vm_compute; reflexivity|]. split; [vm_compute; reflexivity|].
  split; [vm_compute; reflexivity|]. split; [vm_compute; reflexivity|].
  do 2 eexists. split; [vm_compute; reflexivity|]. vm_compute. split_and!; reflexivity.
Qed.
