(* ===== verification/Consumers.v ===== *)
(** * The consumer runner

    [consumers.py] of [tori_py_persistent_streams_core]. [ConsumerRunner] is
    written against the [PartitionLease] protocol, a type class here, with the
    laws its theorems use; the leases of the in-memory log with broker-managed
    cursors discharge them. *)

From Stdlib Require Import ZArith Lia.
From stdpp Require Import base tactics list gmap strings.
From S2P Require Import Prelude StreamModels Checkpoints StreamLog StreamLogFacts.
From S2P Require Import StreamHistory StreamOwnership StreamFencing StreamProperties.
From S2P Require Import StreamDelivery.
Local Open Scope Z_scope.

(** ** The protocol (protocols.py) *)

(** A lease as its client sees it, on a state [W] that holds it. *)
Class PartitionLease (W : Type) := {
  pl_key : CheckpointKey;
  pl_next_record : M W stream_error (option StoredRecord);
  pl_checkpoint : StoredRecord → M W stream_error unit;
  pl_stop : M W stream_error unit;
  pl_release : M W stream_error unit
}.

(** What a lease promises: [pl_pending] is what is left to deliver, in order.
    Asking for a record shows its head, a checkpoint removes it, and a call
    that fails, stopping and releasing leave it alone. *)
Class PartitionLeaseLaws (W : Type) `{PartitionLease W} := {
  pl_inv : W → Prop;
  pl_pending : W → list StoredRecord;
  pl_next_some w r w' : pl_inv w → pl_next_record w = (Ok (Some r), w') →
    pl_inv w' ∧ head (pl_pending w) = Some r ∧ pl_pending w' = pl_pending w;
  pl_next_none w w' : pl_inv w → pl_next_record w = (Ok None, w') →
    pl_inv w' ∧ pl_pending w = [] ∧ pl_pending w' = [];
  pl_next_err w e w' : pl_inv w → pl_next_record w = (Err e, w') → pl_pending w' = pl_pending w;
  pl_checkpoint_ok w r w' : pl_inv w → pl_checkpoint r w = (Ok tt, w') →
    head (pl_pending w) = Some r → pl_inv w' ∧ pl_pending w' = tail (pl_pending w);
  pl_checkpoint_err w r e w' : pl_inv w → pl_checkpoint r w = (Err e, w') →
    pl_inv w' ∧ pl_pending w' = pl_pending w;
  pl_stop_law w : pl_pending (pl_stop w).2 = pl_pending w;
  pl_release_law w : pl_pending (pl_release w).2 = pl_pending w
}.

(** ** ConsumerRunner *)

Section runner.
Context {W : Type} `{PartitionLease W}.

(** [try: await call() except BaseException: pass] *)
Definition ignoring_errors (m : M W stream_error unit) : M W stream_error unit :=
  try_except m (λ _, mret tt).

Definition _stop_ignoring_errors : M W stream_error unit := ignoring_errors pl_stop.
Definition _release_preserving_cancellation : M W stream_error unit := ignoring_errors pl_release.

Definition poison (record : StoredRecord) (error : stream_error) : stream_error :=
  PoisonRecordError (key_stream pl_key) (key_group pl_key) (key_partition pl_key)
    (sr_offset record) (sr_record_id record) error.

(** One turn of the loop on a record. *)
Definition process (handler : StoredRecord → M W stream_error unit) (record : StoredRecord)
    : M W stream_error unit :=
  try_except (handler record)
    (λ error, if is_exception error
              then _stop_ignoring_errors;; raise (poison record error)
              else raise error);;
  try_except (pl_checkpoint record)
    (λ error, if is_exception error
              then _stop_ignoring_errors;;
                   match error with
                   | CheckpointPersistenceError _ _ | OwnershipError => raise error
                   | _ => cursor ← lift (last_successful (sr_offset record));
                          raise (CheckpointPersistenceError (Some cursor) error)
                   end
              else raise error).

(** [while processed < limit]: [remaining] is [limit - processed]. *)
Fixpoint run_loop (handler : StoredRecord → M W stream_error unit) (remaining : nat)
    (processed : Z) : M W stream_error Z :=
  match remaining with
  | O => mret processed
  | S remaining =>
      record ← pl_next_record;
      match record with
      | None => mret processed
      | Some record => process handler record;; run_loop handler remaining (processed + 1)
      end
  end.

Definition run_once (handler : StoredRecord → M W stream_error unit) (limit : pyobj)
    : M W stream_error Z :=
  limit ← lift match limit with
               | PyInt n => if n <=? 0 then Err ValueError else Ok n
               | _ => Err ValueError
               end;
  try_except (run_loop handler (Z.to_nat limit) 0)
    (λ e, match e with
          | CancelledError => _release_preserving_cancellation;; raise e
          | KeyboardInterrupt => ignoring_errors pl_release;; raise e
          | _ => raise e
          end).

End runner.

(** ** What a run does to the partition *)

(** A call of the handler: the record it was given and what the call led to. *)
Definition handling : Type := StoredRecord * result stream_error unit.

(** The calls of a handler that returned for each of [rs]. *)
Definition handled (rs : list StoredRecord) : list handling := (λ r, (r, Ok tt)) <$> rs.

Section runs.
Context {W : Type} `{PartitionLeaseLaws W}.
Context (handler : StoredRecord → M W stream_error unit).
(** The calls of the handler so far, in order. *)
Context (calls : W → list handling).
(** Each call is recorded with its outcome, and the lease's calls are not the
    handler's. *)
Hypothesis handler_calls : ∀ r w, calls (handler r w).2 = calls w ++ [(r, (handler r w).1)].
Hypothesis next_calls : keeps calls pl_next_record.
Hypothesis checkpoint_calls : ∀ r, keeps calls (pl_checkpoint r).
Hypothesis stop_calls : keeps calls pl_stop.
Hypothesis release_calls : keeps calls pl_release.
(** While it runs, nothing else changes what the lease has to deliver. *)
Hypothesis handler_lease : ∀ r w, pl_inv w →
  pl_inv (handler r w).2 ∧ pl_pending (handler r w).2 = pl_pending w.

Lemma ignoring_run (m : M W stream_error unit) w : ignoring_errors m w = (Ok tt, (m w).2).
Proof. unfold ignoring_errors, try_except. by destruct (m w) as [[[]|e] w']. Qed.

Lemma run_bind_ignoring {B} (m : M W stream_error unit) (f : unit → M W stream_error B) w :
  (ignoring_errors m ≫= f) w = f tt (m w).2.
Proof. apply M_bind_run, ignoring_run. Qed.

(** The exception a run ends with when the handler raised [cause] on [r]. *)
Definition handler_failure (r : StoredRecord) (cause e : stream_error) : Prop :=
  if is_exception cause then e = poison r cause else e = cause.

(** The exceptions a run ends with when the checkpoint of [r] failed. *)
Definition checkpoint_failure (r : StoredRecord) (e : stream_error) : Prop :=
  is_exception e = false ∨ e = OwnershipError ∨ (∃ c cause, e = CheckpointPersistenceError c cause) ∨
  last_successful (sr_offset r) = Err e.

(** What a turn that fails on [r] leaves: the record is still to be delivered,
    and its handler raised, or returned and the checkpoint failed. *)
Definition failed_on (r : StoredRecord) (e : stream_error) (before : list handling)
    (after : list handling) : Prop :=
  (∃ cause, after = before ++ [(r, Err cause)] ∧ handler_failure r cause e) ∨
  (after = before ++ [(r, Ok tt)] ∧ checkpoint_failure r e).

Lemma checkpoint_turn_err record w e w' :
  pl_inv w →
  try_except (pl_checkpoint record)
    (λ error, if is_exception error
              then _stop_ignoring_errors;;
                   match error with
                   | CheckpointPersistenceError _ _ | OwnershipError => raise error
                   | _ => cursor ← lift (last_successful (sr_offset record));
                          raise (CheckpointPersistenceError (Some cursor) error)
                   end
              else raise error) w = (Err e, w') →
  pl_pending w' = pl_pending w ∧ calls w' = calls w ∧ checkpoint_failure record e.
Proof.
  unfold try_except, _stop_ignoring_errors. intros Hi Hrun.
  destruct (pl_checkpoint record w) as [[u|e2] w2] eqn:Hc; [done|].
  destruct (pl_checkpoint_err _ _ _ _ Hi Hc) as [Hi' Hp'].
  pose proof (checkpoint_calls record w) as Hs. rewrite Hc in Hs. simpl in Hs.
  destruct (is_exception e2) eqn:He2.
  - rewrite run_bind_ignoring in Hrun.
    assert (w' = (pl_stop w2).2 ∧ checkpoint_failure record e) as [-> Hf].
    { unfold checkpoint_failure.
      destruct e2; autorewrite with mrun in Hrun; try case_match; injection Hrun as <- <-; split; eauto 7. }
    by rewrite pl_stop_law, stop_calls, Hp', Hs.
  - injection Hrun as <- <-. split_and!; [done|done|by left].
Qed.

(** What a failing handler or checkpoint leads to. *)
Lemma process_err record w e w' :
  pl_inv w → process handler record w = (Err e, w') →
  pl_pending w' = pl_pending w ∧ failed_on record e (calls w) (calls w').
Proof.
  intros Hinv Hrun. unfold process in Hrun.
  pose proof (handler_calls record w) as Hs. destruct (handler_lease record w Hinv) as [Hi Hp].
  apply M_bind_err in Hrun as [Hrun|(u & w1 & Hh & Hrun)].
  - unfold try_except, _stop_ignoring_errors in Hrun.
    destruct (handler record w) as [[u|e'] w1] eqn:Hh; [done|]. simpl in *.
    destruct (is_exception e') eqn:He; [rewrite run_bind_ignoring in Hrun|]; injection Hrun as <- <-.
    + rewrite pl_stop_law, stop_calls. split; [done|]. left. exists e'.
      split; [done|]. unfold handler_failure. by rewrite He.
    + split; [done|]. left. exists e'. split; [done|]. unfold handler_failure. by rewrite He.
  - unfold try_except at 1, _stop_ignoring_errors in Hh. destruct (handler record w) as [[u'|e'] w2] eqn:Hh2.
    + injection Hh as _ ->. simpl in *. destruct u'.
      apply checkpoint_turn_err in Hrun as (-> & Hc & Hf); [|done].
      split; [done|]. right. by rewrite Hc.
    + case_match; [rewrite run_bind_ignoring in Hh|]; done.
Qed.

Lemma process_ok record w w' :
  pl_inv w → head (pl_pending w) = Some record → process handler record w = (Ok tt, w') →
  pl_inv w' ∧ pl_pending w' = tail (pl_pending w) ∧ calls w' = calls w ++ handled [record].
Proof.
  intros Hinv Hhead Hrun. unfold process, _stop_ignoring_errors in Hrun.
  pose proof (handler_calls record w) as Hs. destruct (handler_lease record w Hinv) as [Hi Hp].
  apply M_bind_ok in Hrun as (u & w1 & Hh & Hrun). unfold try_except in Hh, Hrun.
  destruct (handler record w) as [[[]|e'] w2] eqn:Hh2;
    [|destruct (is_exception e'); [rewrite run_bind_ignoring in Hh|]; done].
  injection Hh as _ ->. simpl in *.
  destruct (pl_checkpoint record w1) as [[[]|e2] w3] eqn:Hc.
  - injection Hrun as ->. destruct (pl_checkpoint_ok _ _ _ Hi Hc) as [Hi' Hp'].
    { by rewrite Hp. }
    pose proof (checkpoint_calls record w1) as Hs'. rewrite Hc in Hs'. simpl in Hs'.
    split_and!; [done|by rewrite Hp', Hp|by rewrite Hs'].
  - case_match; [rewrite run_bind_ignoring in Hrun|done].
    case_match; autorewrite with mrun in Hrun; try case_match; done.
Qed.

Lemma head_tail {A} (l : list A) x : head l = Some x → l = x :: tail l.
Proof. destruct l; simpl; congruence. Qed.

(** The loop: every record it counted was handled once, in order, and is no
    longer pending; it stops early only when nothing is pending. *)
Lemma run_loop_ok n w k0 k w' :
  pl_inv w → run_loop handler n k0 w = (Ok k, w') →
  k0 <= k <= k0 + Z.of_nat n ∧ pl_inv w' ∧
  calls w' = calls w ++ handled (take (Z.to_nat (k - k0)) (pl_pending w)) ∧
  pl_pending w' = drop (Z.to_nat (k - k0)) (pl_pending w) ∧
  (k < k0 + Z.of_nat n → pl_pending w' = []).
Proof.
  revert w k0. induction n as [|n IH]; intros w k0 Hinv Hrun; simpl in Hrun.
  { injection Hrun as -> ->. rewrite Z.sub_diag, take_0, drop_0. simpl. rewrite app_nil_r.
    split_and!; try done; lia. }
  apply M_bind_ok in Hrun as ([r|] & w1 & Hn & Hrun).
  - destruct (pl_next_some _ _ _ Hinv Hn) as (Hi & Hhd & Hp).
    pose proof (next_calls w) as Hs. rewrite Hn in Hs. simpl in Hs.
    apply M_bind_ok in Hrun as ([] & w2 & Hpr & Hrun).
    destruct (process_ok r w1 w2) as (Hi2 & Hp2 & Hs2); [done|by rewrite Hp|done|].
    apply IH in Hrun as (Hk & Hi' & Hs' & Hp' & Hend); [|done].
    apply head_tail in Hhd. replace (Z.to_nat (k - k0)) with (S (Z.to_nat (k - (k0 + 1)))) by lia.
    rewrite Hs', Hp', Hs2, Hp2, Hs, Hp, Hhd. simpl. rewrite <- app_assoc. simpl.
    split_and!; try done; try lia. intros.
    rewrite Hp, Hhd in Hp2. simpl in Hp2. rewrite <- Hp2, <- Hp'. apply Hend. lia.
  - destruct (pl_next_none _ _ Hinv Hn) as (Hi & Hp & Hp').
    pose proof (next_calls w) as Hs. rewrite Hn in Hs. simpl in Hs. injection Hrun as -> ->.
    rewrite Z.sub_diag, take_0, drop_0, Hp, Hp'. simpl. rewrite app_nil_r. split_and!; try done; lia.
Qed.

(** How a run from [w] fails: it processed the first [k] pending records, and
    then no record could be had, or the turn of the next one failed. *)
Definition run_failed (w : W) (e : stream_error) (w' : W) : Prop :=
  ∃ k, pl_pending w' = drop k (pl_pending w) ∧
    (calls w' = calls w ++ handled (take k (pl_pending w)) ∨
     ∃ r rest, pl_pending w' = r :: rest ∧
       failed_on r e (calls w ++ handled (take k (pl_pending w))) (calls w')).

Lemma run_failed_first r w w1 e w' :
  pl_pending w1 = r :: tail (pl_pending w1) → pl_pending w = pl_pending w1 → calls w = calls w1 →
  pl_pending w' = pl_pending w1 → failed_on r e (calls w1) (calls w') → run_failed w e w'.
Proof.
  intros Hhd Hp Hc Hp' Hf. exists 0%nat. rewrite drop_0, take_0, Hp, Hc, Hp'. split; [done|]. right.
  exists r, (tail (pl_pending w1)). simpl. by rewrite app_nil_r.
Qed.

Lemma run_failed_later r w w2 e w' :
  pl_pending w = r :: pl_pending w2 → calls w2 = calls w ++ handled [r] →
  run_failed w2 e w' → run_failed w e w'.
Proof.
  intros Hp Hc (k & Hk & Hf). exists (S k). rewrite Hp. simpl. split; [done|].
  rewrite Hc, <- app_assoc in Hf. exact Hf.
Qed.

Lemma run_loop_err n w k0 e w' :
  pl_inv w → run_loop handler n k0 w = (Err e, w') → run_failed w e w'.
Proof.
  revert w k0. induction n as [|n IH]; intros w k0 Hinv Hrun; simpl in Hrun; [done|].
  apply M_bind_err in Hrun as [Hn|([r|] & w1 & Hn & Hrun)]; [| |done].
  - exists 0%nat. rewrite drop_0, take_0. simpl. rewrite app_nil_r. pose proof (next_calls w) as Hs.
    rewrite Hn in Hs. split; [by eapply pl_next_err|by left].
  - destruct (pl_next_some _ _ _ Hinv Hn) as (Hi & Hhd & Hp).
    pose proof (next_calls w) as Hs. rewrite Hn in Hs. simpl in Hs.
    apply M_bind_err in Hrun as [Hpr|([] & w2 & Hpr & Hrun)].
    + destruct (process_err r w1 e w') as [Hp' Hs']; [done|done|].
      apply (run_failed_first r w w1); try done. rewrite Hp. by apply head_tail.
    + destruct (process_ok r w1 w2) as (Hi2 & Hp2 & Hs2); [done|by rewrite Hp|done|].
      apply (run_failed_later r w w2); [|by rewrite Hs2, Hs|by eapply IH].
      rewrite Hp2, Hp. by apply head_tail.
Qed.

(** A run that returns processed exactly the next pending records, each
    handled once and in order and then checkpointed; it processed as many as
    asked for, or there is nothing left. *)
Theorem run_once_processes n w k w' :
  pl_inv w → run_once handler (PyInt n) w = (Ok k, w') →
  0 <= k <= n ∧ calls w' = calls w ++ handled (take (Z.to_nat k) (pl_pending w)) ∧
  pl_pending w' = drop (Z.to_nat k) (pl_pending w) ∧ (k < n → pl_pending w' = []).
Proof.
  intros Hinv Hrun. unfold run_once in Hrun. autorewrite with mrun in Hrun.
  case_match; [|done]. simpl in *. case_match; [done|]. simplify_eq. bool_hyps.
  unfold try_except in Hrun. destruct (run_loop handler _ 0 w) as [[k'|e] w1] eqn:Hloop.
  - injection Hrun as -> ->. apply run_loop_ok in Hloop as (Hk & _ & Hs & Hp & Hend); [|done].
    rewrite Z.sub_0_r in *. rewrite Z2Nat.id in Hk, Hend by lia. split_and!; try done; lia.
  - case_match; unfold _release_preserving_cancellation in Hrun;
      rewrite ?run_bind_ignoring in Hrun; done.
Qed.


End runs.

(** ** Leases of the in-memory log *)

(** What [lid], a lease of [key], still has to deliver. *)
Definition pending_at (key : CheckpointKey) (l : log) : list StoredRecord :=
  match _broker_cursors l !! key, part_at l (key_stream key) (key_partition key) with
  | Some c, Some part => filter (λ r, position c <= sr_offset r) (records part)
  | _, _ => []
  end.

Section memory.
Context {S A : Type} {ops : CheckpointStore S} (lid : Z) (key : CheckpointKey).

Definition on_world {B} (m : M (world S) stream_error B) : M (world S * A) stream_error B :=
  zoom fst (λ w s, (w, s.2)) m.

(** The lease beside the application's own state. *)
Definition memory_lease : PartitionLease (world S * A) := {|
  pl_key := key;
  pl_next_record := on_world (next_record lid);
  pl_checkpoint r := on_world (checkpoint lid r);
  pl_stop := on_world (on_log (stop lid));
  pl_release := on_world (on_log (release lid))
|}.

Definition memory_inv (s : world S * A) : Prop :=
  ∃ H x, reachable (w_log s.1) H ∧ objects (w_log s.1) !! lid = Some x ∧ lease_key x = key ∧
         _store x = None.

Lemma on_world_eq {B} (m : M (world S) stream_error B) s r s' :
  on_world m s = (r, s') → m s.1 = (r, s'.1) ∧ s'.2 = s.2.
Proof. unfold on_world, zoom. destruct (m s.1) as [r' w]. by intros [= <- <-]. Qed.

Lemma head_filter_find {B} (P : B → Prop) `{∀ x, Decision (P x)} l :
  head (filter P l) = snd <$> list_find P l.
Proof.
  induction l as [|x l IH]; [done|]. simpl. rewrite filter_cons. case_decide; [done|].
  rewrite IH. by destruct (list_find P l) as [[]|].
Qed.

Lemma filter_past {B} (f : B → Z) l a r :
  increasing f l → head (filter (λ x, a <= f x) l) = Some r →
  filter (λ x, f r + 1 <= f x) l = tail (filter (λ x, a <= f x) l).
Proof.
  intros Hinc Hhead.
  assert (a <= f r) as Ha.
  { apply head_tail in Hhead. assert (r ∈ filter (λ x, a <= f x) l) as Hr by (rewrite Hhead; left).
    by apply list_elem_of_filter in Hr as [? _]. }
  assert (filter (λ x, f r + 1 <= f x) l =
          filter (λ x, f r + 1 <= f x) (filter (λ x, a <= f x) l)) as ->.
  { rewrite list_filter_filter. apply list_filter_iff. intros; lia. }
  pose proof (StronglySorted_filter _ (λ x, a <= f x) _ Hinc) as Hs.
  destruct (filter _ l) as [|y t]; [done|]. simpl in *. injection Hhead as ->.
  rewrite filter_cons, decide_False by lia. apply filter_all.
  inversion Hs; subst. eapply Forall_impl; [done|]. simpl; lia.
Qed.

Lemma pending_same l l' :
  _streams l' = _streams l → _broker_cursors l' = _broker_cursors l →
  pending_at key l' = pending_at key l.
Proof. unfold pending_at, part_at. by intros -> ->. Qed.

Lemma memory_next s v s' :
  memory_inv s → on_world (next_record lid) s = (Ok v, s') →
  memory_inv s' ∧ head (pending_at key (w_log s.1)) = v ∧
  pending_at key (w_log s'.1) = pending_at key (w_log s.1).
Proof.
  intros (H & x & Hreach & Hx & Hk & Hst) [Hrun _]%on_world_eq.
  destruct (next_record_ok _ _ _ _ Hrun) as (c & Hload & Hnext).
  destruct (load_cursor_ok _ _ _ _ Hload) as (_ & _ & y & Hy & Hc & Hbr).
  rewrite Hx in Hy. injection Hy as <-. destruct (Hbr Hst) as [Hcur _].
  assert (∃ H', reachable (w_log s'.1) H') as [H' Hreach'].
  { eexists. replace (w_log s'.1) with (exec (OpNext lid c) (w_log s.1)) by (simpl; by rewrite Hnext).
    by apply (reachable_step _ H). }
  destruct (next_locked_ok _ _ _ _ _ Hnext)
    as (y & part & Hy & _ & _ & _ & Hif & Hat & Hret & Hfind).
  rewrite Hx in Hy. injection Hy as <-. rewrite Hk in *.
  assert (head (pending_at key (w_log s.1)) = snd <$> list_find (due c) (records part)) as Hhead.
  { unfold pending_at. rewrite Hcur, Hat.
    rewrite (list_filter_iff _ (due c)) by (intros; symmetry; apply due_position).
    apply head_filter_find. }
  split_and!.
  - exists H'. destruct (list_find _ _) as [[i r]|]; destruct Hfind as [_ El]; rewrite El in *.
    + eexists. split; [done|]. simpl. rewrite lookup_alter_eq, Hx. by split_and!.
    + by exists x.
  - rewrite Hhead. destruct (list_find _ _) as [[i r]|]; destruct Hfind as [-> _]; done.
  - destruct (list_find _ _) as [[i r]|]; destruct Hfind as [_ ->]; by apply pending_same.
Qed.

Lemma memory_checkpoint s r s' :
  memory_inv s → on_world (checkpoint lid r) s = (Ok tt, s') →
  head (pending_at key (w_log s.1)) = Some r →
  memory_inv s' ∧ pending_at key (w_log s'.1) = tail (pending_at key (w_log s.1)).
Proof.
  intros (H & x & Hreach & Hx & Hk & Hst) [Hrun _]%on_world_eq Hhead.
  destruct (checkpoint_ok _ _ _ _ Hrun) as (y & Hy & Hc & Hif & Hbr).
  rewrite Hx in Hy. injection Hy as <-. destruct (Hbr Hst) as (e & c & He & Hlast & Hadv & Hl').
  rewrite Hk in *. split.
  - destruct (checkpoint_reach lid x r s.1 s'.1 H) as [H' Hreach']; try done.
    eexists H', _. split; [done|]. rewrite Hl'. simpl. rewrite lookup_alter_eq, Hx. by split_and!.
  - assert (position c = sr_offset r + 1) as Hpos.
    { unfold last_successful, ResumeCursor_new in Hlast.
      apply result_bind_ok in Hlast as (o & [? _]%offset_ok & Hlast). by simplify_eq. }
    unfold pending_at in *. rewrite Hl'. unfold part_at in *. simpl.
    rewrite lookup_insert_eq, He in *. rewrite Hpos.
    match goal with |- context [match ?p with Some _ => _ | None => _ end] =>
      destruct p as [part|] eqn:Hat; [|done] end.
    apply filter_past; [|done]. destruct (reachable_wf _ _ Hreach) as [Hs _].
    eapply records_increasing, part_at_some; done.
Qed.

Lemma memory_keeps {B} (m : L B) s :
  keeps (λ l, (_streams l, _broker_cursors l)) m →
  pending_at key (w_log (on_world (on_log m) s).2.1) = pending_at key (w_log s.1).
Proof.
  intros Hk. specialize (Hk (w_log s.1)). unfold on_world, on_log, zoom. simpl.
  destruct (m (w_log s.1)) as [r l']. simpl in *. injection Hk as Hs Hc. by apply pending_same.
Qed.

(** Leases of the in-memory log with the broker's cursors keep the protocol. *)
Definition memory_lease_laws : @PartitionLeaseLaws (world S * A) memory_lease.
Proof.
  refine (@Build_PartitionLeaseLaws _ memory_lease memory_inv (λ s, pending_at key (w_log s.1))
            _ _ _ _ _ _ _); simpl.
  - intros s r s' Hi Hrun. by apply memory_next in Hrun.
  - intros s s' Hi Hrun. apply memory_next in Hrun as (Hi' & Hh & Hp); [|done].
    rewrite Hp. by destruct (pending_at key _).
  - intros s e s' Hi [Hrun _]%on_world_eq. pose proof (keeps_next_record lid s.1) as Hk.
    rewrite Hrun in Hk. injection Hk as Hs Hc _ _. by apply pending_same.
  - intros s r s' Hi Hrun Hh. by eapply memory_checkpoint.
  - intros s r e s' (H & x & Hreach & Hx & Hk & Hst) [Hrun _]%on_world_eq.
    apply (checkpoint_err _ _ x) in Hrun; [|done|done]. unfold memory_inv. rewrite Hrun. eauto 10.
  - intros s. apply (memory_keeps (stop lid) s). unfold stop, _stop, alter_lease. solve_keeps.
  - intros s. apply (memory_keeps (release lid) s). unfold release, _release, del_lease, _lease, alter_lease.
    solve_keeps.
Defined.

End memory.

(** ** A concrete run *)

(** A handler that does nothing, and fails on the record [bad]. *)
Definition ex_outcome (bad : uuid) (r : StoredRecord) : result stream_error unit :=
  if sr_record_id r =? bad then Err (ForeignError 7) else Ok tt.

Definition ex_handler (bad : uuid) (r : StoredRecord)
    : M (world InMemoryCheckpointStore * list handling) stream_error unit :=
  modify (λ s, (s.1, s.2 ++ [(r, ex_outcome bad r)]));; lift (ex_outcome bad r).

Definition ex_consumer : world InMemoryCheckpointStore * list handling := (ex_world ex_owned, []).

Lemma ex_consumer_inv : memory_inv 0 ex_key ex_consumer.
Proof.
  destruct ex_owned_lease as (x & Hx & Hk & Hst & _).
  exists ex_owned_history, x. split; [exact ex_owned_reachable|]. by split_and!.
Qed.

Lemma ex_handler_run bad r s :
  ex_handler bad r s = (ex_outcome bad r, (s.1, s.2 ++ [(r, ex_outcome bad r)])).
Proof. unfold ex_handler. by autorewrite with mrun. Qed.

Lemma ex_handler_calls bad r s : (ex_handler bad r s).2.2 = s.2 ++ [(r, (ex_handler bad r s).1)].
Proof. by rewrite ex_handler_run. Qed.

Lemma ex_handler_lease bad r s :
  memory_inv 0 ex_key s →
  memory_inv 0 ex_key (ex_handler bad r s).2 ∧
  pending_at ex_key (w_log (ex_handler bad r s).2.1) = pending_at ex_key (w_log s.1).
Proof. unfold memory_inv. by rewrite ex_handler_run. Qed.

Lemma on_world_calls {S A B} (m : M (world S) stream_error B) :
  keeps (snd : world S * A → A) (on_world m).
Proof. intros s. unfold on_world, zoom. by destruct (m s.1). Qed.

Definition ex_run (bad : uuid) (limit : Z) :=
  @run_once _ (memory_lease 0 ex_key) (ex_handler bad) (PyInt limit) ex_consumer.
Definition ex_pending (s : world InMemoryCheckpointStore * list handling) : list StoredRecord :=
  @pl_pending _ (memory_lease 0 ex_key) (memory_lease_laws 0 ex_key) s.

Definition ex_poison (r : StoredRecord) : stream_error :=
  @poison (world InMemoryCheckpointStore * list handling) (memory_lease 0 ex_key) r (ForeignError 7).

Lemma run_once_processes_witness :
  (ex_run 9 2).1 = Ok 2 ∧ snd (ex_run 9 2).2 = handled (take 2 (ex_pending ex_consumer)).
Proof.
  assert ((ex_run 9 2).1 = Ok 2) as Hrun by (vm_compute; reflexivity).
  split; [exact Hrun|].
  destruct (@run_once_processes _ (memory_lease 0 ex_key) (memory_lease_laws 0 ex_key)
    (ex_handler 9) snd (ex_handler_calls 9)) with (n := 2) (w := ex_consumer) (k := 2)
    (w' := (ex_run 9 2).2) as (_ & Hs & _).
  - apply on_world_calls.
  - intros r. apply on_world_calls.
  - exact (ex_handler_lease 9).
  - exact ex_consumer_inv.
  - exact (result_of _ _ _ Hrun).
  - exact Hs.
Defined.

