(* ===== verification/EsEvents.v ===== *)
(** * Event sourcing: value objects and errors

    [events.py], [errors.py] and [outcomes.py] of
    [tori_py_cqrs_event_sourcing_core]: the immutable event records with their
    validating constructors, the typed failures as one inductive type, and the
    persistence outcomes. [str.isprintable] reads the Unicode character
    database, which is a parameter ([Unicode]). *)

From Stdlib Require Import ZArith Lia.
From stdpp Require Import base tactics list gmap strings.
From S2P Require Import Prelude.
Local Open Scope Z_scope.

(** ** Records *)

Record StreamId := { category : pystr; key : pystr }.

#[export] Instance StreamId_eq_dec : EqDecision StreamId.
Proof. solve_decision. Defined.
#[export] Instance StreamId_countable : Countable StreamId.
Proof.
  refine (inj_countable' (λ s, (category s, key s)) (λ p, {| category := p.1; key := p.2 |}) _).
  by intros [].
Defined.

(** An instance of a domain event class: the class, and what it holds. Class 0
    is the abstract [Event] itself. *)
Record Event := { event_class : Z; event_value : pyobj }.

Record EventMetadata := {
  event_id : uuid;
  occurred_at : datetime;
  correlation_id : option uuid;
  causation_id : option uuid;
  headers : list (pystr * pystr)
}.

Record PendingEvent := { pe_event : Event; pe_metadata : EventMetadata }.

Record RecordedEvent := {
  re_stream_id : StreamId;
  re_stream_version : Z;
  re_global_position : Z;
  re_event_type : pystr;
  re_schema_version : Z;
  re_event : Event;
  re_metadata : EventMetadata
}.

Record EncodedEvent := { ee_event_type : pystr; ee_schema_version : Z; ee_payload : bytes }.

Record AppendEvent := { encoded : EncodedEvent; ae_metadata : EventMetadata }.

Record StoredEvent := {
  stream_id : StreamId;
  stream_version : Z;
  global_position : Z;
  se_event : AppendEvent
}.

Record CommitResult := { cr_events : list StoredEvent }.

#[export] Instance Event_eq_dec : EqDecision Event.
Proof. solve_decision. Defined.
#[export] Instance EventMetadata_eq_dec : EqDecision EventMetadata.
Proof. solve_decision. Defined.
#[export] Instance PendingEvent_eq_dec : EqDecision PendingEvent.
Proof. solve_decision. Defined.
#[export] Instance EncodedEvent_eq_dec : EqDecision EncodedEvent.
Proof. solve_decision. Defined.
#[export] Instance AppendEvent_eq_dec : EqDecision AppendEvent.
Proof. solve_decision. Defined.
#[export] Instance StoredEvent_eq_dec : EqDecision StoredEvent.
Proof. solve_decision. Defined.

(** [event.event_id] of an [AppendEvent] and of a [StoredEvent]. *)
Definition ae_event_id (e : AppendEvent) : uuid := event_id (ae_metadata e).
Definition se_event_id (e : StoredEvent) : uuid := ae_event_id (se_event e).

(** ** Failures (errors.py) *)

Inductive es_error :=
| InvalidStreamIdError
| InvalidEventMetadataError
| InvalidEventRecordError
| AggregateFaultedError
| AggregateEnlistedError
| AggregateOwnershipError
| AggregateReplayError
| AggregateStreamMismatchError (expected actual : StreamId)
| AggregateTypeMismatchError (expected actual : Z)
| AggregateCommitStateError
| SchemaValidationError
| DuplicateEventSchemaError
| UnknownEventSchemaError
| UnsupportedEventSchemaVersionError
| EventUpcastError
| EventCodecError
| SchemaRegistryFrozenError
| SchemaRegistryNotFrozenError
| ResourceLimitError
| ConfirmedCommitError
| ConfirmedCommitCleanupError (result : CommitResult) (cleanup_error : es_error)
| EventStoreTransactionError
| DuplicateStreamAppendError (stream_id : StreamId)
| OptimisticConcurrencyError (stream_id : StreamId) (expected_version actual_version : Z)
| DuplicateEventIdError (event_id : uuid)
| IndeterminateCommitError
| RepositoryError
| AggregateNotFoundError
| UnitOfWorkLifecycleError
| DuplicateAggregateSaveError
| DuplicateStreamAggregateError
| CommitResultMismatchError
| TypeError
| UnicodeEncodeError
| AssertionError
| CancelledError
| KeyboardInterrupt
| ForeignError (id : Z).

(** [isinstance(error, Exception)] *)
Definition is_exception (e : es_error) : bool :=
  match e with CancelledError | KeyboardInterrupt => false | _ => true end.

(** ** Outcomes (outcomes.py) *)

Inductive UnitOfWorkOutcome :=
| ConfirmedCommit (result : CommitResult)
| ConfirmedNonCommit (cause : option es_error)
| IndeterminateCommit (cause : es_error).

(** ** Validators *)

Class Unicode := { isprintable : pystr → bool }.

Section validators.
Context `{Unicode}.

Definition _stable_text (value : pyobj) : result es_error pystr :=
  match value with
  | PyStr [] => Err InvalidEventRecordError
  | PyStr s =>
      _ ← raise_if (has_outer_space s) InvalidEventRecordError;
      _ ← raise_if (negb (isprintable s)) InvalidEventRecordError;
      Ok s
  | _ => Err InvalidEventRecordError
  end.

Definition _positive_int (value : pyobj) : result es_error Z :=
  match value with
  | PyInt z => if z <? 1 then Err InvalidEventRecordError else Ok z
  | _ => Err InvalidEventRecordError
  end.

Definition _non_negative_int (value : pyobj) : result es_error Z :=
  match value with
  | PyInt z => if z <? 0 then Err InvalidEventRecordError else Ok z
  | _ => Err InvalidEventRecordError
  end.

Definition _uuid (value : pyobj) : result es_error uuid :=
  match value with PyUUID u => Ok u | _ => Err InvalidEventMetadataError end.

Definition _optional_uuid (value : pyobj) : result es_error (option uuid) :=
  match value with
  | PyNone => Ok None
  | _ => u ← _uuid value; Ok (Some u)
  end.

Definition _aware_datetime (value : pyobj) : result es_error datetime :=
  match value with
  | PyDatetime d => if dt_aware d then Ok d else Err InvalidEventMetadataError
  | _ => Err InvalidEventMetadataError
  end.

(** A [headers] argument: not a mapping, one that raises when it is copied, or
    the items of its copy. *)
Inductive headers_arg :=
| NotMapping
| MappingRaises (e : es_error)
| MappingItems (items : list (pyobj * pyobj)).

Definition header_text (item : pyobj * pyobj) : result es_error (pystr * pystr) :=
  match item with
  | (PyStr k, PyStr v) => Ok (k, v)
  | _ => Err InvalidEventMetadataError
  end.

Definition utf8_encodable (s : pystr) : bool := bool_decide (is_Some (utf8_len s)).

Definition _headers (value : headers_arg) : result es_error (list (pystr * pystr)) :=
  match value with
  | NotMapping => Err InvalidEventMetadataError
  | MappingRaises e => if is_exception e then Err InvalidEventMetadataError else Err e
  | MappingItems items =>
      copied ← rmap header_text items;
      _ ← raise_if (negb (forallb (λ kv, utf8_encodable kv.1 && utf8_encodable kv.2) copied))
            InvalidEventMetadataError;
      Ok copied
  end.

(** [None] is an object that is no [Event]. *)
Definition _event (value : option Event) : result es_error Event :=
  match value with
  | Some e => if event_class e =? 0 then Err InvalidEventRecordError else Ok e
  | None => Err InvalidEventRecordError
  end.

(** ** Constructors *)

Definition StreamId_new (category key : pyobj) : result es_error StreamId :=
  match (c ← _stable_text category; k ← _stable_text key; Ok (c, k)) with
  | Ok (c, k) => Ok {| category := c; key := k |}
  | Err InvalidEventRecordError => Err InvalidStreamIdError
  | Err e => Err e
  end.

Definition EventMetadata_new (event_id occurred_at correlation_id causation_id : pyobj)
    (headers : headers_arg) : result es_error EventMetadata :=
  i ← _uuid event_id;
  t ← _aware_datetime occurred_at;
  co ← _optional_uuid correlation_id;
  ca ← _optional_uuid causation_id;
  h ← _headers headers;
  Ok {| event_id := i; occurred_at := t; correlation_id := co; causation_id := ca;
        headers := h |}.

(** [None] is an object of another type. *)
Definition PendingEvent_new (event : option Event) (metadata : option EventMetadata)
    : result es_error PendingEvent :=
  e ← _event event;
  match metadata with
  | Some m => Ok {| pe_event := e; pe_metadata := m |}
  | None => Err InvalidEventRecordError
  end.

Definition RecordedEvent_new (sid : StreamId) (version position : Z) (event_type : pystr)
    (schema_version : Z) (event : Event) (metadata : EventMetadata)
    : result es_error RecordedEvent :=
  v ← _positive_int (PyInt version);
  p ← _positive_int (PyInt position);
  t ← _stable_text (PyStr event_type);
  s ← _positive_int (PyInt schema_version);
  e ← _event (Some event);
  Ok {| re_stream_id := sid; re_stream_version := v; re_global_position := p;
        re_event_type := t; re_schema_version := s; re_event := e; re_metadata := metadata |}.

Definition EncodedEvent_new (event_type : pystr) (schema_version : Z) (payload : bytes)
    : result es_error EncodedEvent :=
  t ← _stable_text (PyStr event_type);
  s ← _positive_int (PyInt schema_version);
  Ok {| ee_event_type := t; ee_schema_version := s; ee_payload := payload |}.

Definition StoredEvent_new (sid : StreamId) (version position : Z) (event : AppendEvent)
    : result es_error StoredEvent :=
  v ← _positive_int (PyInt version);
  p ← _positive_int (PyInt position);
  Ok {| stream_id := sid; stream_version := v; global_position := p; se_event := event |}.

(** [CommitResult.final_version] *)
Definition final_version (r : CommitResult) (sid : StreamId) : option Z :=
  let versions := stream_version <$> filter (λ e, stream_id e = sid) (cr_events r) in
  match versions with
  | [] => None
  | v :: vs => Some (foldl Z.max v vs)
  end.

End validators.

(** ** Equality of records

    [==] compares fields; headers are compared as dictionaries and times as
    instants. *)

Definition EventMetadata_eqb (a b : EventMetadata) : bool :=
  (event_id a =? event_id b) && (instant (occurred_at a) =? instant (occurred_at b))
  && bool_decide (correlation_id a = correlation_id b)
  && bool_decide (causation_id a = causation_id b)
  && dict_eqb (headers a) (headers b).

Definition PendingEvent_eqb (a b : PendingEvent) : bool :=
  bool_decide (pe_event a = pe_event b) && EventMetadata_eqb (pe_metadata a) (pe_metadata b).

Definition AppendEvent_eqb (a b : AppendEvent) : bool :=
  bool_decide (encoded a = encoded b) && EventMetadata_eqb (ae_metadata a) (ae_metadata b).

Fixpoint seq_eqb {A} (eqb : A → A → bool) (l k : list A) : bool :=
  match l, k with
  | [], [] => true
  | a :: l, b :: k => eqb a b && seq_eqb eqb l k
  | _, _ => false
  end.

(** ** Facts *)

Lemma EventMetadata_eqb_refl m : EventMetadata_eqb m m = true.
Proof.
  unfold EventMetadata_eqb, dict_eqb. by rewrite !Z.eqb_refl, !bool_decide_eq_true_2.
Qed.
Lemma PendingEvent_eqb_refl p : PendingEvent_eqb p p = true.
Proof. unfold PendingEvent_eqb. by rewrite bool_decide_eq_true_2, EventMetadata_eqb_refl. Qed.
Lemma AppendEvent_eqb_refl p : AppendEvent_eqb p p = true.
Proof. unfold AppendEvent_eqb. by rewrite bool_decide_eq_true_2, EventMetadata_eqb_refl. Qed.
Lemma seq_eqb_refl {A} (eqb : A → A → bool) l : (∀ a, eqb a a = true) → seq_eqb eqb l l = true.
Proof. intros Hr. induction l; simpl; [done|]. by rewrite Hr, IHl. Qed.

Lemma seq_eqb_length {A} (eqb : A → A → bool) l k : seq_eqb eqb l k = true → length l = length k.
Proof.
  revert k. induction l as [|a l IH]; intros [|b k] Heq; try done. simpl in *.
  apply andb_true_iff in Heq as [_ Heq]. by rewrite (IH k).
Qed.

Lemma AppendEvent_eqb_id a b : AppendEvent_eqb a b = true → ae_event_id a = ae_event_id b.
Proof.
  unfold AppendEvent_eqb, EventMetadata_eqb, ae_event_id. intros H. bool_hyps. done.
Qed.

Lemma positive_int_ok z v : _positive_int (PyInt z) = Ok v ↔ v = z ∧ 1 <= z.
Proof.
  simpl. destruct (Z.ltb_spec z 1); split; intros; destruct_and?; simplify_eq; done || lia.
Qed.

Lemma StoredEvent_new_ok sid v p e s :
  StoredEvent_new sid v p e = Ok s ↔
  1 <= v ∧ 1 <= p ∧
  s = {| stream_id := sid; stream_version := v; global_position := p; se_event := e |}.
Proof.
  unfold StoredEvent_new. split.
  - intros H. apply result_bind_ok in H as (v' & [-> Hv]%positive_int_ok & H).
    apply result_bind_ok in H as (p' & [-> Hp]%positive_int_ok & H). by simplify_eq.
  - intros (Hv & Hp & ->).
    rewrite (proj2 (positive_int_ok v v)), (proj2 (positive_int_ok p p)) by done. done.
Qed.
