(* ===== verification/EsCodec.v ===== *)
(** * Event sourcing: schemas and codecs

    [codec.py] of [tori_py_cqrs_event_sourcing_core]: resource limits, event
    schemas with their upcasters, and the registry that encodes pending events
    and upcasts and decodes stored ones. The encoder, decoder and upcasters of a
    schema are the application's functions; they may raise, and an encoder may
    return something that is no byte string. *)

From Stdlib Require Import ZArith Lia.
From stdpp Require Import base tactics list gmap strings sorting.
From S2P Require Import Prelude EsEvents.
Local Open Scope Z_scope.

(** ** Limits *)

Record EventSourcingLimits := {
  max_payload_bytes : Z;
  max_headers : Z;
  max_header_name_bytes : Z;
  max_header_value_bytes : Z;
  max_upcast_steps : Z;
  read_page_size : Z;
  max_events_per_append : Z;
  max_events_per_transaction : Z;
  max_transaction_bytes : Z
}.

Definition EventSourcingLimits_default : EventSourcingLimits := {|
  max_payload_bytes := 1048576;
  max_headers := 64;
  max_header_name_bytes := 256;
  max_header_value_bytes := 4096;
  max_upcast_steps := 32;
  read_page_size := 500;
  max_events_per_append := 1000;
  max_events_per_transaction := 10000;
  max_transaction_bytes := 16777216
|}.

Definition _positive (value : pyobj) : result es_error Z :=
  match value with
  | PyInt z => if z <? 1 then Err SchemaValidationError else Ok z
  | _ => Err SchemaValidationError
  end.

Definition EventSourcingLimits_new (a b c d e f g h i : pyobj)
    : result es_error EventSourcingLimits :=
  a ← _positive a; b ← _positive b; c ← _positive c; d ← _positive d; e ← _positive e;
  f ← _positive f; g ← _positive g; h ← _positive h; i ← _positive i;
  Ok {| max_payload_bytes := a; max_headers := b; max_header_name_bytes := c;
        max_header_value_bytes := d; max_upcast_steps := e; read_page_size := f;
        max_events_per_append := g; max_events_per_transaction := h;
        max_transaction_bytes := i |}.

(** ** Schemas *)

Abbreviation EventEncoder := (Event → result es_error pyobj) (only parsing).
Abbreviation EventDecoder := (bytes → result es_error Event) (only parsing).
Abbreviation EventUpcaster := (bytes → result es_error pyobj) (only parsing).

Record EventSchema := {
  alias : pystr;
  version : Z;
  event_type : Z;
  encoder : EventEncoder;
  decoder : EventDecoder;
  upcasters : gmap Z EventUpcaster
}.

Record EventSchemaRegistry := {
  reg_limits : EventSourcingLimits;
  _by_alias : gmap pystr EventSchema;
  _by_class : gmap Z EventSchema;
  _frozen : bool
}.

Section codec.
Context `{Unicode}.

Definition _alias (value : pyobj) : result es_error pystr :=
  match value with
  | PyStr [] => Err SchemaValidationError
  | PyStr s =>
      _ ← raise_if (has_outer_space s) SchemaValidationError;
      _ ← raise_if (negb (isprintable s)) SchemaValidationError;
      _ ← raise_if (negb (utf8_encodable s)) SchemaValidationError;
      Ok s
  | _ => Err SchemaValidationError
  end.

(** An item of the [upcasters] argument; [None] is not callable. *)
Definition upcaster_item (item : pyobj * option EventUpcaster)
    : result es_error (Z * EventUpcaster) :=
  match item with
  | (PyInt v, Some u) => Ok (v, u)
  | _ => Err SchemaValidationError
  end.

(** [None] for the class, the encoder or the decoder is an argument of the
    wrong kind; class 0 is [Event] itself. *)
Definition EventSchema_new (alias version : pyobj) (event_type : option Z)
    (encoder : option EventEncoder) (decoder : option EventDecoder)
    (upcasters : list (pyobj * option EventUpcaster)) : result es_error EventSchema :=
  a ← _alias alias;
  v ← _positive version;
  t ← match event_type with
      | Some t => if t =? 0 then Err SchemaValidationError else Ok t
      | None => Err SchemaValidationError
      end;
  e ← match encoder with Some e => Ok e | None => Err SchemaValidationError end;
  d ← match decoder with Some d => Ok d | None => Err SchemaValidationError end;
  copied ← rmap upcaster_item upcasters;
  let source_versions := merge_sort Z.le copied.*1 in
  _ ← raise_if (negb (zlen source_versions =? v - 1)
                || existsb (λ p, negb (p.2 =? p.1))
                     (zip (seqZ 1 (zlen source_versions)) source_versions))
        SchemaValidationError;
  Ok {| alias := a; version := v; event_type := t; encoder := e; decoder := d;
        upcasters := list_to_map copied |}.

(** ** The registry *)

Definition EventSchemaRegistry_new (limits : EventSourcingLimits) : EventSchemaRegistry :=
  {| reg_limits := limits; _by_alias := ∅; _by_class := ∅; _frozen := false |}.

Definition register (schema : EventSchema) : M EventSchemaRegistry es_error unit :=
  r ← get;
  throw_if (_frozen r) SchemaRegistryFrozenError;;
  throw_if (max_upcast_steps (reg_limits r) <? version schema - 1) ResourceLimitError;;
  throw_if (bool_decide (is_Some (_by_alias r !! alias schema))) DuplicateEventSchemaError;;
  throw_if (bool_decide (is_Some (_by_class r !! event_type schema))) DuplicateEventSchemaError;;
  modify (λ r, {| reg_limits := reg_limits r;
                  _by_alias := <[alias schema := schema]> (_by_alias r);
                  _by_class := <[event_type schema := schema]> (_by_class r);
                  _frozen := _frozen r |}).

Definition freeze : M EventSchemaRegistry es_error unit :=
  modify (λ r, {| reg_limits := reg_limits r; _by_alias := _by_alias r;
                  _by_class := _by_class r; _frozen := true |}).

Definition _require_frozen (r : EventSchemaRegistry) : result es_error unit :=
  raise_if (negb (_frozen r)) SchemaRegistryNotFrozenError.

Definition _validate_payload (r : EventSchemaRegistry) (payload : pyobj)
    : result es_error bytes :=
  match payload with
  | PyBytes b =>
      if max_payload_bytes (reg_limits r) <? zlen b then Err ResourceLimitError else Ok b
  | _ => Err EventCodecError
  end.

(** [len(s.encode()) > limit] *)
Definition check_text (limit : Z) (s : pystr) : result es_error unit :=
  match utf8_len s with
  | Some n => raise_if (limit <? n) ResourceLimitError
  | None => Err UnicodeEncodeError
  end.

Definition check_header (limits : EventSourcingLimits) (kv : pystr * pystr)
    : result es_error unit :=
  _ ← check_text (max_header_name_bytes limits) kv.1;
  check_text (max_header_value_bytes limits) kv.2.

Definition _validate_header_mapping (limits : EventSourcingLimits)
    (headers : list (pystr * pystr)) : result es_error unit :=
  _ ← raise_if (max_headers limits <? zlen headers) ResourceLimitError;
  rfold (λ _ kv, check_header limits kv) tt headers.

(** [try: call() except Exception: raise e] *)
Definition wrapping {A} (e : es_error) (m : result es_error A) : result es_error A :=
  match m with
  | Ok a => Ok a
  | Err x => if is_exception x then Err e else Err x
  end.

Definition encode (r : EventSchemaRegistry) (pending : PendingEvent)
    : result es_error AppendEvent :=
  _ ← _require_frozen r;
  schema ← match _by_class r !! event_class (pe_event pending) with
           | Some s => Ok s
           | None => Err UnknownEventSchemaError
           end;
  _ ← _validate_header_mapping (reg_limits r) (headers (pe_metadata pending));
  payload ← wrapping EventCodecError (encoder schema (pe_event pending));
  payload ← _validate_payload r payload;
  encoded ← EncodedEvent_new (alias schema) (version schema) payload;
  Ok {| encoded := encoded; ae_metadata := pe_metadata pending |}.

(** [while version < schema.version]: [remaining] is the difference. *)
Fixpoint upcast_loop (r : EventSchemaRegistry) (schema : EventSchema) (remaining : nat)
    (version steps : Z) (payload : bytes) : result es_error bytes :=
  match remaining with
  | O => Ok payload
  | S remaining =>
      let steps := steps + 1 in
      _ ← raise_if (max_upcast_steps (reg_limits r) <? steps) ResourceLimitError;
      upcaster ← match upcasters schema !! version with
                 | Some u => Ok u
                 | None => Err EventUpcastError
                 end;
      payload ← wrapping EventUpcastError (upcaster payload);
      payload ← _validate_payload r payload;
      upcast_loop r schema remaining (version + 1) steps payload
  end.

Definition decode (r : EventSchemaRegistry) (stored : StoredEvent)
    : result es_error RecordedEvent :=
  _ ← _require_frozen r;
  let enc := encoded (se_event stored) in
  schema ← match _by_alias r !! ee_event_type enc with
           | Some s => Ok s
           | None => Err UnknownEventSchemaError
           end;
  _ ← raise_if (version schema <? ee_schema_version enc) UnsupportedEventSchemaVersionError;
  _ ← _validate_header_mapping (reg_limits r) (headers (ae_metadata (se_event stored)));
  payload ← _validate_payload r (PyBytes (ee_payload enc));
  payload ← upcast_loop r schema (Z.to_nat (version schema - ee_schema_version enc))
              (ee_schema_version enc) 0 payload;
  event ← wrapping EventCodecError (decoder schema payload);
  _ ← raise_if (negb (event_class event =? event_type schema)) EventCodecError;
  RecordedEvent_new (stream_id stored) (stream_version stored) (global_position stored)
    (alias schema) (version schema) event (ae_metadata (se_event stored)).

(** ** Well-formed schemas and registries *)

(** What the constructor of a schema guarantees. *)
Record wf_schema (s : EventSchema) : Prop := {
  ws_alias : _stable_text (PyStr (alias s)) = Ok (alias s);
  ws_version : 1 <= version s;
  ws_type : event_type s ≠ 0;
  ws_upcasters : ∀ v, is_Some (upcasters s !! v) ↔ 1 <= v < version s
}.

(** The two indexes of a registry agree, and every schema is reachable within
    the upcast limit. *)
Record wf_registry (r : EventSchemaRegistry) : Prop := {
  wr_alias : ∀ a s, _by_alias r !! a = Some s → alias s = a ∧ _by_class r !! event_type s = Some s;
  wr_class : ∀ c s, _by_class r !! c = Some s → event_type s = c ∧ _by_alias r !! alias s = Some s;
  wr_schema : ∀ a s, _by_alias r !! a = Some s →
    wf_schema s ∧ version s - 1 <= max_upcast_steps (reg_limits r)
}.

(** A payload through the upcasters of the versions from [v] on. *)
Fixpoint upcast_chain (r : EventSchemaRegistry) (schema : EventSchema) (n : nat) (v : Z)
    (payload : bytes) : result es_error bytes :=
  match n with
  | O => Ok payload
  | S n =>
      payload ← match upcasters schema !! v with
                | Some u => wrapping EventUpcastError (u payload)
                | None => Ok (PyBytes payload)
                end;
      payload ← _validate_payload r payload;
      upcast_chain r schema n (v + 1) payload
  end.

(** ** Facts *)

Lemma zip_seq_eq (a b : list Z) :
  length a = length b → existsb (λ p, negb (p.2 =? p.1)) (zip a b) = false → b = a.
Proof.
  revert b. induction a as [|x a IH]; intros [|y b] Hlen Hex; try done. simpl in *.
  apply orb_false_iff in Hex as [Hxy Hex]. bool_hyps. f_equal; [lia|]. apply IH; [lia|done].
Qed.

Lemma alias_ok v a : _alias v = Ok a → v = PyStr a ∧ _stable_text v = Ok a.
Proof.
  unfold _alias, _stable_text. destruct v as [| | |[|c s]| | | | | | | ]; try done. intros Ha.
  apply result_bind_ok in Ha as (? & Hs%raise_if_ok & Ha).
  apply result_bind_ok in Ha as (? & Hp%raise_if_ok & Ha).
  apply result_bind_ok in Ha as (? & _ & Ha). simplify_eq. rewrite Hs, Hp. done.
Qed.

Lemma EventSchema_new_wf a v t e d us s : EventSchema_new a v t e d us = Ok s → wf_schema s.
Proof.
  unfold EventSchema_new. intros Hs.
  apply result_bind_ok in Hs as (a' & [-> Ha]%alias_ok & Hs).
  apply result_bind_ok in Hs as (v' & Hv & Hs). apply result_bind_ok in Hs as (t' & Ht & Hs).
  apply result_bind_ok in Hs as (e' & _ & Hs). apply result_bind_ok in Hs as (d' & _ & Hs).
  apply result_bind_ok in Hs as (copied & _ & Hs).
  apply result_bind_ok in Hs as (? & Hsort%raise_if_ok & Hs). simplify_eq.
  apply orb_false_iff in Hsort as [Hlen Hex]. bool_hyps.
  apply zip_seq_eq in Hex; [|unfold zlen; rewrite length_seqZ; lia].
  constructor; simpl.
  - done.
  - destruct v as [| |z| | | | | | | | ]; try done. simpl in Hv.
    destruct (Z.ltb_spec z 1); simplify_eq; lia.
  - destruct t as [z|]; [|done]. destruct (Z.eqb_spec z 0); by simplify_eq.
  - intros w.
    assert (is_Some ((list_to_map copied : gmap Z EventUpcaster) !! w) ↔ w ∈ copied.*1) as ->.
    { rewrite <- not_eq_None_Some, <- not_elem_of_list_to_map. split; [|tauto].
      intros Hnn. by destruct (decide (w ∈ copied.*1)). }
    rewrite <- (merge_sort_Permutation Z.le copied.*1), Hex, elem_of_seqZ. lia.
Qed.

(** ** The registry *)

Lemma register_wf s : wf_schema s → pres wf_registry (register s).
Proof.
  intros Hs r Hr. unfold register. autorewrite with mrun.
  destruct (_frozen r); [done|]. autorewrite with mrun.
  destruct (Z.ltb_spec (max_upcast_steps (reg_limits r)) (version s - 1)); [done|].
  autorewrite with mrun. case_match eqn:Ha; [done|]. autorewrite with mrun.
  case_match eqn:Hc; [done|]. bool_hyps. apply eq_None_not_Some in Ha, Hc.
  destruct Hr as [H1 H2 H3]. constructor; simpl.
  - intros a x [[<- <-]|[Hne Hx]]%lookup_insert_Some; [by rewrite lookup_insert_eq|].
    destruct (H1 a x Hx) as [Hax Hcx]. split; [done|]. rewrite lookup_insert_ne; [done|congruence].
  - intros c x [[<- <-]|[Hne Hx]]%lookup_insert_Some; [by rewrite lookup_insert_eq|].
    destruct (H2 c x Hx) as [Hcx Hax]. split; [done|]. rewrite lookup_insert_ne; [done|congruence].
  - intros a x [[<- <-]|[Hne Hx]]%lookup_insert_Some; [split; [done|lia]|eauto].
Qed.

Lemma upcast_loop_chain r s n v steps p :
  wf_schema s → 1 <= v → v + Z.of_nat n = version s →
  steps + Z.of_nat n <= max_upcast_steps (reg_limits r) →
  upcast_loop r s n v steps p = upcast_chain r s n v p.
Proof.
  intros Hs. revert v steps p. induction n as [|n IH]; intros v steps p Hv Hn Hmax; [done|].
  cbn -[lookup _validate_payload]. rewrite (proj2 (Z.ltb_ge _ _)) by lia.
  cbn -[lookup _validate_payload].
  destruct (proj2 (ws_upcasters _ Hs v)) as [u Hu]; [lia|]. rewrite Hu.
  cbn -[_validate_payload]. destruct (wrapping _ _) as [q|]; [|done].
  cbn -[_validate_payload]. destruct (_validate_payload r q); [|done]. apply IH; lia.
Qed.

Lemma validate_payload_bytes r p b :
  _validate_payload r p = Ok b → p = PyBytes b ∧ _validate_payload r (PyBytes b) = Ok b.
Proof.
  unfold _validate_payload. destruct p; try done. case_match; [done|]. intros; simplify_eq.
  split; [done|]. by case_match.
Qed.

Lemma encode_ok r p a :
  encode r p = Ok a →
  ∃ s b, _frozen r = true ∧ _by_class r !! event_class (pe_event p) = Some s ∧
    _validate_header_mapping (reg_limits r) (headers (pe_metadata p)) = Ok tt ∧
    encoder s (pe_event p) = Ok (PyBytes b) ∧ _validate_payload r (PyBytes b) = Ok b ∧
    a = {| encoded := {| ee_event_type := alias s; ee_schema_version := version s; ee_payload := b |};
           ae_metadata := pe_metadata p |}.
Proof.
  unfold encode. intros Ha. apply result_bind_ok in Ha as ([] & Hf%raise_if_ok & Ha). bool_hyps.
  apply result_bind_ok in Ha as (s & Hs & Ha). destruct (_by_class r !! _) as [s'|]; [|done].
  simplify_eq. apply result_bind_ok in Ha as ([] & Hh & Ha).
  apply result_bind_ok in Ha as (q & Hq & Ha). apply result_bind_ok in Ha as (b & Hb & Ha).
  apply validate_payload_bytes in Hb as [-> Hb].
  apply result_bind_ok in Ha as (enc & Henc & Ha). simplify_eq.
  unfold EncodedEvent_new in Henc. apply result_bind_ok in Henc as (t & Ht & Henc).
  apply result_bind_ok in Henc as (v & [-> _]%positive_int_ok & Henc). simplify_eq.
  assert (t = alias s) as ->.
  { unfold _stable_text in Ht. destruct (alias s); [done|].
    apply result_bind_ok in Ht as (? & _ & Ht). apply result_bind_ok in Ht as (? & _ & Ht).
    by simplify_eq. }
  unfold wrapping in Hq. destruct (encoder s (pe_event p)) as [x|x] eqn:E; [|by case_match].
  simplify_eq. exists s, b. done.
Qed.

(** What is encoded and then stored decodes to the event. *)
Lemma encode_decode_run r p a sid v pos :
  wf_registry r → encode r p = Ok a → 1 <= v → 1 <= pos →
  (∀ s b, _by_class r !! event_class (pe_event p) = Some s →
     encoder s (pe_event p) = Ok (PyBytes b) → decoder s b = Ok (pe_event p)) →
  ∃ s, _by_class r !! event_class (pe_event p) = Some s ∧
    decode r {| stream_id := sid; stream_version := v; global_position := pos; se_event := a |} =
    Ok {| re_stream_id := sid; re_stream_version := v; re_global_position := pos;
          re_event_type := alias s; re_schema_version := version s; re_event := pe_event p;
          re_metadata := pe_metadata p |}.
Proof.
  intros Hr Ha Hv Hpos Hcodec.
  destruct (encode_ok _ _ _ Ha) as (s & b & Hf & Hs & Hh & He & Hb & ->). exists s. split; [done|].
  destruct (wr_class _ Hr _ _ Hs) as [Ht Hal]. destruct (wr_schema _ Hr _ _ Hal) as [Hwf _].
  unfold decode, _require_frozen. rewrite Hf. simpl negb.
  rewrite raise_if_false, result_ok_bind. cbv beta zeta. simpl encoded. simpl se_event.
  simpl ee_event_type. rewrite Hal, result_ok_bind. simpl ee_schema_version.
  rewrite Z.ltb_irrefl, raise_if_false, result_ok_bind. simpl ae_metadata.
  rewrite Hh, result_ok_bind. simpl ee_payload. rewrite Hb, result_ok_bind, Z.sub_diag.
  simpl upcast_loop. rewrite result_ok_bind, (Hcodec s b Hs He). simpl wrapping.
  rewrite result_ok_bind, Ht, Z.eqb_refl. simpl negb. rewrite raise_if_false, result_ok_bind.
  unfold RecordedEvent_new. cbn [stream_id stream_version global_position].
  rewrite (proj2 (positive_int_ok v v)), (proj2 (positive_int_ok pos pos)), !result_ok_bind by done.
  rewrite (ws_alias _ Hwf), result_ok_bind.
  rewrite (proj2 (positive_int_ok _ _)) by (split; [done|apply Hwf]). simpl.
  rewrite (proj2 (Z.eqb_neq _ _)) by (rewrite <- Ht; apply Hwf). done.
Qed.

Lemma decode_ok r stored rec :
  decode r stored = Ok rec →
  re_stream_id rec = stream_id stored ∧ re_stream_version rec = stream_version stored.
Proof.
  unfold decode. intros Hd. do 8 (apply result_bind_ok in Hd as (? & _ & Hd)).
  unfold RecordedEvent_new in Hd.
  apply result_bind_ok in Hd as (v & [-> _]%positive_int_ok & Hd).
  repeat (apply result_bind_ok in Hd as (? & _ & Hd)). by simplify_eq.
Qed.

End codec.

(** ** Properties *)

(** Decoding what was encoded gives back the event: if the application's
    decoder inverts its encoder on the event, an encoded pending event that the
    store gave a version and a position decodes to a record with the same
    event, the same metadata, that version and position and the schema's
    current alias and version. *)
Theorem encode_decode `{Unicode} r p a sid v pos :
  wf_registry r → encode r p = Ok a → 1 <= v → 1 <= pos →
  (∀ s b, _by_class r !! event_class (pe_event p) = Some s →
     encoder s (pe_event p) = Ok (PyBytes b) → decoder s b = Ok (pe_event p)) →
  ∃ s, _by_class r !! event_class (pe_event p) = Some s ∧
    decode r {| stream_id := sid; stream_version := v; global_position := pos; se_event := a |} =
    Ok {| re_stream_id := sid; re_stream_version := v; re_global_position := pos;
          re_event_type := alias s; re_schema_version := version s; re_event := pe_event p;
          re_metadata := pe_metadata p |}.
Proof. apply encode_decode_run. Qed.

(** Old events stay readable: for a registry built by [register], a stored
    event of any earlier schema version is passed through exactly the upcasters
    of the versions it has to catch up with, in order; the step limit is never
    hit and no upcaster is missing. *)
Theorem decode_upcasts `{Unicode} r stored s :
  wf_registry r → _frozen r = true →
  _by_alias r !! ee_event_type (encoded (se_event stored)) = Some s →
  1 <= ee_schema_version (encoded (se_event stored)) <= version s →
  decode r stored =
  (_ ← _validate_header_mapping (reg_limits r) (headers (ae_metadata (se_event stored)));
   payload ← _validate_payload r (PyBytes (ee_payload (encoded (se_event stored))));
   payload ← upcast_chain r s (Z.to_nat (version s - ee_schema_version (encoded (se_event stored))))
               (ee_schema_version (encoded (se_event stored))) payload;
   event ← wrapping EventCodecError (decoder s payload);
   _ ← raise_if (negb (event_class event =? event_type s)) EventCodecError;
   RecordedEvent_new (stream_id stored) (stream_version stored) (global_position stored)
     (alias s) (version s) event (ae_metadata (se_event stored))).
Proof.
  intros Hr Hf Hs Hv. destruct (wr_schema _ Hr _ _ Hs) as [Hwf Hmax].
  unfold decode, _require_frozen. rewrite Hf. simpl negb.
  rewrite raise_if_false, result_ok_bind. cbv beta zeta. rewrite Hs, result_ok_bind.
  rewrite (proj2 (Z.ltb_ge _ _)) by lia. rewrite raise_if_false, result_ok_bind.
  destruct (_validate_header_mapping _ _) as [[]|]; [|done]. rewrite !result_ok_bind.
  destruct (_validate_payload _ _) as [b|]; [|done]. rewrite !result_ok_bind.
  by rewrite upcast_loop_chain by (done || lia).
Qed.

(** ** A concrete registry *)

(** Printable ASCII. *)
Definition ascii_unicode : Unicode :=
  {| isprintable s := forallb (λ c, (32 <=? c) && (c <=? 126)) s |}.

(** Events of class 1 hold a byte string, encoded as it is; version 1 of the
    schema had a leading byte less. *)
Definition ex_encoder (e : Event) : result es_error pyobj := Ok (event_value e).
Definition ex_decoder (b : bytes) : result es_error Event :=
  Ok {| event_class := 1; event_value := PyBytes b |}.
Definition ex_upcaster (b : bytes) : result es_error pyobj := Ok (PyBytes (Byte.x00 :: b)).
Definition ex_schema : EventSchema :=
  {| alias := str "opened"; version := 2; event_type := 1; encoder := ex_encoder;
     decoder := ex_decoder; upcasters := {[ 1 := ex_upcaster ]} |}.
Definition ex_registry : EventSchemaRegistry :=
  {| reg_limits := EventSourcingLimits_default; _by_alias := {[ str "opened" := ex_schema ]};
     _by_class := {[ 1 := ex_schema ]}; _frozen := true |}.
Definition ex_event (b : bytes) : Event := {| event_class := 1; event_value := PyBytes b |}.
Definition ex_metadata (id : uuid) : EventMetadata :=
  {| event_id := id; occurred_at := Datetime 0 (Some 0); correlation_id := None;
     causation_id := Some 3; headers := [(str "k", str "v")] |}.
Definition ex_pending (id : uuid) (b : bytes) : PendingEvent :=
  {| pe_event := ex_event b; pe_metadata := ex_metadata id |}.
Definition ex_append (id : uuid) (b : bytes) : AppendEvent :=
  {| encoded := {| ee_event_type := str "opened"; ee_schema_version := 2; ee_payload := b |};
     ae_metadata := ex_metadata id |}.
Definition ex_stream : StreamId := {| category := str "task"; key := str "7" |}.

Lemma ex_schema_wf : @wf_schema ascii_unicode ex_schema.
Proof.
  apply (@EventSchema_new_wf ascii_unicode (PyStr (str "opened")) (PyInt 2) (Some 1)
           (Some ex_encoder) (Some ex_decoder) [(PyInt 1, Some ex_upcaster)]).
  reflexivity.
Qed.

Lemma ex_registry_wf : @wf_registry ascii_unicode ex_registry.
Proof.
  assert (@wf_registry ascii_unicode (freeze (register ex_schema
            (EventSchemaRegistry_new EventSourcingLimits_default)).2).2) as Hwf.
  { pose proof (@register_wf ascii_unicode ex_schema ex_schema_wf
      (EventSchemaRegistry_new EventSourcingLimits_default)) as [H1 H2 H3].
    - constructor; simpl; intros; by rewrite lookup_empty in *.
    - by constructor. }
  exact Hwf.
Qed.

Lemma encode_decode_witness :
  @encode ascii_unicode ex_registry (ex_pending 5 [Byte.x41]) = Ok (ex_append 5 [Byte.x41]) ∧
  ∃ s, @decode ascii_unicode ex_registry
         {| stream_id := ex_stream; stream_version := 1; global_position := 1;
            se_event := ex_append 5 [Byte.x41] |} =
       Ok {| re_stream_id := ex_stream; re_stream_version := 1; re_global_position := 1;
             re_event_type := alias s; re_schema_version := version s;
             re_event := ex_event [Byte.x41]; re_metadata := ex_metadata 5 |}.
Proof.
  split; [reflexivity|].
  destruct (@encode_decode ascii_unicode ex_registry (ex_pending 5 [Byte.x41])
              (ex_append 5 [Byte.x41]) ex_stream 1 1) as (s & _ & Hd).
  - exact ex_registry_wf.
  - reflexivity.
  - lia.
  - lia.
  - intros s b. vm_compute. intros [= <-] [= <-]. reflexivity.
  - exists s. exact Hd.
Defined.

(** A stored event of version 1, upcast. *)
Lemma decode_upcasts_witness :
  let stored := {| stream_id := ex_stream; stream_version := 1; global_position := 1;
                   se_event := {| encoded := {| ee_event_type := str "opened"; ee_schema_version := 1;
                                                ee_payload := [Byte.x41] |};
                                  ae_metadata := ex_metadata 5 |} |} in
  re_event <$> (match @decode ascii_unicode ex_registry stored with Ok x => Some x | Err _ => None end)
  = Some (ex_event [Byte.x00; Byte.x41]).
Proof.
  intros stored. rewrite (@decode_upcasts ascii_unicode ex_registry stored ex_schema).
  - reflexivity.
  - exact ex_registry_wf.
  - reflexivity.
  - reflexivity.
  - simpl. lia.
Defined.
