(* ===== verification/EsStore.v ===== *)
(** * Event sourcing: the in-memory event store

    [store.py] of [tori_py_cqrs_event_sourcing_core]: committed state, and
    transactions that read a snapshot and stage appends until they commit. A
    transaction works on a [session], the shared store with the transaction
    itself; a [database] holds several transactions on one store, which
    interleave between the calls. The argument [lock] of [__aenter__] and
    [commit] is what waiting for the store's lock gives: the wait may be
    cancelled. *)

From Stdlib Require Import ZArith Lia.
From stdpp Require Import base tactics list gmap strings.
From S2P Require Import Prelude EsEvents EsCodec.
Local Open Scope Z_scope.

Definition _position (value : pyobj) : result es_error Z :=
  match value with
  | PyInt z => if z <? 0 then Err EventStoreTransactionError else Ok z
  | _ => Err EventStoreTransactionError
  end.

Definition _limit (value : pyobj) (maximum : Z) : result es_error Z :=
  match value with
  | PyInt z =>
      if z <? 1 then Err ResourceLimitError
      else if maximum <? z then Err ResourceLimitError else Ok z
  | _ => Err ResourceLimitError
  end.

(** ** State *)

Inductive _TransactionState := NEW | ENTERING | ACTIVE | COMMITTING | COMMITTED | ROLLED_BACK.

#[export] Instance _TransactionState_eq_dec : EqDecision _TransactionState.
Proof. solve_decision. Defined.

Record _StagedAppend := {
  st_stream_id : StreamId;
  st_expected_version : Z;
  st_events : list AppendEvent
}.

Record _StoreState := {
  streams : gmap StreamId (list StoredEvent);
  events : list StoredEvent;
  event_ids : gset uuid
}.

Record InMemoryEventStore := { limits : EventSourcingLimits; _state : _StoreState }.

Record _InMemoryTransaction := {
  _tx_state : _TransactionState;
  _snapshot : gmap StreamId (list StoredEvent);
  _staged : list _StagedAppend;
  _staged_streams : gset StreamId;
  _staged_event_ids : gset uuid;
  _staged_event_count : Z;
  _staged_bytes : Z
}.

Definition InMemoryEventStore_new (l : EventSourcingLimits) : InMemoryEventStore :=
  {| limits := l; _state := {| streams := ∅; events := []; event_ids := ∅ |} |}.

Definition _InMemoryTransaction_new : _InMemoryTransaction :=
  {| _tx_state := NEW; _snapshot := ∅; _staged := []; _staged_streams := ∅;
     _staged_event_ids := ∅; _staged_event_count := 0; _staged_bytes := 0 |}.

Record session := Session { ses_store : InMemoryEventStore; ses_tx : _InMemoryTransaction }.

Abbreviation T := (M session es_error).

Definition set_tx (f : _InMemoryTransaction → _InMemoryTransaction) : T unit :=
  modify (λ s, Session (ses_store s) (f (ses_tx s))).

Definition with_state (st : _TransactionState) (t : _InMemoryTransaction) : _InMemoryTransaction :=
  {| _tx_state := st; _snapshot := _snapshot t; _staged := _staged t;
     _staged_streams := _staged_streams t; _staged_event_ids := _staged_event_ids t;
     _staged_event_count := _staged_event_count t; _staged_bytes := _staged_bytes t |}.

Definition with_snapshot (snap : gmap StreamId (list StoredEvent)) (t : _InMemoryTransaction)
    : _InMemoryTransaction :=
  {| _tx_state := _tx_state t; _snapshot := snap; _staged := _staged t;
     _staged_streams := _staged_streams t; _staged_event_ids := _staged_event_ids t;
     _staged_event_count := _staged_event_count t; _staged_bytes := _staged_bytes t |}.

Definition _clear_staged (t : _InMemoryTransaction) : _InMemoryTransaction :=
  {| _tx_state := _tx_state t; _snapshot := _snapshot t; _staged := [];
     _staged_streams := ∅; _staged_event_ids := ∅; _staged_event_count := 0;
     _staged_bytes := 0 |}.

(** [None] is an object that is no [StreamId]. *)
Definition _validate_stream_id (sid : option StreamId) : result es_error StreamId :=
  match sid with Some s => Ok s | None => Err EventStoreTransactionError end.

(** ** Reads of committed state *)

Definition store_read_stream (s : InMemoryEventStore) (sid : option StreamId)
    (after_version limit : pyobj) : result es_error (list StoredEvent) :=
  sid ← _validate_stream_id sid;
  after ← _position after_version;
  page_size ← _limit limit (read_page_size (limits s));
  Ok (py_slice (default [] (streams (_state s) !! sid)) after (after + page_size)).

Definition read_all (s : InMemoryEventStore) (after_position limit : pyobj)
    : result es_error (list StoredEvent) :=
  after ← _position after_position;
  page_size ← _limit limit (read_page_size (limits s));
  Ok (py_slice (events (_state s)) after (after + page_size)).

(** ** Transactions *)

Definition _require_active : T unit :=
  s ← get; throw_if (bool_decide (_tx_state (ses_tx s) ≠ ACTIVE)) EventStoreTransactionError.

Definition __aenter__ (lock : result es_error unit) : T unit :=
  s ← get;
  throw_if (bool_decide (_tx_state (ses_tx s) ≠ NEW)) EventStoreTransactionError;;
  set_tx (with_state ENTERING);;
  try_except
    (lift lock;; s ← get; set_tx (with_snapshot (streams (_state (ses_store s)))))
    (λ e, set_tx (with_state ROLLED_BACK);; raise e);;
  set_tx (with_state ACTIVE).

Definition rollback : T unit :=
  s ← get;
  if decide (_tx_state (ses_tx s) = ROLLED_BACK) then mret tt
  else
    throw_if (bool_decide (_tx_state (ses_tx s) ≠ ACTIVE)) EventStoreTransactionError;;
    set_tx (with_state ROLLED_BACK);;
    set_tx _clear_staged.

Definition __aexit__ : T unit :=
  s ← get; if decide (_tx_state (ses_tx s) = ACTIVE) then rollback else mret tt.

Definition read_stream (sid : option StreamId) (after_version limit : pyobj)
    : T (list StoredEvent) :=
  _require_active;;
  sid ← lift (_validate_stream_id sid);
  after ← lift (_position after_version);
  s ← get;
  page_size ← lift (_limit limit (read_page_size (EsStore.limits (ses_store s))));
  mret (py_slice (default [] (_snapshot (ses_tx s) !! sid)) after (after + page_size)).

Definition _validate_event_limits (l : EventSourcingLimits) (e : AppendEvent)
    : result es_error unit :=
  _ ← raise_if (max_payload_bytes l <? zlen (ee_payload (encoded e))) ResourceLimitError;
  _validate_header_mapping l (headers (ae_metadata e)).

(** [len(s.encode("utf-8"))] *)
Definition encoded_len (s : pystr) : result es_error Z :=
  match utf8_len s with Some n => Ok n | None => Err UnicodeEncodeError end.

Definition _encoded_size (e : AppendEvent) : result es_error Z :=
  t ← encoded_len (ee_event_type (encoded e));
  hs ← rfold (λ acc kv, n ← encoded_len kv.1; v ← encoded_len kv.2; Ok (acc + (n + v)))
         0 (headers (ae_metadata e));
  Ok (t + zlen (ee_payload (encoded e)) + hs).

(** The loop that looks for a repeated event ID. *)
Definition add_event_id (seen : gset uuid) (e : AppendEvent) : result es_error (gset uuid) :=
  if decide (ae_event_id e ∈ seen) then Err (DuplicateEventIdError (ae_event_id e))
  else Ok ({[ ae_event_id e ]} ∪ seen).

Definition add_size (l : EventSourcingLimits) (acc : Z) (e : AppendEvent) : result es_error Z :=
  _ ← _validate_event_limits l e;
  n ← _encoded_size e;
  Ok (acc + n).

(** An item of a batch; [None] is no [AppendEvent]. *)
Definition batch_item (e : option AppendEvent) : result es_error AppendEvent :=
  match e with Some e => Ok e | None => Err EventStoreTransactionError end.

Definition append (sid : option StreamId) (expected_version : pyobj)
    (batch : list (option AppendEvent)) : T unit :=
  _require_active;;
  sid ← lift (_validate_stream_id sid);
  expected ← lift (_position expected_version);
  s ← get;
  let t := ses_tx s in
  let l := EsStore.limits (ses_store s) in
  throw_if (bool_decide (sid ∈ _staged_streams t)) (DuplicateStreamAppendError sid);;
  throw_if (bool_decide (batch = [])) EventStoreTransactionError;;
  throw_if (max_events_per_append l <? zlen batch) ResourceLimitError;;
  batch ← lift (rmap batch_item batch);
  seen ← lift (rfold add_event_id (_staged_event_ids t) batch);
  let event_count := _staged_event_count t + zlen batch in
  throw_if (max_events_per_transaction l <? event_count) ResourceLimitError;;
  batch_bytes ← lift (rfold (add_size l) 0 batch);
  let transaction_bytes := _staged_bytes t + batch_bytes in
  throw_if (max_transaction_bytes l <? transaction_bytes) ResourceLimitError;;
  set_tx (λ t, {| _tx_state := _tx_state t; _snapshot := _snapshot t;
                  _staged := _staged t ++ [{| st_stream_id := sid; st_expected_version := expected;
                                              st_events := batch |}];
                  _staged_streams := {[ sid ]} ∪ _staged_streams t;
                  _staged_event_ids := list_to_set (ae_event_id <$> batch) ∪ _staged_event_ids t;
                  _staged_event_count := event_count; _staged_bytes := transaction_bytes |}).

(** ** Commit *)

Definition validate_staged (st : _StoreState) (seen : gset uuid) (staged : _StagedAppend)
    : result es_error (gset uuid) :=
  let actual := zlen (default [] (streams st !! st_stream_id staged)) in
  _ ← raise_if (negb (actual =? st_expected_version staged))
        (OptimisticConcurrencyError (st_stream_id staged) (st_expected_version staged) actual);
  rfold add_event_id seen (st_events staged).

Definition _validate_commit (st : _StoreState) (staged : list _StagedAppend)
    : result es_error unit :=
  _ ← rfold (validate_staged st) (event_ids st) staged; Ok tt.

(** The events of one staged append, from the [offset]-th on. *)
Fixpoint build_batch (sid : StreamId) (expected offset global_position : Z)
    (batch : list AppendEvent) : result es_error (list StoredEvent) :=
  match batch with
  | [] => Ok []
  | e :: batch =>
      s ← StoredEvent_new sid (expected + offset) (global_position + 1) e;
      rest ← build_batch sid expected (offset + 1) (global_position + 1) batch;
      Ok (s :: rest)
  end.

Fixpoint build_all (global_position : Z) (staged : list _StagedAppend)
    : result es_error (list StoredEvent) :=
  match staged with
  | [] => Ok []
  | a :: staged =>
      b ← build_batch (st_stream_id a) (st_expected_version a) 1 global_position (st_events a);
      rest ← build_all (global_position + zlen b) staged;
      Ok (b ++ rest)
  end.

Definition _build_committed_events (st : _StoreState) (staged : list _StagedAppend)
    : result es_error (list StoredEvent) :=
  build_all (zlen (events st)) staged.

(** [additions.setdefault(event.stream_id, []).append(event)] *)
Definition add_to (additions : list (StreamId * list StoredEvent)) (e : StoredEvent)
    : list (StreamId * list StoredEvent) :=
  dict_set additions (stream_id e) (default [] (dict_get additions (stream_id e)) ++ [e]).

Definition _build_store_state (st : _StoreState) (committed : list StoredEvent) : _StoreState :=
  let additions := foldl add_to [] committed in
  {| streams := foldl (λ m kv, <[kv.1 := default [] (m !! kv.1) ++ kv.2]> m) (streams st) additions;
     events := events st ++ committed;
     event_ids := event_ids st ∪ list_to_set (se_event_id <$> committed) |}.

Definition commit (lock : result es_error unit) : T CommitResult :=
  _require_active;;
  set_tx (with_state COMMITTING);;
  result ← try_except
    (lift lock;;
     s ← get;
     lift (_validate_commit (_state (ses_store s)) (_staged (ses_tx s)));;
     committed ← lift (_build_committed_events (_state (ses_store s)) (_staged (ses_tx s)));
     modify (λ s, Session {| limits := EsStore.limits (ses_store s);
                             _state := _build_store_state (_state (ses_store s)) committed |}
                    (ses_tx s));;
     mret {| cr_events := committed |})
    (λ e, set_tx (with_state ROLLED_BACK);; set_tx _clear_staged;; raise e);
  set_tx (with_state COMMITTED);;
  set_tx _clear_staged;;
  mret result.

(** ** Several transactions on one store *)

Record database := { db_store : InMemoryEventStore; db_txs : gmap Z _InMemoryTransaction }.

Definition on_tx {A} (i : Z) (m : T A) : M database es_error A :=
  λ d, match db_txs d !! i with
       | Some t =>
           match m (Session (db_store d) t) with
           | (r, s) => (r, {| db_store := ses_store s; db_txs := <[i := ses_tx s]> (db_txs d) |})
           end
       | None => (Err EventStoreTransactionError, d)
       end.

(** [store.transaction()]: a new transaction object. *)
Definition transaction (i : Z) (d : database) : database :=
  {| db_store := db_store d; db_txs := <[i := _InMemoryTransaction_new]> (db_txs d) |}.
