(* ===== verification/EsStoreFacts.v ===== *)
(** * Event sourcing: what the store guarantees

    The invariant of committed state ([store_wf]: one global sequence, every
    stream its projection, versions and positions without gaps, event IDs
    unique), the invariant of a transaction, and the meaning of a commit; both
    invariants hold in every state several transactions reach in any order. *)

From Stdlib Require Import ZArith Lia.
From stdpp Require Import base tactics list gmap strings.
From S2P Require Import Prelude EsEvents EsCodec EsStore.
Local Open Scope Z_scope.

(** ** Specifications *)

Definition of_stream (sid : StreamId) (es : list StoredEvent) : list StoredEvent :=
  filter (λ e, stream_id e = sid) es.

(** Stream versions and global positions count from one without gaps. *)
Record store_wf (st : _StoreState) : Prop := {
  sw_position : ∀ i e, events st !! i = Some e → global_position e = Z.of_nat i + 1;
  sw_stream : ∀ sid, default [] (streams st !! sid) = of_stream sid (events st);
  sw_version : ∀ sid i e, of_stream sid (events st) !! i = Some e →
    stream_version e = Z.of_nat i + 1;
  sw_ids : event_ids st = list_to_set (se_event_id <$> events st);
  sw_unique : NoDup (se_event_id <$> events st)
}.

Definition stream_of (st : _StoreState) (sid : StreamId) : list StoredEvent :=
  default [] (streams st !! sid).

(** What a transaction has staged: each stream once, each event ID once. *)
Record tx_wf (t : _InMemoryTransaction) : Prop := {
  tw_streams : NoDup (st_stream_id <$> _staged t);
  tw_streams_set : _staged_streams t = list_to_set (st_stream_id <$> _staged t);
  tw_expected : Forall (λ a, 0 <= st_expected_version a) (_staged t);
  tw_ids : _staged_event_ids t = list_to_set (ae_event_id <$> concat (st_events <$> _staged t));
  tw_ids_unique : NoDup (ae_event_id <$> concat (st_events <$> _staged t))
}.

(** The events a batch becomes. *)
Definition numbered (sid : StreamId) (version position : Z) (batch : list AppendEvent)
    : list StoredEvent :=
  imap (λ i e, {| stream_id := sid; stream_version := version + Z.of_nat i + 1;
                  global_position := position + Z.of_nat i + 1; se_event := e |}) batch.

Fixpoint numbered_all (position : Z) (staged : list _StagedAppend) : list StoredEvent :=
  match staged with
  | [] => []
  | a :: staged =>
      numbered (st_stream_id a) (st_expected_version a) position (st_events a)
      ++ numbered_all (position + zlen (st_events a)) staged
  end.

(** When a commit may go through. *)
Definition committable (st : _StoreState) (staged : list _StagedAppend) : Prop :=
  Forall (λ a, zlen (stream_of st (st_stream_id a)) = st_expected_version a) staged ∧
  NoDup (ae_event_id <$> concat (st_events <$> staged)) ∧
  ∀ e, e ∈ concat (st_events <$> staged) → ae_event_id e ∉ event_ids st.

(** ** Checking and building a commit *)

Lemma elem_of_staged e (staged : list _StagedAppend) :
  e ∈ concat (st_events <$> staged) ↔ ∃ a, a ∈ staged ∧ e ∈ st_events a.
Proof.
  induction staged as [|a staged IH]; simpl.
  - split; [by intros ?%elem_of_nil|]. by intros (a & ?%elem_of_nil & _).
  - rewrite elem_of_app, IH. setoid_rewrite elem_of_cons. naive_solver.
Qed.

Lemma add_event_ids_ok seen es seen' :
  rfold add_event_id seen es = Ok seen' ↔
  NoDup (ae_event_id <$> es) ∧ (∀ e, e ∈ es → ae_event_id e ∉ seen) ∧
  seen' = list_to_set (ae_event_id <$> es) ∪ seen.
Proof.
  revert seen. induction es as [|e es IH]; intros seen; simpl.
  - split; [intros; simplify_eq|intros (_ & _ & ->)]; [|f_equal; set_solver].
    split_and!; [constructor|set_solver|set_solver].
  - destruct (decide (ae_event_id e ∈ seen)) as [Hin|Hnin].
    + assert (add_event_id seen e = Err (DuplicateEventIdError (ae_event_id e))) as ->
        by (unfold add_event_id; by rewrite decide_True).
      split; [done|]. intros (_ & Hall & _). destruct (Hall e); [left|done].
    + assert (add_event_id seen e = Ok ({[ae_event_id e]} ∪ seen)) as ->
        by (unfold add_event_id; by rewrite decide_False).
      rewrite result_ok_bind, IH, NoDup_cons. split.
      * intros (Hnd & Hall & ->). split_and!; [|done| |set_solver].
        -- intros (x & Hx & Hin)%list_elem_of_fmap. apply (Hall x Hin). rewrite <- Hx. set_solver.
        -- intros x [->|Hx]%elem_of_cons; [done|]. specialize (Hall x Hx). set_solver.
      * intros ([Hni Hnd] & Hall & ->). split_and!; [done| |set_solver].
        intros x Hx. rewrite elem_of_union, elem_of_singleton. intros [Heq|Hin].
        -- apply Hni. rewrite <- Heq. by apply list_elem_of_fmap_2.
        -- apply (Hall x); [by right|done].
Qed.

Lemma validate_staged_ok st seen staged seen' :
  rfold (validate_staged st) seen staged = Ok seen' ↔
  Forall (λ a, zlen (stream_of st (st_stream_id a)) = st_expected_version a) staged ∧
  rfold add_event_id seen (concat (st_events <$> staged)) = Ok seen'.
Proof.
  revert seen. induction staged as [|a staged IH]; intros seen; simpl.
  - rewrite Forall_nil. naive_solver.
  - rewrite Forall_cons.
    assert (validate_staged st seen a =
      (_ ← raise_if (negb (zlen (stream_of st (st_stream_id a)) =? st_expected_version a))
             (OptimisticConcurrencyError (st_stream_id a) (st_expected_version a)
                (zlen (stream_of st (st_stream_id a))));
       rfold add_event_id seen (st_events a))) as -> by done.
    destruct (Z.eqb_spec (zlen (stream_of st (st_stream_id a))) (st_expected_version a)) as [Heq|Hne];
      r_simpl; [|naive_solver].
    assert (∀ l k, rfold add_event_id seen (l ++ k) =
              (s ← rfold add_event_id seen l; rfold add_event_id s k)) as Happ.
    { clear. intros l. revert seen. induction l as [|x l IHl]; intros seen k; simpl; [done|].
      destruct (add_event_id seen x); r_simpl; [apply IHl|done]. }
    rewrite Happ. destruct (rfold add_event_id seen (st_events a)) as [s|]; r_simpl; [|naive_solver].
    rewrite IH. naive_solver.
Qed.

Lemma validate_commit_ok st staged :
  _validate_commit st staged = Ok tt ↔ committable st staged.
Proof.
  unfold _validate_commit, committable. split.
  - intros Hv. apply result_bind_ok in Hv as (seen & Hv & _).
    apply validate_staged_ok in Hv as [Hf (Hnd & Hall & _)%add_event_ids_ok]. done.
  - intros (Hf & Hnd & Hall).
    assert (rfold (validate_staged st) (event_ids st) staged =
            Ok (list_to_set (ae_event_id <$> concat (st_events <$> staged)) ∪ event_ids st)) as ->.
    { apply validate_staged_ok. split; [done|]. by apply add_event_ids_ok. }
    done.
Qed.

Lemma build_batch_ok sid expected offset position batch :
  0 <= expected → 1 <= offset → 0 <= position →
  build_batch sid expected offset position batch =
  Ok (numbered sid (expected + offset - 1) position batch).
Proof.
  unfold numbered. revert offset position.
  induction batch as [|e batch IH]; intros offset position He Ho Hp; simpl; [done|].
  rewrite (proj2 (StoredEvent_new_ok _ _ _ _ _)) by (split_and!; [lia|lia|reflexivity]).
  r_simpl. rewrite IH by lia. r_simpl. f_equal. f_equal.
  - f_equal; lia.
  - apply imap_ext. intros i x _. simpl. f_equal; lia.
Qed.

Lemma build_all_ok position staged :
  0 <= position → Forall (λ a, 0 <= st_expected_version a) staged →
  build_all position staged = Ok (numbered_all position staged).
Proof.
  intros Hp Hf. revert position Hp. induction Hf as [|a staged Ha Hf IH]; intros position Hp; simpl; [done|].
  rewrite build_batch_ok by lia. r_simpl.
  replace (st_expected_version a + 1 - 1) with (st_expected_version a) by lia.
  assert (zlen (numbered (st_stream_id a) (st_expected_version a) position (st_events a)) =
          zlen (st_events a)) as -> by (unfold zlen, numbered; by rewrite length_imap).
  rewrite IH by (pose proof (zlen_nonneg (st_events a)); lia). done.
Qed.

Lemma numbered_events sid v p batch : se_event <$> numbered sid v p batch = batch.
Proof.
  apply list_eq. intros i. unfold numbered. rewrite list_lookup_fmap, list_lookup_imap.
  by destruct (batch !! i).
Qed.

Lemma numbered_all_events p staged :
  se_event <$> numbered_all p staged = concat (st_events <$> staged).
Proof.
  revert p. induction staged as [|a staged IH]; intros p; simpl; [done|].
  by rewrite fmap_app, numbered_events, IH.
Qed.

Lemma numbered_all_length p staged :
  length (numbered_all p staged) = length (concat (st_events <$> staged)).
Proof. by rewrite <- (numbered_all_events p), length_fmap. Qed.

Lemma numbered_lookup sid v p batch i e :
  numbered sid v p batch !! i = Some e →
  stream_id e = sid ∧ stream_version e = v + Z.of_nat i + 1 ∧
  global_position e = p + Z.of_nat i + 1.
Proof. unfold numbered. rewrite list_lookup_imap. intros (x & _ & ->)%fmap_Some. done. Qed.

Lemma numbered_all_position p staged i e :
  numbered_all p staged !! i = Some e → global_position e = p + Z.of_nat i + 1.
Proof.
  revert p i. induction staged as [|a staged IH]; intros p i; simpl; [done|].
  intros [He|[Hlen He]]%lookup_app_Some; [by eapply numbered_lookup|].
  apply IH in He. unfold numbered in *. rewrite length_imap in *. unfold zlen in He. lia.
Qed.

Lemma of_stream_app sid a b : of_stream sid (a ++ b) = of_stream sid a ++ of_stream sid b.
Proof. apply filter_app. Qed.

Lemma of_stream_numbered sid sid' v p batch :
  of_stream sid (numbered sid' v p batch) =
  if decide (sid' = sid) then numbered sid' v p batch else [].
Proof.
  assert (Forall (λ e, stream_id e = sid') (numbered sid' v p batch)) as Hf.
  { apply Forall_lookup. intros i e He. by eapply numbered_lookup. }
  unfold of_stream. case_decide as E.
  - induction Hf; [done|]. rewrite filter_cons, decide_True by congruence. by f_equal.
  - induction Hf; [done|]. by rewrite filter_cons, decide_False by congruence.
Qed.

(** The new events of a stream: those of the one append staged for it. *)
Lemma of_stream_numbered_all sid p staged :
  NoDup (st_stream_id <$> staged) →
  of_stream sid (numbered_all p staged) = [] ∧ (sid ∉ st_stream_id <$> staged) ∨
  ∃ a q, a ∈ staged ∧ st_stream_id a = sid ∧
    of_stream sid (numbered_all p staged) =
    numbered sid (st_expected_version a) q (st_events a).
Proof.
  revert p. induction staged as [|a staged IH]; intros p; simpl; [set_solver|].
  rewrite NoDup_cons. intros [Hni Hnd]. rewrite of_stream_app, of_stream_numbered.
  destruct (decide (st_stream_id a = sid)) as [<-|Hne].
  - right. exists a, p. split_and!; [set_solver|done|].
    destruct (IH (p + zlen (st_events a)) Hnd) as [[-> _]|(b & q & Hb & Heq & _)].
    + by rewrite app_nil_r.
    + destruct Hni. rewrite <- Heq. by apply list_elem_of_fmap_2.
  - destruct (IH (p + zlen (st_events a)) Hnd) as [[-> Hn]|(b & q & Hb & Heq & ->)].
    + left. set_solver.
    + right. exists b, q. set_solver.
Qed.

(** ** The new state *)

Lemma add_to_get additions es sid :
  default [] (dict_get (foldl add_to additions es) sid) =
  default [] (dict_get additions sid) ++ of_stream sid es.
Proof.
  revert additions. induction es as [|e es IH]; intros additions; simpl; [by rewrite app_nil_r|].
  rewrite IH. unfold add_to. rewrite dict_get_set. unfold of_stream. rewrite filter_cons.
  destruct (decide (stream_id e = sid)) as [<-|]; simpl; [|done]. by rewrite <- app_assoc.
Qed.

Lemma add_to_NoDup additions es :
  NoDup additions.*1 → NoDup (foldl add_to additions es).*1.
Proof.
  revert additions. induction es as [|e es IH]; intros additions Hd; simpl; [done|].
  apply IH. by apply dict_set_NoDup.
Qed.

Lemma add_all_streams (additions : list (StreamId * list StoredEvent))
    (m : gmap StreamId (list StoredEvent)) sid :
  NoDup additions.*1 →
  default [] (foldl (λ m kv, <[kv.1 := default [] (m !! kv.1) ++ kv.2]> m) m additions !! sid) =
  default [] (m !! sid) ++ default [] (dict_get additions sid).
Proof.
  revert m. induction additions as [|[k v] additions IH]; intros m; simpl; [by rewrite app_nil_r|].
  rewrite NoDup_cons. intros [Hk Hd]. rewrite IH by done. rewrite dict_get_cons, lookup_insert.
  destruct (decide (k = sid)) as [->|]; simpl; [|done].
  assert (dict_get additions sid = None) as ->; [|by rewrite app_nil_r].
  clear -Hk. induction additions as [|[k' v'] d IH]; [done|]. rewrite dict_get_cons.
  rewrite decide_False by set_solver. apply IH. set_solver.
Qed.

Lemma build_store_streams st committed sid :
  stream_of (_build_store_state st committed) sid = stream_of st sid ++ of_stream sid committed.
Proof.
  unfold stream_of. simpl. rewrite add_all_streams by (apply add_to_NoDup; constructor).
  by rewrite add_to_get.
Qed.

Lemma se_ids_fmap (es : list StoredEvent) : se_event_id <$> es = ae_event_id <$> (se_event <$> es).
Proof. by rewrite <- list_fmap_compose. Qed.

(** A commit keeps the invariant of the store. *)
Lemma store_wf_commit st staged :
  store_wf st → committable st staged → NoDup (st_stream_id <$> staged) →
  store_wf (_build_store_state st (numbered_all (zlen (events st)) staged)).
Proof.
  intros [Hpos Hstr Hver Hids Huniq] (Hexp & Hnd & Hfresh) Hstreams.
  set (new := numbered_all (zlen (events st)) staged).
  assert (se_event_id <$> new = ae_event_id <$> concat (st_events <$> staged)) as Hnew.
  { by rewrite se_ids_fmap, <- (numbered_all_events (zlen (events st))). }
  constructor; simpl.
  - intros i e [He|[Hlen He]]%lookup_app_Some; [by apply Hpos|].
    apply numbered_all_position in He. unfold zlen in He. lia.
  - intros sid. pose proof (build_store_streams st new sid) as E. unfold stream_of in E.
    simpl in E. by rewrite E, Hstr, of_stream_app.
  - intros sid i e. rewrite of_stream_app. intros [He|[Hlen He]]%lookup_app_Some; [by eapply Hver|].
    destruct (of_stream_numbered_all sid (zlen (events st)) staged Hstreams)
      as [[E _]|(a & q & Ha & <- & E)]; fold new in E; rewrite E in He; [done|].
    apply numbered_lookup in He as (_ & -> & _). rewrite Forall_forall in Hexp.
    specialize (Hexp a Ha). unfold stream_of in Hexp. rewrite Hstr in Hexp. unfold zlen in Hexp. lia.
  - by rewrite Hids, fmap_app, list_to_set_app_L.
  - rewrite fmap_app, Hnew. apply NoDup_app. split_and!; [done| |done].
    intros x Hx (e & -> & He)%list_elem_of_fmap. apply (Hfresh e He). rewrite Hids.
    by apply elem_of_list_to_set.
Qed.

(** ** Commit *)

Definition committed_store (s : session) : InMemoryEventStore :=
  {| limits := EsStore.limits (ses_store s);
     _state := _build_store_state (_state (ses_store s))
       (numbered_all (zlen (events (_state (ses_store s)))) (_staged (ses_tx s))) |}.

Lemma run_bind_set_tx {B} f (k : unit → T B) s :
  (set_tx f ≫= k) s = k tt (Session (ses_store s) (f (ses_tx s))).
Proof. unfold set_tx. by autorewrite with mrun. Qed.
Lemma run_set_tx f s : set_tx f s = (Ok tt, Session (ses_store s) (f (ses_tx s))).
Proof. done. Qed.
Lemma run_bind_require_active {B} (k : unit → T B) s :
  (_require_active ≫= k) s =
  if decide (_tx_state (ses_tx s) = ACTIVE) then k tt s else (Err EventStoreTransactionError, s).
Proof.
  unfold _require_active. autorewrite with mrun.
  destruct (decide (_tx_state (ses_tx s) = ACTIVE)) as [E|E].
  - rewrite bool_decide_eq_false_2 by (rewrite E; auto). by autorewrite with mrun.
  - by rewrite bool_decide_eq_true_2.
Qed.
#[export] Hint Rewrite @run_bind_set_tx @run_set_tx @run_bind_require_active : mrun.

(** A commit either fails and leaves the store alone, or every staged append
    fits the committed state and all of them are added at once. *)
Lemma commit_run lock s :
  tx_wf (ses_tx s) → _tx_state (ses_tx s) = ACTIVE →
  commit lock s =
  match lock with
  | Err e => (Err e, Session (ses_store s) (_clear_staged (with_state ROLLED_BACK (ses_tx s))))
  | Ok tt =>
      match _validate_commit (_state (ses_store s)) (_staged (ses_tx s)) with
      | Err e => (Err e, Session (ses_store s) (_clear_staged (with_state ROLLED_BACK (ses_tx s))))
      | Ok tt =>
          (Ok {| cr_events := numbered_all (zlen (events (_state (ses_store s)))) (_staged (ses_tx s)) |},
           Session (committed_store s) (_clear_staged (with_state COMMITTED (ses_tx s))))
      end
  end.
Proof.
  intros Ht Hact. unfold commit. autorewrite with mrun. rewrite decide_True by done.
  autorewrite with mrun.
  assert (∀ r s1 s2, (lift lock;; s0 ← get;
     lift (_validate_commit (_state (ses_store s0)) (_staged (ses_tx s0)));;
     committed ← lift (_build_committed_events (_state (ses_store s0)) (_staged (ses_tx s0)));
     modify (λ s, Session {| limits := EsStore.limits (ses_store s);
                             _state := _build_store_state (_state (ses_store s)) committed |}
                    (ses_tx s));;
     mret {| cr_events := committed |}) s1 = (r, s2) →
    s1 = Session (ses_store s) (with_state COMMITTING (ses_tx s)) →
    (r, s2) = match lock with
    | Err e => (Err e, s1)
    | Ok tt => match _validate_commit (_state (ses_store s)) (_staged (ses_tx s)) with
       | Err e => (Err e, s1)
       | Ok tt => (Ok {| cr_events := numbered_all (zlen (events (_state (ses_store s)))) (_staged (ses_tx s)) |},
                   Session (committed_store s) (with_state COMMITTING (ses_tx s)))
       end
    end) as Hbody.
  { intros r s1 s2 Hrun ->. autorewrite with mrun in Hrun. destruct lock as [[]|e]; [|by rewrite <- Hrun].
    autorewrite with mrun in Hrun. simpl in Hrun.
    destruct (_validate_commit _ _) as [[]|e]; [|by rewrite <- Hrun].
    unfold _build_committed_events in Hrun.
    rewrite build_all_ok in Hrun by (apply zlen_nonneg || apply Ht).
    autorewrite with mrun in Hrun. by rewrite <- Hrun. }
  match goal with |- (try_except ?m ?h ≫= ?k) ?s1 = _ =>
    destruct (m s1) as [r s2] eqn:Hrun; specialize (Hbody r s1 s2 Hrun eq_refl);
    assert (try_except m h s1 = match r with Ok a => (Ok a, s2) | Err e => h e s2 end) as Htry
      by (unfold try_except; rewrite Hrun; by destruct r)
  end.
  destruct lock as [[]|e]; [destruct (_validate_commit _ _) as [[]|e]|]; injection Hbody as -> ->.
  - rewrite (M_bind_run _ _ _ _ _ Htry). autorewrite with mrun. done.
  - autorewrite with mrun in Htry. simpl in Htry. by rewrite (M_bind_eq _ _ _ _ _ Htry).
  - autorewrite with mrun in Htry. simpl in Htry. by rewrite (M_bind_eq _ _ _ _ _ Htry).
Qed.

Lemma tx_wf_empty t : _staged t = [] → _staged_streams t = ∅ → _staged_event_ids t = ∅ → tx_wf t.
Proof. intros E1 E2 E3. by constructor; rewrite ?E1, ?E2, ?E3; simpl; try constructor. Qed.

Lemma tx_wf_state st t : tx_wf t → tx_wf (with_state st t).
Proof. intros []. by constructor. Qed.
Lemma tx_wf_snapshot m t : tx_wf t → tx_wf (with_snapshot m t).
Proof. intros []. by constructor. Qed.
Lemma tx_wf_clear t : tx_wf (_clear_staged t).
Proof. by apply tx_wf_empty. Qed.
#[export] Hint Resolve tx_wf_state tx_wf_snapshot tx_wf_clear : tori.

Lemma batch_items_ok l k : rmap batch_item l = Ok k → l = Some <$> k.
Proof.
  revert k. induction l as [|x l IH]; intros k Hk; simpl in Hk; [by simplify_eq|].
  apply result_bind_ok in Hk as (y & Hy & Hk). apply result_bind_ok in Hk as (ys & Hys & Hk).
  simplify_eq. destruct x; [|done]. simpl in Hy. simplify_eq. simpl. f_equal. auto.
Qed.

(** Staging: on success the batch is added to what is staged, and nothing else
    changes; on failure nothing does. *)
Lemma append_run sid expected batch s r s' :
  append sid expected batch s = (r, s') →
  (s' = s ∧ ∃ e, r = Err e) ∨
  ∃ sid' v es, sid = Some sid' ∧ expected = PyInt v ∧ 0 <= v ∧ batch = Some <$> es ∧ es ≠ [] ∧
    r = Ok tt ∧ _tx_state (ses_tx s) = ACTIVE ∧
    (sid' ∉ _staged_streams (ses_tx s)) ∧ NoDup (ae_event_id <$> es) ∧
    (∀ e, e ∈ es → ae_event_id e ∉ _staged_event_ids (ses_tx s)) ∧
    ses_store s' = ses_store s ∧ _tx_state (ses_tx s') = ACTIVE ∧
    _snapshot (ses_tx s') = _snapshot (ses_tx s) ∧
    _staged (ses_tx s') = _staged (ses_tx s) ++
      [{| st_stream_id := sid'; st_expected_version := v; st_events := es |}] ∧
    _staged_streams (ses_tx s') = {[ sid' ]} ∪ _staged_streams (ses_tx s) ∧
    _staged_event_ids (ses_tx s') = list_to_set (ae_event_id <$> es) ∪ _staged_event_ids (ses_tx s).
Proof.
  unfold append. intros Hrun. autorewrite with mrun in Hrun.
  destruct (decide (_tx_state (ses_tx s) = ACTIVE)) as [Hact|]; [|simplify_eq; eauto].
  autorewrite with mrun in Hrun. destruct sid as [sid'|]; simpl in Hrun; [|simplify_eq; eauto].
  autorewrite with mrun in Hrun.
  destruct (_position expected) as [v|] eqn:Hpos; [|simplify_eq; eauto]. autorewrite with mrun in Hrun.
  case_bool_decide as Hst; [simplify_eq; eauto|]. autorewrite with mrun in Hrun.
  case_bool_decide as Hne; [simplify_eq; eauto|]. autorewrite with mrun in Hrun.
  destruct (_ <? zlen batch); [simplify_eq; eauto|]. autorewrite with mrun in Hrun.
  destruct (rmap batch_item batch) as [es|] eqn:Hes; [|simplify_eq; eauto].
  autorewrite with mrun in Hrun.
  destruct (rfold add_event_id _ es) as [seen|] eqn:Hids; [|simplify_eq; eauto].
  apply add_event_ids_ok in Hids as (Hnd & Hfresh & _). autorewrite with mrun in Hrun.
  destruct (_ <? _ + zlen es); [simplify_eq; eauto|]. autorewrite with mrun in Hrun.
  destruct (rfold (add_size _) 0 es) as [bytes|]; [|simplify_eq; eauto].
  autorewrite with mrun in Hrun. destruct (_ <? _); [simplify_eq; eauto|].
  autorewrite with mrun in Hrun. simplify_eq. apply batch_items_ok in Hes as ->.
  right. destruct expected; try done. simpl in Hpos. destruct (Z.ltb_spec z 0); [done|]. simplify_eq.
  exists sid', v, es. split_and!; try done. intros ->. done.
Qed.

Lemma tx_wf_append sid expected batch s :
  tx_wf (ses_tx s) → tx_wf (ses_tx (append sid expected batch s).2).
Proof.
  intros Ht. destruct (append sid expected batch s) as [r s'] eqn:Hrun. simpl.
  apply append_run in Hrun as [[-> _]|(sid' & v & es & -> & -> & Hv & -> & Hne & -> & Hact & Hnst &
    Hnd & Hfresh & _ & _ & _ & Est & Estr & Eids)]; [done|].
  destruct Ht as [H1 H2 H3 H4 H5].
  constructor; rewrite ?Est, ?Estr, ?Eids, ?fmap_app, ?concat_app; simpl; rewrite ?app_nil_r, ?fmap_app.
  - apply NoDup_app. split_and!; [done| |apply NoDup_singleton].
    intros x Hx ->%list_elem_of_singleton. apply Hnst. rewrite H2. by apply elem_of_list_to_set.
  - rewrite H2, list_to_set_app_L. simpl. set_solver.
  - apply Forall_app. split; [done|]. by apply Forall_singleton.
  - rewrite H4, list_to_set_app_L. set_solver.
  - apply NoDup_app. split_and!; [done| |done].
    intros x Hx (e & -> & He)%list_elem_of_fmap. apply (Hfresh e He). rewrite H4.
    by apply elem_of_list_to_set.
Qed.

(** ** Databases *)

Inductive db_op :=
| DbTransaction (i : Z)
| DbEnter (i : Z) (lock : result es_error unit)
| DbAppend (i : Z) (sid : option StreamId) (expected : pyobj) (batch : list (option AppendEvent))
| DbCommit (i : Z) (lock : result es_error unit)
| DbRollback (i : Z)
| DbExit (i : Z).

Definition db_exec (op : db_op) (d : database) : database :=
  match op with
  | DbTransaction i => if decide (is_Some (db_txs d !! i)) then d else transaction i d
  | DbEnter i lock => (on_tx i (__aenter__ lock) d).2
  | DbAppend i sid v b => (on_tx i (append sid v b) d).2
  | DbCommit i lock => (on_tx i (commit lock) d).2
  | DbRollback i => (on_tx i rollback d).2
  | DbExit i => (on_tx i __aexit__ d).2
  end.

Inductive db_reachable (l : EventSourcingLimits) : database → Prop :=
| db_new : db_reachable l {| db_store := InMemoryEventStore_new l; db_txs := ∅ |}
| db_step d op : db_reachable l d → db_reachable l (db_exec op d).

(** Nothing committed is ever lost or reordered. *)
Definition extends (st st' : _StoreState) : Prop :=
  events st `prefix_of` events st' ∧
  ∀ sid, stream_of st sid `prefix_of` stream_of st' sid.

Definition session_wf (s : session) : Prop :=
  store_wf (_state (ses_store s)) ∧ tx_wf (ses_tx s) ∧
  ∀ sid, default [] (_snapshot (ses_tx s) !! sid) `prefix_of` stream_of (_state (ses_store s)) sid.

Record db_wf (d : database) : Prop := {
  dw_store : store_wf (_state (db_store d));
  dw_tx : ∀ i t, db_txs d !! i = Some t → session_wf (Session (db_store d) t)
}.

Lemma extends_refl st : extends st st.
Proof. done. Qed.

Lemma extends_commit st new : extends st (_build_store_state st new).
Proof.
  split; [simpl; by apply prefix_app_r|]. intros sid. rewrite build_store_streams.
  by apply prefix_app_r.
Qed.

(** Every call on a transaction keeps the session well formed and only adds to
    the store. *)
Definition tx_call {A} (m : T A) : Prop :=
  ∀ s, session_wf s →
    session_wf (m s).2 ∧ extends (_state (ses_store s)) (_state (ses_store (m s).2)) ∧
    EsStore.limits (ses_store (m s).2) = EsStore.limits (ses_store s).

Lemma tx_call_local {A} (m : T A) :
  (∀ s, ses_store (m s).2 = ses_store s) → (∀ s, _snapshot (ses_tx (m s).2) = _snapshot (ses_tx s)) →
  (∀ s, tx_wf (ses_tx s) → tx_wf (ses_tx (m s).2)) → tx_call m.
Proof.
  intros H1 H2 H3 s (Hs & Ht & Hp). rewrite H1. split_and!; [|apply extends_refl|done].
  unfold session_wf. rewrite H1, H2. auto.
Qed.

Lemma tx_call_append sid v b : tx_call (append sid v b).
Proof.
  apply tx_call_local; [| |intros s; apply tx_wf_append];
    intros s; destruct (append sid v b s) as [r s'] eqn:Hrun; simpl;
    apply append_run in Hrun as [[-> _]|(? & ? & ? & _ & _ & _ & _ & _ & _ & _ & _ & _ & _ & ? & _ & ? & _)];
    done.
Qed.

Lemma tx_call_rollback : tx_call rollback.
Proof.
  apply tx_call_local; intros s; unfold rollback; autorewrite with mrun;
    destruct (decide (_tx_state (ses_tx s) = ROLLED_BACK)); autorewrite with mrun; try done;
    case_bool_decide; autorewrite with mrun; simpl; auto with tori.
Qed.

Lemma tx_call_exit : tx_call __aexit__.
Proof.
  intros s Hs. unfold __aexit__. autorewrite with mrun.
  destruct (decide _); [by apply tx_call_rollback|]. split_and!; [done|apply extends_refl|done].
Qed.

Lemma tx_call_enter lock : tx_call (__aenter__ lock).
Proof.
  intros s (Hs & Ht & Hp). unfold __aenter__. autorewrite with mrun.
  case_bool_decide; [simpl; split_and!; [done|apply extends_refl|done]|]. autorewrite with mrun.
  destruct lock as [[]|e]; unfold try_except, mbind, M_bind; simpl.
  - split_and!; [|apply extends_refl|done]. split_and!; simpl; auto with tori.
  - split_and!; [|apply extends_refl|done]. split_and!; simpl; auto with tori.
Qed.

Lemma tx_call_commit lock : tx_call (commit lock).
Proof.
  intros s (Hs & Ht & Hp). destruct (decide (_tx_state (ses_tx s) = ACTIVE)) as [Hact|Hn]; last first.
  { unfold commit. autorewrite with mrun. rewrite decide_False by done. simpl.
    split_and!; [done|apply extends_refl|done]. }
  rewrite commit_run by done.
  destruct lock as [[]|e]; [destruct (_validate_commit _ _) as [[]|e] eqn:Hv|]; simpl;
    [| |]; [|split_and!; [split_and!; simpl; auto with tori|apply extends_refl|done]..].
  apply validate_commit_ok in Hv. split_and!; [|apply extends_commit|done].
  split_and!; simpl; [|auto with tori|].
  - by apply store_wf_commit; [| |apply Ht].
  - intros sid. etrans; [apply Hp|]. apply extends_commit.
Qed.

Lemma db_wf_call {A} i (m : T A) d : tx_call m → db_wf d → db_wf (on_tx i m d).2.
Proof.
  intros Hm [Hs Ht]. unfold on_tx. destruct (db_txs d !! i) as [t|] eqn:Hi; [|done].
  specialize (Hm (Session (db_store d) t) (Ht i t Hi)).
  destruct (m (Session (db_store d) t)) as [r s]. simpl in *. destruct Hm as (Hwf & Hext & _).
  constructor; simpl; [apply Hwf|].
  intros j t' [[<- <-]|[Hne Hj]]%lookup_insert_Some; [by destruct s|].
  destruct (Ht j t' Hj) as (_ & Htw & Hp). split_and!; simpl; [apply Hwf|done|].
  intros sid. etrans; [apply Hp|apply Hext].
Qed.

Lemma db_reachable_wf l d : db_reachable l d → db_wf d.
Proof.
  induction 1 as [|d op Hr IH].
  - constructor; simpl; [|intros i t; by rewrite lookup_empty].
    constructor; simpl; try done. constructor.
  - destruct op; simpl.
    + destruct (decide _); [done|]. destruct IH as [Hs Ht]. constructor; simpl; [done|].
      intros j t [[<- <-]|[Hne Hj]]%lookup_insert_Some; [|by eauto].
      split_and!; simpl; [done|by apply tx_wf_empty|]. intros sid. rewrite lookup_empty. apply prefix_nil.
    + apply db_wf_call; [apply tx_call_enter|done].
    + apply db_wf_call; [apply tx_call_append|done].
    + apply db_wf_call; [apply tx_call_commit|done].
    + apply db_wf_call; [apply tx_call_rollback|done].
    + apply db_wf_call; [apply tx_call_exit|done].
Qed.

(** ** Stale appends *)

Lemma staged_unique (l : list _StagedAppend) a b :
  NoDup (st_stream_id <$> l) → a ∈ l → b ∈ l → st_stream_id a = st_stream_id b → a = b.
Proof.
  intros Hnd Ha Hb Heq. induction l as [|x l IH]; [by apply elem_of_nil in Ha|].
  simpl in Hnd. apply NoDup_cons in Hnd as [Hx Hnd].
  apply elem_of_cons in Ha as [->|Ha], Hb as [->|Hb]; auto.
  - destruct Hx. rewrite Heq. by apply list_elem_of_fmap_2.
  - destruct Hx. rewrite <- Heq. by apply list_elem_of_fmap_2.
Qed.

Lemma stale_commit_fails l d j u b r d2 lock :
  db_reachable l d → db_txs d !! j = Some u → b ∈ _staged u →
  st_expected_version b < zlen (stream_of (_state (db_store d)) (st_stream_id b)) →
  on_tx j (commit lock) d = (r, d2) → (∃ e, r = Err e) ∧ db_store d2 = db_store d.
Proof.
  intros [Hs Ht]%db_reachable_wf Hj Hb Hlt Hrun. destruct (Ht j u Hj) as (_ & Htw & _).
  unfold on_tx in Hrun. rewrite Hj in Hrun.
  destruct (decide (_tx_state u = ACTIVE)) as [Hact|Hn]; last first.
  { assert (commit lock (Session (db_store d) u) =
            (Err EventStoreTransactionError, Session (db_store d) u)) as E.
    { unfold commit. autorewrite with mrun. by rewrite decide_False. }
    rewrite E in Hrun. injection Hrun as <- <-. eauto. }
  rewrite commit_run in Hrun by done. simpl in Hrun.
  destruct lock as [[]|e]; [destruct (_validate_commit _ _) as [[]|e] eqn:Hv|];
    injection Hrun as <- <-; [|eauto..].
  apply validate_commit_ok in Hv as (Hexp & _). rewrite Forall_forall in Hexp.
  specialize (Hexp b Hb). lia.
Qed.

Lemma commit_stream_grows l d i t a res d1 lock :
  db_reachable l d → db_txs d !! i = Some t → a ∈ _staged t → st_events a ≠ [] →
  on_tx i (commit lock) d = (Ok res, d1) →
  zlen (stream_of (_state (db_store d1)) (st_stream_id a)) > st_expected_version a.
Proof.
  intros [Hs Ht]%db_reachable_wf Hi Ha Hne Hrun. destruct (Ht i t Hi) as (_ & Htw & _).
  unfold on_tx in Hrun. rewrite Hi in Hrun.
  destruct (decide (_tx_state t = ACTIVE)) as [Hact|Hn]; last first.
  { unfold commit in Hrun. autorewrite with mrun in Hrun. by rewrite decide_False in Hrun. }
  rewrite commit_run in Hrun by done. simpl in Hrun.
  destruct lock as [[]|e]; [destruct (_validate_commit _ _) as [[]|e] eqn:Hv|]; [|done..].
  injection Hrun as <- <-. simpl. rewrite build_store_streams.
  apply validate_commit_ok in Hv as (Hexp & _). rewrite Forall_forall in Hexp.
  specialize (Hexp a Ha). rewrite zlen_app, Hexp.
  destruct (of_stream_numbered_all (st_stream_id a) (zlen (events (_state (db_store d)))) (_staged t)
      (tw_streams _ Htw)) as [[_ Hn]|(b & q & Hb & Eb & ->)].
  { destruct Hn. by apply list_elem_of_fmap_2. }
  rewrite (staged_unique _ b a (tw_streams _ Htw)) in * by done.
  unfold zlen, numbered. rewrite length_imap. destruct (st_events a); [done|simpl; lia].
Qed.

Lemma db_exec_extends op d : db_wf d → extends (_state (db_store d)) (_state (db_store (db_exec op d))).
Proof.
  intros [Hs Ht].
  assert (∀ A i (m : T A), tx_call m →
    extends (_state (db_store d)) (_state (db_store (on_tx i m d).2))) as Hcall.
  { intros A i m Hm. unfold on_tx. destruct (db_txs d !! i) as [t|] eqn:Hi; [|apply extends_refl].
    specialize (Hm _ (Ht i t Hi)). destruct (m (Session (db_store d) t)). apply Hm. }
  destruct op; simpl; [destruct (decide _); apply extends_refl|apply Hcall..].
  - apply tx_call_enter.
  - apply tx_call_append.
  - apply tx_call_commit.
  - apply tx_call_rollback.
  - apply tx_call_exit.
Qed.
