(* ===== verification/EsStoreProperties.v ===== *)
(** * Event sourcing: properties of the store

    Atomic commits, optimistic concurrency, gap-free versions and repeatable
    reads, in every state several interleaved transactions reach. *)

From Stdlib Require Import ZArith Lia.
From stdpp Require Import base tactics list gmap strings.
From S2P Require Import Prelude EsEvents EsCodec EsStore EsStoreFacts.
Local Open Scope Z_scope.

(** ** Runs *)

Fixpoint db_run (ops : list db_op) (d : database) : database :=
  match ops with [] => d | op :: ops => db_run ops (db_exec op d) end.

Definition ex_db : database :=
  {| db_store := InMemoryEventStore_new EventSourcingLimits_default; db_txs := ∅ |}.
(** Two transactions enter and stage an append to the same new stream. *)
Definition ex_writers : database :=
  db_run [DbTransaction 1; DbTransaction 2; DbEnter 1 (Ok tt); DbEnter 2 (Ok tt);
          DbAppend 1 (Some ex_stream) (PyInt 0) [Some (ex_append 10 []); Some (ex_append 11 [])];
          DbAppend 2 (Some ex_stream) (PyInt 0) [Some (ex_append 12 [])]] ex_db.
Definition ex_staged : list _StagedAppend :=
  [{| st_stream_id := ex_stream; st_expected_version := 0;
      st_events := [ex_append 10 []; ex_append 11 []] |}].
Definition ex_first_commit : database := db_exec (DbCommit 1 (Ok tt)) ex_writers.

Lemma db_run_reachable l ops d : db_reachable l d → db_reachable l (db_run ops d).
Proof.
  revert d. induction ops as [|op ops IH]; intros d Hd; simpl; [done|]. apply IH. by constructor.
Qed.

Lemma db_run_extends l ops d :
  db_reachable l d → extends (_state (db_store d)) (_state (db_store (db_run ops d))).
Proof.
  revert d. induction ops as [|op ops IH]; intros d Hd; simpl; [apply extends_refl|].
  destruct (db_exec_extends op d) as [H1 H2]; [by eapply db_reachable_wf|].
  destruct (IH (db_exec op d)) as [H3 H4]; [by constructor|].
  split; [etrans; [exact H1|exact H3]|]. intros sid. etrans; [apply H2|apply H4].
Qed.

Lemma ex_writers_reachable : db_reachable EventSourcingLimits_default ex_writers.
Proof. apply db_run_reachable. constructor. Qed.

Lemma ex_writers_tx :
  ∃ t u, db_txs ex_writers !! 1 = Some t ∧ db_txs ex_writers !! 2 = Some u ∧
    _tx_state t = ACTIVE ∧ _tx_state u = ACTIVE ∧ _staged t = ex_staged ∧
    _staged u = [{| st_stream_id := ex_stream; st_expected_version := 0;
                    st_events := [ex_append 12 []] |}] ∧
    events (_state (db_store ex_writers)) = [].
Proof.
  do 2 eexists. split; [vm_compute; reflexivity|]. split; [vm_compute; reflexivity|].
  vm_compute. split_and!; reflexivity.
Qed.

(** ** Committed state *)

(** C6: In every state that interleaved transactions reach, the store is one
    global sequence: positions count from one without a gap, each stream is
    exactly the events of the sequence that belong to it, with versions from
    one without a gap, and no event ID occurs twice. *)
Theorem store_invariant l d :
  db_reachable l d →
  let st := _state (db_store d) in
  (∀ i e, events st !! i = Some e → global_position e = Z.of_nat i + 1) ∧
  (∀ sid, stream_of st sid = of_stream sid (events st)) ∧
  (∀ sid i e, stream_of st sid !! i = Some e →
     stream_id e = sid ∧ stream_version e = Z.of_nat i + 1) ∧
  NoDup (se_event_id <$> events st) ∧
  event_ids st = list_to_set (se_event_id <$> events st).
Proof.
  intros [[Hpos Hstr Hver Hids Huniq] _]%db_reachable_wf st.
  split_and!; try done. intros sid i e He. unfold stream_of in He. rewrite Hstr in He.
  split; [|by eapply Hver]. apply list_elem_of_lookup_2 in He.
  by apply list_elem_of_filter in He as [? _].
Qed.

Lemma store_invariant_witness :
  let st := _state (db_store ex_first_commit) in
  length (events st) = 2%nat ∧ NoDup (se_event_id <$> events st).
Proof.
  intros st. split; [vm_compute; reflexivity|].
  refine (proj1 (proj2 (proj2 (proj2 (store_invariant EventSourcingLimits_default ex_first_commit _))))).
  apply (db_step _ ex_writers). exact ex_writers_reachable.
Defined.

(** C7: A commit is all or nothing. If it fails, the store is unchanged and
    the transaction, if it was active, is rolled back with nothing staged. If
    it succeeds, exactly the staged events are appended, in staging order: the
    global sequence grows by the result, every staged append had the version
    its stream had, and that stream grows by its batch with the next versions. *)
Theorem commit_atomic l d i lock r d' t :
  db_reachable l d → db_txs d !! i = Some t → on_tx i (commit lock) d = (r, d') →
  let st := _state (db_store d) in
  let st' := _state (db_store d') in
  match r with
  | Err _ => db_store d' = db_store d ∧
      ∀ t', db_txs d' !! i = Some t' → _tx_state t = ACTIVE →
        _tx_state t' = ROLLED_BACK ∧ _staged t' = []
  | Ok res =>
      _tx_state t = ACTIVE ∧ events st' = events st ++ cr_events res ∧
      se_event <$> cr_events res = concat (st_events <$> _staged t) ∧
      (∀ a, a ∈ _staged t → ∃ p,
         st_expected_version a = zlen (stream_of st (st_stream_id a)) ∧
         stream_of st' (st_stream_id a) = stream_of st (st_stream_id a) ++
           numbered (st_stream_id a) (st_expected_version a) p (st_events a)) ∧
      (∀ sid, (sid ∉ st_stream_id <$> _staged t) → stream_of st' sid = stream_of st sid)
  end.
Proof.
  intros [Hs Ht]%db_reachable_wf Hi Hrun st st'. destruct (Ht i t Hi) as (_ & Htw & _).
  unfold on_tx in Hrun. rewrite Hi in Hrun.
  destruct (decide (_tx_state t = ACTIVE)) as [Hact|Hn]; last first.
  { assert (commit lock (Session (db_store d) t) =
            (Err EventStoreTransactionError, Session (db_store d) t)) as E.
    { unfold commit. autorewrite with mrun. by rewrite decide_False. }
    rewrite E in Hrun. injection Hrun as <- <-. split; [done|]. done. }
  rewrite commit_run in Hrun by done. simpl in Hrun.
  destruct lock as [[]|e]; [destruct (_validate_commit _ _) as [[]|e] eqn:Hv|];
    injection Hrun as <- E; subst d'; simpl in *;
    [|split; [done|]; intros t'; rewrite lookup_insert_eq; by intros [= <-]..].
  apply validate_commit_ok in Hv as (Hexp & _). subst st st'. simpl.
  split_and!; [done|done|apply numbered_all_events| |].
  - intros a Ha. rewrite build_store_streams.
    destruct (of_stream_numbered_all (st_stream_id a) (zlen (events (_state (db_store d)))) (_staged t)
      (tw_streams _ Htw)) as [[_ Hn]|(b & q & Hb & Eb & ->)].
    { destruct Hn. by apply list_elem_of_fmap_2. }
    rewrite (staged_unique _ b a (tw_streams _ Htw)) in * by done.
    exists q. split; [|done]. rewrite Forall_forall in Hexp. by rewrite (Hexp a Ha).
  - intros sid Hsid. rewrite build_store_streams.
    destruct (of_stream_numbered_all sid (zlen (events (_state (db_store d)))) (_staged t)
      (tw_streams _ Htw)) as [[-> _]|(b & q & Hb & Eb & _)]; [by rewrite app_nil_r|].
    destruct Hsid. rewrite <- Eb. by apply list_elem_of_fmap_2.
Qed.

Lemma commit_atomic_witness :
  ∃ res d', on_tx 1 (commit (Ok tt)) ex_writers = (Ok res, d') ∧
    se_event <$> cr_events res = [ex_append 10 []; ex_append 11 []] ∧
    events (_state (db_store d')) = events (_state (db_store ex_writers)) ++ cr_events res.
Proof.
  destruct ex_writers_tx as (t & u & Ht & Hu & Hta & Hua & Hst & Hsu & Hev).
  assert (∃ res, (on_tx 1 (commit (Ok tt)) ex_writers).1 = Ok res) as [res Hres]
    by (eexists; vm_compute; reflexivity).
  destruct (on_tx 1 (commit (Ok tt)) ex_writers) as [r d'] eqn:Hrun. simpl in Hres. subst r.
  destruct (commit_atomic EventSourcingLimits_default ex_writers 1 (Ok tt) (Ok res) d' t
              ex_writers_reachable Ht Hrun) as (_ & Hev' & Hse & _).
  exists res, d'. split; [reflexivity|]. rewrite Hst in Hse. split; [exact Hse|exact Hev'].
Defined.

(** A commit that gets the lock succeeds exactly when it should: every
    staged append expects the version its stream has now, and no staged event
    ID is already committed. *)
Theorem commit_succeeds_iff l d i t :
  db_reachable l d → db_txs d !! i = Some t → _tx_state t = ACTIVE →
  is_ok (on_tx i (commit (Ok tt)) d).1 = true ↔
  Forall (λ a, zlen (stream_of (_state (db_store d)) (st_stream_id a)) = st_expected_version a)
    (_staged t) ∧
  ∀ a e, a ∈ _staged t → e ∈ st_events a → ae_event_id e ∉ event_ids (_state (db_store d)).
Proof.
  intros [Hs Ht]%db_reachable_wf Hi Hact. destruct (Ht i t Hi) as (_ & Htw & _).
  unfold on_tx. rewrite Hi, commit_run by done. simpl.
  assert (committable (_state (db_store d)) (_staged t) ↔
    Forall (λ a, zlen (stream_of (_state (db_store d)) (st_stream_id a)) = st_expected_version a)
      (_staged t) ∧
    ∀ a e, a ∈ _staged t → e ∈ st_events a → ae_event_id e ∉ event_ids (_state (db_store d)))
    as <-.
  { unfold committable. split.
    - intros (Hf & _ & Hall). split; [done|]. intros a e Ha He. apply Hall.
      apply elem_of_staged. by exists a.
    - intros [Hf Hall]. split_and!; [done|apply Htw|].
      intros e (a & Ha & He)%elem_of_staged. by apply (Hall a e). }
  rewrite <- validate_commit_ok.
  by destruct (_validate_commit _ _) as [[]|e].
Qed.

Lemma commit_succeeds_iff_witness : is_ok (on_tx 1 (commit (Ok tt)) ex_writers).1 = true.
Proof.
  destruct ex_writers_tx as (t & u & Ht & Hu & Hta & Hua & Hst & Hsu & Hev).
  apply (proj2 (commit_succeeds_iff EventSourcingLimits_default ex_writers 1 t
                  ex_writers_reachable Ht Hta)).
  rewrite Hst. split.
  - apply Forall_singleton. vm_compute. reflexivity.
  - intros a e Ha He.
    assert (event_ids (_state (db_store ex_writers)) = ∅) as -> by (vm_compute; reflexivity).
    apply not_elem_of_empty.
Defined.

(** C8: No lost update. When two transactions staged an append to the same
    stream for the same or an earlier version, the commit of the one makes the
    commit of the other fail, without a trace in the store, whatever other
    transactions do in between. *)
Theorem lost_update_prevented l d i j t u a b res d1 ops r d2 lock :
  db_reachable l d → i ≠ j → db_txs d !! i = Some t → db_txs d !! j = Some u →
  a ∈ _staged t → b ∈ _staged u → st_events a ≠ [] →
  st_stream_id a = st_stream_id b → st_expected_version b <= st_expected_version a →
  on_tx i (commit lock) d = (Ok res, d1) →
  db_txs (db_run ops d1) !! j = Some u →
  on_tx j (commit (Ok tt)) (db_run ops d1) = (r, d2) →
  (∃ e, r = Err e) ∧ db_store d2 = db_store (db_run ops d1).
Proof.
  intros Hreach Hij Hi Hj Ha Hb Hne Hsid Hle Hrun Hu Hrun2.
  pose proof (db_reachable_wf _ _ Hreach) as [Hs Ht].
  assert (db_reachable l d1) as Hreach1.
  { replace d1 with (db_exec (DbCommit i lock) d) by (simpl; by rewrite Hrun). by constructor. }
  assert (zlen (stream_of (_state (db_store d1)) (st_stream_id a)) > st_expected_version a) as Hlen1.
  { by apply (commit_stream_grows l d i t a res d1 lock). }
  assert (zlen (stream_of (_state (db_store (db_run ops d1))) (st_stream_id a)) >
          st_expected_version a) as Hlen2.
  { pose proof (db_run_extends l ops d1 Hreach1) as [_ Hp]. specialize (Hp (st_stream_id a)).
    apply prefix_length in Hp. unfold zlen in *. lia. }
  eapply (stale_commit_fails l); [by apply db_run_reachable|done|exact Hb| |done].
  rewrite <- Hsid. lia.
Qed.

Lemma lost_update_prevented_witness :
  ∃ e, (on_tx 2 (commit (Ok tt)) ex_first_commit).1 = Err e ∧
       db_store (on_tx 2 (commit (Ok tt)) ex_first_commit).2 = db_store ex_first_commit.
Proof.
  destruct ex_writers_tx as (t & u & Ht & Hu & Hta & Hua & Hst & Hsu & Hev).
  assert (∃ res, (on_tx 1 (commit (Ok tt)) ex_writers).1 = Ok res) as [res Hres]
    by (eexists; vm_compute; reflexivity).
  assert (db_txs ex_first_commit !! 2 = Some u) as Hu'.
  { rewrite <- Hu. vm_compute. reflexivity. }
  destruct (lost_update_prevented EventSourcingLimits_default ex_writers 1 2 t u
     {| st_stream_id := ex_stream; st_expected_version := 0;
        st_events := [ex_append 10 []; ex_append 11 []] |}
     {| st_stream_id := ex_stream; st_expected_version := 0; st_events := [ex_append 12 []] |}
     res ex_first_commit [] (on_tx 2 (commit (Ok tt)) ex_first_commit).1
     (on_tx 2 (commit (Ok tt)) ex_first_commit).2 (Ok tt)) as [[e He] Hd].
  - exact ex_writers_reachable.
  - lia.
  - exact Ht.
  - exact Hu.
  - rewrite Hst. left.
  - rewrite Hsu. left.
  - discriminate.
  - reflexivity.
  - simpl. lia.
  - change ex_first_commit with (on_tx 1 (commit (Ok tt)) ex_writers).2.
    rewrite <- Hres. apply surjective_pairing.
  - exact Hu'.
  - apply surjective_pairing.
  - exists e. split; [exact He|exact Hd].
Defined.

(** ** Reads *)

(** A transaction reads one consistent past: a page it reads holds the
    stream's events with the versions after the requested one, in order and
    without gaps, all of them committed and still where they were, whatever
    other transactions committed since it entered. *)
Theorem transaction_read l d i t sid after n page d' :
  db_reachable l d → db_txs d !! i = Some t →
  on_tx i (read_stream (Some sid) (PyInt after) (PyInt n)) d = (Ok page, d') →
  d' = d ∧ (∀ k e, page !! k = Some e →
    stream_id e = sid ∧ stream_version e = after + Z.of_nat k + 1 ∧
    stream_of (_state (db_store d)) sid !! (Z.to_nat after + k)%nat = Some e) ∧
  zlen page = Z.max 0 (Z.min n (zlen (default [] (_snapshot t !! sid)) - after)).
Proof.
  intros [Hs Ht]%db_reachable_wf Hi Hrun. destruct (Ht i t Hi) as (_ & _ & Hpre). simpl in Hpre.
  unfold on_tx in Hrun. rewrite Hi in Hrun. unfold read_stream in Hrun. autorewrite with mrun in Hrun.
  simpl in Hrun. destruct (decide _) as [Hact|]; [|done]. simpl in Hrun.
  autorewrite with mrun in Hrun. simpl in Hrun.
  destruct (Z.ltb_spec after 0); [done|]. autorewrite with mrun in Hrun. simpl in Hrun.
  destruct (Z.ltb_spec n 1); [done|]. destruct (_ <? n); [done|]. autorewrite with mrun in Hrun.
  injection Hrun as <- <-. split_and!.
  - destruct d as [st txs]. simpl in *. f_equal. by apply insert_id.
  - intros k e He. unfold py_slice in He. apply lookup_take_Some in He as [He _].
    rewrite lookup_drop in He.
    assert (stream_of (_state (db_store d)) sid !! (Z.to_nat after + k)%nat = Some e) as Hcur.
    { eapply prefix_lookup_Some; [exact He|apply Hpre]. }
    split_and!; [| |done].
    + unfold stream_of in Hcur. rewrite (sw_stream _ Hs) in Hcur.
      apply list_elem_of_lookup_2 in Hcur. by apply list_elem_of_filter in Hcur as [? _].
    + unfold stream_of in Hcur. rewrite (sw_stream _ Hs) in Hcur.
      apply (sw_version _ Hs) in Hcur. lia.
  - unfold py_slice, zlen. rewrite length_take, length_drop. lia.
Qed.

Lemma transaction_read_witness :
  let d := db_exec (DbEnter 3 (Ok tt)) (db_exec (DbTransaction 3) ex_first_commit) in
  ∃ page t, db_txs d !! 3 = Some t ∧
    on_tx 3 (read_stream (Some ex_stream) (PyInt 1) (PyInt 5)) d = (Ok page, d) ∧
    zlen page = Z.max 0 (Z.min 5 (zlen (default [] (_snapshot t !! ex_stream)) - 1)).
Proof.
  intros d.
  assert (∃ t page, db_txs d !! 3 = Some t ∧
    (on_tx 3 (read_stream (Some ex_stream) (PyInt 1) (PyInt 5)) d).1 = Ok page)
    as (t & page & Ht & Hpage).
  { do 2 eexists. split; vm_compute; reflexivity. }
  destruct (on_tx 3 (read_stream (Some ex_stream) (PyInt 1) (PyInt 5)) d) as [r d'] eqn:Hrun.
  simpl in Hpage. subst r.
  destruct (transaction_read EventSourcingLimits_default d 3 t ex_stream 1 5 page d')
    as (Hd & _ & Hlen).
  - do 3 apply db_step. exact ex_writers_reachable.
  - exact Ht.
  - exact Hrun.
  - exists page, t. split; [exact Ht|]. split; [rewrite Hd; reflexivity|exact Hlen].
Defined.
