(* ===== verification/EsAggregate.v ===== *)
(** * Event sourcing: aggregates

    [aggregate.py] of [tori_py_cqrs_event_sourcing_core]. The domain state of an
    aggregate and its [_apply] are the application's ([Domain]); [_apply] may
    raise after it has changed the state. Objects that the code compares with
    [is] (the owner of an enlistment, a prepared commit) carry their identity. *)

From Stdlib Require Import ZArith Lia.
From stdpp Require Import base tactics list gmap strings.
From S2P Require Import Prelude EsEvents.
Local Open Scope Z_scope.

Class Domain (D : Type) := { _apply : Event → M D es_error unit }.

Record _Enlistment := {
  en_owner : Z;
  en_stream_id : StreamId;
  en_events : list PendingEvent
}.

Record _PreparedCommit := {
  pc_identity : Z;
  pc_owner : Z;
  pc_events : list PendingEvent;
  pc_version : Z
}.

Section aggregate.
Context {D : Type} `{Domain D}.

Record AggregateRoot := {
  agg_type : Z;
  _id : pyobj;
  domain : D;
  _version : Z;
  _stream_id : option StreamId;
  _pending_events : list PendingEvent;
  _faulted : bool;
  _enlistment : option _Enlistment;
  _prepared_commit : option _PreparedCommit
}.

Abbreviation G := (M AggregateRoot es_error).

Definition AggregateRoot_new (type : Z) (aggregate_id : pyobj) (initial : D) : AggregateRoot :=
  {| agg_type := type; _id := aggregate_id; domain := initial; _version := 0; _stream_id := None;
     _pending_events := []; _faulted := false; _enlistment := None; _prepared_commit := None |}.

(** Assignments to the attributes. *)
Definition set_domain (d : D) (a : AggregateRoot) : AggregateRoot :=
  {| agg_type := agg_type a; _id := _id a; domain := d; _version := _version a;
     _stream_id := _stream_id a; _pending_events := _pending_events a; _faulted := _faulted a;
     _enlistment := _enlistment a; _prepared_commit := _prepared_commit a |}.
Definition set_version (v : Z) (a : AggregateRoot) : AggregateRoot :=
  {| agg_type := agg_type a; _id := _id a; domain := domain a; _version := v;
     _stream_id := _stream_id a; _pending_events := _pending_events a; _faulted := _faulted a;
     _enlistment := _enlistment a; _prepared_commit := _prepared_commit a |}.
Definition set_stream_id (s : option StreamId) (a : AggregateRoot) : AggregateRoot :=
  {| agg_type := agg_type a; _id := _id a; domain := domain a; _version := _version a;
     _stream_id := s; _pending_events := _pending_events a; _faulted := _faulted a;
     _enlistment := _enlistment a; _prepared_commit := _prepared_commit a |}.
Definition set_pending (p : list PendingEvent) (a : AggregateRoot) : AggregateRoot :=
  {| agg_type := agg_type a; _id := _id a; domain := domain a; _version := _version a;
     _stream_id := _stream_id a; _pending_events := p; _faulted := _faulted a;
     _enlistment := _enlistment a; _prepared_commit := _prepared_commit a |}.
Definition set_faulted (b : bool) (a : AggregateRoot) : AggregateRoot :=
  {| agg_type := agg_type a; _id := _id a; domain := domain a; _version := _version a;
     _stream_id := _stream_id a; _pending_events := _pending_events a; _faulted := b;
     _enlistment := _enlistment a; _prepared_commit := _prepared_commit a |}.
Definition set_enlistment (e : option _Enlistment) (a : AggregateRoot) : AggregateRoot :=
  {| agg_type := agg_type a; _id := _id a; domain := domain a; _version := _version a;
     _stream_id := _stream_id a; _pending_events := _pending_events a; _faulted := _faulted a;
     _enlistment := e; _prepared_commit := _prepared_commit a |}.
Definition set_prepared (p : option _PreparedCommit) (a : AggregateRoot) : AggregateRoot :=
  {| agg_type := agg_type a; _id := _id a; domain := domain a; _version := _version a;
     _stream_id := _stream_id a; _pending_events := _pending_events a; _faulted := _faulted a;
     _enlistment := _enlistment a; _prepared_commit := p |}.

Definition is_enlisted (a : AggregateRoot) : bool := bool_decide (is_Some (_enlistment a)).

(** [self._apply(event)]: the domain state changes even if it raises. *)
Definition apply (e : Event) : G unit := zoom domain set_domain (_apply e).

(** [try: ... except BaseException: self._faulted = True; raise] *)
Definition faulting {A} (m : G A) : G A :=
  try_except m (λ e, modify (set_faulted true);; raise e).

Definition _require_mutable : G unit :=
  a ← get;
  throw_if (_faulted a) AggregateFaultedError;;
  throw_if (is_enlisted a) AggregateEnlistedError.

(** [metadata] is [None] when it is not given; then [generated] is what [uuid4]
    and [datetime.now] make of it. An inner [None] is an object that is no
    [EventMetadata]. *)
Definition raise_event (event : option Event) (metadata : option (option EventMetadata))
    (generated : EventMetadata) : G unit :=
  _require_mutable;;
  pending ← lift (PendingEvent_new event (default (Some generated) metadata));
  faulting (apply (pe_event pending));;
  modify (λ a, set_pending (_pending_events a ++ [pending]) a).

Definition recorded_item (r : option RecordedEvent) : result es_error RecordedEvent :=
  match r with Some r => Ok r | None => Err AggregateReplayError end.

(** The loop that checks a page; the version that would come next. *)
Definition check_record (expected_stream : StreamId) (expected_version : Z) (r : RecordedEvent)
    : result es_error Z :=
  _ ← raise_if (bool_decide (re_stream_id r ≠ expected_stream))
        (AggregateStreamMismatchError expected_stream (re_stream_id r));
  _ ← raise_if (negb (re_stream_version r =? expected_version)) AggregateReplayError;
  Ok (expected_version + 1).

(** The checked page with its stream; [None] for an empty page. *)
Definition check_page (a : AggregateRoot) (records : result es_error (list (option RecordedEvent)))
    : result es_error (option (StreamId * list RecordedEvent)) :=
  page ← records;
  page ← rmap recorded_item page;
  match page with
  | [] => Ok None
  | first :: _ =>
      let expected_stream := default (re_stream_id first) (_stream_id a) in
      _ ← rfold (check_record expected_stream) (_version a + 1) page;
      Ok (Some (expected_stream, page))
  end.

Fixpoint apply_page (page : list RecordedEvent) : G unit :=
  match page with
  | [] => mret tt
  | r :: page =>
      faulting (apply (re_event r));;
      modify (set_version (re_stream_version r));;
      apply_page page
  end.

Definition _replay (records : result es_error (list (option RecordedEvent))) : G unit :=
  _require_mutable;;
  a ← get;
  throw_if (bool_decide (_pending_events a ≠ [])) AggregateReplayError;;
  checked ← faulting (lift (check_page a records));
  match checked with
  | None => mret tt
  | Some (expected_stream, page) =>
      modify (set_stream_id (Some expected_stream));;
      apply_page page
  end.

Definition _enlist (owner : Z) (sid : StreamId) (snapshot : list PendingEvent) : G unit :=
  _require_mutable;;
  a ← get;
  throw_if (is_enlisted a) AggregateEnlistedError;;
  throw_if (bool_decide (snapshot = []) || negb (seq_eqb PendingEvent_eqb snapshot (_pending_events a)))
    AggregateCommitStateError;;
  match _stream_id a with
  | Some s => throw_if (bool_decide (s ≠ sid)) (AggregateStreamMismatchError s sid)
  | None => mret tt
  end;;
  modify (set_stream_id (Some sid));;
  modify (set_enlistment (Some {| en_owner := owner; en_stream_id := sid; en_events := snapshot |}));;
  modify (set_prepared None).

Definition _owned_enlistment (owner : Z) : G _Enlistment :=
  a ← get;
  match _enlistment a with
  | None => raise AggregateOwnershipError
  | Some e => throw_if (negb (en_owner e =? owner)) AggregateOwnershipError;; mret e
  end.

(** [identity] is the identity of the object it creates. *)
Definition _prepare_commit (identity owner : Z) (snapshot : list PendingEvent) (version : Z)
    : G _PreparedCommit :=
  enlistment ← _owned_enlistment owner;
  a ← get;
  throw_if (negb (seq_eqb PendingEvent_eqb snapshot (en_events enlistment))
            || negb (seq_eqb PendingEvent_eqb snapshot (_pending_events a)))
    AggregateCommitStateError;;
  throw_if (negb (version =? _version a + zlen snapshot)) AggregateCommitStateError;;
  let prepared := {| pc_identity := identity; pc_owner := owner; pc_events := snapshot;
                     pc_version := version |} in
  modify (set_prepared (Some prepared));;
  mret prepared.

Definition _mark_committed (prepared : _PreparedCommit) : G unit :=
  a ← get;
  throw_if match _prepared_commit a with
           | Some p => negb (pc_identity p =? pc_identity prepared)
           | None => true
           end AggregateCommitStateError;;
  modify (set_version (pc_version prepared));;
  modify (set_pending []);;
  modify (set_enlistment None);;
  modify (set_prepared None).

Definition _release (owner : Z) : G unit :=
  _owned_enlistment owner;;
  modify (set_enlistment None);;
  modify (set_prepared None).

Definition _fault (owner : Z) : G unit :=
  _owned_enlistment owner;;
  modify (set_faulted true);;
  modify (set_enlistment None);;
  modify (set_prepared None).

Definition _validate_staging (sid : StreamId) : G unit :=
  _require_mutable;;
  a ← get;
  match _stream_id a with
  | Some s => throw_if (bool_decide (s ≠ sid)) (AggregateStreamMismatchError s sid)
  | None => mret tt
  end.

(** ** Specification *)

(** The state the events lead to. *)
Fixpoint evolve (d : D) (es : list Event) : option D :=
  match es with
  | [] => Some d
  | e :: es => match _apply e d with (Ok tt, d') => evolve d' es | _ => None end
  end.

(** What holds of an aggregate with committed history [h]: until it faults, its
    state is what its history and its pending events lead to. *)
Record agg_wf (initial : D) (h : list Event) (a : AggregateRoot) : Prop := {
  aw_state : _faulted a = false →
    evolve initial (h ++ (pe_event <$> _pending_events a)) = Some (domain a);
  aw_version : _faulted a = false → _version a = zlen h;
  aw_enlisted : ∀ e, _enlistment a = Some e →
    seq_eqb PendingEvent_eqb (en_events e) (_pending_events a) = true ∧
    _stream_id a = Some (en_stream_id e) ∧ en_events e ≠ [];
  aw_prepared : ∀ p, _prepared_commit a = Some p →
    is_Some (_enlistment a) ∧ pc_version p = _version a + zlen (_pending_events a)
}.

Inductive agg_op :=
| AgRaise (event : option Event) (metadata : option (option EventMetadata)) (generated : EventMetadata)
| AgReplay (records : result es_error (list (option RecordedEvent)))
| AgEnlist (owner : Z) (sid : StreamId) (snapshot : list PendingEvent)
| AgPrepare (identity owner : Z) (snapshot : list PendingEvent) (version : Z)
| AgCommitted (prepared : _PreparedCommit)
| AgRelease (owner : Z)
| AgFault (owner : Z).

Definition agg_exec (op : agg_op) (a : AggregateRoot) : result es_error unit * AggregateRoot :=
  match op with
  | AgRaise e m g => raise_event e m g a
  | AgReplay r => _replay r a
  | AgEnlist o s p => _enlist o s p a
  | AgPrepare i o p v => match _prepare_commit i o p v a with
                         | (Ok _, a') => (Ok tt, a') | (Err e, a') => (Err e, a') end
  | AgCommitted p => _mark_committed p a
  | AgRelease o => _release o a
  | AgFault o => _fault o a
  end.

(** What a successful step adds to the committed history. *)
Definition agg_added (op : agg_op) (a : AggregateRoot) : list Event :=
  match op with
  | AgReplay (Ok page) => re_event <$> omap id page
  | AgCommitted _ => pe_event <$> _pending_events a
  | _ => []
  end.

(** A prepared commit reaches [_mark_committed] unchanged: it is the object the
    aggregate prepared, when the identities agree. *)
Definition agg_op_ok (op : agg_op) (a : AggregateRoot) : Prop :=
  match op with
  | AgCommitted p => ∀ q, _prepared_commit a = Some q → pc_identity q = pc_identity p → q = p
  | _ => True
  end.

Inductive agg_reachable (type : Z) (id : pyobj) (initial : D) : AggregateRoot → list Event → Prop :=
| agg_new : agg_reachable type id initial (AggregateRoot_new type id initial) []
| agg_step a h op a' r : agg_reachable type id initial a h → agg_op_ok op a →
    agg_exec op a = (r, a') →
    agg_reachable type id initial a' (if is_ok r then h ++ agg_added op a else h).

(** ** Facts *)

Lemma evolve_app d es fs : evolve d (es ++ fs) = evolve d es ≫= λ d', evolve d' fs.
Proof.
  revert d. induction es as [|e es IH]; intros d; simpl; [done|].
  destruct (_apply e d) as [[[]|x] d']; [apply IH|done].
Qed.

Lemma run_bind_mutable {B} (f : unit → G B) a :
  (_require_mutable ≫= f) a =
  if _faulted a then (Err AggregateFaultedError, a)
  else if is_enlisted a then (Err AggregateEnlistedError, a) else f tt a.
Proof.
  unfold _require_mutable. autorewrite with mrun. destruct (_faulted a); [done|].
  autorewrite with mrun. by destruct (is_enlisted a).
Qed.

Lemma run_bind_faulting_apply {B} e (f : unit → G B) a :
  (faulting (apply e) ≫= f) a =
  match _apply e (domain a) with
  | (Ok tt, d) => f tt (set_domain d a)
  | (Err x, d) => (Err x, set_faulted true (set_domain d a))
  end.
Proof.
  unfold faulting, apply, zoom, try_except, mbind, M_bind.
  by destruct (_apply e (domain a)) as [[[]|x] d].
Qed.

Lemma run_bind_faulting_lift {A B} (r : result es_error A) (f : A → G B) a :
  (faulting (lift r) ≫= f) a =
  match r with Ok x => f x a | Err e => (Err e, set_faulted true a) end.
Proof. unfold faulting, try_except, mbind, M_bind, lift. by destruct r. Qed.

Lemma run_bind_owned {B} owner (f : _Enlistment → G B) a :
  (_owned_enlistment owner ≫= f) a =
  match _enlistment a with
  | Some e => if en_owner e =? owner then f e a else (Err AggregateOwnershipError, a)
  | None => (Err AggregateOwnershipError, a)
  end.
Proof.
  unfold _owned_enlistment. autorewrite with mrun. destruct (_enlistment a) as [e|]; [|done].
  autorewrite with mrun. by destruct (en_owner e =? owner).
Qed.
#[local] Hint Rewrite @run_bind_mutable @run_bind_faulting_apply @run_bind_faulting_lift
  @run_bind_owned : mrun.

Lemma agg_wf_faulted initial h h' a :
  agg_wf initial h a → agg_wf initial h' (set_faulted true a).
Proof. intros [_ _ He Hp]. by constructor. Qed.

Lemma agg_wf_domain initial h h' d a :
  agg_wf initial h a → agg_wf initial h' (set_faulted true (set_domain d a)).
Proof. intros [_ _ He Hp]. by constructor. Qed.

(** An aggregate that may be changed is not enlisted, so nothing is prepared. *)
Lemma agg_wf_mutable initial h a :
  agg_wf initial h a → is_enlisted a = false → _enlistment a = None ∧ _prepared_commit a = None.
Proof.
  intros [_ _ _ Hp] He. unfold is_enlisted in He. bool_hyps. apply eq_None_not_Some in He.
  split; [done|]. destruct (_prepared_commit a) as [p|]; [|done].
  destruct (Hp p eq_refl) as [[x Hx] _]. congruence.
Qed.

Lemma raise_event_wf initial h a e m g :
  agg_wf initial h a → agg_wf initial h (raise_event e m g a).2.
Proof.
  intros Hwf. unfold raise_event. autorewrite with mrun.
  destruct (_faulted a) eqn:Hf; [done|]. destruct (is_enlisted a) eqn:Hen; [done|].
  destruct (agg_wf_mutable _ _ _ Hwf Hen) as [He Hp]. autorewrite with mrun.
  destruct (PendingEvent_new _ _) as [p|]; [|done]. autorewrite with mrun.
  destruct (_apply (pe_event p) (domain a)) as [[[]|x] d] eqn:Ha; [|by eapply agg_wf_domain].
  autorewrite with mrun. simpl. constructor; simpl; rewrite ?Hf, ?He, ?Hp; try done.
  - intros _. rewrite fmap_app, app_assoc, evolve_app, (aw_state _ _ _ Hwf Hf). simpl. by rewrite Ha.
  - intros _. by apply (aw_version _ _ _ Hwf).
Qed.

Lemma check_records_ok sid v page v' :
  rfold (check_record sid) v page = Ok v' →
  Forall (λ r, re_stream_id r = sid) page ∧ v' = v + zlen page ∧
  ∀ i r, page !! i = Some r → re_stream_version r = v + Z.of_nat i.
Proof.
  revert v. induction page as [|r page IH]; intros v Hr; simpl in Hr.
  - simplify_eq. split_and!; [constructor|unfold zlen; simpl; lia|done].
  - apply result_bind_ok in Hr as (w & Hw & Hr). unfold check_record in Hw.
    apply result_bind_ok in Hw as ([] & Hs%raise_if_ok & Hw).
    apply result_bind_ok in Hw as ([] & Hv%raise_if_ok & Hw). simplify_eq. bool_hyps.
    apply dec_stable in Hs. apply IH in Hr as (Hf & -> & Hi). split_and!.
    + by constructor.
    + rewrite zlen_cons. lia.
    + intros [|i] x Hx; simpl in Hx; [simplify_eq; lia|]. rewrite (Hi i x Hx). lia.
Qed.

(** Applying a checked page: state and version follow the events. *)
Lemma apply_page_run page a r a' :
  (∀ i x, page !! i = Some x → re_stream_version x = _version a + Z.of_nat i + 1) →
  apply_page page a = (r, a') →
  (∃ e d v, r = Err e ∧ a' = set_faulted true (set_domain d (set_version v a))) ∨
  ∃ d, r = Ok tt ∧ evolve (domain a) (re_event <$> page) = Some d ∧
    a' = set_domain d (set_version (_version a + zlen page) a).
Proof.
  revert a. induction page as [|x page IH]; intros a Hv Hrun; simpl in Hrun.
  - injection Hrun as <- <-. right. exists (domain a). split_and!; [done|done|].
    destruct a. unfold set_domain, set_version, zlen. simpl. f_equal. lia.
  - autorewrite with mrun in Hrun.
    destruct (_apply (re_event x) (domain a)) as [[[]|e] d] eqn:Ha.
    + autorewrite with mrun in Hrun. apply IH in Hrun as [(e & d' & v & -> & ->)|(d' & -> & Hev & ->)].
      * left. exists e, d', v. by destruct a.
      * right. exists d'. simpl in *. rewrite Ha. split_and!; [done|done|].
        pose proof (Hv 0%nat x eq_refl) as H0. destruct a. unfold set_domain, set_version. simpl in *.
        rewrite zlen_cons, H0. f_equal. lia.
      * intros i y Hy. pose proof (Hv 0%nat x eq_refl). pose proof (Hv (S i) y Hy). simpl. lia.
    + injection Hrun as <- <-. left. exists e, d, (_version a). by destruct a.
Qed.

Lemma check_page_ok a records sid page :
  check_page a records = Ok (Some (sid, page)) →
  ∃ items, records = Ok items ∧ rmap recorded_item items = Ok page ∧
    (∀ i x, page !! i = Some x → re_stream_version x = _version a + Z.of_nat i + 1) ∧
    Forall (λ r, re_stream_id r = sid) page ∧ ∀ s, _stream_id a = Some s → s = sid.
Proof.
  unfold check_page. intros Hc. apply result_bind_ok in Hc as (items & Hi & Hc).
  apply result_bind_ok in Hc as (pg & Hp & Hc). destruct pg as [|x pg]; [done|].
  apply result_bind_ok in Hc as (v & Hv & Hc). simplify_eq.
  apply check_records_ok in Hv as (Hf & _ & Hver). exists items. split_and!; try done.
  - intros i y Hy. rewrite (Hver i y Hy). lia.
  - intros s ->. done.
Qed.

Lemma recorded_items_ok items page :
  rmap recorded_item items = Ok page → omap id items = page.
Proof.
  revert page. induction items as [|x items IH]; intros page Hp; simpl in Hp; [by simplify_eq|].
  apply result_bind_ok in Hp as (y & Hy & Hp). apply result_bind_ok in Hp as (ys & Hys & Hp).
  destruct x; simpl in Hy; simplify_eq. simpl. f_equal. auto.
Qed.

Lemma replay_wf initial h a records r a' :
  agg_wf initial h a → _replay records a = (r, a') →
  agg_wf initial (if is_ok r then h ++ agg_added (AgReplay records) a else h) a'.
Proof.
  intros Hwf Hrun. unfold _replay in Hrun. autorewrite with mrun in Hrun.
  destruct (_faulted a) eqn:Hf; [by injection Hrun as <- <-|].
  destruct (is_enlisted a) eqn:Hen; [by injection Hrun as <- <-|].
  destruct (agg_wf_mutable _ _ _ Hwf Hen) as [He Hp]. autorewrite with mrun in Hrun.
  case_bool_decide as Hpend; [by injection Hrun as <- <-|].
  autorewrite with mrun in Hrun.
  destruct (check_page a records) as [[[sid page]|]|e] eqn:Hc.
  - apply check_page_ok in Hc as (items & -> & Hitems & Hver & Hsid & _).
    autorewrite with mrun in Hrun. apply apply_page_run in Hrun as [(e & d & v & -> & ->)|(d & -> & Hev & ->)];
      [|simpl|done].
    + simpl. constructor; simpl; rewrite ?He, ?Hp; done.
    + rewrite (recorded_items_ok _ _ Hitems).
      constructor; simpl; rewrite ?He, ?Hp, ?Hpend; try done.
      * intros _. simpl in Hev. simpl. rewrite app_nil_r, evolve_app.
        pose proof (aw_state _ _ _ Hwf Hf) as Hs. rewrite Hpend, app_nil_r in Hs. by rewrite Hs.
      * intros _. rewrite zlen_app, (aw_version _ _ _ Hwf Hf). unfold zlen. by rewrite length_fmap.
  - injection Hrun as <- <-. cbn [is_ok].
    assert (agg_added (AgReplay records) a = []) as ->; [|by rewrite app_nil_r].
    unfold check_page in Hc. apply result_bind_ok in Hc as (items & -> & Hc).
    apply result_bind_ok in Hc as (pg & Hpg & Hc). apply recorded_items_ok in Hpg.
    destruct pg; [simpl; by rewrite Hpg|]. by apply result_bind_ok in Hc as (? & _ & ?).
  - injection Hrun as <- <-. by eapply agg_wf_faulted.
Qed.

Lemma enlist_wf initial h a o sid p : agg_wf initial h a → agg_wf initial h (_enlist o sid p a).2.
Proof.
  intros Hwf. unfold _enlist. autorewrite with mrun.
  destruct (_faulted a) eqn:Hf; [done|]. destruct (is_enlisted a) eqn:Hen; [done|].
  autorewrite with mrun. destruct (bool_decide (p = [])) eqn:Hne; [done|].
  destruct (seq_eqb PendingEvent_eqb p (_pending_events a)) eqn:Heq; [|done]. bool_hyps.
  simpl. autorewrite with mrun.
  assert (agg_wf initial h (set_prepared None (set_enlistment
    (Some {| en_owner := o; en_stream_id := sid; en_events := p |}) (set_stream_id (Some sid) a)))) as Hnew.
  { destruct Hwf as [Hs Hv _ _]. constructor; simpl; try done. by intros e [= <-]. }
  destruct (_stream_id a) as [s|]; autorewrite with mrun; [|done]. case_bool_decide; [done|].
  by autorewrite with mrun.
Qed.

Lemma prepare_wf initial h a i o p v :
  agg_wf initial h a → agg_wf initial h (_prepare_commit i o p v a).2.
Proof.
  intros Hwf. unfold _prepare_commit. autorewrite with mrun.
  destruct (_enlistment a) as [e|] eqn:He; [|done]. destruct (en_owner e =? o); [|done].
  autorewrite with mrun.
  destruct (seq_eqb _ p (en_events e)); [|done].
  destruct (seq_eqb _ p (_pending_events a)) eqn:Heq; [|done]. simpl. autorewrite with mrun.
  destruct (Z.eqb_spec v (_version a + zlen p)) as [->|]; [|done]. simpl. autorewrite with mrun.
  destruct Hwf as [Hs Hv Hen Hp]. constructor; simpl; try done. intros q [= <-]. split; [by rewrite He|].
  simpl. apply seq_eqb_length in Heq. unfold zlen. lia.
Qed.

Lemma mark_committed_wf initial h a p r a' :
  agg_wf initial h a → agg_op_ok (AgCommitted p) a → _mark_committed p a = (r, a') →
  agg_wf initial (if is_ok r then h ++ (pe_event <$> _pending_events a) else h) a'.
Proof.
  intros Hwf Hok Hrun. unfold _mark_committed in Hrun. autorewrite with mrun in Hrun.
  destruct (_prepared_commit a) as [q|] eqn:Hq; [|by injection Hrun as <- <-].
  destruct (Z.eqb_spec (pc_identity q) (pc_identity p)) as [Hid|]; simpl in Hrun;
    [|by injection Hrun as <- <-].
  rewrite (Hok q Hq Hid) in Hq. autorewrite with mrun in Hrun. injection Hrun as <- <-. simpl.
  destruct Hwf as [Hs Hv _ Hp]. destruct (Hp p Hq) as [_ Hver]. constructor; simpl; try done.
  - intros Hf. rewrite app_nil_r. auto.
  - intros Hf. rewrite Hver, zlen_app, Hv by done. unfold zlen. by rewrite length_fmap.
Qed.

Lemma release_wf initial h a o : agg_wf initial h a → agg_wf initial h (_release o a).2.
Proof.
  intros Hwf. unfold _release. autorewrite with mrun. destruct (_enlistment a) as [e|]; [|done].
  destruct (en_owner e =? o); [|done]. autorewrite with mrun. destruct Hwf. by constructor.
Qed.

Lemma fault_wf initial h a o : agg_wf initial h a → agg_wf initial h (_fault o a).2.
Proof.
  intros Hwf. unfold _fault. autorewrite with mrun. destruct (_enlistment a) as [e|]; [|done].
  destruct (en_owner e =? o); [|done]. autorewrite with mrun. destruct Hwf. by constructor.
Qed.

Lemma agg_reachable_wf type id initial a h :
  agg_reachable type id initial a h → agg_wf initial h a.
Proof.
  induction 1 as [|a h op a' r Hr IH Hok Hrun]; [by constructor|].
  destruct op; simpl in Hrun.
  - pose proof (raise_event_wf initial h a event metadata generated IH) as Hw. rewrite Hrun in Hw.
    simpl in Hw. rewrite app_nil_r. by destruct (is_ok r).
  - by eapply replay_wf.
  - pose proof (enlist_wf initial h a owner sid snapshot IH) as Hw. rewrite Hrun in Hw.
    simpl in Hw. rewrite app_nil_r. by destruct (is_ok r).
  - pose proof (prepare_wf initial h a identity owner snapshot version IH) as Hw.
    destruct (_prepare_commit _ _ _ _ a) as [[?|?] ?]; injection Hrun as <- <-; simpl in *;
      by rewrite ?app_nil_r.
  - by eapply mark_committed_wf.
  - pose proof (release_wf initial h a owner IH) as Hw. rewrite Hrun in Hw.
    simpl in Hw. rewrite app_nil_r. by destruct (is_ok r).
  - pose proof (fault_wf initial h a owner IH) as Hw. rewrite Hrun in Hw.
    simpl in Hw. rewrite app_nil_r. by destruct (is_ok r).
Qed.

(** ** Properties *)

(** The state of an aggregate is a function of its events: whatever calls
    were made on it, as long as it has not faulted, its domain state is the
    initial state evolved by its committed history followed by its pending
    events, and its version is the length of that history. *)
Theorem aggregate_state type id initial a h :
  agg_reachable type id initial a h → _faulted a = false →
  evolve initial (h ++ (pe_event <$> _pending_events a)) = Some (domain a) ∧
  _version a = zlen h.
Proof.
  intros Hwf%agg_reachable_wf Hf. split; [by apply (aw_state _ _ _ Hwf)|by apply (aw_version _ _ _ Hwf)].
Qed.

(** An enlisted or faulted aggregate cannot change: raising an event or
    replaying history is refused and leaves it exactly as it was. *)
Theorem aggregate_sealed a e m g records :
  _faulted a = true ∨ is_enlisted a = true →
  (∃ x, raise_event e m g a = (Err x, a)) ∧ (∃ x, _replay records a = (Err x, a)) ∧
  ∃ x, ∀ o sid p, _enlist o sid p a = (Err x, a).
Proof.
  intros Hs. unfold raise_event, _replay, _enlist. autorewrite with mrun.
  destruct (_faulted a) eqn:Hf; [|destruct Hs as [|Hs]; [done|rewrite Hs]];
    (split_and!; [eauto|eauto|]).
  - exists AggregateFaultedError. intros. autorewrite with mrun. by rewrite Hf.
  - exists AggregateEnlistedError. intros. autorewrite with mrun. by rewrite Hf, Hs.
Qed.

End aggregate.
Arguments AggregateRoot D : clear implicits.

(** ** A concrete aggregate *)

(** Its state is the list of what its events hold; an event that holds nothing
    is refused. *)
Definition ex_domain : Domain (list pyobj) :=
  {| _apply e := match event_value e with
                 | PyNone => raise (ForeignError 1)
                 | v => modify (λ d, d ++ [v])
                 end |}.
Definition ex_meta (id : uuid) : EventMetadata :=
  {| event_id := id; occurred_at := Datetime 0 (Some 0); correlation_id := None;
     causation_id := None; headers := [] |}.
Definition ex_raise (id : uuid) (v : pyobj) : agg_op :=
  AgRaise (Some {| event_class := 1; event_value := v |}) None (ex_meta id).
Definition ex_agg1 : AggregateRoot (list pyobj) :=
  (@agg_exec _ ex_domain (ex_raise 1 (PyInt 7)) (AggregateRoot_new 1 (PyInt 5) [])).2.
Definition ex_agg : AggregateRoot (list pyobj) :=
  (@agg_exec _ ex_domain (ex_raise 2 (PyInt 8)) ex_agg1).2.
Definition ex_sid : StreamId := {| category := str "task"; key := str "5" |}.
Definition ex_enlisted : AggregateRoot (list pyobj) :=
  (@agg_exec _ ex_domain (AgEnlist 9 ex_sid (_pending_events ex_agg)) ex_agg).2.

Lemma aggregate_state_witness :
  @evolve _ ex_domain [] (pe_event <$> _pending_events ex_enlisted) = Some (domain ex_enlisted) ∧
  domain ex_enlisted = [PyInt 7; PyInt 8].
Proof.
  split; [|reflexivity].
  assert (@agg_reachable _ ex_domain 1 (PyInt 5) [] ex_enlisted []) as Hr.
  { eapply (@agg_step _ ex_domain 1 (PyInt 5) [] ex_agg [] (AgEnlist 9 ex_sid (_pending_events ex_agg))
              ex_enlisted (Ok tt)); [|exact I|reflexivity].
    eapply (@agg_step _ ex_domain 1 (PyInt 5) [] ex_agg1 [] (ex_raise 2 (PyInt 8)) ex_agg (Ok tt));
      [|exact I|reflexivity].
    eapply (@agg_step _ ex_domain 1 (PyInt 5) [] (AggregateRoot_new 1 (PyInt 5) []) []
              (ex_raise 1 (PyInt 7)) ex_agg1 (Ok tt));
      [constructor|exact I|reflexivity]. }
  exact (proj1 (aggregate_state 1 (PyInt 5) [] ex_enlisted [] Hr eq_refl)).
Defined.

Lemma aggregate_sealed_witness :
  ∃ x, @raise_event _ ex_domain None None (ex_meta 3) ex_enlisted = (Err x, ex_enlisted).
Proof.
  exact (proj1 (@aggregate_sealed _ ex_domain ex_enlisted None None (ex_meta 3) (Ok [])
                  (or_intror eq_refl))).
Defined.
