(* ===== verification/EsUnitOfWork.v ===== *)
(** * Event sourcing: the unit of work

    [EventSourcingUnitOfWork] of [repository.py], on a state that holds the
    store transaction it owns, the aggregate objects (by identity) and the unit
    of work itself. The transaction is any implementation of the
    [EventStoreTransaction] protocol of [protocols.py]. *)

From Stdlib Require Import ZArith Lia.
From stdpp Require Import base tactics list gmap strings.
From S2P Require Import Prelude EsEvents EsAggregate.
Local Open Scope Z_scope.

(** ** The protocol *)

(** [tx_enter] is [store.transaction()] and the entry of its context, [tx_exit]
    the exit. [tx_commit] may return an object that is no [CommitResult]. *)
Class EventStoreTransaction (X : Type) := {
  tx_enter : M X es_error unit;
  tx_exit : M X es_error unit;
  tx_read_stream : StreamId → Z → Z → M X es_error (list StoredEvent);
  tx_append : StreamId → Z → list AppendEvent → M X es_error unit;
  tx_commit : M X es_error (option CommitResult);
  tx_rollback : M X es_error unit
}.

(** ** State *)

Inductive _UnitOfWorkState :=
| UNEW | UENTERING | UACTIVE | UCOMMITTING | UROLLING_BACK | UCOMMITTED | UROLLED_BACK | UFAULTED.

#[export] Instance _UnitOfWorkState_eq_dec : EqDecision _UnitOfWorkState.
Proof. solve_decision. Defined.

Record _CommitPlan := {
  plan_aggregate : Z;
  plan_stream_id : StreamId;
  plan_expected_version : Z;
  plan_pending : list PendingEvent;
  plan_append_events : list AppendEvent
}.

Definition plan_final_version (p : _CommitPlan) : Z :=
  plan_expected_version p + zlen (plan_pending p).

Record EventSourcingUnitOfWork := {
  uow_self : Z;
  uow_state : _UnitOfWorkState;
  uow_entered : bool;
  _plans : list _CommitPlan;
  _aggregates : gset Z;
  _streams : gset StreamId;
  _commit_result : option CommitResult;
  _outcome : option UnitOfWorkOutcome
}.

Definition EventSourcingUnitOfWork_new (self : Z) : EventSourcingUnitOfWork :=
  {| uow_self := self; uow_state := UNEW; uow_entered := false; _plans := []; _aggregates := ∅;
     _streams := ∅; _commit_result := None; _outcome := None |}.

Section unit_of_work.
Context {X : Type} `{EventStoreTransaction X} {D : Type} `{Domain D}.

Record uow_world := UowWorld {
  uw_tx : X;
  uw_heap : gmap Z (AggregateRoot D);
  uw_next : Z;
  uw : EventSourcingUnitOfWork
}.

Abbreviation U := (M uow_world es_error).

Definition on_transaction {A} (m : M X es_error A) : U A :=
  zoom uw_tx (λ t w, UowWorld t (uw_heap w) (uw_next w) (uw w)) m.

Definition on_aggregate {A} (i : Z) (m : M (AggregateRoot D) es_error A) : U A :=
  λ w, match uw_heap w !! i with
       | Some a => match m a with
                   | (r, a') => (r, UowWorld (uw_tx w) (<[i := a']> (uw_heap w)) (uw_next w) (uw w))
                   end
       | None => (Err AssertionError, w)
       end.

Definition read_aggregate {A} (i : Z) (f : AggregateRoot D → A) : U A :=
  w ← get; match uw_heap w !! i with Some a => mret (f a) | None => raise AssertionError end.

Definition fresh_identity : U Z :=
  w ← get;
  modify (λ w, UowWorld (uw_tx w) (uw_heap w) (uw_next w + 1) (uw w));;
  mret (uw_next w).

(** Assignments to the attributes. *)
Definition alter_uow (f : EventSourcingUnitOfWork → EventSourcingUnitOfWork) : U unit :=
  modify (λ w, UowWorld (uw_tx w) (uw_heap w) (uw_next w) (f (uw w))).
Definition with_uow_state (s : _UnitOfWorkState) (u : EventSourcingUnitOfWork) :=
  {| uow_self := uow_self u; uow_state := s; uow_entered := uow_entered u; _plans := _plans u;
     _aggregates := _aggregates u; _streams := _streams u; _commit_result := _commit_result u;
     _outcome := _outcome u |}.
Definition with_outcome (o : UnitOfWorkOutcome) (u : EventSourcingUnitOfWork) :=
  {| uow_self := uow_self u; uow_state := uow_state u; uow_entered := uow_entered u;
     _plans := _plans u; _aggregates := _aggregates u; _streams := _streams u;
     _commit_result := _commit_result u; _outcome := Some o |}.
Definition with_result (r : CommitResult) (u : EventSourcingUnitOfWork) :=
  {| uow_self := uow_self u; uow_state := uow_state u; uow_entered := uow_entered u;
     _plans := _plans u; _aggregates := _aggregates u; _streams := _streams u;
     _commit_result := Some r; _outcome := _outcome u |}.
Definition with_entered (u : EventSourcingUnitOfWork) :=
  {| uow_self := uow_self u; uow_state := uow_state u; uow_entered := true; _plans := _plans u;
     _aggregates := _aggregates u; _streams := _streams u; _commit_result := _commit_result u;
     _outcome := _outcome u |}.
Definition with_plan (p : _CommitPlan) (u : EventSourcingUnitOfWork) :=
  {| uow_self := uow_self u; uow_state := uow_state u; uow_entered := uow_entered u;
     _plans := _plans u ++ [p]; _aggregates := {[ plan_aggregate p ]} ∪ _aggregates u;
     _streams := {[ plan_stream_id p ]} ∪ _streams u; _commit_result := _commit_result u;
     _outcome := _outcome u |}.

(** The state and the outcome a call ends in. *)
Definition finish (s : _UnitOfWorkState) (o : UnitOfWorkOutcome) : U unit :=
  alter_uow (with_uow_state s);; alter_uow (with_outcome o).

(** ** Operations *)

Definition outcome : U UnitOfWorkOutcome :=
  w ← get;
  match _outcome (uw w) with Some o => mret o | None => raise UnitOfWorkLifecycleError end.

Definition _require_active : U unit :=
  w ← get; throw_if (bool_decide (uow_state (uw w) ≠ UACTIVE)) UnitOfWorkLifecycleError.

Definition __aenter__ : U unit :=
  w ← get;
  throw_if (bool_decide (uow_state (uw w) ≠ UNEW)) UnitOfWorkLifecycleError;;
  alter_uow (with_uow_state UENTERING);;
  try_except (on_transaction tx_enter)
    (λ e, finish UROLLED_BACK (ConfirmedNonCommit (Some e));; raise e);;
  alter_uow with_entered;;
  alter_uow (with_uow_state UACTIVE).

Fixpoint release_plans (self : Z) (plans : list _CommitPlan) : U unit :=
  match plans with
  | [] => mret tt
  | p :: plans =>
      enlisted ← read_aggregate (plan_aggregate p) is_enlisted;
      (if enlisted : bool then on_aggregate (plan_aggregate p) (_release self) else mret tt);;
      release_plans self plans
  end.
Definition _release_all : U unit := w ← get; release_plans (uow_self (uw w)) (_plans (uw w)).

Fixpoint fault_plans (self : Z) (plans : list _CommitPlan) : U unit :=
  match plans with
  | [] => mret tt
  | p :: plans =>
      enlisted ← read_aggregate (plan_aggregate p) is_enlisted;
      (if enlisted : bool then on_aggregate (plan_aggregate p) (_fault self) else mret tt);;
      fault_plans self plans
  end.
Definition _fault_all : U unit := w ← get; fault_plans (uow_self (uw w)) (_plans (uw w)).

Definition validate_stage (i : Z) (sid : StreamId) : U unit :=
  _require_active;;
  w ← get;
  throw_if (bool_decide (i ∈ _aggregates (uw w))) DuplicateAggregateSaveError;;
  throw_if (bool_decide (sid ∈ _streams (uw w))) DuplicateStreamAggregateError;;
  on_aggregate i (_validate_staging sid).

Definition stage (i : Z) (sid : StreamId) (pending : list PendingEvent)
    (append_events : list AppendEvent) : U unit :=
  validate_stage i sid;;
  w ← get;
  let self := uow_self (uw w) in
  on_aggregate i (_enlist self sid pending);;
  try_except
    (_require_active;;
     version ← read_aggregate i _version;
     on_transaction (tx_append sid version append_events))
    (λ e, on_aggregate i (_release self);; raise e);;
  version ← read_aggregate i _version;
  alter_uow (with_plan {| plan_aggregate := i; plan_stream_id := sid;
                          plan_expected_version := version; plan_pending := pending;
                          plan_append_events := append_events |}).

Definition _rollback (cause : option es_error) : U unit :=
  alter_uow (with_uow_state UROLLING_BACK);;
  try_except (on_transaction tx_rollback)
    (λ e, _fault_all;;
          finish UFAULTED (ConfirmedNonCommit (Some (default e cause)));; raise e);;
  _release_all;;
  finish UROLLED_BACK (ConfirmedNonCommit cause).

Definition rollback : U unit := _require_active;; _rollback None.

(** [try: rollback finally: ...] *)
Definition _rollback_and_fault (cause : es_error) : U unit :=
  let cleanup := _fault_all;; finish UFAULTED (ConfirmedNonCommit (Some cause)) in
  try_except (on_transaction tx_rollback) (λ e, cleanup;; raise e);;
  cleanup.

Fixpoint prepare_plans (self : Z) (plans : list _CommitPlan)
    : U (list (_CommitPlan * _PreparedCommit)) :=
  match plans with
  | [] => mret []
  | p :: plans =>
      i ← fresh_identity;
      prepared ← on_aggregate (plan_aggregate p)
                   (_prepare_commit i self (plan_pending p) (plan_final_version p));
      rest ← prepare_plans self plans;
      mret ((p, prepared) :: rest)
  end.

Fixpoint mark_plans (prepared : list (_CommitPlan * _PreparedCommit)) : U unit :=
  match prepared with
  | [] => mret tt
  | (p, transition) :: prepared =>
      on_aggregate (plan_aggregate p) (_mark_committed transition);; mark_plans prepared
  end.

(** The events a commit of the plans should return, with their versions. *)
Definition expected_events (plans : list _CommitPlan) : list (StreamId * Z * AppendEvent) :=
  p ← plans;
  imap (λ i e, (plan_stream_id p, plan_expected_version p + Z.of_nat i + 1, e))
    (plan_append_events p).

Definition matches_expected (s : StoredEvent) (x : StreamId * Z * AppendEvent) : bool :=
  bool_decide (stream_id s = x.1.1) && (stream_version s =? x.1.2)
  && AppendEvent_eqb (se_event s) x.2.

(** [zip(events, events[1:])]: consecutive positions. *)
Fixpoint contiguous (es : list StoredEvent) : bool :=
  match es with
  | a :: (b :: _) as t => (global_position b =? global_position a + 1) && contiguous t
  | _ => true
  end.

Definition _validate_result (plans : list _CommitPlan) (returned : option CommitResult)
    : result es_error CommitResult :=
  match returned with
  | None => Err CommitResultMismatchError
  | Some r =>
      let expected := expected_events plans in
      _ ← raise_if (negb (zlen (cr_events r) =? zlen expected)) CommitResultMismatchError;
      _ ← raise_if (negb (forallb (λ p, matches_expected p.1 p.2) (zip (cr_events r) expected)))
            CommitResultMismatchError;
      _ ← raise_if (negb (bool_decide (NoDup (se_event_id <$> cr_events r))))
            CommitResultMismatchError;
      _ ← raise_if (negb (contiguous (cr_events r))) CommitResultMismatchError;
      Ok r
  end.

(** What a failing [transaction.commit()] leads to. *)
Definition commit_failed {A} (e : es_error) : U A :=
  match e with
  | OptimisticConcurrencyError _ _ _ | DuplicateEventIdError _ =>
      _fault_all;; finish UROLLED_BACK (ConfirmedNonCommit (Some e))
  | IndeterminateCommitError => _fault_all;; finish UFAULTED (IndeterminateCommit e)
  | CancelledError | ConfirmedCommitError =>
      _release_all;; finish UROLLED_BACK (ConfirmedNonCommit (Some e))
  | _ => _fault_all;; finish UFAULTED (IndeterminateCommit e)
  end;;
  raise e.

Definition commit : U CommitResult :=
  _require_active;;
  w ← get;
  alter_uow (with_uow_state UCOMMITTING);;
  prepared ← try_except (prepare_plans (uow_self (uw w)) (_plans (uw w)))
               (λ e, _rollback_and_fault e;; raise e);
  result ← try_except (on_transaction tx_commit) commit_failed;
  result ← try_except (lift (_validate_result (_plans (uw w)) result))
             (λ e, _fault_all;; finish UFAULTED (IndeterminateCommit e);; raise e);
  alter_uow (with_result result);;
  alter_uow (with_outcome (ConfirmedCommit result));;
  mark_plans prepared;;
  alter_uow (with_uow_state UCOMMITTED);;
  mret result.

(** [error] is the exception the block ended with, if any. *)
Definition __aexit__ (error : option es_error) : U unit :=
  w ← get;
  if negb (uow_entered (uw w)) then mret tt
  else
    throw_if (bool_decide (uow_state (uw w) = UCOMMITTING)
              || bool_decide (uow_state (uw w) = UROLLING_BACK)) UnitOfWorkLifecycleError;;
    (if bool_decide (uow_state (uw w) = UACTIVE) then
       try_except (_rollback error)
         (λ rollback_error,
            _fault_all;;
            alter_uow (with_uow_state UFAULTED);;
            try_except (on_transaction tx_exit) (λ _, mret tt);;
            raise rollback_error)
     else mret tt);;
    try_except (on_transaction tx_exit)
      (λ cleanup_error,
         w ← get;
         match _commit_result (uw w) with
         | Some r => if bool_decide (uow_state (uw w) = UCOMMITTED)
                     then raise (ConfirmedCommitCleanupError r cleanup_error)
                     else raise cleanup_error
         | None => raise cleanup_error
         end).

(** ** Specification *)

(** A plan's aggregate is sealed by the unit of work, at the planned version. *)
Definition plan_ok (self : Z) (heap : gmap Z (AggregateRoot D)) (p : _CommitPlan) : Prop :=
  ∃ a, heap !! plan_aggregate p = Some a ∧
    _enlistment a = Some {| en_owner := self; en_stream_id := plan_stream_id p;
                            en_events := plan_pending p |} ∧
    seq_eqb PendingEvent_eqb (plan_pending p) (_pending_events a) = true ∧
    _faulted a = false ∧ _version a = plan_expected_version p.

(** An active unit of work: one plan per aggregate and per stream. *)
Record uow_wf (w : uow_world) : Prop := {
  uf_aggregates : NoDup (plan_aggregate <$> _plans (uw w));
  uf_streams : NoDup (plan_stream_id <$> _plans (uw w));
  uf_aggregate_set : _aggregates (uw w) = list_to_set (plan_aggregate <$> _plans (uw w));
  uf_stream_set : _streams (uw w) = list_to_set (plan_stream_id <$> _plans (uw w));
  uf_plans : Forall (plan_ok (uow_self (uw w)) (uw_heap w)) (_plans (uw w))
}.

(** The aggregates of the plans changed by [f], the others untouched. *)
Definition heap_mapped (f : AggregateRoot D → AggregateRoot D) (ids : list Z)
    (heap heap' : gmap Z (AggregateRoot D)) : Prop :=
  ∀ i, heap' !! i = if decide (i ∈ ids) then f <$> heap !! i else heap !! i.

Definition released (a : AggregateRoot D) : AggregateRoot D :=
  set_prepared None (set_enlistment None a).
Definition faulted (a : AggregateRoot D) : AggregateRoot D :=
  set_prepared None (set_enlistment None (set_faulted true a)).

(** ** Facts *)

Lemma uw_eta w : UowWorld (uw_tx w) (uw_heap w) (uw_next w) (uw w) = w.
Proof. by destruct w. Qed.
Lemma run_bind_alter {B} f (k : unit → U B) w :
  (alter_uow f ≫= k) w = k tt (UowWorld (uw_tx w) (uw_heap w) (uw_next w) (f (uw w))).
Proof. unfold alter_uow. by autorewrite with mrun. Qed.
Lemma run_alter f w : alter_uow f w = (Ok tt, UowWorld (uw_tx w) (uw_heap w) (uw_next w) (f (uw w))).
Proof. done. Qed.
Lemma run_bind_finish {B} s o (k : unit → U B) w :
  (finish s o ≫= k) w =
  k tt (UowWorld (uw_tx w) (uw_heap w) (uw_next w) (with_outcome o (with_uow_state s (uw w)))).
Proof. unfold finish. autorewrite with mrun. by rewrite run_bind_alter. Qed.
Lemma run_finish s o w :
  finish s o w =
  (Ok tt, UowWorld (uw_tx w) (uw_heap w) (uw_next w) (with_outcome o (with_uow_state s (uw w)))).
Proof. unfold finish. by rewrite run_bind_alter. Qed.
Lemma run_bind_active {B} (k : unit → U B) w :
  (_require_active ≫= k) w =
  if decide (uow_state (uw w) = UACTIVE) then k tt w else (Err UnitOfWorkLifecycleError, w).
Proof.
  unfold _require_active. autorewrite with mrun.
  destruct (decide (uow_state (uw w) = UACTIVE)) as [E|E].
  - rewrite bool_decide_eq_false_2 by (rewrite E; auto). by autorewrite with mrun.
  - by rewrite bool_decide_eq_true_2.
Qed.
#[local] Hint Rewrite @run_bind_alter @run_alter @run_bind_finish @run_finish @run_bind_active : mrun.

Lemma run_bind_on_aggregate {A B} i (m : M (AggregateRoot D) es_error A) (k : A → U B) w a r a' :
  uw_heap w !! i = Some a → m a = (r, a') →
  (on_aggregate i m ≫= k) w =
  match r with
  | Ok x => k x (UowWorld (uw_tx w) (<[i := a']> (uw_heap w)) (uw_next w) (uw w))
  | Err e => (Err e, UowWorld (uw_tx w) (<[i := a']> (uw_heap w)) (uw_next w) (uw w))
  end.
Proof. intros Ha Hm. unfold on_aggregate, mbind, M_bind. rewrite Ha, Hm. by destruct r. Qed.

Lemma run_bind_read_aggregate {A B} i (f : AggregateRoot D → A) (k : A → U B) w a :
  uw_heap w !! i = Some a → (read_aggregate i f ≫= k) w = k (f a) w.
Proof. intros Ha. unfold read_aggregate. autorewrite with mrun. rewrite Ha. by autorewrite with mrun. Qed.

Lemma heap_mapped_step f i ids heap heap' a :
  heap !! i = Some a → (i ∉ ids) → heap_mapped f ids (<[i := f a]> heap) heap' →
  heap_mapped f (i :: ids) heap heap'.
Proof.
  intros Ha Hi Hm j. rewrite Hm, lookup_insert. destruct (decide (i = j)) as [<-|Hne].
  - rewrite decide_False by done. rewrite decide_True by (by left). by rewrite Ha.
  - destruct (decide (j ∈ ids)) as [Hj|Hj].
    + rewrite decide_True by (by right). done.
    + rewrite decide_False; [done|]. intros [->|?]%elem_of_cons; done.
Qed.

Lemma plan_ok_insert self heap i a p :
  plan_aggregate p ≠ i → plan_ok self heap p → plan_ok self (<[i := a]> heap) p.
Proof. intros Hne (x & Hx & ?). exists x. by rewrite lookup_insert_ne. Qed.

(** What [_release] and [_fault] do to an aggregate the unit of work owns. *)
Lemma release_run self a e :
  _enlistment a = Some e → en_owner e = self → _release self a = (Ok tt, released a).
Proof.
  intros He Ho. unfold _release, _owned_enlistment. autorewrite with mrun. rewrite He.
  autorewrite with mrun. rewrite Ho, Z.eqb_refl. simpl. by autorewrite with mrun.
Qed.
Lemma fault_run self a e :
  _enlistment a = Some e → en_owner e = self → _fault self a = (Ok tt, faulted a).
Proof.
  intros He Ho. unfold _fault, _owned_enlistment. autorewrite with mrun. rewrite He.
  autorewrite with mrun. rewrite Ho, Z.eqb_refl. simpl. by autorewrite with mrun.
Qed.

(** The plans' aggregates belong to the unit of work. *)
Definition plans_owned (self : Z) (heap : gmap Z (AggregateRoot D)) (plans : list _CommitPlan) :=
  Forall (λ p, ∃ a e, heap !! plan_aggregate p = Some a ∧ _enlistment a = Some e ∧
                      en_owner e = self) plans.

Lemma plans_ok_owned self heap plans :
  Forall (plan_ok self heap) plans → plans_owned self heap plans.
Proof.
  intros Hf. eapply Forall_impl; [exact Hf|]. intros p (a & Ha & He & _). by eexists a, _.
Qed.

Lemma plans_owned_insert self heap plans i a :
  (i ∉ plan_aggregate <$> plans) → plans_owned self heap plans →
  plans_owned self (<[i := a]> heap) plans.
Proof.
  intros Hi Hp. apply Forall_forall. intros p Hin. unfold plans_owned in Hp.
  rewrite Forall_forall in Hp. destruct (Hp p Hin) as (x & e & Hx & ?). exists x, e.
  rewrite lookup_insert_ne; [done|]. intros ->. apply Hi. by apply list_elem_of_fmap_2.
Qed.

Lemma release_plans_run self plans w :
  NoDup (plan_aggregate <$> plans) → plans_owned self (uw_heap w) plans →
  ∃ heap, release_plans self plans w = (Ok tt, UowWorld (uw_tx w) heap (uw_next w) (uw w)) ∧
    heap_mapped released (plan_aggregate <$> plans) (uw_heap w) heap.
Proof.
  revert w. induction plans as [|p plans IH]; intros w Hnd Hown; simpl.
  - exists (uw_heap w). split; [by destruct w|]. intros i. by rewrite decide_False by set_solver.
  - simpl in Hnd. apply NoDup_cons in Hnd as [Hp Hnd]. apply Forall_cons in Hown as [(a & e & Ha & He & Ho) Hown].
    rewrite (run_bind_read_aggregate _ _ _ _ a Ha). unfold is_enlisted.
    rewrite He, bool_decide_eq_true_2 by eauto.
    rewrite (run_bind_on_aggregate _ _ _ _ a _ _ Ha (release_run self a e He Ho)).
    destruct (IH (UowWorld (uw_tx w) (<[plan_aggregate p := released a]> (uw_heap w)) (uw_next w) (uw w)))
      as (heap & Hrun & Hm); [done|by apply plans_owned_insert|].
    exists heap. split; [exact Hrun|]. by apply (heap_mapped_step _ _ _ _ _ a).
Qed.

Lemma fault_plans_run self plans w :
  NoDup (plan_aggregate <$> plans) → plans_owned self (uw_heap w) plans →
  ∃ heap, fault_plans self plans w = (Ok tt, UowWorld (uw_tx w) heap (uw_next w) (uw w)) ∧
    heap_mapped faulted (plan_aggregate <$> plans) (uw_heap w) heap.
Proof.
  revert w. induction plans as [|p plans IH]; intros w Hnd Hown; simpl.
  - exists (uw_heap w). split; [by destruct w|]. intros i. by rewrite decide_False by set_solver.
  - simpl in Hnd. apply NoDup_cons in Hnd as [Hp Hnd]. apply Forall_cons in Hown as [(a & e & Ha & He & Ho) Hown].
    rewrite (run_bind_read_aggregate _ _ _ _ a Ha). unfold is_enlisted.
    rewrite He, bool_decide_eq_true_2 by eauto.
    rewrite (run_bind_on_aggregate _ _ _ _ a _ _ Ha (fault_run self a e He Ho)).
    destruct (IH (UowWorld (uw_tx w) (<[plan_aggregate p := faulted a]> (uw_heap w)) (uw_next w) (uw w)))
      as (heap & Hrun & Hm); [done|by apply plans_owned_insert|].
    exists heap. split; [exact Hrun|]. by apply (heap_mapped_step _ _ _ _ _ a).
Qed.

(** ** Commit *)

Definition committed_as (v : Z) (a : AggregateRoot D) : AggregateRoot D :=
  set_prepared None (set_enlistment None (set_pending [] (set_version v a))).

Lemma prepare_run i self p heap a :
  plan_ok self heap p → heap !! plan_aggregate p = Some a →
  let prepared := {| pc_identity := i; pc_owner := self; pc_events := plan_pending p;
                     pc_version := plan_final_version p |} in
  _prepare_commit i self (plan_pending p) (plan_final_version p) a =
  (Ok prepared, set_prepared (Some prepared) a).
Proof.
  intros (a' & Ha' & He & Hp & Hf & Hv) Ha. rewrite Ha in Ha'. injection Ha' as <-.
  unfold _prepare_commit, _owned_enlistment. autorewrite with mrun. rewrite He.
  autorewrite with mrun. simpl. rewrite Z.eqb_refl. simpl. autorewrite with mrun.
  rewrite Hp, seq_eqb_refl by apply PendingEvent_eqb_refl. simpl. autorewrite with mrun.
  unfold plan_final_version. rewrite Hv, Z.eqb_refl. simpl. by autorewrite with mrun.
Qed.

(** The plans with the transitions prepared for them. *)
Definition prepared_ok (heap heap' : gmap Z (AggregateRoot D))
    (pp : _CommitPlan * _PreparedCommit) : Prop :=
  ∃ a, heap !! plan_aggregate pp.1 = Some a ∧
    heap' !! plan_aggregate pp.1 = Some (set_prepared (Some pp.2) a) ∧
    pc_version pp.2 = plan_final_version pp.1.

Lemma prepare_plans_run self plans w :
  NoDup (plan_aggregate <$> plans) → Forall (plan_ok self (uw_heap w)) plans →
  ∃ prepared heap next,
    prepare_plans self plans w = (Ok prepared, UowWorld (uw_tx w) heap next (uw w)) ∧
    prepared.*1 = plans ∧ Forall (prepared_ok (uw_heap w) heap) prepared ∧
    ∀ i, (i ∉ plan_aggregate <$> plans) → heap !! i = uw_heap w !! i.
Proof.
  revert w. induction plans as [|p plans IH]; intros w Hnd Hok; simpl.
  - exists [], (uw_heap w), (uw_next w). split_and!; [by destruct w|done|constructor|done].
  - simpl in Hnd. apply NoDup_cons in Hnd as [Hp Hnd]. apply Forall_cons in Hok as [Hpok Hok].
    pose proof Hpok as (a & Ha & _).
    unfold fresh_identity. autorewrite with mrun.
    set (w1 := UowWorld (uw_tx w) (uw_heap w) (uw_next w + 1) (uw w)).
    rewrite (run_bind_on_aggregate _ _ _ w1 a _ _ Ha (prepare_run (uw_next w) self p _ a Hpok Ha)).
    set (pc := {| pc_identity := uw_next w; pc_owner := self; pc_events := plan_pending p;
                  pc_version := plan_final_version p |}).
    set (w2 := UowWorld (uw_tx w1) (<[plan_aggregate p := set_prepared (Some pc) a]> (uw_heap w1))
                 (uw_next w1) (uw w1)).
    destruct (IH w2) as (prepared & heap & next & Hrun & Hfst & Hall & Hother); [done| |].
    { rewrite Forall_forall in Hok |- *. intros q Hq. apply plan_ok_insert; [|by apply Hok].
      intros E. apply Hp. rewrite <- E. by apply list_elem_of_fmap_2. }
    rewrite (M_bind_run _ _ _ _ _ Hrun).
    exists ((p, pc) :: prepared), heap, next. split_and!; [done|by rewrite fmap_cons, Hfst| |].
    + constructor.
      * exists a. split_and!; [done| |done]. rewrite Hother by done. apply lookup_insert_eq.
      * rewrite Forall_forall in Hall |- *. intros pp Hpp. destruct (Hall pp Hpp) as (x & Hx & Hx' & Hv).
        exists x. split_and!; [|done|done]. simpl in Hx. rewrite lookup_insert_ne in Hx; [done|].
        intros E. apply Hp. rewrite E, <- Hfst. apply list_elem_of_fmap. exists pp.1.
        split; [done|]. by apply list_elem_of_fmap_2.
    + intros i Hi. rewrite Hother by set_solver. simpl. rewrite lookup_insert_ne; [done|set_solver].
Qed.

Lemma mark_run p a : _mark_committed p (set_prepared (Some p) a) = (Ok tt, committed_as (pc_version p) a).
Proof.
  unfold _mark_committed. autorewrite with mrun. simpl. rewrite Z.eqb_refl. simpl.
  by autorewrite with mrun.
Qed.

Lemma mark_plans_run heap0 prepared w :
  NoDup (plan_aggregate <$> prepared.*1) → Forall (prepared_ok heap0 (uw_heap w)) prepared →
  ∃ heap, mark_plans prepared w = (Ok tt, UowWorld (uw_tx w) heap (uw_next w) (uw w)) ∧
    (∀ p, p ∈ prepared.*1 → ∃ a, heap0 !! plan_aggregate p = Some a ∧
       heap !! plan_aggregate p = Some (committed_as (plan_final_version p) a)) ∧
    ∀ i, (i ∉ plan_aggregate <$> prepared.*1) → heap !! i = uw_heap w !! i.
Proof.
  revert w. induction prepared as [|[p pc] prepared IH]; intros w Hnd Hok; simpl.
  - exists (uw_heap w). split_and!; [by destruct w|by intros p ?%elem_of_nil|done].
  - simpl in Hnd. apply NoDup_cons in Hnd as [Hp Hnd].
    apply Forall_cons in Hok as [(a & Ha0 & Ha & Hv) Hok]. simpl in *.
    rewrite (run_bind_on_aggregate _ _ _ w _ _ _ Ha (mark_run pc a)).
    set (w1 := UowWorld (uw_tx w) (<[plan_aggregate p := committed_as (pc_version pc) a]> (uw_heap w))
                 (uw_next w) (uw w)).
    destruct (IH w1) as (heap & Hrun & Hall & Hother); [done| |].
    { rewrite Forall_forall in Hok |- *. intros pp Hpp. destruct (Hok pp Hpp) as (x & Hx & Hx' & Hv').
      exists x. split_and!; [done| |done]. simpl. rewrite lookup_insert_ne; [done|].
      intros E. apply Hp. rewrite E. apply list_elem_of_fmap. exists pp.1.
      split; [done|]. by apply list_elem_of_fmap_2. }
    exists heap. split_and!; [exact Hrun| |].
    + intros q [->|Hq]%elem_of_cons; [|by apply Hall]. exists a. split; [done|].
      rewrite Hother by done. simpl. rewrite lookup_insert_eq. by rewrite Hv.
    + intros i Hi. rewrite Hother by set_solver. simpl. rewrite lookup_insert_ne; [done|set_solver].
Qed.

(** Releasing or faulting forgets what was prepared. *)
Lemma heap_mapped_prepared f plans prepared (heap heap1 heap2 : gmap Z (AggregateRoot D)) :
  (∀ a p, f (set_prepared p a) = f a) → prepared.*1 = plans →
  Forall (prepared_ok heap heap1) prepared →
  (∀ i, (i ∉ plan_aggregate <$> plans) → heap1 !! i = heap !! i) →
  heap_mapped f (plan_aggregate <$> plans) heap1 heap2 →
  heap_mapped f (plan_aggregate <$> plans) heap heap2.
Proof.
  intros Hf Hfst Hall Hother Hm i. rewrite Hm. destruct (decide _) as [Hi|Hi]; [|by apply Hother].
  rewrite <- Hfst in Hi. apply list_elem_of_fmap in Hi as (p & -> & Hp).
  apply list_elem_of_fmap in Hp as (pp & -> & Hpp). rewrite Forall_forall in Hall.
  destruct (Hall pp Hpp) as (a & Ha & Ha' & _). rewrite Ha, Ha'. simpl. by rewrite Hf.
Qed.

(** How the aggregates and the unit of work are left after a failed commit. *)
Inductive commit_failure (e : es_error) : (AggregateRoot D → AggregateRoot D) → _UnitOfWorkState →
    UnitOfWorkOutcome → Prop :=
| failed_conflict : (∃ s v w, e = OptimisticConcurrencyError s v w) ∨ (∃ i, e = DuplicateEventIdError i) →
    commit_failure e faulted UROLLED_BACK (ConfirmedNonCommit (Some e))
| failed_reusable : e = CancelledError ∨ e = ConfirmedCommitError →
    commit_failure e released UROLLED_BACK (ConfirmedNonCommit (Some e))
| failed_unknown : (∀ s v w, e ≠ OptimisticConcurrencyError s v w) → (∀ i, e ≠ DuplicateEventIdError i) →
    e ≠ CancelledError → e ≠ ConfirmedCommitError →
    commit_failure e faulted UFAULTED (IndeterminateCommit e).

Lemma commit_failed_run {A} e w :
  NoDup (plan_aggregate <$> _plans (uw w)) → plans_owned (uow_self (uw w)) (uw_heap w) (_plans (uw w)) →
  ∃ f s o heap, commit_failure e f s o ∧
    heap_mapped f (plan_aggregate <$> _plans (uw w)) (uw_heap w) heap ∧
    (commit_failed e : U A) w =
    (Err e, UowWorld (uw_tx w) heap (uw_next w) (with_outcome o (with_uow_state s (uw w)))).
Proof.
  intros Hnd Hown.
  destruct (release_plans_run _ _ w Hnd Hown) as (h1 & Hr & Hm1).
  destruct (fault_plans_run _ _ w Hnd Hown) as (h2 & Hf & Hm2).
  assert (∀ s o, (_release_all;; finish s o) w =
    (Ok tt, UowWorld (uw_tx w) h1 (uw_next w) (with_outcome o (with_uow_state s (uw w))))) as Hrel.
  { intros s o. unfold _release_all. autorewrite with mrun. rewrite (M_bind_run _ _ _ _ _ Hr). done. }
  assert (∀ s o, (_fault_all;; finish s o) w =
    (Ok tt, UowWorld (uw_tx w) h2 (uw_next w) (with_outcome o (with_uow_state s (uw w))))) as Hflt.
  { intros s o. unfold _fault_all. autorewrite with mrun. rewrite (M_bind_run _ _ _ _ _ Hf). done. }
  unfold commit_failed.
  destruct e; do 3 eexists; eexists; (split; [|split; [|erewrite M_bind_run; [reflexivity|]]]);
    try apply Hrel; try apply Hflt; try exact Hm1; try exact Hm2;
    first [ by apply failed_conflict; eauto | by apply failed_reusable; auto
          | by apply failed_unknown ].
Qed.

Lemma run_bind_try_transaction {A B} (m : M X es_error A) h (k : A → U B) w :
  (try_except (on_transaction m) h ≫= k) w =
  match m (uw_tx w) with
  | (Ok a, t) => k a (UowWorld t (uw_heap w) (uw_next w) (uw w))
  | (Err e, t) => (h e ≫= k) (UowWorld t (uw_heap w) (uw_next w) (uw w))
  end.
Proof.
  unfold try_except, on_transaction, zoom, mbind, M_bind. by destruct (m (uw_tx w)) as [[]].
Qed.

Lemma prepared_owned self heap heap1 prepared :
  Forall (prepared_ok heap heap1) prepared → Forall (plan_ok self heap) (prepared.*1) →
  plans_owned self heap1 (prepared.*1).
Proof.
  intros Hall Hpl. apply Forall_forall. intros p Hp. rewrite Forall_forall in Hpl.
  destruct (Hpl p Hp) as (a' & Haa & He & _).
  apply list_elem_of_fmap in Hp as (pp & -> & Hpp). rewrite Forall_forall in Hall.
  destruct (Hall pp Hpp) as (a & Ha & Ha' & _).
  rewrite Ha in Haa. injection Haa as <-. by eexists _, _.
Qed.

(** A commit whose result is not what was staged. *)
Lemma fault_commit_run {A} e w :
  NoDup (plan_aggregate <$> _plans (uw w)) → plans_owned (uow_self (uw w)) (uw_heap w) (_plans (uw w)) →
  ∃ heap, heap_mapped faulted (plan_aggregate <$> _plans (uw w)) (uw_heap w) heap ∧
    (_fault_all;; finish UFAULTED (IndeterminateCommit e);; raise e : U A) w =
    (Err e, UowWorld (uw_tx w) heap (uw_next w)
       (with_outcome (IndeterminateCommit e) (with_uow_state UFAULTED (uw w)))).
Proof.
  intros Hnd Hown.
  destruct (fault_plans_run (uow_self (uw w)) (_plans (uw w)) w Hnd Hown) as (h2 & Hf & Hm).
  exists h2. split; [done|]. unfold _fault_all. autorewrite with mrun.
  rewrite (M_bind_run _ _ _ _ _ Hf). autorewrite with mrun. done.
Qed.

(** Everything a commit can do, given what the transaction's commit did. *)
Lemma commit_cases w r w' :
  uow_wf w → uow_state (uw w) = UACTIVE → commit w = (r, w') →
  uw_tx w' = (tx_commit (uw_tx w)).2 ∧
  ((∃ res, (tx_commit (uw_tx w)).1 = Ok (Some res) ∧
      _validate_result (_plans (uw w)) (Some res) = Ok res ∧ r = Ok res ∧
      uow_state (uw w') = UCOMMITTED ∧ _outcome (uw w') = Some (ConfirmedCommit res) ∧
      (∀ p, p ∈ _plans (uw w) → ∃ a, uw_heap w !! plan_aggregate p = Some a ∧
         uw_heap w' !! plan_aggregate p = Some (committed_as (plan_final_version p) a)) ∧
      ∀ i, (i ∉ plan_aggregate <$> _plans (uw w)) → uw_heap w' !! i = uw_heap w !! i) ∨
   (∃ e f s o, r = Err e ∧ uow_state (uw w') = s ∧ _outcome (uw w') = Some o ∧
      heap_mapped f (plan_aggregate <$> _plans (uw w)) (uw_heap w) (uw_heap w') ∧
      ((tx_commit (uw_tx w)).1 = Err e ∧ commit_failure e f s o ∨
       (∃ returned, (tx_commit (uw_tx w)).1 = Ok returned ∧
          _validate_result (_plans (uw w)) returned = Err e) ∧
       f = faulted ∧ s = UFAULTED ∧ o = IndeterminateCommit e))).
Proof.
  intros Hwf Hact Hrun. unfold commit in Hrun. autorewrite with mrun in Hrun.
  rewrite decide_True in Hrun by done. autorewrite with mrun in Hrun.
  set (w1 := UowWorld (uw_tx w) (uw_heap w) (uw_next w) (with_uow_state UCOMMITTING (uw w))) in *.
  destruct (prepare_plans_run (uow_self (uw w)) (_plans (uw w)) w1)
    as (prepared & heap1 & next & Hprep & Hfst & Hall & Hother); [apply Hwf..|].
  change (uw_heap w1) with (uw_heap w) in Hall, Hother.
  rewrite (M_bind_eq _ _ w1 (Ok prepared) (UowWorld (uw_tx w1) heap1 next (uw w1))) in Hrun
    by (unfold try_except; by rewrite Hprep).
  rewrite run_bind_try_transaction in Hrun. simpl uw_tx in Hrun. simpl uw_heap in Hrun.
  destruct (tx_commit (uw_tx w)) as [c t]. simpl fst. simpl snd. simpl uw_next in Hrun.
  set (w2 := UowWorld t heap1 next (uw w1)) in *.
  assert (NoDup (plan_aggregate <$> _plans (uw w))) as Hnd by apply Hwf.
  assert (plans_owned (uow_self (uw w)) heap1 (_plans (uw w))) as Hown.
  { rewrite <- Hfst. eapply prepared_owned; [exact Hall|]. rewrite Hfst. apply Hwf. }
  destruct c as [returned|e]; cbv beta in Hrun.
  - destruct (_validate_result (_plans (uw w)) returned) as [res|e] eqn:Hval.
    + assert (returned = Some res) as ->.
      { unfold _validate_result in Hval. destruct returned as [x|]; [|done].
        repeat (apply result_bind_ok in Hval as (? & _ & Hval)). by simplify_eq. }
      rewrite (M_bind_eq _ _ _ (Ok res) w2) in Hrun by done.
      autorewrite with mrun in Hrun. simpl in Hrun.
      destruct (mark_plans_run (uw_heap w) prepared
        (UowWorld t heap1 next (with_outcome (ConfirmedCommit res) (with_result res (uw w1)))))
        as (heap2 & Hmark & Hdone & Hrest); [by rewrite Hfst|done|].
      rewrite (M_bind_run _ _ _ _ _ Hmark) in Hrun. autorewrite with mrun in Hrun.
      injection Hrun as <- <-. split; [done|]. left. exists res. rewrite Hfst in *.
      split_and!; try done. intros k Hk. simpl. rewrite Hrest by done. by apply Hother.
    + destruct (@fault_commit_run CommitResult e w2 Hnd Hown) as (h2 & Hm & Hf).
      rewrite (M_bind_eq _ _ _ _ _ Hf) in Hrun. injection Hrun as <- <-. split; [done|]. right.
      eexists e, faulted, UFAULTED, (IndeterminateCommit e). split_and!; try done; [|right; eauto 10].
      by eapply (heap_mapped_prepared faulted _ prepared (uw_heap w) heap1 h2).
  - destruct (@commit_failed_run (option CommitResult) e w2 Hnd Hown) as (f & s & o & h2 & Hfail & Hm & Hcf).
    rewrite (M_bind_eq _ _ _ _ _ Hcf) in Hrun. injection Hrun as <- <-. split; [done|]. right.
    exists e, f, s, o. split_and!; try done; [|by left].
    eapply (heap_mapped_prepared f _ prepared (uw_heap w) heap1 h2); try done.
    by destruct Hfail.
Qed.

(** ** Staging *)

Lemma run_bind_on_transaction {A B} (m : M X es_error A) (k : A → U B) w :
  (on_transaction m ≫= k) w =
  match m (uw_tx w) with
  | (Ok a, t) => k a (UowWorld t (uw_heap w) (uw_next w) (uw w))
  | (Err e, t) => (Err e, UowWorld t (uw_heap w) (uw_next w) (uw w))
  end.
Proof. unfold on_transaction, zoom, mbind, M_bind. by destruct (m (uw_tx w)) as [[]]. Qed.

Lemma validate_staging_run sid (a : AggregateRoot D) r a' :
  _validate_staging sid a = (r, a') →
  a' = a ∧ (r = Ok tt → _faulted a = false ∧ _enlistment a = None).
Proof.
  unfold _validate_staging. rewrite run_bind_mutable. destruct (_faulted a); [by intros [= <- <-]|].
  destruct (is_enlisted a) eqn:He; [by intros [= <- <-]|]. autorewrite with mrun.
  unfold is_enlisted in He. bool_hyps. apply eq_None_not_Some in He.
  destruct (_stream_id a); autorewrite with mrun; [case_bool_decide|]; by intros [= <- <-].
Qed.

Lemma enlist_run o sid p (a : AggregateRoot D) r a' :
  _enlist o sid p a = (r, a') →
  (∃ e, r = Err e ∧ a' = a) ∨
  r = Ok tt ∧ _faulted a = false ∧ seq_eqb PendingEvent_eqb p (_pending_events a) = true ∧ p ≠ [] ∧
  a' = set_prepared None (set_enlistment
    (Some {| en_owner := o; en_stream_id := sid; en_events := p |}) (set_stream_id (Some sid) a)).
Proof.
  unfold _enlist. rewrite run_bind_mutable. destruct (_faulted a) eqn:Hf; [intros [= <- <-]; eauto|].
  destruct (is_enlisted a) eqn:He; [intros [= <- <-]; eauto|]. autorewrite with mrun. rewrite He.
  autorewrite with mrun. destruct (bool_decide (p = [])) eqn:Hp; [intros [= <- <-]; eauto|].
  destruct (seq_eqb PendingEvent_eqb p (_pending_events a)) eqn:Heq; simpl; autorewrite with mrun;
    [|intros [= <- <-]; eauto]. bool_hyps.
  destruct (_stream_id a); autorewrite with mrun; [case_bool_decide|];
    autorewrite with mrun; intros [= <- <-]; eauto 10.
Qed.

Lemma Forall_plan_insert self heap plans i a :
  (i ∉ plan_aggregate <$> plans) → Forall (plan_ok self heap) plans →
  Forall (plan_ok self (<[i := a]> heap)) plans.
Proof.
  intros Hi Hp. rewrite Forall_forall in Hp |- *. intros p Hin. apply plan_ok_insert; [|by apply Hp].
  intros <-. apply Hi. by apply list_elem_of_fmap_2.
Qed.

(** A unit of work with the same plans and a changed object outside of them. *)
Lemma uow_wf_insert w i a t :
  (i ∉ plan_aggregate <$> _plans (uw w)) → uow_wf w →
  uow_wf (UowWorld t (<[i := a]> (uw_heap w)) (uw_next w) (uw w)).
Proof. intros Hi []. constructor; simpl; try done. by apply Forall_plan_insert. Qed.

(** A recorded plan. *)
Lemma uow_wf_planned w p :
  uow_wf w → (plan_aggregate p ∉ plan_aggregate <$> _plans (uw w)) →
  (plan_stream_id p ∉ plan_stream_id <$> _plans (uw w)) → plan_ok (uow_self (uw w)) (uw_heap w) p →
  uow_wf (UowWorld (uw_tx w) (uw_heap w) (uw_next w) (with_plan p (uw w))).
Proof.
  intros [H1 H2 H3 H4 H5] Hi Hs Hp. constructor; simpl in *; rewrite ?fmap_app; simpl.
  - apply NoDup_app. split_and!; [done| |apply NoDup_singleton]. set_solver.
  - apply NoDup_app. split_and!; [done| |apply NoDup_singleton]. set_solver.
  - rewrite H3, list_to_set_app_L. simpl. set_solver.
  - rewrite H4, list_to_set_app_L. simpl. set_solver.
  - apply Forall_app. split; [done|]. by apply Forall_singleton.
Qed.

(** The append that [stage] protects. *)
Lemma stage_append_run i sid app w a r t :
  uow_state (uw w) = UACTIVE → uw_heap w !! i = Some a →
  tx_append sid (_version a) app (uw_tx w) = (r, t) →
  (_require_active;; version ← read_aggregate i _version;
   on_transaction (tx_append sid version app) : U unit) w =
  (r, UowWorld t (uw_heap w) (uw_next w) (uw w)).
Proof.
  intros Hact Ha Happ. autorewrite with mrun. rewrite decide_True by done.
  rewrite (run_bind_read_aggregate _ _ _ _ a Ha).
  unfold on_transaction, zoom. simpl. by rewrite Happ.
Qed.

(** Staging: either the aggregate is sealed, its events are staged in the
    transaction and the plan is recorded, or no plan is recorded and the
    aggregate is not left sealed. *)
Lemma stage_cases i sid pending app w r w' :
  uow_wf w → stage i sid pending app w = (r, w') →
  uow_wf w' ∧ uow_state (uw w') = uow_state (uw w) ∧
  match r with
  | Ok _ => uow_state (uw w) = UACTIVE ∧ ∃ a, uw_heap w !! i = Some a ∧
      tx_append sid (_version a) app (uw_tx w) = (Ok tt, uw_tx w') ∧
      _plans (uw w') = _plans (uw w) ++
        [{| plan_aggregate := i; plan_stream_id := sid; plan_expected_version := _version a;
            plan_pending := pending; plan_append_events := app |}]
  | Err e => _plans (uw w') = _plans (uw w) ∧
      (∀ a', uw_heap w' !! i = Some a' → (i ∉ plan_aggregate <$> _plans (uw w)) →
         ∃ a, uw_heap w !! i = Some a ∧
           (a' = a ∨ _enlistment a' = None ∧ _pending_events a' = _pending_events a ∧
                     _version a' = _version a ∧ _faulted a' = false)) ∧
      (uw_tx w' = uw_tx w ∨ ∃ v, tx_append sid v app (uw_tx w) = (Err e, uw_tx w'))
  end.
Proof.
  intros Hwf Hrun. unfold stage, validate_stage in Hrun. autorewrite with mrun in Hrun.
  destruct (decide (uow_state (uw w) = UACTIVE)) as [Hact|]; [|injection Hrun as <- <-; eauto 10].
  autorewrite with mrun in Hrun.
  case_bool_decide as Hi; [injection Hrun as <- <-; eauto 10|]. autorewrite with mrun in Hrun.
  case_bool_decide as Hs; [injection Hrun as <- <-; eauto 10|]. autorewrite with mrun in Hrun.
  rewrite (uf_aggregate_set _ Hwf), elem_of_list_to_set in Hi.
  rewrite (uf_stream_set _ Hwf), elem_of_list_to_set in Hs.
  destruct (uw_heap w !! i) as [a|] eqn:Ha; last first.
  { unfold on_aggregate in Hrun. unfold mbind, M_bind in Hrun. rewrite Ha in Hrun.
    injection Hrun as <- <-. split_and!; try done; [|by left]. intros a' ?. congruence. }
  destruct (_validate_staging sid a) as [v a0] eqn:Hv.
  rewrite (run_bind_on_aggregate _ _ _ _ a _ _ Ha Hv) in Hrun.
  apply validate_staging_run in Hv as [-> Hv]. rewrite insert_id, uw_eta in Hrun by done.
  destruct v as [[]|e]; last first.
  { injection Hrun as <- <-. split_and!; [by destruct w|done|done| |by left].
    intros a' Ha' _. exists a. simpl in Ha'. split; [done|left]. congruence. }
  destruct (Hv eq_refl) as [Hf He]. autorewrite with mrun in Hrun.
  destruct (_enlist (uow_self (uw w)) sid pending a) as [en a1] eqn:Hen.
  rewrite (run_bind_on_aggregate _ _ _ _ a _ _ Ha Hen) in Hrun.
  apply enlist_run in Hen as [(e & -> & ->)|(-> & _ & Heq & Hne & Ea1)].
  { injection Hrun as <- <-. rewrite insert_id by done. split_and!; [by destruct w|done|done| |by left].
    intros a' Ha' _. exists a. simpl in Ha'. split; [done|left]. congruence. }
  set (w1 := UowWorld (uw_tx w) (<[i:=a1]> (uw_heap w)) (uw_next w) (uw w)) in *.
  assert (uw_heap w1 !! i = Some a1) as Ha1 by apply lookup_insert_eq.
  assert (_version a1 = _version a) as Hva by (by subst a1).
  destruct (tx_append sid (_version a) app (uw_tx w)) as [ra t] eqn:Happ.
  pose proof (stage_append_run i sid app w1 a1 ra t Hact Ha1
                ltac:(by rewrite Hva)) as Hbody.
  destruct ra as [[]|e].
  - rewrite (M_bind_eq _ _ _ (Ok tt) (UowWorld t (uw_heap w1) (uw_next w) (uw w))) in Hrun
      by (unfold try_except; by rewrite Hbody).
    rewrite (run_bind_read_aggregate _ _ _ _ a1) in Hrun by done. autorewrite with mrun in Hrun.
    injection Hrun as <- <-. simpl. split_and!; [|done|done|].
    + refine (uow_wf_planned (UowWorld t (<[i:=a1]> (uw_heap w)) (uw_next w) (uw w))
                {| plan_aggregate := i; plan_stream_id := sid; plan_expected_version := _version a1;
                   plan_pending := pending; plan_append_events := app |} _ Hi Hs _);
        [by apply uow_wf_insert|]. exists a1. split; [exact Ha1|]. subst a1. by split_and!.
    + exists a. rewrite Hva. done.
  - assert (_release (uow_self (uw w)) a1 = (Ok tt, released a1)) as Hrel
      by (eapply release_run; by subst a1).
    rewrite (M_bind_eq _ _ _ (Err e) (UowWorld t (<[i := released a1]> (uw_heap w1)) (uw_next w) (uw w)))
      in Hrun; last first.
    { unfold try_except. rewrite Hbody. unfold raise.
      rewrite (run_bind_on_aggregate _ _ _ (UowWorld t (uw_heap w1) (uw_next w) (uw w)) a1 _ _ Ha1 Hrel).
      done. }
    injection Hrun as <- <-. simpl. rewrite insert_insert_eq.
    split_and!; [by apply uow_wf_insert|done|done| |right; eauto].
    intros a' Ha' _. rewrite lookup_insert_eq in Ha'. injection Ha' as <-. exists a. split; [done|].
    right. by subst a1.
Qed.

End unit_of_work.
Arguments uow_world X D : clear implicits.
