(* ===== verification/EsUowProperties.v ===== *)
(** * Event sourcing: properties of the unit of work

    What a commit, a failed commit and staging guarantee for any transaction,
    and that the outcome a unit of work reports is the truth about the in-memory
    store. *)

From Stdlib Require Import ZArith Lia.
From stdpp Require Import base tactics list gmap strings.
From S2P Require Import Prelude EsEvents EsCodec EsAggregate EsStore EsStoreFacts.
From S2P Require Import EsStoreProperties EsUnitOfWork.
Local Open Scope Z_scope.

(** ** The in-memory transaction as a transaction *)

(** What waiting for the store's lock gives on entry and on commit. *)
Definition memory_transaction (enter_lock commit_lock : result es_error unit)
    : EventStoreTransaction session := {|
  tx_enter := EsStore.__aenter__ enter_lock;
  tx_exit := EsStore.__aexit__;
  tx_read_stream sid after n := EsStore.read_stream (Some sid) (PyInt after) (PyInt n);
  tx_append sid v es := EsStore.append (Some sid) (PyInt v) (Some <$> es);
  tx_commit := r ← EsStore.commit commit_lock; mret (Some r);
  tx_rollback := EsStore.rollback
|}.

Definition plan_staged (p : _CommitPlan) : _StagedAppend :=
  {| st_stream_id := plan_stream_id p; st_expected_version := plan_expected_version p;
     st_events := plan_append_events p |}.

(** The transaction holds exactly what the plans staged. *)
Definition synced {D} (w : uow_world session D) : Prop :=
  _tx_state (ses_tx (uw_tx w)) = ACTIVE ∧
  _staged (ses_tx (uw_tx w)) = plan_staged <$> _plans (uw w).

(** ** The result of an in-memory commit is the expected one *)

Lemma zip_app_eq {A B} (l1 l2 : list A) (k1 k2 : list B) :
  length l1 = length k1 → zip (l1 ++ l2) (k1 ++ k2) = zip l1 k1 ++ zip l2 k2.
Proof.
  revert k1. induction l1 as [|x l1 IH]; intros [|y k1] Hlen; simpl in *; try done.
  f_equal. apply IH. lia.
Qed.

Lemma numbered_matches sid v p es i :
  forallb (λ x, matches_expected x.1 x.2)
    (zip (imap (λ j e, {| stream_id := sid; stream_version := v + Z.of_nat (i + j) + 1;
                          global_position := p + Z.of_nat (i + j) + 1; se_event := e |}) es)
         (imap (λ j e, (sid, v + Z.of_nat (i + j) + 1, e)) es)) = true.
Proof.
  revert i. induction es as [|e es IH]; intros i; simpl; [done|]. apply andb_true_iff. split.
  - unfold matches_expected. simpl. rewrite bool_decide_eq_true_2, Z.eqb_refl by done.
    apply AppendEvent_eqb_refl.
  - rewrite <- (IH (S i)). f_equal. f_equal; apply imap_ext; intros j x _; simpl;
      repeat f_equal; lia.
Qed.

Lemma expected_matches p plans :
  length (numbered_all p (plan_staged <$> plans)) = length (expected_events plans) ∧
  forallb (λ x, matches_expected x.1 x.2)
    (zip (numbered_all p (plan_staged <$> plans)) (expected_events plans)) = true.
Proof.
  revert p. induction plans as [|q plans IH]; intros p; [done|].
  destruct (IH (p + zlen (plan_append_events q))) as [Hlen Hall].
  assert (expected_events (q :: plans) =
    imap (λ i e, (plan_stream_id q, plan_expected_version q + Z.of_nat i + 1, e))
      (plan_append_events q) ++ expected_events plans) as -> by done.
  assert (numbered_all p (plan_staged <$> q :: plans) =
    numbered (plan_stream_id q) (plan_expected_version q) p (plan_append_events q) ++
    numbered_all (p + zlen (plan_append_events q)) (plan_staged <$> plans)) as -> by done.
  rewrite !length_app, Hlen. unfold numbered. rewrite !length_imap. split; [done|].
  rewrite zip_app_eq by (by rewrite !length_imap). rewrite forallb_app. apply andb_true_iff.
  split; [|exact Hall]. apply (numbered_matches _ _ _ _ 0).
Qed.

Lemma contiguous_ok es p :
  (∀ i e, es !! i = Some e → global_position e = p + Z.of_nat i + 1) → contiguous es = true.
Proof.
  revert p. induction es as [|a es IH]; intros p Hes; [done|]. destruct es as [|b es]; [done|].
  cbn [contiguous]. apply andb_true_iff. split.
  - pose proof (Hes 0%nat a eq_refl). pose proof (Hes 1%nat b eq_refl). apply Z.eqb_eq. lia.
  - apply (IH (p + 1)). intros i e He. rewrite (Hes (S i) e He). lia.
Qed.

Lemma numbered_result_valid p plans :
  NoDup (ae_event_id <$> concat (st_events <$> (plan_staged <$> plans))) →
  _validate_result plans (Some {| cr_events := numbered_all p (plan_staged <$> plans) |}) =
  Ok {| cr_events := numbered_all p (plan_staged <$> plans) |}.
Proof.
  intros Hnd. unfold _validate_result. simpl cr_events.
  destruct (expected_matches p plans) as [Hlen Hall].
  rewrite (proj2 (Z.eqb_eq _ _)) by (unfold zlen; by rewrite Hlen). r_simpl.
  rewrite Hall. r_simpl. rewrite bool_decide_eq_true_2.
  - r_simpl. rewrite (contiguous_ok _ p); [done|]. intros i e. apply numbered_all_position.
  - by rewrite se_ids_fmap, numbered_all_events.
Qed.

(** ** Any transaction *)

Section any_transaction.
Context {X : Type} `{EventStoreTransaction X} {D : Type} `{Domain D}.
Implicit Types (w : uow_world X D).

(** A commit that returns has moved every aggregate together with its
    stream: each staged aggregate is at the version after its staged events,
    has nothing pending and is free again, no other aggregate changed, the
    transaction returned exactly the staged events in order with consecutive
    versions, and the reported outcome is that commit. *)
Theorem uow_commit_success w res w' :
  uow_wf w → uow_state (uw w) = UACTIVE → commit w = (Ok res, w') →
  uow_state (uw w') = UCOMMITTED ∧ _outcome (uw w') = Some (ConfirmedCommit res) ∧
  (tx_commit (uw_tx w)).1 = Ok (Some res) ∧
  (∀ p, p ∈ _plans (uw w) → ∃ a, uw_heap w' !! plan_aggregate p = Some a ∧
     _version a = plan_final_version p ∧ _pending_events a = [] ∧ _enlistment a = None ∧
     _faulted a = false) ∧
  (∀ i, (i ∉ plan_aggregate <$> _plans (uw w)) → uw_heap w' !! i = uw_heap w !! i) ∧
  length (cr_events res) = length (expected_events (_plans (uw w))) ∧
  forallb (λ x, matches_expected x.1 x.2)
    (zip (cr_events res) (expected_events (_plans (uw w)))) = true.
Proof.
  intros Hwf Hact Hrun.
  destruct (commit_cases _ _ _ Hwf Hact Hrun)
    as [_ [(r & Htx & Hval & [= <-] & Hst & Hout & Hdone & Hrest)|(e & f & s & o & [=] & _)]].
  unfold _validate_result in Hval.
  apply result_bind_ok in Hval as ([] & Hlen%raise_if_ok & Hval).
  apply result_bind_ok in Hval as ([] & Hm%raise_if_ok & _). bool_hyps.
  split_and!; try done; [|unfold zlen in Hlen; lia].
  intros p Hp. destruct (Hdone p Hp) as (a & Ha & Ha'). eexists. split; [exact Ha'|]. simpl.
  split_and!; try done. pose proof (uf_plans _ Hwf) as Hpl. rewrite Forall_forall in Hpl.
  destruct (Hpl p Hp) as (b & Hb & _ & _ & Hf & _). rewrite Ha in Hb. by injection Hb as <-.
Qed.

(** A commit that fails never leaves an aggregate sealed and never reports
    a commit. After a conflict the aggregates are faulted and the outcome is a
    confirmed non-commit; after a cancellation or a confirmed failure they are
    released with their events still pending; in every other case they are
    faulted and the outcome is indeterminate. *)
Theorem uow_commit_failure w e w' :
  uow_wf w → uow_state (uw w) = UACTIVE → commit w = (Err e, w') →
  ∃ f s o, uow_state (uw w') = s ∧ _outcome (uw w') = Some o ∧
    (commit_failure (D := D) e f s o ∨ f = faulted ∧ s = UFAULTED ∧ o = IndeterminateCommit e) ∧
    (∀ res, o ≠ ConfirmedCommit res) ∧
    (∀ p, p ∈ _plans (uw w) → ∃ a a', uw_heap w !! plan_aggregate p = Some a ∧
       uw_heap w' !! plan_aggregate p = Some a' ∧ a' = f a ∧ _enlistment a' = None ∧
       (_faulted a' = true ∨ _faulted a' = false ∧ _version a' = _version a ∧
        _pending_events a' = _pending_events a)) ∧
    (∀ i, (i ∉ plan_aggregate <$> _plans (uw w)) → uw_heap w' !! i = uw_heap w !! i).
Proof.
  intros Hwf Hact Hrun.
  destruct (commit_cases _ _ _ Hwf Hact Hrun)
    as [_ [(r & _ & _ & [=] & _)|(e' & f & s & o & [= <-] & Hst & Hout & Hm & Hwhy)]].
  assert (commit_failure e f s o ∨ f = faulted ∧ s = UFAULTED ∧ o = IndeterminateCommit e) as Hwhy'
    by naive_solver.
  exists f, s, o. split_and!; try done.
  - intros res. destruct Hwhy' as [[]|(_ & _ & ->)]; done.
  - intros p Hp. pose proof (uf_plans _ Hwf) as Hpl. rewrite Forall_forall in Hpl.
    destruct (Hpl p Hp) as (a & Ha & _ & _ & Hf & _). exists a, (f a). specialize (Hm (plan_aggregate p)).
    rewrite decide_True in Hm by (by apply list_elem_of_fmap_2). rewrite Ha in Hm.
    split_and!; try done; destruct Hwhy' as [[]|(-> & _ & _)]; simpl; auto.
  - intros i Hi. specialize (Hm i). by rewrite decide_False in Hm.
Qed.

(** Staging is all or nothing and exclusive: it succeeds only for an
    aggregate and a stream the unit of work has no plan for, and then the
    aggregate is sealed and its events are in the transaction; if it fails no
    plan is recorded and the aggregate keeps its events and its version and is
    not left sealed. *)
Theorem uow_stage i sid pending app w r w' a :
  uow_wf w → uw_heap w !! i = Some a → stage i sid pending app w = (r, w') →
  uow_wf w' ∧
  match r with
  | Ok _ => (i ∉ plan_aggregate <$> _plans (uw w)) ∧ (sid ∉ plan_stream_id <$> _plans (uw w)) ∧
      tx_append sid (_version a) app (uw_tx w) = (Ok tt, uw_tx w') ∧
      _plans (uw w') = _plans (uw w) ++
        [{| plan_aggregate := i; plan_stream_id := sid; plan_expected_version := _version a;
            plan_pending := pending; plan_append_events := app |}]
  | Err _ => _plans (uw w') = _plans (uw w) ∧
      ((i ∉ plan_aggregate <$> _plans (uw w)) → ∀ a', uw_heap w' !! i = Some a' →
       a' = a ∨ _enlistment a' = None ∧ _pending_events a' = _pending_events a ∧
                _version a' = _version a ∧ _faulted a' = false)
  end.
Proof.
  intros Hwf Ha Hrun. destruct (stage_cases _ _ _ _ _ _ _ Hwf Hrun) as (Hwf' & _ & Hcase).
  split; [done|]. destruct r as [u|e].
  - destruct Hcase as (_ & b & Hb & Happ & Hpl). rewrite Ha in Hb. injection Hb as <-.
    destruct Hwf' as [Hag Hstr _ _ _]. rewrite Hpl, fmap_app in Hag. rewrite Hpl, fmap_app in Hstr.
    apply NoDup_app in Hag as (_ & Hag & _), Hstr as (_ & Hstr & _). simpl in *.
    split_and!; try done; intros Hin; [eapply Hag|eapply Hstr]; try exact Hin; left.
  - destruct Hcase as (Hpl & Hobj & _). split; [done|]. intros Hi a' Ha'.
    destruct (Hobj a' Ha' Hi) as (b & Hb & Hor). rewrite Ha in Hb. by injection Hb as <-.
Qed.

End any_transaction.

(** ** The in-memory store *)

Lemma validate_commit_err st staged e :
  _validate_commit st staged = Err e →
  (∃ s v w, e = OptimisticConcurrencyError s v w) ∨ ∃ i, e = DuplicateEventIdError i.
Proof.
  unfold _validate_commit. intros [Hf|(x & _ & [=])]%result_bind_err.
  revert Hf. generalize (event_ids st). induction staged as [|a staged IH]; intros seen Hf; [done|].
  simpl in Hf. apply result_bind_err in Hf as [Hf|(seen' & _ & Hf)]; [|by eapply IH].
  unfold validate_staged in Hf. apply result_bind_err in Hf as [Hf|([] & _ & Hf)].
  - left. destruct (negb _); simplify_eq/=. eauto.
  - right. revert seen Hf. generalize (st_events a). intros l. induction l as [|x l IHl]; intros seen Hf; [done|].
    simpl in Hf. apply result_bind_err in Hf as [Hf|(seen' & _ & Hf)]; [|by eapply IHl].
    unfold add_event_id in Hf. destruct (decide _); simplify_eq/=. eauto.
Qed.

(** What an in-memory commit gives a unit of work whose plans it holds. *)
Lemma memory_tx_commit {D} enter_lock commit_lock (w : uow_world session D) :
  session_wf (uw_tx w) → synced w → commit_lock = Ok tt ∨ commit_lock = Err CancelledError →
  let c := @tx_commit _ (memory_transaction enter_lock commit_lock) (uw_tx w) in
  (∃ res, c.1 = Ok (Some res) ∧ _validate_result (_plans (uw w)) (Some res) = Ok res ∧
     events (_state (ses_store c.2)) = events (_state (ses_store (uw_tx w))) ++ cr_events res) ∨
  ∃ e, c.1 = Err e ∧ _state (ses_store c.2) = _state (ses_store (uw_tx w)) ∧
    ((∃ s v w, e = OptimisticConcurrencyError s v w) ∨ (∃ i, e = DuplicateEventIdError i) ∨
     e = CancelledError).
Proof.
  intros (Hs & Ht & _) [Htx Hst] Hlock c.
  assert (c = match EsStore.commit commit_lock (uw_tx w) with
              | (Ok r, s) => (Ok (Some r), s) | (Err e, s) => (Err e, s) end) as ->.
  { subst c. simpl. unfold mbind, M_bind. by destruct (EsStore.commit _ _) as [[]]. }
  rewrite (commit_run commit_lock (uw_tx w) Ht Htx). destruct Hlock as [->| ->].
  - destruct (_validate_commit _ _) as [[]|e] eqn:Hv.
    + left. eexists. split; [done|]. split; [|done]. rewrite Hst. apply numbered_result_valid.
      rewrite <- Hst. apply Ht.
    + right. exists e. apply validate_commit_err in Hv. split_and!; [done|done|]. naive_solver.
  - right. exists CancelledError. split_and!; auto.
Qed.

(** The states of an active unit of work on the in-memory store: it is entered
    on a new transaction; then it stages, aggregates outside of its plans change,
    and other transactions add to the store, in any order. *)
Inductive memory_active {D} (enter_lock commit_lock : result es_error unit)
    : uow_world session D → Prop :=
| ma_enter store heap next self w :
    store_wf (_state store) →
    @__aenter__ session (memory_transaction enter_lock commit_lock) D
      (UowWorld (Session store _InMemoryTransaction_new) heap next
         (EventSourcingUnitOfWork_new self)) = (Ok tt, w) →
    memory_active enter_lock commit_lock w
| ma_stage w i sid pending app r w' :
    memory_active enter_lock commit_lock w →
    @stage session (memory_transaction enter_lock commit_lock) D i sid pending app w = (r, w') →
    memory_active enter_lock commit_lock w'
| ma_aggregate w i a :
    memory_active enter_lock commit_lock w → (i ∉ plan_aggregate <$> _plans (uw w)) →
    memory_active enter_lock commit_lock
      (UowWorld (uw_tx w) (<[i := a]> (uw_heap w)) (uw_next w) (uw w))
| ma_others w store :
    memory_active enter_lock commit_lock w → store_wf (_state store) →
    extends (_state (ses_store (uw_tx w))) (_state store) →
    memory_active enter_lock commit_lock
      (UowWorld (Session store (ses_tx (uw_tx w))) (uw_heap w) (uw_next w) (uw w)).

Lemma memory_enter_ready {D} enter_lock commit_lock store heap next self (w : uow_world session D) :
  store_wf (_state store) →
  @__aenter__ session (memory_transaction enter_lock commit_lock) D
    (UowWorld (Session store _InMemoryTransaction_new) heap next (EventSourcingUnitOfWork_new self)) =
    (Ok tt, w) →
  uow_wf w ∧ session_wf (uw_tx w) ∧ synced w ∧ uow_state (uw w) = UACTIVE.
Proof.
  intros Hst Hrun. destruct enter_lock as [[]|e]; [|discriminate Hrun].
  vm_compute in Hrun. injection Hrun as <-. split_and!; try done.
  - constructor; simpl; try done; constructor.
  - split_and!; simpl; [done|by apply tx_wf_empty|]. done.
Qed.

Lemma memory_stage_ready {D} enter_lock commit_lock i sid pending app r (w w' : uow_world session D) :
  uow_wf w → session_wf (uw_tx w) → synced w →
  @stage session (memory_transaction enter_lock commit_lock) D i sid pending app w = (r, w') →
  uow_wf w' ∧ session_wf (uw_tx w') ∧ synced w' ∧ uow_state (uw w') = uow_state (uw w).
Proof.
  intros Hwf Hses [Hact Hst] Hrun.
  destruct (@stage_cases _ (memory_transaction enter_lock commit_lock) _ _ _ _ _ _ _ _ Hwf Hrun)
    as (Hwf' & Hstate & Hcase). split; [done|].
  assert (∀ v x s, EsStore.append (Some sid) (PyInt v) (Some <$> app) (uw_tx w) = (x, s) → session_wf s)
    as Hcall.
  { intros v x s Hs. destruct (tx_call_append (Some sid) (PyInt v) (Some <$> app) _ Hses) as [Hok _].
    by rewrite Hs in Hok. }
  destruct r as [u|e].
  - destruct Hcase as (_ & a & Ha & Happ & Hpl). simpl in Happ. split; [by eapply Hcall|].
    split; [|done]. apply append_run in Happ as [[_ [e He]]|Happ]; [done|].
    destruct Happ as (sid' & v & es & [= <-] & [= <-] & _ & Hes & _ & _ & _ & _ & _ & _ & _ & Hact' &
      _ & Hst' & _ & _).
    split; [done|]. apply (inj (fmap Some)) in Hes. rewrite Hst', Hpl, fmap_app, Hst. by subst es.
  - destruct Hcase as (Hpl & _ & [Htx|(v & Happ)]).
    + split_and!; [by rewrite Htx|unfold synced; by rewrite Htx, Hpl|done].
    + simpl in Happ. split; [by eapply Hcall|]. split; [|done]. unfold synced. rewrite Hpl.
      apply append_run in Happ as [[-> _]|(? & ? & ? & _ & _ & _ & _ & _ & [=] & _)]; done.
Qed.

Lemma memory_active_ready {D} enter_lock commit_lock (w : uow_world session D) :
  memory_active enter_lock commit_lock w →
  uow_wf w ∧ session_wf (uw_tx w) ∧ synced w ∧ uow_state (uw w) = UACTIVE.
Proof.
  induction 1 as [store heap next self w Hst Hrun|w i sid pending app r w' _ (Hwf & Hses & Hsy & Hact) Hrun
                 |w i a _ (Hwf & Hses & Hsy & Hact) Hi|w store _ (Hwf & Hses & Hsy & Hact) Hst Hext].
  - by eapply memory_enter_ready.
  - rewrite <- Hact. by eapply memory_stage_ready.
  - split_and!; try done. by apply uow_wf_insert.
  - split_and!; try done; [by destruct Hwf; constructor|]. destruct Hses as (_ & Ht & Hp).
    split_and!; [done|done|]. intros sid. etrans; [apply Hp|apply Hext].
Qed.

(** C9: On the in-memory store the reported outcome is the truth. Whatever was
    staged, changed and committed by others since the unit of work was entered:
    if its commit returns, the store's sequence grew by exactly the returned
    events; if it raises, the store is unchanged and the outcome is a confirmed
    non-commit, never an indeterminate one, whether the commit conflicts or is
    cancelled while it waits for the store. *)
Theorem memory_commit_honest {D} enter_lock commit_lock (w : uow_world session D) r w' :
  memory_active enter_lock commit_lock w →
  commit_lock = Ok tt ∨ commit_lock = Err CancelledError →
  @commit session (memory_transaction enter_lock commit_lock) D w = (r, w') →
  let st := _state (ses_store (uw_tx w)) in
  let st' := _state (ses_store (uw_tx w')) in
  match r with
  | Ok res => events st' = events st ++ cr_events res ∧ _outcome (uw w') = Some (ConfirmedCommit res)
  | Err e => st' = st ∧ _outcome (uw w') = Some (ConfirmedNonCommit (Some e))
  end.
Proof.
  intros (Hwf & Hses & Hsync & Hact)%memory_active_ready Hlock Hrun st st'.
  pose proof (memory_tx_commit enter_lock commit_lock w Hses Hsync Hlock) as Hmem.
  destruct (@commit_cases _ (memory_transaction enter_lock commit_lock) _ _ _ _ Hwf Hact Hrun)
    as [Htx' Hcase]. subst st st'. rewrite Htx'. clear Htx' Hrun.
  destruct (@tx_commit _ (memory_transaction enter_lock commit_lock) (uw_tx w)) as [c s].
  simpl fst in *. simpl snd in *.
  destruct Hmem as [(res & -> & Hval & Hev)|(e & -> & Hev & Hkind)].
  - destruct Hcase as [(x & [= <-] & _ & -> & _ & Ho & _)|
      (e & f & t & o & -> & _ & _ & _ & [[[=] _]|[(x & [= <-] & Hbad) _]])]; [done|].
    by rewrite Hval in Hbad.
  - destruct Hcase as [(x & [=] & _)|
      (e' & f & t & o & -> & _ & Ho & _ & [[[= <-] Hcf]|[(x & [=] & _) _]])].
    split; [done|]. rewrite Ho. f_equal. destruct Hcf; [done|done|]. naive_solver.
Qed.

(** ** A concrete unit of work *)

Definition ex_tx : EventStoreTransaction session := memory_transaction (Ok tt) (Ok tt).
Definition ex_new : uow_world session (list pyobj) :=
  UowWorld (Session (InMemoryEventStore_new EventSourcingLimits_default) _InMemoryTransaction_new)
    {[ 1 := ex_agg ]} 100 (EventSourcingUnitOfWork_new 9).
Definition ex_entered : uow_world session (list pyobj) := (@__aenter__ _ ex_tx _ ex_new).2.
Definition ex_active : uow_world session (list pyobj) :=
  (@stage _ ex_tx _ 1 ex_sid (_pending_events ex_agg) [ex_append 10 []; ex_append 11 []] ex_entered).2.
(** Another transaction committed to the same stream. *)
Definition ex_other : list _StagedAppend :=
  [{| st_stream_id := ex_sid; st_expected_version := 0; st_events := [ex_append 12 []] |}].
Definition ex_raced : uow_world session (list pyobj) :=
  UowWorld (Session {| limits := EventSourcingLimits_default;
                       _state := _build_store_state (_state (ses_store (uw_tx ex_active)))
                         (numbered_all (zlen (events (_state (ses_store (uw_tx ex_active))))) ex_other) |}
              (ses_tx (uw_tx ex_active))) (uw_heap ex_active) (uw_next ex_active) (uw ex_active).

Lemma store_wf_new l : store_wf (_state (InMemoryEventStore_new l)).
Proof. constructor; simpl; try done. constructor. Qed.

Lemma ex_entered_memory : memory_active (Ok tt) (Ok tt) ex_entered.
Proof. eapply ma_enter; [apply (store_wf_new EventSourcingLimits_default)|]. vm_compute. reflexivity. Qed.

Lemma ex_active_memory : memory_active (Ok tt) (Ok tt) ex_active.
Proof. eapply ma_stage; [exact ex_entered_memory|]. apply surjective_pairing. Qed.

Lemma ex_raced_memory : memory_active (Ok tt) (Ok tt) ex_raced.
Proof.
  apply ma_others; [exact ex_active_memory| |apply extends_commit]. cbn [_state].
  assert (_state (ses_store (uw_tx ex_active)) =
          _state (InMemoryEventStore_new EventSourcingLimits_default)) as -> by (vm_compute; reflexivity).
  apply store_wf_commit; [apply store_wf_new| |apply NoDup_singleton]. split_and!.
  - apply Forall_singleton. reflexivity.
  - apply NoDup_singleton.
  - intros e _. apply not_elem_of_empty.
Qed.

Lemma ex_active_wf : uow_wf ex_active ∧ uow_state (uw ex_active) = UACTIVE.
Proof. destruct (memory_active_ready _ _ _ ex_active_memory) as (H1 & _ & _ & H2). by split. Qed.

Lemma ex_raced_wf : uow_wf ex_raced ∧ uow_state (uw ex_raced) = UACTIVE.
Proof. destruct (memory_active_ready _ _ _ ex_raced_memory) as (H1 & _ & _ & H2). by split. Qed.

Lemma uow_commit_success_witness :
  ∃ res w', @commit _ ex_tx _ ex_active = (Ok res, w') ∧ _outcome (uw w') = Some (ConfirmedCommit res) ∧
    length (cr_events res) = 2%nat.
Proof.
  assert (∃ res, (@commit _ ex_tx _ ex_active).1 = Ok res ∧ length (cr_events res) = 2%nat)
    as (res & Hres & Hlen) by (eexists; split; vm_compute; reflexivity).
  destruct (@commit _ ex_tx _ ex_active) as [r w'] eqn:Hrun. simpl in Hres. subst r.
  exists res, w'. split; [reflexivity|]. split; [|exact Hlen].
  exact (proj1 (proj2 (@uow_commit_success _ ex_tx _ ex_active res w'
    (proj1 ex_active_wf) (proj2 ex_active_wf) Hrun))).
Defined.

Lemma uow_commit_failure_witness :
  ∃ e w' o, @commit _ ex_tx _ ex_raced = (Err e, w') ∧ _outcome (uw w') = Some o ∧
    ∀ res, o ≠ ConfirmedCommit res.
Proof.
  assert (∃ e, (@commit _ ex_tx _ ex_raced).1 = Err e) as (e & Hres)
    by (eexists; vm_compute; reflexivity).
  destruct (@commit _ ex_tx _ ex_raced) as [r w'] eqn:Hrun. simpl in Hres. subst r.
  destruct (@uow_commit_failure _ ex_tx _ ex_raced e w' (proj1 ex_raced_wf) (proj2 ex_raced_wf) Hrun)
    as (f & s & o & _ & Ho & _ & Hno & _).
  exists e, w', o. split; [reflexivity|]. split; [exact Ho|exact Hno].
Defined.

Lemma uow_stage_witness :
  ∃ w', @stage _ ex_tx _ 1 ex_sid (_pending_events ex_agg) [ex_append 10 []; ex_append 11 []] ex_entered =
    (Ok tt, w') ∧ length (_plans (uw w')) = 1%nat.
Proof.
  assert ((@stage _ ex_tx _ 1 ex_sid (_pending_events ex_agg) [ex_append 10 []; ex_append 11 []]
             ex_entered).1 = Ok tt) as Hres by (vm_compute; reflexivity).
  destruct (memory_active_ready _ _ _ ex_entered_memory) as (Hwf & _).
  destruct (@stage _ ex_tx _ 1 ex_sid (_pending_events ex_agg) _ ex_entered) as [r w'] eqn:Hrun.
  simpl in Hres. subst r. exists w'. split; [reflexivity|].
  assert (uw_heap ex_entered !! 1 = Some ex_agg) as Ha by (vm_compute; reflexivity).
  destruct (@uow_stage _ ex_tx _ 1 ex_sid (_pending_events ex_agg) [ex_append 10 []; ex_append 11 []]
    ex_entered (Ok tt) w' ex_agg Hwf Ha Hrun) as (_ & _ & _ & _ & Hpl).
  rewrite Hpl. vm_compute. reflexivity.
Defined.

Lemma memory_commit_honest_witness :
  ∃ e w', @commit _ ex_tx _ ex_raced = (Err e, w') ∧
    _state (ses_store (uw_tx w')) = _state (ses_store (uw_tx ex_raced)) ∧
    _outcome (uw w') = Some (ConfirmedNonCommit (Some e)).
Proof.
  assert (∃ e, (@commit _ ex_tx _ ex_raced).1 = Err e) as (e & Hres)
    by (eexists; vm_compute; reflexivity).
  destruct (@commit _ ex_tx _ ex_raced) as [r w'] eqn:Hrun. simpl in Hres. subst r.
  exists e, w'. split; [reflexivity|].
  exact (memory_commit_honest (Ok tt) (Ok tt) ex_raced (Err e) w' ex_raced_memory
           (or_introl eq_refl) Hrun).
Defined.
