(* ===== verification/EsRepository.v ===== *)
(** * Event sourcing: the repository

    [EventSourcedRepository] of [repository.py], on the state of the unit of
    work it is built on. The aggregate factory and the ID encoder are the
    application's functions and may raise; the factory makes a new object. The
    argument [lease] of the operations is what calling the operation lease
    gives. *)

From Stdlib Require Import ZArith Lia.
From stdpp Require Import base tactics list gmap strings.
From S2P Require Import Prelude EsEvents EsCodec EsAggregate EsStore EsStoreFacts.
From S2P Require Import EsUnitOfWork EsUowProperties.
Local Open Scope Z_scope.

Section repository.
Context `{Unicode} {X : Type} `{EventStoreTransaction X} {D : Type} `{Domain D}.

Record EventSourcedRepository := {
  _category : pyobj;
  _aggregate_factory : pyobj → result es_error (AggregateRoot D);
  _aggregate_type : Z;
  _id_encoder : pyobj → result es_error pyobj;
  _schemas : EventSchemaRegistry;
  _page_size : Z;
  _operation_lease : bool
}.

(** [is_uow]: the first argument is a unit of work. [None] for the aggregate
    type is no subclass of [AggregateRoot]. An operation lease is absent
    ([None]) or an object that is callable or not. *)
Definition EventSourcedRepository_new (is_uow : bool) (category : pyobj)
    (aggregate_factory : pyobj → result es_error (AggregateRoot D)) (aggregate_type : option Z)
    (id_encoder : pyobj → result es_error pyobj) (schemas : EventSchemaRegistry)
    (page_size : pyobj) (operation_lease : option bool)
    : result es_error EventSourcedRepository :=
  _ ← raise_if (negb is_uow) TypeError;
  _ ← raise_if (negb (_frozen schemas)) SchemaRegistryNotFrozenError;
  type ← match aggregate_type with Some t => Ok t | None => Err TypeError end;
  _ ← raise_if (bool_decide (operation_lease = Some false)) TypeError;
  let selected_page_size :=
    match page_size with PyNone => PyInt (read_page_size (reg_limits schemas)) | p => p end in
  size ← match selected_page_size with
         | PyInt z => if (z <? 1) || (read_page_size (reg_limits schemas) <? z)
                      then Err ResourceLimitError else Ok z
         | _ => Err ResourceLimitError
         end;
  Ok {| _category := category; _aggregate_factory := aggregate_factory; _aggregate_type := type;
        _id_encoder := id_encoder; _schemas := schemas; _page_size := size;
        _operation_lease := bool_decide (is_Some operation_lease) |}.

Abbreviation U := (M (uow_world X D) es_error).
Implicit Types (repo : EventSourcedRepository) (lease : result es_error unit).

Definition _require_operation_lease repo lease : U unit :=
  if _operation_lease repo then lift lease else mret tt.

Definition _repository_stream_id repo (aggregate_id : pyobj) : result es_error StreamId :=
  key ← wrapping RepositoryError (_id_encoder repo aggregate_id);
  StreamId_new (_category repo) key.

(** The new object and its identity. *)
Definition _new_aggregate repo (aggregate_id : pyobj) : U Z :=
  a ← lift (wrapping RepositoryError (_aggregate_factory repo aggregate_id));
  throw_if (negb (agg_type a =? _aggregate_type repo))
    (AggregateTypeMismatchError (_aggregate_type repo) (agg_type a));;
  throw_if (negb (py_eqb (_id a) aggregate_id)) RepositoryError;;
  i ← fresh_identity;
  modify (λ w, UowWorld (uw_tx w) (<[i := a]> (uw_heap w)) (uw_next w) (uw w));;
  mret i.

(** [EventSourcingUnitOfWork.transaction.read_stream(...)] *)
Definition read_page (sid : StreamId) (after_version limit : Z) : U (list StoredEvent) :=
  EsUnitOfWork._require_active;; on_transaction (tx_read_stream sid after_version limit).

(** The loop of [_load]: at most [fuel] pages. [None]: it has not ended. *)
Fixpoint load_pages (fuel : nat) repo (sid : StreamId) (aggregate : Z) (after_version : Z)
    (found : bool) : U (option bool) :=
  match fuel with
  | O => mret None
  | S fuel =>
      page ← read_page sid after_version (_page_size repo);
      match last page with
      | None => mret (Some found)
      | Some final =>
          recorded ← lift (rmap (decode (_schemas repo)) page);
          on_aggregate aggregate (_replay (Ok (Some <$> recorded)));;
          load_pages fuel repo sid aggregate (stream_version final) true
      end
  end.

Definition _load (fuel : nat) repo (aggregate_id : pyobj) : U (option (option Z)) :=
  sid ← lift (_repository_stream_id repo aggregate_id);
  aggregate ← _new_aggregate repo aggregate_id;
  found ← load_pages fuel repo sid aggregate 0 false;
  mret ((λ f : bool, if f then Some aggregate else None) <$> found).

Definition load (fuel : nat) repo lease (aggregate_id : pyobj) : U (option (option Z)) :=
  _require_operation_lease repo lease;; _load fuel repo aggregate_id.

Definition repository_get (fuel : nat) repo lease (aggregate_id : pyobj) : U (option Z) :=
  _require_operation_lease repo lease;;
  aggregate ← _load fuel repo aggregate_id;
  match aggregate with
  | Some None => lift (_repository_stream_id repo aggregate_id);; raise AggregateNotFoundError
  | Some (Some i) => mret (Some i)
  | None => mret None
  end.

Definition save repo lease (aggregate : Z) : U unit :=
  _require_operation_lease repo lease;;
  type ← read_aggregate aggregate agg_type;
  throw_if (negb (type =? _aggregate_type repo))
    (AggregateTypeMismatchError (_aggregate_type repo) type);;
  id ← read_aggregate aggregate _id;
  sid ← lift (_repository_stream_id repo id);
  validate_stage aggregate sid;;
  pending ← read_aggregate aggregate _pending_events;
  if bool_decide (pending = []) then mret tt
  else
    append_events ← lift (rmap (encode (_schemas repo)) pending);
    stage aggregate sid pending append_events.

End repository.
Arguments EventSourcedRepository D : clear implicits.
