(* ===== verification/EsRepositoryProperties.v ===== *)
(** * Event sourcing: properties of the repository

    Loading replays exactly the stream, page by page, and ends; saving,
    committing and loading gives back the aggregate. *)

From Stdlib Require Import ZArith Lia.
From stdpp Require Import base tactics list gmap strings.
From S2P Require Import Prelude EsEvents EsCodec EsAggregate EsStore EsStoreFacts.
From S2P Require Import EsUnitOfWork EsUowProperties EsRepository.
Local Open Scope Z_scope.

(** ** Replay *)

Lemma rmap_app {E A B} (f : A → result E B) l k :
  rmap f (l ++ k) = (x ← rmap f l; y ← rmap f k; Ok (x ++ y)).
Proof.
  induction l as [|a l IH]; simpl.
  - by destruct (rmap f k).
  - destruct (f a); r_simpl; [|done]. rewrite IH.
    destruct (rmap f l); r_simpl; [|done]. by destruct (rmap f k).
Qed.

Section replay.
Context {D : Type} `{Domain D}.
Implicit Types (a : AggregateRoot D).

(** An aggregate that may be replayed into. *)
Definition clean a : Prop :=
  _faulted a = false ∧ _enlistment a = None ∧ _pending_events a = [].

(** Records that continue the stream of an aggregate. *)
Definition continues (sid : StreamId) a (page : list RecordedEvent) : Prop :=
  (∀ s, _stream_id a = Some s → s = sid) ∧
  ∀ i x, page !! i = Some x →
    re_stream_id x = sid ∧ re_stream_version x = _version a + Z.of_nat i + 1.

Lemma check_records_complete sid v page :
  (∀ i x, page !! i = Some x → re_stream_id x = sid ∧ re_stream_version x = v + Z.of_nat i) →
  rfold (check_record sid) v page = Ok (v + zlen page).
Proof.
  revert v. induction page as [|x page IH]; intros v Hp; simpl; [unfold zlen; simpl; f_equal; lia|].
  destruct (Hp 0%nat x eq_refl) as [Hs Hv]. unfold check_record.
  rewrite Hs, bool_decide_eq_false_2 by (by intros []). r_simpl.
  rewrite (proj2 (Z.eqb_eq _ _)) by lia. r_simpl. rewrite IH.
  - f_equal. rewrite zlen_cons. lia.
  - intros i y Hy. destruct (Hp (S i) y Hy). split; [done|lia].
Qed.

Lemma check_page_complete sid a page :
  continues sid a page → page ≠ [] →
  check_page a (Ok (Some <$> page)) = Ok (Some (sid, page)).
Proof.
  intros [Hsid Hp] Hne. unfold check_page. r_simpl.
  assert (rmap recorded_item (Some <$> page) = Ok page) as ->.
  { clear. induction page as [|x page IH]; [done|]. rewrite fmap_cons. simpl. by rewrite IH. }
  r_simpl. destruct page as [|x page]; [done|].
  assert (default (re_stream_id x) (_stream_id a) = sid) as ->.
  { destruct (_stream_id a) as [s|]; [by apply Hsid|]. by destruct (Hp 0%nat x eq_refl). }
  rewrite check_records_complete; [done|].
  intros i y Hy. destruct (Hp i y Hy). split; [done|lia].
Qed.

Lemma apply_page_err page a e a' :
  apply_page page a = (Err e, a') → evolve (domain a) (re_event <$> page) = None.
Proof.
  revert a. induction page as [|x page IH]; intros a Hrun; [done|].
  rewrite fmap_cons. simpl in Hrun |- *. rewrite run_bind_faulting_apply in Hrun.
  destruct (_apply (re_event x) (domain a)) as [[[]|y] z]; [|done].
  rewrite run_bind_modify in Hrun. apply (IH _ Hrun).
Qed.

Lemma apply_page_evolve page a :
  (∀ i x, page !! i = Some x → re_stream_version x = _version a + Z.of_nat i + 1) →
  match evolve (domain a) (re_event <$> page) with
  | Some d => apply_page page a = (Ok tt, set_domain d (set_version (_version a + zlen page) a))
  | None => ∃ e a', apply_page page a = (Err e, a')
  end.
Proof.
  intros Hv. destruct (apply_page page a) as [r a'] eqn:Hrun.
  destruct (apply_page_run _ _ _ _ Hv Hrun) as [(e & d & v & -> & ->)|(d & -> & Hev & ->)];
    [|by rewrite Hev].
  rewrite (apply_page_err _ _ _ _ Hrun). eauto.
Qed.

Definition replayed (sid : StreamId) (d : D) (n : Z) a : AggregateRoot D :=
  set_domain d (set_version (_version a + n) (set_stream_id (Some sid) a)).

Lemma replay_run sid a page :
  clean a → continues sid a page → page ≠ [] →
  match evolve (domain a) (re_event <$> page) with
  | Some d => _replay (Ok (Some <$> page)) a = (Ok tt, replayed sid d (zlen page) a)
  | None => ∃ e a', _replay (Ok (Some <$> page)) a = (Err e, a')
  end.
Proof.
  intros (Hf & He & Hp) Hc Hne.
  assert (_replay (Ok (Some <$> page)) a = apply_page page (set_stream_id (Some sid) a)) as ->.
  { unfold _replay. rewrite run_bind_mutable, Hf. unfold is_enlisted. rewrite He.
    rewrite bool_decide_eq_false_2 by (by intros []). autorewrite with mrun.
    rewrite Hp, bool_decide_eq_false_2 by (by intros []). autorewrite with mrun.
    rewrite run_bind_faulting_lift, (check_page_complete sid) by done. by autorewrite with mrun. }
  apply (apply_page_evolve page (set_stream_id (Some sid) a)). intros i x Hx. by apply Hc.
Qed.

End replay.

(** ** Loading from the in-memory store *)

Section loading.
Context `{Unicode} {D : Type} `{Domain D}.
Context (enter_lock commit_lock : result es_error unit).
Let TX : EventStoreTransaction session := memory_transaction enter_lock commit_lock.
Local Existing Instance TX.
Implicit Types (repo : EventSourcedRepository D) (w : uow_world session D).

(** The state the stored events of a stream lead to. *)
Definition load_spec repo (initial : D) (stored : list StoredEvent) : option D :=
  match rmap (decode (_schemas repo)) stored with
  | Ok recorded => evolve initial (re_event <$> recorded)
  | Err _ => None
  end.

(** A stream from its beginning. *)
Definition whole_stream (sid : StreamId) (stored : list StoredEvent) : Prop :=
  ∀ k e, stored !! k = Some e → stream_id e = sid ∧ stream_version e = Z.of_nat k + 1.

Definition reads w repo (sid : StreamId) (stored : list StoredEvent) : Prop :=
  uow_state (uw w) = UACTIVE ∧ _tx_state (ses_tx (uw_tx w)) = ACTIVE ∧
  default [] (_snapshot (ses_tx (uw_tx w)) !! sid) = stored ∧
  1 <= _page_size repo <= read_page_size (EsStore.limits (ses_store (uw_tx w))).

Lemma run_bind_read_page {B} sid n repo stored (k : list StoredEvent → M (uow_world session D) es_error B) w :
  reads w repo sid stored →
  (read_page sid (Z.of_nat n) (_page_size repo) ≫= k) w =
  k (take (Z.to_nat (_page_size repo)) (drop n stored)) w.
Proof.
  intros (Hact & Htx & Hst & Hps). unfold read_page. rewrite run_bind_bind, run_bind_active.
  rewrite decide_True by done. rewrite run_bind_on_transaction. cbn [tx_read_stream TX memory_transaction].
  unfold EsStore.read_stream. autorewrite with mrun. rewrite decide_True by done.
  autorewrite with mrun. cbn [_validate_stream_id]. autorewrite with mrun. cbn [_position].
  rewrite (proj2 (Z.ltb_ge _ _)) by lia. autorewrite with mrun. cbn [_limit].
  rewrite !(proj2 (Z.ltb_ge _ _)) by lia. autorewrite with mrun.
  rewrite uw_eta, Hst. unfold py_slice. f_equal. rewrite Nat2Z.id. f_equal. lia.
Qed.

Lemma rmap_decode_continues repo sid stored n (a : AggregateRoot D) k page :
  whole_stream sid stored → _version a = Z.of_nat n → (∀ s, _stream_id a = Some s → s = sid) →
  rmap (decode (_schemas repo)) (take k (drop n stored)) = Ok page → continues sid a page.
Proof.
  intros Hw Hv Hs Hpage. split; [done|]. intros i x Hx. apply rmap_ok_iff in Hpage.
  destruct (Forall2_lookup_r _ _ _ _ _ Hpage Hx) as (e & He & Hd).
  apply lookup_take_Some in He as [He _]. rewrite lookup_drop in He.
  destruct (Hw _ _ He) as [Hid Hver]. apply decode_ok in Hd as [-> ->]. split; [done|]. lia.
Qed.

Lemma load_spec_split repo d0 stored k :
  load_spec repo d0 stored =
  match rmap (decode (_schemas repo)) (take k stored) with
  | Ok page => match evolve d0 (re_event <$> page) with
               | Some d => load_spec repo d (drop k stored)
               | None => None
               end
  | Err _ => None
  end.
Proof.
  unfold load_spec. rewrite <- (take_drop k stored) at 1. rewrite rmap_app.
  destruct (rmap _ (take k stored)) as [page|]; r_simpl; [|done].
  destruct (rmap _ (drop k stored)) as [rest|]; r_simpl.
  - rewrite fmap_app, evolve_app. by destruct (evolve d0 _).
  - by destruct (evolve d0 _).
Qed.

Lemma last_page_version sid stored n k final :
  whole_stream sid stored → last (take k (drop n stored)) = Some final →
  stream_version final = Z.of_nat (n + length (take k (drop n stored))).
Proof.
  intros Hw Hl. assert (length (take k (drop n stored)) ≠ 0%nat) as Hne.
  { intros E%nil_length_inv. by rewrite E in Hl. }
  rewrite last_lookup in Hl. apply lookup_take_Some in Hl as [Hl _].
  rewrite lookup_drop in Hl. destruct (Hw _ _ Hl) as [_ ->]. lia.
Qed.

Lemma drop_page {A} (l : list A) k : drop k l = drop (length (take k l)) l.
Proof.
  rewrite length_take. destruct (decide (k <= length l)%nat); [by rewrite Nat.min_l|].
  rewrite Nat.min_r by lia. rewrite !drop_ge by lia. done.
Qed.

Lemma replayed_replayed sid d d' n m (a : AggregateRoot D) :
  replayed sid d' m (replayed sid d n a) = replayed sid d' (n + m) a.
Proof. unfold replayed. destruct a. unfold set_domain, set_version, set_stream_id. simpl. f_equal. lia. Qed.

(** The aggregate after the rest of the stream. *)
Definition caught_up (sid : StreamId) (d : D) (rest : list StoredEvent) (a : AggregateRoot D)
    : AggregateRoot D :=
  if bool_decide (rest = []) then a else replayed sid d (zlen rest) a.

Lemma caught_up_next repo sid d d' (page : list RecordedEvent) rest (a : AggregateRoot D) :
  load_spec repo d rest = Some d' →
  caught_up sid d' rest (replayed sid d (zlen page) a) = replayed sid d' (zlen page + zlen rest) a.
Proof.
  unfold caught_up, load_spec. case_bool_decide as Hr; intros Hs; [|by rewrite replayed_replayed].
  subst rest. simpl in Hs. injection Hs as ->. by rewrite Z.add_0_r.
Qed.

Lemma load_pages_run fuel repo sid stored i n found w a :
  reads w repo sid stored → whole_stream sid stored → uw_heap w !! i = Some a → clean a →
  _version a = Z.of_nat n → (∀ s, _stream_id a = Some s → s = sid) →
  (length (drop n stored) < fuel)%nat →
  match load_spec repo (domain a) (drop n stored) with
  | Some d =>
      load_pages fuel repo sid i (Z.of_nat n) found w =
      (Ok (Some (found || bool_decide (drop n stored ≠ []))),
       UowWorld (uw_tx w) (<[i := caught_up sid d (drop n stored) a]> (uw_heap w)) (uw_next w) (uw w))
  | None => ∃ e w', load_pages fuel repo sid i (Z.of_nat n) found w = (Err e, w')
  end.
Proof.
  revert n found w a. induction fuel as [|fuel IH]; intros n found w a Hr Hw Ha Hc Hv Hs Hfuel; [lia|].
  cbn [load_pages]. rewrite (run_bind_read_page sid n repo stored _ w Hr).
  set (ps := Z.to_nat (_page_size repo)). assert (ps ≠ 0%nat) as Hps by (destruct Hr; lia).
  destruct (last (take ps (drop n stored))) as [final|] eqn:Hlast; last first.
  { apply last_None in Hlast.
    assert (drop n stored = []) as Hnil by (destruct (drop n stored), ps; done).
    rewrite Hnil. cbn. unfold caught_up. rewrite insert_id, uw_eta by done. by rewrite orb_false_r. }
  assert (drop n stored ≠ []) as Hne by (intros E; rewrite E, take_nil in Hlast; done).
  rewrite (load_spec_split _ _ _ ps), run_bind_lift.
  destruct (rmap _ (take ps (drop n stored))) as [page|e] eqn:Hpage; [|eauto].
  pose proof (rmap_decode_continues _ _ _ _ _ _ _ Hw Hv Hs Hpage) as Hcont.
  pose proof (rmap_ok_length _ _ _ Hpage) as Hlen.
  assert (page ≠ []) as Hpne.
  { intros ->. destruct (take ps (drop n stored)); done. }
  pose proof (replay_run sid a page Hc Hcont Hpne) as Hrep.
  destruct (evolve (domain a) (re_event <$> page)) as [d|]; last first.
  { destruct Hrep as (e & a' & Hrep).
    rewrite (run_bind_on_aggregate _ _ _ _ a _ _ Ha Hrep). eauto. }
  rewrite (run_bind_on_aggregate _ _ _ _ a _ _ Ha Hrep).
  rewrite (last_page_version sid stored n ps final Hw Hlast), drop_page, <- Hlen.
  assert (length page ≠ 0%nat) as Hpl by (by destruct page).
  assert (length page <= length (drop n stored))%nat as Hple by (rewrite Hlen, length_take; lia).
  set (a1 := replayed sid d (zlen page) a) in *. rewrite drop_drop.
  set (w1 := UowWorld (uw_tx w) (<[i := a1]> (uw_heap w)) (uw_next w) (uw w)).
  assert (bool_decide (drop n stored ≠ []) = true) as Hb by (by apply bool_decide_eq_true).
  assert (zlen (drop n stored) = zlen page + zlen (drop (n + length page) stored)) as Hz.
  { unfold zlen. rewrite !length_drop in *. lia. }
  assert (load_spec repo (domain a1) (drop (n + length page) stored) =
          load_spec repo d (drop (n + length page) stored)) as Hd by done.
  pose proof (IH (n + length page)%nat true w1 a1 Hr Hw (lookup_insert_eq _ _ _) Hc) as IH1.
  rewrite Hd in IH1. destruct (load_spec repo d _) as [d'|] eqn:Hspec.
  - rewrite IH1; [|simpl; unfold zlen; lia|by intros s [= <-]|rewrite !length_drop in *; lia].
    unfold w1, a1. cbn [uw_heap uw_tx uw_next uw]. rewrite insert_insert_eq, (caught_up_next repo) by done.
    unfold caught_up. rewrite (bool_decide_eq_false_2 (drop n stored = [])) by done.
    by rewrite Hb, orb_true_r, Hz.
  - apply IH1; [simpl; unfold zlen; lia|by intros s [= <-]|rewrite !length_drop in *; lia].
Qed.

Lemma py_eqb_refl v : py_eqb v v = true.
Proof.
  destruct v as [| | | | | | | |d| |]; unfold py_eqb;
    try (by apply bool_decide_eq_true_2).
  destruct (dt_offset d); apply Z.eqb_refl.
Qed.

Lemma new_aggregate_run repo id initial w :
  _aggregate_factory repo id = Ok (AggregateRoot_new (_aggregate_type repo) id initial) →
  _new_aggregate repo id w =
  (Ok (uw_next w),
   UowWorld (uw_tx w) (<[uw_next w := AggregateRoot_new (_aggregate_type repo) id initial]> (uw_heap w))
     (uw_next w + 1) (uw w)).
Proof.
  intros Hf. unfold _new_aggregate. rewrite run_bind_lift, Hf. simpl wrapping. cbv iota.
  autorewrite with mrun. simpl agg_type. rewrite Z.eqb_refl. simpl negb. autorewrite with mrun.
  simpl _id. rewrite py_eqb_refl. simpl negb. unfold fresh_identity. by autorewrite with mrun.
Qed.

Lemma snapshot_whole w sid :
  session_wf (uw_tx w) → whole_stream sid (default [] (_snapshot (ses_tx (uw_tx w)) !! sid)).
Proof.
  intros (Hs & _ & Hp) k e He.
  assert (stream_of (_state (ses_store (uw_tx w))) sid !! k = Some e) as Hcur
    by (eapply prefix_lookup_Some; [exact He|apply Hp]).
  unfold stream_of in Hcur. rewrite (sw_stream _ Hs) in Hcur. split; [|by apply (sw_version _ Hs) in Hcur].
  apply list_elem_of_lookup_2 in Hcur. by apply list_elem_of_filter in Hcur as [? _].
Qed.

Lemma load_run fuel repo lease id initial sid w :
  memory_active enter_lock commit_lock w → lease = Ok tt →
  1 <= _page_size repo <= read_page_size (EsStore.limits (ses_store (uw_tx w))) →
  _repository_stream_id repo id = Ok sid →
  _aggregate_factory repo id = Ok (AggregateRoot_new (_aggregate_type repo) id initial) →
  let stored := default [] (_snapshot (ses_tx (uw_tx w)) !! sid) in
  (length stored < fuel)%nat →
  match load_spec repo initial stored with
  | Some d => ∃ w' a,
      load fuel repo lease id w =
        (Ok (Some (if bool_decide (stored ≠ []) then Some (uw_next w) else None)), w') ∧
      uw_tx w' = uw_tx w ∧ uw w' = uw w ∧ uw_heap w' !! uw_next w = Some a ∧
      domain a = d ∧ _version a = zlen stored ∧ clean a ∧ (stored ≠ [] → _stream_id a = Some sid)
  | None => ∃ e w', load fuel repo lease id w = (Err e, w')
  end.
Proof.
  intros (Hwf & Hses & Hsync & Hact)%memory_active_ready -> Hps Hsid Hfac stored Hfuel.
  assert (load fuel repo (Ok tt) id w = _load fuel repo id w) as ->.
  { unfold load, _require_operation_lease. by destruct (_operation_lease repo). }
  unfold _load. rewrite run_bind_lift, Hsid.
  rewrite (M_bind_run _ _ _ _ _ (new_aggregate_run repo id initial w Hfac)).
  set (w1 := UowWorld _ _ _ _).
  pose proof (load_pages_run fuel repo sid stored (uw_next w) 0 false w1
    (AggregateRoot_new (_aggregate_type repo) id initial)) as Hrun.
  rewrite drop_0 in Hrun. change (domain _) with initial in Hrun.
  assert (reads w1 repo sid stored) as Hreads by (destruct Hsync, Hps; unfold reads; by split_and!).
  specialize (Hrun Hreads (snapshot_whole w sid Hses) (lookup_insert_eq _ _ _)
    ltac:(done) eq_refl ltac:(done) Hfuel).
  change (uw_tx w1) with (uw_tx w) in Hrun. change (uw w1) with (uw w) in Hrun.
  destruct (load_spec repo initial stored) as [d|] eqn:Hspec; last first.
  { destruct Hrun as (e & w' & Hrun). rewrite (M_bind_eq _ _ _ _ _ Hrun). eauto. }
  rewrite (M_bind_run _ _ _ _ _ Hrun). rewrite run_ret.
  eexists _, _. split; [reflexivity|]. split; [reflexivity|]. split; [reflexivity|].
  split; [apply lookup_insert_eq|]. unfold caught_up. destruct (bool_decide (stored = [])) eqn:Hnil; [|by split_and!].
  bool_hyps. rewrite Hnil in Hspec |- *. injection Hspec as <-. done.
Qed.

(** ** Saving *)

Lemma save_run repo i a w w' :
  uw_heap w !! i = Some a → _pending_events a ≠ [] → save repo (Ok tt) i w = (Ok tt, w') →
  ∃ sid app, _repository_stream_id repo (_id a) = Ok sid ∧ _faulted a = false ∧
    rmap (encode (_schemas repo)) (_pending_events a) = Ok app ∧
    stage i sid (_pending_events a) app w = (Ok tt, w').
Proof.
  intros Ha Hp Hrun. unfold save in Hrun.
  assert (_require_operation_lease repo (Ok tt) w = (Ok tt, w)) as Hl
    by (unfold _require_operation_lease; by destruct (_operation_lease repo)).
  rewrite (M_bind_run _ _ _ _ _ Hl), (run_bind_read_aggregate _ _ _ _ a Ha), run_bind_throw in Hrun.
  destruct (negb _); [done|]. rewrite (run_bind_read_aggregate _ _ _ _ a Ha), run_bind_lift in Hrun.
  destruct (_repository_stream_id repo (_id a)) as [sid|] eqn:Hsid; [|done].
  apply M_bind_cases in Hrun as [(e & _ & [=])|([] & w1 & Hv & Hrun)].
  assert (w1 = w ∧ _faulted a = false) as [-> Hf].
  { unfold validate_stage in Hv. rewrite run_bind_active in Hv.
    destruct (decide _); [|done]. autorewrite with mrun in Hv.
    destruct (bool_decide _); [done|]. autorewrite with mrun in Hv.
    destruct (bool_decide _); [done|]. unfold on_aggregate in Hv. rewrite Ha in Hv.
    destruct (_validate_staging sid a) as [r a'] eqn:E. apply validate_staging_run in E as [-> E].
    injection Hv as -> <-. rewrite insert_id, uw_eta by done. split; [done|]. by apply E. }
  rewrite (run_bind_read_aggregate _ _ _ _ a Ha), bool_decide_eq_false_2, run_bind_lift in Hrun by done.
  destruct (rmap _ _) as [app|] eqn:Happ; [|done]. exists sid, app. done.
Qed.

Lemma numbered_cons sid v p e es :
  numbered sid v p (e :: es) =
  {| stream_id := sid; stream_version := v + 1; global_position := p + 1; se_event := e |}
  :: numbered sid (v + 1) (p + 1) es.
Proof.
  unfold numbered. simpl. f_equal; [f_equal; lia|]. apply imap_ext. intros i x _. simpl. f_equal; lia.
Qed.

(** The application's decoder inverts its encoder on an event. *)
Definition codec_inverts (r : EventSchemaRegistry) (p : PendingEvent) : Prop :=
  ∀ s b, _by_class r !! event_class (pe_event p) = Some s →
    encoder s (pe_event p) = Ok (PyBytes b) → decoder s b = Ok (pe_event p).

Lemma decode_numbered r sid v p pending app :
  wf_registry r → Forall (codec_inverts r) pending → rmap (encode r) pending = Ok app →
  0 <= v → 0 <= p →
  ∃ recorded, rmap (decode r) (numbered sid v p app) = Ok recorded ∧
    re_event <$> recorded = pe_event <$> pending.
Proof.
  intros Hr. revert v p app. induction pending as [|x pending IH]; intros v p app Hc Happ Hv Hp.
  - simpl in Happ. simplify_eq. by exists [].
  - apply Forall_cons in Hc as [Hx Hc]. simpl in Happ. apply result_bind_ok in Happ as (y & Hy & Happ).
    apply result_bind_ok in Happ as (ys & Hys & Happ). simplify_eq.
    destruct (IH (v + 1) (p + 1) ys Hc Hys) as (recorded & Hrec & Hev); [lia..|].
    rewrite numbered_cons. cbn [rmap].
    destruct (encode_decode_run r x y sid (v + 1) (p + 1) Hr Hy) as (s & _ & Hd); [lia|lia|exact Hx|].
    rewrite Hd. r_simpl. rewrite Hrec. r_simpl. eexists. split; [done|]. rewrite !fmap_cons. by rewrite Hev.
Qed.

Lemma load_spec_app repo initial stored new h h' :
  (∃ recorded, rmap (decode (_schemas repo)) stored = Ok recorded ∧ re_event <$> recorded = h) →
  (∃ recorded, rmap (decode (_schemas repo)) new = Ok recorded ∧ re_event <$> recorded = h') →
  load_spec repo initial (stored ++ new) = evolve initial (h ++ h').
Proof.
  intros (r1 & H1 & <-) (r2 & H2 & <-). unfold load_spec. rewrite rmap_app, H1. r_simpl.
  rewrite H2. r_simpl. by rewrite fmap_app.
Qed.

End loading.

(** What the commit of a unit of work leaves in a stream one of its plans is
    for. *)
Lemma commit_plan_stream {D} enter_lock commit_lock (w : uow_world session D) res w' p :
  uow_wf w → session_wf (uw_tx w) → synced w → uow_state (uw w) = UACTIVE → p ∈ _plans (uw w) →
  @commit session (memory_transaction enter_lock commit_lock) D w = (Ok res, w') →
  store_wf (_state (ses_store (uw_tx w'))) ∧
  EsStore.limits (ses_store (uw_tx w')) = EsStore.limits (ses_store (uw_tx w)) ∧
  ∃ q, stream_of (_state (ses_store (uw_tx w'))) (plan_stream_id p) =
    stream_of (_state (ses_store (uw_tx w))) (plan_stream_id p) ++
    numbered (plan_stream_id p) (plan_expected_version p) q (plan_append_events p).
Proof.
  intros Hwf Hses [Htx Hst] Hact Hp Hrun. pose proof Hses as (Hs & Ht & _).
  destruct (@commit_cases _ (memory_transaction enter_lock commit_lock) _ _ _ _ Hwf Hact Hrun)
    as [-> [(r & Hc & _)|(e & f & s & o & [=] & _)]].
  simpl in Hc |- *. unfold mbind, M_bind in *.
  pose proof (tx_call_commit commit_lock (uw_tx w) Hses) as (Hses' & _ & Hlim).
  pose proof (commit_run commit_lock (uw_tx w) Ht Htx) as Hrun'.
  destruct (EsStore.commit commit_lock (uw_tx w)) as [[r'|e] s']; [|done]. simpl in *.
  split; [apply Hses'|]. split; [done|].
  destruct commit_lock as [[]|]; [|done]. destruct (_validate_commit _ _) as [[]|]; [|done].
  injection Hrun' as _ ->. simpl. rewrite build_store_streams.
  destruct (of_stream_numbered_all (plan_stream_id p) (zlen (events (_state (ses_store (uw_tx w)))))
    (_staged (ses_tx (uw_tx w))) (tw_streams _ Ht)) as [[_ Hn]|(b & q & Hb & Eb & ->)].
  { destruct Hn. rewrite Hst, <- list_fmap_compose. by apply (list_elem_of_fmap_2 (plan_stream_id)). }
  rewrite (staged_unique _ b (plan_staged p) (tw_streams _ Ht)); [by exists q|done| |done].
  rewrite Hst. by apply list_elem_of_fmap_2.
Qed.

(** Positions in a well-formed store are positive. *)
Lemma numbered_position st sid v q es :
  store_wf st → (∃ l, stream_of st sid = l ++ numbered sid v q es) → es ≠ [] → 0 <= q.
Proof.
  intros Hs [l Hl] Hne. destruct es as [|e es]; [done|]. rewrite numbered_cons in Hl.
  set (x := {| stream_id := sid; stream_version := v + 1; global_position := q + 1; se_event := e |}) in Hl.
  assert (x ∈ stream_of st sid) as Hx by (rewrite Hl; set_solver).
  unfold stream_of in Hx. rewrite (sw_stream _ Hs) in Hx. apply list_elem_of_filter in Hx as [_ Hx].
  apply list_elem_of_lookup in Hx as [i Hi]. apply (sw_position _ Hs) in Hi. simpl in Hi. lia.
Qed.

(** A unit of work entered on a store reads what is committed. *)
Lemma enter_memory {D} (store : InMemoryEventStore) heap next self (w : uow_world session D) :
  @EsUnitOfWork.__aenter__ _ (memory_transaction (Ok tt) (Ok tt)) D
    (UowWorld (Session store _InMemoryTransaction_new) heap next (EventSourcingUnitOfWork_new self)) =
    (Ok tt, w) →
  ses_store (uw_tx w) = store ∧ _snapshot (ses_tx (uw_tx w)) = streams (_state store) ∧ uw_next w = next.
Proof. intros Hrun. vm_compute in Hrun. by injection Hrun as <-. Qed.

Lemma memory_append_store {D} (w w' : uow_world session D) sid v app :
  @tx_append _ (memory_transaction (Ok tt) (Ok tt)) sid v app (uw_tx w) = (Ok tt, uw_tx w') →
  ses_store (uw_tx w') = ses_store (uw_tx w) ∧ app ≠ [].
Proof.
  intros Hrun. simpl in Hrun.
  apply append_run in Hrun as [[_ [e [=]]]|(? & ? & es & _ & _ & _ & Hes & Hne & _ & _ & _ & _ & _ & Hs & _)].
  split; [done|]. intros ->. by destruct es.
Qed.

(** ** Properties *)

(** Loading replays the stream, and ends. In an active unit of work on the
    in-memory store, with more rounds than the stream has events: if every event
    decodes and applies, loading returns the new aggregate with the state of all
    the events in order, the version of the last one, and nothing pending, or
    nothing for an empty stream; otherwise it raises. Nothing but the new
    aggregate changes, and the page size makes no difference. *)
Theorem repository_load `{Unicode} {D} `{Domain D} enter_lock commit_lock fuel
    (repo : EventSourcedRepository D) lease id initial sid (w : uow_world session D) :
  memory_active enter_lock commit_lock w → lease = Ok tt →
  1 <= _page_size repo <= read_page_size (EsStore.limits (ses_store (uw_tx w))) →
  _repository_stream_id repo id = Ok sid →
  _aggregate_factory repo id = Ok (AggregateRoot_new (_aggregate_type repo) id initial) →
  let stored := default [] (_snapshot (ses_tx (uw_tx w)) !! sid) in
  let run := @load _ _ (memory_transaction enter_lock commit_lock) _ _ fuel repo lease id w in
  (length stored < fuel)%nat →
  match load_spec repo initial stored with
  | Some d => ∃ w' a,
      run = (Ok (Some (if bool_decide (stored ≠ []) then Some (uw_next w) else None)), w') ∧
      uw_tx w' = uw_tx w ∧ uw w' = uw w ∧ uw_heap w' !! uw_next w = Some a ∧
      domain a = d ∧ _version a = zlen stored ∧ clean a ∧ (stored ≠ [] → _stream_id a = Some sid)
  | None => ∃ e w', run = (Err e, w')
  end.
Proof. apply load_run. Qed.

(** C10: Save, commit, load. An aggregate whose stream holds its committed
    history, saved and committed, is loaded back by the next unit of work with
    the same state, at the version after the events that were pending, if the
    application's decoders invert its encoders on those events. *)
Theorem save_commit_load `{Unicode} {D} `{Domain D} fuel (repo : EventSourcedRepository D) i a h initial
    (w w1 w2 w3 : uow_world session D) res next self :
  let TX := memory_transaction (Ok tt) (Ok tt) in
  memory_active (Ok tt) (Ok tt) w → uw_heap w !! i = Some a →
  agg_reachable (_aggregate_type repo) (_id a) initial a h → _pending_events a ≠ [] →
  wf_registry (_schemas repo) → Forall (codec_inverts (_schemas repo)) (_pending_events a) →
  1 <= _page_size repo <= read_page_size (EsStore.limits (ses_store (uw_tx w))) →
  _aggregate_factory repo (_id a) = Ok (AggregateRoot_new (_aggregate_type repo) (_id a) initial) →
  (∀ sid, _repository_stream_id repo (_id a) = Ok sid →
     ∃ recorded, rmap (decode (_schemas repo)) (stream_of (_state (ses_store (uw_tx w))) sid) = Ok recorded
       ∧ re_event <$> recorded = h) →
  save repo (Ok tt) i w = (Ok tt, w1) → commit w1 = (Ok res, w2) →
  EsUnitOfWork.__aenter__ (UowWorld (Session (ses_store (uw_tx w2)) _InMemoryTransaction_new) (uw_heap w2) next
    (EventSourcingUnitOfWork_new self)) = (Ok tt, w3) →
  (length (events (_state (ses_store (uw_tx w2)))) < fuel)%nat →
  ∃ w4 b, load fuel repo (Ok tt) (_id a) w3 = (Ok (Some (Some next)), w4) ∧
    uw_heap w4 !! next = Some b ∧ domain b = domain a ∧
    _version b = _version a + zlen (_pending_events a) ∧ _pending_events b = [].
Proof.
  intros TX Hmem Ha Hreach Hpend Hreg Hcodec Hps Hfac Hhist Hsave Hcommit Henter Hfuel.
  destruct (save_run (Ok tt) (Ok tt) _ _ _ _ _ Ha Hpend Hsave) as (sid & app & Hsid & Hf & Happ & Hstage).
  destruct (memory_active_ready _ _ _ Hmem) as (Hwf & Hses & Hsync & Hact).
  destruct (memory_stage_ready _ _ _ _ _ _ _ _ _ Hwf Hses Hsync Hstage) as (Hwf1 & Hses1 & Hsync1 & Hact1).
  destruct (stage_cases _ _ _ _ _ _ _ Hwf Hstage) as (_ & _ & _ & a' & Ha' & Happend & Hplans).
  rewrite Ha in Ha'. injection Ha' as <-.
  pose proof (agg_reachable_wf _ _ _ _ _ Hreach) as Hagg.
  pose proof (aw_version _ _ _ Hagg Hf) as Hver. pose proof (aw_state _ _ _ Hagg Hf) as Hstate.
  destruct (commit_plan_stream (Ok tt) (Ok tt) w1 res w2 _ Hwf1 Hses1 Hsync1 ltac:(congruence)
    ltac:(rewrite Hplans; apply elem_of_app; right; left) Hcommit) as (Hst2 & Hlim2 & q & Hstream).
  cbn [plan_stream_id plan_expected_version plan_append_events] in Hstream.
  destruct (memory_append_store _ _ _ _ _ Happend) as [Hst1 Hne]. rewrite Hst1 in Hstream, Hlim2.
  destruct (enter_memory _ _ _ _ _ Henter) as (Hst3 & Hsnap & Hnext).
  assert (0 <= q) as Hq by (eapply numbered_position; eauto).
  pose proof (load_run (Ok tt) (Ok tt) fuel repo (Ok tt) (_id a) initial sid w3
    (ma_enter _ _ _ _ _ _ _ Hst2 Henter) eq_refl) as Hload.
  rewrite Hst3, Hlim2, Hsnap in Hload. change (default [] _) with (stream_of (_state (ses_store (uw_tx w2))) sid) in Hload.
  specialize (Hload Hps Hsid Hfac). cbv zeta in Hload.
  assert (length (stream_of (_state (ses_store (uw_tx w2))) sid) < fuel)%nat as Hlen.
  { unfold stream_of. rewrite (sw_stream _ Hst2). unfold of_stream.
    pose proof (length_filter (λ e, stream_id e = sid) (events (_state (ses_store (uw_tx w2))))). lia. }
  specialize (Hload Hlen). rewrite Hstream, (load_spec_app repo initial _ _ h (pe_event <$> _pending_events a)) in Hload;
    [|by apply Hhist|apply decode_numbered; try done; rewrite Hver; apply zlen_nonneg].
  rewrite Hstate in Hload. destruct Hload as (w4 & b & Hrun & _ & _ & Hb & Hdom & Hvb & (_ & _ & Hpb) & _).
  exists w4, b. rewrite Hnext in Hb, Hrun. split_and!; try done.
  - etrans; [exact Hrun|]. rewrite bool_decide_eq_true_2; [done|]. intros [_ Hnil]%app_eq_nil.
    apply (f_equal length) in Hnil. unfold numbered in Hnil. rewrite length_imap in Hnil. by destruct app.
  - destruct (Hhist sid Hsid) as (recs & Hrecs%rmap_ok_length & <-). apply rmap_ok_length in Happ.
    rewrite Hvb, Hver, zlen_app. unfold zlen, numbered. rewrite length_imap, length_fmap. lia.
Qed.

(** ** A concrete repository *)

Definition ex_repo : EventSourcedRepository (list pyobj) :=
  {| _category := PyStr (str "task"); _aggregate_factory id := Ok (AggregateRoot_new 1 id []);
     _aggregate_type := 1; _id_encoder _ := Ok (PyStr (str "5")); _schemas := ex_registry;
     _page_size := 1; _operation_lease := false |}.
Definition ex_bytes_raise (id : uuid) (b : bytes) : agg_op :=
  AgRaise (Some (ex_event b)) None (ex_metadata id).
Definition ex_bytes_agg1 : AggregateRoot (list pyobj) :=
  (@agg_exec _ ex_domain (ex_bytes_raise 1 [Byte.x41]) (AggregateRoot_new 1 (PyInt 5) [])).2.
Definition ex_bytes_agg : AggregateRoot (list pyobj) :=
  (@agg_exec _ ex_domain (ex_bytes_raise 2 [Byte.x42]) ex_bytes_agg1).2.
Definition ex_repo_new : uow_world session (list pyobj) :=
  UowWorld (Session (InMemoryEventStore_new EventSourcingLimits_default) _InMemoryTransaction_new)
    {[ 1 := ex_bytes_agg ]} 100 (EventSourcingUnitOfWork_new 9).
Definition ex_repo_entered := (@EsUnitOfWork.__aenter__ _ ex_tx _ ex_repo_new).2.
Definition ex_repo_saved :=
  (@save ascii_unicode _ ex_tx _ ex_repo (Ok tt) 1 ex_repo_entered).2.
Definition ex_repo_committed := (@commit _ ex_tx _ ex_repo_saved).2.
Definition ex_repo_second : uow_world session (list pyobj) :=
  (@EsUnitOfWork.__aenter__ _ ex_tx _
    (UowWorld (Session (ses_store (uw_tx ex_repo_committed)) _InMemoryTransaction_new)
       (uw_heap ex_repo_committed) 200 (EventSourcingUnitOfWork_new 10))).2.

Lemma ex_repo_entered_memory : memory_active (Ok tt) (Ok tt) ex_repo_entered.
Proof. eapply ma_enter; [apply (store_wf_new EventSourcingLimits_default)|]. vm_compute. reflexivity. Qed.

Lemma ex_bytes_reachable : @agg_reachable _ ex_domain 1 (PyInt 5) [] ex_bytes_agg [].
Proof.
  eapply (@agg_step _ ex_domain 1 (PyInt 5) [] ex_bytes_agg1 [] (ex_bytes_raise 2 [Byte.x42]) ex_bytes_agg
            (Ok tt)); [|exact I|reflexivity].
  eapply (@agg_step _ ex_domain 1 (PyInt 5) [] (AggregateRoot_new 1 (PyInt 5) []) []
            (ex_bytes_raise 1 [Byte.x41]) ex_bytes_agg1 (Ok tt)); [constructor|exact I|reflexivity].
Qed.

(** Nothing is stored yet: no aggregate. *)
Lemma repository_load_witness :
  ∃ w', @load ascii_unicode _ ex_tx _ ex_domain 5 ex_repo (Ok tt) (PyInt 5) ex_repo_entered =
    (Ok (Some None), w').
Proof.
  pose proof (@repository_load ascii_unicode _ ex_domain (Ok tt) (Ok tt) 5 ex_repo (Ok tt) (PyInt 5) []
    ex_sid ex_repo_entered ex_repo_entered_memory eq_refl) as Hload.
  destruct Hload as (w' & a & Hrun & _).
  - vm_compute. split; discriminate.
  - reflexivity.
  - reflexivity.
  - vm_compute. lia.
  - exists w'. exact Hrun.
Defined.

Lemma save_commit_load_witness :
  ∃ w4 b, @load ascii_unicode _ ex_tx _ ex_domain 10 ex_repo (Ok tt) (PyInt 5) ex_repo_second =
    (Ok (Some (Some 200)), w4) ∧ uw_heap w4 !! 200 = Some b ∧
    domain b = [PyBytes [Byte.x41]; PyBytes [Byte.x42]] ∧ _version b = 2.
Proof.
  assert (∃ res, (@commit _ ex_tx _ ex_repo_saved).1 = Ok res) as [res Hres]
    by (eexists; vm_compute; reflexivity).
  assert ((@save ascii_unicode _ ex_tx _ ex_repo (Ok tt) 1 ex_repo_entered).1 = Ok tt) as Hsave
    by (vm_compute; reflexivity).
  destruct (@save_commit_load ascii_unicode _ ex_domain 10 ex_repo 1 ex_bytes_agg [] [] ex_repo_entered
    ex_repo_saved ex_repo_committed ex_repo_second res 200 10 ex_repo_entered_memory)
    as (w4 & b & Hrun & Hb & Hd & Hv & _).
  - vm_compute. reflexivity.
  - exact ex_bytes_reachable.
  - discriminate.
  - exact ex_registry_wf.
  - repeat constructor; intros s b; vm_compute; intros [= <-] [= <-]; reflexivity.
  - vm_compute. split; discriminate.
  - reflexivity.
  - intros sid _. exists [].
    assert (_state (ses_store (uw_tx ex_repo_entered)) =
            _state (InMemoryEventStore_new EventSourcingLimits_default)) as ->
      by (vm_compute; reflexivity).
    split; reflexivity.
  - etransitivity; [apply surjective_pairing|]. exact (f_equal2 pair Hsave eq_refl).
  - etransitivity; [apply surjective_pairing|]. exact (f_equal2 pair Hres eq_refl).
  - vm_compute. reflexivity.
  - vm_compute. lia.
  - exists w4, b. split; [exact Hrun|]. split; [exact Hb|]. split; [rewrite Hd; reflexivity|].
    rewrite Hv. reflexivity.
Defined.
