(* ===== verification/DiDeclarations.v ===== *)
(** * Dependency injection: declarations

    [providers.py] and [modules.py] of [tori_py.core]: tokens, scopes, provider
    declarations and module specifications with their validating constructors.
    Classes, factories and deferred descriptors are known by identity; what the
    application's code says about them (signatures, annotations, decorators,
    the specification a deferred module materialises to) is the parameter
    [Reflection]. *)

From Stdlib Require Import ZArith Lia.
From stdpp Require Import base tactics list gmap strings.
From S2P Require Import Prelude.
Local Open Scope Z_scope.

(** ** Tokens and scopes *)

Inductive Token :=
| TClass (class : Z)
| TName (name : pystr).

#[export] Instance Token_eq_dec : EqDecision Token.
Proof. solve_decision. Defined.
#[export] Instance Token_countable : Countable Token.
Proof.
  refine (inj_countable' (λ t, match t with TClass c => inl c | TName n => inr n end)
            (λ x, match x with inl c => TClass c | inr n => TName n end) _).
  by intros [].
Defined.

Inductive Scope := SINGLETON | REQUEST | TRANSIENT.

#[export] Instance Scope_eq_dec : EqDecision Scope.
Proof. solve_decision. Defined.

(** ** Identities *)

Record ModuleId := { mid_module : Z; mid_key : option pystr }.

#[export] Instance ModuleId_eq_dec : EqDecision ModuleId.
Proof. solve_decision. Defined.
#[export] Instance ModuleId_countable : Countable ModuleId.
Proof.
  refine (inj_countable' (λ m, (mid_module m, mid_key m))
            (λ p, {| mid_module := p.1; mid_key := p.2 |}) _).
  by intros [].
Defined.

Record ProviderRef := { ref_module_id : ModuleId; ref_token : Token }.

#[export] Instance ProviderRef_eq_dec : EqDecision ProviderRef.
Proof. solve_decision. Defined.
#[export] Instance ProviderRef_countable : Countable ProviderRef.
Proof.
  refine (inj_countable' (λ r, (ref_module_id r, ref_token r))
            (λ p, {| ref_module_id := p.1; ref_token := p.2 |}) _).
  by intros [].
Defined.

(** ** Failures

    [BootstrapError] by its diagnostic code, with the path of its details where
    the code reports one; then what other code may raise. *)

Inductive di_error :=
| ModuleInvalidDeclaration
| ModuleStaticDynamicConflict
| ModuleDynamicConflict
| ModuleMaterializationError
| ModuleCycle (path : list ModuleId)
| ModuleInvalidConstructor
| ModuleInvalidExport
| ModuleDuplicateMetadata
| ControllerInvalidDeclaration
| ProviderInvalidToken
| ProviderInvalidScope
| ProviderInvalidDeclaration
| ProviderInvalidSignature
| ProviderReservedToken
| ProviderDuplicate
| ProviderAmbiguous
| ProviderUnresolved
| ProviderAliasCycle (path : list ProviderRef)
| ProviderCycle (path : list ProviderRef)
| ProviderScopeViolation (path : list ProviderRef)
| SettingsError
| KeyError
| RecursionError
| ApplicationError (id : Z) (is_exception : bool).

(** ** Provider declarations *)

(** An object passed as a token, a scope or a class. *)
Inductive token_arg := ArgClass (class : Z) | ArgStr (s : pystr) | ArgObject.
Inductive scope_arg := ArgScope (s : Scope) | ArgScopeName (s : pystr) | ArgScopeObject.

Definition validate_token (token : token_arg) : result di_error Token :=
  match token with
  | ArgStr [] => Err ProviderInvalidToken
  | ArgStr s => Ok (TName s)
  | ArgClass c => Ok (TClass c)
  | ArgObject => Err ProviderInvalidToken
  end.

(** [Scope(name)] *)
Definition scope_named (s : pystr) : option Scope :=
  if decide (s = str "singleton") then Some SINGLETON
  else if decide (s = str "request") then Some REQUEST
  else if decide (s = str "transient") then Some TRANSIENT
  else None.

Definition normalize_scope (scope : scope_arg) : result di_error Scope :=
  match scope with
  | ArgScope s => Ok s
  | ArgScopeName n => match scope_named n with Some s => Ok s | None => Err ProviderInvalidScope end
  | ArgScopeObject => Err ProviderInvalidScope
  end.

Inductive ProviderDeclaration :=
| ValueProvider (token : Token) (value : pyobj) (manage : bool) (scope : Scope)
| ClassProvider (token : Token) (use_class : Z) (scope : Scope) (manage proxy : bool)
| FactoryProvider (token : Token) (factory : Z) (scope : Scope) (manage : bool)
| AliasProvider (token target : Token).

Definition provider_token (p : ProviderDeclaration) : Token :=
  match p with
  | ValueProvider t _ _ _ | ClassProvider t _ _ _ _ | FactoryProvider t _ _ _ | AliasProvider t _ => t
  end.

(** [getattr(provider, "scope", Scope.SINGLETON)] *)
Definition declared_scope (p : ProviderDeclaration) : Scope :=
  match p with
  | ValueProvider _ _ _ s | ClassProvider _ _ s _ _ | FactoryProvider _ _ s _ => s
  | AliasProvider _ _ => SINGLETON
  end.

Definition is_alias (p : ProviderDeclaration) : bool :=
  match p with AliasProvider _ _ => true | _ => false end.

(** A flag that must be a [bool]. *)
Definition bool_arg (v : pyobj) : result di_error bool :=
  match v with PyBool b => Ok b | _ => Err ProviderInvalidDeclaration end.

Definition ValueProvider_new (token : token_arg) (value manage : pyobj) (scope : scope_arg)
    : result di_error ProviderDeclaration :=
  t ← validate_token token;
  s ← normalize_scope scope;
  _ ← raise_if (bool_decide (s ≠ SINGLETON)) ProviderInvalidScope;
  m ← bool_arg manage;
  Ok (ValueProvider t value m s).

(** [use_class]: absent ([None]) or an object. *)
Definition ClassProvider_new (token : token_arg) (use_class : option token_arg) (scope : scope_arg)
    (manage proxy : pyobj) : result di_error ProviderDeclaration :=
  t ← validate_token token;
  let target := match use_class, t with
                | Some (ArgClass c), _ => Some c
                | Some _, _ => None
                | None, TClass c => Some c
                | None, TName _ => None
                end in
  c ← match target with Some c => Ok c | None => Err ProviderInvalidDeclaration end;
  s ← normalize_scope scope;
  m ← bool_arg manage;
  p ← bool_arg proxy;
  Ok (ClassProvider t c s m p).

(** [factory] is [None] when the object is not callable. *)
Definition FactoryProvider_new (token : token_arg) (factory : option Z) (scope : scope_arg)
    (manage : pyobj) : result di_error ProviderDeclaration :=
  t ← validate_token token;
  s ← normalize_scope scope;
  f ← match factory with Some f => Ok f | None => Err ProviderInvalidDeclaration end;
  m ← bool_arg manage;
  Ok (FactoryProvider t f s m).

Definition AliasProvider_new (token target : token_arg) : result di_error ProviderDeclaration :=
  t ← validate_token token;
  a ← validate_token target;
  Ok (AliasProvider t a).

(** ** Modules *)

Record DeferredModule := { dm_identity : Z; dm_module : Z; dm_key : pystr }.

#[export] Instance DeferredModule_eq_dec : EqDecision DeferredModule.
Proof. solve_decision. Defined.

(** [module] is [None] when it is no class, [factory] tells whether the factory
    is callable. *)
Definition DeferredModule_new (identity : Z) (module : option Z) (key : pyobj) (factory : bool)
    : result di_error DeferredModule :=
  m ← match module with Some m => Ok m | None => Err ModuleInvalidDeclaration end;
  k ← match key with
      | PyStr [] => Err ModuleInvalidDeclaration
      | PyStr k => if decide (k = str "static") then Err ModuleInvalidDeclaration else Ok k
      | _ => Err ModuleInvalidDeclaration
      end;
  _ ← raise_if (negb factory) ModuleInvalidDeclaration;
  Ok {| dm_identity := identity; dm_module := m; dm_key := k |}.

Inductive ModuleImport := ImportClass (class : Z) | ImportDeferred (descriptor : DeferredModule).
Inductive ModuleProvider := Declared (p : ProviderDeclaration) | Shorthand (class : Z).

Record ModuleSpec := {
  spec_imports : list ModuleImport;
  spec_providers : list ModuleProvider;
  spec_controllers : list Z;
  spec_exports : list Token;
  global_ : bool
}.

Definition ModuleSpec_empty : ModuleSpec :=
  {| spec_imports := []; spec_providers := []; spec_controllers := []; spec_exports := [];
     global_ := false |}.

(** An item that is [None] has a type that is not accepted. *)
Definition item_of {A} (e : di_error) (x : option A) : result di_error A :=
  match x with Some a => Ok a | None => Err e end.

Definition ModuleSpec_new (imports : list (option ModuleImport)) (providers : list (option ModuleProvider))
    (controllers : list (option Z)) (exports : list token_arg) (is_global : pyobj)
    : result di_error ModuleSpec :=
  i ← rmap (item_of ModuleInvalidDeclaration) imports;
  p ← rmap (item_of ProviderInvalidDeclaration) providers;
  c ← rmap (item_of ControllerInvalidDeclaration) controllers;
  e ← rmap validate_token exports;
  g ← match is_global with PyBool b => Ok b | _ => Err ModuleInvalidDeclaration end;
  Ok {| spec_imports := i; spec_providers := p; spec_controllers := c; spec_exports := e;
        global_ := g |}.

(** ** What the application's classes and functions look like *)

Inductive ParameterKind := ORDINARY | VAR_POSITIONAL | VAR_KEYWORD.

#[export] Instance ParameterKind_eq_dec : EqDecision ParameterKind.
Proof. solve_decision. Defined.

(** [AnnotatedWith base metadata] is [Annotated[base, *metadata]]: the base is a
    class or not, an item of the metadata is [Inject(token)] or not. *)
Inductive Annotation :=
| NoAnnotation
| AnnotatedClass (class : Z)
| AnnotatedWith (base : option Z) (metadata : list (option Token))
| OtherAnnotation.

Record Param := {
  param_name : pystr;
  param_kind : ParameterKind;
  param_has_default : bool;
  param_annotation : Annotation
}.

Inductive Callable := CallClass (class : Z) | CallFactory (factory : Z).

(** What calling a deferred module's factory, and awaiting it, gives. *)
Inductive materialized :=
| GivesSpec (spec : ModuleSpec)
| GivesOther
| Raises (e : di_error).

(** A method interceptor: by token, or an object. *)
Inductive InterceptorBinding := BindToken (t : Token) | BindObject (id : Z).

Record MethodInfo := {
  method_name : pystr;
  method_is_coroutine : bool;
  method_bindings : list InterceptorBinding
}.

(** [module_signature], [signature] and [type_hints] are [inspect.signature] and
    [get_type_hints]; [None] is one of the exceptions the callers catch.
    [class_methods] are the members of a class with the later ones of its MRO
    overriding the earlier ones. *)
Class Reflection := {
  module_signature : Z → option (list Param);
  signature : Callable → option (list Param);
  type_hints : Callable → option (list (pystr * Annotation));
  is_coroutine_function : Z → bool;
  module_metadata : Z → option ModuleSpec;
  injectable_metadata : Z → option ProviderDeclaration;
  is_gateway : Z → bool;
  materialize : DeferredModule → materialized;
  class_methods : Z → list MethodInfo
}.
