(* ===== verification/DiCompiler.v ===== *)
(** * Dependency injection: the graph compiler

    [compiler.py] of [tori_py.core]: from a root module to an immutable graph of
    modules and providers. The first half walks the modules and keeps the state
    of [_Compiler]; the second half ([_finish]) is a function of that state.
    Dictionaries whose order is observable are lists of items. Recursive
    functions take fuel; running out of it is [RecursionError]. *)

From Stdlib Require Import ZArith Lia.
From stdpp Require Import base tactics list gmap strings.
From S2P Require Import Prelude DiDeclarations.
Local Open Scope Z_scope.

(** ** Plans *)

Inductive AwaitPolicy := NEVER | ALWAYS | IF_AWAITABLE.

Record DependencyPlan := {
  dep_parameter_name : pystr;
  dep_token : option Token;
  dep_annotation : Annotation;
  dep_has_default : bool;
  dep_provider_ref : option ProviderRef
}.

Record DependencySource := {
  src_parameter_name : pystr;
  src_provider_ref : option ProviderRef;
  src_intrinsic : option Token
}.

Inductive Invoker :=
| InvokeValue (value : pyobj)
| InvokeClass (class : Z)
| InvokeFactory (factory : Z)
| _uncanonicalized_alias.

Record ConstructionRecipe := {
  invoker : Invoker;
  rec_dependencies : list DependencySource;
  await_policy : AwaitPolicy;
  manage : bool
}.

Inductive InterceptorRef := InterceptorProvider (r : ProviderRef) | InterceptorObject (id : Z).

Record ProviderPlan := {
  pp_key : ProviderRef;
  pp_declaration : ProviderDeclaration;
  pp_dependencies : list DependencyPlan;
  pp_scope : Scope;
  pp_canonical : ProviderRef;
  pp_recipe : ConstructionRecipe;
  pp_proxy : bool;
  pp_method_interceptors : list (pystr * list InterceptorRef)
}.

Record ModulePlan := {
  mp_module_id : ModuleId;
  mp_module : Z;
  mp_spec : ModuleSpec;
  mp_imports : list ModuleId;
  mp_providers : list ProviderPlan
}.
Definition mp_exports (p : ModulePlan) : list Token := spec_exports (mp_spec p).
Definition mp_global (p : ModulePlan) : bool := global_ (mp_spec p).

Record GraphShape := { shape_root : ModuleId; shape_modules : list ModulePlan }.

Record CompiledGraph := {
  shape : GraphShape;
  providers : list (ProviderRef * ProviderPlan);
  visibility : gmap (ModuleId * Token) ProviderRef;
  provider_order : list ProviderRef
}.

Record _ModuleNode := {
  node_module_id : ModuleId;
  node_module : Z;
  node_spec : ModuleSpec;
  node_imports : list ModuleId
}.

Inductive visit_state := VISITING | DONE.

#[export] Instance visit_state_eq_dec : EqDecision visit_state.
Proof. solve_decision. Defined.

Record _Compiler := {
  nodes : gmap ModuleId _ModuleNode;
  states : gmap ModuleId visit_state;
  order : list ModuleId;
  static_ids : gmap Z ModuleId;
  dynamic_ids : gmap (Z * pystr) DeferredModule;
  descriptor_ids : gmap Z ModuleId
}.

Definition _Compiler_new : _Compiler :=
  {| nodes := ∅; states := ∅; order := []; static_ids := ∅; dynamic_ids := ∅; descriptor_ids := ∅ |}.

(** [WorkScopeFactory], [ModulesContainer], [DiscoveryService] and [Reflector],
    the classes of the framework itself. *)
Definition _INTRINSIC_DEPENDENCIES : list Token := [TClass (-1); TClass (-2); TClass (-3); TClass (-4)].

Definition intrinsic (t : Token) : bool := bool_decide (t ∈ _INTRINSIC_DEPENDENCIES).

(** [dict.fromkeys(l)]: the first occurrences. *)
Definition fromkeys {A} `{EqDecision A} (l : list A) : list A :=
  foldl (λ acc x, if bool_decide (x ∈ acc) then acc else acc ++ [x]) [] l.

Section compiler.
Context `{Reflection}.

(** ** Signatures *)

Definition _validate_module_constructor (module : Z) : result di_error unit :=
  match module_signature module with
  | None => Err ModuleInvalidConstructor
  | Some parameters =>
      rfold (λ _ p, raise_if (bool_decide (param_kind p = ORDINARY) && negb (param_has_default p))
                      ModuleInvalidConstructor) tt parameters
  end.

Definition _validate_provider_token (token : Token) : result di_error unit :=
  raise_if (intrinsic token) ProviderReservedToken.

Definition _annotation_token (annotation : Annotation) : result di_error (option Token * bool) :=
  match annotation with
  | NoAnnotation => Ok (None, false)
  | AnnotatedWith base metadata =>
      match omap id metadata with
      | [] => Ok (TClass <$> base, false)
      | [t] => Ok (Some t, true)
      | _ => Err ProviderInvalidSignature
      end
  | AnnotatedClass c => Ok (Some (TClass c), false)
  | OtherAnnotation => Ok (None, false)
  end.

Definition compile_parameter (hints : list (pystr * Annotation)) (p : Param)
    : result di_error DependencyPlan :=
  _ ← raise_if (bool_decide (param_kind p ≠ ORDINARY)) ProviderInvalidSignature;
  let annotation := default (param_annotation p) (dict_get hints (param_name p)) in
  te ← _annotation_token annotation;
  let '(token, explicit) := te in
  _ ← raise_if (bool_decide (token = None) && negb (param_has_default p)) ProviderInvalidSignature;
  let token := if param_has_default p && negb explicit then None else token in
  Ok {| dep_parameter_name := param_name p; dep_token := token; dep_annotation := annotation;
        dep_has_default := param_has_default p; dep_provider_ref := None |}.

Definition _compile_dependencies (declaration : ProviderDeclaration)
    : result di_error (list DependencyPlan) :=
  let compile target :=
    match signature target, type_hints target with
    | Some parameters, Some hints => rmap (compile_parameter hints) parameters
    | _, _ => Err ProviderInvalidSignature
    end in
  match declaration with
  | ValueProvider _ _ _ _ | AliasProvider _ _ => Ok []
  | ClassProvider _ use_class _ _ _ => compile (CallClass use_class)
  | FactoryProvider _ factory _ _ => compile (CallFactory factory)
  end.

Definition dependency_source (d : DependencyPlan) : DependencySource :=
  {| src_parameter_name := dep_parameter_name d; src_provider_ref := dep_provider_ref d;
     src_intrinsic := match dep_token d with
                      | Some t => if intrinsic t then Some t else None
                      | None => None
                      end |}.

Definition _compile_recipe (declaration : ProviderDeclaration) (dependencies : list DependencyPlan)
    : ConstructionRecipe :=
  let sources := dependency_source <$> dependencies in
  match declaration with
  | ValueProvider _ value m _ =>
      {| invoker := InvokeValue value; rec_dependencies := sources; await_policy := NEVER; manage := m |}
  | ClassProvider _ use_class _ m _ =>
      {| invoker := InvokeClass use_class; rec_dependencies := sources; await_policy := NEVER;
         manage := m |}
  | FactoryProvider _ factory _ m =>
      {| invoker := InvokeFactory factory; rec_dependencies := sources;
         await_policy := if is_coroutine_function factory then ALWAYS else IF_AWAITABLE; manage := m |}
  | AliasProvider _ _ =>
      {| invoker := _uncanonicalized_alias; rec_dependencies := []; await_policy := NEVER;
         manage := false |}
  end.

Definition normalize_provider (p : ModuleProvider) : result di_error ModuleProvider :=
  match p with
  | Declared d => Ok (Declared d)
  | Shorthand c =>
      match injectable_metadata c with
      | Some d => Ok (Declared d)
      | None => if is_gateway c then Ok (Declared (ClassProvider (TClass c) c SINGLETON true false))
                else Err ProviderInvalidDeclaration
      end
  end.

Definition _normalize_module_providers (spec : ModuleSpec) : result di_error ModuleSpec :=
  declarations ← rmap normalize_provider (spec_providers spec);
  Ok {| spec_imports := spec_imports spec; spec_providers := declarations;
        spec_controllers := spec_controllers spec; spec_exports := spec_exports spec;
        global_ := global_ spec |}.

(** ** The module walk *)

(** The optional hooks of the compiler. *)
Context (import_resolver : option (ModuleImport → result di_error ModuleImport)).
Context (spec_transformer : option (ModuleId → ModuleSpec → result di_error ModuleSpec)).
Context (fallback_provider_collector :
  option (ModuleId → ModuleSpec → bool → result di_error (list ProviderDeclaration))).

Abbreviation C := (M _Compiler di_error).

Definition set_nodes (f : gmap ModuleId _ModuleNode → gmap ModuleId _ModuleNode) (c : _Compiler) :=
  {| nodes := f (nodes c); states := states c; order := order c; static_ids := static_ids c;
     dynamic_ids := dynamic_ids c; descriptor_ids := descriptor_ids c |}.
Definition set_visit (m : ModuleId) (v : visit_state) (c : _Compiler) :=
  {| nodes := nodes c; states := <[m := v]> (states c); order := order c; static_ids := static_ids c;
     dynamic_ids := dynamic_ids c; descriptor_ids := descriptor_ids c |}.
Definition add_order (m : ModuleId) (c : _Compiler) :=
  {| nodes := nodes c; states := states c; order := order c ++ [m]; static_ids := static_ids c;
     dynamic_ids := dynamic_ids c; descriptor_ids := descriptor_ids c |}.
Definition add_static (module : Z) (m : ModuleId) (c : _Compiler) :=
  {| nodes := nodes c; states := states c; order := order c;
     static_ids := <[module := m]> (static_ids c);
     dynamic_ids := dynamic_ids c; descriptor_ids := descriptor_ids c |}.
Definition add_dynamic (d : DeferredModule) (m : ModuleId) (c : _Compiler) :=
  {| nodes := nodes c; states := states c; order := order c; static_ids := static_ids c;
     dynamic_ids := <[(dm_module d, dm_key d) := d]> (dynamic_ids c);
     descriptor_ids := <[dm_identity d := m]> (descriptor_ids c) |}.

(** Normalise the specification, transform it and enter the module's node. *)
Definition add_node (module_id : ModuleId) (module : Z) (spec : ModuleSpec) : C ModuleId :=
  spec ← lift (_normalize_module_providers spec);
  spec ← match spec_transformer with
         | None => mret spec
         | Some f => spec ← lift (f module_id spec); lift (_normalize_module_providers spec)
         end;
  modify (set_nodes <[module_id := {| node_module_id := module_id; node_module := module;
                                      node_spec := spec; node_imports := [] |}]>);;
  mret module_id.

Definition _ensure_static (module : Z) : C ModuleId :=
  c ← get;
  match static_ids c !! module with
  | Some m => mret m
  | None =>
      throw_if (existsb (λ kv, kv.1.1 =? module) (map_to_list (dynamic_ids c)))
        ModuleStaticDynamicConflict;;
      lift (_validate_module_constructor module);;
      let module_id := {| mid_module := module; mid_key := None |} in
      modify (add_static module module_id);;
      add_node module_id module (default ModuleSpec_empty (module_metadata module))
  end.

(** [isinstance(e, Exception)] *)
Definition is_exception (e : di_error) : bool :=
  match e with ApplicationError _ b => b | _ => true end.

Definition materialized_spec (d : DeferredModule) : result di_error ModuleSpec :=
  match materialize d with
  | GivesSpec s => Ok s
  | GivesOther => Err ModuleMaterializationError
  | Raises SettingsError => Err SettingsError
  | Raises e => if is_exception e then Err ModuleMaterializationError else Err e
  end.

Definition _ensure_dynamic (descriptor : DeferredModule) : C ModuleId :=
  c ← get;
  throw_if match dynamic_ids c !! (dm_module descriptor, dm_key descriptor) with
           | Some existing => negb (dm_identity existing =? dm_identity descriptor)
           | None => false
           end ModuleDynamicConflict;;
  match descriptor_ids c !! dm_identity descriptor with
  | Some m => mret m
  | None =>
      throw_if (bool_decide (is_Some (static_ids c !! dm_module descriptor)))
        ModuleStaticDynamicConflict;;
      let module_id := {| mid_module := dm_module descriptor; mid_key := Some (dm_key descriptor) |} in
      modify (add_dynamic descriptor module_id);;
      lift (_validate_module_constructor (dm_module descriptor));;
      spec ← lift (materialized_spec descriptor);
      add_node module_id (dm_module descriptor) spec
  end.

Definition _ensure_import (imported : ModuleImport) : C ModuleId :=
  imported ← match import_resolver with None => mret imported | Some f => lift (f imported) end;
  match imported with
  | ImportDeferred d => _ensure_dynamic d
  | ImportClass c => _ensure_static c
  end.

Definition append_import (module_id child_id : ModuleId) (ns : gmap ModuleId _ModuleNode) :=
  alter (λ n, {| node_module_id := node_module_id n; node_module := node_module n;
                 node_spec := node_spec n; node_imports := node_imports n ++ [child_id] |})
    module_id ns.

Fixpoint _visit (fuel : nat) (module_id : ModuleId) (stack : list ModuleId) : C unit :=
  match fuel with
  | O => raise RecursionError
  | S fuel =>
      c ← get;
      match states c !! module_id with
      | Some DONE => mret tt
      | Some VISITING => raise (ModuleCycle (stack ++ [module_id]))
      | None =>
          modify (set_visit module_id VISITING);;
          match nodes c !! module_id with
          | None => raise KeyError
          | Some node =>
              mfor (λ imported,
                      child_id ← _ensure_import imported;
                      modify (set_nodes (append_import module_id child_id));;
                      _visit fuel child_id (stack ++ [module_id]))
                (spec_imports (node_spec node));;
              modify (set_visit module_id DONE);;
              modify (add_order module_id)
          end
      end
  end.

End compiler.
