(* ===== verification/DiFinish.v ===== *)
(** * Dependency injection: compiling the providers

    [_Compiler._finish] of [compiler.py] and the functions it calls: the
    providers of every module, what each module sees, aliases, dependencies,
    the checks for cycles and scopes, and the construction order. *)

From Stdlib Require Import ZArith Lia.
From stdpp Require Import base tactics list gmap strings.
From S2P Require Import Prelude DiDeclarations DiCompiler.
Local Open Scope Z_scope.

Abbreviation local_refs_t := (list (ModuleId * list (Token * ProviderRef))) (only parsing).
Abbreviation module_plans_t := (list (ModuleId * ModulePlan)) (only parsing).
Abbreviation provider_map_t := (list (ProviderRef * ProviderPlan)) (only parsing).
Abbreviation visibility_t := (gmap (ModuleId * Token) ProviderRef) (only parsing).
Abbreviation cache_t := (gmap ProviderRef ProviderRef) (only parsing).
Abbreviation edges_t := (list (ProviderRef * list ProviderRef)) (only parsing).

(** [d[k]] *)
Definition dict_item {K A} `{EqDecision K} (d : list (K * A)) (k : K) : result di_error A :=
  match dict_get d k with Some a => Ok a | None => Err KeyError end.

(** ** Visibility *)

(** [module_plans[module_id]]: every module that is imported has a plan. *)
Definition imports_of (plans : module_plans_t) (m : ModuleId) : list ModuleId :=
  default [] (mp_imports <$> dict_get plans m).
Definition exports_of (plans : module_plans_t) (m : ModuleId) : list Token :=
  default [] (mp_exports <$> dict_get plans m).
Definition is_global (plans : module_plans_t) (m : ModuleId) : bool :=
  default false (mp_global <$> dict_get plans m).
Definition local_providers (plans : module_plans_t) (m : ModuleId) (token : Token)
    : list ProviderRef :=
  filter (λ r, ref_token r = token) (pp_key <$> default [] (mp_providers <$> dict_get plans m)).
Definition refs_of (local_refs : local_refs_t) (m : ModuleId) : list (Token * ProviderRef) :=
  default [] (dict_get local_refs m).

Fixpoint export_candidates (fuel : nat) (module_id : ModuleId) (token : Token)
    (plans : module_plans_t) (path : list ModuleId) : list ProviderRef :=
  match fuel with
  | O => []
  | S fuel =>
      if bool_decide (module_id ∈ path) then []
      else if negb (bool_decide (token ∈ exports_of plans module_id)) then []
      else match local_providers plans module_id token with
           | [] => fromkeys (mjoin ((λ imported,
                     export_candidates fuel imported token plans (path ++ [module_id]))
                     <$> imports_of plans module_id))
           | local => local
           end
  end.

(** Modules on the path differ, so the depth is at most their number. *)
Definition _module_export_candidates (module_id : ModuleId) (token : Token)
    (plans : module_plans_t) (path : list ModuleId) : list ProviderRef :=
  export_candidates (S (S (length plans))) module_id token plans path.

Definition _direct_export_candidates (module_id : ModuleId) (token : Token)
    (plans : module_plans_t) : list ProviderRef :=
  fromkeys (mjoin ((λ imported, _module_export_candidates imported token plans [module_id])
                   <$> fromkeys (imports_of plans module_id))).

Definition _visible_tokens (module_id : ModuleId) (local_refs : local_refs_t)
    (plans : module_plans_t) (order : list ModuleId) : list Token :=
  fromkeys ((refs_of local_refs module_id).*1
            ++ mjoin (exports_of plans <$> imports_of plans module_id)
            ++ mjoin (exports_of plans <$> filter (is_global plans) order)).

Definition _resolve_visible (module_id : ModuleId) (token : Token) (local_refs : local_refs_t)
    (plans : module_plans_t) (order : list ModuleId) : result di_error ProviderRef :=
  match dict_get (refs_of local_refs module_id) token with
  | Some local => Ok local
  | None =>
      match _direct_export_candidates module_id token plans with
      | _ :: _ :: _ => Err ProviderAmbiguous
      | [direct] => Ok direct
      | [] =>
          match mjoin ((λ g, _module_export_candidates g token plans [])
                       <$> filter (is_global plans) order) with
          | _ :: _ :: _ => Err ProviderAmbiguous
          | [global] => Ok global
          | [] => Err ProviderUnresolved
          end
      end
  end.

Definition _has_visible_provider (module_id : ModuleId) (token : Token) (local_refs : local_refs_t)
    (plans : module_plans_t) (order : list ModuleId) : result di_error bool :=
  match _resolve_visible module_id token local_refs plans order with
  | Ok _ => Ok true
  | Err ProviderUnresolved => Ok false
  | Err e => Err e
  end.

Definition check_export (module_id : ModuleId) (local_refs : local_refs_t) (plans : module_plans_t)
    (token : Token) : result di_error unit :=
  if dict_has (refs_of local_refs module_id) token then Ok tt
  else match _direct_export_candidates module_id token plans with
       | [] => Err ModuleInvalidExport
       | [_] => Ok tt
       | _ => Err ProviderAmbiguous
       end.

Definition _validate_exports (module_id : ModuleId) (local_refs : local_refs_t)
    (plans : module_plans_t) : result di_error unit :=
  rfold (λ _ token, check_export module_id local_refs plans token) tt (exports_of plans module_id).

Definition see_token (module_id : ModuleId) (local_refs : local_refs_t) (plans : module_plans_t)
    (order : list ModuleId) (v : visibility_t) (token : Token) : result di_error visibility_t :=
  r ← _resolve_visible module_id token local_refs plans order;
  Ok (<[(module_id, token) := r]> v).

Definition _compile_visibility (local_refs : local_refs_t) (plans : module_plans_t)
    (order : list ModuleId) : result di_error visibility_t :=
  rfold (λ v module_id,
           _ ← _validate_exports module_id local_refs plans;
           rfold (see_token module_id local_refs plans order) v
             (_visible_tokens module_id local_refs plans order)) ∅ order.

Definition _visible_ref (module_id : ModuleId) (token : Token) (v : visibility_t)
    (local_refs : local_refs_t) (plans : module_plans_t) (order : list ModuleId)
    : result di_error ProviderRef :=
  match v !! (module_id, token) with
  | Some r => Ok r
  | None => _resolve_visible module_id token local_refs plans order
  end.

(** ** Aliases *)

Fixpoint _canonical_provider (fuel : nat) (ref : ProviderRef) (pm : provider_map_t)
    (v : visibility_t) (cache : cache_t) (stack : list ProviderRef)
    : result di_error (ProviderRef * cache_t) :=
  match fuel with
  | O => Err RecursionError
  | S fuel =>
      match cache !! ref with
      | Some cached => Ok (cached, cache)
      | None =>
          plan ← dict_item pm ref;
          match pp_declaration plan with
          | AliasProvider _ target_token =>
              target ← match v !! (ref_module_id ref, target_token) with
                       | Some t => Ok t
                       | None => Err ProviderUnresolved
                       end;
              _ ← raise_if (bool_decide (ref ∈ stack) || bool_decide (target ∈ stack))
                    (ProviderAliasCycle (stack ++ [ref; target]));
              cc ← _canonical_provider fuel target pm v cache (stack ++ [ref]);
              let '(canonical, cache) := cc in
              Ok (canonical, <[ref := canonical]> cache)
          | _ => Ok (ref, <[ref := ref]> cache)
          end
      end
  end.

(** ** Edges, cycles, scopes and order *)

Definition edges_from (edges : edges_t) (r : ProviderRef) : list ProviderRef :=
  default [] (dict_get edges r).

Definition plan_edges (pm : provider_map_t) (v : visibility_t) (item : ProviderRef * ProviderPlan)
    : result di_error (ProviderRef * list ProviderRef) :=
  let '(ref, plan) := item in
  match pp_declaration plan with
  | AliasProvider _ target_token =>
      target ← match v !! (ref_module_id ref, target_token) with
               | Some t => Ok t
               | None => Err KeyError
               end;
      p ← dict_item pm target;
      Ok (ref, [pp_canonical p])
  | _ => Ok (ref, omap dep_provider_ref (pp_dependencies plan))
  end.

Definition _provider_edges (pm : provider_map_t) (v : visibility_t) : result di_error edges_t :=
  rmap (plan_edges pm v) pm.

Record cycle_state := { cs_states : gmap ProviderRef visit_state; cs_stack : list ProviderRef }.

Definition set_cs (r : ProviderRef) (x : visit_state) (s : cycle_state) : cycle_state :=
  {| cs_states := <[r := x]> (cs_states s); cs_stack := cs_stack s |}.
Definition push_cs (r : ProviderRef) (s : cycle_state) : cycle_state :=
  {| cs_states := cs_states s; cs_stack := cs_stack s ++ [r] |}.
Definition pop_cs (s : cycle_state) : cycle_state :=
  {| cs_states := cs_states s; cs_stack := removelast (cs_stack s) |}.

(** [stack[stack.index(ref):]] *)
Fixpoint from_index (r : ProviderRef) (l : list ProviderRef) : list ProviderRef :=
  match l with
  | [] => []
  | x :: l => if decide (x = r) then x :: l else from_index r l
  end.

Definition alias_ref (pm : provider_map_t) (r : ProviderRef) : bool :=
  default false ((λ p, is_alias (pp_declaration p)) <$> dict_get pm r).

Fixpoint cycle_visit (fuel : nat) (edges : edges_t) (pm : provider_map_t) (ref : ProviderRef)
    : M cycle_state di_error unit :=
  match fuel with
  | O => raise RecursionError
  | S fuel =>
      s ← get;
      match cs_states s !! ref with
      | Some DONE => mret tt
      | Some VISITING =>
          let cycle := from_index ref (cs_stack s) ++ [ref] in
          raise (if existsb (alias_ref pm) cycle then ProviderAliasCycle cycle
                 else ProviderCycle cycle)
      | None =>
          modify (set_cs ref VISITING);;
          modify (push_cs ref);;
          mfor (cycle_visit fuel edges pm) (edges_from edges ref);;
          modify pop_cs;;
          modify (set_cs ref DONE)
      end
  end.

Definition _validate_provider_cycles (fuel : nat) (edges : edges_t) (pm : provider_map_t)
    : result di_error unit :=
  (mfor (cycle_visit fuel edges pm) edges.*1 {| cs_states := ∅; cs_stack := [] |}).1.

Definition scope_of (pm : provider_map_t) (r : ProviderRef) : Scope :=
  default SINGLETON (pp_scope <$> dict_get pm r).

Fixpoint scope_visit (fuel : nat) (edges : edges_t) (pm : provider_map_t) (ref : ProviderRef)
    (path : list ProviderRef) : result di_error unit :=
  match fuel with
  | O => Err RecursionError
  | S fuel =>
      rfold (λ _ dependency,
               let next_path := path ++ [dependency] in
               _ ← raise_if (bool_decide (scope_of pm dependency = REQUEST))
                     (ProviderScopeViolation next_path);
               scope_visit fuel edges pm dependency next_path) tt (edges_from edges ref)
  end.

Definition _validate_scope_paths (fuel : nat) (edges : edges_t) (pm : provider_map_t)
    : result di_error unit :=
  rfold (λ _ item, if bool_decide (pp_scope item.2 = SINGLETON)
                   then scope_visit fuel edges pm item.1 [item.1] else Ok tt) tt pm.

(** [result] and [visited] of the ordering. *)
Record order_state := { os_visited : gset ProviderRef; os_result : list ProviderRef }.

Fixpoint order_visit (fuel : nat) (edges : edges_t) (ref : ProviderRef)
    : M order_state di_error unit :=
  match fuel with
  | O => raise RecursionError
  | S fuel =>
      s ← get;
      if bool_decide (ref ∈ os_visited s) then mret tt
      else
        modify (λ s, {| os_visited := {[ ref ]} ∪ os_visited s; os_result := os_result s |});;
        mfor (order_visit fuel edges) (edges_from edges ref);;
        modify (λ s, {| os_visited := os_visited s; os_result := os_result s ++ [ref] |})
  end.

Definition providers_of (plans : module_plans_t) (m : ModuleId) : list ProviderPlan :=
  default [] (mp_providers <$> dict_get plans m).

Definition _provider_order (fuel : nat) (edges : edges_t) (module_order : list ModuleId)
    (plans : module_plans_t) : result di_error (list ProviderRef) :=
  let refs := mjoin ((λ m, pp_key <$> providers_of plans m) <$> module_order) in
  match mfor (order_visit fuel edges) refs {| os_visited := ∅; os_result := [] |} with
  | (Ok _, s) => Ok (os_result s)
  | (Err e, _) => Err e
  end.

Section finish.
Context `{Reflection}.

(** ** The providers of a module *)

Definition add_controller (declarations : list ProviderDeclaration) (controller : Z)
    : result di_error (list ProviderDeclaration) :=
  match list_find (λ p, provider_token p = TClass controller) declarations with
  | Some (_, existing) =>
      if bool_decide (declared_scope existing ≠ SINGLETON) then Err ControllerInvalidDeclaration
      else Err ProviderDuplicate
  | None => Ok (declarations ++ [ClassProvider (TClass controller) controller SINGLETON true false])
  end.

Definition declared_proxy (p : ProviderDeclaration) : bool :=
  match p with ClassProvider _ _ _ _ proxy => proxy | _ => false end.

Definition new_plan (ref : ProviderRef) (declaration : ProviderDeclaration)
    (dependencies : list DependencyPlan) : ProviderPlan :=
  {| pp_key := ref; pp_declaration := declaration; pp_dependencies := dependencies;
     pp_scope := declared_scope declaration; pp_canonical := ref;
     pp_recipe := _compile_recipe declaration dependencies; pp_proxy := declared_proxy declaration;
     pp_method_interceptors := [] |}.

Definition add_provider (module_id : ModuleId) (acc : list (Token * ProviderRef) * list ProviderPlan)
    (declaration : ProviderDeclaration)
    : result di_error (list (Token * ProviderRef) * list ProviderPlan) :=
  let token := provider_token declaration in
  _ ← _validate_provider_token token;
  _ ← raise_if (dict_has acc.1 token) ProviderDuplicate;
  let ref := {| ref_module_id := module_id; ref_token := token |} in
  dependencies ← _compile_dependencies declaration;
  Ok (dict_set acc.1 token ref, acc.2 ++ [new_plan ref declaration dependencies]).

(** After normalisation every provider of a specification is a declaration. *)
Definition declarations_of (spec : ModuleSpec) : list ProviderDeclaration :=
  omap (λ p, match p with Declared d => Some d | Shorthand _ => None end) (spec_providers spec).

Definition plan_module (ns : gmap ModuleId _ModuleNode) (acc : local_refs_t * module_plans_t)
    (module_id : ModuleId) : result di_error (local_refs_t * module_plans_t) :=
  node ← match ns !! module_id with Some n => Ok n | None => Err KeyError end;
  declaration_list ← rfold add_controller (declarations_of (node_spec node))
                       (spec_controllers (node_spec node));
  rp ← rfold (add_provider module_id) ([], []) declaration_list;
  let '(refs, plans) := rp in
  Ok (dict_set acc.1 module_id refs,
      dict_set acc.2 module_id
        {| mp_module_id := module_id; mp_module := node_module node; mp_spec := node_spec node;
           mp_imports := node_imports node; mp_providers := plans |}).

(** ** Fallback providers *)

Context (fallback_provider_collector :
  option (ModuleId → ModuleSpec → bool → result di_error (list ProviderDeclaration))).

Definition with_provider (plan : ProviderPlan) (m : ModulePlan) : ModulePlan :=
  {| mp_module_id := mp_module_id m; mp_module := mp_module m; mp_spec := mp_spec m;
     mp_imports := mp_imports m; mp_providers := mp_providers m ++ [plan] |}.

Definition add_fallback (order : list ModuleId) (module_id : ModuleId)
    (acc : local_refs_t * module_plans_t) (declaration : ProviderDeclaration)
    : result di_error (local_refs_t * module_plans_t) :=
  let token := provider_token declaration in
  _ ← _validate_provider_token token;
  visible ← _has_visible_provider module_id token acc.1 acc.2 order;
  if visible : bool then Ok acc
  else
    let ref := {| ref_module_id := module_id; ref_token := token |} in
    dependencies ← _compile_dependencies declaration;
    m ← dict_item acc.2 module_id;
    Ok (dict_set acc.1 module_id (dict_set (refs_of acc.1 module_id) token ref),
        dict_set acc.2 module_id (with_provider (new_plan ref declaration dependencies) m)).

Definition add_fallbacks (c : _Compiler) (root_id : ModuleId) (acc : local_refs_t * module_plans_t)
    : result di_error (local_refs_t * module_plans_t) :=
  match fallback_provider_collector with
  | None => Ok acc
  | Some collect =>
      rfold (λ acc module_id,
               node ← match nodes c !! module_id with Some n => Ok n | None => Err KeyError end;
               declarations ← collect module_id (node_spec node) (bool_decide (module_id = root_id));
               rfold (add_fallback (order c) module_id) acc declarations) acc (order c)
  end.

(** ** Compiling the plans *)

Definition canonical_all (pm : provider_map_t) (v : visibility_t) : result di_error cache_t :=
  rfold (λ cache ref,
           cc ← _canonical_provider (S (S (length pm))) ref pm v cache [];
           let '(canonical, cache) := cc in
           Ok (<[ref := canonical]> cache)) ∅ pm.*1.

Definition cached (cache : cache_t) (r : ProviderRef) : result di_error ProviderRef :=
  match cache !! r with Some c => Ok c | None => Err KeyError end.

Definition resolve_dependency (local_refs : local_refs_t) (plans : module_plans_t)
    (order : list ModuleId) (v : visibility_t) (cache : cache_t) (ref : ProviderRef)
    (d : DependencyPlan) : result di_error DependencyPlan :=
  r ← match dep_token d with
      | None => Ok None
      | Some token =>
          if intrinsic token then Ok None
          else visible ← _visible_ref (ref_module_id ref) token v local_refs plans order;
               c ← cached cache visible; Ok (Some c)
      end;
  Ok {| dep_parameter_name := dep_parameter_name d; dep_token := dep_token d;
        dep_annotation := dep_annotation d; dep_has_default := dep_has_default d;
        dep_provider_ref := r |}.

Definition compile_plan (local_refs : local_refs_t) (plans : module_plans_t)
    (order : list ModuleId) (v : visibility_t) (cache : cache_t) (pm : provider_map_t)
    (item : ProviderRef * ProviderPlan) : result di_error provider_map_t :=
  let '(ref, plan) := item in
  deps ← rmap (resolve_dependency local_refs plans order v cache ref) (pp_dependencies plan);
  canonical ← cached cache ref;
  canonical_plan ← dict_item pm canonical;
  Ok (dict_set pm ref
        {| pp_key := pp_key plan; pp_declaration := pp_declaration plan; pp_dependencies := deps;
           pp_scope := pp_scope canonical_plan; pp_canonical := canonical;
           pp_recipe := _compile_recipe (pp_declaration plan) deps; pp_proxy := pp_proxy plan;
           pp_method_interceptors := pp_method_interceptors plan |}).

Definition qualify (ref : ProviderRef) (v : visibility_t) (cache : cache_t)
    (b : InterceptorBinding) : result di_error InterceptorRef :=
  match b with
  | BindToken t =>
      match v !! (ref_module_id ref, t) with
      | None => Err ProviderUnresolved
      | Some visible => c ← cached cache visible; Ok (InterceptorProvider c)
      end
  | BindObject i => Ok (InterceptorObject i)
  end.

(** [name.startswith("_")] *)
Definition is_private (name : pystr) : bool := bool_decide (head name = Some 95).

Definition method_interceptors (ref : ProviderRef) (proxy : bool) (v : visibility_t) (cache : cache_t)
    (m : MethodInfo) : result di_error (pystr * list InterceptorRef) :=
  _ ← raise_if (negb proxy) ProviderInvalidDeclaration;
  _ ← raise_if (is_private (method_name m) || negb (method_is_coroutine m)) ProviderInvalidDeclaration;
  qualified ← rmap (qualify ref v cache) (method_bindings m);
  Ok (method_name m, qualified).

Definition _compile_method_interceptors (ref : ProviderRef) (declaration : ProviderDeclaration)
    (v : visibility_t) (cache : cache_t) : result di_error (list (pystr * list InterceptorRef)) :=
  match declaration with
  | ClassProvider _ use_class _ _ proxy =>
      rmap (method_interceptors ref proxy v cache)
        (filter (λ m, method_bindings m ≠ []) (class_methods use_class))
  | _ => Ok []
  end.

Definition intercept_plan (v : visibility_t) (cache : cache_t) (pm : provider_map_t)
    (item : ProviderRef * ProviderPlan) : result di_error provider_map_t :=
  let '(ref, plan) := item in
  if bool_decide (pp_canonical plan ≠ ref) then Ok pm
  else
    interceptors ← _compile_method_interceptors ref (pp_declaration plan) v cache;
    Ok (dict_set pm ref
          {| pp_key := pp_key plan; pp_declaration := pp_declaration plan;
             pp_dependencies := pp_dependencies plan; pp_scope := pp_scope plan;
             pp_canonical := pp_canonical plan; pp_recipe := pp_recipe plan;
             pp_proxy := pp_proxy plan; pp_method_interceptors := interceptors |}).

Definition alias_plan (pm : provider_map_t) (item : ProviderRef * ProviderPlan)
    : result di_error provider_map_t :=
  let '(ref, plan) := item in
  if bool_decide (pp_canonical plan = ref) then Ok pm
  else
    c ← dict_item pm (pp_canonical plan);
    Ok (dict_set pm ref
          {| pp_key := pp_key plan; pp_declaration := pp_declaration plan;
             pp_dependencies := pp_dependencies plan; pp_scope := pp_scope plan;
             pp_canonical := pp_canonical plan; pp_recipe := pp_recipe c; pp_proxy := pp_proxy c;
             pp_method_interceptors := pp_method_interceptors c |}).

Definition compile_plans (local_refs : local_refs_t) (plans : module_plans_t) (order : list ModuleId)
    (v : visibility_t) (cache : cache_t) (pm : provider_map_t) : result di_error provider_map_t :=
  pm ← rfold (compile_plan local_refs plans order v cache) pm pm;
  pm ← rfold (intercept_plan v cache) pm pm;
  rfold alias_plan pm pm.

Definition collect_providers (plans : module_plans_t) : provider_map_t :=
  foldl (λ pm m, foldl (λ pm p, dict_set pm (pp_key p) p) pm (mp_providers m.2)) [] plans.

Definition final_module (plans : module_plans_t) (pm : provider_map_t) (m : ModuleId)
    : result di_error ModulePlan :=
  plan ← dict_item plans m;
  ps ← rmap (λ p, dict_item pm (pp_key p)) (mp_providers plan);
  Ok {| mp_module_id := mp_module_id plan; mp_module := mp_module plan; mp_spec := mp_spec plan;
        mp_imports := mp_imports plan; mp_providers := ps |}.

(** The plans cannot be entered more deeply than there are providers. *)
Definition _finish (c : _Compiler) (root_id : ModuleId) : result di_error CompiledGraph :=
  lp ← rfold (plan_module (nodes c)) ([], []) (order c);
  lp ← add_fallbacks c root_id lp;
  let '(local_refs, plans) := lp in
  v ← _compile_visibility local_refs plans (order c);
  let collected := collect_providers plans in
  cache ← canonical_all collected v;
  pm ← compile_plans local_refs plans (order c) v cache collected;
  edges ← _provider_edges pm v;
  let fuel := S (length pm) in
  _ ← _validate_provider_cycles fuel edges pm;
  _ ← _validate_scope_paths fuel edges pm;
  provider_order ← _provider_order fuel edges (order c) plans;
  final_modules ← rmap (final_module plans pm) (order c);
  Ok {| shape := {| shape_root := root_id; shape_modules := final_modules |};
        providers := pm; visibility := v; provider_order := provider_order |}.

Context (import_resolver : option (ModuleImport → result di_error ModuleImport)).
Context (spec_transformer : option (ModuleId → ModuleSpec → result di_error ModuleSpec)).

Definition compile (fuel : nat) (root : ModuleImport) : M _Compiler di_error CompiledGraph :=
  root_id ← _ensure_import import_resolver spec_transformer root;
  _visit import_resolver spec_transformer fuel root_id [];;
  c ← get;
  lift (_finish c root_id).

Definition compile_graph (fuel : nat) (root : ModuleImport) : result di_error CompiledGraph :=
  (compile fuel root _Compiler_new).1.

End finish.
