(* ===== verification/DiGraphFacts.v ===== *)
(** * Dependency injection: the checks on the provider graph

    What the cycle check, the scope check and the ordering of [DiFinish] tell
    about a dependency graph, and that the fuel [_finish] gives them is
    enough. *)

From Stdlib Require Import ZArith Lia.
From stdpp Require Import base tactics list gmap strings.
From S2P Require Import Prelude DiDeclarations DiCompiler DiFinish.
Local Open Scope Z_scope.

(** ** Dictionaries and filters *)

Lemma dict_get_is_Some {K A} `{EqDecision K} (d : list (K * A)) k : is_Some (dict_get d k) ↔ k ∈ d.*1.
Proof.
  rewrite <- not_eq_None_Some, dict_get_None. split; [apply dec_stable|]. tauto.
Qed.

Lemma elem_dict_get {K A} `{EqDecision K} (d : list (K * A)) k v :
  NoDup d.*1 → (k, v) ∈ d → dict_get d k = Some v.
Proof.
  induction d as [|[j w] d IH]; [set_solver|]. rewrite fmap_cons. simpl.
  intros [Hj Hnd]%NoDup_cons Hin. rewrite dict_get_cons.
  apply elem_of_cons in Hin as [[= -> ->]|Hin]; [by rewrite decide_True|].
  rewrite decide_False; [auto|]. intros ->. apply Hj. by apply (list_elem_of_fmap_2 fst _ (k, v)).
Qed.

Lemma filter_length_lt {A} (P Q : A → Prop) `{∀ x, Decision (P x), ∀ x, Decision (Q x)} l x :
  x ∈ l → ¬ P x → Q x → (∀ y, P y → Q y) → (length (filter P l) < length (filter Q l))%nat.
Proof.
  intros Hx HnP HQ Himp.
  assert (∀ l, length (filter P l) <= length (filter Q l))%nat as Hle.
  { intros k. induction k as [|a k IH]; [done|]. rewrite !filter_cons.
    destruct (decide (P a)); [rewrite decide_True by auto; simpl; lia|].
    destruct (decide (Q a)); simpl; lia. }
  induction l as [|a l IH]; [by apply elem_of_nil in Hx|]. rewrite !filter_cons.
  apply elem_of_cons in Hx as [<-|Hx].
  - rewrite decide_False, decide_True by done. simpl. specialize (Hle l). lia.
  - specialize (IH Hx). destruct (decide (P a)); [rewrite decide_True by auto; simpl; lia|].
    destruct (decide (Q a)); simpl; lia.
Qed.

(** ** Dependency-first orders *)

Section topo.
Context {A : Type} `{EqDecision A} (E : A → list A).

(** What an element depends on comes before it. *)
Definition topo (l : list A) : Prop :=
  ∀ pre x post, l = pre ++ x :: post → ∀ d, d ∈ E x → d ∈ pre.

Lemma topo_nil : topo [].
Proof. intros pre x post Heq. by destruct pre. Qed.

Lemma topo_snoc l x : topo l → (∀ d, d ∈ E x → d ∈ l) → topo (l ++ [x]).
Proof.
  intros Hl Hx pre y post Heq d Hd. destruct (decide (post = [])) as [->|Hne].
  - apply app_inj_tail in Heq as [-> ->]. auto.
  - destruct (exists_last Hne) as (post' & z & ->).
    rewrite app_comm_cons, app_assoc in Heq. apply app_inj_tail in Heq as [-> _].
    by eapply Hl.
Qed.

Lemma topo_snoc_inv l x : topo (l ++ [x]) → topo l ∧ ∀ d, d ∈ E x → d ∈ l.
Proof.
  intros Ht. split.
  - intros pre y post Heq d Hd. apply (Ht pre y (post ++ [x])); [|done]. by rewrite Heq, <- app_assoc.
  - by apply (Ht l x []).
Qed.

Lemma topo_filter (P : A → Prop) `{∀ x, Decision (P x)} l :
  (∀ x d, P x → d ∈ E x → P d) → topo l → topo (filter P l).
Proof.
  intros HP. induction l as [|x l IH] using rev_ind; [done|]. intros [Ht Hx]%topo_snoc_inv.
  rewrite filter_app. change (filter P [x]) with (if decide (P x) then [x] else []).
  destruct (decide (P x)) as [Hp|]; [|rewrite app_nil_r; auto].
  apply topo_snoc; [auto|]. intros d Hd. apply list_elem_of_filter. eauto.
Qed.

(** The place in a dependency-first order. *)
Definition rank (l : list A) (x : A) : nat :=
  default (length l) (fst <$> list_find (x =.) l).

Lemma rank_split l pre x post : NoDup l → l = pre ++ x :: post → rank l x = length pre.
Proof.
  intros Hnd ->. unfold rank.
  assert (list_find (x =.) (pre ++ x :: post) = Some (length pre, x)) as ->; [|done].
  apply list_find_Some. split_and!; [apply list_lookup_middle; done|done|].
  intros j y Hj Hlt ->. rewrite lookup_app_l in Hj by done.
  apply NoDup_app in Hnd as (_ & Hnd & _). apply (Hnd y); [by eapply list_elem_of_lookup_2|left].
Qed.

Lemma rank_lt l x : x ∈ l → (rank l x < length l)%nat.
Proof.
  intros Hx. unfold rank. destruct (list_find (x =.) l) as [[i y]|] eqn:Hf; simpl.
  - apply list_find_Some in Hf as (Hi & _ & _). by apply lookup_lt_Some in Hi.
  - apply list_find_None in Hf. rewrite Forall_forall in Hf. by destruct (Hf x Hx).
Qed.

Lemma topo_rank l x d : NoDup l → topo l → x ∈ l → d ∈ E x → (rank l d < rank l x)%nat ∧ d ∈ l.
Proof.
  intros Hnd Ht Hx Hd. apply list_elem_of_split in Hx as (pre & post & Heq).
  pose proof (Ht _ _ _ Heq d Hd) as Hpre.
  rewrite (rank_split l pre x post Hnd Heq).
  apply list_elem_of_split in Hpre as (p1 & p2 & ->).
  rewrite (rank_split l p1 d (p2 ++ x :: post) Hnd) by (by rewrite Heq, <- app_assoc).
  split; [rewrite length_app; simpl; lia|]. subst l. set_solver.
Qed.
End topo.

(** ** The cycle check *)

Section edges.
Context (edges : edges_t) (pm : provider_map_t).
Let E := edges_from edges.

(** The finished providers in the order they were finished. *)
Definition cycle_inv (s : cycle_state) (l : list ProviderRef) : Prop :=
  NoDup l ∧ topo E l ∧ ∀ x, cs_states s !! x = Some DONE ↔ x ∈ l.

Definition cycle_step (s s' : cycle_state) (l l' : list ProviderRef) : Prop :=
  cycle_inv s' l' ∧ l `prefix_of` l' ∧
  (∀ x, cs_states s' !! x = Some VISITING ↔ cs_states s !! x = Some VISITING) ∧
  cs_stack s' = cs_stack s.

Lemma cycle_step_trans s1 s2 s3 l1 l2 l3 :
  cycle_step s1 s2 l1 l2 → cycle_step s2 s3 l2 l3 → cycle_step s1 s3 l1 l3.
Proof.
  intros (_ & H1 & H2 & H3) (H4 & H5 & H6 & H7).
  split_and!; [done|by etrans| |congruence]. intros x. by rewrite H6, H2.
Qed.

Lemma cycle_loop (f : ProviderRef → M cycle_state di_error unit) :
  (∀ r s s' l, cycle_inv s l → f r s = (Ok tt, s') → ∃ l', cycle_step s s' l l' ∧ r ∈ l') →
  ∀ ds s s' l, cycle_inv s l → mfor f ds s = (Ok tt, s') →
    ∃ l', cycle_step s s' l l' ∧ ∀ d, d ∈ ds → d ∈ l'.
Proof.
  intros Hf ds. induction ds as [|d ds IH]; intros s s' l Hinv Hrun; simpl in Hrun.
  - injection Hrun as <-. exists l. split; [by split_and!|]. intros d Hd. by apply elem_of_nil in Hd.
  - apply M_bind_ok in Hrun as ([] & s1 & Hd & Hrun).
    destruct (Hf _ _ _ _ Hinv Hd) as (l1 & Hstep1 & Hin).
    destruct (IH _ _ _ (proj1 Hstep1) Hrun) as (l2 & Hstep2 & Hall).
    exists l2. split; [by eapply cycle_step_trans|]. intros x [->|Hx]%elem_of_cons; [|auto].
    destruct Hstep2 as (_ & Hp & _). by eapply elem_of_prefix.
Qed.

Lemma cycle_visit_ok fuel : ∀ r s s' l,
  cycle_inv s l → cycle_visit fuel edges pm r s = (Ok tt, s') → ∃ l', cycle_step s s' l l' ∧ r ∈ l'.
Proof.
  induction fuel as [|fuel IH]; intros r s s' l Hinv Hrun; [done|].
  cbn [cycle_visit] in Hrun. autorewrite with mrun in Hrun.
  destruct (cs_states s !! r) as [[]|] eqn:Hr; [done| |].
  - injection Hrun as <-. exists l. split; [by split_and!|]. by apply Hinv.
  - autorewrite with mrun in Hrun.
    apply M_bind_ok in Hrun as ([] & s1 & Hloop & Hrun). autorewrite with mrun in Hrun.
    injection Hrun as <-.
    assert (cycle_inv (push_cs r (set_cs r VISITING s)) l) as Hinv1.
    { destruct Hinv as (H1 & H2 & H3). split_and!; [done|done|]. intros x. simpl.
      rewrite <- H3. destruct (decide (x = r)) as [->|]; [|by rewrite lookup_insert_ne].
      rewrite lookup_insert_eq, Hr. done. }
    destruct (cycle_loop _ IH _ _ _ _ Hinv1 Hloop) as (l1 & (Hinv2 & Hpre & Hvis & Hst) & Hall).
    destruct Hinv2 as (Hnd & Htopo & Hdone). exists (l1 ++ [r]).
    assert (r ∉ l1) as Hnr.
    { rewrite <- Hdone. assert (cs_states s1 !! r = Some VISITING) as ->; [|done].
      apply Hvis. simpl. apply lookup_insert_eq. }
    split; [|set_solver]. split_and!.
    + split_and!; [|by apply topo_snoc|].
      * apply NoDup_app. split_and!; [done| |apply NoDup_singleton]. set_solver.
      * intros x. simpl. destruct (decide (x = r)) as [->|Hne].
        -- rewrite lookup_insert_eq. set_solver.
        -- rewrite lookup_insert_ne, Hdone by done. set_solver.
    + by apply prefix_app_r.
    + intros x. simpl. destruct (decide (x = r)) as [->|Hne].
      * rewrite lookup_insert_eq, Hr. done.
      * rewrite lookup_insert_ne by done. rewrite Hvis. simpl. by rewrite lookup_insert_ne.
    + simpl. rewrite Hst. simpl. by rewrite removelast_last.
Qed.

(** A graph the check accepts has a dependency-first order of all its
    providers. *)
Lemma cycles_ok fuel :
  _validate_provider_cycles fuel edges pm = Ok tt →
  ∃ l, NoDup l ∧ topo E l ∧ ∀ r, r ∈ edges.*1 → r ∈ l.
Proof.
  unfold _validate_provider_cycles. intros Hok.
  destruct (mfor (cycle_visit fuel edges pm) edges.*1 _) as [r s'] eqn:Hrun. simpl in Hok. subst r.
  assert (cycle_inv {| cs_states := ∅; cs_stack := [] |} []) as Hinv.
  { split_and!; [constructor|apply topo_nil|]. intros x. simpl. rewrite lookup_empty. set_solver. }
  destruct (cycle_loop _ (cycle_visit_ok fuel) _ _ _ [] Hinv Hrun) as (l & ((Hnd & Ht & _) & _) & Hall).
  by exists l.
Qed.

(** *** The fuel is enough *)

(** The providers that are not being visited. *)
Definition idle (s : cycle_state) : list ProviderRef :=
  filter (λ r, cs_states s !! r ≠ Some VISITING) edges.*1.

Definition visiting_same (s s' : cycle_state) : Prop :=
  ∀ x, cs_states s' !! x = Some VISITING ↔ cs_states s !! x = Some VISITING.

Lemma idle_same s s' : visiting_same s s' → idle s' = idle s.
Proof. intros Hs. apply list_filter_iff. intros x. specialize (Hs x). tauto. Qed.

Lemma cycle_visit_visiting fuel : ∀ r s s',
  cycle_visit fuel edges pm r s = (Ok tt, s') → visiting_same s s'.
Proof.
  induction fuel as [|fuel IH]; intros r s s' Hrun; [done|].
  cbn [cycle_visit] in Hrun. autorewrite with mrun in Hrun.
  destruct (cs_states s !! r) as [[]|] eqn:Hr; [done|by injection Hrun as <-|].
  autorewrite with mrun in Hrun. apply M_bind_ok in Hrun as ([] & s1 & Hloop & Hrun).
  autorewrite with mrun in Hrun. injection Hrun as <-.
  assert (∀ ds s s', mfor (cycle_visit fuel edges pm) ds s = (Ok tt, s') → visiting_same s s') as Hmfor.
  { intros ds. induction ds as [|d ds IHds]; intros t t' Hrun; simpl in Hrun; [by injection Hrun as <-|].
    apply M_bind_ok in Hrun as ([] & t1 & Hd & Hrun). intros x.
    destruct (IHds _ _ Hrun x), (IH _ _ _ Hd x). tauto. }
  intros x. simpl. destruct (decide (x = r)) as [->|Hne]; [by rewrite lookup_insert_eq, Hr|].
  rewrite lookup_insert_ne by done. specialize (Hmfor _ _ _ Hloop x). simpl in Hmfor.
  by rewrite lookup_insert_ne in Hmfor.
Qed.

Lemma cycle_visit_fuel fuel : ∀ r s,
  (length (idle s) < fuel)%nat → (cycle_visit fuel edges pm r s).1 ≠ Err RecursionError.
Proof.
  induction fuel as [|fuel IH]; intros r s Hfuel; [lia|]. cbn [cycle_visit]. autorewrite with mrun.
  destruct (cs_states s !! r) as [[]|] eqn:Hr; [by destruct (existsb _ _)|done|].
  autorewrite with mrun. set (s1 := push_cs r (set_cs r VISITING s)).
  destruct (decide (r ∈ edges.*1)) as [Hin|Hnin]; last first.
  { assert (edges_from edges r = []) as ->; [|done]. unfold edges_from.
    assert (dict_get edges r = None) as ->; [by apply dict_get_None|done]. }
  assert (length (idle s1) < length (idle s))%nat as Hlt.
  { apply filter_length_lt with r.
    - done.
    - simpl. rewrite lookup_insert_eq. by intros [].
    - by rewrite Hr.
    - intros x. simpl. destruct (decide (x = r)) as [->|]; [by rewrite lookup_insert_eq|].
      by rewrite lookup_insert_ne. }
  assert (∀ ds t, length (idle t) = length (idle s1) →
    (mfor (cycle_visit fuel edges pm) ds t).1 ≠ Err RecursionError) as Hloop.
  { intros ds. induction ds as [|d ds IHds]; intros t Ht; simpl; [done|].
    pose proof (IH d t ltac:(lia)) as Hd.
    destruct (cycle_visit fuel edges pm d t) as [[[]|e] t1] eqn:Hrun.
    - rewrite (M_bind_run _ _ _ _ _ Hrun). apply IHds.
      by rewrite (idle_same _ _ (cycle_visit_visiting _ _ _ _ Hrun)).
    - by rewrite (M_bind_eq _ _ _ _ _ Hrun). }
  specialize (Hloop (edges_from edges r) s1 eq_refl).
  destruct (mfor _ _ s1) as [[[]|e] t] eqn:Hrun.
  - by rewrite (M_bind_run _ _ _ _ _ Hrun).
  - by rewrite (M_bind_eq _ _ _ _ _ Hrun).
Qed.

Lemma cycles_fuel fuel :
  (length edges < fuel)%nat → _validate_provider_cycles fuel edges pm ≠ Err RecursionError.
Proof.
  intros Hfuel. unfold _validate_provider_cycles.
  assert (∀ ds s, (mfor (cycle_visit fuel edges pm) ds s).1 ≠ Err RecursionError) as Hloop; [|apply Hloop].
  intros ds. induction ds as [|d ds IH]; intros s; simpl; [done|].
  assert (length (idle s) < fuel)%nat as Hidle.
  { unfold idle. pose proof (length_filter (λ r, cs_states s !! r ≠ Some VISITING) edges.*1) as Hle.
    rewrite length_fmap in Hle. lia. }
  pose proof (cycle_visit_fuel fuel d s Hidle) as Hd.
  destruct (cycle_visit fuel edges pm d s) as [[[]|e] t1] eqn:Hrun.
  - rewrite (M_bind_run _ _ _ _ _ Hrun). apply IH.
  - by rewrite (M_bind_eq _ _ _ _ _ Hrun).
Qed.

(** ** The scope check *)

Lemma rfold_unit_ok {A} (f : A → result di_error unit) l :
  rfold (λ _ x, f x) tt l = Ok tt ↔ ∀ x, x ∈ l → f x = Ok tt.
Proof.
  induction l as [|a l IH]; simpl; [split; [intros _ x Hx; by apply elem_of_nil in Hx|done]|].
  rewrite result_bind_ok. split.
  - intros ([] & Ha & Hl) x [->|Hx]%elem_of_cons; [done|]. by apply IH.
  - intros Hall. exists tt. split; [apply Hall; left|]. apply IH. intros x Hx. apply Hall. by right.
Qed.

Definition depends (r d : ProviderRef) : Prop := d ∈ E r.

Lemma scope_visit_ok fuel r path :
  scope_visit fuel edges pm r path = Ok tt → ∀ d, tc depends r d → scope_of pm d ≠ REQUEST.
Proof.
  intros Hok d Hd. revert fuel path Hok. induction Hd as [r d Hd|r d d' Hd _ IH]; intros fuel path Hok;
    (destruct fuel as [|fuel]; [done|]); cbn [scope_visit] in Hok;
    apply (proj1 (rfold_unit_ok _ _)) with (x := d) in Hok; try done;
    apply result_bind_ok in Hok as ([] & Hs%raise_if_ok & Hok); bool_hyps; [done|].
  by eapply IH.
Qed.

Lemma scope_paths_ok fuel r plan :
  _validate_scope_paths fuel edges pm = Ok tt → (r, plan) ∈ pm → pp_scope plan = SINGLETON →
  ∀ d, tc depends r d → scope_of pm d ≠ REQUEST.
Proof.
  unfold _validate_scope_paths. intros Hok Hr Hs.
  apply (proj1 (rfold_unit_ok _ _)) with (x := (r, plan)) in Hok; [|done]. simpl in Hok.
  rewrite bool_decide_eq_true_2 in Hok by done. by eapply scope_visit_ok.
Qed.

Lemma scope_visit_fuel l fuel r path :
  NoDup l → topo E l → r ∈ l → (rank l r < fuel)%nat →
  scope_visit fuel edges pm r path ≠ Err RecursionError.
Proof.
  intros Hnd Ht. revert r path. induction fuel as [|fuel IH]; intros r path Hr Hlt; [lia|].
  cbn [scope_visit].
  assert (∀ ds, (∀ d, d ∈ ds → d ∈ E r) → rfold (λ _ dependency,
    _ ← raise_if (bool_decide (scope_of pm dependency = REQUEST))
      (ProviderScopeViolation (path ++ [dependency]));
    scope_visit fuel edges pm dependency (path ++ [dependency])) tt ds ≠ Err RecursionError) as Hloop;
    [|apply Hloop; done].
  intros ds. induction ds as [|d ds IHds]; intros Hds; [done|]. simpl.
  destruct (bool_decide _); r_simpl; [done|].
  destruct (topo_rank E l r d Hnd Ht Hr (Hds d ltac:(left))) as [Hrank Hin].
  pose proof (IH d (path ++ [d]) Hin ltac:(lia)) as Hd.
  destruct (scope_visit fuel edges pm d _) as [[]|e]; r_simpl; [|congruence].
  apply IHds. intros x Hx. apply Hds. by right.
Qed.

(** ** The construction order *)

Definition order_inv (l : list ProviderRef) (s : order_state) : Prop :=
  NoDup (os_result s) ∧ topo E (os_result s) ∧ (∀ x, x ∈ os_result s → x ∈ os_visited s) ∧
  ∀ x, x ∈ os_result s → x ∈ l.

Definition order_step (l : list ProviderRef) (s s' : order_state) : Prop :=
  order_inv l s' ∧ os_result s `prefix_of` os_result s' ∧
  (∀ x, x ∈ os_visited s' ↔ x ∈ os_visited s ∨ x ∈ os_result s') ∧
  ∀ x, x ∈ os_result s' → x ∈ os_result s ∨ x ∉ os_visited s.

Lemma order_step_refl l s : order_inv l s → order_step l s s.
Proof.
  intros Hinv. split_and!; [done|done| |auto]. intros x. destruct Hinv as (_ & _ & Hv & _).
  split; [auto|]. intros [?|?]; auto.
Qed.

Lemma order_step_trans l s1 s2 s3 : order_step l s1 s2 → order_step l s2 s3 → order_step l s1 s3.
Proof.
  intros (_ & H1 & H2 & H6) (H3 & H4 & H5 & H7). split_and!; [done|by etrans| |].
  - intros x. rewrite H5, H2.
    split; [intros [[?|Hx]|?]; auto; right; by eapply elem_of_prefix|tauto].
  - intros x [Hx|Hx]%H7; [auto|]. right. rewrite H2 in Hx. tauto.
Qed.

Lemma order_loop fuel l k ds :
  (∀ r s, r ∈ l → (rank l r < fuel)%nat → order_inv l s →
     (∀ x, x ∈ os_visited s → x ∉ os_result s → (rank l r < rank l x)%nat) →
     ∃ s', order_visit fuel edges r s = (Ok tt, s') ∧ order_step l s s' ∧ r ∈ os_result s') →
  (k <= fuel)%nat → (∀ d, d ∈ ds → d ∈ l ∧ (rank l d < k)%nat) →
  ∀ s, order_inv l s → (∀ x, x ∈ os_visited s → x ∉ os_result s → (k <= rank l x)%nat) →
  ∃ s', mfor (order_visit fuel edges) ds s = (Ok tt, s') ∧ order_step l s s' ∧
    ∀ d, d ∈ ds → d ∈ os_result s'.
Proof.
  intros Hvisit Hk. induction ds as [|d ds IH]; intros Hds s Hinv Hpend; simpl.
  - exists s. split; [done|]. split; [by apply order_step_refl|]. intros x Hx. by apply elem_of_nil in Hx.
  - destruct (Hds d ltac:(left)) as [Hd Hrank].
    destruct (Hvisit d s Hd ltac:(lia) Hinv) as (s1 & Hrun & Hstep & Hin).
    { intros x Hx Hn. specialize (Hpend x Hx Hn). lia. }
    rewrite (M_bind_run _ _ _ _ _ Hrun).
    destruct (IH ltac:(intros x Hx; apply Hds; by right) s1 (proj1 Hstep)) as (s2 & Hrun2 & Hstep2 & Hall).
    { intros x Hx Hn. destruct Hstep as (_ & Hpre & Hv & _). apply Hv in Hx as [Hx|Hx]; [|done].
      apply Hpend; [done|]. intros Hr. apply Hn. by eapply elem_of_prefix. }
    exists s2. split; [done|]. split; [by eapply order_step_trans|].
    intros x [->|Hx]%elem_of_cons; [|auto]. destruct Hstep2 as (_ & Hpre & _). by eapply elem_of_prefix.
Qed.

Lemma order_visit_ok l fuel : NoDup l → topo E l → ∀ r s,
  r ∈ l → (rank l r < fuel)%nat → order_inv l s →
  (∀ x, x ∈ os_visited s → x ∉ os_result s → (rank l r < rank l x)%nat) →
  ∃ s', order_visit fuel edges r s = (Ok tt, s') ∧ order_step l s s' ∧ r ∈ os_result s'.
Proof.
  intros Hnd Ht. induction fuel as [|fuel IH]; intros r s Hr Hlt Hinv Hpend; [lia|].
  cbn [order_visit]. autorewrite with mrun. case_bool_decide as Hvis.
  - exists s. split; [done|].
    assert (r ∈ os_result s) as Hres.
    { destruct (decide (r ∈ os_result s)) as [|Hn]; [done|]. specialize (Hpend r Hvis Hn). lia. }
    split; [by apply order_step_refl|done].
  - autorewrite with mrun.
    set (s1 := {| os_visited := {[ r ]} ∪ os_visited s; os_result := os_result s |}).
    assert (r ∉ os_result s) as Hnr by (intros Hc; by apply Hvis, Hinv).
    assert (order_inv l s1) as Hinv1.
    { destruct Hinv as (H1 & H2 & H3 & H4). split_and!; [done|done| |done]. simpl. set_solver. }
    destruct (order_loop fuel l (rank l r) (edges_from edges r) IH ltac:(lia)) with (s := s1)
      as (s2 & Hrun & ((Hnd2 & Ht2 & Hv2 & Hl2) & Hpre & Hvis2 & Hnew) & Hall).
    + intros d Hd. destruct (topo_rank E l r d Hnd Ht Hr Hd). done.
    + done.
    + intros x Hx Hn. simpl in Hx. apply elem_of_union in Hx as [Hx|Hx]; [apply elem_of_singleton in Hx as ->; lia|].
      specialize (Hpend x Hx Hn). lia.
    + rewrite (M_bind_run _ _ _ _ _ Hrun). autorewrite with mrun. eexists. split; [done|].
      assert (r ∉ os_result s2) as Hnr2.
      { intros [Hc|Hc]%Hnew; [done|]. apply Hc. simpl. set_solver. }
      simpl in *. split; [|set_solver]. split_and!; simpl.
      * split_and!; simpl; [|by apply topo_snoc| |set_solver].
        -- apply NoDup_app. split_and!; [done| |apply NoDup_singleton]. set_solver.
        -- intros x. rewrite Hvis2. set_solver.
      * by apply prefix_app_r.
      * intros x. rewrite Hvis2. set_solver.
      * intros x [Hx|Hx]%elem_of_app; [|apply list_elem_of_singleton in Hx as ->; auto].
        destruct (Hnew x Hx) as [?|Hnv]; [auto|right; set_solver].
Qed.

(** On a graph with a dependency-first order, the construction order exists, is
    one, and has exactly the providers it is asked for and what they need. *)
Lemma provider_order_ok l fuel order plans :
  NoDup l → topo E l → (length l <= fuel)%nat →
  (∀ r, r ∈ mjoin ((λ m, pp_key <$> providers_of plans m) <$> order) → r ∈ l) →
  ∃ result, _provider_order fuel edges order plans = Ok result ∧ NoDup result ∧ topo E result ∧
    (∀ r, r ∈ mjoin ((λ m, pp_key <$> providers_of plans m) <$> order) → r ∈ result) ∧
    ∀ r, r ∈ result → r ∈ l.
Proof.
  intros Hnd Ht Hfuel Hrefs. unfold _provider_order.
  set (refs := mjoin _) in *.
  destruct (order_loop fuel l (length l) refs) with
    (s := {| os_visited := (∅ : gset ProviderRef); os_result := [] |}) as (s & Hrun & Hstep & Hall).
  - intros r s. by apply order_visit_ok.
  - done.
  - intros d Hd. split; [auto|]. apply rank_lt. auto.
  - split_and!; simpl; [constructor|apply topo_nil|..]; intros x Hx; by apply elem_of_nil in Hx.
  - simpl. set_solver.
  - rewrite Hrun. exists (os_result s). destruct Hstep as ((H1 & H2 & _ & H3) & _). done.
Qed.

End edges.
