(* ===== verification/DiFinishFacts.v ===== *)
(** * Dependency injection: what compiling the providers gives

    The visibility relation and what [_resolve_visible] finds of it, canonical
    providers, and the plans a successful [_finish] ends with. *)

From Stdlib Require Import ZArith Lia.
From stdpp Require Import base tactics list gmap strings.
From S2P Require Import Prelude DiDeclarations DiCompiler DiFinish DiGraphFacts.
Local Open Scope Z_scope.

(** ** Folds that may fail *)

Lemma rfold_inv {E A B} (P : B → Prop) (f : B → A → result E B) l acc acc' :
  P acc → (∀ b x b', x ∈ l → P b → f b x = Ok b' → P b') → rfold f acc l = Ok acc' → P acc'.
Proof.
  revert acc. induction l as [|x l IH]; intros acc Hacc Hf Hrun; simpl in Hrun; [by simplify_eq|].
  apply result_bind_ok in Hrun as (b & Hb & Hrun). eapply IH; [| |exact Hrun].
  - eapply Hf; [left|done|done].
  - intros c y c' Hy. apply Hf. by right.
Qed.

Lemma elem_of_fromkeys {A} `{EqDecision A} (l : list A) x : x ∈ fromkeys l ↔ x ∈ l.
Proof.
  unfold fromkeys.
  assert (∀ acc, x ∈ foldl (λ acc x, if bool_decide (x ∈ acc) then acc else acc ++ [x]) acc l ↔
            x ∈ acc ∨ x ∈ l) as Hgen.
  { induction l as [|a l IH]; intros acc; simpl; [set_solver|]. rewrite IH.
    case_bool_decide; set_solver. }
  rewrite Hgen. set_solver.
Qed.

Lemma elem_of_mjoin_fmap {A B} (f : A → list B) (l : list A) y :
  y ∈ mjoin (f <$> l) ↔ ∃ x, x ∈ l ∧ y ∈ f x.
Proof.
  rewrite list_elem_of_join. split.
  - intros (k & Hy & (x & -> & Hx)%list_elem_of_fmap). eauto.
  - intros (x & Hx & Hy). exists (f x). split; [done|]. by apply list_elem_of_fmap_2.
Qed.

(** ** Visibility *)

(** A module exports a provider: it lists the token, and the provider is its
    own, or, if it has none of its own, an import exports it. *)
Inductive exported (plans : module_plans_t) : ModuleId → ProviderRef → Prop :=
| exported_local m r :
    ref_token r ∈ exports_of plans m → r ∈ local_providers plans m (ref_token r) → exported plans m r
| exported_import m m' r :
    ref_token r ∈ exports_of plans m → local_providers plans m (ref_token r) = [] →
    m' ∈ imports_of plans m → exported plans m' r → exported plans m r.

Lemma export_candidates_sound fuel m token plans path r :
  r ∈ export_candidates fuel m token plans path → ref_token r = token ∧ exported plans m r.
Proof.
  revert m path. induction fuel as [|fuel IH]; intros m path Hr; [by apply elem_of_nil in Hr|].
  cbn [export_candidates] in Hr. case_bool_decide; [by apply elem_of_nil in Hr|].
  case_bool_decide as Hexp; simpl in Hr; [|by apply elem_of_nil in Hr].
  destruct (local_providers plans m token) as [|x local] eqn:Hloc.
  - apply elem_of_fromkeys, elem_of_mjoin_fmap in Hr as (m' & Hm' & Hr).
    apply IH in Hr as [<- Hr]. split; [done|]. by eapply exported_import.
  - assert (ref_token r = token) as <-.
    { rewrite <- Hloc in Hr. unfold local_providers in Hr. by apply list_elem_of_filter in Hr as [? _]. }
    split; [done|]. apply exported_local; [done|]. by rewrite Hloc.
Qed.

(** What a module may use: its own providers, what its imports export, what
    global modules export. *)
Definition sees (local_refs : local_refs_t) (plans : module_plans_t) (order : list ModuleId)
    (m : ModuleId) (token : Token) (r : ProviderRef) : Prop :=
  dict_get (refs_of local_refs m) token = Some r ∨
  ref_token r = token ∧
    ((∃ i, i ∈ imports_of plans m ∧ exported plans i r) ∨
     (∃ g, g ∈ order ∧ is_global plans g = true ∧ exported plans g r)).

Lemma resolve_visible_sees m token local_refs plans order r :
  _resolve_visible m token local_refs plans order = Ok r → sees local_refs plans order m token r.
Proof.
  unfold _resolve_visible, sees. destruct (dict_get _ token) as [l|]; [intros [= ->]; by left|].
  destruct (_direct_export_candidates m token plans) as [|d [|? ?]] eqn:Hd; [|intros [= ->]|done].
  - destruct (mjoin _) as [|g [|? ?]] eqn:Hg; [done| |done]. intros [= ->]. right.
    assert (r ∈ [r]) as Hr by left. rewrite <- Hg in Hr.
    apply elem_of_mjoin_fmap in Hr as (g & (Hgl & Hgo)%list_elem_of_filter & Hr).
    apply export_candidates_sound in Hr as [<- Hr]. split; [done|]. right. exists g.
    split_and!; [done| |done]. by apply Is_true_true.
  - right. assert (r ∈ [r]) as Hr by left. rewrite <- Hd in Hr.
    apply elem_of_fromkeys, elem_of_mjoin_fmap in Hr as (i & Hi & Hr). rewrite elem_of_fromkeys in Hi.
    apply export_candidates_sound in Hr as [<- Hr]. split; [done|]. left. by exists i.
Qed.

Lemma compile_visibility_sees local_refs plans order v :
  _compile_visibility local_refs plans order = Ok v →
  ∀ m token r, v !! (m, token) = Some r → sees local_refs plans order m token r.
Proof.
  intros Hv. unfold _compile_visibility in Hv.
  eapply (rfold_inv (λ v : visibility_t, ∀ m token r, v !! (m, token) = Some r →
    sees local_refs plans order m token r)); [|clear Hv|exact Hv].
  - intros m t r. by rewrite lookup_empty.
  - intros v1 m v2 _ Hv1 Hv2. apply result_bind_ok in Hv2 as ([] & _ & Hv2).
    eapply (rfold_inv (λ v : visibility_t, ∀ m token r, v !! (m, token) = Some r →
      sees local_refs plans order m token r)); [exact Hv1| |exact Hv2].
    intros v3 t v4 _ Hv3 Hv4. unfold see_token in Hv4. apply result_bind_ok in Hv4 as (r & Hr & Hv4).
    simplify_eq. intros m' t' r'. rewrite lookup_insert. case_decide as Heq; [|apply Hv3].
    simplify_eq/=. intros [= <-]. by apply resolve_visible_sees.
Qed.

(** *** The fuel of the export search is enough *)

Definition unseen (plans : module_plans_t) (path : list ModuleId) : list ModuleId :=
  filter (λ m, m ∉ path) plans.*1.

Lemma export_candidates_fuel plans token n n' m path :
  (length (unseen plans path) < n)%nat → (length (unseen plans path) < n')%nat →
  export_candidates n m token plans path = export_candidates n' m token plans path.
Proof.
  revert n' m path. induction n as [|n IH]; intros n' m path Hn Hn'; [lia|].
  destruct n' as [|n']; [lia|]. cbn [export_candidates]. case_bool_decide as Hp; [done|].
  case_bool_decide as He; simpl; [|done].
  destruct (local_providers plans m token); [|done].
  assert (m ∈ plans.*1) as Hm.
  { unfold exports_of in He. destruct (dict_get plans m) as [p|] eqn:Hg; [|by apply elem_of_nil in He].
    apply dict_get_elem in Hg. by apply (list_elem_of_fmap_2 fst) in Hg. }
  assert (length (unseen plans (path ++ [m])) < length (unseen plans path))%nat as Hlt.
  { apply filter_length_lt with m; [done|set_solver|done|set_solver]. }
  f_equal. f_equal. apply list_fmap_ext. intros i x _. apply IH; lia.
Qed.

Lemma module_export_candidates_any m token plans path n :
  (S (length plans) < n)%nat →
  export_candidates n m token plans path = _module_export_candidates m token plans path.
Proof.
  intros Hn. unfold _module_export_candidates.
  assert (length (unseen plans path) <= length plans)%nat.
  { unfold unseen. etrans; [apply length_filter|]. by rewrite length_fmap. }
  apply export_candidates_fuel; lia.
Qed.

(** ** Canonical providers *)

Section canonical.
Context (pm : provider_map_t) (v : visibility_t).

Definition alias_of (r : ProviderRef) : Prop :=
  ∃ p, dict_get pm r = Some p ∧ is_alias (pp_declaration p) = true.

(** A provider that is no alias stands for itself, an alias for what its target
    stands for, and that is never an alias. *)
Definition cache_ok (cache : cache_t) : Prop :=
  ∀ r c, cache !! r = Some c →
    (∃ p, dict_get pm r = Some p ∧ (is_alias (pp_declaration p) = false → c = r) ∧
       ∀ t target, pp_declaration p = AliasProvider t target →
         ∃ x, v !! (ref_module_id r, target) = Some x ∧ cache !! x = Some c) ∧
    ∃ p, dict_get pm c = Some p ∧ is_alias (pp_declaration p) = false.

Lemma cache_ok_insert cache r c :
  cache_ok cache → cache !! r = None →
  (∃ p, dict_get pm r = Some p ∧ (is_alias (pp_declaration p) = false → c = r) ∧
     ∀ t target, pp_declaration p = AliasProvider t target →
       ∃ x, v !! (ref_module_id r, target) = Some x ∧ cache !! x = Some c) →
  (∃ p, dict_get pm c = Some p ∧ is_alias (pp_declaration p) = false) →
  cache_ok (<[r := c]> cache).
Proof.
  intros Hok Hr Hp Hc.
  assert (∀ x y, cache !! x = Some y → <[r := c]> cache !! x = Some y) as Hmono.
  { intros x y Hx. rewrite lookup_insert_ne; [done|]. intros <-. congruence. }
  intros x y [[<- <-]|[Hne Hx]]%lookup_insert_Some.
  - split; [|done]. destruct Hp as (p & H1 & H2 & H3). exists p. split_and!; [done|done|].
    intros t target Ht. destruct (H3 t target Ht) as (z & Hz & Hzc). exists z. split; [done|]. auto.
  - destruct (Hok x y Hx) as [(p & H1 & H2 & H3) H4]. split; [|done]. exists p. split_and!; [done|done|].
    intros t target Ht. destruct (H3 t target Ht) as (z & Hz & Hzc). exists z. split; [done|]. auto.
Qed.

Lemma canonical_ok fuel r cache stack c cache' :
  cache_ok cache → Forall alias_of stack →
  _canonical_provider fuel r pm v cache stack = Ok (c, cache') →
  cache_ok cache' ∧ cache' !! r = Some c ∧ cache ⊆ cache' ∧ ∀ x, x ∈ stack → cache' !! x = cache !! x.
Proof.
  revert r cache stack c cache'. induction fuel as [|fuel IH]; intros r cache stack c cache' Hok Hst Hrun;
    [done|]. cbn [_canonical_provider] in Hrun.
  destruct (cache !! r) as [c0|] eqn:Hr; [by simplify_eq|].
  apply result_bind_ok in Hrun as (p & Hp & Hrun). unfold dict_item in Hp.
  destruct (dict_get pm r) as [p'|] eqn:Hg; [|done]. injection Hp as ->.
  destruct (is_alias (pp_declaration p)) eqn:Hal.
  - destruct (pp_declaration p) as [| | |t target] eqn:Hd; try done.
    apply result_bind_ok in Hrun as (x & Hx & Hrun).
    destruct (v !! _) as [x'|] eqn:Hv; [|done]. injection Hx as ->.
    apply result_bind_ok in Hrun as ([] & Hs%raise_if_ok & Hrun). bool_hyps.
    apply result_bind_ok in Hrun as ([c1 cache1] & Hrec & Hrun). injection Hrun as <- <-.
    destruct (IH _ _ _ _ _ Hok ltac:(apply Forall_app; split; [done|]; apply Forall_singleton; exists p;
      rewrite Hg, Hd; done) Hrec) as (Hok1 & Hx1 & Hsub & Hsame).
    assert (cache1 !! r = None) as Hr1 by (rewrite Hsame; [done|set_solver]).
    split_and!.
    + apply cache_ok_insert; [done|done| |].
      * exists p. rewrite Hd. split_and!; [done|done|]. intros t' target' [= <- <-]. eauto.
      * by destruct (Hok1 _ _ Hx1) as [_ Hc].
    + apply lookup_insert_eq.
    + etrans; [exact Hsub|]. by apply insert_subseteq.
    + intros y Hy. rewrite lookup_insert_ne by (intros ->; done). apply Hsame. set_solver.
  - assert (Ok (r, <[r := r]> cache) = Ok (c, cache')) as Heq by (by destruct (pp_declaration p)).
    injection Heq as <- <-. split_and!.
    + apply cache_ok_insert; [done|done| |by exists p]. exists p. split_and!; [done|done|].
      intros t target Ht. by rewrite Ht in Hal.
    + apply lookup_insert_eq.
    + by apply insert_subseteq.
    + intros y Hy. rewrite lookup_insert_ne; [done|]. intros ->.
      rewrite Forall_forall in Hst. destruct (Hst y Hy) as (q & Hq & Hqa). congruence.
Qed.

Lemma canonical_fuel fuel r cache stack :
  (length (filter (λ x, x ∉ stack) pm.*1) < fuel)%nat →
  _canonical_provider fuel r pm v cache stack ≠ Err RecursionError.
Proof.
  revert r stack. induction fuel as [|fuel IH]; intros r stack Hfuel; [lia|].
  cbn [_canonical_provider]. destruct (cache !! r); [done|]. unfold dict_item.
  destruct (dict_get pm r) as [p|] eqn:Hg; [|done]. r_simpl.
  destruct (pp_declaration p) as [| | |t target]; try done.
  destruct (v !! _) as [x|]; [|done]. r_simpl. case_bool_decide as Hr; [done|].
  case_bool_decide as Hx; [done|]. simpl. r_simpl.
  assert (length (filter (λ x, x ∉ stack ++ [r]) pm.*1) < length (filter (λ x, x ∉ stack) pm.*1))%nat.
  { apply filter_length_lt with r; [|set_solver|done|set_solver].
    apply dict_get_elem in Hg. by apply (list_elem_of_fmap_2 fst) in Hg. }
  specialize (IH x (stack ++ [r]) ltac:(lia)).
  destruct (_canonical_provider fuel x pm v cache (stack ++ [r])) as [[]|e]; r_simpl; [done|congruence].
Qed.

Lemma canonical_all_ok cache :
  canonical_all pm v = Ok cache → cache_ok cache ∧ ∀ r, r ∈ pm.*1 → is_Some (cache !! r).
Proof.
  unfold canonical_all. generalize (S (S (length pm))). intros fuel.
  assert (∀ refs cache0, cache_ok cache0 →
    rfold (λ cache ref, cc ← _canonical_provider fuel ref pm v cache [];
             let '(canonical, cache) := cc in Ok (<[ref := canonical]> cache)) cache0 refs = Ok cache →
    cache_ok cache ∧ cache0 ⊆ cache ∧ ∀ r, r ∈ refs → is_Some (cache !! r)) as Hgen.
  { intros refs. induction refs as [|r refs IH]; intros cache0 Hok Hrun; simpl in Hrun.
    - simplify_eq. split_and!; [done|done|]. intros r Hr. by apply elem_of_nil in Hr.
    - apply result_bind_ok in Hrun as (cache1 & Hstep & Hrun).
      apply result_bind_ok in Hstep as ([c cache2] & Hc & Hstep). simplify_eq.
      destruct (canonical_ok _ _ _ _ _ _ Hok (Forall_nil_2 _) Hc) as (Hok2 & Hr2 & Hsub & _).
      rewrite insert_id in Hrun by done.
      destruct (IH _ Hok2 Hrun) as (H1 & H2 & H3). split_and!; [done|by etrans|].
      intros x [->|Hx]%elem_of_cons; [|auto]. exists c. by eapply lookup_weaken. }
  intros Hrun. destruct (Hgen _ _ ltac:(intros ? ?; by rewrite lookup_empty) Hrun) as (H1 & _ & H3). done.
Qed.

Lemma canonical_all_fuel : canonical_all pm v ≠ Err RecursionError.
Proof.
  unfold canonical_all.
  assert (∀ r cache, _canonical_provider (S (S (length pm))) r pm v cache [] ≠ Err RecursionError) as Hf.
  { intros r cache. apply canonical_fuel. pose proof (length_filter (λ x, x ∉ []) pm.*1) as Hl.
    rewrite length_fmap in Hl. lia. }
  revert Hf. generalize (S (S (length pm))). intros fuel Hf.
  generalize (∅ : cache_t). generalize (pm.*1). intros refs.
  induction refs as [|r refs IH]; intros cache; cbn [rfold]; [done|]. specialize (Hf r cache).
  destruct (_canonical_provider fuel r pm v cache []) as [[c cache1]|e]; r_simpl; [apply IH|congruence].
Qed.

End canonical.

(** ** Compiled plans *)

Lemma dict_set_same_keys {K A} `{EqDecision K} (d : list (K * A)) k w :
  k ∈ d.*1 → (dict_set d k w).*1 = d.*1.
Proof.
  induction d as [|[j x] d IH]; [by intros ?%elem_of_nil|]. rewrite fmap_cons. simpl. intros Hk.
  case_decide as Hj; [by subst j|]. rewrite fmap_cons. simpl. f_equal. apply IH. set_solver.
Qed.

Lemma dict_set_id {K A} `{EqDecision K} (d : list (K * A)) k w :
  dict_get d k = Some w → dict_set d k w = d.
Proof.
  induction d as [|[j x] d IH]; [done|]. rewrite dict_get_cons. simpl.
  case_decide as Hj; intros Hg; [by simplify_eq|]. f_equal. auto.
Qed.

(** A pass that replaces the plans one after the other. *)
Lemma rfold_update (f : provider_map_t → ProviderRef * ProviderPlan → result di_error provider_map_t)
    (I : provider_map_t → Prop) (Q : ProviderRef → ProviderPlan → ProviderPlan → Prop) items pm pm' :
  NoDup items.*1 → (∀ r p, (r, p) ∈ items → dict_get pm r = Some p) → I pm →
  (∀ pm r p pm', (r, p) ∈ items → dict_get pm r = Some p → I pm → f pm (r, p) = Ok pm' →
     I pm' ∧ ∃ p', pm' = dict_set pm r p' ∧ Q r p p') →
  rfold f pm items = Ok pm' →
  pm'.*1 = pm.*1 ∧ I pm' ∧ (∀ r p, (r, p) ∈ items → ∃ p', dict_get pm' r = Some p' ∧ Q r p p') ∧
  ∀ r, r ∉ items.*1 → dict_get pm' r = dict_get pm r.
Proof.
  revert pm. induction items as [|[r p] items IH]; intros pm Hnd Hpm HI Hf Hrun; simpl in Hrun.
  - simplify_eq. split_and!; try done. intros r p Hr. by apply elem_of_nil in Hr.
  - apply result_bind_ok in Hrun as (pm1 & Hstep & Hrun). rewrite fmap_cons in Hnd. simpl in Hnd.
    apply NoDup_cons in Hnd as [Hr Hnd].
    destruct (Hf _ _ _ _ ltac:(left) (Hpm r p ltac:(left)) HI Hstep) as (HI1 & p' & -> & HQ).
    destruct (IH (dict_set pm r p') Hnd) as (Hk & HI' & Hall & Hrest); [|done| |done|].
    + intros x q Hx. rewrite dict_get_set, decide_False; [apply Hpm; by right|].
      intros <-. apply Hr. by apply (list_elem_of_fmap_2 fst _ (r, q)).
    + intros pm2 x q pm3 Hx. apply Hf. by right.
    + split_and!; [| done| |].
      * rewrite Hk. apply dict_set_same_keys. rewrite <- dict_get_is_Some. exists p. apply Hpm. left.
      * intros x q [[= -> ->]|Hx]%elem_of_cons; [|by apply Hall].
        exists p'. split; [|done]. rewrite Hrest by done. by rewrite dict_get_set, decide_True.
      * intros x Hx. rewrite fmap_cons in Hx. simpl in Hx. rewrite Hrest by set_solver.
        rewrite dict_get_set, decide_False; [done|]. intros ->. set_solver.
Qed.

Section plans.
Context `{Reflection}.
Context (local_refs : local_refs_t) (plans : module_plans_t) (order : list ModuleId).
Context (v : visibility_t) (cache : cache_t) (pm0 : provider_map_t).
Context (Hnd : NoDup pm0.*1) (Hcache : cache_ok pm0 v cache).
Context (Hfresh : ∀ r p, dict_get pm0 r = Some p → pp_key p = r ∧ pp_scope p = declared_scope (pp_declaration p)).

(** What a plan is after each pass, given the plan it started as. *)
Definition compiled_from (r : ProviderRef) (p0 p : ProviderPlan) : Prop :=
  pp_key p = r ∧ pp_declaration p = pp_declaration p0 ∧
  rmap (resolve_dependency local_refs plans order v cache r) (pp_dependencies p0) = Ok (pp_dependencies p) ∧
  cache !! r = Some (pp_canonical p) ∧
  ∃ c, dict_get pm0 (pp_canonical p) = Some c ∧ pp_scope p = declared_scope (pp_declaration c).

(** The scopes of the providers that are no aliases stay as declared. *)
Definition scopes_kept (pm : provider_map_t) : Prop :=
  ∀ r p, dict_get pm r = Some p → ∃ p0, dict_get pm0 r = Some p0 ∧
    pp_declaration p = pp_declaration p0 ∧
    (is_alias (pp_declaration p0) = false → pp_scope p = declared_scope (pp_declaration p0)).

Lemma pass_keys (pm : provider_map_t) : pm.*1 = pm0.*1 → NoDup pm.*1.
Proof. intros ->. done. Qed.

Lemma items_get (pm : provider_map_t) : NoDup pm.*1 → ∀ r p, (r, p) ∈ pm → dict_get pm r = Some p.
Proof. intros Hk r p. by apply elem_dict_get. Qed.

Lemma compile_pass pm :
  rfold (compile_plan local_refs plans order v cache) pm0 pm0 = Ok pm →
  pm.*1 = pm0.*1 ∧ ∀ r p0, dict_get pm0 r = Some p0 → ∃ p, dict_get pm r = Some p ∧ compiled_from r p0 p.
Proof.
  intros Hrun.
  eapply (rfold_update _ scopes_kept compiled_from) in Hrun as (Hk & _ & Hall & _);
    [|done|by apply items_get| |].
  - split; [done|]. intros r p0 Hr. apply Hall. by apply dict_get_elem.
  - intros r p Hr. exists p. split_and!; [done|done|]. intros _. by apply (Hfresh r p Hr).
  - clear Hrun. intros pm1 r p pm2 Hr Hg HI Hstep. cbn in Hstep.
    apply result_bind_ok in Hstep as (deps & Hdeps & Hstep).
    apply result_bind_ok in Hstep as (c & Hc & Hstep). unfold cached in Hc.
    destruct (cache !! r) as [c'|] eqn:Hcr; [|done]. injection Hc as ->.
    apply result_bind_ok in Hstep as (cp & Hcp & Hstep). unfold dict_item in Hcp.
    destruct (dict_get pm1 c) as [cp'|] eqn:Hgc; [|done]. injection Hcp as ->. injection Hstep as <-.
    apply items_get in Hr; [|done].
    destruct (Hcache r c Hcr) as [(q & Hq & Hqn & _) (qc & Hqc & Hqa)].
    rewrite Hr in Hq. injection Hq as <-.
    destruct (HI c cp Hgc) as (c0 & Hc0 & _ & Hsc). rewrite Hqc in Hc0. injection Hc0 as <-.
    split; [|eexists; split; [done|]].
    + intros x y. rewrite dict_get_set. case_decide as Heq; [|apply HI]. subst x. intros [= <-]. simpl.
      exists p. split_and!; [done|done|]. intros Hna. rewrite Hsc by done.
      specialize (Hqn Hna). subst c. rewrite Hr in Hqc. by injection Hqc as <-.
    + split_and!; simpl; try done; [by apply (Hfresh r p Hr)|]. exists qc. split; [done|]. by apply Hsc.
Qed.

Lemma intercept_pass pm1 pm :
  (∀ r p0, dict_get pm0 r = Some p0 → ∃ p, dict_get pm1 r = Some p ∧ compiled_from r p0 p) →
  pm1.*1 = pm0.*1 → rfold (intercept_plan v cache) pm1 pm1 = Ok pm →
  pm.*1 = pm0.*1 ∧ ∀ r p0, dict_get pm0 r = Some p0 → ∃ p, dict_get pm r = Some p ∧ compiled_from r p0 p.
Proof.
  intros Hpm1 Hk1 Hrun.
  eapply (rfold_update _ (λ _, True) (λ r p p', ∀ p0, compiled_from r p0 p → compiled_from r p0 p'))
    in Hrun as (Hk & _ & Hall & _); [|by apply pass_keys|apply items_get; by apply pass_keys|done|].
  - split; [congruence|]. intros r p0 Hr. destruct (Hpm1 r p0 Hr) as (p & Hp & Hc).
    destruct (Hall r p (dict_get_elem _ _ _ Hp)) as (p' & Hp' & Hq). eauto.
  - intros pm2 r p pm3 _ Hg _ Hstep. split; [done|]. cbn in Hstep. case_bool_decide.
    + injection Hstep as <-. exists p. by rewrite dict_set_id.
    + apply result_bind_ok in Hstep as (i & _ & Hstep). injection Hstep as <-. eexists. split; [done|].
      intros p0 Hc. exact Hc.
Qed.

(** An alias is built as its canonical provider. *)
Definition built_as (pm : provider_map_t) (p : ProviderPlan) : Prop :=
  ∃ c, dict_get pm (pp_canonical p) = Some c ∧ pp_recipe p = pp_recipe c ∧ pp_proxy p = pp_proxy c ∧
    pp_method_interceptors p = pp_method_interceptors c.

Lemma alias_pass pm1 pm :
  (∀ r p0, dict_get pm0 r = Some p0 → ∃ p, dict_get pm1 r = Some p ∧ compiled_from r p0 p) →
  pm1.*1 = pm0.*1 → rfold alias_plan pm1 pm1 = Ok pm →
  pm.*1 = pm0.*1 ∧ ∀ r p0, dict_get pm0 r = Some p0 →
    ∃ p, dict_get pm r = Some p ∧ compiled_from r p0 p ∧ built_as pm p.
Proof.
  intros Hpm1 Hk1 Hrun.
  set (I := λ pm2 : provider_map_t, ∀ r p, dict_get pm1 r = Some p → pp_canonical p = r →
              dict_get pm2 r = Some p).
  eapply (rfold_update _ I (λ r p p', (∀ p0, compiled_from r p0 p → compiled_from r p0 p') ∧
    pp_canonical p' = pp_canonical p ∧
    ∀ c, dict_get pm1 (pp_canonical p) = Some c → pp_canonical c = pp_canonical p →
      pp_recipe p' = pp_recipe c ∧ pp_proxy p' = pp_proxy c ∧
      pp_method_interceptors p' = pp_method_interceptors c))
    in Hrun as (Hk & HI & Hall & _); [|by apply pass_keys|apply items_get; by apply pass_keys|by intros ? ? ?|].
  - split; [congruence|]. intros r p0 Hr. destruct (Hpm1 r p0 Hr) as (p & Hp & Hc).
    destruct (Hall r p (dict_get_elem _ _ _ Hp)) as (p' & Hp' & Hq & Hcan & Hbuilt).
    exists p'. split_and!; [done|by apply Hq|].
    destruct Hc as (_ & _ & _ & Hcc & _). destruct (Hcache _ _ Hcc) as [_ (qc & Hqc & Hqa)].
    destruct (Hpm1 _ _ Hqc) as (c & Hcg & (_ & Hdecl & _ & Hccc & _)).
    assert (pp_canonical c = pp_canonical p) as Hcc2.
    { destruct (Hcache _ _ Hccc) as [(q & Hqg & Hqn & _) _]. rewrite Hqc in Hqg. injection Hqg as <-.
      by apply Hqn. }
    exists c. rewrite Hcan. split; [by apply HI|]. by apply Hbuilt.
  - intros pm2 r p pm3 Hr Hg HI Hstep. apply items_get in Hr; [|by apply pass_keys]. cbn in Hstep.
    case_bool_decide as Hcr.
    + injection Hstep as <-. split; [done|]. exists p. rewrite dict_set_id by done. split_and!; try done.
      intros c Hc _. rewrite Hcr, Hr in Hc. by injection Hc as <-.
    + apply result_bind_ok in Hstep as (c & Hc & Hstep). injection Hstep as <-. unfold dict_item in Hc.
      destruct (dict_get pm2 (pp_canonical p)) as [c'|] eqn:Hgc; [|done]. injection Hc as ->. split.
      * intros x q Hx Hq. rewrite dict_get_set, decide_False; [by apply HI|]. intros <-.
        rewrite Hr in Hx. by injection Hx as <-.
      * eexists. split; [done|]. split_and!; [by intros p0 Hp0|done|]. simpl. intros c1 Hc1 Hcc.
        rewrite (HI _ _ Hc1) in Hgc by (by rewrite Hcc). by injection Hgc as <-.
Qed.

Lemma compile_plans_ok pm :
  compile_plans local_refs plans order v cache pm0 = Ok pm →
  pm.*1 = pm0.*1 ∧ ∀ r p0, dict_get pm0 r = Some p0 →
    ∃ p, dict_get pm r = Some p ∧ compiled_from r p0 p ∧ built_as pm p.
Proof.
  intros Hrun. apply result_bind_ok in Hrun as (pm1 & H1 & Hrun).
  apply result_bind_ok in Hrun as (pm2 & H2 & Hrun).
  destruct (compile_pass _ H1) as [Hk1 Hp1]. destruct (intercept_pass _ _ Hp1 Hk1 H2) as [Hk2 Hp2].
  by apply (alias_pass pm2).
Qed.

(** The recipe of a canonical provider is compiled from its own declaration and
    dependencies. *)
Definition recipe_of (p : ProviderPlan) : ConstructionRecipe :=
  _compile_recipe (pp_declaration p) (pp_dependencies p).

Lemma compile_plans_recipe pm :
  compile_plans local_refs plans order v cache pm0 = Ok pm →
  ∀ r p, dict_get pm r = Some p → pp_canonical p = r → pp_recipe p = recipe_of p.
Proof.
  intros Hrun. apply result_bind_ok in Hrun as (pm1 & H1 & Hrun).
  apply result_bind_ok in Hrun as (pm2 & H2 & Hrun).
  eapply (rfold_update _ (λ _, True) (λ _ _ p', pp_recipe p' = recipe_of p')) in H1 as (Hk1 & _ & Hall1 & _);
    [|done|by apply items_get|done|].
  2: { intros pm3 r p pm4 _ _ _ Hstep. split; [done|]. cbn in Hstep.
       apply result_bind_ok in Hstep as (deps & _ & Hstep). apply result_bind_ok in Hstep as (c & _ & Hstep).
       apply result_bind_ok in Hstep as (cp & _ & Hstep). injection Hstep as <-. by eexists. }
  eapply (rfold_update _ (λ _, True) (λ _ p p', pp_recipe p = recipe_of p → pp_recipe p' = recipe_of p'))
    in H2 as (Hk2 & _ & Hall2 & _); [|by apply pass_keys|apply items_get; by apply pass_keys|done|].
  2: { intros pm3 r p pm4 _ Hg _ Hstep. split; [done|]. cbn in Hstep. case_bool_decide.
       - injection Hstep as <-. exists p. by rewrite dict_set_id.
       - apply result_bind_ok in Hstep as (i & _ & Hstep). injection Hstep as <-. by eexists. }
  assert (NoDup pm2.*1) as Hnd2 by (rewrite Hk2; by apply pass_keys).
  eapply (rfold_update _ (λ _, True) (λ r p p', pp_canonical p' = pp_canonical p ∧ (pp_canonical p = r → p' = p)))
    in Hrun as (Hk3 & _ & Hall3 & _); [|done|by apply items_get|done|].
  2: { intros pm3 r p pm4 _ Hg _ Hstep. split; [done|]. cbn in Hstep. case_bool_decide.
       - injection Hstep as <-. exists p. by rewrite dict_set_id.
       - apply result_bind_ok in Hstep as (i & _ & Hstep). injection Hstep as <-. by eexists. }
  intros r p Hp Hc. assert (is_Some (dict_get pm0 r)) as [p0 Hp0].
  { rewrite dict_get_is_Some, <- Hk1, <- Hk2, <- Hk3, <- dict_get_is_Some. by exists p. }
  destruct (Hall1 r p0 (dict_get_elem _ _ _ Hp0)) as (p1 & Hp1 & Hq1).
  destruct (Hall2 r p1 (dict_get_elem _ _ _ Hp1)) as (p2 & Hp2 & Hq2).
  destruct (Hall3 r p2 (dict_get_elem _ _ _ Hp2)) as (p3 & Hp3 & Hcan & Hq3).
  rewrite Hp in Hp3. injection Hp3 as <-. rewrite Hq3 by congruence. auto.
Qed.

End plans.
