(* ===== verification/DiPlanFacts.v ===== *)
(** * Dependency injection: the plans of the modules

    What [plan_module], the fallback providers and [collect_providers] produce,
    and everything a successful [_finish] establishes, in one lemma. *)

From Stdlib Require Import ZArith Lia.
From stdpp Require Import base tactics list gmap strings.
From S2P Require Import Prelude DiDeclarations DiCompiler DiFinish DiGraphFacts DiFinishFacts.
Local Open Scope Z_scope.

Lemma elem_of_dict_set {K A} `{EqDecision K} (d : list (K * A)) k w x :
  x ∈ dict_set d k w → x = (k, w) ∨ x ∈ d.
Proof.
  induction d as [|[j y] d IH]; simpl; [set_solver|]. case_decide; set_solver.
Qed.

Lemma dict_set_new_keys {K A} `{EqDecision K} (d : list (K * A)) k w :
  k ∉ d.*1 → (dict_set d k w).*1 = d.*1 ++ [k].
Proof.
  induction d as [|[j y] d IH]; [done|]. rewrite fmap_cons. simpl. intros Hk.
  rewrite decide_False by set_solver. rewrite fmap_cons. simpl. f_equal. apply IH. set_solver.
Qed.

Section plans.
Context `{Reflection}.

(** A plan as [_finish] first makes it. *)
Definition fresh_plan (m : ModuleId) (p : ProviderPlan) : Prop :=
  pp_key p = {| ref_module_id := m; ref_token := provider_token (pp_declaration p) |} ∧
  pp_scope p = declared_scope (pp_declaration p) ∧
  _compile_dependencies (pp_declaration p) = Ok (pp_dependencies p).

Definition fresh_module (ns : gmap ModuleId _ModuleNode) (mp : ModuleId * ModulePlan) : Prop :=
  mp_module_id mp.2 = mp.1 ∧
  (∃ n, ns !! mp.1 = Some n ∧ mp_imports mp.2 = node_imports n ∧ mp_spec mp.2 = node_spec n) ∧
  Forall (fresh_plan mp.1) (mp_providers mp.2).

Lemma add_provider_fresh m acc d acc' :
  Forall (fresh_plan m) acc.2 → add_provider m acc d = Ok acc' → Forall (fresh_plan m) acc'.2.
Proof.
  intros Hacc Hd. unfold add_provider in Hd. apply result_bind_ok in Hd as (? & _ & Hd).
  apply result_bind_ok in Hd as (? & _ & Hd). apply result_bind_ok in Hd as (deps & Hdeps & Hd).
  injection Hd as <-. simpl. apply Forall_app. split; [done|]. by apply Forall_singleton.
Qed.

Definition planned (ns : gmap ModuleId _ModuleNode) (acc : local_refs_t * module_plans_t) : Prop :=
  Forall (fresh_module ns) acc.2.

Lemma plan_module_planned ns acc m acc' :
  planned ns acc → plan_module ns acc m = Ok acc' →
  planned ns acc' ∧ ∃ mp, acc'.2 = dict_set acc.2 m mp.
Proof.
  intros Hacc Hm. unfold plan_module in Hm. apply result_bind_ok in Hm as (n & Hn & Hm).
  destruct (ns !! m) as [n'|] eqn:Hns; [|done]. injection Hn as ->.
  apply result_bind_ok in Hm as (ds & _ & Hm). apply result_bind_ok in Hm as ([refs ps] & Hps & Hm).
  injection Hm as <-. simpl. split; [|by eexists]. unfold planned. simpl. apply Forall_forall.
  intros x [->|Hx]%elem_of_dict_set; [|unfold planned in Hacc; rewrite Forall_forall in Hacc; auto].
  split_and!; simpl; [done|by exists n|].
  apply (rfold_inv (λ acc, Forall (fresh_plan m) acc.2)) in Hps; [done|simpl; constructor|].
  intros b d b' _. apply add_provider_fresh.
Qed.

Lemma plan_modules_ok ns order acc :
  NoDup order → rfold (plan_module ns) ([], []) order = Ok acc →
  planned ns acc ∧ acc.2.*1 = order.
Proof.
  intros Hnd Hrun.
  assert (∀ order acc0, planned ns acc0 → NoDup (acc0.2.*1 ++ order) →
    rfold (plan_module ns) acc0 order = Ok acc → planned ns acc ∧ acc.2.*1 = acc0.2.*1 ++ order) as Hgen.
  { clear. intros order. induction order as [|m order IH]; intros acc0 Hacc Hnd Hrun; simpl in Hrun.
    - simplify_eq. by rewrite app_nil_r.
    - apply result_bind_ok in Hrun as (acc1 & Hm & Hrun).
      destruct (plan_module_planned _ _ _ _ Hacc Hm) as (Hacc1 & mp & Hset).
      assert (acc1.2.*1 = acc0.2.*1 ++ [m]) as Hk.
      { rewrite Hset. apply dict_set_new_keys. apply NoDup_app in Hnd as (_ & Hnd & _). set_solver. }
      destruct (IH acc1 Hacc1) as [H1 H2]; [by rewrite Hk, <- app_assoc|done|].
      split; [done|]. by rewrite H2, Hk, <- app_assoc. }
  destruct (Hgen order ([], []) ltac:(constructor) Hnd Hrun). done.
Qed.

Lemma add_fallback_planned ns order m acc d acc' :
  planned ns acc → add_fallback order m acc d = Ok acc' → planned ns acc' ∧ acc'.2.*1 = acc.2.*1.
Proof.
  intros Hacc Hd. unfold add_fallback in Hd. apply result_bind_ok in Hd as (? & _ & Hd).
  apply result_bind_ok in Hd as ([] & _ & Hd); [by simplify_eq|].
  apply result_bind_ok in Hd as (deps & Hdeps & Hd). apply result_bind_ok in Hd as (mp & Hmp & Hd).
  unfold dict_item in Hmp. destruct (dict_get acc.2 m) as [mp'|] eqn:Hg; [|done].
  injection Hmp as ->. injection Hd as <-. simpl. pose proof (dict_get_elem _ _ _ Hg) as Hin.
  unfold planned in *. rewrite Forall_forall in Hacc. split.
  - apply Forall_forall. simpl. intros y [->|Hy]%elem_of_dict_set; [|auto].
    destruct (Hacc _ Hin) as (H1 & H2 & H3). split_and!; simpl; [done|done|].
    apply Forall_app. split; [done|]. by apply Forall_singleton.
  - apply dict_set_same_keys. by apply (list_elem_of_fmap_2 fst) in Hin.
Qed.

Lemma add_fallbacks_planned collect c root acc acc' :
  planned (nodes c) acc → add_fallbacks collect c root acc = Ok acc' →
  planned (nodes c) acc' ∧ acc'.2.*1 = acc.2.*1.
Proof.
  intros Hacc Hrun. unfold add_fallbacks in Hrun. destruct collect as [f|]; [|by simplify_eq].
  eapply (rfold_inv (λ b : local_refs_t * module_plans_t, planned (nodes c) b ∧ b.2.*1 = acc.2.*1));
    [done| |exact Hrun]. clear Hrun acc'.
  intros b m b' _ [Hb Hk] Hrun. apply result_bind_ok in Hrun as (n & _ & Hrun).
  apply result_bind_ok in Hrun as (ds & _ & Hrun).
  eapply (rfold_inv (λ b : local_refs_t * module_plans_t, planned (nodes c) b ∧ b.2.*1 = acc.2.*1));
    [done| |exact Hrun].
  intros b1 d b2 _ [Hb1 Hk1] Hd. destruct (add_fallback_planned _ _ _ _ _ _ Hb1 Hd) as [H1 H2].
  split; [done|congruence].
Qed.

(** ** The providers a module declares itself *)

Definition local_ok (acc : local_refs_t * module_plans_t) : Prop :=
  ∀ m t r, dict_get (refs_of acc.1 m) t = Some r →
    r = {| ref_module_id := m; ref_token := t |} ∧ r ∈ pp_key <$> providers_of acc.2 m.

Lemma add_provider_local m acc d acc' :
  (∀ t r, dict_get acc.1 t = Some r → r = {| ref_module_id := m; ref_token := t |} ∧ r ∈ pp_key <$> acc.2) →
  add_provider m acc d = Ok acc' →
  ∀ t r, dict_get acc'.1 t = Some r → r = {| ref_module_id := m; ref_token := t |} ∧ r ∈ pp_key <$> acc'.2.
Proof.
  intros Hacc Hd. unfold add_provider in Hd. apply result_bind_ok in Hd as (? & _ & Hd).
  apply result_bind_ok in Hd as (? & _ & Hd). apply result_bind_ok in Hd as (deps & _ & Hd).
  injection Hd as <-. simpl. intros t r. rewrite dict_get_set, fmap_app, elem_of_app.
  case_decide as Ht.
  - intros [= <-]. subst t. split; [done|]. right. simpl. by apply list_elem_of_singleton.
  - intros Hr. destruct (Hacc t r Hr). auto.
Qed.

Lemma refs_of_set (lr : local_refs_t) m refs m' :
  refs_of (dict_set lr m refs) m' = if decide (m = m') then refs else refs_of lr m'.
Proof. unfold refs_of. rewrite dict_get_set. by case_decide. Qed.

Lemma providers_of_set (plans : module_plans_t) m mp m' :
  providers_of (dict_set plans m mp) m' = if decide (m = m') then mp_providers mp else providers_of plans m'.
Proof. unfold providers_of. rewrite dict_get_set. by case_decide. Qed.

Lemma plan_module_local ns acc m acc' : local_ok acc → plan_module ns acc m = Ok acc' → local_ok acc'.
Proof.
  intros Hacc Hm. unfold plan_module in Hm. apply result_bind_ok in Hm as (n & _ & Hm).
  apply result_bind_ok in Hm as (ds & _ & Hm). apply result_bind_ok in Hm as ([refs ps] & Hps & Hm).
  injection Hm as <-. intros m' t r. simpl. rewrite refs_of_set, providers_of_set.
  case_decide as Heq; [|apply Hacc]. subst m'. simpl.
  revert t r. set (Q := λ acc : list (Token * ProviderRef) * list ProviderPlan, ∀ t r,
    dict_get acc.1 t = Some r → r = {| ref_module_id := m; ref_token := t |} ∧ r ∈ pp_key <$> acc.2).
  change (Q (refs, ps)). refine (rfold_inv Q _ _ _ _ _ _ Hps);
    [intros t r Ht; discriminate Ht|intros b d b' _ Hb Hd; exact (add_provider_local m b d b' Hb Hd)].
Qed.

Lemma add_fallback_local order m acc d acc' :
  local_ok acc → add_fallback order m acc d = Ok acc' → local_ok acc'.
Proof.
  intros Hacc Hd. unfold add_fallback in Hd. apply result_bind_ok in Hd as (? & _ & Hd).
  apply result_bind_ok in Hd as ([] & _ & Hd); [by simplify_eq|].
  apply result_bind_ok in Hd as (deps & Hdeps & Hd). apply result_bind_ok in Hd as (mp & Hmp & Hd).
  unfold dict_item in Hmp. destruct (dict_get acc.2 m) as [mp'|] eqn:Hg; [|done].
  injection Hmp as ->. injection Hd as <-. intros m' t r. simpl.
  rewrite refs_of_set, providers_of_set. case_decide as Heq; [|apply Hacc]. subst m'.
  simpl. rewrite dict_get_set, fmap_app, elem_of_app. case_decide as Ht.
  - intros [= <-]. subst t. split; [done|]. right. simpl. by apply list_elem_of_singleton.
  - intros Hr. destruct (Hacc m t r Hr) as [-> Hin]. split; [done|]. left.
    unfold providers_of in Hin. by rewrite Hg in Hin.
Qed.

Lemma add_fallbacks_local collect c root acc acc' :
  local_ok acc → add_fallbacks collect c root acc = Ok acc' → local_ok acc'.
Proof.
  intros Hacc Hrun. unfold add_fallbacks in Hrun. destruct collect as [f|]; [|by simplify_eq].
  eapply (rfold_inv local_ok); [done| |exact Hrun]. clear Hrun acc'.
  intros b m b' _ Hb Hrun. apply result_bind_ok in Hrun as (n & _ & Hrun).
  apply result_bind_ok in Hrun as (ds & _ & Hrun).
  eapply (rfold_inv local_ok); [done| |exact Hrun]. intros b1 d b2 _. apply add_fallback_local.
Qed.

(** ** The map of all providers *)

Definition all_plans (plans : module_plans_t) : list ProviderPlan :=
  mjoin ((λ mp, mp_providers mp.2) <$> plans).

Lemma collect_providers_flat plans :
  collect_providers plans = foldl (λ pm p, dict_set pm (pp_key p) p) [] (all_plans plans).
Proof.
  unfold collect_providers, all_plans. generalize (@nil (ProviderRef * ProviderPlan)).
  induction plans as [|[m mp] plans IH]; intros pm; [done|]. rewrite fmap_cons. simpl.
  rewrite IH. by rewrite foldl_app.
Qed.

Lemma collect_ok plans :
  NoDup (collect_providers plans).*1 ∧
  (∀ r, r ∈ (collect_providers plans).*1 ↔ r ∈ pp_key <$> all_plans plans) ∧
  ∀ r p, dict_get (collect_providers plans) r = Some p → pp_key p = r ∧ p ∈ all_plans plans.
Proof.
  rewrite collect_providers_flat. generalize (all_plans plans). intros ps.
  induction ps as [|p ps IH] using rev_ind; [split_and!; simpl; [constructor|set_solver|done]|].
  rewrite foldl_app. simpl. destruct IH as (H1 & H2 & H3).
  set (d := foldl _ [] ps) in *. split_and!.
  - by apply dict_set_NoDup.
  - intros r. rewrite dict_set_keys, H2, fmap_app. simpl. set_solver.
  - intros r q. rewrite dict_get_set. case_decide as Heq.
    + intros [= <-]. split; [done|]. set_solver.
    + intros Hq. destruct (H3 r q Hq). split; [done|]. set_solver.
Qed.

End plans.

(** ** A successful [_finish] *)

Section finished.
Context `{Reflection}.

(** What [_finish] has computed before it checks the graph. *)
Record prepared (c : _Compiler) (local_refs : local_refs_t) (plans : module_plans_t) (v : visibility_t)
    (cache : cache_t) (pm : provider_map_t) (edges : edges_t) : Prop := {
  fi_planned : planned (nodes c) (local_refs, plans);
  fi_local : local_ok (local_refs, plans);
  fi_modules : plans.*1 = order c;
  fi_visibility : _compile_visibility local_refs plans (order c) = Ok v;
  fi_cache : cache_ok (collect_providers plans) v cache;
  fi_keys : pm.*1 = (collect_providers plans).*1;
  fi_plan : ∀ r p0, dict_get (collect_providers plans) r = Some p0 →
    ∃ p, dict_get pm r = Some p ∧
      compiled_from local_refs plans (order c) v cache (collect_providers plans) r p0 p ∧
      built_as pm p;
  fi_recipe : ∀ r p, dict_get pm r = Some p → pp_canonical p = r → pp_recipe p = recipe_of p;
  fi_edges : _provider_edges pm v = Ok edges
}.

(** The graph passed the checks. *)
Record finished (c : _Compiler) (root : ModuleId) (g : CompiledGraph) (local_refs : local_refs_t)
    (plans : module_plans_t) (cache : cache_t) (edges : edges_t) : Prop := {
  fi_prepared : prepared c local_refs plans (visibility g) cache (providers g) edges;
  fi_cycles : _validate_provider_cycles (S (length (providers g))) edges (providers g) = Ok tt;
  fi_scopes : _validate_scope_paths (S (length (providers g))) edges (providers g) = Ok tt;
  fi_order : _provider_order (S (length (providers g))) edges (order c) plans = Ok (provider_order g);
  fi_shape : rmap (final_module plans (providers g)) (order c) = Ok (shape_modules (shape g));
  fi_root : shape_root (shape g) = root
}.

Lemma all_plans_fresh ns acc p :
  planned ns acc → p ∈ all_plans acc.2 → fresh_plan (ref_module_id (pp_key p)) p.
Proof.
  intros Hacc (mp & Hmp & Hp)%elem_of_mjoin_fmap. unfold planned in Hacc. rewrite Forall_forall in Hacc.
  destruct (Hacc mp Hmp) as (_ & _ & Hf). rewrite Forall_forall in Hf. specialize (Hf p Hp).
  destruct Hf as (Hk & Hr). by rewrite Hk.
Qed.

(** The part of [_finish] before the checks. *)
Definition prepare
    (collect : option (ModuleId → ModuleSpec → bool → result di_error (list ProviderDeclaration))) (c : _Compiler) (root : ModuleId)
    : result di_error (module_plans_t * visibility_t * provider_map_t * edges_t) :=
  lp ← rfold (plan_module (nodes c)) ([], []) (order c);
  lp ← add_fallbacks collect c root lp;
  let '(local_refs, plans) := lp in
  v ← _compile_visibility local_refs plans (order c);
  let collected := collect_providers plans in
  cache ← canonical_all collected v;
  pm ← compile_plans local_refs plans (order c) v cache collected;
  edges ← _provider_edges pm v;
  Ok (plans, v, pm, edges).

Definition checked (c : _Compiler) (root : ModuleId) (plans : module_plans_t) (v : visibility_t)
    (pm : provider_map_t) (edges : edges_t) : result di_error CompiledGraph :=
  let fuel := S (length pm) in
  _ ← _validate_provider_cycles fuel edges pm;
  _ ← _validate_scope_paths fuel edges pm;
  provider_order ← _provider_order fuel edges (order c) plans;
  final_modules ← rmap (final_module plans pm) (order c);
  Ok {| shape := {| shape_root := root; shape_modules := final_modules |};
        providers := pm; visibility := v; provider_order := provider_order |}.

Lemma finish_split collect c root :
  _finish collect c root =
  (x ← prepare collect c root; let '(plans, v, pm, edges) := x in checked c root plans v pm edges).
Proof.
  unfold _finish, prepare.
  destruct (rfold (plan_module (nodes c)) ([], []) (order c)) as [lp|]; r_simpl; [|done].
  destruct (add_fallbacks collect c root lp) as [[local_refs plans]|]; r_simpl; [|done].
  destruct (_compile_visibility _ _ _) as [v|]; r_simpl; [|done].
  destruct (canonical_all _ _) as [cache|]; r_simpl; [|done].
  destruct (compile_plans _ _ _ _ _ _) as [pm|]; r_simpl; [|done].
  by destruct (_provider_edges pm v) as [edges|]; r_simpl.
Qed.

Lemma prepare_ok collect c root plans v pm edges :
  NoDup (order c) → prepare collect c root = Ok (plans, v, pm, edges) →
  ∃ local_refs cache, prepared c local_refs plans v cache pm edges.
Proof.
  intros Hnd Hrun. unfold prepare in Hrun. apply result_bind_ok in Hrun as (lp & Hlp & Hrun).
  destruct (plan_modules_ok _ _ _ Hnd Hlp) as [Hpl Hk].
  apply result_bind_ok in Hrun as ([local_refs plans'] & Hfb & Hrun).
  destruct (add_fallbacks_planned _ _ _ _ _ Hpl Hfb) as [Hpl' Hk'].
  assert (local_ok (local_refs, plans')) as Hloc.
  { eapply add_fallbacks_local; [|exact Hfb]. refine (rfold_inv local_ok _ _ _ _ _ _ Hlp);
      [intros ? ? ? Ht; discriminate Ht|intros ? ? ? _; apply plan_module_local]. }
  apply result_bind_ok in Hrun as (v' & Hv & Hrun). apply result_bind_ok in Hrun as (cache & Hcache & Hrun).
  destruct (canonical_all_ok _ _ _ Hcache) as [Hok _].
  apply result_bind_ok in Hrun as (pm' & Hpm & Hrun). destruct (collect_ok plans') as (Hc1 & Hc2 & Hc3).
  assert (∀ r p, dict_get (collect_providers plans') r = Some p →
    pp_key p = r ∧ pp_scope p = declared_scope (pp_declaration p)) as Hfresh.
  { intros r p Hp. destruct (Hc3 r p Hp) as [Hkey Hin]. split; [done|].
    apply (all_plans_fresh _ _ _ Hpl' Hin). }
  destruct (compile_plans_ok _ _ _ _ _ _ Hc1 Hok Hfresh _ Hpm) as [Hkeys Hplan].
  pose proof (compile_plans_recipe _ _ _ _ _ _ Hc1 _ Hpm) as Hrecipe.
  apply result_bind_ok in Hrun as (edges' & Hed & Hrun). injection Hrun as -> -> -> ->.
  simpl in Hk'. rewrite Hk in Hk'. exists local_refs, cache. by constructor.
Qed.

Lemma finish_ok collect c root g :
  NoDup (order c) → _finish collect c root = Ok g →
  ∃ local_refs plans cache edges, finished c root g local_refs plans cache edges.
Proof.
  intros Hnd Hrun. rewrite finish_split in Hrun.
  apply result_bind_ok in Hrun as ([[[plans v] pm] edges] & Hpre & Hrun).
  destruct (prepare_ok _ _ _ _ _ _ _ Hnd Hpre) as (local_refs & cache & Hp). unfold checked in Hrun.
  apply result_bind_ok in Hrun as ([] & Hcy & Hrun). apply result_bind_ok in Hrun as ([] & Hsc & Hrun).
  apply result_bind_ok in Hrun as (ord & Hord & Hrun). apply result_bind_ok in Hrun as (mods & Hmods & Hrun).
  injection Hrun as <-. exists local_refs, plans, cache, edges. by constructor.
Qed.

Context (c : _Compiler) (local_refs : local_refs_t) (plans : module_plans_t) (v : visibility_t).
Context (cache : cache_t) (pm : provider_map_t) (edges : edges_t).
Context (Hfin : prepared c local_refs plans v cache pm edges).

Lemma finished_keys : NoDup pm.*1.
Proof. rewrite (fi_keys _ _ _ _ _ _ _ Hfin). apply collect_ok. Qed.

(** Every plan of the graph, with the plan it started as. *)
Lemma finished_plan r p :
  dict_get pm r = Some p →
  ∃ p0, dict_get (collect_providers plans) r = Some p0 ∧ fresh_plan (ref_module_id r) p0 ∧
    compiled_from local_refs plans (order c) v cache (collect_providers plans) r p0 p ∧
    built_as pm p.
Proof.
  intros Hp. assert (is_Some (dict_get (collect_providers plans) r)) as [p0 Hp0].
  { rewrite dict_get_is_Some, <- (fi_keys _ _ _ _ _ _ _ Hfin), <- dict_get_is_Some. by exists p. }
  exists p0. destruct (fi_plan _ _ _ _ _ _ _ Hfin r p0 Hp0) as (p' & Hp' & Hc & Hb).
  rewrite Hp in Hp'. injection Hp' as <-. split_and!; try done.
  destruct (collect_ok plans) as (_ & _ & H3). destruct (H3 r p0 Hp0) as [<- Hin].
  by apply (all_plans_fresh (nodes c) (local_refs, plans) p0 (fi_planned _ _ _ _ _ _ _ Hfin)).
Qed.

(** A canonical provider is a provider of the graph and no alias. *)
Lemma cache_canonical r x :
  cache !! r = Some x → ∃ p, dict_get pm x = Some p ∧ is_alias (pp_declaration p) = false.
Proof.
  intros Hx. destruct (fi_cache _ _ _ _ _ _ _ Hfin r x Hx) as [_ (p0 & Hp0 & Ha)].
  destruct (fi_plan _ _ _ _ _ _ _ Hfin x p0 Hp0) as (p & Hp & (_ & Hd & _) & _).
  exists p. split; [done|]. by rewrite Hd.
Qed.

Lemma visible_ref_sees m token r :
  _visible_ref m token v local_refs plans (order c) = Ok r →
  sees local_refs plans (order c) m token r.
Proof.
  unfold _visible_ref. destruct (v !! (m, token)) as [x|] eqn:Hx.
  - intros [= ->]. by eapply compile_visibility_sees; [apply (fi_visibility _ _ _ _ _ _ _ Hfin)|].
  - apply resolve_visible_sees.
Qed.

(** A compiled dependency is what its token is visible as, made canonical. *)
Lemma finished_dependency r p d x :
  dict_get pm r = Some p → d ∈ pp_dependencies p → dep_provider_ref d = Some x →
  ∃ token y, dep_token d = Some token ∧
    sees local_refs plans (order c) (ref_module_id r) token y ∧ cache !! y = Some x.
Proof.
  intros Hp Hd Hx. destruct (finished_plan r p Hp) as (p0 & _ & _ & (_ & _ & Hdeps & _) & _).
  apply rmap_ok_iff in Hdeps. apply list_elem_of_lookup in Hd as [i Hi].
  destruct (Forall2_lookup_r _ _ _ _ _ Hdeps Hi) as (d0 & _ & Hr). unfold resolve_dependency in Hr.
  apply result_bind_ok in Hr as (o & Ho & Hr). injection Hr as <-. simpl in *. subst o.
  destruct (dep_token d0) as [token|]; [|done]. destruct (intrinsic token); [done|].
  apply result_bind_ok in Ho as (y & Hy & Ho). apply result_bind_ok in Ho as (z & Hz & Ho).
  injection Ho as ->. unfold cached in Hz. destruct (cache !! y) as [z|] eqn:Hc; [|done].
  injection Hz as ->. exists token, y. split_and!; [done|by apply visible_ref_sees|done].
Qed.

Lemma edges_ok :
  edges.*1 = pm.*1 ∧
  ∀ r p, dict_get pm r = Some p →
    plan_edges pm v (r, p) = Ok (r, edges_from edges r).
Proof.
  pose proof (fi_edges _ _ _ _ _ _ _ Hfin) as He. unfold _provider_edges in He. apply rmap_ok_iff in He.
  assert (∀ items es, Forall2 (λ x y, plan_edges pm v x = Ok y) items es →
    es.*1 = items.*1 ∧ (NoDup items.*1 → ∀ r p, (r, p) ∈ items →
      ∃ ds, plan_edges pm v (r, p) = Ok (r, ds) ∧ dict_get es r = Some ds)) as Hgen.
  { clear. induction 1 as [|[r p] [r' ds] items es Hx Hrest IH].
    - split; [done|]. intros _ r p Hr. by apply elem_of_nil in Hr.
    - assert (r' = r) as ->.
      { simpl in Hx. destruct (pp_declaration p); repeat (apply result_bind_ok in Hx as (? & _ & Hx));
          by simplify_eq. }
      destruct IH as [Hk IH]. split; [by rewrite !fmap_cons, Hk|]. rewrite fmap_cons. simpl.
      intros [Hr Hnd]%NoDup_cons x q [[= -> ->]|Hq]%elem_of_cons.
      + exists ds. split; [done|]. by rewrite dict_get_cons, decide_True.
      + destruct (IH Hnd x q Hq) as (es' & He1 & He2). exists es'. split; [done|].
        rewrite dict_get_cons, decide_False; [done|]. intros ->. apply Hr.
        by apply (list_elem_of_fmap_2 fst _ (x, q)). }
  destruct (Hgen _ _ He) as [Hk Hall]. split; [done|]. intros r p Hp.
  destruct (Hall finished_keys r p (dict_get_elem _ _ _ Hp)) as (ds & Hds & Hg).
  unfold edges_from. by rewrite Hg.
Qed.

Lemma plan_edges_closed r p ds d :
  dict_get pm r = Some p → plan_edges pm v (r, p) = Ok (r, ds) →
  d ∈ ds → d ∈ pm.*1.
Proof.
  intros Hp Hds Hd. rewrite <- dict_get_is_Some.
  assert (∃ y, cache !! y = Some d) as [y Hy].
  { simpl in Hds. destruct (is_alias (pp_declaration p)) eqn:Ha.
    - destruct (pp_declaration p) as [| | |t target]; try done.
      apply result_bind_ok in Hds as (x & _ & Hds). apply result_bind_ok in Hds as (q & Hq & Hds).
      injection Hds as <-. apply list_elem_of_singleton in Hd as ->. unfold dict_item in Hq.
      destruct (dict_get pm x) as [q'|] eqn:Hx; [|done]. injection Hq as ->.
      destruct (finished_plan x q Hx) as (q0 & _ & _ & (_ & _ & _ & Hc & _) & _). eauto.
    - assert (ds = omap dep_provider_ref (pp_dependencies p)) as -> by (by destruct (pp_declaration p); simplify_eq).
      apply list_elem_of_omap in Hd as (dep & Hdep & Hx).
      destruct (finished_dependency r p dep d Hp Hdep Hx) as (t & y & _ & _ & Hy). eauto. }
  destruct (cache_canonical y d Hy) as (q & Hq & _). by exists q.
Qed.

Lemma edges_closed r d : d ∈ edges_from edges r → r ∈ pm.*1 ∧ d ∈ pm.*1.
Proof.
  intros Hd. destruct edges_ok as [Hk He].
  assert (r ∈ pm.*1) as Hr.
  { rewrite <- Hk, <- dict_get_is_Some. unfold edges_from in Hd. destruct (dict_get edges r) as [ds|];
      [by eexists|by apply elem_of_nil in Hd]. }
  split; [done|]. rewrite <- dict_get_is_Some in Hr. destruct Hr as [p Hp].
  eapply plan_edges_closed; [exact Hp|by apply He|done].
Qed.

(** A dependency-first order of exactly the providers of the graph. *)
Lemma finished_topo fuel :
  _validate_provider_cycles fuel edges pm = Ok tt →
  ∃ l, NoDup l ∧ topo (edges_from edges) l ∧ (∀ r, r ∈ l ↔ r ∈ pm.*1) ∧
    (length l <= length pm)%nat.
Proof.
  intros Hcy. destruct (cycles_ok _ _ _ Hcy) as (l & Hnd & Ht & Hall).
  destruct edges_ok as [Hk _]. exists (filter (λ r, r ∈ pm.*1) l).
  assert (∀ r, r ∈ filter (λ r, r ∈ pm.*1) l ↔ r ∈ pm.*1) as Hiff.
  { intros r. rewrite list_elem_of_filter. split; [tauto|]. intros Hr. split; [done|].
    apply Hall. by rewrite Hk. }
  split_and!; [by apply NoDup_filter| |done|].
  - apply topo_filter; [|done]. intros x d _ Hd. by apply edges_closed in Hd as [_ ?].
  - rewrite <- (length_fmap fst pm). apply submseteq_length.
    apply NoDup_submseteq; [by apply NoDup_filter|]. intros x. apply Hiff.
Qed.

End finished.
