(* ===== verification/DiWalkFacts.v ===== *)
(** * Dependency injection: the module walk

    What [_ensure_import] and [_visit] keep: modules are entered once, and a
    module is put in the order after everything it imports. *)

From Stdlib Require Import ZArith Lia.
From stdpp Require Import base tactics list gmap strings.
From S2P Require Import Prelude DiDeclarations DiCompiler DiFinish DiGraphFacts.
Local Open Scope Z_scope.

Definition node_imports_of (c : _Compiler) (m : ModuleId) : list ModuleId :=
  default [] (node_imports <$> nodes c !! m).

(** The import a declaration stands for, and the specification a module is
    entered with. *)
Definition resolved (import_resolver : option (ModuleImport → result di_error ModuleImport))
    (i : ModuleImport) : result di_error ModuleImport :=
  match import_resolver with None => Ok i | Some f => f i end.

Definition final_spec `{Reflection}
    (spec_transformer : option (ModuleId → ModuleSpec → result di_error ModuleSpec))
    (m : ModuleId) (spec : ModuleSpec) : result di_error ModuleSpec :=
  s ← _normalize_module_providers spec;
  match spec_transformer with
  | None => Ok s
  | Some f => s ← f m s; _normalize_module_providers s
  end.

Section walk.
Context `{Reflection}.
Context (import_resolver : option (ModuleImport → result di_error ModuleImport)).
Context (spec_transformer : option (ModuleId → ModuleSpec → result di_error ModuleSpec)).

(** A property of imports that the imports of every entered module have too, and
    a property of entered modules. *)
Context (I : ModuleImport → Prop) (P : ModuleId → ModuleSpec → Prop).

Definition closed_imports : Prop :=
  (∀ i x s, I i → resolved import_resolver i = Ok (ImportClass x) →
     final_spec spec_transformer {| mid_module := x; mid_key := None |}
       (default ModuleSpec_empty (module_metadata x)) = Ok s →
     P {| mid_module := x; mid_key := None |} s) ∧
  (∀ i d s0 s, I i → resolved import_resolver i = Ok (ImportDeferred d) → materialized_spec d = Ok s0 →
     final_spec spec_transformer {| mid_module := dm_module d; mid_key := Some (dm_key d) |} s0 = Ok s →
     P {| mid_module := dm_module d; mid_key := Some (dm_key d) |} s) ∧
  ∀ m s, P m s → Forall I (spec_imports s).

(** Modules that are done are in the order with their imports before them, and
    a module has a node exactly if its class or descriptor was entered. *)
Record walk_inv (c : _Compiler) : Prop := {
  wi_nodup : NoDup (order c);
  wi_done : ∀ m, states c !! m = Some DONE ↔ m ∈ order c;
  wi_topo : topo (node_imports_of c) (order c);
  wi_complete : ∀ m, m ∈ order c → ∃ n, nodes c !! m = Some n ∧
    length (node_imports n) = length (spec_imports (node_spec n));
  wi_node : ∀ m, is_Some (states c !! m) → is_Some (nodes c !! m);
  wi_idle : ∀ m n, nodes c !! m = Some n → states c !! m = None → node_imports n = [];
  wi_static : ∀ m, is_Some (nodes c !! m) → mid_key m = None → is_Some (static_ids c !! mid_module m);
  wi_dynamic : ∀ m k, is_Some (nodes c !! m) → mid_key m = Some k →
    is_Some (dynamic_ids c !! (mid_module m, k));
  wi_descriptor : ∀ x d, dynamic_ids c !! x = Some d → is_Some (descriptor_ids c !! dm_identity d);
  wi_static_node : ∀ x m, static_ids c !! x = Some m → is_Some (nodes c !! m);
  wi_descriptor_node : ∀ i m, descriptor_ids c !! i = Some m → is_Some (nodes c !! m);
  wi_spec : ∀ m n, nodes c !! m = Some n → P m (node_spec n)
}.

Lemma walk_inv_new : walk_inv _Compiler_new.
Proof.
  assert (∀ {K A} `{Countable K} (k : K), is_Some ((∅ : gmap K A) !! k) → False) as Hno.
  { intros K A ? ? k [x Hx]. by rewrite lookup_empty in Hx. }
  constructor; simpl.
  - constructor.
  - intros m. rewrite lookup_empty. split; [done|]. by intros ?%elem_of_nil.
  - apply topo_nil.
  - intros m Hm. by apply elem_of_nil in Hm.
  - intros m Hm. by destruct (Hno _ _ _ _ _ Hm).
  - intros m n Hm. by rewrite lookup_empty in Hm.
  - intros m Hm. by destruct (Hno _ _ _ _ _ Hm).
  - intros m k Hm. by destruct (Hno _ _ _ _ _ Hm).
  - intros x d Hx. by rewrite lookup_empty in Hx.
  - intros x d Hx. by rewrite lookup_empty in Hx.
  - intros x d Hx. by rewrite lookup_empty in Hx.
  - intros m n Hm. by rewrite lookup_empty in Hm.
Qed.


(** Entering a module: the walk goes on where it was, with a node more. *)
Definition entered (c c' : _Compiler) : Prop :=
  walk_inv c' ∧ states c' = states c ∧ order c' = order c ∧
  ∀ m n, nodes c !! m = Some n → nodes c' !! m = Some n.

Lemma entered_refl c : walk_inv c → entered c c.
Proof. done. Qed.

Lemma topo_ext {A} `{EqDecision A} (E F : A → list A) l :
  (∀ x, x ∈ l → F x = E x) → topo E l → topo F l.
Proof. intros Hext Ht pre x post Heq d. rewrite Hext by (rewrite Heq; set_solver). by eapply Ht. Qed.

Lemma add_node_run m module spec c r c' :
  add_node spec_transformer m module spec c = (r, c') →
  (∃ e, r = Err e ∧ final_spec spec_transformer m spec = Err e) ∨
  ∃ spec', r = Ok m ∧ final_spec spec_transformer m spec = Ok spec' ∧
    c' = set_nodes <[m := {| node_module_id := m; node_module := module; node_spec := spec';
                             node_imports := [] |}]> c.
Proof.
  unfold add_node, final_spec. rewrite run_bind_lift.
  destruct (_normalize_module_providers spec) as [s|e]; [|intros [= <- <-]; eauto]. r_simpl.
  destruct spec_transformer as [f|]; autorewrite with mrun; [|intros [= <- <-]; eauto].
  destruct (f m s) as [s1|e]; [|intros [= <- <-]; eauto]. r_simpl. rewrite run_bind_lift.
  destruct (_normalize_module_providers s1) as [s2|e]; [|intros [= <- <-]; eauto].
  autorewrite with mrun. intros [= <- <-]. eauto.
Qed.

(** A node for a module that has none, with its identity registered. *)
Lemma entered_node c c1 m module spec :
  walk_inv c → P m spec → nodes c !! m = None → nodes c1 = nodes c → states c1 = states c → order c1 = order c →
  (∀ x y, static_ids c !! x = Some y → static_ids c1 !! x = Some y) →
  (∀ x y, dynamic_ids c !! x = Some y → is_Some (dynamic_ids c1 !! x)) →
  (mid_key m = None → is_Some (static_ids c1 !! mid_module m)) →
  (∀ k, mid_key m = Some k → is_Some (dynamic_ids c1 !! (mid_module m, k))) →
  (∀ x d, dynamic_ids c1 !! x = Some d → is_Some (descriptor_ids c1 !! dm_identity d)) →
  (∀ x y, static_ids c1 !! x = Some y → y = m ∨ static_ids c !! x = Some y) →
  (∀ x y, descriptor_ids c1 !! x = Some y → y = m ∨ descriptor_ids c !! x = Some y) →
  entered c (set_nodes <[m := {| node_module_id := m; node_module := module; node_spec := spec;
                                 node_imports := [] |}]> c1).
Proof.
  intros Hw Hspec Hm Hn Hs Ho H1 H2 H3 H4 H5 H6 H7.
  assert (∀ x n, nodes c !! x = Some n → nodes (set_nodes <[m := {| node_module_id := m;
    node_module := module; node_spec := spec; node_imports := [] |}]> c1) !! x = Some n) as Hmono.
  { intros x n Hx. simpl. rewrite Hn, lookup_insert_ne; [done|]. intros <-. congruence. }
  assert (∀ x, x ∈ order c → is_Some (nodes c !! x)) as Hord.
  { intros x Hx. apply (wi_node _ Hw). exists DONE. by apply (wi_done _ Hw). }
  split_and!; [|done|done|done]. constructor; cbn [set_nodes nodes states order static_ids dynamic_ids descriptor_ids];
    rewrite ?Hs, ?Ho, ?Hn.
  - apply Hw.
  - apply Hw.
  - eapply topo_ext; [|apply (wi_topo _ Hw)]. intros x Hx. destruct (Hord x Hx) as [n Hxn].
    unfold node_imports_of. by rewrite (Hmono x n Hxn), Hxn.
  - intros x Hx. destruct (wi_complete _ Hw x Hx) as (n & Hxn & Hlen). exists n.
    rewrite <- Hn. split; [by apply Hmono|done].
  - intros x Hx. destruct (wi_node _ Hw x Hx) as [n Hxn]. exists n. rewrite <- Hn. by apply Hmono.
  - intros x n. rewrite lookup_insert_Some. intros [[<- <-]|[_ Hx]]; [done|]. by apply (wi_idle _ Hw).
  - intros x. rewrite lookup_insert_is_Some. intros [<-|[_ Hx]] Hk; [by apply H3|].
    destruct (wi_static _ Hw x Hx Hk) as [y Hy]. by exists y; apply H1.
  - intros x k. rewrite lookup_insert_is_Some. intros [<-|[_ Hx]] Hk; [by apply H4|].
    destruct (wi_dynamic _ Hw x k Hx Hk) as [y Hy]. by eapply H2.
  - done.
  - intros x y Hx. rewrite lookup_insert_is_Some. destruct (decide (m = y)); [by left|right].
    destruct (H6 x y Hx) as [->|Hy]; [done|]. split; [done|]. by eapply (wi_static_node _ Hw).
  - intros x y Hx. rewrite lookup_insert_is_Some. destruct (decide (m = y)); [by left|right].
    destruct (H7 x y Hx) as [->|Hy]; [done|]. split; [done|]. by eapply (wi_descriptor_node _ Hw).
  - intros x n. rewrite lookup_insert_Some. intros [[<- <-]|[_ Hx]]; [done|]. by apply (wi_spec _ Hw).
Qed.

Lemma ensure_static_ok i module c m c' :
  closed_imports → I i → resolved import_resolver i = Ok (ImportClass module) → walk_inv c → _ensure_static spec_transformer module c = (Ok m, c') →
  entered c c' ∧ is_Some (nodes c' !! m).
Proof.
  intros Hcl Hi Hres Hw Hrun. unfold _ensure_static in Hrun. autorewrite with mrun in Hrun.
  destruct (static_ids c !! module) as [m0|] eqn:Hst.
  { injection Hrun as <- <-. split; [done|]. by eapply (wi_static_node _ Hw). }
  autorewrite with mrun in Hrun. destruct (existsb _ _); [done|]. autorewrite with mrun in Hrun.
  destruct (_validate_module_constructor module) as [[]|]; [|done]. autorewrite with mrun in Hrun.
  apply add_node_run in Hrun as [(e & [=] & _)|(spec & [= ->] & Hspec & ->)]. split.
  - apply entered_node; simpl; [done|eapply (proj1 Hcl); eassumption| |done|done|done|..].
    + destruct (nodes c !! _) as [n|] eqn:Hn; [|done].
      destruct (wi_static _ Hw {| mid_module := module; mid_key := None |}) as [y Hy]; [by exists n|done|].
      simpl in Hy. congruence.
    + intros x y Hx. rewrite lookup_insert_ne; [done|]. intros <-. congruence.
    + intros x y Hx. by exists y.
    + intros _. rewrite lookup_insert_eq. by eexists.
    + done.
    + apply (wi_descriptor _ Hw).
    + intros x y. rewrite lookup_insert_Some. intros [[_ <-]|[_ Hx]]; auto.
    + auto.
  - simpl. rewrite lookup_insert_eq. by eexists.
Qed.

Lemma ensure_dynamic_ok i d c m c' :
  closed_imports → I i → resolved import_resolver i = Ok (ImportDeferred d) → walk_inv c → _ensure_dynamic spec_transformer d c = (Ok m, c') →
  entered c c' ∧ is_Some (nodes c' !! m).
Proof.
  intros Hcl Hi Hres Hw Hrun. unfold _ensure_dynamic in Hrun. autorewrite with mrun in Hrun.
  destruct (match dynamic_ids c !! _ with Some _ => _ | None => _ end) eqn:Hconf; [done|].
  destruct (descriptor_ids c !! dm_identity d) as [m0|] eqn:Hid.
  { injection Hrun as <- <-. split; [done|]. by eapply (wi_descriptor_node _ Hw). }
  autorewrite with mrun in Hrun. destruct (bool_decide _); [done|]. autorewrite with mrun in Hrun.
  destruct (_validate_module_constructor _) as [[]|]; [|done]. autorewrite with mrun in Hrun.
  destruct (materialized_spec d) as [spec0|] eqn:Hmat; [|done].
  apply add_node_run in Hrun as [(e & [=] & _)|(spec & [= ->] & Hspec & ->)].
  assert (dynamic_ids c !! (dm_module d, dm_key d) = None) as Hdyn.
  { destruct (dynamic_ids c !! _) as [e|] eqn:He; [|done]. bool_hyps.
    destruct (wi_descriptor _ Hw _ _ He) as [y Hy]. congruence. }
  split.
  - apply entered_node; simpl; [done|eapply (proj1 (proj2 Hcl)); eassumption| |done|done|done|done|..].
    + destruct (nodes c !! _) as [n|] eqn:Hn; [|done].
      destruct (wi_dynamic _ Hw {| mid_module := dm_module d; mid_key := Some (dm_key d) |} (dm_key d))
        as [y Hy]; [by exists n|done|]. simpl in Hy. congruence.
    + intros x y Hx. rewrite lookup_insert_ne; [by exists y|]. intros <-. congruence.
    + done.
    + intros k [= <-]. rewrite lookup_insert_eq. by eexists.
    + intros x y. rewrite lookup_insert_Some. intros [[_ <-]|[_ Hx]].
      * rewrite lookup_insert_eq. by eexists.
      * apply lookup_insert_is_Some. destruct (decide (dm_identity d = dm_identity y)); [by left|right].
        split; [done|]. by eapply (wi_descriptor _ Hw).
    + auto.
    + intros x y. rewrite lookup_insert_Some. intros [[_ <-]|[_ Hx]]; auto.
  - simpl. rewrite lookup_insert_eq. by eexists.
Qed.

Lemma ensure_import_ok imported c m c' :
  closed_imports → I imported → walk_inv c →
  _ensure_import import_resolver spec_transformer imported c = (Ok m, c') →
  entered c c' ∧ is_Some (nodes c' !! m).
Proof.
  intros Hcl Hi Hw Hrun. unfold _ensure_import in Hrun.
  assert (∀ i, resolved import_resolver imported = Ok i →
            match i with ImportDeferred d => _ensure_dynamic spec_transformer d
                       | ImportClass x => _ensure_static spec_transformer x end c = (Ok m, c') →
            entered c c' ∧ is_Some (nodes c' !! m)) as Hcases.
  { intros [x|d] Hres; [by eapply ensure_static_ok|by eapply ensure_dynamic_ok]. }
  unfold resolved in Hcases. destruct import_resolver as [f|]; autorewrite with mrun in Hrun; [|by eapply Hcases].
  destruct (f imported) as [i|]; [|done]. by eapply Hcases.
Qed.

(** ** Visiting *)

(** What a visit leaves: it keeps the modules that were started, up to [skip],
    puts modules at the end of the order, and leaves no module half done. *)
Definition walked (skip : option ModuleId) (c c' : _Compiler) : Prop :=
  walk_inv c' ∧ order c `prefix_of` order c' ∧
  (∀ m, states c' !! m = Some VISITING ↔ states c !! m = Some VISITING) ∧
  (∀ m, states c !! m = Some DONE → states c' !! m = Some DONE) ∧
  (∀ m, Some m ≠ skip → is_Some (states c !! m) → nodes c' !! m = nodes c !! m) ∧
  ∀ m, is_Some (nodes c !! m) → is_Some (nodes c' !! m).

Lemma walked_trans skip c1 c2 c3 : walked skip c1 c2 → walked skip c2 c3 → walked skip c1 c3.
Proof.
  intros (Hw & Hp & Hv & Hd & Hn & Hm) (Hw' & Hp' & Hv' & Hd' & Hn' & Hm').
  split_and!; [done|by etrans| |auto| |auto].
  - intros m. by rewrite Hv', Hv.
  - intros m Hne Hs. rewrite Hn', Hn; try done.
    destruct Hs as [[] Hs]; [exists VISITING; by apply Hv|exists DONE; by apply Hd].
Qed.

Lemma walked_weaken skip c c' : walked None c c' → walked skip c c'.
Proof. intros (H1 & H2 & H3 & H4 & H5 & H6). split_and!; try done. intros m _. by apply H5. Qed.

Lemma entered_walked skip c c' : walk_inv c → entered c c' → walked skip c c'.
Proof.
  intros Hw (Hw' & Hs & Ho & Hn). split_and!; rewrite ?Hs, ?Ho; try done.
  - intros m _ Hm. destruct (wi_node _ Hw m Hm) as [n Hx]. by rewrite (Hn m n Hx), Hx.
  - intros m [n Hx]. exists n. by apply Hn.
Qed.

Lemma append_import_walked m child n c :
  walk_inv c → states c !! m = Some VISITING → nodes c !! m = Some n →
  let c' := set_nodes (append_import m child) c in
  walked (Some m) c c' ∧
  nodes c' !! m = Some {| node_module_id := node_module_id n; node_module := node_module n;
                          node_spec := node_spec n; node_imports := node_imports n ++ [child] |}.
Proof.
  intros Hw Hs Hn c'.
  assert (∀ x, x ≠ m → nodes c' !! x = nodes c !! x) as Hother.
  { intros x Hx. unfold c', append_import. simpl. by rewrite lookup_alter_ne. }
  assert (∀ x, is_Some (nodes c' !! x) ↔ is_Some (nodes c !! x)) as Hsome.
  { intros x. unfold c', append_import. simpl. apply lookup_alter_is_Some. }
  assert (m ∉ order c) as Hm by (rewrite <- (wi_done _ Hw), Hs; done).
  assert (∀ x, x ∈ order c → x ≠ m) as Hne by (by intros x Hx ->).
  split; [|unfold c', append_import; simpl; by rewrite lookup_alter_eq, Hn].
  split_and!; try done.
  - constructor; change (states c') with (states c); change (order c') with (order c);
      change (static_ids c') with (static_ids c); change (dynamic_ids c') with (dynamic_ids c);
      change (descriptor_ids c') with (descriptor_ids c); try apply Hw.
    + eapply topo_ext; [|apply (wi_topo _ Hw)]. intros x Hx. unfold node_imports_of. by rewrite Hother by auto.
    + intros x Hx. rewrite Hother by auto. by apply (wi_complete _ Hw).
    + intros x Hx. apply Hsome. by apply (wi_node _ Hw).
    + intros x n0 Hx Hst. rewrite Hother in Hx by congruence. by eapply (wi_idle _ Hw).
    + intros x Hx. apply (wi_static _ Hw). by apply Hsome.
    + intros x k Hx. apply (wi_dynamic _ Hw). by apply Hsome.
    + intros x y Hx. apply Hsome. by eapply (wi_static_node _ Hw).
    + intros x y Hx. apply Hsome. by eapply (wi_descriptor_node _ Hw).
    + intros x n0 Hx. destruct (decide (x = m)) as [->|Hxm]; [|rewrite Hother in Hx by done; by apply (wi_spec _ Hw)].
      unfold c', append_import in Hx. simpl in Hx. rewrite lookup_alter_eq, Hn in Hx. injection Hx as <-.
      exact (wi_spec _ Hw m n Hn).
  - intros x Hx _. apply Hother. congruence.
  - intros x Hx. by apply Hsome.
Qed.

Abbreviation ensure := (_ensure_import import_resolver spec_transformer).
Abbreviation visit := (_visit import_resolver spec_transformer).

Definition visits (fuel : nat) : Prop := ∀ child stack c c',
  walk_inv c → is_Some (nodes c !! child) → visit fuel child stack c = (Ok tt, c') →
  walked None c c' ∧ child ∈ order c'.

Lemma visit_loop fuel m stack imps c c' n :
  closed_imports → visits fuel → Forall I imps → walk_inv c → states c !! m = Some VISITING →
  nodes c !! m = Some n → (∀ x, x ∈ node_imports n → x ∈ order c) →
  mfor (λ imported, child_id ← ensure imported;
                    modify (set_nodes (append_import m child_id));;
                    visit fuel child_id stack) imps c = (Ok tt, c') →
  walked (Some m) c c' ∧ ∃ n', nodes c' !! m = Some n' ∧ node_spec n' = node_spec n ∧
    (∀ x, x ∈ node_imports n' → x ∈ order c') ∧
    length (node_imports n') = (length (node_imports n) + length imps)%nat.
Proof.
  intros Hcl IH. revert c n. induction imps as [|imp imps IHi]; intros c n Hi Hw Hs Hn Hin Hrun; simpl in Hrun.
  { injection Hrun as <-. split; [by split_and!|]. exists n. by split_and!. }
  apply Forall_cons in Hi as [Himp Hi]. apply M_bind_ok in Hrun as ([] & c3 & Hstep & Hrun).
  apply M_bind_ok in Hstep as (child & c1 & Hens & Hstep). autorewrite with mrun in Hstep.
  destruct (ensure_import_ok _ _ _ _ Hcl Himp Hw Hens) as [Hent Hchild].
  pose proof (entered_walked (Some m) c c1 Hw Hent) as Hw1. destruct Hent as (Hwi1 & Hst1 & Ho1 & Hn1).
  specialize (Hn1 m n Hn). rewrite <- Hst1 in Hs.
  destruct (append_import_walked m child n c1 Hwi1 Hs Hn1) as [Hw2 Hn2].
  set (c2 := set_nodes (append_import m child) c1) in *.
  destruct (IH child stack c2 c3 (proj1 Hw2) ltac:(by apply Hw2) Hstep) as [Hw3 Hc3].
  assert (states c2 !! m = Some VISITING) as Hs2 by done.
  assert (states c3 !! m = Some VISITING) as Hs3 by (by apply Hw3).
  assert (nodes c3 !! m = nodes c2 !! m) as Hn3 by (apply Hw3; [done|by eexists]).
  rewrite Hn2 in Hn3.
  assert (walked (Some m) c c3) as Hw03.
  { eapply walked_trans; [exact Hw1|]. eapply walked_trans; [exact Hw2|]. by apply walked_weaken. }
  destruct (IHi c3 _ Hi (proj1 Hw3) Hs3 Hn3) as (Hw4 & n' & Hn' & Hspec & Hord & Hlen).
  - simpl. intros x Hx. apply elem_of_app in Hx as [Hx|Hx]; [|by apply list_elem_of_singleton in Hx as ->].
    destruct Hw03 as (_ & Hp & _). eapply elem_of_prefix; [|exact Hp]. auto.
  - done.
  - split; [by eapply walked_trans|]. exists n'. split_and!; try done.
    rewrite Hlen. simpl. rewrite length_app. simpl. lia.
Qed.

Lemma start_visit_inv m c :
  walk_inv c → states c !! m = None → is_Some (nodes c !! m) → walk_inv (set_visit m VISITING c).
Proof.
  intros Hw Hm Hn. constructor; simpl; try apply Hw.
  - intros x. destruct (decide (x = m)) as [->|]; [|rewrite lookup_insert_ne by done; apply Hw].
    rewrite lookup_insert_eq, <- (wi_done _ Hw), Hm. done.
  - intros x. rewrite lookup_insert_is_Some. intros [<-|[_ Hx]]; [done|]. by apply (wi_node _ Hw).
  - intros x n Hx. rewrite lookup_insert_None. intros [Hs _]. by eapply (wi_idle _ Hw).
Qed.

Lemma finish_visit_inv m n c :
  walk_inv c → states c !! m = Some VISITING → nodes c !! m = Some n →
  (∀ x, x ∈ node_imports n → x ∈ order c) → length (node_imports n) = length (spec_imports (node_spec n)) →
  walk_inv (add_order m (set_visit m DONE c)).
Proof.
  intros Hw Hs Hn Hin Hlen.
  assert (m ∉ order c) as Hm by (rewrite <- (wi_done _ Hw), Hs; done).
  constructor; simpl; try apply Hw.
  - apply NoDup_app. split_and!; [apply Hw| |apply NoDup_singleton]. set_solver.
  - intros x. destruct (decide (x = m)) as [->|].
    + rewrite lookup_insert_eq. set_solver.
    + rewrite lookup_insert_ne, (wi_done _ Hw) by done. set_solver.
  - apply topo_snoc; [apply (wi_topo _ Hw)|]. intros d. unfold node_imports_of. simpl. rewrite Hn. apply Hin.
  - intros x Hx. apply elem_of_app in Hx as [Hx|Hx]; [by apply (wi_complete _ Hw)|].
    apply list_elem_of_singleton in Hx as ->. eauto.
  - intros x. rewrite lookup_insert_is_Some. intros [<-|[_ Hx]]; [by eexists|]. by apply (wi_node _ Hw).
  - intros x n0 Hx. rewrite lookup_insert_None. intros [Hst _]. by eapply (wi_idle _ Hw).
Qed.

Lemma visit_ok fuel : closed_imports → visits fuel.
Proof.
  intros Hcl. induction fuel as [|fuel IH]; intros m stack c c' Hw Hnode Hrun; [done|]. cbn [_visit] in Hrun.
  autorewrite with mrun in Hrun. destruct (states c !! m) as [[]|] eqn:Hs; [done| |].
  { injection Hrun as <-. split; [by split_and!|]. by apply (wi_done _ Hw). }
  autorewrite with mrun in Hrun. destruct Hnode as [n Hn]. rewrite Hn in Hrun.
  set (c1 := set_visit m VISITING c) in *.
  assert (walk_inv c1) as Hw1 by (apply start_visit_inv; [done|done|by eexists]).
  assert (states c1 !! m = Some VISITING) as Hs1 by apply lookup_insert_eq.
  apply M_bind_ok in Hrun as ([] & c2 & Hloop & Hrun). autorewrite with mrun in Hrun. injection Hrun as <-.
  assert (∀ x, x ∈ node_imports n → x ∈ order c1) as Hnil.
  { rewrite (wi_idle _ Hw m n Hn Hs). intros x Hx. by apply elem_of_nil in Hx. }
  destruct (visit_loop _ _ _ _ _ _ n Hcl IH ltac:(by eapply (proj2 (proj2 Hcl)), (wi_spec _ Hw)) Hw1 Hs1 Hn Hnil Hloop)
    as ((Hw2 & Hp & Hv & Hd & Hk & Hm) & n' & Hn' & Hspec & Hin & Hlen).
  assert (states c2 !! m = Some VISITING) as Hs2 by (by apply Hv).
  rewrite (wi_idle _ Hw m n Hn Hs) in Hlen. simpl in Hlen.
  split; [|simpl; set_solver]. split_and!; simpl.
  - eapply finish_visit_inv; try done. by rewrite Hlen, Hspec.
  - by apply prefix_app_r.
  - intros x. destruct (decide (x = m)) as [->|Hne]; [by rewrite lookup_insert_eq, Hs|].
    rewrite lookup_insert_ne, Hv by done. unfold c1. simpl. by rewrite lookup_insert_ne.
  - intros x Hx. destruct (decide (x = m)) as [->|Hne]; [apply lookup_insert_eq|].
    rewrite lookup_insert_ne by done. apply Hd. unfold c1. simpl. by rewrite lookup_insert_ne.
  - intros x _ Hx. destruct (decide (x = m)) as [->|Hne]; [rewrite Hs in Hx; by destruct Hx|].
    rewrite (Hk x) by (try congruence; unfold c1; simpl; by rewrite lookup_insert_ne). done.
  - intros x Hx. by apply Hm.
Qed.

End walk.
