(* ===== verification/DiTermination.v ===== *)
(** * Dependency injection: the compiler ends

    No part of [_finish] runs out of the fuel it is given, and the module walk
    does not run out of fuel if the modules the application declares are
    finitely many and the fuel is more than their number. *)

From Stdlib Require Import ZArith Lia.
From stdpp Require Import base tactics list gmap strings.
From S2P Require Import Prelude DiDeclarations DiCompiler DiFinish DiGraphFacts DiFinishFacts.
From S2P Require Import DiPlanFacts DiWalkFacts.
Local Open Scope Z_scope.

(** ** Results that are not [RecursionError] *)

Definition safe {A} (r : result di_error A) : Prop := r ≠ Err RecursionError.

Lemma safe_ok {A} (a : A) : safe (Ok a).
Proof. done. Qed.
Lemma safe_bind {A B} (m : result di_error A) (f : A → result di_error B) :
  safe m → (∀ a, m = Ok a → safe (f a)) → safe (m ≫= f).
Proof. destruct m as [a|e]; intros Hm Hf; [by apply Hf|]. intros [= ->]. by apply Hm. Qed.
Lemma safe_err {A B} e : safe (Err e : result di_error A) → safe (Err e : result di_error B).
Proof. intros He [= ->]. by apply He. Qed.
Lemma safe_raise_if b e : e ≠ RecursionError → safe (raise_if b e).
Proof. intros He. destruct b; [|done]. intros [= ->]. done. Qed.
Lemma safe_rmap {A B} (f : A → result di_error B) l : (∀ x, safe (f x)) → safe (rmap f l).
Proof.
  intros Hf. induction l as [|x l IH]; simpl; [done|].
  apply safe_bind; [done|]. intros y _. by apply safe_bind.
Qed.
Lemma safe_rfold {A B} (f : B → A → result di_error B) b l :
  (∀ b x, safe (f b x)) → safe (rfold f b l).
Proof.
  intros Hf. revert b. induction l as [|x l IH]; intros b; simpl; [done|]. by apply safe_bind.
Qed.
Lemma safe_rfold_in {A} (f : A → result di_error unit) l :
  (∀ x, x ∈ l → safe (f x)) → safe (rfold (λ _ x, f x) tt l).
Proof.
  induction l as [|x l IH]; intros Hf; simpl; [done|].
  apply safe_bind; [apply Hf; left|]. intros [] _. apply IH. intros y Hy. apply Hf. by right.
Qed.

Create HintDb safe.
#[export] Hint Resolve safe_ok safe_bind safe_raise_if safe_rmap safe_rfold : safe.

(** Close a goal [safe m] by the structure of [m]. *)
Ltac safe :=
  repeat first
    [ progress intros
    | apply safe_bind
    | apply safe_rmap
    | apply safe_rfold
    | apply safe_raise_if
    | done
    | match goal with |- safe (match ?x with _ => _ end) => destruct x end ];
  try done.

Section finish.
Context `{Reflection}.

Lemma safe_compile_dependencies d : safe (_compile_dependencies d).
Proof.
  assert (∀ t, safe (match signature t, type_hints t with
    | Some parameters, Some hints => rmap (compile_parameter hints) parameters
    | _, _ => Err ProviderInvalidSignature end)) as Hc.
  { intros t. destruct (signature t), (type_hints t); try done. apply safe_rmap. intros p.
    unfold compile_parameter, _annotation_token. safe. }
  unfold _compile_dependencies. destruct d; try done; apply Hc.
Qed.

Lemma safe_add_provider m acc d : safe (add_provider m acc d).
Proof. unfold add_provider, _validate_provider_token. safe. apply safe_compile_dependencies. Qed.

Lemma safe_plan_module ns acc m : safe (plan_module ns acc m).
Proof.
  unfold plan_module. apply safe_bind; [by destruct (ns !! m)|]. intros n _.
  apply safe_bind; [apply safe_rfold; intros ds x; unfold add_controller; safe|]. intros ds _.
  apply safe_bind; [apply safe_rfold; intros; apply safe_add_provider|]. by intros [] _.
Qed.

Lemma safe_resolve_visible m t local_refs plans order : safe (_resolve_visible m t local_refs plans order).
Proof. unfold _resolve_visible. safe. Qed.

Lemma safe_add_fallback order m acc d : safe (add_fallback order m acc d).
Proof.
  unfold add_fallback, _validate_provider_token, _has_visible_provider, dict_item.
  apply safe_bind; [safe|]. intros _ _. apply safe_bind.
  - pose proof (safe_resolve_visible m (provider_token d) acc.1 acc.2 order) as Hs.
    destruct (_resolve_visible _ _ _ _ _) as [|e]; [done|]. by destruct e.
  - intros [] _; [done|]. apply safe_bind; [apply safe_compile_dependencies|]. safe.
Qed.

Lemma safe_compile_visibility local_refs plans order : safe (_compile_visibility local_refs plans order).
Proof.
  unfold _compile_visibility, _validate_exports, check_export, see_token. safe.
  apply safe_resolve_visible.
Qed.

Lemma safe_resolve_dependency local_refs plans order v cache r d :
  safe (resolve_dependency local_refs plans order v cache r d).
Proof.
  unfold resolve_dependency, cached. apply safe_bind; [|done].
  destruct (dep_token d) as [t|]; [|done]. destruct (intrinsic t); [done|].
  apply safe_bind; [|safe]. unfold _visible_ref. destruct (v !! _); [done|apply safe_resolve_visible].
Qed.

Lemma safe_compile_plans local_refs plans order v cache pm :
  safe (compile_plans local_refs plans order v cache pm).
Proof.
  unfold compile_plans. apply safe_bind; [|intros pm1 _; apply safe_bind].
  - apply safe_rfold. intros b [r p]. unfold compile_plan, dict_item, cached.
    apply safe_bind; [apply safe_rmap; intros; apply safe_resolve_dependency|]. safe.
  - apply safe_rfold. intros b [r p]. unfold intercept_plan. destruct (bool_decide _); [done|].
    apply safe_bind; [|done]. unfold _compile_method_interceptors.
    destruct (pp_declaration p); try done. apply safe_rmap. intros m.
    unfold method_interceptors, qualify, cached. safe.
  - intros pm2 _. apply safe_rfold. intros b [r p]. unfold alias_plan, dict_item. safe.
Qed.

Context (collect : option (ModuleId → ModuleSpec → bool → result di_error (list ProviderDeclaration))).
Context (Hcollect : ∀ f, collect = Some f → ∀ m s b, safe (f m s b)).

Lemma safe_prepare c root : safe (prepare collect c root).
Proof.
  unfold prepare. apply safe_bind; [apply safe_rfold; intros; apply safe_plan_module|]. intros lp _.
  apply safe_bind.
  { unfold add_fallbacks. destruct collect as [f|]; [|done]. apply safe_rfold. intros b m.
    apply safe_bind; [by destruct (nodes c !! m)|]. intros n _. apply safe_bind; [by apply (Hcollect f)|].
    intros ds _. apply safe_rfold. intros. apply safe_add_fallback. }
  intros [local_refs plans] _. apply safe_bind; [apply safe_compile_visibility|]. intros v _.
  apply safe_bind; [apply canonical_all_fuel|]. intros cache _.
  apply safe_bind; [apply safe_compile_plans|]. intros pm _.
  apply safe_bind; [|done]. unfold _provider_edges. apply safe_rmap. intros [r p].
  unfold plan_edges, dict_item. safe.
Qed.

Lemma providers_of_keys plans order r :
  NoDup plans.*1 → r ∈ mjoin ((λ m, pp_key <$> providers_of plans m) <$> order) →
  r ∈ (collect_providers plans).*1.
Proof.
  intros Hnd (m & _ & Hr)%elem_of_mjoin_fmap. apply list_elem_of_fmap in Hr as (p & -> & Hp).
  unfold providers_of in Hp. destruct (dict_get plans m) as [mp|] eqn:Hm; [|by apply elem_of_nil in Hp].
  destruct (collect_ok plans) as (_ & Hk & _). apply Hk. apply list_elem_of_fmap_2.
  apply elem_of_mjoin_fmap. exists (m, mp). split; [by apply dict_get_elem|done].
Qed.

Lemma safe_checked c root local_refs plans v cache pm edges :
  NoDup (order c) → prepared c local_refs plans v cache pm edges → safe (checked c root plans v pm edges).
Proof.
  intros Hnd Hp. unfold checked. apply safe_bind.
  { apply cycles_fuel. pose proof (fi_edges _ _ _ _ _ _ _ Hp) as He. apply rmap_ok_length in He. lia. }
  intros [] Hcy. destruct (finished_topo _ _ _ _ _ _ _ Hp _ Hcy) as (l & Hl & Ht & Hiff & Hlen).
  apply safe_bind.
  { unfold _validate_scope_paths. apply safe_rfold_in. intros [r p] Hr. case_bool_decide; [|done].
    apply (scope_visit_fuel edges pm l); [done|done| |].
    - apply Hiff. by apply (list_elem_of_fmap_2 fst _ (r, p)).
    - assert (r ∈ l) as Hrl by (apply Hiff; by apply (list_elem_of_fmap_2 fst _ (r, p))).
      apply rank_lt in Hrl. simpl. lia. }
  intros [] _. destruct (provider_order_ok edges l (S (length pm)) (order c) plans Hl Ht ltac:(lia))
    as (res & -> & _).
  { intros r Hr. apply Hiff. rewrite (fi_keys _ _ _ _ _ _ _ Hp). eapply providers_of_keys; [|done].
    by rewrite (fi_modules _ _ _ _ _ _ _ Hp). }
  r_simpl. apply safe_bind; [|done]. apply safe_rmap. intros m. unfold final_module, dict_item. safe.
Qed.

Lemma safe_finish c root : NoDup (order c) → safe (_finish collect c root).
Proof.
  intros Hnd. rewrite finish_split. apply safe_bind; [apply safe_prepare|].
  intros [[[plans v] pm] edges] Hpre. destruct (prepare_ok _ _ _ _ _ _ _ Hnd Hpre) as (lr & cache & Hp).
  by eapply safe_checked.
Qed.

End finish.

(** ** The walk *)

Section walk.
Context `{Reflection}.
Context (import_resolver : option (ModuleImport → result di_error ModuleImport)).
Context (spec_transformer : option (ModuleId → ModuleSpec → result di_error ModuleSpec)).
Context (Hresolver : ∀ f, import_resolver = Some f → ∀ i, safe (f i)).
Context (Htransformer : ∀ f, spec_transformer = Some f → ∀ m s, safe (f m s)).

Lemma safe_normalize s : safe (_normalize_module_providers s).
Proof. unfold _normalize_module_providers, normalize_provider. safe. Qed.

Lemma safe_final_spec m s : safe (final_spec spec_transformer m s).
Proof.
  unfold final_spec. apply safe_bind; [apply safe_normalize|]. intros s1 _.
  destruct spec_transformer as [f|]; [|done]. apply safe_bind; [by apply (Htransformer f)|].
  intros s2 _. apply safe_normalize.
Qed.

Lemma add_node_safe m x s c : safe (add_node spec_transformer m x s c).1.
Proof.
  destruct (add_node spec_transformer m x s c) as [r c'] eqn:Hrun. simpl.
  apply add_node_run in Hrun as [(e & -> & He)|(s' & -> & _)]; [|done].
  pose proof (safe_final_spec m s) as Hs. rewrite He in Hs. intros [= ->]. by apply Hs.
Qed.

Lemma safe_constructor x : safe (_validate_module_constructor x).
Proof. unfold _validate_module_constructor. safe. Qed.

Lemma ensure_safe i c : safe (_ensure_import import_resolver spec_transformer i c).1.
Proof.
  assert (∀ x, safe (_ensure_static spec_transformer x c).1) as Hs.
  { intros x. unfold _ensure_static. autorewrite with mrun. destruct (static_ids c !! x); [done|].
    autorewrite with mrun. destruct (existsb _ _); [done|]. autorewrite with mrun.
    pose proof (safe_constructor x) as Hc. destruct (_validate_module_constructor x); [|by apply (safe_err _ Hc)].
    autorewrite with mrun. apply add_node_safe. }
  assert (∀ d, safe (_ensure_dynamic spec_transformer d c).1) as Hd.
  { intros d. unfold _ensure_dynamic. autorewrite with mrun.
    destruct (match dynamic_ids c !! _ with Some _ => _ | None => _ end); [done|].
    destruct (descriptor_ids c !! _); [done|]. autorewrite with mrun.
    destruct (bool_decide _); [done|]. autorewrite with mrun.
    pose proof (safe_constructor (dm_module d)) as Hc.
    destruct (_validate_module_constructor (dm_module d)); [|by apply (safe_err _ Hc)]. autorewrite with mrun.
    assert (safe (materialized_spec d)) as Hm.
    { unfold materialized_spec. destruct (materialize d) as [| |e]; try done. by destruct e; simpl; try case_match. }
    destruct (materialized_spec d); [|by apply (safe_err _ Hm)]. apply add_node_safe. }
  unfold _ensure_import. destruct import_resolver as [f|]; autorewrite with mrun.
  - pose proof (Hresolver f eq_refl i) as Hf. destruct (f i) as [[]|]; [apply Hs|apply Hd|by apply (safe_err _ Hf)].
  - destruct i; [apply Hs|apply Hd].
Qed.

Context (I : ModuleImport → Prop) (P : ModuleId → ModuleSpec → Prop) (U : list ModuleId).
Context (Hclosed : closed_imports import_resolver spec_transformer I P) (HU : ∀ m s, P m s → m ∈ U).

Definition free (c : _Compiler) : list ModuleId := filter (λ m, states c !! m ≠ Some VISITING) U.

Lemma free_same c c' :
  (∀ m, states c' !! m = Some VISITING ↔ states c !! m = Some VISITING) → free c' = free c.
Proof. intros Hs. apply list_filter_iff. intros m. by rewrite Hs. Qed.

Definition visit_safe (fuel : nat) : Prop := ∀ m stack c,
  walk_inv P c → is_Some (nodes c !! m) → (length (free c) < fuel)%nat →
  safe (_visit import_resolver spec_transformer fuel m stack c).1.

Lemma visit_loop_safe fuel m stack imps c n :
  visit_safe fuel → Forall I imps → walk_inv P c → states c !! m = Some VISITING →
  nodes c !! m = Some n → (length (free c) < fuel)%nat →
  safe (mfor (λ imported, child_id ← _ensure_import import_resolver spec_transformer imported;
                modify (set_nodes (append_import m child_id));;
                _visit import_resolver spec_transformer fuel child_id stack) imps c).1.
Proof.
  intros IH. revert c n. induction imps as [|i imps IHi]; intros c n Hi Hw Hs Hn Hf; [done|].
  apply Forall_cons in Hi as [Himp Hi]. cbn [mfor]. rewrite run_bind_bind.
  pose proof (ensure_safe i c) as He.
  destruct (_ensure_import import_resolver spec_transformer i c) as [[child|e] c1] eqn:Hens;
    [|rewrite (M_bind_eq _ _ _ _ _ Hens); by apply (safe_err _ He)].
  rewrite (M_bind_run _ _ _ _ _ Hens). autorewrite with mrun.
  destruct (ensure_import_ok _ _ _ _ _ _ _ _ Hclosed Himp Hw Hens) as [(Hw1 & Hst & Ho & Hk) Hchild].
  rewrite <- Hst in Hs.
  destruct (append_import_walked P m child n c1 Hw1 Hs (Hk m n Hn)) as [Hw2 Hn2].
  set (c2 := set_nodes (append_import m child) c1) in *.
  assert (free c2 = free c) as Hfree.
  { apply free_same. intros x. change (states c2) with (states c1). by rewrite Hst. }
  pose proof (IH child stack c2 (proj1 Hw2) ltac:(by apply Hw2) ltac:(by rewrite Hfree)) as Hvis.
  destruct (_visit import_resolver spec_transformer fuel child stack c2) as [[[]|e] c3] eqn:Hrun;
    [|rewrite (M_bind_eq _ _ _ _ _ Hrun); by apply (safe_err _ Hvis)].
  rewrite (M_bind_run _ _ _ _ _ Hrun).
  destruct (visit_ok _ _ _ _ fuel Hclosed child stack c2 c3 (proj1 Hw2) ltac:(by apply Hw2) Hrun) as [Hw3 _].
  eapply IHi; [done|apply Hw3|by apply Hw3| |].
  - destruct Hw3 as (_ & _ & _ & _ & Hk3 & _). rewrite Hk3; [exact Hn2|done|by exists VISITING].
  - rewrite (free_same c2 c3), Hfree; [done|apply Hw3].
Qed.

Lemma visit_fuel fuel : visit_safe fuel.
Proof.
  induction fuel as [|fuel IH]; intros m stack c Hw [n Hn] Hf; [lia|]. cbn [_visit].
  autorewrite with mrun. destruct (states c !! m) as [[]|] eqn:Hs; [done|done|].
  autorewrite with mrun. rewrite Hn. set (c1 := set_visit m VISITING c).
  pose proof (visit_loop_safe fuel m (stack ++ [m]) (spec_imports (node_spec n)) c1 n IH) as Hloop.
  destruct (mfor _ _ c1) as [[[]|e] c2] eqn:Hrun; [by rewrite (M_bind_run _ _ _ _ _ Hrun)|].
  rewrite (M_bind_eq _ _ _ _ _ Hrun). apply (safe_err (A := unit)). apply Hloop.
  - by eapply (proj2 (proj2 Hclosed)), (wi_spec _ _ Hw).
  - apply start_visit_inv; [done|done|by eexists].
  - apply lookup_insert_eq.
  - done.
  - assert (length (free c1) < length (free c))%nat; [|lia].
    apply filter_length_lt with m.
    + by eapply HU, (wi_spec _ _ Hw).
    + simpl. rewrite lookup_insert_eq. by intros [].
    + by rewrite Hs.
    + intros x. simpl. destruct (decide (x = m)) as [->|]; [by rewrite lookup_insert_eq|].
      by rewrite lookup_insert_ne.
Qed.

End walk.
