(* ===== verification/DiProperties.v ===== *)
(** * Dependency injection: properties of the compiled graph

    What a graph that [compile_graph] returns guarantees to the runtime that
    constructs its providers, and that compiling ends. *)

From Stdlib Require Import ZArith Lia.
From stdpp Require Import base tactics list gmap strings.
From S2P Require Import Prelude DiDeclarations DiCompiler DiFinish DiGraphFacts DiFinishFacts.
From S2P Require Import DiPlanFacts DiWalkFacts DiTermination.
Local Open Scope Z_scope.

(** ** Reading a graph *)

Definition graph_plans (g : CompiledGraph) : module_plans_t :=
  (λ m, (mp_module_id m, m)) <$> shape_modules (shape g).

(** A dependency of a provider on another. *)
Definition needs (g : CompiledGraph) (r x : ProviderRef) : Prop :=
  ∃ p d, dict_get (providers g) r = Some p ∧ d ∈ pp_dependencies p ∧ dep_provider_ref d = Some x.

(** What the declarations let a module use under a token: its own provider, one
    an import exports, or one a global module exports. *)
Definition visible_from (g : CompiledGraph) (m : ModuleId) (token : Token) (r : ProviderRef) : Prop :=
  ref_token r = token ∧
  (ref_module_id r = m ∧ r ∈ pp_key <$> providers_of (graph_plans g) m ∨
   (∃ i, i ∈ imports_of (graph_plans g) m ∧ exported (graph_plans g) i r) ∨
   ∃ i, i ∈ mp_module_id <$> shape_modules (shape g) ∧ is_global (graph_plans g) i = true ∧
        exported (graph_plans g) i r).

Section graph.
Context `{Reflection}.
Context (import_resolver : option (ModuleImport → result di_error ModuleImport)).
Context (spec_transformer : option (ModuleId → ModuleSpec → result di_error ModuleSpec)).
Context (collect : option (ModuleId → ModuleSpec → bool → result di_error (list ProviderDeclaration))).

Abbreviation any_import := (λ _ : ModuleImport, True).
Abbreviation any_module := (λ (_ : ModuleId) (_ : ModuleSpec), True).

Lemma closed_any : closed_imports import_resolver spec_transformer any_import any_module.
Proof. split_and!; try done. intros m s _. by apply Forall_true. Qed.

(** The walk behind a graph. *)
Lemma compile_graph_ok fuel root g :
  compile_graph collect import_resolver spec_transformer fuel root = Ok g →
  ∃ c root_id, walk_inv any_module c ∧ last (order c) = Some root_id ∧ _finish collect c root_id = Ok g.
Proof.
  unfold compile_graph. intros Hrun.
  destruct (compile _ _ _ fuel root _Compiler_new) as [r c'] eqn:Hc. simpl in Hrun. subst r.
  unfold compile in Hc.
  apply M_bind_ok in Hc as (m & c1 & Hens & Hc). apply M_bind_ok in Hc as ([] & c2 & Hvis & Hc).
  autorewrite with mrun in Hc. injection Hc as Hfin _.
  pose proof (walk_inv_new any_module) as Hw.
  destruct (ensure_import_ok _ _ _ _ _ _ _ _ closed_any I Hw Hens) as [(Hw1 & Hs & Ho & _) Hn].
  destruct (visit_ok _ _ _ _ _ closed_any _ _ _ _ Hw1 Hn Hvis) as [(Hw2 & _) _].
  exists c2, m. split_and!; [done| |done]. destruct fuel as [|fuel]; [done|]. cbn [_visit] in Hvis.
  autorewrite with mrun in Hvis. rewrite Hs in Hvis. simpl in Hvis. rewrite lookup_empty in Hvis.
  autorewrite with mrun in Hvis. destruct (nodes c1 !! m) as [n|]; [|done].
  apply M_bind_ok in Hvis as ([] & c3 & _ & Hvis). autorewrite with mrun in Hvis. injection Hvis as <-.
  simpl. by rewrite last_snoc.
Qed.

Section finished_graph.
Context (c : _Compiler) (root : ModuleId) (g : CompiledGraph) (local_refs : local_refs_t).
Context (plans : module_plans_t) (cache : cache_t) (edges : edges_t).
Context (Hfin : finished c root g local_refs plans cache edges).
Let Hpre := fi_prepared _ _ _ _ _ _ _ Hfin.

(** The final modules are the planned ones with the compiled providers. *)
Lemma final_module_ok m mp :
  final_module plans (providers g) m = Ok mp →
  ∃ mp0, dict_get plans m = Some mp0 ∧ mp_module_id mp = m ∧ mp_imports mp = mp_imports mp0 ∧
    mp_spec mp = mp_spec mp0 ∧ pp_key <$> mp_providers mp = pp_key <$> mp_providers mp0.
Proof.
  unfold final_module. intros Hm. apply result_bind_ok in Hm as (mp0 & Hmp0 & Hm).
  apply result_bind_ok in Hm as (ps & Hps & Hm). injection Hm as <-. unfold dict_item in Hmp0.
  destruct (dict_get plans m) as [mp0'|] eqn:Hg; [|done]. injection Hmp0 as ->. exists mp0.
  split_and!; try done; simpl.
  - pose proof (fi_planned _ _ _ _ _ _ _ Hpre) as Hpl. unfold planned in Hpl. rewrite Forall_forall in Hpl.
    apply dict_get_elem in Hg. by destruct (Hpl _ Hg) as [? _].
  - apply rmap_ok_iff in Hps. clear -Hps Hpre. induction Hps as [|p q l k Hp Hl IH]; [done|].
    rewrite !fmap_cons, IH. f_equal. unfold dict_item in Hp.
    destruct (dict_get (providers g) (pp_key p)) as [q'|] eqn:Hq; [|done]. injection Hp as ->.
    by destruct (finished_plan _ _ _ _ _ _ _ Hpre _ _ Hq) as (q0 & _ & _ & (Hk & _) & _).
Qed.

Lemma graph_modules : mp_module_id <$> shape_modules (shape g) = order c.
Proof.
  pose proof (fi_shape _ _ _ _ _ _ _ Hfin) as Hs. apply rmap_ok_iff in Hs.
  induction Hs as [|m mp l k Hm Hl IH]; [done|]. rewrite fmap_cons, IH. f_equal.
  by destruct (final_module_ok m mp Hm) as (mp0 & _ & -> & _).
Qed.

(** A module of the graph and its plan agree on everything that visibility
    depends on. *)
Lemma graph_plan_get m :
  match dict_get (graph_plans g) m, dict_get plans m with
  | Some mp, Some mp0 => mp_imports mp = mp_imports mp0 ∧ mp_spec mp = mp_spec mp0 ∧
      pp_key <$> mp_providers mp = pp_key <$> mp_providers mp0
  | None, None => True
  | _, _ => False
  end.
Proof.
  assert ((graph_plans g).*1 = plans.*1) as Hk.
  { unfold graph_plans. rewrite (fi_modules _ _ _ _ _ _ _ Hpre), <- graph_modules, <- list_fmap_compose.
    done. }
  destruct (dict_get (graph_plans g) m) as [mp|] eqn:Hmp; last first.
  { apply dict_get_None in Hmp. rewrite Hk, <- dict_get_None in Hmp. by rewrite Hmp. }
  apply dict_get_elem in Hmp. unfold graph_plans in Hmp.
  apply list_elem_of_fmap in Hmp as (mp' & [= -> ->] & Hin).
  pose proof (fi_shape _ _ _ _ _ _ _ Hfin) as Hs. apply rmap_ok_iff in Hs.
  apply list_elem_of_lookup in Hin as [i Hi].
  destruct (Forall2_lookup_r _ _ _ _ _ Hs Hi) as (m & _ & Hm).
  destruct (final_module_ok m mp' Hm) as (mp0 & Hg & -> & H1 & H2 & H3). rewrite Hg. done.
Qed.

Lemma graph_imports m : imports_of (graph_plans g) m = imports_of plans m.
Proof.
  pose proof (graph_plan_get m) as Hm. unfold imports_of.
  destruct (dict_get (graph_plans g) m), (dict_get plans m); try done. simpl. by destruct Hm.
Qed.
Lemma graph_exports m : exports_of (graph_plans g) m = exports_of plans m.
Proof.
  pose proof (graph_plan_get m) as Hm. unfold exports_of, mp_exports.
  destruct (dict_get (graph_plans g) m), (dict_get plans m); try done. simpl. by destruct Hm as (_ & -> & _).
Qed.
Lemma graph_global m : is_global (graph_plans g) m = is_global plans m.
Proof.
  pose proof (graph_plan_get m) as Hm. unfold is_global, mp_global.
  destruct (dict_get (graph_plans g) m), (dict_get plans m); try done. simpl. by destruct Hm as (_ & -> & _).
Qed.
Lemma graph_provider_keys m : pp_key <$> providers_of (graph_plans g) m = pp_key <$> providers_of plans m.
Proof.
  pose proof (graph_plan_get m) as Hm. unfold providers_of.
  destruct (dict_get (graph_plans g) m), (dict_get plans m); try done. simpl. by destruct Hm as (_ & _ & ->).
Qed.
Lemma graph_local m t : local_providers (graph_plans g) m t = local_providers plans m t.
Proof. unfold local_providers. f_equal. apply graph_provider_keys. Qed.

Lemma graph_exported m r : exported plans m r → exported (graph_plans g) m r.
Proof.
  induction 1 as [m r He Hl|m m' r He Hl Hi _ IH].
  - apply exported_local; [by rewrite graph_exports|by rewrite graph_local].
  - eapply exported_import; [by rewrite graph_exports|by rewrite graph_local|by rewrite graph_imports|done].
Qed.

Lemma sees_visible m token r :
  sees local_refs plans (order c) m token r → visible_from g m token r.
Proof.
  intros [Hr|(Ht & Hor)].
  - destruct (fi_local _ _ _ _ _ _ _ Hpre m token r Hr) as [-> Hin]. split; [done|]. left.
    split; [done|]. by rewrite graph_provider_keys.
  - split; [done|]. right. destruct Hor as [(i & Hi & He)|(i & Hi & Hg & He)].
    + left. exists i. rewrite graph_imports. split; [done|]. by apply graph_exported.
    + right. exists i. rewrite graph_modules, graph_global. split_and!; try done. by apply graph_exported.
Qed.

(** The edges of the graph are its dependencies, and from an alias to what it
    stands for. *)
Lemma needs_edge r x : needs g r x → x ∈ edges_from edges r.
Proof.
  intros (p & d & Hp & Hd & Hx). destruct (edges_ok _ _ _ _ _ _ _ Hpre) as [_ He].
  specialize (He r p Hp). simpl in He.
  destruct (is_alias (pp_declaration p)) eqn:Ha.
  - exfalso. destruct (finished_plan _ _ _ _ _ _ _ Hpre r p Hp) as (p0 & _ & (_ & _ & Hc) & (_ & Hdecl & Hdeps & _) & _).
    rewrite <- Hdecl in Hc. destruct (pp_declaration p); try done. simpl in Hc. injection Hc as Hc.
    rewrite <- Hc in Hdeps. simpl in Hdeps. injection Hdeps as Hdeps. rewrite <- Hdeps in Hd.
    by apply elem_of_nil in Hd.
  - assert (Ok (r, omap dep_provider_ref (pp_dependencies p)) = Ok (r, edges_from edges r) :> result di_error _)
      as [= <-] by (rewrite <- He; by destruct (pp_declaration p)).
    apply list_elem_of_omap. eauto.
Qed.

Lemma alias_edge r p :
  dict_get (providers g) r = Some p → pp_canonical p ≠ r → pp_canonical p ∈ edges_from edges r.
Proof.
  intros Hp Hne. destruct (edges_ok _ _ _ _ _ _ _ Hpre) as [_ He]. specialize (He r p Hp). simpl in He.
  destruct (finished_plan _ _ _ _ _ _ _ Hpre r p Hp) as (p0 & Hp0 & _ & (_ & Hdecl & _ & Hc & _) & _).
  destruct (fi_cache _ _ _ _ _ _ _ Hpre _ _ Hc) as [(q & Hq & Hna & Hal) _].
  rewrite Hp0 in Hq. injection Hq as <-. rewrite <- Hdecl in Hna, Hal.
  destruct (pp_declaration p) as [| | |t target]; [by destruct Hne; apply Hna..|].
  destruct (Hal t target eq_refl) as (x & Hx & Hcx). rewrite Hx in He.
  apply result_bind_ok in He as (y & [= <-] & He). apply result_bind_ok in He as (px & Hpx & He).
  injection He as <-. unfold dict_item in Hpx.
  destruct (dict_get (providers g) x) as [px'|] eqn:Hgx; [|done]. injection Hpx as ->.
  destruct (finished_plan _ _ _ _ _ _ _ Hpre x px Hgx) as (_ & _ & _ & (_ & _ & _ & Hcx' & _) & _).
  rewrite Hcx in Hcx'. injection Hcx' as ->. apply list_elem_of_singleton. done.
Qed.

(** The construction order is a dependency-first order of the providers. *)
Lemma finished_order :
  NoDup (order c) →
  NoDup (provider_order g) ∧ topo (edges_from edges) (provider_order g) ∧
  ∀ r, r ∈ provider_order g ↔ r ∈ (providers g).*1.
Proof.
  intros Hord.
  destruct (finished_topo _ _ _ _ _ _ _ Hpre _ (fi_cycles _ _ _ _ _ _ _ Hfin)) as (l & Hl & Ht & Hiff & Hlen).
  assert (NoDup plans.*1) as Hndp by (by rewrite (fi_modules _ _ _ _ _ _ _ Hpre)).
  destruct (provider_order_ok edges l (S (length (providers g))) (order c) plans Hl Ht ltac:(lia))
    as (res & Hres & Hnd & Htopo & Hall & Hsub).
  { intros r Hr. apply Hiff. rewrite (fi_keys _ _ _ _ _ _ _ Hpre). by eapply providers_of_keys. }
  rewrite (fi_order _ _ _ _ _ _ _ Hfin) in Hres. injection Hres as ->. split_and!; [done..|].
  intros r. split; [intros Hr; by apply Hiff, Hsub|]. intros Hr. apply Hall.
  rewrite (fi_keys _ _ _ _ _ _ _ Hpre) in Hr. destruct (collect_ok plans) as (_ & Hk & _).
  apply Hk, list_elem_of_fmap in Hr as (p & -> & Hp). apply elem_of_mjoin_fmap in Hp as ([m mp] & Hm & Hp).
  apply elem_of_mjoin_fmap. exists m. split.
  - rewrite <- (fi_modules _ _ _ _ _ _ _ Hpre). by apply (list_elem_of_fmap_2 fst _ (m, mp)).
  - apply list_elem_of_fmap_2. unfold providers_of. by rewrite (elem_dict_get _ _ _ Hndp Hm).
Qed.

End finished_graph.

(** ** Properties *)

(** The modules of a compiled graph are in dependency-first order: every
    module is there once, the root comes last, and what a module imports comes
    before it, one identity for each import it declares. In particular no
    module imports itself through others. *)
Theorem module_order fuel root g :
  compile_graph collect import_resolver spec_transformer fuel root = Ok g →
  let modules := shape_modules (shape g) in
  NoDup (mp_module_id <$> modules) ∧ last (mp_module_id <$> modules) = Some (shape_root (shape g)) ∧
  ∀ pre m post, modules = pre ++ m :: post →
    (∀ i, i ∈ mp_imports m → i ∈ mp_module_id <$> pre) ∧
    length (mp_imports m) = length (spec_imports (mp_spec m)).
Proof.
  intros Hg modules. destruct (compile_graph_ok _ _ _ Hg) as (c & root_id & Hw & Hlast & Hf).
  destruct (finish_ok _ _ _ _ (wi_nodup _ _ Hw) Hf) as (lr & plans & cache & edges & Hfin).
  pose proof (graph_modules _ _ _ _ _ _ _ Hfin) as Hids.
  split_and!; [unfold modules; rewrite Hids; apply Hw|unfold modules; by rewrite Hids, (fi_root _ _ _ _ _ _ _ Hfin)|].
  intros pre m post Heq.
  assert (order c = (mp_module_id <$> pre) ++ mp_module_id m :: (mp_module_id <$> post)) as Ho.
  { rewrite <- Hids. fold modules. by rewrite Heq, fmap_app, fmap_cons. }
  pose proof (fi_shape _ _ _ _ _ _ _ Hfin) as Hs. apply rmap_ok_iff in Hs.
  assert (modules !! length pre = Some m) as Hm by (rewrite Heq; by apply list_lookup_middle).
  destruct (Forall2_lookup_r _ _ _ _ _ Hs Hm) as (x & Hx & Hfm).
  destruct (final_module_ok _ _ _ _ _ _ _ Hfin x m Hfm) as (mp0 & Hg0 & Hid & Himp & Hspec & _).
  pose proof (fi_planned _ _ _ _ _ _ _ (fi_prepared _ _ _ _ _ _ _ Hfin)) as Hpl. unfold planned in Hpl.
  rewrite Forall_forall in Hpl. destruct (Hpl _ (dict_get_elem _ _ _ Hg0)) as (_ & (n & Hn & Hin & Hsp) & _).
  simpl in *. rewrite Himp, Hspec, Hin, Hsp. subst x. split.
  - intros i Hi. apply (wi_topo _ _ Hw _ _ _ Ho). unfold node_imports_of. by rewrite Hn.
  - destruct (wi_complete _ _ Hw (mp_module_id m)) as (n' & Hn' & Hlen); [rewrite Ho; set_solver|].
    congruence.
Qed.

(** C11: The construction order of a compiled graph lists every provider once,
    and each one after all the providers its dependencies name and, if it is an
    alias, after the provider it stands for: constructing in this order never
    needs a provider that is not there yet. *)
Theorem provider_order_complete fuel root g :
  compile_graph collect import_resolver spec_transformer fuel root = Ok g →
  NoDup (provider_order g) ∧ (∀ r, r ∈ provider_order g ↔ r ∈ (providers g).*1) ∧
  ∀ pre r post, provider_order g = pre ++ r :: post →
    (∀ x, needs g r x → x ∈ pre) ∧
    ∀ p, dict_get (providers g) r = Some p → pp_canonical p ≠ r → pp_canonical p ∈ pre.
Proof.
  intros Hg. destruct (compile_graph_ok _ _ _ Hg) as (c & root_id & Hw & _ & Hf).
  destruct (finish_ok _ _ _ _ (wi_nodup _ _ Hw) Hf) as (lr & plans & cache & edges & Hfin).
  destruct (finished_order _ _ _ _ _ _ _ Hfin (wi_nodup _ _ Hw)) as (Hnd & Htopo & Hiff).
  split_and!; [done..|]. intros pre r post Heq. split.
  - intros x Hx. eapply Htopo; [exact Heq|]. by eapply needs_edge.
  - intros p Hp Hne. eapply Htopo; [exact Heq|]. by eapply alias_edge.
Qed.

(** C12: No captive dependency: in a compiled graph a singleton never reaches a
    request-scoped provider, through any chain of dependencies, whatever their
    own scopes. *)
Theorem singleton_never_reaches_request fuel root g r p x q :
  compile_graph collect import_resolver spec_transformer fuel root = Ok g →
  dict_get (providers g) r = Some p → pp_scope p = SINGLETON →
  tc (needs g) r x → dict_get (providers g) x = Some q → pp_scope q ≠ REQUEST.
Proof.
  intros Hg Hp Hs Hx Hq. destruct (compile_graph_ok _ _ _ Hg) as (c & root_id & Hw & _ & Hf).
  destruct (finish_ok _ _ _ _ (wi_nodup _ _ Hw) Hf) as (lr & plans & cache & edges & Hfin).
  assert (tc (depends edges) r x) as Hdep.
  { clear -Hx Hfin. induction Hx as [a b Hab|a b d Hab _ IH]; [apply tc_once; by eapply needs_edge|].
    eapply tc_l; [by eapply needs_edge|]. exact IH. }
  pose proof (scope_paths_ok edges (providers g) _ r p (fi_scopes _ _ _ _ _ _ _ Hfin)
    (dict_get_elem _ _ _ Hp) Hs x Hdep) as Hsc.
  unfold scope_of in Hsc. by rewrite Hq in Hsc.
Qed.

(** Encapsulation: a dependency of a compiled graph names the provider that
    its token is visible as from the module of its owner (the module's own, one
    an import exports, or one a global module exports), made canonical: never
    an alias, and built and scoped as the visible provider is. *)
Theorem dependency_visible fuel root g r p d x :
  compile_graph collect import_resolver spec_transformer fuel root = Ok g →
  dict_get (providers g) r = Some p → d ∈ pp_dependencies p → dep_provider_ref d = Some x →
  ∃ token y py px, dep_token d = Some token ∧ visible_from g (ref_module_id r) token y ∧
    dict_get (providers g) y = Some py ∧ dict_get (providers g) x = Some px ∧
    pp_canonical py = x ∧ pp_canonical px = x ∧ is_alias (pp_declaration px) = false ∧
    pp_recipe py = pp_recipe px ∧ pp_scope py = pp_scope px.
Proof.
  intros Hg Hp Hd Hx. destruct (compile_graph_ok _ _ _ Hg) as (c & root_id & Hw & _ & Hf).
  destruct (finish_ok _ _ _ _ (wi_nodup _ _ Hw) Hf) as (lr & plans & cache & edges & Hfin).
  pose proof (fi_prepared _ _ _ _ _ _ _ Hfin) as Hpre.
  destruct (finished_dependency _ _ _ _ _ _ _ Hpre r p d x Hp Hd Hx) as (token & y & Ht & Hsees & Hy).
  destruct (cache_canonical _ _ _ _ _ _ _ Hpre y x Hy) as (px & Hpx & Hna).
  destruct (fi_cache _ _ _ _ _ _ _ Hpre y x Hy) as [(py0 & Hpy0 & _) _].
  destruct (fi_plan _ _ _ _ _ _ _ Hpre y py0 Hpy0) as (py & Hpy & (_ & _ & _ & Hcy & cy & Hcy0 & Hsy) & Hb).
  rewrite Hy in Hcy. injection Hcy as Hcy.
  destruct (finished_plan _ _ _ _ _ _ _ Hpre x px Hpx) as (px0 & Hpx0 & _ & (_ & Hdx & _ & Hcx & cx & Hcx0 & Hsx) & _).
  destruct (fi_cache _ _ _ _ _ _ _ Hpre _ _ Hcx) as [(q & Hq & Hqn & _) _].
  rewrite Hpx0 in Hq. injection Hq as <-. rewrite Hdx in Hna. specialize (Hqn Hna).
  destruct Hb as (b & Hgb & Hrec & _). rewrite <- Hcy, Hpx in Hgb. injection Hgb as <-.
  exists token, y, py, px. split_and!; try done; [by eapply sees_visible|by rewrite Hdx|].
  rewrite Hsy, Hsx. rewrite Hqn in Hcx0. rewrite <- Hcy in Hcy0. congruence.
Qed.


End graph.

(** ** A concrete application

    Module 1 imports module 2, which exports class 20 and its alias ["db"]. In
    module 1, class 10 is a singleton that needs class 20, and class 11 is
    request-scoped and needs class 10 and ["db"]. *)

Definition ex_param (name : string) (a : Annotation) : Param :=
  {| param_name := str name; param_kind := ORDINARY; param_has_default := false; param_annotation := a |}.

Definition ex_root_spec : ModuleSpec :=
  {| spec_imports := [ImportClass 2];
     spec_providers := [Declared (ClassProvider (TClass 11) 11 REQUEST true false);
                        Declared (ClassProvider (TClass 10) 10 SINGLETON true false)];
     spec_controllers := []; spec_exports := []; global_ := false |}.
Definition ex_database_spec : ModuleSpec :=
  {| spec_imports := [];
     spec_providers := [Declared (AliasProvider (TName (str "db")) (TClass 20));
                        Declared (ClassProvider (TClass 20) 20 SINGLETON true false)];
     spec_controllers := []; spec_exports := [TClass 20; TName (str "db")]; global_ := false |}.

Definition ex_reflection : Reflection := {|
  module_signature _ := Some [];
  signature t := match t with
                 | CallClass 10 => Some [ex_param "database" (AnnotatedClass 20)]
                 | CallClass 11 => Some [ex_param "service" (AnnotatedClass 10);
                                         ex_param "db" (AnnotatedWith None [Some (TName (str "db"))])]
                 | _ => Some []
                 end;
  type_hints _ := Some [];
  is_coroutine_function _ := false;
  module_metadata x := if x =? 1 then Some ex_root_spec else if x =? 2 then Some ex_database_spec else None;
  injectable_metadata _ := None;
  is_gateway _ := false;
  materialize _ := GivesOther;
  class_methods _ := []
|}.

Definition ex_module (x : Z) : ModuleId := {| mid_module := x; mid_key := None |}.
Definition ex_ref (m x : Z) : ProviderRef := {| ref_module_id := ex_module m; ref_token := TClass x |}.
Definition ex_compiled : result di_error CompiledGraph :=
  @compile_graph ex_reflection None None None 3 (ImportClass 1).

Lemma ex_compiled_ok :
  ∃ g p10 d10 p11 d11 e11 p20, ex_compiled = Ok g ∧
    dict_get (providers g) (ex_ref 1 10) = Some p10 ∧ pp_scope p10 = SINGLETON ∧
    pp_dependencies p10 = [d10] ∧ dep_provider_ref d10 = Some (ex_ref 2 20) ∧
    dict_get (providers g) (ex_ref 1 11) = Some p11 ∧ pp_dependencies p11 = [d11; e11] ∧
    dep_provider_ref e11 = Some (ex_ref 2 20) ∧
    dict_get (providers g) (ex_ref 2 20) = Some p20 ∧
    length (shape_modules (shape g)) = 2%nat ∧ length (provider_order g) = 4%nat.
Proof. do 7 eexists. split_and!; vm_compute; reflexivity. Qed.

Lemma module_order_witness :
  ∃ g, ex_compiled = Ok g ∧ length (shape_modules (shape g)) = 2%nat ∧
    last (mp_module_id <$> shape_modules (shape g)) = Some (shape_root (shape g)).
Proof.
  destruct ex_compiled_ok as (g & p10 & d10 & p11 & d11 & e11 & p20 & Hg & _ & _ & _ & _ & _ & _ & _ & _ & Hlen & _).
  exists g. split; [exact Hg|]. split; [exact Hlen|].
  exact (proj1 (proj2 (@module_order ex_reflection None None None 3 (ImportClass 1) g Hg))).
Defined.

Lemma provider_order_complete_witness :
  ∃ g, ex_compiled = Ok g ∧ length (provider_order g) = 4%nat ∧ NoDup (provider_order g).
Proof.
  destruct ex_compiled_ok as (g & p10 & d10 & p11 & d11 & e11 & p20 & Hg & _ & _ & _ & _ & _ & _ & _ & _ & _ & Hlen).
  exists g. split; [exact Hg|]. split; [exact Hlen|].
  exact (proj1 (@provider_order_complete ex_reflection None None None 3 (ImportClass 1) g Hg)).
Defined.

Lemma singleton_never_reaches_request_witness :
  ∃ g p20, ex_compiled = Ok g ∧ dict_get (providers g) (ex_ref 2 20) = Some p20 ∧ pp_scope p20 ≠ REQUEST.
Proof.
  destruct ex_compiled_ok as (g & p10 & d10 & p11 & d11 & e11 & p20 & Hg & H10 & Hs & Hd & Hr & _ & _ & _ & H20 & _).
  exists g, p20. split; [exact Hg|]. split; [exact H20|].
  refine (@singleton_never_reaches_request ex_reflection None None None 3 (ImportClass 1) g
    (ex_ref 1 10) p10 (ex_ref 2 20) p20 Hg H10 Hs _ H20).
  apply tc_once. exists p10, d10. split; [exact H10|]. split; [rewrite Hd; left|exact Hr].
Defined.

(** The dependency on the alias ["db"] names class 20 itself. *)
Lemma dependency_visible_witness :
  ∃ g token y, ex_compiled = Ok g ∧ visible_from g (ex_module 1) token y.
Proof.
  destruct ex_compiled_ok as (g & p10 & d10 & p11 & d11 & e11 & p20 & Hg & _ & _ & _ & _ & H11 & Hd & Hr & _).
  destruct (@dependency_visible ex_reflection None None None 3 (ImportClass 1) g
    (ex_ref 1 11) p11 e11 (ex_ref 2 20) Hg H11) as (token & y & _ & _ & _ & Hvis & _).
  - rewrite Hd. right. left.
  - exact Hr.
  - exists g, token, y. split; [exact Hg|exact Hvis].
Defined.

