(* ===== verification/RtContainer.v ===== *)
(** * The container runtime: resources, scopes and resolution

    The first part of [runtime.py] of [tori_py.core]: leases, the resource
    stack, the container that constructs the providers of a compiled graph, and
    request scopes. The code of the application that the container calls
    (constructors, factories, awaitables, context managers) is the class
    [Application] over the application's own state. The field [trace] records
    which resources were entered and left and which providers were built; the
    program keeps no such record. *)

From Stdlib Require Import ZArith Lia.
From stdpp Require Import base tactics list gmap strings.
From S2P Require Import Prelude DiDeclarations DiCompiler.
Local Open Scope Z_scope.

(** ** Exceptions

    [ControlError] is [KeyboardInterrupt] or [SystemExit], [AppError] any other
    exception of the application. *)

Inductive rt_error :=
| ScopeError
| ScopeClosedError
| ResourceAcquireError
| ResourceCleanupError (label : ProviderRef)
| ScopeFinalizationError (body_error : option rt_error) (cleanup_errors : list rt_error)
| ScopeCancellationError (cancellation : rt_error) (cleanup_errors : list rt_error)
| LifecycleError
| ApplicationStateError
| PipelineStateError
| TimeoutError
| _LingeringQuiesceError
| CancelledError
| ControlError (id : Z)
| TypeError
| RuntimeError
| KeyError
| RecursionError
| AppError (id : Z).

(** [isinstance(e, asyncio.CancelledError)] *)
Definition is_cancelled (e : rt_error) : bool :=
  match e with CancelledError | ScopeCancellationError _ _ => true | _ => false end.

(** [isinstance(e, (KeyboardInterrupt, SystemExit))] *)
Definition is_control (e : rt_error) : bool :=
  match e with ControlError _ => true | _ => false end.

(** The elements of a tuple of errors but the one a search found, which the
    code recognises with [is]. *)
Fixpoint take_first (p : rt_error → bool) (l : list rt_error) : option (rt_error * list rt_error) :=
  match l with
  | [] => None
  | e :: l => if p e then Some (e, l)
              else '(x, rest) ← take_first p l; Some (x, e :: rest)
  end.

(** What a scope raises when cleaning up failed too. Notes added to a control
    error do not change it. *)
Definition _scope_cleanup_error (body_error : option rt_error) (cleanup_errors : list rt_error)
    : rt_error :=
  let by_cleanup :=
    match take_first is_control cleanup_errors with
    | Some (control, _) => control
    | None =>
        match take_first is_cancelled cleanup_errors with
        | Some (cancellation, rest) =>
            ScopeCancellationError cancellation (option_list body_error ++ rest)
        | None => ScopeFinalizationError body_error cleanup_errors
        end
    end in
  match body_error with
  | Some e => if is_cancelled e then ScopeCancellationError e cleanup_errors
              else if is_control e then e else by_cleanup
  | None => by_cleanup
  end.

(** ** Values

    An object of the application, a proxy around one, or a capability of the
    framework. *)

Inductive value :=
| Object (o : pyobj)
| _ProviderProxy (target : value) (provider_ref : ProviderRef)
    (method_interceptors : list (pystr * list InterceptorRef))
| _ModuleWorkScopeFactory (module_id : ModuleId)
| FrameworkObject (token : Token).

(** The exception a context manager is left with. *)
Definition _ExceptionInfo : Type := option rt_error.

(** ** The application's code *)

Inductive manager := AsyncManager | SyncManager | NoManager.

Class Application (A : Type) := {
  construct_class : Z → list (pystr * value) → M A rt_error value;
  call_factory : Z → list (pystr * value) → M A rt_error value;
  isawaitable : value → bool;
  await_value : value → M A rt_error value;
  (** which pair of methods an object has, [__aenter__] first *)
  manager_of : value → manager;
  enter_manager : value → M A rt_error value;
  (** whether the result of the exit is truthy *)
  exit_manager : value → _ExceptionInfo → M A rt_error bool;
  (** the same for at most this long; [None] when it is not done by then *)
  exit_within : value → _ExceptionInfo → Z → A → option (result rt_error bool) * A;
  (** started, and nobody waits for it *)
  exit_detached : value → _ExceptionInfo → A → A;
  loop_time : A → Z * A
}.

(** ** State *)

Inductive LeaseState := OPEN | CLOSING | CLOSED.

Definition begin_close (l : LeaseState) : LeaseState :=
  match l with OPEN => CLOSING | _ => l end.

Definition check (l : LeaseState) (allow_closing : bool) : result rt_error unit :=
  match l with
  | OPEN => Ok tt
  | CLOSING => if allow_closing then Ok tt else Err ScopeClosedError
  | CLOSED => Err ScopeClosedError
  end.

Record _CleanupRecord := { cr_value : value; cr_label : ProviderRef }.

Record _ResourceStack := { _records : list _CleanupRecord; stack_closed : bool }.

Definition _ResourceStack_new : _ResourceStack := {| _records := []; stack_closed := false |}.

Inductive scope_kind := KApplication | KRequest | KWork.

Record _ScopeState := {
  scope_kind_of : scope_kind;
  lease : option LeaseState;
  cache : gmap ProviderRef value;
  resources : option _ResourceStack;
  owner_task : option Z
}.

Record RequestScope := {
  rs_module_id : ModuleId;
  rs_state : _ScopeState;
  _entered : bool;
  _closed : bool;
  (** the task that cleans up, once it was created: the exception the scope was
      left with, and what the task returned when it is done *)
  _cleanup_task : option (_ExceptionInfo * option (option rt_error))
}.

Inductive event :=
| Built (scope : option Z) (ref : ProviderRef)
| Entered (scope : option Z) (r : _CleanupRecord)
| Left (scope : option Z) (r : _CleanupRecord).

(** Which scopes the application admits and which are open, kept by its kernel. *)
Record scope_admission := {
  _request_admission_open : bool;
  _work_admission_open : bool;
  _active_scopes : gset Z
}.

(** The container with the request scopes made on it. The application's scope
    is [None], the scope of a [RequestScope] is its identity. *)
Record world (A : Type) := {
  app_scope : _ScopeState;
  scopes : gmap Z RequestScope;
  next_scope : Z;
  admission : scope_admission;
  container_closed : bool;
  trace : list event;
  env : A
}.
Arguments app_scope {A}.
Arguments scopes {A}.
Arguments next_scope {A}.
Arguments admission {A}.
Arguments container_closed {A}.
Arguments trace {A}.
Arguments env {A}.

#[export] Instance LeaseState_eq_dec : EqDecision LeaseState.
Proof. solve_decision. Defined.
#[export] Instance scope_kind_eq_dec : EqDecision scope_kind.
Proof. solve_decision. Defined.

Definition new_request_scope (kind : scope_kind) : _ScopeState :=
  {| scope_kind_of := kind; lease := Some OPEN; cache := ∅; resources := None; owner_task := None |}.

Definition Container_new {A} (a : A) : world A :=
  {| app_scope := {| scope_kind_of := KApplication; lease := None; cache := ∅;
                     resources := Some _ResourceStack_new; owner_task := None |};
     scopes := ∅; next_scope := 0;
     admission := {| _request_admission_open := false; _work_admission_open := false; _active_scopes := ∅ |};
     container_closed := false; trace := []; env := a |}.

Definition with_cache (c : gmap ProviderRef value) (s : _ScopeState) : _ScopeState :=
  {| scope_kind_of := scope_kind_of s; lease := lease s; cache := c; resources := resources s;
     owner_task := owner_task s |}.
Definition with_resources (r : option _ResourceStack) (s : _ScopeState) : _ScopeState :=
  {| scope_kind_of := scope_kind_of s; lease := lease s; cache := cache s; resources := r;
     owner_task := owner_task s |}.
Definition with_lease (f : LeaseState → LeaseState) (s : _ScopeState) : _ScopeState :=
  {| scope_kind_of := scope_kind_of s; lease := f <$> lease s; cache := cache s;
     resources := resources s; owner_task := owner_task s |}.
Definition with_owner (t : Z) (s : _ScopeState) : _ScopeState :=
  {| scope_kind_of := scope_kind_of s; lease := lease s; cache := cache s; resources := resources s;
     owner_task := Some t |}.

Definition records_of (s : _ScopeState) : list _CleanupRecord :=
  default [] (_records <$> resources s).

Definition on_state (f : _ScopeState → _ScopeState) (r : RequestScope) : RequestScope :=
  {| rs_module_id := rs_module_id r; rs_state := f (rs_state r); _entered := _entered r;
     _closed := _closed r; _cleanup_task := _cleanup_task r |}.

Section container.
Context {A : Type} `{Application A}.
Context (graph : CompiledGraph).
Context (_work_scope_factory : option (ModuleId → result rt_error value)).
Context (_intrinsic_provider : option (Token → result rt_error value)).

Abbreviation R := (M (world A) rt_error).

Definition state_of (w : world A) (s : option Z) : option _ScopeState :=
  match s with
  | None => Some (app_scope w)
  | Some i => rs_state <$> scopes w !! i
  end.

Definition set_state (s : option Z) (f : _ScopeState → _ScopeState) (w : world A) : world A :=
  match s with
  | None => {| app_scope := f (app_scope w); scopes := scopes w; next_scope := next_scope w;
               admission := admission w;
               container_closed := container_closed w; trace := trace w; env := env w |}
  | Some i => {| app_scope := app_scope w; scopes := alter (on_state f) i (scopes w);
                 next_scope := next_scope w; admission := admission w; container_closed := container_closed w;
                 trace := trace w; env := env w |}
  end.

Definition with_env (a : A) (w : world A) : world A :=
  {| app_scope := app_scope w; scopes := scopes w; next_scope := next_scope w;
     admission := admission w;
     container_closed := container_closed w; trace := trace w; env := a |}.
Definition add_event (e : event) (w : world A) : world A :=
  {| app_scope := app_scope w; scopes := scopes w; next_scope := next_scope w;
     admission := admission w;
     container_closed := container_closed w; trace := trace w ++ [e]; env := env w |}.

(** A call of the application. *)
Definition app {B} (m : M A rt_error B) : R B := zoom env with_env m.

Definition get_state (s : option Z) : R _ScopeState :=
  λ w, match state_of w s with Some x => (Ok x, w) | None => (Err KeyError, w) end.

Definition get_plan (ref : ProviderRef) : result rt_error ProviderPlan :=
  match dict_get (providers graph) ref with Some p => Ok p | None => Err KeyError end.

(** ** The resource stack *)

Definition push_record (s : option Z) (r : _CleanupRecord) : R unit :=
  modify (set_state s (λ x, with_resources
    (Some {| _records := records_of x ++ [r];
             stack_closed := default false (stack_closed <$> resources x) |}) x));;
  modify (add_event (Entered s r)).

Definition enter (s : option Z) (v : value) (label : ProviderRef) : R value :=
  x ← get_state s;
  throw_if (default false (stack_closed <$> resources x)) ResourceAcquireError;;
  match manager_of v with
  | AsyncManager | SyncManager =>
      entered ← app (enter_manager v);
      push_record s {| cr_value := v; cr_label := label |};;
      mret entered
  | NoManager => mret v
  end.

(** [self._records.pop()] *)
Definition pop_record (s : option Z) (r : _CleanupRecord) : R unit :=
  modify (set_state s (λ x, with_resources
    (Some {| _records := removelast (records_of x);
             stack_closed := default false (stack_closed <$> resources x) |}) x));;
  modify (add_event (Left s r)).

Definition _remaining (deadline : Z) : R Z :=
  λ w, let '(now, a) := loop_time (env w) in (Ok (Z.max 0 (deadline - now)), with_env a w).

(** The errors one cleanup adds, without a deadline and with one. *)
Definition run_exit (r : _CleanupRecord) (exc_info : _ExceptionInfo) : R (list rt_error) :=
  try_except
    (truthy ← app (exit_manager (cr_value r) exc_info);
     mret (if truthy : bool then [ResourceCleanupError (cr_label r)] else []))
    (λ error, mret [error]).

Definition wait_exit (r : _CleanupRecord) (exc_info : _ExceptionInfo) (remaining : Z)
    : R (list rt_error) :=
  λ w, let '(done, a) := exit_within (cr_value r) exc_info remaining (env w) in
       (Ok match done with
           | None => [TimeoutError]
           | Some (Ok true) => [ResourceCleanupError (cr_label r)]
           | Some (Ok false) => []
           | Some (Err error) => [error]
           end, with_env a w).

Definition run_exit_by (deadline : Z) (r : _CleanupRecord) (exc_info : _ExceptionInfo)
    : R (list rt_error) :=
  remaining ← _remaining deadline;
  if (remaining : Z) <=? 0 then
    modify (λ w : world A, with_env (exit_detached (cr_value r) exc_info (env w)) w);;
    mret [TimeoutError]
  else wait_exit r exc_info remaining.

(** [while len(self._records) > mark]: [n] is the difference. *)
Fixpoint close_loop (n : nat) (s : option Z) (exc_info : _ExceptionInfo) (deadline : option Z)
    : R (list rt_error) :=
  match n with
  | O => mret []
  | S n =>
      x ← get_state s;
      match last (records_of x) with
      | None => mret []
      | Some record =>
          pop_record s record;;
          errors ← match deadline with
                   | None => run_exit record exc_info
                   | Some d => run_exit_by d record exc_info
                   end;
          rest ← close_loop n s exc_info deadline;
          mret (errors ++ rest)
      end
  end.

Definition _close_records (s : option Z) (mark : nat) (exc_info : _ExceptionInfo)
    (deadline : option Z) : R (list rt_error) :=
  x ← get_state s;
  close_loop (length (records_of x) - mark) s exc_info deadline.

Definition rollback_to (s : option Z) (mark : nat) (exc_info : _ExceptionInfo) : R (list rt_error) :=
  _close_records s mark exc_info None.

Definition close_resources (s : option Z) (exc_info : _ExceptionInfo) (deadline : option Z)
    : R (list rt_error) :=
  modify (set_state s (λ x, with_resources
    ((λ r, {| _records := _records r; stack_closed := true |}) <$> resources x) x));;
  _close_records s 0 exc_info deadline.

(** ** Construction and resolution *)

Definition invoke (i : Invoker) (arguments : list (pystr * value)) : R value :=
  match i with
  | InvokeValue v => mret (Object v)
  | InvokeClass c => app (construct_class c arguments)
  | InvokeFactory f => app (call_factory f arguments)
  | _uncanonicalized_alias => raise RuntimeError
  end.

Definition argument (resolve : ProviderRef → option Z → R value) (ref : ProviderRef) (scope : option Z)
    (d : DependencySource) : R (option value) :=
  match src_intrinsic d with
  | Some t =>
      if bool_decide (t = TClass (-1)) then
        match _work_scope_factory with
        | None => raise ScopeError
        | Some f => v ← lift (f (ref_module_id ref)); mret (Some v)
        end
      else
        match _intrinsic_provider with
        | None => raise ScopeError
        | Some f => v ← lift (f t); mret (Some v)
        end
  | None =>
      match src_provider_ref d with
      | Some x => v ← resolve x scope; mret (Some v)
      | None => mret None
      end
  end.

Fixpoint arguments (resolve : ProviderRef → option Z → R value) (ref : ProviderRef) (scope : option Z)
    (ds : list DependencySource) (acc : list (pystr * value)) : R (list (pystr * value)) :=
  match ds with
  | [] => mret acc
  | d :: ds =>
      v ← argument resolve ref scope d;
      arguments resolve ref scope ds
        (match v with Some v => dict_set acc (src_parameter_name d) v | None => acc end)
  end.

(** The body of the [try]: the caller's scope is also the owner of what is
    constructed. *)
Definition build (resolve : ProviderRef → option Z → R value) (plan : ProviderPlan) (ref : ProviderRef)
    (recipe : ConstructionRecipe) (scope : option Z) : R value :=
  args ← arguments resolve ref scope (rec_dependencies recipe) [];
  modify (add_event (Built scope ref));;
  v ← invoke (invoker recipe) args;
  v ← match await_policy recipe with
      | ALWAYS => app (await_value v)
      | IF_AWAITABLE => if isawaitable v then app (await_value v) else mret v
      | NEVER => mret v
      end;
  v ← if manage recipe then enter scope v ref else mret v;
  mret (if pp_proxy plan then _ProviderProxy v ref (pp_method_interceptors plan) else v).

Definition rollback (scope : option Z) (mark : nat) (initial_cache : gset ProviderRef) (error : rt_error)
    : R value :=
  cleanup_errors ← rollback_to scope mark (Some error);
  modify (set_state scope (λ x, with_cache
    (filter (λ kv, kv.1 ∈ initial_cache) (cache x)) x));;
  match cleanup_errors with
  | [] => raise error
  | _ => raise (_scope_cleanup_error (Some error) cleanup_errors)
  end.

Definition _construct (resolve : ProviderRef → option Z → R value) (ref : ProviderRef)
    (recipe : ConstructionRecipe) (scope : option Z) : R value :=
  provider_plan ← lift (get_plan ref);
  modify (set_state scope (λ x, match resources x with
                                | None => with_resources (Some _ResourceStack_new) x
                                | Some _ => x
                                end));;
  x ← get_state scope;
  try_except (build resolve provider_plan ref recipe scope)
    (rollback scope (length (records_of x)) (dom (cache x))).

Definition _resolve_cached (resolve : ProviderRef → option Z → R value) (ref : ProviderRef)
    (recipe : ConstructionRecipe) (scope : option Z) : R value :=
  x ← get_state scope;
  match cache x !! ref with
  | Some v => mret v
  | None =>
      v ← _construct resolve ref recipe scope;
      modify (set_state scope (λ x, with_cache (<[ref := v]> (cache x)) x));;
      mret v
  end.

Fixpoint _resolve_ref (fuel : nat) (ref : ProviderRef) (scope : option Z) : R value :=
  match fuel with
  | O => raise RecursionError
  | S fuel =>
      closed ← gets container_closed;
      throw_if closed ScopeClosedError;;
      plan ← lift (get_plan ref);
      match pp_scope plan with
      | SINGLETON => _resolve_cached (_resolve_ref fuel) (pp_canonical plan) (pp_recipe plan) None
      | REQUEST =>
          x ← get_state scope;
          throw_if (bool_decide (scope_kind_of x = KApplication) || bool_decide (lease x = None))
            ScopeError;;
          _resolve_cached (_resolve_ref fuel) (pp_canonical plan) (pp_recipe plan) scope
      | TRANSIENT => _construct (_resolve_ref fuel) (pp_canonical plan) (pp_recipe plan) scope
      end
  end.

(** A scope is used by the task that entered it, while it is open. *)
Definition check_access (task : Z) (x : _ScopeState) : result rt_error unit :=
  match lease x with
  | None => Ok tt
  | Some l => _ ← check l false; raise_if (bool_decide (owner_task x ≠ Some task)) ScopeError
  end.

Definition resolve_ref (fuel : nat) (task : Z) (ref : ProviderRef) (scope : option Z) : R value :=
  x ← get_state scope;
  lift (check_access task x);;
  _resolve_ref fuel ref scope.

Definition resolve_token (fuel : nat) (task : Z) (module_id : ModuleId) (token : Token)
    (scope : option Z) : R value :=
  match visibility graph !! (module_id, token) with
  | None => raise ScopeError
  | Some ref => resolve_ref fuel task ref scope
  end.

(** [_Resolver.resolve_ref] of a resolver of [module_id]. *)
Definition resolver_resolve_ref (fuel : nat) (task : Z) (module_id : ModuleId) (ref : ProviderRef)
    (scope : option Z) : R value :=
  throw_if (bool_decide (visibility graph !! (module_id, ref_token ref) ≠ Some ref)) ScopeError;;
  resolve_ref fuel task ref scope.

Definition close (deadline : option Z) : R (option rt_error) :=
  closed ← gets container_closed;
  if closed : bool then mret None
  else
    modify (λ w, {| app_scope := app_scope w; scopes := scopes w; next_scope := next_scope w;
                    admission := admission w;
                    container_closed := true; trace := trace w; env := env w |});;
    errors ← close_resources None None deadline;
    mret (head errors).

(** ** Request scopes *)

Definition alter_scope (i : Z) (f : RequestScope → RequestScope) (w : world A) : world A :=
  {| app_scope := app_scope w; scopes := alter f i (scopes w); next_scope := next_scope w;
     admission := admission w;
     container_closed := container_closed w; trace := trace w; env := env w |}.

Definition get_scope (i : Z) : R RequestScope :=
  λ w, match scopes w !! i with Some r => (Ok r, w) | None => (Err KeyError, w) end.

Definition RequestScope_new (module_id : ModuleId) (kind : scope_kind) : R Z :=
  w ← get;
  modify (λ w, {| app_scope := app_scope w;
                  scopes := <[next_scope w := {| rs_module_id := module_id;
                      rs_state := new_request_scope kind; _entered := false; _closed := false;
                      _cleanup_task := None |}]> (scopes w);
                  next_scope := next_scope w + 1; admission := admission w;
                  container_closed := container_closed w;
                  trace := trace w; env := env w |});;
  mret (next_scope w).

(** [on_open] is what registering the scope with the application does. *)
Definition __aenter__ (task : Z) (on_open : R unit) (i : Z) : R unit :=
  r ← get_scope i;
  throw_if (_entered r) ScopeError;;
  modify (alter_scope i (λ r, {| rs_module_id := rs_module_id r;
    rs_state := with_owner task (rs_state r); _entered := true; _closed := _closed r;
    _cleanup_task := _cleanup_task r |}));;
  on_open.

Definition scope_resolve_ref (fuel : nat) (task : Z) (i : Z) (ref : ProviderRef) : R value :=
  r ← get_scope i;
  throw_if (negb (_entered r) || _closed r) ScopeError;;
  resolve_ref fuel task ref (Some i).

Definition _can_close_inline (x : _ScopeState) : bool :=
  match resources x with None => true | Some s => bool_decide (_records s = []) end.

Definition _finish_close (on_close : R unit) (i : Z) : R unit :=
  modify (alter_scope i (λ r, {| rs_module_id := rs_module_id r;
    rs_state := with_lease (λ _, CLOSED) (rs_state r); _entered := _entered r; _closed := true;
    _cleanup_task := _cleanup_task r |}));;
  on_close.

Definition with_cleanup (c : _ExceptionInfo * option (option rt_error)) (r : RequestScope) : RequestScope :=
  {| rs_module_id := rs_module_id r; rs_state := rs_state r; _entered := _entered r;
     _closed := _closed r; _cleanup_task := Some c |}.

(** The task that cleans up. *)
Definition _close (on_close : R unit) (i : Z) (exc_info : _ExceptionInfo) : R (option rt_error) :=
  r ← get_scope i;
  cleanup_errors ← match resources (rs_state r) with
                   | None => mret []
                   | Some _ => close_resources (Some i) exc_info None
                   end;
  _finish_close on_close i;;
  mret match cleanup_errors with
       | [] => None
       | _ => match exc_info with
              | Some e => if is_control e then None
                          else Some (_scope_cleanup_error exc_info cleanup_errors)
              | None => Some (_scope_cleanup_error exc_info cleanup_errors)
              end
       end.

(** [_finalize] up to the wait: whether there is a task to wait for. *)
Definition finalize_begin (on_close : R unit) (i : Z) (exc_info : _ExceptionInfo) : R bool :=
  r ← get_scope i;
  if _closed r then mret false
  else
    match _cleanup_task r with
    | Some _ => mret true
    | None =>
        modify (set_state (Some i) (with_lease begin_close));;
        if _can_close_inline (rs_state r) then _finish_close on_close i;; mret false
        else modify (alter_scope i (with_cleanup (exc_info, None)));; mret true
    end.

(** A step of the event loop: the cleanup task runs, if there is one to run. *)
Definition run_cleanup (on_close : R unit) (i : Z) : R unit :=
  r ← get_scope i;
  match _cleanup_task r with
  | Some (exc_info, None) =>
      error ← _close on_close i exc_info;
      modify (alter_scope i (with_cleanup (exc_info, Some error)))
  | _ => mret tt
  end.

(** [interrupted]: what the wait for the shielded task raised, if it did not
    last until the end of the task. The task goes on without it. *)
Definition finalize_end (i : Z) (interrupted : option rt_error) : R unit :=
  match interrupted with
  | Some e => raise e
  | None =>
      r ← get_scope i;
      match _cleanup_task r with
      | Some (_, Some (Some e)) => raise e
      | _ => mret tt
      end
  end.

Definition _finalize (on_close : R unit) (i : Z) (exc_info : _ExceptionInfo)
    (interrupted : option rt_error) : R unit :=
  waits ← finalize_begin on_close i exc_info;
  if waits : bool then run_cleanup on_close i;; finalize_end i interrupted else mret tt.

End container.
