(* ===== verification/RtContainerFacts.v ===== *)
(** * The container runtime: what resolution does to the scopes

    Two relations between the state before and after a call: [grown] for a call
    that returned (scopes only gain cached providers and resources) and
    [restored] for one that raised (the scope it ran in is as before); and the
    stack discipline of resources against the trace. *)

From Stdlib Require Import ZArith Lia.
From stdpp Require Import base tactics list gmap strings.
From S2P Require Import Prelude DiDeclarations DiCompiler RtContainer.
Local Open Scope Z_scope.

(** ** One scope *)

(** What no resolution changes of a scope. *)
Definition scope_frame (x : _ScopeState) :=
  (scope_kind_of x, lease x, owner_task x, default false (stack_closed <$> resources x)).

Definition grows (x y : _ScopeState) : Prop :=
  scope_frame y = scope_frame x ∧ cache x ⊆ cache y ∧ ∃ extra, records_of y = records_of x ++ extra.

Definition same_scope (x y : _ScopeState) : Prop :=
  scope_frame y = scope_frame x ∧ cache y = cache x ∧ records_of y = records_of x.

Lemma grows_refl x : grows x x.
Proof. split_and!; [done..|]. exists []. by rewrite app_nil_r. Qed.

Lemma grows_trans x y z : grows x y → grows y z → grows x z.
Proof.
  intros (H1 & H2 & e1 & H3) (H4 & H5 & e2 & H6). split_and!; [congruence|by etrans|].
  exists (e1 ++ e2). by rewrite H6, H3, app_assoc.
Qed.

Lemma same_grows x y : same_scope x y → grows x y.
Proof. intros (H1 & H2 & H3). split_and!; [done|by rewrite H2|]. exists []. by rewrite app_nil_r. Qed.

#[export] Hint Resolve grows_refl same_grows : tori.

Section facts.
Context {A : Type} `{Application A}.
Context (graph : CompiledGraph).
Context (_work_scope_factory : option (ModuleId → result rt_error value)).
Context (_intrinsic_provider : option (Token → result rt_error value)).
Implicit Types w : world A.

(** ** The whole container *)

(** What no resolution changes of the container. *)
Definition world_frame w :=
  (next_scope w, admission w, container_closed w,
   (λ r, (rs_module_id r, _entered r, _closed r, _cleanup_task r)) <$> scopes w).

Definition evolves (P : option Z → _ScopeState → _ScopeState → Prop) w w' : Prop :=
  world_frame w' = world_frame w ∧
  ∀ t, match state_of w t, state_of w' t with
       | Some x, Some y => P t x y
       | None, None => True
       | _, _ => False
       end.

Definition grown (s : option Z) : world A → world A → Prop :=
  evolves (λ t x y, if decide (t = s ∨ t = None) then grows x y else y = x).

Definition restored (s : option Z) : world A → world A → Prop :=
  evolves (λ t x y, if decide (t = s) then same_scope x y
                    else if decide (t = None) then grows x y else y = x).

Lemma evolves_refl P w : (∀ t x, P t x x) → evolves P w w.
Proof. intros HP. split; [done|]. intros t. destruct (state_of w t); auto. Qed.

Lemma evolves_trans P Q T w1 w2 w3 :
  (∀ t x y z, P t x y → Q t y z → T t x z) → evolves P w1 w2 → evolves Q w2 w3 → evolves T w1 w3.
Proof.
  intros HPQ [F1 H1] [F2 H2]. split; [congruence|]. intros t. specialize (H1 t). specialize (H2 t).
  destruct (state_of w1 t), (state_of w2 t), (state_of w3 t); try done. eauto.
Qed.

Lemma evolves_weaken P Q w w' : (∀ t x y, P t x y → Q t x y) → evolves P w w' → evolves Q w w'.
Proof.
  intros HPQ [F Hs]. split; [done|]. intros t. specialize (Hs t).
  destruct (state_of w t), (state_of w' t); try done. auto.
Qed.

Lemma grown_refl s w : grown s w w.
Proof. apply evolves_refl. intros t x. by case_decide; auto with tori. Qed.

Lemma grown_trans s w1 w2 w3 : grown s w1 w2 → grown s w2 w3 → grown s w1 w3.
Proof. apply evolves_trans. intros t x y z. case_decide; [by apply grows_trans|congruence]. Qed.

Lemma restored_refl s w : restored s w w.
Proof. apply evolves_refl. intros t x. repeat case_decide; auto with tori; done. Qed.

Lemma restored_grown s w w' : restored s w w' → grown s w w'.
Proof.
  apply evolves_weaken. intros t x y Hxy. repeat case_decide; try tauto; auto with tori.
Qed.

(** What the application's own scope does counts for every scope. *)
Lemma grown_app s w w' : grown None w w' → grown s w w'.
Proof.
  apply evolves_weaken. intros t x y Hxy. repeat case_decide; try tauto. subst y. apply grows_refl.
Qed.

Lemma restored_app s w w' : restored None w w' → restored s w w'.
Proof.
  apply evolves_weaken. intros t x y Hxy. repeat case_decide; subst; try done; auto with tori.
Qed.

Lemma grown_restored s w1 w2 w3 : restored s w1 w2 → grown s w2 w3 → grown s w1 w3.
Proof. intros H1 H2. eapply grown_trans; [by apply restored_grown|done]. Qed.

(** *** Reading and writing a scope *)

Lemma state_of_set w s f t :
  state_of (set_state s f w) t = if decide (t = s) then f <$> state_of w t else state_of w t.
Proof.
  destruct s as [i|], t as [j|]; simpl; repeat case_decide; simplify_eq; try done.
  - by rewrite lookup_alter_eq, <- !option_fmap_compose.
  - rewrite lookup_alter_ne by congruence. done.
Qed.

Lemma world_frame_set w s f : world_frame (set_state s f w) = world_frame w.
Proof.
  unfold world_frame. destruct s as [i|]; [|done]. simpl. f_equal. apply map_eq. intros j.
  rewrite !lookup_fmap. destruct (decide (i = j)) as [->|].
  - rewrite lookup_alter_eq. by destruct (scopes w !! j).
  - by rewrite lookup_alter_ne.
Qed.

Lemma evolves_set P w s f :
  (∀ t x, P t x x) → (∀ x, state_of w s = Some x → P s x (f x)) → evolves P w (set_state s f w).
Proof.
  intros Hr Hf. split; [by rewrite world_frame_set|]. intros t. rewrite state_of_set.
  destruct (state_of w t) as [x|] eqn:Hx; simpl; case_decide; subst; simpl; auto.
Qed.

(** Changes of the application's state and of the trace are no changes of the
    scopes. *)
Lemma evolves_env P w w' a : evolves P w w' → evolves P w (with_env a w').
Proof. done. Qed.
Lemma evolves_event P w w' e : evolves P w w' → evolves P w (add_event e w').
Proof. done. Qed.

Lemma grows_records x extra c :
  c = default false (stack_closed <$> resources x) →
  grows x (with_resources (Some {| _records := records_of x ++ extra; stack_closed := c |}) x).
Proof. intros ->. split_and!; [done..|]. by exists extra. Qed.

(** ** Single steps *)

Lemma app_grown {B} s (m : M A rt_error B) w : grown s w (app m w).2.
Proof.
  unfold app, zoom. destruct (m (env w)) as [r a]. simpl.
  destruct (grown_refl s w) as [F Hs]. by split.
Qed.

Lemma push_record_grown s r w : grown s w (push_record s r w).2.
Proof.
  apply evolves_event, evolves_set.
  - intros t x. case_decide; auto with tori.
  - intros x _. rewrite decide_True by tauto. by apply grows_records.
Qed.

(** A sequence grows the scopes when its statements do. *)
Definition growing {B} (s : option Z) (m : M (world A) rt_error B) : Prop := ∀ w, grown s w (m w).2.

Lemma growing_bind {B C} s (m : M (world A) rt_error B) (f : B → M (world A) rt_error C) :
  growing s m → (∀ b, growing s (f b)) → growing s (m ≫= f).
Proof.
  intros Hm Hf w. specialize (Hm w). unfold mbind, M_bind. destruct (m w) as [[b|e] w1]; [|done].
  eapply grown_trans; [exact Hm|apply Hf].
Qed.

Lemma growing_still {B} s (m : M (world A) rt_error B) : (∀ w, (m w).2 = w) → growing s m.
Proof. intros Hm w. rewrite Hm. apply grown_refl. Qed.

Lemma growing_app {B} s (m : M A rt_error B) : growing s (app m).
Proof. intros w. apply app_grown. Qed.

Lemma get_state_still s w : (get_state s w).2 = w.
Proof. unfold get_state. by destruct (state_of w s). Qed.

Lemma run_bind_get_state {B} s (f : _ScopeState → M (world A) rt_error B) w x :
  state_of w s = Some x → (get_state s ≫= f) w = f x w.
Proof. intros Hx. unfold get_state, mbind, M_bind. by rewrite Hx. Qed.

Lemma growing_enter s v label : growing s (enter s v label).
Proof.
  apply growing_bind; [apply growing_still, get_state_still|]. intros x.
  apply growing_bind; [by apply growing_still|]. intros _.
  destruct (manager_of v); try (by apply growing_still).
  all: apply growing_bind; [apply growing_app|]; intros e;
    apply growing_bind; [intros w; apply push_record_grown|]; intros _; by apply growing_still.
Qed.

(** ** Closing resources *)

Lemma run_exit_env r exc d w :
  ∃ errs a, (match d with None => run_exit r exc | Some d => run_exit_by d r exc end) w =
            (Ok errs, with_env a w).
Proof.
  destruct d as [d|].
  - unfold run_exit_by, _remaining, mbind, M_bind. destruct (loop_time (env w)) as [now a].
    case_match; [by eexists _, _|]. unfold wait_exit. simpl.
    destruct (exit_within _ _ _ _) as [done a']. by eexists _, a'.
  - unfold run_exit, try_except, app, zoom, mbind, M_bind.
    destruct (exit_manager _ _ _) as [[b|e] a]; by eexists _, a.
Qed.

(** [n] resources of [s] closed, the most recent first. *)
Definition popped (n : nat) (s : option Z) : world A → world A → Prop :=
  evolves (λ t x y, if decide (t = s) then
                      scope_frame y = scope_frame x ∧ cache y = cache x ∧
                      records_of y = take (length (records_of x) - n) (records_of x)
                    else y = x).

Lemma popped_set s r w x :
  state_of w s = Some x → last (records_of x) = Some r → ∃ y,
  pop_record s r w = (Ok tt, add_event (Left s r) (set_state s (λ _, y) w)) ∧
  scope_frame y = scope_frame x ∧ cache y = cache x ∧
  records_of y = take (length (records_of x) - 1) (records_of x).
Proof.
  intros Hx Hr.
  exists (with_resources (Some {| _records := removelast (records_of x);
            stack_closed := default false (stack_closed <$> resources x) |}) x).
  split; [|split_and!].
  - unfold pop_record. autorewrite with mrun. f_equal. f_equal.
    destruct s as [i|]; simpl in *; [|injection Hx as <-; reflexivity].
    f_equal. apply map_eq. intros j. destruct (decide (i = j)) as [->|]; [|by rewrite !lookup_alter_ne].
    rewrite !lookup_alter_eq. destruct (scopes w !! j) as [q|]; [|done]. injection Hx as <-. reflexivity.
  - reflexivity.
  - reflexivity.
  - unfold records_of at 1. simpl. apply last_Some in Hr as [l Hl]. rewrite Hl.
    rewrite removelast_last, length_app. simpl. rewrite Nat.add_sub. by rewrite take_app_length.
Qed.

Lemma close_loop_run n s exc d w x :
  state_of w s = Some x → (n <= length (records_of x))%nat →
  ∃ errs w', close_loop n s exc d w = (Ok errs, w') ∧ popped n s w w'.
Proof.
  revert w x. induction n as [|n IH]; intros w x Hx Hn; simpl.
  - exists [], w. split; [done|]. split; [done|]. intros t. destruct (state_of w t) as [y|] eqn:Hy; [|done].
    case_decide; [|done]. rewrite Nat.sub_0_r, take_ge by lia. done.
  - unfold get_state. unfold mbind at 1, M_bind. rewrite Hx.
    destruct (last (records_of x)) as [r|] eqn:Hr; last first.
    { apply last_None in Hr. rewrite Hr in Hn. simpl in Hn. lia. }
    destruct (popped_set s r w x Hx Hr) as (y & Hpop & Hf & Hc & Hrec).
    rewrite (M_bind_run _ _ _ _ _ Hpop).
    set (w1 := add_event _ _). destruct (run_exit_env r exc d w1) as (errs & a & Hex).
    rewrite (M_bind_run _ _ _ _ _ Hex).
    assert (state_of (with_env a w1) s = Some y) as Hy.
    { change (state_of (with_env a w1) s) with (state_of (set_state s (λ _, y) w) s).
      rewrite state_of_set, decide_True, Hx by done. done. }
    destruct (IH (with_env a w1) y Hy) as (errs' & w' & Hrun & Hpopped).
    { rewrite Hrec, length_take. lia. }
    rewrite (M_bind_run _ _ _ _ _ Hrun). eexists _, w'. split; [reflexivity|].
    destruct Hpopped as [F Hp]. split.
    { rewrite F. change (world_frame (set_state s (λ _, y) w) = world_frame w). apply world_frame_set. }
    intros t. specialize (Hp t).
    change (state_of (with_env a w1) t) with (state_of (set_state s (λ _, y) w) t) in Hp.
    rewrite state_of_set in Hp. case_decide as Ht; [|exact Hp]. subst t. rewrite Hx in Hp |- *. simpl in Hp.
    destruct (state_of w' s) as [z|]; [|done]. destruct Hp as (G1 & G2 & G3).
    split_and!; [congruence..|]. rewrite G3, Hrec, length_take, take_take. f_equal. lia.
Qed.

Lemma filter_dom_subseteq (c d : gmap ProviderRef value) :
  c ⊆ d → filter (λ kv, kv.1 ∈ dom c) d = c.
Proof.
  intros Hcd. apply map_eq. intros k. destruct (c !! k) as [v|] eqn:Hk.
  - apply map_lookup_filter_Some. split; [by eapply lookup_weaken|by apply elem_of_dom].
  - apply map_lookup_filter_None. right. intros v _ Hin. apply elem_of_dom in Hin as [? ?]. simpl in *. congruence.
Qed.

(** Rolling back a construction that has only grown its scope restores it. *)
Lemma rollback_run s w1 w2 x e :
  state_of w1 s = Some x → grown s w1 w2 → ∃ e' w3,
  rollback s (length (records_of x)) (dom (cache x)) e w2 = (Err e', w3) ∧ restored s w1 w3.
Proof.
  intros Hx Hg. pose proof (proj2 Hg s) as Hy. rewrite Hx in Hy.
  destruct (state_of w2 s) as [y|] eqn:Hy2; [|done]. rewrite decide_True in Hy by tauto. destruct Hy as (F & Hc & extra & Hrec).
  unfold rollback, rollback_to, _close_records, get_state. rewrite run_bind_bind. unfold mbind at 1, M_bind.
  rewrite Hy2. destruct (close_loop_run (length (records_of y) - length (records_of x)) s (Some e) None w2 y Hy2)
    as (errs & w' & Hrun & Fp & Hp); [lia|]. rewrite (M_bind_run _ _ _ _ _ Hrun).
  exists (match errs with [] => e | _ => _scope_cleanup_error (Some e) errs end).
  eexists. split; [autorewrite with mrun; by destruct errs|]. split.
  - rewrite world_frame_set, Fp. apply Hg.
  - intros t. rewrite state_of_set. specialize (Hp t). pose proof (proj2 Hg t) as Hgt.
    destruct (state_of w1 t) as [x1|] eqn:Hx1, (state_of w2 t) as [x2|] eqn:Hx2, (state_of w' t) as [x3|];
      try done; [|by case_decide]. repeat case_decide; subst; simpl; try tauto.
    rewrite Hx in Hx1. rewrite Hy2 in Hx2. injection Hx1 as <-. injection Hx2 as <-.
    destruct Hp as (P1 & P2 & P3). split_and!; [by rewrite <- F, <- P1| |].
    + change (cache (with_cache ?c x3)) with c. rewrite P2. by apply filter_dom_subseteq.
    + change (records_of (with_cache ?c x3)) with (records_of x3). rewrite P3, Hrec, length_app.
      replace (_ - _)%nat with (length (records_of x)) by lia. apply take_app_length.
Qed.

(** ** Construction and resolution *)

(** A call that grows its scopes when it returns and restores its own when it
    raises. *)
Definition atomic_run {B} (s : option Z) (w : world A) (run : result rt_error B * world A) : Prop :=
  match run with (Ok _, w') => grown s w w' | (Err _, w') => restored s w w' end.

Lemma atomic_growing {B} s (m : M (world A) rt_error B) : (∀ w, atomic_run s w (m w)) → growing s m.
Proof. intros Hm w. specialize (Hm w). destruct (m w) as [[]]; [done|by apply restored_grown]. Qed.

Section resolving.
Context (resolve : ProviderRef → option Z → M (world A) rt_error value).
Context (Hresolve : ∀ ref s w, atomic_run s w (resolve ref s w)).

Abbreviation arguments := (arguments _work_scope_factory _intrinsic_provider).

Lemma growing_argument ref s d :
  growing s (argument _work_scope_factory _intrinsic_provider resolve ref s d).
Proof.
  unfold argument. repeat case_match; try (by apply growing_still);
    (apply growing_bind; [|intros ?; by apply growing_still]).
  1,2: by apply growing_still.
  apply atomic_growing. intros w. apply Hresolve.
Qed.

Lemma growing_arguments ref s ds acc : growing s (arguments resolve ref s ds acc).
Proof.
  revert acc. induction ds as [|d ds IH]; intros acc; simpl; [by apply growing_still|].
  apply growing_bind; [apply growing_argument|]. intros v. apply IH.
Qed.

Lemma growing_invoke s i args : growing s (invoke i args).
Proof. destruct i; try apply growing_app; by apply growing_still. Qed.

Lemma growing_build plan ref recipe s :
  growing s (build _work_scope_factory _intrinsic_provider resolve plan ref recipe s).
Proof.
  apply growing_bind; [apply growing_arguments|]. intros args.
  apply growing_bind; [intros w; apply evolves_event, grown_refl|]. intros _.
  apply growing_bind; [apply growing_invoke|]. intros v.
  apply growing_bind.
  { repeat case_match; try apply growing_app; by apply growing_still. }
  intros v'. apply growing_bind; [case_match; [apply growing_enter|by apply growing_still]|].
  intros v''. by apply growing_still.
Qed.

Abbreviation _construct := (_construct graph _work_scope_factory _intrinsic_provider).
Abbreviation _resolve_cached := (_resolve_cached graph _work_scope_factory _intrinsic_provider).

Lemma construct_atomic ref recipe s w : atomic_run s w (_construct resolve ref recipe s w).
Proof.
  unfold RtContainer._construct. autorewrite with mrun.
  destruct (get_plan graph ref) as [plan|e]; [|apply restored_refl].
  autorewrite with mrun. set (ensure := λ x, match resources x with None => _ | Some _ => x end).
  assert (restored s w (set_state s ensure w)) as Hens.
  { apply evolves_set; [intros t x; repeat case_decide; auto with tori; done|].
    intros x _. rewrite decide_True by done. unfold ensure, same_scope, scope_frame, records_of.
    by destruct (resources x) eqn:Hr; rewrite ?Hr. }
  set (w1 := set_state s ensure w) in *. unfold get_state. unfold mbind at 1, M_bind.
  destruct (state_of w1 s) as [x|] eqn:Hx; [|exact Hens]. unfold try_except.
  pose proof (growing_build plan ref recipe s w1) as Hb.
  destruct (build _ _ resolve plan ref recipe s w1) as [[v|e] w2]; simpl in Hb |- *.
  - by eapply grown_restored.
  - destruct (rollback_run s w1 w2 x e Hx Hb) as (e' & w3 & -> & Hr).
    eapply evolves_trans; [|exact Hens|exact Hr]. intros t y z u. repeat case_decide; try congruence.
    + intros (?&?&?) (?&?&?). split_and!; congruence.
    + apply grows_trans.
Qed.

Lemma resolve_cached_atomic ref recipe s w : atomic_run s w (_resolve_cached resolve ref recipe s w).
Proof.
  unfold RtContainer._resolve_cached, get_state. unfold mbind at 1, M_bind.
  destruct (state_of w s) as [x|] eqn:Hx; [|apply restored_refl].
  destruct (cache x !! ref) as [v|] eqn:Hc; [apply grown_refl|].
  pose proof (construct_atomic ref recipe s w) as Hcon.
  destruct (_construct resolve ref recipe s w) as [[v|e] w1] eqn:Hrun;
    [|by rewrite (M_bind_eq _ _ _ _ _ Hrun)].
  rewrite (M_bind_run _ _ _ _ _ Hrun). autorewrite with mrun. simpl in *.
  destruct Hcon as [F Hg]. split; [by rewrite world_frame_set|]. intros t. rewrite state_of_set.
  specialize (Hg t). destruct (state_of w t) as [y|] eqn:Hy, (state_of w1 t) as [z|]; try done;
    [|by case_decide]. repeat case_decide; subst; try tauto; simpl.
  rewrite Hx in Hy. injection Hy as <-. destruct Hg as (G1 & G2 & G3). split_and!; [done| |done].
  apply insert_subseteq_r; done.
Qed.

End resolving.

Abbreviation _resolve_ref := (_resolve_ref graph _work_scope_factory _intrinsic_provider).

Lemma resolve_atomic fuel ref s w : atomic_run s w (_resolve_ref fuel ref s w).
Proof.
  revert ref s w. induction fuel as [|fuel IH]; intros ref s w; simpl; [apply restored_refl|].
  autorewrite with mrun. case_match; [apply restored_refl|]. autorewrite with mrun.
  destruct (get_plan graph ref) as [plan|e]; [|apply restored_refl].
  destruct (pp_scope plan).
  - pose proof (resolve_cached_atomic _ IH (pp_canonical plan) (pp_recipe plan) None w) as Hr.
    unfold atomic_run in *. case_match. case_match; [by apply grown_app|by apply restored_app].
  - unfold get_state. unfold mbind at 1, M_bind.
    destruct (state_of w s) as [x|]; [|apply restored_refl]. autorewrite with mrun.
    case_match; [apply restored_refl|]. by apply resolve_cached_atomic.
  - by apply construct_atomic.
Qed.

(** ** The stack discipline

    The resources a scope holds are those it entered and has not left, and it
    left the most recent one each time. *)

Definition event_scope (e : event) : option Z :=
  match e with Built s _ | Entered s _ | Left s _ => s end.

Inductive stack (t : option Z) : list event → list _CleanupRecord → Prop :=
| stack_nil : stack t [] []
| stack_built tr l s r : stack t tr l → stack t (tr ++ [Built s r]) l
| stack_entered tr l r : stack t tr l → stack t (tr ++ [Entered t r]) (l ++ [r])
| stack_left tr l r : stack t tr (l ++ [r]) → stack t (tr ++ [Left t r]) l
| stack_other tr l e : stack t tr l → event_scope e ≠ t → stack t (tr ++ [e]) l.

Definition held w (t : option Z) : list _CleanupRecord := default [] (records_of <$> state_of w t).

Definition lifo w : Prop := ∀ t, stack t (trace w) (held w t).

Lemma held_set w s f t :
  (∀ x, state_of w s = Some x → records_of (f x) = records_of x) → held (set_state s f w) t = held w t.
Proof.
  intros Hf. unfold held. rewrite state_of_set. case_decide; [|done]. subst.
  destruct (state_of w s) eqn:Hs; [|done]. simpl. by apply Hf.
Qed.

Lemma trace_set w s f : trace (set_state s f w) = trace w.
Proof. by destruct s. Qed.

Lemma lifo_set w s f :
  (∀ x, state_of w s = Some x → records_of (f x) = records_of x) → lifo w → lifo (set_state s f w).
Proof. intros Hf Hl t. rewrite trace_set, held_set by done. apply Hl. Qed.

Lemma lifo_modify s f :
  (∀ x, records_of (f x) = records_of x) → pres lifo (modify (set_state s f) : M (world A) rt_error unit).
Proof. intros Hf. apply pres_modify. intros w. apply lifo_set. auto. Qed.

Lemma lifo_app {B} (m : M A rt_error B) : pres lifo (app m).
Proof. intros w Hw. unfold app, zoom. destruct (m (env w)). done. Qed.

Lemma lifo_get_state s : pres lifo (get_state s : M (world A) rt_error _).
Proof. intros w Hw. by rewrite get_state_still. Qed.

Lemma lifo_push w s x r :
  state_of w s = Some x → lifo w → lifo (push_record s r w).2.
Proof.
  intros Hx Hl t. unfold push_record. autorewrite with mrun. simpl. rewrite trace_set.
  specialize (Hl t). unfold held. change (state_of (add_event ?e ?v) t) with (state_of v t).
  rewrite state_of_set. case_decide as Ht; [subst t|].
  - unfold held in Hl. rewrite Hx in Hl |- *. simpl in *. by apply stack_entered.
  - apply stack_other; [exact Hl|]. simpl. congruence.
Qed.

Lemma lifo_pop w s x r :
  state_of w s = Some x → last (records_of x) = Some r → lifo w → lifo (pop_record s r w).2.
Proof.
  intros Hx Hr Hl t. unfold pop_record. autorewrite with mrun. simpl. rewrite trace_set.
  specialize (Hl t). unfold held. change (state_of (add_event ?e ?v) t) with (state_of v t).
  rewrite state_of_set. case_decide as Ht; [subst t|].
  - unfold held in Hl. rewrite Hx in Hl |- *. apply last_Some in Hr as [l Hr]. simpl in *.
    unfold records_of in Hl, Hr |- * at 1. simpl. rewrite Hr in Hl.
    fold (records_of x) in *. rewrite Hr, removelast_last. by apply stack_left.
  - apply stack_other; [exact Hl|]. simpl. congruence.
Qed.

Lemma lifo_enter s v label : pres lifo (enter s v label).
Proof.
  intros w Hw. unfold enter, get_state. unfold mbind at 1, M_bind.
  destruct (state_of w s) as [x|] eqn:Hx; [|done]. autorewrite with mrun. case_match; [done|].
  destruct (manager_of v); try done.
  all: unfold mbind, M_bind, app, zoom; destruct (enter_manager v (env w)) as [[e|e] a]; try done;
    apply (lifo_push (with_env a w) s x); done.
Qed.

Lemma lifo_close_loop n s exc d : pres lifo (close_loop n s exc d).
Proof.
  induction n as [|n IH]; simpl; [auto with tori|]. intros w Hw. unfold get_state. unfold mbind at 1, M_bind.
  destruct (state_of w s) as [x|] eqn:Hx; [|done]. destruct (last (records_of x)) as [r|] eqn:Hr; [|done].
  pose proof (lifo_pop w s x r Hx Hr Hw) as Hp. unfold pop_record in Hp |- *. autorewrite with mrun in Hp |- *.
  set (w1 := add_event _ _) in *. destruct (run_exit_env r exc d w1) as (errs & a & Hex).
  rewrite (M_bind_run _ _ _ _ _ Hex). unfold mbind, M_bind. specialize (IH (with_env a w1) Hp).
  by destruct (close_loop n s exc d (with_env a w1)) as [[]].
Qed.

#[local] Hint Resolve lifo_app lifo_get_state lifo_enter lifo_close_loop : tori.

Lemma lifo_resolve fuel ref s : pres lifo (_resolve_ref fuel ref s).
Proof.
  revert ref s. induction fuel as [|fuel IH]; intros ref s; simpl; [auto with tori|].
  assert (∀ r c t, pres lifo (_construct graph _work_scope_factory _intrinsic_provider
    (_resolve_ref fuel) r c t)) as Hcon.
  { intros r c t. unfold _construct, build, rollback, rollback_to, _close_records, invoke.
    solve_pres.
    - apply lifo_modify. intros x. unfold records_of. by destruct (resources x) eqn:Hx; rewrite ?Hx.
    - generalize (@nil (pystr * value)). induction (rec_dependencies c) as [|d ds IHds]; intros acc;
        simpl; [auto with tori|]. unfold argument. solve_pres; auto.
    - apply pres_modify. intros w Hw u. apply stack_built, Hw.
    - by apply lifo_modify. }
  assert (∀ r c t, pres lifo (_resolve_cached graph _work_scope_factory _intrinsic_provider
    (_resolve_ref fuel) r c t)) as Hcached.
  { intros r c t. unfold _resolve_cached. solve_pres. by apply lifo_modify. }
  solve_pres.
Qed.

(** Closing a stack leaves everything on it, whatever fails. *)
Definition emptied (s : option Z) : world A → world A → Prop :=
  evolves (λ t x y, if decide (t = s) then
                      scope_kind_of y = scope_kind_of x ∧ lease y = lease x ∧ owner_task y = owner_task x ∧
                      cache y = cache x ∧ records_of y = []
                    else y = x).

Lemma close_resources_run s exc d w x :
  state_of w s = Some x →
  ∃ errs w', close_resources s exc d w = (Ok errs, w') ∧ emptied s w w' ∧ (lifo w → lifo w').
Proof.
  intros Hx. unfold close_resources. autorewrite with mrun.
  set (f := λ x, with_resources _ x). set (w1 := set_state s f w).
  assert (state_of w1 s = Some (f x)) as Hx1 by (unfold w1; by rewrite state_of_set, decide_True, Hx).
  assert (∀ y, records_of (f y) = records_of y) as Hrec
    by (intros y; unfold f, records_of; simpl; by destruct (resources y)).
  unfold _close_records. rewrite (run_bind_get_state _ _ _ _ Hx1), Nat.sub_0_r.
  destruct (close_loop_run (length (records_of (f x))) s exc d w1 (f x) Hx1) as (errs & w' & Hrun & Fp & Hp);
    [done|]. exists errs, w'. split_and!; [done| |].
  - split; [rewrite Fp; apply world_frame_set|]. intros t. specialize (Hp t). unfold w1 in Hp.
    rewrite state_of_set in Hp. case_decide; [subst t|done]. rewrite Hx in Hp |- *. simpl in Hp.
    destruct (state_of w' s) as [y|]; [|done]. destruct Hp as ([= K1 K2 K3 _] & P2 & P3).
    rewrite Nat.sub_diag in P3. done.
  - intros Hl. pose proof (lifo_close_loop (length (records_of (f x))) s exc d w1) as Hc.
    rewrite Hrun in Hc. apply Hc. unfold w1. apply lifo_set; auto.
Qed.

End facts.
