(* ===== verification/RtScopes.v ===== *)
(** * The container runtime: scopes over time

    How the application's kernel admits scopes, and the container with all its
    scopes as a transition system: every call that a task makes on it is one
    step, and a scope is left in two steps, its cleanup task running in
    between. *)

From Stdlib Require Import ZArith Lia.
From stdpp Require Import base tactics list gmap strings.
From S2P Require Import Prelude DiDeclarations DiCompiler RtContainer RtContainerFacts.
Local Open Scope Z_scope.

Section scopes.
Context {A : Type} `{Application A}.
Context (graph : CompiledGraph).
Context (_work_scope_factory : option (ModuleId → result rt_error value)).
Context (_intrinsic_provider : option (Token → result rt_error value)).
Implicit Types w : world A.

Abbreviation R := (M (world A) rt_error).

(** ** Admission *)

Definition set_admission (f : scope_admission → scope_admission) w : world A :=
  {| app_scope := app_scope w; scopes := scopes w; next_scope := next_scope w;
     admission := f (admission w); container_closed := container_closed w; trace := trace w;
     env := env w |}.

Definition with_active (f : gset Z → gset Z) (a : scope_admission) : scope_admission :=
  {| _request_admission_open := _request_admission_open a;
     _work_admission_open := _work_admission_open a; _active_scopes := f (_active_scopes a) |}.

Definition _track_scope (i : Z) : R unit := modify (set_admission (with_active ({[ i ]} ∪.))).

Definition _unregister_scope (i : Z) : R unit :=
  modify (set_admission (with_active (λ s, s ∖ {[ i ]}))).

Definition _register_request_scope (i : Z) : R unit :=
  w ← get;
  throw_if (negb (_request_admission_open (admission w))) ApplicationStateError;;
  _track_scope i.

Definition _register_work_scope (i : Z) : R unit :=
  w ← get;
  throw_if (negb (_work_admission_open (admission w))) ApplicationStateError;;
  _track_scope i.

(** [ApplicationKernel.request_scope] and [_work_scope] give a new scope the
    callbacks of its kind. *)
Definition on_open_of (i : Z) : R unit :=
  r ← get_scope i;
  match scope_kind_of (rs_state r) with
  | KWork => _register_work_scope i
  | _ => _register_request_scope i
  end.

Definition _work_scope (module_id : ModuleId) : R Z :=
  throw_if (negb (bool_decide (module_id ∈ mp_module_id <$> shape_modules (shape graph)))) ScopeError;;
  RequestScope_new module_id KWork.

(** ** Steps

    [OpLeave] is [async with] leaving a scope that it entered; [OpDrain] is the
    kernel giving up on a scope when it shuts down. *)

Inductive rt_op :=
| OpResolve (fuel : nat) (task : Z) (ref : ProviderRef)
| OpResolveIn (fuel : nat) (task : Z) (ref : ProviderRef) (i : Z)
| OpRequestScope (module_id : ModuleId)
| OpWorkScope (module_id : ModuleId)
| OpEnter (task : Z) (i : Z)
| OpLeave (i : Z) (exc_info : _ExceptionInfo)
| OpCleanup (i : Z)
| OpDrain (i : Z)
| OpAdmit (request work : bool)
| OpClose (deadline : option Z).

Definition forget {B} (m : R B) : R unit := m;; mret tt.

Definition rt_step (op : rt_op) : R unit :=
  match op with
  | OpResolve fuel task ref =>
      forget (resolve_ref graph _work_scope_factory _intrinsic_provider fuel task ref None)
  | OpResolveIn fuel task ref i =>
      forget (scope_resolve_ref graph _work_scope_factory _intrinsic_provider fuel task i ref)
  | OpRequestScope m => forget (RequestScope_new m KRequest)
  | OpWorkScope m => forget (_work_scope m)
  | OpEnter task i => __aenter__ task (on_open_of i) i
  | OpLeave i exc =>
      r ← get_scope i;
      if _entered r then forget (finalize_begin (_unregister_scope i) i exc) else mret tt
  | OpCleanup i => run_cleanup (_unregister_scope i) i
  | OpDrain i => modify (set_state (Some i) (with_lease begin_close))
  | OpAdmit request work =>
      modify (set_admission (λ a, {| _request_admission_open := request; _work_admission_open := work;
                                     _active_scopes := _active_scopes a |}))
  | OpClose deadline => forget (close deadline)
  end.

Definition rt_run (ops : list rt_op) w : world A := foldl (λ w op, (rt_step op w).2) w ops.

Inductive rt_reachable : world A → Prop :=
| rt_new a : rt_reachable (Container_new a)
| rt_next op w : rt_reachable w → rt_reachable (rt_step op w).2.

(** ** The invariant *)

(** Resources may still be entered. *)
Definition stack_open (x : _ScopeState) : Prop := default false (stack_closed <$> resources x) = false.

(** The lease of a scope follows its life: open, closing, closed with nothing
    left to clean up. *)
Definition scope_ok (r : RequestScope) : Prop :=
  scope_kind_of (rs_state r) ≠ KApplication ∧
  match lease (rs_state r), _closed r with
  | Some CLOSED, true => records_of (rs_state r) = []
  | Some OPEN, false => _cleanup_task r = None ∧ stack_open (rs_state r)
  | Some CLOSING, false => True
  | _, _ => False
  end ∧
  (∀ exc e, _cleanup_task r = Some (exc, Some e) → _closed r = true) ∧
  (∀ exc, _cleanup_task r = Some (exc, None) → _closed r = false) ∧
  (_closed r = true ∨ _cleanup_task r ≠ None → _entered r = true).

Record rt_inv w : Prop := {
  ri_lifo : lifo w;
  ri_app : scope_kind_of (app_scope w) = KApplication ∧ lease (app_scope w) = None;
  ri_scope i r : scopes w !! i = Some r →
    i < next_scope w ∧ scope_ok r ∧ (i ∈ _active_scopes (admission w) → _entered r = true ∧ _closed r = false);
  ri_active i : i ∈ _active_scopes (admission w) → is_Some (scopes w !! i);
  ri_closed : if container_closed w then records_of (app_scope w) = [] else stack_open (app_scope w)
}.

Lemma rt_inv_new a : rt_inv (Container_new a).
Proof.
  constructor; simpl; try done.
  intros t. unfold held. destruct t; simpl; constructor.
Qed.

(** *** Resolution *)

Lemma grown_scope s w w' i r :
  grown s w w' → scopes w !! i = Some r → ∃ r', scopes w' !! i = Some r' ∧
  rs_module_id r' = rs_module_id r ∧ _entered r' = _entered r ∧ _closed r' = _closed r ∧
  _cleanup_task r' = _cleanup_task r ∧ scope_frame (rs_state r') = scope_frame (rs_state r) ∧
  (s ≠ Some i → rs_state r' = rs_state r).
Proof.
  intros [Hf Hg] Hr. specialize (Hg (Some i)). simpl in Hg. rewrite Hr in Hg. simpl in Hg.
  injection Hf as _ _ _ Hf. apply (f_equal (lookup i)) in Hf. rewrite !lookup_fmap, Hr in Hf.
  destruct (scopes w' !! i) as [r'|]; [|done]. simpl in Hf, Hg. injection Hf as E1 E2 E3 E4. exists r'.
  split_and!; try done.
  - case_decide; [by destruct Hg|by rewrite Hg].
  - intros Hne. rewrite decide_False in Hg by naive_solver. done.
Qed.

Lemma rt_inv_grown s w w' :
  grown s w w' → lifo w' → (s = None → container_closed w = false) →
  (∀ i r, s = Some i → scopes w !! i = Some r → lease (rs_state r) = Some OPEN) →
  container_closed w = false → rt_inv w → rt_inv w'.
Proof.
  intros Hg Hl Hs Hopen Hcl [_ Happ Hsc Hact Hc]. destruct (Hg) as [[= Hn Had Hcc Hfr] Hst].
  constructor; [done| | | |].
  - specialize (Hst None). simpl in Hst. rewrite decide_True in Hst by auto.
    destruct Hst as ([= -> -> _ _] & _). done.
  - intros i r' Hr'. pose proof (f_equal (lookup i) Hfr) as Hi. rewrite !lookup_fmap, Hr' in Hi.
    destruct (scopes w !! i) as [r|] eqn:Hr; [|done].
    destruct (grown_scope s w w' i r Hg Hr) as (r2 & Hr2 & _ & E2 & E3 & E4 & E5 & E6).
    rewrite Hr' in Hr2. injection Hr2 as <-. destruct (Hsc i r Hr) as (H1 & H2 & H3).
    rewrite Hn, Had, E2, E3. split_and!; [done| |done].
    destruct (decide (s = Some i)) as [->|Hne].
    + pose proof (Hopen i r eq_refl Hr) as Ho. injection E5 as K1 K2 _ K4.
      unfold scope_ok, stack_open in *. rewrite K1, K2, K4, E2, E3, E4, Ho in *. by destruct (_closed r).
    + unfold scope_ok in *. by rewrite E2, E3, E4, E6.
  - intros i Hi. rewrite Had in Hi. destruct (Hact i Hi) as [r Hr].
    destruct (grown_scope s w w' i r Hg Hr) as (r' & Hr' & _). by exists r'.
  - rewrite Hcc, Hcl in *. specialize (Hst None). simpl in Hst. rewrite decide_True in Hst by auto.
    destruct Hst as ([= _ _ _ K] & _). unfold stack_open in *. congruence.
Qed.

Abbreviation _resolve_ref := (_resolve_ref graph _work_scope_factory _intrinsic_provider).
Abbreviation resolve_ref := (resolve_ref graph _work_scope_factory _intrinsic_provider).

(** A resolution that does anything runs in an open container and scope. *)
Lemma resolve_ref_cases fuel task ref s w :
  (∃ e, resolve_ref fuel task ref s w = (Err e, w)) ∨
  container_closed w = false ∧ (∃ x, state_of w s = Some x ∧ check_access task x = Ok tt) ∧
  resolve_ref fuel task ref s w = _resolve_ref fuel ref s w.
Proof.
  unfold RtContainer.resolve_ref. destruct (state_of w s) as [x|] eqn:Hx; last first.
  { left. exists KeyError. unfold get_state, mbind, M_bind. by rewrite Hx. }
  rewrite (run_bind_get_state _ _ _ _ Hx). autorewrite with mrun.
  destruct (check_access task x) as [[]|e] eqn:Hc; [|left; by exists e].
  destruct fuel as [|fuel]; [left; by exists RecursionError|].
  destruct (container_closed w) eqn:Hcl; [|right; eauto].
  left. exists ScopeClosedError. simpl. by rewrite run_bind_gets, Hcl.
Qed.

(** Resolving a singleton puts it into the container's cache. *)
Lemma resolve_singleton fuel ref s w w' p v :
  dict_get (providers graph) ref = Some p → pp_scope p = SINGLETON →
  _resolve_ref fuel ref s w = (Ok v, w') →
  cache (app_scope w') !! pp_canonical p = Some v.
Proof.
  intros Hp Hs. destruct fuel as [|fuel]; [done|]. simpl. rewrite run_bind_gets, run_bind_throw.
  destruct (container_closed w); [done|]. unfold get_plan. rewrite Hp, run_bind_lift, Hs. unfold _resolve_cached.
  rewrite (run_bind_get_state None _ w (app_scope w)) by done.
  destruct (cache (app_scope w) !! pp_canonical p) eqn:Hc; [by intros [= <- <-]|].
  intros Hrun. apply M_bind_ok in Hrun as (u & w1 & _ & Hrun). rewrite run_bind_modify in Hrun.
  injection Hrun as <- <-. simpl. by rewrite lookup_insert_eq.
Qed.

Lemma rt_inv_resolve fuel task ref s : pres rt_inv (resolve_ref fuel task ref s).
Proof.
  intros w Hw. destruct (resolve_ref_cases fuel task ref s w) as [[e ->]|(Hcl & (x & Hx & Hchk) & ->)]; [done|].
  pose proof (resolve_atomic graph _work_scope_factory _intrinsic_provider fuel ref s w) as Hat.
  apply (rt_inv_grown s w); try done.
  - destruct (_resolve_ref fuel ref s w) as [[]]; [done|by apply restored_grown].
  - apply lifo_resolve, Hw.
  - intros i r -> Hr. simpl in Hx. rewrite Hr in Hx. injection Hx as <-.
    destruct (ri_scope _ Hw i r Hr) as (_ & Hok & _). unfold check_access in Hchk. unfold scope_ok in Hok.
    destruct (lease (rs_state r)) as [[]|]; try done. naive_solver.
Qed.

(** *** The other steps *)

(** One scope changed, without touching its resources, and the active scopes. *)
Lemma rt_inv_update i f g w :
  rt_inv w →
  (∀ r, scopes w !! i = Some r → records_of (rs_state (f r)) = records_of (rs_state r) ∧ scope_ok (f r) ∧
     (i ∈ _active_scopes (g (admission w)) → _entered (f r) = true ∧ _closed (f r) = false)) →
  (∀ j, j ∈ _active_scopes (g (admission w)) →
     j ∈ _active_scopes (admission w) ∨ j = i ∧ is_Some (scopes w !! i)) →
  rt_inv (set_admission g (alter_scope i f w)).
Proof.
  intros [Hl Happ Hsc Hact Hc] Hf Hg. constructor; simpl; try done.
  - intros t. specialize (Hl t). simpl. replace (held _ t) with (held w t); [done|]. unfold held.
    destruct t as [j|]; [|done]. simpl. destruct (decide (i = j)) as [->|]; [|by rewrite lookup_alter_ne].
    rewrite lookup_alter_eq. destruct (scopes w !! j) as [r|] eqn:Hr; [|done]. simpl.
    by destruct (Hf r eq_refl) as [-> _].
  - intros j r' Hr'. destruct (decide (i = j)) as [<-|Hne].
    + rewrite lookup_alter_eq in Hr'. destruct (scopes w !! i) as [r|] eqn:Hr; [|done]. injection Hr' as <-.
      destruct (Hsc i r Hr) as (H1 & _). destruct (Hf r eq_refl) as (_ & H2 & H3). done.
    + rewrite lookup_alter_ne in Hr' by done. destruct (Hsc j r' Hr') as (H1 & H2 & H3).
      split_and!; [done|done|]. intros Hj. apply H3. by destruct (Hg j Hj) as [?|[-> _]].
  - intros j Hj. destruct (decide (i = j)) as [<-|].
    + rewrite lookup_alter_eq. assert (is_Some (scopes w !! i)) as [r ->]; [|by eexists].
      destruct (Hg i Hj) as [Hi|[_ Hi]]; [by apply Hact|done].
    + rewrite lookup_alter_ne by done. apply Hact. by destruct (Hg j Hj) as [?|[-> _]].
Qed.

Lemma set_admission_id w : set_admission id w = w.
Proof. by destruct w. Qed.

Lemma rt_inv_alter i f w :
  rt_inv w →
  (∀ r, scopes w !! i = Some r → records_of (rs_state (f r)) = records_of (rs_state r) ∧ scope_ok (f r) ∧
     (_entered r = true → _closed r = false → _entered (f r) = true ∧ _closed (f r) = false)) →
  rt_inv (alter_scope i f w).
Proof.
  intros Hw Hf. rewrite <- (set_admission_id (alter_scope i f w)). apply rt_inv_update; [done| |by left].
  intros r Hr. destruct (Hf r Hr) as (H1 & H2 & H3). split_and!; [done..|]. intros Hi.
  destruct (ri_scope _ Hw i r Hr) as (_ & _ & H4). destruct (H4 Hi). auto.
Qed.

Lemma rt_inv_request_scope m k : k ≠ KApplication → pres rt_inv (RequestScope_new (A := A) m k).
Proof.
  intros Hk w [Hl Happ Hsc Hact Hc]. unfold RequestScope_new. autorewrite with mrun. simpl.
  assert (scopes w !! next_scope w = None) as Hnew.
  { destruct (scopes w !! next_scope w) as [r|] eqn:Hr; [|done]. destruct (Hsc _ r Hr) as [Hlt _]. lia. }
  constructor; simpl; try done.
  - intros t. specialize (Hl t). simpl. unfold held in *. destruct t as [j|]; [|done]. simpl in *.
    destruct (decide (next_scope w = j)) as [<-|]; [|by rewrite lookup_insert_ne].
    rewrite lookup_insert_eq. by rewrite Hnew in Hl.
  - intros i r Hr. destruct (decide (next_scope w = i)) as [<-|].
    + rewrite lookup_insert_eq in Hr. injection Hr as <-. split_and!; [lia|split_and!; naive_solver|].
      intros Hi. destruct (Hact _ Hi). congruence.
    + rewrite lookup_insert_ne in Hr by done. destruct (Hsc i r Hr) as (? & ? & ?). split_and!; [lia|done..].
  - intros i Hi. destruct (decide (next_scope w = i)) as [<-|]; [rewrite lookup_insert_eq; by eexists|].
    rewrite lookup_insert_ne by done. auto.
Qed.

Lemma run_bind_get_scope {B} i (f : RequestScope → R B) w :
  (get_scope i ≫= f) w = match scopes w !! i with Some r => f r w | None => (Err KeyError, w) end.
Proof. unfold get_scope, mbind, M_bind. by destruct (scopes w !! i). Qed.
#[local] Hint Rewrite @run_bind_get_scope : mrun.

Lemma rt_inv_enter task i : pres rt_inv (__aenter__ task (on_open_of i) i).
Proof.
  intros w Hw. unfold __aenter__. autorewrite with mrun. destruct (scopes w !! i) as [r|] eqn:Hr; [|done].
  autorewrite with mrun. destruct (_entered r) eqn:He; [done|]. autorewrite with mrun.
  set (f := λ r, {| rs_module_id := _ |}).
  assert (∀ q, scopes w !! i = Some q → records_of (rs_state (f q)) = records_of (rs_state q) ∧
    scope_ok (f q) ∧ (_entered q = true → _closed q = false → _entered (f q) = true ∧ _closed (f q) = false)) as Hf.
  { intros q Hq. split_and!; [done| |done]. destruct (ri_scope _ Hw i q Hq) as (_ & (?&?&?&?&?) & _).
    by split_and!. }
  pose proof (rt_inv_alter i f w Hw Hf) as Hw1.
  assert (rt_inv (set_admission (with_active ({[i]} ∪.)) (alter_scope i f w))) as Htrack.
  { apply rt_inv_update; [done| |].
    - intros q Hq. rewrite Hr in Hq. injection Hq as <-. destruct (Hf r Hr) as (H1 & H2 & _).
      split_and!; [done..|]. intros _. split; [done|]. simpl.
      destruct (ri_scope _ Hw i r Hr) as (_ & (_ & _ & _ & _ & Hce) & _).
      destruct (_closed r); [|done]. rewrite Hce in He by auto. done.
    - simpl. intros j Hj. apply elem_of_union in Hj as [->%elem_of_singleton|Hj]; [right|by left].
      split; [done|]. by exists r. }
  unfold on_open_of. autorewrite with mrun. simpl scopes at 1. rewrite lookup_alter_eq, Hr. simpl.
  unfold _register_work_scope, _register_request_scope, _track_scope.
  destruct (scope_kind_of (rs_state r)); autorewrite with mrun; case_match; done.
Qed.

(** Closing a scope whose resources are gone. *)
Lemma rt_inv_finish i w :
  rt_inv w → (∀ r, scopes w !! i = Some r → records_of (rs_state r) = [] ∧ _entered r = true ∧
                   ∀ exc, _cleanup_task r = Some (exc, None) → False) →
  rt_inv (_finish_close (_unregister_scope i) i w).2.
Proof.
  intros Hw Hr. unfold _finish_close, _unregister_scope. autorewrite with mrun. simpl.
  apply rt_inv_update; [done| |].
  - intros r Hq. destruct (Hr r Hq) as (H1 & H2 & H3). split_and!; [done| |].
    + destruct (ri_scope _ Hw i r Hq) as (_ & (K1 & K2 & K3 & K4 & K5) & _).
      unfold scope_ok. simpl. split_and!; try done; [by destruct (lease (rs_state r)) as [[]|], (_closed r)|].
      intros exc He. by destruct (H3 exc He).
    + simpl. set_solver.
  - simpl. intros j Hj. left. set_solver.
Qed.

Lemma emptied_scope s w w' i r :
  emptied s w w' → scopes w !! i = Some r → ∃ r', scopes w' !! i = Some r' ∧
  _entered r' = _entered r ∧ _closed r' = _closed r ∧ _cleanup_task r' = _cleanup_task r ∧
  scope_kind_of (rs_state r') = scope_kind_of (rs_state r) ∧ lease (rs_state r') = lease (rs_state r) ∧
  (s = Some i → records_of (rs_state r') = []) ∧ (s ≠ Some i → rs_state r' = rs_state r).
Proof.
  intros [Hf Hg] Hr. specialize (Hg (Some i)). simpl in Hg. rewrite Hr in Hg. simpl in Hg.
  injection Hf as _ _ _ Hf. apply (f_equal (lookup i)) in Hf. rewrite !lookup_fmap, Hr in Hf.
  destruct (scopes w' !! i) as [r'|]; [|done]. simpl in Hf, Hg. injection Hf as E1 E2 E3 E4. exists r'.
  case_decide; [destruct Hg as (?&?&?&?&?)|rewrite Hg]; split_and!; try done; naive_solver.
Qed.

(** [w0] is the container before it was marked as closed. *)
Lemma rt_inv_emptied s w0 w w' :
  scopes w = scopes w0 → admission w = admission w0 → next_scope w = next_scope w0 →
  app_scope w = app_scope w0 →
  (if decide (s = None) then container_closed w = true else container_closed w = container_closed w0) →
  (∀ i r, s = Some i → scopes w !! i = Some r → lease (rs_state r) ≠ Some OPEN) →
  rt_inv w0 → emptied s w w' → lifo w' → rt_inv w'.
Proof.
  intros E1 E2 E3 E4 Hs Hno Hw Hem Hl. destruct (Hem) as [[= F1 F2 F3 F4] Hst].
  pose proof (Hst None) as Ha. simpl in Ha. constructor; [done| | | |].
  - rewrite E4 in Ha. destruct (ri_app _ Hw) as [K1 K2].
    case_decide; [destruct Ha as (-> & -> & _)|rewrite Ha]; by rewrite ?E4.
  - intros i r' Hr'. pose proof (f_equal (lookup i) F4) as Hi. rewrite !lookup_fmap, Hr' in Hi.
    destruct (scopes w !! i) as [r|] eqn:Hr; [|done]. rewrite F1, F2, E2, E3.
    destruct (emptied_scope s w w' i r Hem Hr) as (r2 & Hr2 & G2 & G3 & G4 & G5 & G6 & G7 & G8).
    rewrite Hr' in Hr2. injection Hr2 as <-. specialize (Hno i r). rewrite E1 in Hr, Hno.
    destruct (ri_scope _ Hw i r Hr) as (H1 & H2 & H3). rewrite G2, G3. split_and!; [done| |done]. unfold scope_ok in *. rewrite G2, G3, G4, G5, G6.
    destruct H2 as (K1 & K2 & K3 & K4 & K5). split_and!; try done.
    destruct (lease (rs_state r)) as [[]|], (_closed r); try done.
    + destruct (decide (s = Some i)); [naive_solver|by rewrite G8].
    + destruct (decide (s = Some i)); [auto|by rewrite G8].
  - intros i Hi. rewrite F2, E2 in Hi. destruct (ri_active _ Hw i Hi) as [r Hr]. rewrite <- E1 in Hr.
    destruct (emptied_scope s w w' i r Hem Hr) as (r' & Hr' & _). by exists r'.
  - rewrite F3. pose proof (ri_closed _ Hw) as Hc. destruct (decide (None = s)) as [<-|Hd].
    + rewrite decide_True in Hs by done. rewrite Hs. apply Ha.
    + rewrite decide_False in Hs by congruence. by rewrite Ha, E4, Hs.
Qed.

Lemma rt_inv_close d : pres rt_inv (close (A := A) d).
Proof.
  intros w Hw. unfold close. autorewrite with mrun. destruct (container_closed w) eqn:Hcl; [done|].
  autorewrite with mrun. set (w1 := {| app_scope := _ |}).
  destruct (close_resources_run None None d w1 (app_scope w) eq_refl) as (errs & w2 & Hrun & Hem & Hl).
  rewrite (M_bind_run _ _ _ _ _ Hrun). simpl. eapply (rt_inv_emptied None w w1); try done.
  apply Hl, Hw.
Qed.

Lemma alter_scope_twice i f g h w :
  alter_scope i g (set_admission h (alter_scope i f w)) = set_admission h (alter_scope i (g ∘ f) w).
Proof. unfold alter_scope, set_admission. simpl. f_equal. apply map_eq. intros j.
  destruct (decide (i = j)) as [->|]; [|by rewrite !lookup_alter_ne].
  rewrite !lookup_alter_eq. by destruct (scopes w !! j). Qed.

Lemma rt_inv_cleanup i : pres rt_inv (run_cleanup (_unregister_scope i) i).
Proof.
  intros w Hw. unfold run_cleanup. autorewrite with mrun. destruct (scopes w !! i) as [r|] eqn:Hr; [|done].
  destruct (_cleanup_task r) as [[exc [e|]]|] eqn:Hct; try done.
  assert (∃ errs w1, (match resources (rs_state r) with
                      | None => mret [] | Some _ => close_resources (Some i) exc None end : R _) w = (Ok errs, w1) ∧
    rt_inv w1 ∧ ∃ r1, scopes w1 !! i = Some r1 ∧ records_of (rs_state r1) = [] ∧ _entered r1 = true ∧
      _cleanup_task r1 = Some (exc, None) ∧ _closed r1 = false) as (errs & w1 & Hclose & Hw1 & r1 & Hr1 & Hrec & He & Hct1 & Hcl1).
  { destruct (ri_scope _ Hw i r Hr) as (_ & Hok & _). pose proof Hok as (_ & Hlease & _ & Hncl & Hent).
    specialize (Hncl exc Hct). destruct (resources (rs_state r)) as [stk|] eqn:Hres.
    - destruct (close_resources_run (Some i) exc None w (rs_state r)) as (errs & w1 & Hrun & Hem & Hl);
        [simpl; by rewrite Hr|]. exists errs, w1. split_and!; [done| |].
      + eapply (rt_inv_emptied (Some i) w w); try done; [|by apply Hl, Hw].
        intros j q [= <-] Hq. rewrite Hr in Hq. injection Hq as <-. rewrite Hncl, Hct in Hlease.
        by destruct (lease (rs_state r)) as [[]|]; destruct Hlease.
      + destruct (emptied_scope _ _ _ i r Hem Hr) as (r1 & Hr1 & G2 & G3 & G4 & _ & _ & G7 & _).
        exists r1. rewrite G2, G3, G4. split_and!; auto. apply Hent. right. by rewrite Hct.
    - exists [], w. split_and!; [done..|]. exists r. split_and!; try done; [by unfold records_of; rewrite Hres|].
      apply Hent. right. by rewrite Hct. }
  unfold _close. autorewrite with mrun. rewrite Hr. autorewrite with mrun.
  rewrite (M_bind_run _ _ _ _ _ Hclose). unfold _finish_close, _unregister_scope.
  autorewrite with mrun. simpl. rewrite alter_scope_twice. apply rt_inv_update; [done| |].
  - intros q Hq. rewrite Hr1 in Hq. injection Hq as <-. split_and!; [done| |simpl; set_solver].
    destruct (ri_scope _ Hw1 i r1 Hr1) as (_ & (K1 & K2 & _) & _). unfold scope_ok. simpl.
    rewrite Hcl1 in K2.
    split_and!; try done. by destruct (lease (rs_state r1)) as [[]|].
  - simpl. intros j Hj. left. set_solver.
Qed.

Lemma rt_inv_leave i exc :
  pres rt_inv (r ← get_scope i;
               if _entered r then forget (finalize_begin (_unregister_scope i) i exc) else mret tt).
Proof.
  intros w Hw. autorewrite with mrun. destruct (scopes w !! i) as [r|] eqn:Hr; [|done].
  destruct (_entered r) eqn:He; [|done]. unfold forget, finalize_begin. autorewrite with mrun. rewrite Hr.
  destruct (_closed r) eqn:Hcl; [done|]. destruct (_cleanup_task r) eqn:Hct; [done|].
  autorewrite with mrun. destruct (ri_scope _ Hw i r Hr) as (_ & Hok & _). destruct Hok as (K1 & K2 & K3 & K4 & K5).
  change (set_state (Some i) ?f w) with (alter_scope i (on_state f) w).
  assert (rt_inv (alter_scope i (on_state (with_lease begin_close)) w)) as Hw1.
  { apply rt_inv_alter; [done|]. intros q Hq. rewrite Hr in Hq. injection Hq as <-. split_and!; try done.
    unfold scope_ok. simpl. rewrite Hcl, Hct in *. split_and!; try done.
    by destruct (lease (rs_state r)) as [[]|]. }
  destruct (_can_close_inline (rs_state r)) eqn:Hin.
  - unfold _finish_close, _unregister_scope. autorewrite with mrun. simpl.
    apply rt_inv_finish; [done|]. intros q Hq. simpl in Hq. rewrite lookup_alter_eq, Hr in Hq.
    injection Hq as <-. simpl. rewrite Hct. split_and!; try done. unfold _can_close_inline in Hin.
    unfold records_of. simpl. destruct (resources (rs_state r)); [|done]. by apply bool_decide_eq_true in Hin.
  - autorewrite with mrun. simpl. apply rt_inv_alter; [done|]. intros q Hq. simpl in Hq.
    rewrite lookup_alter_eq, Hr in Hq. injection Hq as <-. split_and!; try done. unfold scope_ok. simpl.
    rewrite Hcl in *. split_and!; try done. by destruct (lease (rs_state r)) as [[]|].
Qed.

Lemma pres_forget {B} (I : world A → Prop) (m : R B) : pres I m → pres I (forget m).
Proof. intros Hm. apply pres_bind; [done|auto with tori]. Qed.

(** Every step keeps the invariant. *)
Lemma rt_inv_step op : pres rt_inv (rt_step op).
Proof.
  destruct op; simpl; try apply pres_forget.
  - apply rt_inv_resolve.
  - intros w Hw. unfold scope_resolve_ref. autorewrite with mrun. destruct (scopes w !! i); [|done].
    autorewrite with mrun. case_match; [done|]. by apply rt_inv_resolve.
  - by apply rt_inv_request_scope.
  - unfold _work_scope. apply pres_bind; [auto with tori|]. intros _. by apply rt_inv_request_scope.
  - apply rt_inv_enter.
  - apply rt_inv_leave.
  - apply rt_inv_cleanup.
  - intros w Hw. apply (rt_inv_alter i (on_state (with_lease begin_close)) w Hw). intros r Hr.
    destruct (ri_scope _ Hw i r Hr) as (_ & (K1 & K2 & K3 & K4 & K5) & _).
    split_and!; try done. unfold scope_ok. simpl. split_and!; try done. by destruct (lease (rs_state r)) as [[]|], (_closed r).
  - intros w [Hl Happ Hsc Hact Hc]. by constructor.
  - apply rt_inv_close.
Qed.

Lemma reachable_inv w : rt_reachable w → rt_inv w.
Proof. induction 1; [apply rt_inv_new|by apply rt_inv_step]. Qed.

(** ** What only grows *)

(** Singletons stay cached, and a closed scope never changes again. *)
Definition advances w w' : Prop :=
  cache (app_scope w) ⊆ cache (app_scope w') ∧
  ∀ i r, scopes w !! i = Some r → _closed r = true → scopes w' !! i = Some r.

Lemma advances_refl w : advances w w.
Proof. by split. Qed.

Lemma advances_trans w1 w2 w3 : advances w1 w2 → advances w2 w3 → advances w1 w3.
Proof. intros [H1 H2] [H3 H4]. split; [by etrans|auto]. Qed.

Lemma advances_alter i f g w :
  (∀ r, scopes w !! i = Some r → _closed r = true → f r = r) →
  advances w (set_admission g (alter_scope i f w)).
Proof.
  intros Hf. split; [done|]. intros j r Hr Hcl. simpl. destruct (decide (i = j)) as [<-|].
  - rewrite lookup_alter_eq, Hr. simpl. f_equal. auto.
  - by rewrite lookup_alter_ne.
Qed.

Lemma advances_alter' i f w :
  (∀ r, scopes w !! i = Some r → _closed r = true → f r = r) → advances w (alter_scope i f w).
Proof. intros Hf. rewrite <- (set_admission_id (alter_scope i f w)). by apply advances_alter. Qed.

Lemma advances_open i r f g w :
  scopes w !! i = Some r → _closed r = false → advances w (set_admission g (alter_scope i f w)).
Proof. intros Hr Hcl. apply advances_alter. intros q Hq. rewrite Hr in Hq. injection Hq as <-. congruence. Qed.

Lemma advances_resolve fuel task ref s w : rt_inv w → advances w (resolve_ref fuel task ref s w).2.
Proof.
  intros Hw. destruct (resolve_ref_cases fuel task ref s w) as [[e ->]|(_ & (x & Hx & Hchk) & ->)];
    [apply advances_refl|].
  pose proof (atomic_growing s _ (resolve_atomic graph _work_scope_factory _intrinsic_provider fuel ref s) w) as Hg.
  split.
  - pose proof (proj2 Hg None) as Ha. simpl in Ha. rewrite decide_True in Ha by auto. apply Ha.
  - intros i r Hr Hcl. destruct (grown_scope s w _ i r Hg Hr) as (r' & -> & E1 & E2 & E3 & E4 & _ & E6).
    destruct (decide (s = Some i)) as [->|Hne].
    + simpl in Hx. rewrite Hr in Hx. injection Hx as <-. destruct (ri_scope _ Hw i r Hr) as (_ & (_ & K & _) & _).
      rewrite Hcl in K. unfold check_access in Hchk. by destruct (lease (rs_state r)) as [[]|].
    + specialize (E6 Hne). destruct r, r'; simpl in *. by subst.
Qed.

Lemma advances_emptied s w w' :
  emptied s w w' → (∀ i r, s = Some i → scopes w !! i = Some r → _closed r = false) → advances w w'.
Proof.
  intros Hem Hs. split.
  - pose proof (proj2 Hem None) as Ha. simpl in Ha. case_decide; [by destruct Ha as (_ & _ & _ & -> & _)|by rewrite Ha].
  - intros i r Hr Hcl. destruct (Hem) as [[= _ _ _ F] _].
    destruct (emptied_scope s w w' i r Hem Hr) as (r' & Hr' & E2 & E3 & E4 & _ & _ & _ & E8). rewrite Hr'.
    apply (f_equal (lookup i)) in F. rewrite !lookup_fmap, Hr, Hr' in F. injection F as F _ _ _.
    assert (s ≠ Some i) as Hne by (intros ->; by rewrite (Hs i r eq_refl Hr) in Hcl).
    specialize (E8 Hne). destruct r, r'; simpl in *. by subst.
Qed.

Lemma advances_new m k w : rt_inv w → advances w (RequestScope_new m k w).2.
Proof.
  intros Hw. split; [done|]. intros i r Hr _. simpl. destruct (ri_scope _ Hw i r Hr) as [Hlt _].
  rewrite lookup_insert_ne; [done|lia].
Qed.

Lemma advances_enter task i w : rt_inv w → advances w (__aenter__ task (on_open_of i) i w).2.
Proof.
  intros Hw. unfold __aenter__. autorewrite with mrun.
  destruct (scopes w !! i) as [r|] eqn:Hr; [|apply advances_refl].
  autorewrite with mrun. destruct (_entered r) eqn:He; [apply advances_refl|]. autorewrite with mrun.
  assert (_closed r = false) as Hcl.
  { destruct (ri_scope _ Hw i r Hr) as (_ & (_ & _ & _ & _ & K) & _). destruct (_closed r); [|done].
    rewrite K in He by auto. done. }
  unfold on_open_of. autorewrite with mrun. simpl scopes at 1. rewrite lookup_alter_eq, Hr. simpl.
  unfold _register_work_scope, _register_request_scope, _track_scope.
  destruct (scope_kind_of (rs_state r)); autorewrite with mrun; case_match; simpl;
    first [apply advances_alter'|apply advances_alter]; intros q Hq; rewrite Hr in Hq;
    injection Hq as <-; congruence.
Qed.

Lemma advances_leave i exc w : advances w (rt_step (OpLeave i exc) w).2.
Proof.
  simpl. autorewrite with mrun. destruct (scopes w !! i) as [r|] eqn:Hr; [|apply advances_refl].
  destruct (_entered r); [|apply advances_refl]. unfold forget, finalize_begin. autorewrite with mrun. rewrite Hr.
  destruct (_closed r) eqn:Hcl; [apply advances_refl|]. destruct (_cleanup_task r); [apply advances_refl|].
  autorewrite with mrun. change (set_state (Some i) ?f w) with (alter_scope i (on_state f) w).
  assert (∀ f, advances w (alter_scope i f w)) as Hopen.
  { intros f. apply advances_alter'. intros q Hq. rewrite Hr in Hq. injection Hq as <-. congruence. }
  case_match; unfold _finish_close, _unregister_scope; autorewrite with mrun; simpl;
    (eapply advances_trans; [apply Hopen|]).
  - eapply advances_open; [simpl; by rewrite lookup_alter_eq, Hr|done].
  - apply advances_alter'. intros q Hq. simpl in Hq. rewrite lookup_alter_eq, Hr in Hq. injection Hq as <-.
    simpl. congruence.
Qed.

Lemma advances_cleanup i w : rt_inv w → advances w (run_cleanup (_unregister_scope i) i w).2.
Proof.
  intros Hw. unfold run_cleanup. autorewrite with mrun.
  destruct (scopes w !! i) as [r|] eqn:Hr; [|apply advances_refl].
  destruct (_cleanup_task r) as [[exc [e|]]|] eqn:Hct; try apply advances_refl.
  destruct (ri_scope _ Hw i r Hr) as (_ & (_ & _ & _ & Hcl & _) & _). specialize (Hcl exc Hct).
  assert (∃ errs w1, (match resources (rs_state r) with
                      | None => mret [] | Some _ => close_resources (Some i) exc None end : R _) w = (Ok errs, w1) ∧
    advances w w1 ∧ ∃ r1, scopes w1 !! i = Some r1 ∧ _closed r1 = false) as (errs & w1 & Hclose & Ha & r1 & Hr1 & Hcl1).
  { destruct (resources (rs_state r)) as [stk|]; [|exists [], w; eauto using advances_refl].
    destruct (close_resources_run (Some i) exc None w (rs_state r)) as (errs & w1 & Hrun & Hem & _);
      [simpl; by rewrite Hr|]. exists errs, w1. split_and!; [done| |].
    - apply (advances_emptied _ _ _ Hem). intros j q [= <-] Hq. rewrite Hr in Hq. by injection Hq as <-.
    - destruct (emptied_scope _ _ _ i r Hem Hr) as (r1 & Hr1 & _ & G3 & _). exists r1. by rewrite G3. }
  unfold _close. autorewrite with mrun. rewrite Hr. autorewrite with mrun.
  rewrite (M_bind_run _ _ _ _ _ Hclose). unfold _finish_close, _unregister_scope.
  autorewrite with mrun. simpl. rewrite alter_scope_twice. eapply advances_trans; [exact Ha|].
  by eapply advances_open.
Qed.

Lemma advances_close d w : advances w (close d w).2.
Proof.
  unfold close. autorewrite with mrun. destruct (container_closed w); [apply advances_refl|].
  autorewrite with mrun. set (w1 := {| app_scope := _ |}).
  destruct (close_resources_run None None d w1 (app_scope w) eq_refl) as (errs & w2 & Hrun & Hem & _).
  rewrite (M_bind_run _ _ _ _ _ Hrun). simpl. change (advances w1 w2). by apply (advances_emptied _ _ _ Hem).
Qed.

Lemma forget_state {B} (m : R B) w : (forget m w).2 = (m w).2.
Proof. unfold forget, mbind, M_bind. by destruct (m w) as [[]]. Qed.

Lemma advances_step op w : rt_inv w → advances w (rt_step op w).2.
Proof.
  intros Hw. destruct op; simpl; rewrite ?forget_state.
  - by apply advances_resolve.
  - unfold scope_resolve_ref. autorewrite with mrun. destruct (scopes w !! i); [|apply advances_refl].
    autorewrite with mrun. case_match; [apply advances_refl|]. by apply advances_resolve.
  - by apply advances_new.
  - unfold _work_scope. autorewrite with mrun. case_match; [apply advances_refl|]. by apply advances_new.
  - by apply advances_enter.
  - apply advances_leave.
  - by apply advances_cleanup.
  - apply (advances_alter' i (on_state (with_lease begin_close)) w). intros r Hr Hcl.
    destruct (ri_scope _ Hw i r Hr) as (_ & (_ & K & _) & _). rewrite Hcl in K.
    destruct r as [m [k l c rs o] e cl ct]; simpl in *. by destruct l as [[]|].
  - by split.
  - apply advances_close.
Qed.

Lemma rt_run_inv ops w : rt_inv w → rt_inv (rt_run ops w) ∧ advances w (rt_run ops w).
Proof.
  unfold rt_run. revert w. induction ops as [|op ops IH]; intros w Hw; simpl; [auto using advances_refl|].
  destruct (IH (rt_step op w).2) as [H1 H2]; [by apply rt_inv_step|]. split; [done|].
  eapply advances_trans; [by apply advances_step|done].
Qed.

End scopes.
