(* ===== verification/RtGraph.v ===== *)
(** * What the container needs of a graph

    The interface between the graph compiler and the container: [Runnable]
    states what the container relies on, and every graph that [compile_graph]
    returns has it. *)

From Stdlib Require Import ZArith Lia.
From stdpp Require Import base tactics list gmap strings.
From S2P Require Import Prelude DiDeclarations DiCompiler DiFinish DiGraphFacts DiFinishFacts.
From S2P Require Import DiPlanFacts DiWalkFacts DiProperties.
Local Open Scope Z_scope.

(** A provider whose recipe asks for another one. *)
Definition recipe_needs (g : CompiledGraph) (r x : ProviderRef) : Prop :=
  ∃ p d, dict_get (providers g) r = Some p ∧ d ∈ rec_dependencies (pp_recipe p) ∧
    src_provider_ref d = Some x.

Class Runnable (g : CompiledGraph) (rank : ProviderRef → nat) : Prop := {
  (** every plan is built as its canonical provider, which is a provider *)
  run_canonical r p : dict_get (providers g) r = Some p → ∃ q,
    dict_get (providers g) (pp_canonical p) = Some q ∧ pp_canonical q = pp_canonical p ∧
    pp_recipe q = pp_recipe p ∧ pp_scope q = pp_scope p;
  (** the recipe of a canonical provider can be called *)
  run_recipe r p : dict_get (providers g) r = Some p → invoker (pp_recipe p) ≠ _uncanonicalized_alias;
  (** and asks for intrinsic dependencies of the framework *)
  run_intrinsic r p d t : dict_get (providers g) r = Some p → d ∈ rec_dependencies (pp_recipe p) →
    src_intrinsic d = Some t → t ∈ _INTRINSIC_DEPENDENCIES;
  (** or for canonical providers, without a cycle *)
  run_needs r p x : recipe_needs g r x → dict_get (providers g) r = Some p → pp_canonical p = r →
    (rank x < rank r)%nat ∧ ∃ q, dict_get (providers g) x = Some q ∧ pp_canonical q = x;
  run_bounded r p : dict_get (providers g) r = Some p → (rank r < length (providers g))%nat;
  (** a singleton needs nothing of a request *)
  run_scopes r p x q : dict_get (providers g) r = Some p → pp_scope p = SINGLETON →
    pp_canonical p = r → tc (recipe_needs g) r x → dict_get (providers g) x = Some q →
    pp_scope q ≠ REQUEST;
  (** the construction order lists the providers *)
  run_order r : r ∈ provider_order g ↔ r ∈ (providers g).*1;
  (** what a module sees is a provider *)
  run_visible m t r : visibility g !! (m, t) = Some r → is_Some (dict_get (providers g) r)
}.

Section compiled.
Context `{Reflection}.
Context (c : _Compiler) (root : ModuleId) (g : CompiledGraph) (local_refs : local_refs_t).
Context (plans : module_plans_t) (cache : cache_t) (edges : edges_t).
Context (Hfin : finished c root g local_refs plans cache edges).
Let Hpre := fi_prepared _ _ _ _ _ _ _ Hfin.

(** A plan, the canonical plan behind it, and the recipe they share. *)
Lemma plan_canonical r p :
  dict_get (providers g) r = Some p → ∃ q,
  dict_get (providers g) (pp_canonical p) = Some q ∧ pp_canonical q = pp_canonical p ∧
  is_alias (pp_declaration q) = false ∧ pp_recipe p = recipe_of q ∧ pp_scope q = pp_scope p.
Proof.
  intros Hp.
  destruct (finished_plan _ _ _ _ _ _ _ Hpre r p Hp) as (p0 & Hp0 & _ & (_ & Hd & _ & Hc & cp & Hcp & Hs) & Hb).
  destruct (cache_canonical _ _ _ _ _ _ _ Hpre _ _ Hc) as (q & Hq & Hna).
  destruct (finished_plan _ _ _ _ _ _ _ Hpre _ q Hq) as (q0 & Hq0 & _ & (_ & Hdq & _ & Hcq & cq & Hcq0 & Hsq) & _).
  destruct (fi_cache _ _ _ _ _ _ _ Hpre _ _ Hcq) as [(q1 & Hq1 & Hn & _) _].
  rewrite Hq0 in Hq1. injection Hq1 as <-. rewrite Hdq in Hna. specialize (Hn Hna).
  exists q. destruct Hb as (b & Hgb & Hrec & _). rewrite Hq in Hgb. injection Hgb as <-.
  split_and!; [done|done|by rewrite Hdq| |].
  - rewrite Hrec. by apply (fi_recipe _ _ _ _ _ _ _ Hpre _ _ Hq).
  - rewrite Hsq, Hs. rewrite Hn in Hcq0. congruence.
Qed.

Lemma recipe_needs_needs r x p :
  dict_get (providers g) r = Some p → recipe_needs g r x → needs g (pp_canonical p) x.
Proof.
  intros Hp (p' & d & Hp' & Hd & Hx). rewrite Hp in Hp'. injection Hp' as <-.
  destruct (plan_canonical r p Hp) as (q & Hq & _ & Hna & Hrec & _). rewrite Hrec in Hd.
  assert (d ∈ dependency_source <$> pp_dependencies q) as Hin
    by (unfold recipe_of, _compile_recipe in Hd; by destruct (pp_declaration q)).
  apply list_elem_of_fmap in Hin as (dp & -> & Hdp). exists q, dp. done.
Qed.

Lemma needs_provider r x : needs g r x → ∃ q, dict_get (providers g) x = Some q ∧ pp_canonical q = x.
Proof.
  intros (p & d & Hp & Hd & Hx).
  destruct (finished_dependency _ _ _ _ _ _ _ Hpre r p d x Hp Hd Hx) as (token & y & _ & _ & Hy).
  destruct (cache_canonical _ _ _ _ _ _ _ Hpre y x Hy) as (q & Hq & Hna). exists q. split; [done|].
  destruct (finished_plan _ _ _ _ _ _ _ Hpre x q Hq) as (q0 & Hq0 & _ & (_ & Hdq & _ & Hcq & _) & _).
  destruct (fi_cache _ _ _ _ _ _ _ Hpre _ _ Hcq) as [(q1 & Hq1 & Hn & _) _].
  rewrite Hq0 in Hq1. injection Hq1 as <-. apply Hn. by rewrite <- Hdq.
Qed.

Lemma module_key m r :
  r ∈ pp_key <$> providers_of plans m → is_Some (dict_get (providers g) r).
Proof.
  intros Hr. rewrite dict_get_is_Some, (fi_keys _ _ _ _ _ _ _ Hpre). destruct (collect_ok plans) as (_ & Hk & _).
  apply Hk. unfold providers_of in Hr. destruct (dict_get plans m) as [mp|] eqn:Hm; [|by apply elem_of_nil in Hr].
  simpl in Hr. apply list_elem_of_fmap in Hr as (p & -> & Hp). apply list_elem_of_fmap_2.
  apply elem_of_mjoin_fmap. exists (m, mp). split; [by apply dict_get_elem|done].
Qed.

Lemma exported_provider m r : exported plans m r → is_Some (dict_get (providers g) r).
Proof.
  induction 1 as [m r _ Hl|]; [|done]. unfold local_providers in Hl.
  apply list_elem_of_filter in Hl as [_ Hl]. by apply (module_key m).
Qed.

Lemma visible_provider m t r : visibility g !! (m, t) = Some r → is_Some (dict_get (providers g) r).
Proof.
  intros Hv. eapply compile_visibility_sees in Hv; [|apply (fi_visibility _ _ _ _ _ _ _ Hpre)].
  destruct Hv as [Hr|(_ & [(i & _ & He)|(i & _ & _ & He)])]; [|by eapply exported_provider..].
  apply (module_key m). by apply (fi_local _ _ _ _ _ _ _ Hpre m t r).
Qed.

Lemma finished_runnable : NoDup (order c) → ∃ l, Runnable g (rank l).
Proof.
  intros Hnd.
  destruct (finished_topo _ _ _ _ _ _ _ Hpre _ (fi_cycles _ _ _ _ _ _ _ Hfin)) as (l & Hl & Ht & Hiff & Hlen).
  exists l.
  assert (∀ r p, dict_get (providers g) r = Some p → r ∈ l) as Hin.
  { intros r p Hp. apply Hiff. rewrite <- dict_get_is_Some. by exists p. }
  constructor.
  - intros r p Hp. destruct (plan_canonical r p Hp) as (q & Hq & Hc & Hna & Hrec & Hs). exists q.
    split_and!; try done. rewrite Hrec. apply (fi_recipe _ _ _ _ _ _ _ Hpre _ _ Hq Hc).
  - intros r p Hp. destruct (plan_canonical r p Hp) as (q & _ & _ & Hna & -> & _).
    unfold recipe_of, _compile_recipe. by destruct (pp_declaration q).
  - intros r p d t Hp Hd Ht'. destruct (plan_canonical r p Hp) as (q & _ & _ & _ & Hrec & _).
    rewrite Hrec in Hd.
    assert (d ∈ dependency_source <$> pp_dependencies q) as Hdq
      by (unfold recipe_of, _compile_recipe in Hd; destruct (pp_declaration q); by try apply elem_of_nil in Hd).
    apply list_elem_of_fmap in Hdq as (dp & -> & _). simpl in Ht'. unfold intrinsic in Ht'.
    destruct (dep_token dp); [|done]. case_bool_decide; [|done]. by injection Ht' as <-.
  - intros r p x Hx Hp Hc. apply (recipe_needs_needs r x p Hp) in Hx. rewrite Hc in Hx.
    split; [|by eapply needs_provider]. eapply topo_rank; [done..|by eapply Hin|]. by eapply needs_edge.
  - intros r p Hp. pose proof (rank_lt l r (Hin r p Hp)). lia.
  - intros r p x q Hp Hs Hc Hx Hq.
    assert (tc (depends edges) r x) as Hdep.
    { clear Hs Hq q. revert p Hp Hc. induction Hx as [a b Hab|a b d Hab _ IH]; intros p Hp Hc.
      - apply tc_once. apply (recipe_needs_needs _ _ p Hp) in Hab. rewrite Hc in Hab. by eapply needs_edge.
      - apply (recipe_needs_needs _ _ p Hp) in Hab. rewrite Hc in Hab.
        destruct (needs_provider a b Hab) as (q & Hq & Hqc). eapply tc_l; [by eapply needs_edge|].
        by apply (IH q). }
    pose proof (scope_paths_ok edges (providers g) _ r p (fi_scopes _ _ _ _ _ _ _ Hfin)
      (dict_get_elem _ _ _ Hp) Hs x Hdep) as Hsc. unfold scope_of in Hsc. by rewrite Hq in Hsc.
  - by apply (finished_order _ _ _ _ _ _ _ Hfin).
  - apply visible_provider.
Qed.

End compiled.

(** Every compiled graph can be run. *)
Lemma compiled_runnable `{Reflection} import_resolver spec_transformer collect fuel root g :
  compile_graph collect import_resolver spec_transformer fuel root = Ok g → ∃ rank, Runnable g rank.
Proof.
  intros Hg. destruct (compile_graph_ok _ _ _ _ _ _ Hg) as (c & root_id & Hw & _ & Hf).
  destruct (finish_ok _ _ _ _ (wi_nodup _ _ Hw) Hf) as (lr & plans & cache & edges & Hfin).
  destruct (finished_runnable _ _ _ _ _ _ _ Hfin (wi_nodup _ _ Hw)) as [l Hr]. eauto.
Qed.
