(* ===== verification/RtResolution.v ===== *)
(** * The container runtime: resolution on a compiled graph

    On a graph with the [Runnable] interface the container itself never fails:
    whatever resolving a provider raises, a call of the application raised it,
    or cleaning up after one did. *)

From Stdlib Require Import ZArith Lia.
From stdpp Require Import base tactics list gmap strings.
From S2P Require Import Prelude DiDeclarations DiCompiler RtContainer RtContainerFacts RtGraph.
Local Open Scope Z_scope.

(** ** What resolving adds to the application's scope *)

Section adding.
Context {A : Type} `{Application A}.
Context (graph : CompiledGraph).
Context (_work_scope_factory : option (ModuleId → result rt_error value)).
Context (_intrinsic_provider : option (Token → result rt_error value)).
Implicit Types w : world A.

Abbreviation _construct := (_construct graph _work_scope_factory _intrinsic_provider).
Abbreviation _resolve_ref := (_resolve_ref graph _work_scope_factory _intrinsic_provider).

(** [v] is what constructing [ref] for the application returned, and [ref] is
    the canonical provider of a singleton. *)
Definition built_singleton (ref : ProviderRef) (v : value) : Prop :=
  ∃ alias plan fuel w1 w2,
    dict_get (providers graph) alias = Some plan ∧ pp_scope plan = SINGLETON ∧ pp_canonical plan = ref ∧
    _construct (_resolve_ref fuel) ref (pp_recipe plan) None w1 = (Ok v, w2).

Definition app_view w : scope_kind * gmap ProviderRef value := (scope_kind_of (app_scope w), cache (app_scope w)).

Definition adds w w' : Prop :=
  scope_kind_of (app_scope w') = scope_kind_of (app_scope w) ∧
  ∀ ref v, cache (app_scope w') !! ref = Some v → cache (app_scope w) !! ref = Some v ∨ built_singleton ref v.

(** A program adds to the application's cache but what it built completely for
    the application. *)
Definition adding {B} (m : M (world A) rt_error B) : Prop :=
  ∀ w, scope_kind_of (app_scope w) = KApplication → adds w (m w).2.

Lemma adding_keeps {B} (m : M (world A) rt_error B) : keeps app_view m → adding m.
Proof. intros Hm w _. specialize (Hm w). injection Hm as H1 H2. split; [done|]. rewrite H2. auto. Qed.

Lemma adds_trans w1 w2 w3 : adds w1 w2 → adds w2 w3 → adds w1 w3.
Proof.
  intros [K1 C1] [K2 C2]. split; [congruence|]. intros ref v Hv.
  destruct (C2 ref v Hv) as [Hv2|]; [by apply C1|by right].
Qed.

Lemma adding_bind {B C} (m : M (world A) rt_error B) (f : B → M (world A) rt_error C) :
  adding m → (∀ b, adding (f b)) → adding (m ≫= f).
Proof.
  intros Hm Hf w Hk. specialize (Hm w Hk). unfold mbind, M_bind. destruct (m w) as [[b|e] w1]; [|done].
  eapply adds_trans; [exact Hm|]. apply Hf. destruct Hm as [K _]. simpl in K. congruence.
Qed.

Lemma adding_try {B} (m : M (world A) rt_error B) (h : rt_error → M (world A) rt_error B) :
  adding m → (∀ e, adding (h e)) → adding (try_except m h).
Proof.
  intros Hm Hh w Hk. specialize (Hm w Hk). unfold try_except. destruct (m w) as [[b|e] w1]; [done|].
  eapply adds_trans; [exact Hm|]. apply Hh. destruct Hm as [K _]. simpl in K. congruence.
Qed.

Lemma keeps_app_view {B} (m : M A rt_error B) : keeps app_view (app m).
Proof. intros w. unfold app, zoom. by destruct (m (env w)). Qed.

Lemma keeps_state_view s : keeps app_view (get_state s : M (world A) rt_error _).
Proof. intros w. by rewrite get_state_still. Qed.

Lemma keeps_set_view s f :
  (∀ x, (scope_kind_of (f x), cache (f x)) = (scope_kind_of x, cache x)) →
  keeps app_view (modify (set_state s f) : M (world A) rt_error unit).
Proof. intros Hf. apply keeps_modify. intros w. destruct s; [done|apply Hf]. Qed.

Lemma keeps_enter_view s v label : keeps app_view (enter s v label).
Proof.
  unfold enter, push_record. repeat first [apply keeps_bind; [|intros ?]|case_match];
    auto using keeps_state_view, keeps_app_view with tori; [by apply keeps_set_view|by apply keeps_modify|
    by apply keeps_set_view|by apply keeps_modify].
Qed.

Lemma keeps_exit_view r exc d :
  keeps app_view (match d with None => run_exit r exc | Some d => run_exit_by d r exc end).
Proof. intros w. destruct (run_exit_env r exc d w) as (errs & a & ->). done. Qed.

Lemma keeps_close_view n s exc d : keeps app_view (close_loop n s exc d : M (world A) rt_error _).
Proof.
  induction n as [|n IH]; simpl; [auto with tori|]. apply keeps_bind; [apply keeps_state_view|]. intros x.
  destruct (last (records_of x)) as [r|]; [|auto with tori].
  apply keeps_bind; [apply keeps_bind; [by apply keeps_set_view|intros _; by apply keeps_modify]|]. intros _.
  apply keeps_bind; [apply keeps_exit_view|]. intros errs. apply keeps_bind; [done|]. intros rest. auto with tori.
Qed.

(** Forgetting entries of a cache adds none. *)
Lemma adding_forget s (P : ProviderRef * value → Prop) `{∀ x, Decision (P x)} :
  adding (modify (set_state s (λ x, with_cache (filter P (cache x)) x)) : M (world A) rt_error unit).
Proof.
  intros w _. destruct s; (split; [done|]); simpl; [by left|]. intros ref v Hv.
  apply map_lookup_filter_Some in Hv as [Hv _]. by left.
Qed.

Section resolving.
Context (resolve : ProviderRef → option Z → M (world A) rt_error value).
Context (Hresolve : ∀ ref s, adding (resolve ref s)).

Lemma adding_still {B} (m : M (world A) rt_error B) : (∀ w, (m w).2 = w) → adding m.
Proof. intros Hm. apply adding_keeps. intros w. by rewrite Hm. Qed.

Lemma adding_arguments ref s ds acc :
  adding (arguments _work_scope_factory _intrinsic_provider resolve ref s ds acc).
Proof.
  revert acc. induction ds as [|d ds IH]; intros acc; simpl; [by apply adding_still|].
  apply adding_bind; [|intros v; apply IH]. unfold argument.
  repeat case_match; try (by apply adding_still); (apply adding_bind; [|intros ?; by apply adding_still]);
    [by apply adding_still..|apply Hresolve].
Qed.

Lemma adding_build plan ref recipe s :
  adding (build _work_scope_factory _intrinsic_provider resolve plan ref recipe s).
Proof.
  apply adding_bind; [apply adding_arguments|]. intros args.
  apply adding_bind; [by apply adding_keeps, keeps_modify|]. intros _.
  apply adding_bind.
  { apply adding_keeps. destruct (invoker recipe); simpl; auto using keeps_app_view with tori. }
  intros v. apply adding_bind.
  { apply adding_keeps. repeat case_match; auto using keeps_app_view with tori. }
  intros v'. apply adding_bind; [|intros v''; by apply adding_still].
  apply adding_keeps. case_match; auto using keeps_enter_view with tori.
Qed.

Lemma adding_rollback s mark c e : adding (rollback s mark c e : M (world A) rt_error value).
Proof.
  apply adding_bind.
  { apply adding_keeps, keeps_bind; [apply keeps_state_view|]. intros x. apply keeps_close_view. }
  intros errs. apply adding_bind; [apply adding_forget|]. intros _. apply adding_still. by destruct errs.
Qed.

Lemma adding_construct ref recipe s : adding (_construct resolve ref recipe s).
Proof.
  apply adding_bind; [by apply adding_still|]. intros plan.
  apply adding_bind; [apply adding_keeps, keeps_set_view; intros x; by destruct (resources x)|]. intros _.
  apply adding_bind; [apply adding_keeps, keeps_state_view|]. intros x.
  apply adding_try; [apply adding_build|intros e; apply adding_rollback].
Qed.
End resolving.

Lemma adding_resolve fuel ref s : adding (_resolve_ref fuel ref s).
Proof.
  revert ref s. induction fuel as [|fuel IH]; intros ref s; simpl; [by apply adding_still|].
  apply adding_bind; [by apply adding_still|]. intros closed. apply adding_bind; [by apply adding_still|]. intros _.
  unfold get_plan. destruct (dict_get (providers graph) ref) as [plan|] eqn:Hp; [|by apply adding_still].
  intros w Hk. rewrite run_bind_lift. destruct (pp_scope plan) eqn:Hs.
  - unfold _resolve_cached. rewrite (run_bind_get_state None _ _ (app_scope w)) by done.
    destruct (cache (app_scope w) !! pp_canonical plan) as [v|]; [split; auto|].
    pose proof (adding_construct _ IH (pp_canonical plan) (pp_recipe plan) None w Hk) as Ha.
    unfold mbind, M_bind. destruct (_construct _ _ _ None w) as [[v|e] w1] eqn:Hrun; [|done].
    destruct Ha as [K C]. split; [done|]. simpl. intros x u Hu.
    apply lookup_insert_Some in Hu as [[<- <-]|[_ Hu]]; [|by apply C]. right.
    exists ref, plan, fuel, w, w1. done.
  - destruct (state_of w s) as [x|] eqn:Hx; last first.
    { unfold get_state, mbind, M_bind. rewrite Hx. split; auto. }
    rewrite (run_bind_get_state _ _ _ _ Hx). destruct s as [i|].
    + revert w Hk Hx. intros w Hk _. revert w Hk. apply adding_bind; [by apply adding_still|]. intros _.
      apply adding_bind; [apply adding_keeps, keeps_state_view|]. intros y. case_match; [by apply adding_still|].
      apply adding_bind; [by apply adding_construct|]. intros v.
      apply adding_bind; [|intros _; by apply adding_still]. by apply adding_keeps, keeps_modify.
    + injection Hx as <-. rewrite run_bind_throw, bool_decide_true by done. split; auto.
  - by apply adding_construct.
Qed.
End adding.

(** ** Errors of resolving *)

Section resolution.
Context {A : Type} `{Application A}.
Context (graph : CompiledGraph) (rank : ProviderRef → nat) `{!Runnable graph rank}.
Context (_work_scope_factory : option (ModuleId → result rt_error value)).
Context (_intrinsic_provider : option (Token → result rt_error value)).
Implicit Types w : world A.

(** The framework's capabilities are there. *)
Definition capable : Prop :=
  (∃ f, _work_scope_factory = Some f ∧ ∀ m, ∃ v, f m = Ok v) ∧
  ∃ f, _intrinsic_provider = Some f ∧
       ∀ t, t ∈ _INTRINSIC_DEPENDENCIES → t ≠ TClass (-1) → ∃ v, f t = Ok v.

(** The errors of the application's code. *)
Definition app_raises (P : rt_error → Prop) : Prop :=
  (∀ c args a e a', construct_class c args a = (Err e, a') → P e) ∧
  (∀ f args a e a', call_factory f args a = (Err e, a') → P e) ∧
  (∀ v a e a', await_value v a = (Err e, a') → P e) ∧
  (∀ v a e a', enter_manager v a = (Err e, a') → P e) ∧
  ∀ e errs, P e → errs ≠ [] → P (_scope_cleanup_error (Some e) errs).

(** An open container, in which the scope may still enter resources. *)
Definition usable (s : option Z) w : Prop :=
  container_closed w = false ∧ ∀ t, t = s ∨ t = None → ∃ x,
    state_of w t = Some x ∧ default false (stack_closed <$> resources x) = false.

Definition request_scope (s : option Z) w : Prop :=
  ∃ x, state_of w s = Some x ∧ scope_kind_of x ≠ KApplication ∧ lease x ≠ None.

(** Nothing of a request is needed, or there is one. *)
Definition allowed (s : option Z) (r : ProviderRef) w : Prop :=
  request_scope s w ∨
  ∀ x q, rtc (recipe_needs graph) r x → dict_get (providers graph) x = Some q → pp_scope q ≠ REQUEST.

Definition ready (s : option Z) (r : ProviderRef) w : Prop := usable s w ∧ allowed s r w.

Lemma usable_app s w : usable s w → usable None w.
Proof. intros [Hc Hs]. split; [done|]. intros t [->| ->]; apply Hs; auto. Qed.

Lemma grown_state s w w' t x :
  grown s w w' → state_of w t = Some x → ∃ y, state_of w' t = Some y ∧ scope_frame y = scope_frame x.
Proof.
  intros [_ Hg] Hx. specialize (Hg t). rewrite Hx in Hg. destruct (state_of w' t) as [y|]; [|done].
  exists y. split; [done|]. case_decide; [by destruct Hg|by subst].
Qed.

Lemma usable_grown s u w w' : grown u w w' → usable s w → usable s w'.
Proof.
  intros Hg [Hc Hs]. split.
  - destruct Hg as [[= _ _ -> _] _]. done.
  - intros t Ht. destruct (Hs t Ht) as (x & Hx & Hst). destruct (grown_state u w w' t x Hg Hx) as (y & Hy & Hf).
    exists y. split; [done|]. injection Hf as _ _ _ Hf. by rewrite Hf.
Qed.

Lemma ready_grown s u r w w' : grown u w w' → ready s r w → ready s r w'.
Proof.
  intros Hg [Hu Ha]. split; [by eapply usable_grown|]. destruct Ha as [(x & Hx & Hk & Hl)|]; [|by right].
  left. destruct (grown_state u w w' s x Hg Hx) as (y & Hy & [= Hf1 Hf2 _ _]). exists y.
  rewrite Hf1, Hf2. done.
Qed.

Lemma ready_needs s r x w : recipe_needs graph r x → ready s r w → ready s x w.
Proof.
  intros Hx [Hu [Ha|Ha]]; (split; [done|]); [by left|]. right. intros y q Hy. apply Ha.
  by eapply rtc_l.
Qed.

(** A singleton can be built in the application's scope. *)
Lemma singleton_allowed x q s w :
  dict_get (providers graph) x = Some q → pp_scope q = SINGLETON → allowed s (pp_canonical q) w.
Proof.
  intros Hq Hs. destruct (run_canonical x q Hq) as (c & Hc & Hcc & Hrec & Hsc). right. intros y p Hy Hp.
  apply rtc_inv in Hy as [<-|(z & Hz & Hy)]; [rewrite Hc in Hp; injection Hp as <-; congruence|].
  apply (run_scopes (pp_canonical q) c y p Hc); [congruence|done| |done].
  clear -Hz Hy. revert Hz. generalize (pp_canonical q). induction Hy as [|a b d Hab _ IHy]; intros u Hu;
    [by apply tc_once|]. eapply tc_l; [exact Hu|]. by apply IHy.
Qed.

(** ** Errors along a program *)

Section errors.
Context (P : rt_error → Prop) (Happ : app_raises P) (Hcap : capable).

Definition raises_in {B} (I : world A → Prop) (m : M (world A) rt_error B) : Prop :=
  ∀ w e w', I w → m w = (Err e, w') → P e.

Lemma raises_bind {B C} s (I : world A → Prop) (m : M (world A) rt_error B) (f : B → M (world A) rt_error C) :
  (∀ w w', grown s w w' → I w → I w') → growing s m → raises_in I m → (∀ b, raises_in I (f b)) →
  raises_in I (m ≫= f).
Proof.
  intros HI Hg Hm Hf w e w' Hw Hrun. apply M_bind_err in Hrun as [Hrun|(b & w1 & Hrun & Hrun')].
  - by eapply Hm.
  - eapply Hf; [|exact Hrun']. eapply HI; [|exact Hw]. specialize (Hg w). by rewrite Hrun in Hg.
Qed.

Lemma raises_app {B} I (m : M A rt_error B) :
  (∀ a e a', m a = (Err e, a') → P e) → raises_in I (app m).
Proof.
  intros Hm w e w' _ Hrun. unfold app, zoom in Hrun. destruct (m (env w)) as [r a] eqn:Hr.
  injection Hrun as -> _. by eapply Hm.
Qed.

Lemma raises_get_state s r : raises_in (ready s r) (get_state s).
Proof.
  intros w e w' [[_ Hs] _] Hrun. unfold get_state in Hrun. destruct (Hs s ltac:(auto)) as (x & Hx & _).
  by rewrite Hx in Hrun.
Qed.

Lemma raises_enter s r v label : raises_in (ready s r) (enter s v label).
Proof.
  intros w e w' Hw Hrun. unfold enter in Hrun.
  destruct Hw as [[_ Hs] _]. destruct (Hs s ltac:(auto)) as (x & Hx & Hst).
  rewrite (run_bind_get_state _ _ _ _ Hx) in Hrun. rewrite run_bind_throw, Hst in Hrun. destruct (manager_of v); try done.
  all: apply M_bind_err in Hrun as [Hrun|(u & w1 & _ & Hrun)]; [|done];
    eapply (raises_app (λ _, True)); [|done|exact Hrun]; apply Happ.
Qed.

Section construction.
Context (resolve : ProviderRef → option Z → M (world A) rt_error value) (n : nat).
Context (Hatomic : ∀ ref s w, atomic_run s w (resolve ref s w)).
Context (Hresolve : ∀ x s q, dict_get (providers graph) x = Some q → pp_canonical q = x →
                    (rank x < n)%nat → raises_in (ready s x) (resolve x s)).
Context (r : ProviderRef) (q : ProviderPlan) (s : option Z).
Context (Hq : dict_get (providers graph) r = Some q) (Hc : pp_canonical q = r) (Hn : (rank r < S n)%nat).

Lemma raises_argument d :
  d ∈ rec_dependencies (pp_recipe q) →
  raises_in (ready s r) (argument _work_scope_factory _intrinsic_provider resolve r s d).
Proof.
  intros Hd. destruct Hcap as [(f & Hf & Hfm) (h & Hh & Hht)]. unfold argument. rewrite Hf, Hh.
  destruct (src_intrinsic d) as [t|] eqn:Ht.
  - case_bool_decide as Hne; intros w e w' _ Hrun.
    + rewrite run_bind_lift in Hrun. destruct (Hfm (ref_module_id r)) as [v Hv]. by rewrite Hv in Hrun.
    + rewrite run_bind_lift in Hrun. destruct (Hht t) as [v Hv]; [by eapply run_intrinsic|done|].
      by rewrite Hv in Hrun.
  - destruct (src_provider_ref d) as [x|] eqn:Hx; [|done].
    assert (recipe_needs graph r x) as Hneeds by (by exists q, d).
    destruct (run_needs r q x Hneeds Hq Hc) as [Hlt (qx & Hqx & Hcx)].
    intros w e w' Hw Hrun. apply M_bind_err in Hrun as [Hrun|(v & w1 & _ & Hrun)]; [|done].
    eapply Hresolve; [exact Hqx|done|lia| |exact Hrun]. by eapply ready_needs.
Qed.

Lemma raises_arguments ds acc :
  (∀ d, d ∈ ds → d ∈ rec_dependencies (pp_recipe q)) →
  raises_in (ready s r) (arguments _work_scope_factory _intrinsic_provider resolve r s ds acc).
Proof.
  revert acc. induction ds as [|d ds IH]; intros acc Hds; [done|]. simpl. eapply (raises_bind s).
  - intros w w'. apply ready_grown.
  - by apply growing_argument.
  - apply raises_argument. apply Hds. left.
  - intros v. apply IH. intros d' Hd'. apply Hds. by right.
Qed.

Lemma raises_build : raises_in (ready s r) (build _work_scope_factory _intrinsic_provider resolve q r (pp_recipe q) s).
Proof.
  assert (∀ w w', grown s w w' → ready s r w → ready s r w') as HI by (intros w w'; apply ready_grown).
  destruct Happ as (Hcl & Hfa & Haw & _). unfold build.
  apply (raises_bind s); [done|by apply growing_arguments|by apply raises_arguments|]. intros args.
  apply (raises_bind s); [done|intros w; apply evolves_event, grown_refl|done|]. intros _.
  apply (raises_bind s); [done|apply growing_invoke| |].
  { pose proof (run_recipe r q Hq) as Hinv. unfold invoke.
    destruct (invoker (pp_recipe q)); try done; apply raises_app; [apply Hcl|apply Hfa]. }
  intros v. apply (raises_bind s); [done| | |].
  { repeat case_match; try apply growing_app; by apply growing_still. }
  { repeat case_match; try apply raises_app; try done; apply Haw. }
  intros v'. apply (raises_bind s); [done| | |done].
  - case_match; [apply growing_enter|by apply growing_still].
  - case_match; [apply raises_enter|done].
Qed.

Lemma raises_construct :
  raises_in (ready s r) (_construct graph _work_scope_factory _intrinsic_provider resolve r (pp_recipe q) s).
Proof.
  intros w e w' Hw Hrun. unfold _construct, get_plan in Hrun. rewrite Hq in Hrun.
  autorewrite with mrun in Hrun. set (ensure := λ x, match resources x with None => _ | Some _ => x end) in Hrun.
  set (w1 := set_state s ensure w) in Hrun.
  assert (ready s r w1) as Hw1.
  { apply (ready_grown s s r w w1); [|done]. apply evolves_set.
    - intros t x. case_decide; auto with tori.
    - intros x _. rewrite decide_True by tauto. apply same_grows. unfold ensure, same_scope, scope_frame, records_of.
      by destruct (resources x) eqn:Hr; rewrite ?Hr. }
  destruct (proj2 (proj1 Hw1) s ltac:(auto)) as (x & Hx & _).
  rewrite (run_bind_get_state _ _ _ _ Hx) in Hrun. unfold try_except in Hrun.
  pose proof (growing_build _work_scope_factory _intrinsic_provider resolve Hatomic q r (pp_recipe q) s w1) as Hb.
  destruct (build _ _ _ _ _ _ _ w1) as [[v|e1] w2] eqn:Hbuild; [done|]. simpl in Hb.
  pose proof (raises_build w1 e1 w2 Hw1 Hbuild) as He1.
  unfold rollback in Hrun. apply M_bind_err in Hrun as [Hrun|(errs & w3 & _ & Hrun)].
  - pose proof (proj2 Hb s) as Hy. rewrite Hx in Hy. destruct (state_of w2 s) as [y|] eqn:Hy2; [|done].
    unfold rollback_to, _close_records in Hrun. rewrite (run_bind_get_state _ _ _ _ Hy2) in Hrun.
    destruct (close_loop_run (length (records_of y) - length (records_of x)) s (Some e1) None w2 y Hy2)
      as (errs & w3 & Hl & _); [lia|]. by rewrite Hl in Hrun.
  - autorewrite with mrun in Hrun. destruct errs as [|e2 errs]; injection Hrun as <- _; [done|].
    by apply Happ.
Qed.

Lemma raises_cached :
  raises_in (ready s r) (_resolve_cached graph _work_scope_factory _intrinsic_provider resolve r (pp_recipe q) s).
Proof.
  intros w e w' Hw Hrun. unfold _resolve_cached in Hrun.
  apply M_bind_err in Hrun as [Hrun|(x & w1 & Hx & Hrun)]; [by eapply raises_get_state|].
  pose proof (get_state_still s w) as Hst. rewrite Hx in Hst. simpl in Hst. subst w1.
  destruct (cache x !! r); [done|]. apply M_bind_err in Hrun as [Hrun|(v & w1 & _ & Hrun)]; [|done].
  by eapply raises_construct.
Qed.
End construction.

(** Whatever resolution raises, the application raised. *)
Lemma resolve_raises fuel x s q :
  dict_get (providers graph) x = Some q → (rank (pp_canonical q) < fuel)%nat →
  raises_in (ready s (pp_canonical q)) (_resolve_ref graph _work_scope_factory _intrinsic_provider fuel x s).
Proof.
  revert x s q. induction fuel as [|fuel IH]; intros x s q Hq Hn w e w' Hw Hrun; [lia|].
  simpl in Hrun. destruct (Hw) as [[Hclosed _] _]. rewrite run_bind_gets, Hclosed in Hrun.
  autorewrite with mrun in Hrun. unfold get_plan in Hrun. rewrite Hq in Hrun. simpl in Hrun.
  destruct (run_canonical x q Hq) as (c & Hc & Hcc & Hrec & Hsc).
  set (res := _resolve_ref graph _work_scope_factory _intrinsic_provider fuel) in *.
  assert (∀ ref s w, atomic_run s w (res ref s w)) as Hat by (intros; apply resolve_atomic).
  assert (∀ x s q, dict_get (providers graph) x = Some q → pp_canonical q = x → (rank x < fuel)%nat →
    raises_in (ready s x) (res x s)) as Hres.
  { intros y t p Hp Hpc Hlt. pose proof (IH y t p Hp) as Hy. rewrite Hpc in Hy. by apply Hy. }
  rewrite <- Hrec in Hrun. destruct (pp_scope q) eqn:Hs.
  - eapply (raises_cached res fuel Hat Hres _ c None Hc Hcc Hn); [|exact Hrun].
    split; [by apply (usable_app s), Hw|by apply (singleton_allowed x q)].
  - apply M_bind_err in Hrun as [Hrun|(st & w1 & Hst & Hrun)]; [by eapply raises_get_state|].
    pose proof (get_state_still s w) as Hst'. rewrite Hst in Hst'. simpl in Hst'. subst w1.
    rewrite run_bind_throw in Hrun. destruct (Hw) as [_ [(st' & Hst' & Hk & Hl)|Hno]]; last first.
    { exfalso. apply (Hno (pp_canonical q) c); [apply rtc_refl|done|congruence]. }
    unfold get_state in Hst. rewrite Hst' in Hst. injection Hst as <-.
    rewrite !bool_decide_eq_false_2 in Hrun by done. simpl in Hrun.
    by eapply (raises_cached res fuel Hat Hres _ c s Hc Hcc Hn).
  - by eapply (raises_construct res fuel Hat Hres _ c s Hc Hcc Hn).
Qed.

End errors.
End resolution.
