(* ===== verification/RtKernel.v ===== *)
(** * The application kernel

    The second part of [runtime.py] of [tori_py.core]: [ApplicationKernel] with
    its start, rollback and shutdown. The lifecycle hooks and the driver binder
    are the application's ([Lifecycle]). Whenever the kernel waits for one of
    them, other tasks run: an arbitrary sequence of steps on their scopes
    ([pause]). Time is counted in ticks. The field [operations] records what
    was started, in order; the program keeps no such record. *)

From Stdlib Require Import ZArith Lia.
From stdpp Require Import base tactics list gmap strings.
From S2P Require Import Prelude DiDeclarations DiCompiler RtContainer RtScopes.
Local Open Scope Z_scope.

Inductive ApplicationState := COMPILED | STARTING | STARTED | STOPPING | STOPPED | FAILED.
#[export] Instance ApplicationState_eq_dec : EqDecision ApplicationState.
Proof. solve_decision. Defined.

Inductive hook :=
| on_module_init
| on_application_bootstrap
| on_application_quiesce
| on_application_shutdown
| on_module_destroy.

(** What [getattr(participant, name)] is. *)
Inductive hook_kind :=
| NoHook
| NotAsync
| NoSignature
| AsyncHook (parameters : Z).
#[export] Instance hook_kind_eq_dec : EqDecision hook_kind.
Proof. solve_decision. Defined.

Inductive operation :=
| Bind
| BinderClose
| Hook (participant : value) (name : hook).

Record ApplicationOptions := {
  shutdown_timeout : Z;
  cancellation_grace : Z;
  cleanup_reserve : Z
}.

Class Lifecycle (A : Type) := {
  is_validator : value → bool;
  validate_graph : value → CompiledGraph → M A rt_error unit;
  hook_of : value → hook → hook_kind;
  run_operation : operation → M A rt_error unit;
  (** the operation for at most this long; [None] when it is not done by then *)
  operation_within : operation → Z → A → option (result rt_error unit) * A;
  operation_detached : operation → A → A;
  (** cancel, wait for at most this long, and tell whether it ended *)
  cancel_within : operation → Z → A → bool * A;
  cancel_tasks : list Z → Z → A → A;
  (** what other tasks do while the kernel waits *)
  other_tasks : A → list rt_op
}.

Record kernel (A : Type) := {
  k_world : world A;
  k_state : ApplicationState;
  _modules : list value;
  _module_initialized : list value;
  _bootstrapped : list value;
  _binding_attempted : bool;
  (** the deadline of the shutdown task and what it returned, when it is done *)
  _shutdown_task : option (Z * option (option rt_error));
  operations : list operation
}.
Arguments k_world {A}.
Arguments k_state {A}.
Arguments _modules {A}.
Arguments _module_initialized {A}.
Arguments _bootstrapped {A}.
Arguments _binding_attempted {A}.
Arguments _shutdown_task {A}.
Arguments operations {A}.

Definition ApplicationKernel_new {A} (a : A) : kernel A :=
  {| k_world := Container_new a; k_state := COMPILED; _modules := []; _module_initialized := [];
     _bootstrapped := []; _binding_attempted := false; _shutdown_task := None; operations := [] |}.

(** ** The capabilities of the framework *)

Definition _work_scope_factory (module_id : ModuleId) : result rt_error value :=
  Ok (_ModuleWorkScopeFactory module_id).

Definition _intrinsic_provider (token : Token) : result rt_error value :=
  if bool_decide (token ∈ tail _INTRINSIC_DEPENDENCIES) then Ok (FrameworkObject token)
  else Err ScopeError.

Section kernel.
Context {A : Type} `{Application A, Lifecycle A}.
Context (graph : CompiledGraph) (options : ApplicationOptions).

Abbreviation K := (M (kernel A) rt_error).
Abbreviation factory := (Some _work_scope_factory).
Abbreviation intrinsic := (Some _intrinsic_provider).

Definition with_world (w : world A) (k : kernel A) : kernel A :=
  {| k_world := w; k_state := k_state k; _modules := _modules k;
     _module_initialized := _module_initialized k; _bootstrapped := _bootstrapped k;
     _binding_attempted := _binding_attempted k; _shutdown_task := _shutdown_task k;
     operations := operations k |}.
Definition with_k_state (s : ApplicationState) (k : kernel A) : kernel A :=
  {| k_world := k_world k; k_state := s; _modules := _modules k;
     _module_initialized := _module_initialized k; _bootstrapped := _bootstrapped k;
     _binding_attempted := _binding_attempted k; _shutdown_task := _shutdown_task k;
     operations := operations k |}.
Definition with_modules (l : list value) (k : kernel A) : kernel A :=
  {| k_world := k_world k; k_state := k_state k; _modules := l;
     _module_initialized := _module_initialized k; _bootstrapped := _bootstrapped k;
     _binding_attempted := _binding_attempted k; _shutdown_task := _shutdown_task k;
     operations := operations k |}.
Definition add_initialized (v : value) (k : kernel A) : kernel A :=
  {| k_world := k_world k; k_state := k_state k; _modules := _modules k;
     _module_initialized := _module_initialized k ++ [v]; _bootstrapped := _bootstrapped k;
     _binding_attempted := _binding_attempted k; _shutdown_task := _shutdown_task k;
     operations := operations k |}.
Definition add_bootstrapped (v : value) (k : kernel A) : kernel A :=
  {| k_world := k_world k; k_state := k_state k; _modules := _modules k;
     _module_initialized := _module_initialized k; _bootstrapped := _bootstrapped k ++ [v];
     _binding_attempted := _binding_attempted k; _shutdown_task := _shutdown_task k;
     operations := operations k |}.
Definition attempt_binding (k : kernel A) : kernel A :=
  {| k_world := k_world k; k_state := k_state k; _modules := _modules k;
     _module_initialized := _module_initialized k; _bootstrapped := _bootstrapped k;
     _binding_attempted := true; _shutdown_task := _shutdown_task k; operations := operations k |}.
Definition with_shutdown (t : Z * option (option rt_error)) (k : kernel A) : kernel A :=
  {| k_world := k_world k; k_state := k_state k; _modules := _modules k;
     _module_initialized := _module_initialized k; _bootstrapped := _bootstrapped k;
     _binding_attempted := _binding_attempted k; _shutdown_task := Some t; operations := operations k |}.
Definition log_operation (o : operation) (k : kernel A) : kernel A :=
  {| k_world := k_world k; k_state := k_state k; _modules := _modules k;
     _module_initialized := _module_initialized k; _bootstrapped := _bootstrapped k;
     _binding_attempted := _binding_attempted k; _shutdown_task := _shutdown_task k;
     operations := operations k ++ [o] |}.

Definition on_world {B} (m : M (world A) rt_error B) : K B := zoom k_world with_world m.
Definition in_app {B} (m : M A rt_error B) : K B := on_world (app m).

Definition open_requests (b : bool) : K unit :=
  on_world (modify (set_admission (λ a, {| _request_admission_open := b;
    _work_admission_open := _work_admission_open a; _active_scopes := _active_scopes a |}))).
Definition open_work (b : bool) : K unit :=
  on_world (modify (set_admission (λ a, {| _request_admission_open := _request_admission_open a;
    _work_admission_open := b; _active_scopes := _active_scopes a |}))).

(** ** Waiting *)

(** The steps of other tasks; admission and the end of the container are the
    kernel's own. *)
Definition task_op (op : rt_op) : Prop :=
  match op with OpDrain _ | OpAdmit _ _ | OpClose _ => False | _ => True end.
#[export] Instance task_op_dec op : Decision (task_op op).
Proof. destruct op; simpl; apply _. Defined.

Definition pause : K unit :=
  on_world (modify (λ w, rt_run graph factory intrinsic (filter task_op (other_tasks (env w))) w)).

Definition remaining_until (deadline : Z) : K Z := on_world (_remaining deadline).

(** [loop.time()] *)
Definition now : K Z :=
  on_world (λ w, let '(t, a) := loop_time (env w) in (Ok t, with_env a w)).

Definition env_step (f : A → A) : K unit := on_world (modify (λ w, with_env (f (env w)) w)).

Definition wait_within (o : operation) (remaining : Z) : K (option (result rt_error unit)) :=
  on_world (λ w, let '(r, a) := operation_within o remaining (env w) in (Ok r, with_env a w)).

Definition _wait_for_cancellation (o : operation) (deadline : Z) : K unit :=
  remaining ← remaining_until deadline;
  done ← on_world (λ w, let '(b, a) := cancel_within o remaining (env w) in (Ok b, with_env a w));
  pause;;
  throw_if (negb done) _LingeringQuiesceError.

(** [cancellation_deadline] is given when the operation is cancelled on a
    timeout. *)
Definition _await_bounded (o : operation) (deadline : option Z) (cancellation_deadline : option Z)
    : K unit :=
  modify (log_operation o);;
  match deadline with
  | None => r ← in_app (λ a, let '(r, a) := run_operation o a in (Ok r, a)); pause;; lift r
  | Some d =>
      remaining ← remaining_until d;
      let expired : K unit :=
        match cancellation_deadline with
        | Some c => _wait_for_cancellation o c
        | None => env_step (operation_detached o)
        end;; raise TimeoutError in
      if remaining <=? 0 then expired
      else
        done ← wait_within o remaining;
        pause;;
        match done with
        | None => expired
        | Some r => lift r
        end
  end.

Definition _call_hook (participant : value) (name : hook) (deadline : option Z) : K unit :=
  match hook_of participant name with
  | NoHook => mret tt
  | NotAsync | NoSignature => raise LifecycleError
  | AsyncHook n =>
      if n =? 0 then _await_bounded (Hook participant name) deadline None else raise LifecycleError
  end.

Definition _call_quiesce (participant : value) (deadline cancellation_deadline : Z) : K unit :=
  match hook_of participant on_application_quiesce with
  | NoHook => mret tt
  | NotAsync | NoSignature => raise LifecycleError
  | AsyncHook n =>
      if n =? 1 then
        remaining ← remaining_until deadline;
        if remaining <=? 0 then raise TimeoutError
        else _await_bounded (Hook participant on_application_quiesce) (Some deadline)
               (Some cancellation_deadline)
      else raise LifecycleError
  end.

(** ** Tearing down *)

Definition first_of (a b : option rt_error) : option rt_error :=
  match a with Some _ => a | None => b end.

(** The error of a statement, as a value. *)
Definition caught (m : K unit) : K (option rt_error) :=
  try_except (m;; mret None) (λ e, mret (Some e)).

(** The participants are given in the order they are called in. *)
Fixpoint _run_reverse_hooks (participants : list value) (name : hook) (deadline : option Z)
    : K (option rt_error) :=
  match participants with
  | [] => mret None
  | p :: participants =>
      e ← caught (_call_hook p name deadline);
      rest ← _run_reverse_hooks participants name deadline;
      mret (first_of e rest)
  end.

Definition is_lingering (e : option rt_error) : bool :=
  match e with Some _LingeringQuiesceError => true | _ => false end.

Fixpoint _run_reverse_quiesce (participants : list value) (deadline cancellation_deadline : Z)
    : K (option rt_error * bool) :=
  match participants with
  | [] => mret (None, false)
  | p :: participants =>
      e ← caught (_call_quiesce p deadline cancellation_deadline);
      rest ← _run_reverse_quiesce participants deadline cancellation_deadline;
      mret (first_of e rest.1, is_lingering e || rest.2)
  end.

Definition _scope_drain_cutoff (deadline : Z) : K Z :=
  t ← now;
  mret (Z.max t (deadline - (cancellation_grace options + cleanup_reserve options))).

Definition _quiesce_cancellation_deadline (deadline : Z) : K Z :=
  t ← now; mret (Z.max t (deadline - cleanup_reserve options)).

Definition active (k : kernel A) : list Z := elements (_active_scopes (admission (k_world k))).

Definition owners (k : kernel A) : list Z :=
  omap (λ i, r ← scopes (k_world k) !! i; owner_task (rs_state r)) (active k).

(** Wait until no scope is open or the cutoff; then close the leases that are
    left, cancel their tasks and wait for the grace period. *)
Definition _drain_scopes (deadline cutoff : Z) : K unit :=
  remaining_until cutoff;;
  k ← get;
  (match active k with
   | [] => mret tt
   | _ =>
       pause;;
       k ← get;
       on_world (mfor (λ i, modify (set_state (Some i) (with_lease begin_close))) (active k))
   end);;
  k ← get;
  match active k with
  | [] => mret tt
  | _ =>
      remaining ← remaining_until deadline;
      env_step (cancel_tasks (owners k) (Z.min (cancellation_grace options) remaining));;
      pause
  end.

(** What follows when quiescence is over. *)
Definition teardown (deadline : Z) : K (option rt_error) :=
  k ← get;
  e1 ← _run_reverse_hooks (reverse (_bootstrapped k)) on_application_shutdown (Some deadline);
  k ← get;
  e2 ← (if _binding_attempted k then caught (_await_bounded BinderClose (Some deadline) None)
        else mret None);
  k ← get;
  e3 ← _run_reverse_hooks (reverse (_module_initialized k)) on_module_destroy (Some deadline);
  e4 ← on_world (close (Some deadline));
  mret (first_of e1 (first_of e2 (first_of e3 e4))).

Definition _shutdown_steps (deadline : Z) : K (option rt_error) :=
  cutoff ← _scope_drain_cutoff deadline;
  cancellation_deadline ← _quiesce_cancellation_deadline deadline;
  k ← get;
  quiesced ← _run_reverse_quiesce (reverse (_bootstrapped k)) cutoff cancellation_deadline;
  open_work false;;
  drained ← caught (_drain_scopes deadline cutoff);
  let first_error := first_of quiesced.1 drained in
  if (quiesced.2 : bool) then mret first_error
  else e ← teardown deadline; mret (first_of first_error e).

Definition _run_shutdown (deadline : Z) : K (option rt_error) :=
  first_error ← _shutdown_steps deadline;
  modify (with_k_state STOPPED);;
  mret first_error.

(** The section of [shutdown] that holds the lock: whether there is a task to
    wait for. *)
Definition shutdown_begin : K bool :=
  k ← get;
  match k_state k with
  | STOPPED => mret false
  | STOPPING =>
      match _shutdown_task k with Some _ => mret true | None => raise ApplicationStateError end
  | STARTED =>
      modify (with_k_state STOPPING);;
      open_requests false;;
      t ← now;
      modify (with_shutdown (t + shutdown_timeout options, None));;
      mret true
  | _ => raise ApplicationStateError
  end.

(** A step of the event loop: the shutdown task runs, if there is one to run. *)
Definition run_shutdown_task : K unit :=
  k ← get;
  match _shutdown_task k with
  | Some (deadline, None) =>
      error ← _run_shutdown deadline;
      modify (with_shutdown (deadline, Some error))
  | _ => mret tt
  end.

Definition shutdown_end : K unit :=
  k ← get;
  match _shutdown_task k with
  | Some (_, Some (Some e)) => raise e
  | _ => mret tt
  end.

Definition shutdown : K unit :=
  waits ← shutdown_begin;
  if waits : bool then run_shutdown_task;; shutdown_end else mret tt.

Definition _rollback : K unit :=
  t ← now;
  let deadline := t + shutdown_timeout options in
  open_requests false;;
  cutoff ← _scope_drain_cutoff deadline;
  cancellation_deadline ← _quiesce_cancellation_deadline deadline;
  k ← get;
  quiesced ← _run_reverse_quiesce (reverse (_bootstrapped k)) cutoff cancellation_deadline;
  open_work false;;
  cutoff ← _scope_drain_cutoff deadline;
  caught (_drain_scopes deadline cutoff);;
  if (quiesced.2 : bool) then modify (with_k_state FAILED)
  else
    teardown deadline;;
    open_requests false;;
    open_work false;;
    modify (with_k_state FAILED).

(** ** Starting *)

Fixpoint build_modules (plans : list ModulePlan) : K (list value) :=
  match plans with
  | [] => mret []
  | p :: plans =>
      v ← in_app (construct_class (mp_module p) []);
      vs ← build_modules plans;
      mret (v :: vs)
  end.

Definition validate (v : value) : K unit :=
  if is_validator v then in_app (validate_graph v graph) else mret tt.

(** A fuel for resolving any provider. *)
Definition depth : nat := S (length (providers graph)).

Definition is_singleton (ref : ProviderRef) : K bool :=
  plan ← lift (get_plan graph ref); mret (bool_decide (pp_scope plan = SINGLETON)).

Definition start_singleton (ref : ProviderRef) : K unit :=
  s ← is_singleton ref;
  if s : bool then
    on_world (resolve_ref graph factory intrinsic depth 0 ref None);; mret tt
  else mret tt.

Definition init_participant (v : value) : K unit :=
  _call_hook v on_module_init None;;
  modify (add_initialized v).

Definition init_singleton (ref : ProviderRef) : K unit :=
  s ← is_singleton ref;
  k ← get;
  if s : bool then
    match cache (app_scope (k_world k)) !! ref with
    | None | Some (Object PyNone) => mret tt
    | Some v => init_participant v
    end
  else mret tt.

Definition bootstrap (v : value) : K unit :=
  _call_hook v on_application_bootstrap None;;
  modify (add_bootstrapped v).

Definition start_steps : K unit :=
  modules ← build_modules (shape_modules (shape graph));
  modify (with_modules modules);;
  mfor validate modules;;
  mfor start_singleton (provider_order graph);;
  mfor init_participant modules;;
  mfor init_singleton (provider_order graph);;
  modify attempt_binding;;
  _await_bounded Bind None None;;
  open_work true;;
  k ← get;
  mfor bootstrap (_module_initialized k);;
  open_requests true;;
  modify (with_k_state STARTED).

Definition start : K unit :=
  k ← get;
  throw_if (bool_decide (k_state k ≠ COMPILED)) ApplicationStateError;;
  modify (with_k_state STARTING);;
  try_except start_steps (λ error, _rollback;; raise error).

End kernel.
