(* ===== verification/RtKernelFacts.v ===== *)
(** * The application kernel: what its steps keep *)

From Stdlib Require Import ZArith Lia.
From stdpp Require Import base tactics list gmap strings.
From S2P Require Import Prelude DiDeclarations DiCompiler RtContainer RtContainerFacts RtScopes RtGraph.
From S2P Require Import RtResolution RtKernel.
Local Open Scope Z_scope.

Create HintDb does.

(** Programs that start nothing themselves, statement by statement. *)
Ltac solve_does_with lem :=
  repeat first
    [ solve [eauto 2 with does nocore]
    | apply lem; [|intros ?]
    | case_match ].

Section facts.
Context {A : Type} `{Application A, Lifecycle A}.
Context (graph : CompiledGraph) (options : ApplicationOptions).
Implicit Types k : kernel A.

Abbreviation K := (M (kernel A) rt_error).
Abbreviation factory := (Some _work_scope_factory).
Abbreviation intrinsic := (Some _intrinsic_provider).
Abbreviation rt_step := (rt_step (A := A) graph factory intrinsic).
Abbreviation rt_run := (rt_run (A := A) graph factory intrinsic).

(** ** Steps of other tasks *)

Definition flags (w : world A) : bool * bool * bool :=
  (_request_admission_open (admission w), _work_admission_open (admission w), container_closed w).

Lemma flags_resolve fuel task ref s w :
  flags (resolve_ref graph factory intrinsic fuel task ref s w).2 = flags w.
Proof.
  destruct (resolve_ref_cases graph factory intrinsic fuel task ref s w) as [[e ->]|(_ & _ & ->)]; [done|].
  destruct (atomic_growing s _ (resolve_atomic graph factory intrinsic fuel ref s) w) as [[= _ E1 E2 _] _].
  unfold flags. by rewrite E1, E2.
Qed.

Lemma flags_emptied s w w' : emptied s w w' → flags w' = flags w.
Proof. intros [[= _ E1 E2 _] _]. unfold flags. by rewrite E1, E2. Qed.

Lemma keeps_flags_alter i f : keeps flags (modify (alter_scope (A := A) i f) : M (world A) rt_error unit).
Proof. by apply keeps_modify. Qed.

Lemma flags_close_resources s exc d w :
  flags (close_resources (A := A) s exc d w).2 = flags w.
Proof.
  destruct (state_of w s) as [x|] eqn:Hx.
  - destruct (close_resources_run s exc d w x Hx) as (errs & w' & -> & Hem & _). by apply (flags_emptied s).
  - unfold close_resources. autorewrite with mrun. unfold _close_records, get_state, mbind, M_bind.
    rewrite state_of_set, Hx. destruct (decide _); by destruct s.
Qed.

Lemma flags_task_op op w : task_op op → flags (rt_step op w).2 = flags w.
Proof.
  intros Ht. destruct op; try done; cbn [RtScopes.rt_step]; rewrite ?forget_state.
  - apply flags_resolve.
  - unfold scope_resolve_ref. rewrite run_bind_get_scope. case_match; [|done]. autorewrite with mrun.
    case_match; [done|]. apply flags_resolve.
  - unfold _work_scope. autorewrite with mrun. by case_match.
  - unfold __aenter__. rewrite run_bind_get_scope. case_match; [|done]. autorewrite with mrun.
    case_match; [done|]. autorewrite with mrun. unfold on_open_of. rewrite run_bind_get_scope.
    case_match; [|done]. unfold _register_work_scope, _register_request_scope, _track_scope.
    case_match; autorewrite with mrun; by case_match.
  - rewrite run_bind_get_scope. case_match; [|done]. case_match; [|done]. rewrite forget_state.
    unfold finalize_begin. rewrite run_bind_get_scope. case_match; [|done]. case_match; [done|].
    case_match; [done|]. autorewrite with mrun. by case_match.
  - unfold run_cleanup. rewrite run_bind_get_scope. case_match; [|done]. case_match; [|done]. case_match.
    case_match; [done|]. unfold _close. autorewrite with mrun. rewrite run_bind_get_scope. case_match; [|done].
    autorewrite with mrun. unfold _finish_close, _unregister_scope.
    match goal with |- context [resources ?x] => destruct (resources x) end; [|by autorewrite with mrun].
    unfold mbind, M_bind.
    match goal with |- context [close_resources ?s ?e ?d ?v] =>
      pose proof (flags_close_resources s e d v) as Hf; destruct (close_resources s e d v) as [[]] end; done.
Qed.

Lemma flags_run ops w : Forall task_op ops → flags (rt_run ops w) = flags w.
Proof.
  unfold RtScopes.rt_run. revert w. induction ops as [|op ops IH]; intros w Ht; simpl; [done|].
  apply Forall_cons in Ht as [Ho Ht]. rewrite IH by done. by apply flags_task_op.
Qed.

(** ** Steps of the kernel *)

Definition kview k :=
  (k_state k, _modules k, _module_initialized k, _bootstrapped k, _binding_attempted k, _shutdown_task k).

(** From [k] to [k'] these operations were started, and nothing else changed
    but what other tasks and the application did. *)
Record follows (ops : list operation) k k' : Prop := {
  fo_view : kview k' = kview k;
  fo_operations : operations k' = operations k ++ ops;
  fo_flags : flags (k_world k') = flags (k_world k);
  fo_inv : rt_inv (k_world k) → rt_inv (k_world k') ∧ advances (k_world k) (k_world k')
}.

Lemma follows_refl k : follows [] k k.
Proof. constructor; [done|by rewrite app_nil_r|done|]. intros Hw. split; [done|apply advances_refl]. Qed.

Lemma follows_trans o1 o2 k1 k2 k3 : follows o1 k1 k2 → follows o2 k2 k3 → follows (o1 ++ o2) k1 k3.
Proof.
  intros [V1 O1 F1 I1] [V2 O2 F2 I2]. constructor; [congruence|by rewrite O2, O1, app_assoc|congruence|].
  intros Hw. destruct (I1 Hw) as [Hw2 A1]. destruct (I2 Hw2) as [Hw3 A2]. split; [done|].
  by eapply advances_trans.
Qed.

(** Whatever a program returns, it started these operations. *)
Definition does {B} (ops : list operation) (m : K B) : Prop := ∀ k, follows ops k (m k).2.

Definition total {B} (m : K B) : Prop := ∀ k, ∃ b, (m k).1 = Ok b.

Lemma does_bind {B C} ops (m : K B) (f : B → K C) : does ops m → (∀ b, does [] (f b)) → does ops (m ≫= f).
Proof.
  intros Hm Hf k. specialize (Hm k). unfold mbind, M_bind. destruct (m k) as [[b|e] k1]; [|done].
  rewrite <- (app_nil_r ops). eapply follows_trans; [exact Hm|apply Hf].
Qed.

Lemma does_seq {B C} o1 o2 (m : K B) (f : B → K C) :
  total m → does o1 m → (∀ b, does o2 (f b)) → does (o1 ++ o2) (m ≫= f).
Proof.
  intros Ht Hm Hf k. specialize (Hm k). destruct (Ht k) as [b Hb]. unfold mbind, M_bind.
  destruct (m k) as [r k1]; simpl in *. subst r. eapply follows_trans; [exact Hm|apply Hf].
Qed.

Lemma does_still {B} (m : K B) : (∀ k, (m k).2 = k) → does [] m.
Proof. intros Hm k. rewrite Hm. apply follows_refl. Qed.

Lemma does_world {B} (m : M (world A) rt_error B) :
  (∀ w, flags (m w).2 = flags w) → (∀ w, rt_inv w → rt_inv (m w).2 ∧ advances w (m w).2) → does [] (on_world m).
Proof.
  intros Hf Hi k. unfold on_world, zoom. specialize (Hf (k_world k)). specialize (Hi (k_world k)).
  destruct (m (k_world k)) as [r w]. constructor; try done. simpl. by rewrite app_nil_r.
Qed.

(** Only the application's own state changes. *)
Lemma does_env {B} (m : M (world A) rt_error B) :
  (∀ w, ∃ a, (m w).2 = with_env a w) → does [] (on_world m).
Proof.
  intros Hm. apply does_world; intros w; destruct (Hm w) as [a ->]; [done|]. intros [Hl Ha Hs Hc Hcl].
  split; [by constructor|by split].
Qed.

Lemma does_pause : does [] (pause graph).
Proof.
  apply does_world; intros w; simpl.
  - apply flags_run, Forall_forall. intros op Hop. by apply list_elem_of_filter in Hop as [? _].
  - intros Hw. by apply rt_run_inv.
Qed.

Lemma does_in_app {B} (m : M A rt_error B) : does [] (in_app m).
Proof. apply does_env. intros w. unfold app, zoom. destruct (m (env w)) as [r a]. by exists a. Qed.

Lemma does_remaining d : does [] (remaining_until d : K Z).
Proof. apply does_env. intros w. unfold _remaining. destruct (loop_time (env w)) as [t a]. by exists a. Qed.

Lemma does_now : does [] (now : K Z).
Proof. apply does_env. intros w. destruct (loop_time (env w)) as [t a]. by exists a. Qed.

Lemma does_env_step f : does [] (env_step f : K unit).
Proof. apply does_env. intros w. by eexists. Qed.

Lemma does_raise {B} e : does [] (raise e : K B).
Proof. by apply does_still. Qed.
Lemma does_ret {B} (b : B) : does [] (mret b : K B).
Proof. by apply does_still. Qed.
Lemma does_lift {B} r : does [] (lift r : K B).
Proof. by apply does_still. Qed.
Lemma does_get : does [] (get : K _).
Proof. by apply does_still. Qed.
Lemma does_throw b e : does [] (throw_if b e : K unit).
Proof. by apply does_still. Qed.

Lemma does_log o : does [o] (modify (log_operation o) : K unit).
Proof. intros k. constructor; [done..|]. intros Hw. split; [done|apply advances_refl]. Qed.

#[local] Hint Resolve does_pause does_in_app does_remaining does_now does_env_step does_raise does_ret does_lift
  does_get does_throw : does.

Lemma does_cancel o d : does [] (_wait_for_cancellation graph o d).
Proof.
  unfold _wait_for_cancellation. solve_does_with @does_bind. apply does_env. intros w.
  destruct (cancel_within _ _ _) as [? a']. by exists a'.
Qed.
#[local] Hint Resolve does_cancel : does.

Lemma does_await o d c : does [o] (_await_bounded graph o d c).
Proof.
  unfold _await_bounded. apply does_bind; [apply does_log|]. intros _. destruct d as [d|]; [|solve_does_with @does_bind].
  solve_does_with @does_bind. all: apply does_env; intros w; destruct (operation_within _ _ _) as [? a']; by exists a'.
Qed.

(** The operation a hook call starts. *)
Definition hook_log (name : hook) (p : value) : list operation :=
  if decide (hook_of p name = AsyncHook 0) then [Hook p name] else [].

Lemma does_call_hook p name d : does (hook_log name p) (_call_hook graph p name d).
Proof.
  unfold _call_hook, hook_log. destruct (hook_of p name) as [| | |n]; simpl; try (by apply does_still).
  destruct (n =? 0) eqn:Hn.
  - apply Z.eqb_eq in Hn as ->. rewrite decide_True by done. apply does_await.
  - apply Z.eqb_neq in Hn. rewrite decide_False by congruence. apply does_raise.
Qed.

Lemma total_caught (m : K unit) : total (caught m).
Proof. intros k. unfold caught, try_except, mbind, M_bind. destruct (m k) as [[]]; by eexists. Qed.

Lemma does_caught ops (m : K unit) : does ops m → does ops (caught m).
Proof.
  intros Hm k. specialize (Hm k). unfold caught, try_except, mbind, M_bind. by destruct (m k) as [[[]|e] k1].
Qed.

Lemma total_bind {B C} (m : K B) (f : B → K C) : total m → (∀ b, total (f b)) → total (m ≫= f).
Proof.
  intros Hm Hf k. destruct (Hm k) as [b Hb]. unfold mbind, M_bind. destruct (m k) as [r k1]. simpl in Hb.
  subst r. apply Hf.
Qed.

Lemma total_ret {B} (b : B) : total (mret b : K B).
Proof. intros k. by eexists. Qed.

Lemma total_hooks ps name d : total (_run_reverse_hooks graph ps name d).
Proof.
  induction ps as [|p ps IH]; simpl; [apply total_ret|].
  apply total_bind; [apply total_caught|]. intros e. apply total_bind; [apply IH|]. intros r. apply total_ret.
Qed.

Lemma does_hooks ps name d : does (mjoin (hook_log name <$> ps)) (_run_reverse_hooks graph ps name d).
Proof.
  induction ps as [|p ps IH]; simpl; [apply does_ret|].
  apply does_seq; [apply total_caught|apply does_caught, does_call_hook|]. intros e.
  apply does_bind; [apply IH|]. intros r. apply does_ret.
Qed.

(** Quiescing calls some of the participants, in their order. *)
Definition quiesce_log (p : value) : operation := Hook p on_application_quiesce.

Lemma quiesce_one p d c k : ∃ q, q `sublist_of` [quiesce_log p] ∧ follows q k (_call_quiesce graph p d c k).2.
Proof.
  unfold _call_quiesce. destruct (hook_of p on_application_quiesce) as [| | |n];
    try (exists []; split; [apply sublist_nil_l|apply follows_refl]).
  destruct (n =? 1); [|exists []; split; [apply sublist_nil_l|apply follows_refl]].
  pose proof (does_remaining d k) as Hr. unfold mbind, M_bind. destruct (remaining_until d k) as [[r|e] k1];
    [|exists []; split; [apply sublist_nil_l|done]]. simpl in Hr.
  destruct (r <=? 0); [exists []; split; [apply sublist_nil_l|done]|]. exists [quiesce_log p].
  split; [done|]. apply (follows_trans [] _ _ _ _ Hr). apply does_await.
Qed.

Lemma total_quiesce ps d c : total (_run_reverse_quiesce graph ps d c).
Proof.
  induction ps as [|p ps IH]; simpl; [apply total_ret|].
  apply total_bind; [apply total_caught|]. intros e. apply total_bind; [apply IH|]. intros r. apply total_ret.
Qed.

Lemma does_quiesce ps d c k :
  ∃ q, q `sublist_of` (quiesce_log <$> ps) ∧ follows q k (_run_reverse_quiesce graph ps d c k).2.
Proof.
  revert k. induction ps as [|p ps IH]; intros k; simpl.
  { exists []. split; [done|apply follows_refl]. }
  destruct (quiesce_one p d c k) as (q1 & Hq1 & Hf1).
  destruct (total_caught (_call_quiesce graph p d c) k) as [e He].
  assert (follows q1 k (caught (_call_quiesce graph p d c) k).2) as Hf1'.
  { unfold caught, try_except, mbind, M_bind. by destruct (_call_quiesce graph p d c k) as [[[]|?] k1]. }
  unfold mbind, M_bind. destruct (caught _ k) as [r k1]. simpl in *. subst r.
  destruct (IH k1) as (q2 & Hq2 & Hf2). destruct (total_quiesce ps d c k1) as [e2 He2].
  destruct (_run_reverse_quiesce graph ps d c k1) as [r k2]. simpl in *. subst r.
  exists (q1 ++ q2). split; [by apply (sublist_app q1 [_] q2)|]. by eapply follows_trans.
Qed.

Lemma does_begin_close i : does [] (on_world (modify (set_state (Some i) (with_lease begin_close))) : K unit).
Proof.
  apply does_world; intros w; [done|]. intros Hw.
  split; [by apply (rt_inv_step graph factory intrinsic (OpDrain i))|
          by apply (advances_step graph factory intrinsic (OpDrain i))].
Qed.

End facts.

#[export] Hint Resolve does_pause does_in_app does_remaining does_now does_env_step does_raise does_ret does_lift
  does_get does_throw does_cancel : does.
