(* ===== verification/RtShutdown.v ===== *)
(** * The application kernel: shutdown and rollback

    Whatever the application's hooks do, the kernel goes through the whole
    teardown: it collects errors, and raises one at the end. *)

From Stdlib Require Import ZArith Lia.
From stdpp Require Import base tactics list gmap strings.
From S2P Require Import Prelude DiDeclarations DiCompiler RtContainer RtContainerFacts RtScopes RtGraph.
From S2P Require Import RtResolution RtKernel RtKernelFacts.
Local Open Scope Z_scope.

Section shutdown.
Context {A : Type} `{Application A, Lifecycle A}.
Context (graph : CompiledGraph) (options : ApplicationOptions).
Implicit Types k : kernel A.

Abbreviation K := (M (kernel A) rt_error).
Abbreviation factory := (Some _work_scope_factory).
Abbreviation intrinsic := (Some _intrinsic_provider).

Lemma total_run {B} ops (m : K B) k :
  total m → does ops m → ∃ b k', m k = (Ok b, k') ∧ follows ops k k'.
Proof.
  intros Ht Hd. destruct (Ht k) as [b Hb]. specialize (Hd k). destruct (m k) as [r k']. simpl in *. subst r. eauto.
Qed.

(** ** Draining *)

Lemma does_for {B} (f : B → K unit) l : (∀ b, does [] (f b)) → does [] (mfor f l).
Proof.
  intros Hf. induction l as [|b l IH]; simpl; [apply does_ret|]. apply does_bind; [apply Hf|]. by intros _.
Qed.

Lemma on_world_for {B} (f : B → M (world A) rt_error unit) l k :
  on_world (mfor f l) k = mfor (λ b, on_world (f b)) l k.
Proof.
  revert k. induction l as [|b l IH]; intros k; simpl; [by destruct k|].
  unfold mbind, M_bind. specialize (IH (on_world (f b) k).2). unfold on_world, zoom in *.
  destruct (f b (k_world k)) as [[u|e] w]; simpl in *; [|done]. rewrite <- IH.
  by destruct (mfor f l w) as [r w'].
Qed.

Lemma does_drain d c : does [] (_drain_scopes graph options d c).
Proof.
  unfold _drain_scopes. apply does_bind; [eauto with does|]. intros _. apply does_bind; [eauto with does|]. intros k.
  apply does_bind; [|intros _; solve_does_with @does_bind].
  case_match; [apply does_ret|]. apply does_bind; [eauto with does|]. intros _. apply does_bind; [eauto with does|].
  intros k'. intros k0. rewrite on_world_for. apply does_for. intros i. apply (does_begin_close graph).
Qed.

(** ** Teardown *)

(** The container is closed on the way. *)
Record closes (ops : list operation) k k' : Prop := {
  cl_view : kview k' = kview k;
  cl_operations : operations k' = operations k ++ ops;
  cl_admission : (flags (k_world k')).1 = (flags (k_world k)).1;
  cl_closed : container_closed (k_world k') = true;
  cl_inv : rt_inv (k_world k) → rt_inv (k_world k') ∧ advances (k_world k) (k_world k')
}.

Lemma follows_closes o1 o2 k1 k2 k3 : follows o1 k1 k2 → closes o2 k2 k3 → closes (o1 ++ o2) k1 k3.
Proof.
  intros [V1 O1 F1 I1] [V2 O2 F2 C2 I2].
  constructor; [congruence|by rewrite O2, O1, app_assoc|congruence|done|].
  intros Hw. destruct (I1 Hw) as [Hw2 A1]. destruct (I2 Hw2) as [Hw3 A2]. split; [done|].
  by eapply advances_trans.
Qed.

Lemma close_world d (w : world A) :
  ∃ e w', close d w = (Ok e, w') ∧ container_closed w' = true ∧ (flags w').1 = (flags w).1.
Proof.
  unfold close. autorewrite with mrun. destruct (container_closed w) eqn:Hcl; [by exists None, w|].
  autorewrite with mrun. set (w1 := {| app_scope := _ |}).
  destruct (close_resources_run None None d w1 (app_scope w) eq_refl) as (errs & w2 & Hrun & Hem & _).
  rewrite (M_bind_run _ _ _ _ _ Hrun). exists (head errs), w2. split; [done|].
  pose proof (flags_emptied _ _ _ Hem) as Hf. injection Hf as E1 E2 E3.
  unfold flags. by rewrite E1, E2, E3.
Qed.

Lemma close_run d k : ∃ e k', on_world (close d) k = (Ok e, k') ∧ closes [] k k'.
Proof.
  destruct (close_world d (k_world k)) as (e & w' & Hrun & Hcl & Hf). exists e, (with_world w' k).
  unfold on_world, zoom. rewrite Hrun. split; [done|].
  constructor; try done; [by rewrite app_nil_r|]. intros Hw.
  pose proof (rt_inv_step graph factory intrinsic (OpClose d) _ Hw) as H1.
  pose proof (advances_step graph factory intrinsic (OpClose d) _ Hw) as H2.
  simpl in H1, H2. rewrite forget_state, Hrun in H1, H2. done.
Qed.

Definition hooks (name : hook) (ps : list value) : list operation := mjoin (hook_log name <$> ps).

(** What a teardown starts, in order. *)
Definition teardown_log k : list operation :=
  hooks on_application_shutdown (reverse (_bootstrapped k)) ++
  (if _binding_attempted k then [BinderClose] else []) ++
  hooks on_module_destroy (reverse (_module_initialized k)).

Lemma close_binder_run d k :
  ∃ e k', (k ← get; if _binding_attempted k then caught (_await_bounded graph BinderClose (Some d) None)
                    else mret None : K _) k = (Ok e, k') ∧
    follows (if _binding_attempted k then [BinderClose] else []) k k'.
Proof.
  autorewrite with mrun. destruct (_binding_attempted k); [|exists None, k; split; [done|apply follows_refl]].
  apply total_run; [apply total_caught|apply does_caught, does_await].
Qed.

Lemma teardown_run d k : ∃ e k', teardown graph d k = (Ok e, k') ∧ closes (teardown_log k) k k'.
Proof.
  unfold teardown. autorewrite with mrun.
  destruct (total_run _ _ k (total_hooks graph (reverse (_bootstrapped k)) on_application_shutdown (Some d))
    (does_hooks graph _ _ _)) as (e1 & k1 & R1 & F1).
  rewrite (M_bind_run _ _ _ _ _ R1). destruct (close_binder_run d k1) as (e2 & k2 & R2 & F2).
  autorewrite with mrun in R2 |- *. rewrite (M_bind_run _ _ _ _ _ R2). autorewrite with mrun.
  destruct (total_run _ _ k2 (total_hooks graph (reverse (_module_initialized k2)) on_module_destroy (Some d))
    (does_hooks graph _ _ _)) as (e3 & k3 & R3 & F3).
  rewrite (M_bind_run _ _ _ _ _ R3). destruct (close_run (Some d) k3) as (e4 & k4 & R4 & F4).
  rewrite (M_bind_run _ _ _ _ _ R4). do 2 eexists. split; [done|].
  pose proof (fo_view _ _ _ F1) as V1. pose proof (fo_view _ _ _ F2) as V2. injection V1 as _ _ I1 _ B1 _.
  injection V2 as _ _ I2 _ _ _. unfold teardown_log, hooks. rewrite <- B1, <- I1, <- I2.
  eapply follows_closes; [exact F1|]. eapply follows_closes; [exact F2|].
  rewrite <- (app_nil_r (mjoin _)). by eapply follows_closes.
Qed.

(** ** Quiescence *)

(** Every quiescing hook ends when it is cancelled. *)
Definition cooperative : Prop :=
  (∀ o d a, (cancel_within o d a).1 = true) ∧
  ∀ o d a, (operation_within o d a).1 ≠ Some (Err _LingeringQuiesceError).

(** Programs that do not raise that a hook lingers. *)
Definition gentle {B} (m : K B) : Prop := ∀ k, (m k).1 ≠ Err _LingeringQuiesceError.

Lemma gentle_bind {B C} (m : K B) (f : B → K C) : gentle m → (∀ b, gentle (f b)) → gentle (m ≫= f).
Proof.
  intros Hm Hf k. specialize (Hm k). unfold mbind, M_bind. destruct (m k) as [[b|e] k1]; [apply Hf|].
  simpl in *. congruence.
Qed.

Lemma gentle_total {B} (m : K B) : total m → gentle m.
Proof. intros Hm k. destruct (Hm k) as [b ->]. done. Qed.

Lemma total_world {B} (m : M (world A) rt_error B) : (∀ w, ∃ b, (m w).1 = Ok b) → total (on_world m).
Proof. intros Hm k. unfold on_world, zoom. destruct (Hm (k_world k)) as [b Hb]. destruct (m _). by exists b. Qed.

Lemma total_now : total (now : K Z).
Proof. apply total_world. intros w. destruct (loop_time (env w)). by eexists. Qed.
Lemma total_remaining d : total (remaining_until d : K Z).
Proof. apply total_world. intros w. unfold _remaining. destruct (loop_time (env w)). by eexists. Qed.
Lemma total_pause : total (pause graph).
Proof. apply total_world. intros w. by eexists. Qed.

Lemma gentle_await o d c : cooperative → gentle (_await_bounded graph o (Some d) (Some c)).
Proof.
  intros [Hc Ho]. apply gentle_bind; [done|]. intros _. apply gentle_bind; [apply gentle_total, total_remaining|].
  assert (gentle (_wait_for_cancellation graph o c;; raise TimeoutError : K unit)) as Hexp.
  { apply gentle_bind; [|done]. apply gentle_bind; [apply gentle_total, total_remaining|]. intros r k.
    unfold on_world at 1, zoom, mbind, M_bind. specialize (Hc o r (env (k_world k))).
    destruct (cancel_within _ _ _) as [b a]. simpl in Hc. subst b.
    destruct (total_pause (with_world (with_env a (k_world k)) k)) as [u Hu]. by destruct (pause _ _) as [[] ?]. }
  intros r. destruct (r <=? 0); [done|]. intros k. unfold wait_within, on_world at 1, zoom, mbind, M_bind.
  specialize (Ho o r (env (k_world k))). destruct (operation_within _ _ _) as [done a]. simpl in Ho.
  set (k1 := with_world _ _). destruct (total_pause k1) as [u Hu]. destruct (pause graph k1) as [r' k2].
  simpl in Hu. subst r'. destruct done as [[|e]|]; [done| |apply Hexp]. unfold lift. simpl. congruence.
Qed.

Lemma quiesce_gentle p d c : cooperative → gentle (_call_quiesce graph p d c).
Proof.
  intros Hc. unfold _call_quiesce. destruct (hook_of p on_application_quiesce); try done. case_match; [|done].
  apply gentle_bind; [apply gentle_total, total_remaining|]. intros r. case_match; [done|]. by apply gentle_await.
Qed.

Lemma quiesce_cooperates ps d c k :
  cooperative → ∃ e, (_run_reverse_quiesce graph ps d c k).1 = Ok (e, false).
Proof.
  intros Hc. revert k. induction ps as [|p ps IH]; intros k; simpl; [by exists None|].
  pose proof (quiesce_gentle p d c Hc k) as Hg. unfold caught, try_except, mbind, M_bind.
  destruct (_call_quiesce graph p d c k) as [[[]|e] k1]; simpl in *; destruct (IH k1) as [e2 He2];
    destruct (_run_reverse_quiesce graph ps d c k1) as [r k2]; simpl in He2; subst r; eexists; [done|].
  simpl. by destruct e.
Qed.

(** ** Quiesce, drain and tear down *)

(** [lingering]: a hook ignored its cancellation, and the teardown was given
    up. *)
Record stops (lingering : bool) k k' : Prop := {
  st_view : kview k' = kview k;
  st_operations : ∃ q, q `sublist_of` (quiesce_log <$> reverse (_bootstrapped k)) ∧
    operations k' = operations k ++ q ++ (if lingering then [] else teardown_log k);
  st_request : _request_admission_open (admission (k_world k')) = _request_admission_open (admission (k_world k));
  st_work : _work_admission_open (admission (k_world k')) = false;
  st_closed : lingering = false → container_closed (k_world k') = true;
  st_inv : rt_inv (k_world k) → rt_inv (k_world k') ∧ advances (k_world k) (k_world k')
}.

Lemma open_work_run b k : ∃ k', open_work b k = (Ok tt, k') ∧ kview k' = kview k ∧
  operations k' = operations k ∧
  flags (k_world k') = (_request_admission_open (admission (k_world k)), b, container_closed (k_world k)) ∧
  (rt_inv (k_world k) → rt_inv (k_world k') ∧ advances (k_world k) (k_world k')).
Proof. eexists. split_and!; try done. intros [Hl Happ Hsc Hact Hc]. split; [by constructor|by split]. Qed.

Lemma open_requests_run b k : ∃ k', open_requests b k = (Ok tt, k') ∧ kview k' = kview k ∧
  operations k' = operations k ∧
  flags (k_world k') = (b, _work_admission_open (admission (k_world k)), container_closed (k_world k)) ∧
  (rt_inv (k_world k) → rt_inv (k_world k') ∧ advances (k_world k) (k_world k')).
Proof. eexists. split_and!; try done. intros [Hl Happ Hsc Hact Hc]. split; [by constructor|by split]. Qed.

(** Quiescence is over, and work is no longer admitted. *)
Record quiesced k k' : Prop := {
  qu_view : kview k' = kview k;
  qu_operations : ∃ q, q `sublist_of` (quiesce_log <$> reverse (_bootstrapped k)) ∧
    operations k' = operations k ++ q;
  qu_flags : flags (k_world k') =
    (_request_admission_open (admission (k_world k)), false, container_closed (k_world k));
  qu_inv : rt_inv (k_world k) → rt_inv (k_world k') ∧ advances (k_world k) (k_world k')
}.

Lemma quiesce_run d c k : ∃ e lingering k1 k2,
  _run_reverse_quiesce graph (reverse (_bootstrapped k)) d c k = (Ok (e, lingering), k1) ∧
  open_work false k1 = (Ok tt, k2) ∧ quiesced k k2 ∧ (cooperative → lingering = false).
Proof.
  destruct (does_quiesce graph (reverse (_bootstrapped k)) d c k) as (q & Hq & [V O F I]).
  destruct (total_quiesce graph (reverse (_bootstrapped k)) d c k) as [[e l] Hel].
  pose proof (quiesce_cooperates (reverse (_bootstrapped k)) d c k) as Hco.
  destruct (_run_reverse_quiesce graph _ d c k) as [r k1]. simpl in *. subst r.
  destruct (open_work_run false k1) as (k2 & R2 & V2 & O2 & F2 & I2).
  exists e, l, k1, k2. split_and!; try done.
  - constructor; [congruence|exists q; by rewrite O2| |].
    + injection F as F0 _ F1. rewrite F2. by rewrite F0, F1.
    + intros Hw. destruct (I Hw) as [Hw1 A1]. destruct (I2 Hw1) as [Hw2 A2]. split; [done|].
      by eapply advances_trans.
  - intros Hc. destruct (Hco Hc) as [e' [= _ ->]]. done.
Qed.

Lemma quiesced_follows k k1 k2 : quiesced k k1 → follows [] k1 k2 → quiesced k k2.
Proof.
  intros [V1 (q & Hq & O1) F1 I1] [V2 O2 F2 I2]. constructor; [congruence| |congruence|].
  - exists q. by rewrite O2, O1, app_nil_r.
  - intros Hw. destruct (I1 Hw) as [Hw1 A1]. destruct (I2 Hw1) as [Hw2 A2]. split; [done|]. by eapply advances_trans.
Qed.

Lemma stops_lingering k k' : quiesced k k' → stops true k k'.
Proof.
  intros [V (q & Hq & O) F I]. injection F as F1 F2 _. constructor; try done. exists q. by rewrite app_nil_r.
Qed.

Lemma stops_torn k k1 k2 : quiesced k k1 → closes (teardown_log k1) k1 k2 → stops false k k2.
Proof.
  intros [V (q & Hq & O) F I] [V2 O2 F2 C2 I2]. injection F as F1 F3 _. injection F2 as F4 F5.
  constructor; [congruence| |congruence|congruence|done|].
  - exists q. split; [done|]. rewrite O2, O, <- app_assoc. do 2 f_equal. unfold teardown_log.
    injection V as _ _ -> -> -> _. done.
  - intros Hw. destruct (I Hw) as [Hw1 A1]. destruct (I2 Hw1) as [Hw2 A2]. split; [done|]. by eapply advances_trans.
Qed.

Lemma follows_stops l k k1 k2 : follows [] k k1 → stops l k1 k2 → stops l k k2.
Proof.
  intros [V1 O1 F1 I1] [V2 (q & Hq & O2) R2 W2 C2 I2]. rewrite app_nil_r in O1.
  pose proof V1 as V1'. injection V1' as _ _ Ei Eb Ea _. injection F1 as Fr _ _.
  constructor; [congruence| |congruence|done|done|].
  - exists q. unfold teardown_log in *. rewrite <- O1, <- Ei, <- Eb, <- Ea. done.
  - intros Hw. destruct (I1 Hw) as [Hw1 A1]. destruct (I2 Hw1) as [Hw2 A2]. split; [done|]. by eapply advances_trans.
Qed.

Lemma cutoff_run d k : ∃ c k', _scope_drain_cutoff options d k = (Ok c, k') ∧ follows [] k k'.
Proof.
  apply total_run; [apply total_bind; [apply total_now|by intros; apply total_ret]|].
  unfold _scope_drain_cutoff. solve_does_with @does_bind.
Qed.

Lemma quiesce_deadline_run d k : ∃ c k', _quiesce_cancellation_deadline options d k = (Ok c, k') ∧ follows [] k k'.
Proof.
  apply total_run; [apply total_bind; [apply total_now|by intros; apply total_ret]|].
  unfold _quiesce_cancellation_deadline. solve_does_with @does_bind.
Qed.

Lemma drain_run d c k : ∃ e k', caught (_drain_scopes graph options d c) k = (Ok e, k') ∧ follows [] k k'.
Proof. apply total_run; [apply total_caught|apply does_caught, does_drain]. Qed.

Lemma shutdown_steps_run d k : ∃ e l k',
  _shutdown_steps graph options d k = (Ok e, k') ∧ stops l k k' ∧ (cooperative → l = false).
Proof.
  unfold _shutdown_steps. destruct (cutoff_run d k) as (c & k1 & R1 & F1). rewrite (M_bind_run _ _ _ _ _ R1).
  destruct (quiesce_deadline_run d k1) as (cd & k2 & R2 & F2). rewrite (M_bind_run _ _ _ _ _ R2).
  autorewrite with mrun.
  destruct (quiesce_run c cd k2) as (e & l & k3 & k4 & R3 & R4 & Q & Hl). rewrite (M_bind_run _ _ _ _ _ R3).
  rewrite (M_bind_run _ _ _ _ _ R4). destruct (drain_run d c k4) as (e5 & k5 & R5 & F5).
  rewrite (M_bind_run _ _ _ _ _ R5). pose proof (quiesced_follows _ _ _ Q F5) as Q5.
  pose proof (follows_trans _ _ _ _ _ F1 F2) as F12. destruct l; simpl.
  - eexists _, true, _. split; [done|]. split; [|done]. apply (follows_stops _ _ _ _ F12). by apply stops_lingering.
  - destruct (teardown_run d k5) as (e6 & k6 & R6 & C6). rewrite (M_bind_run _ _ _ _ _ R6).
    eexists _, false, _. split; [done|]. split; [|done]. apply (follows_stops _ _ _ _ F12). by eapply stops_torn.
Qed.

(** ** Shutdown and rollback *)

Definition lists k := (_modules k, _module_initialized k, _bootstrapped k, _binding_attempted k).

(** The application has come to its end in state [s]. *)
Record halted (s : ApplicationState) (lingering : bool) k k' : Prop := {
  ha_state : k_state k' = s;
  ha_lists : lists k' = lists k;
  ha_operations : ∃ q, q `sublist_of` (quiesce_log <$> reverse (_bootstrapped k)) ∧
    operations k' = operations k ++ q ++ (if lingering then [] else teardown_log k);
  ha_request : _request_admission_open (admission (k_world k')) = false;
  ha_work : _work_admission_open (admission (k_world k')) = false;
  ha_closed : lingering = false → container_closed (k_world k') = true;
  ha_inv : rt_inv (k_world k) → rt_inv (k_world k') ∧ advances (k_world k) (k_world k')
}.

(** The steps between [k0] and [k1], and what is written before and after. *)
Lemma stops_halted s l k k0 k1 k' :
  lists k0 = lists k → operations k0 = operations k → (flags (k_world k0)).1.1 = false →
  (rt_inv (k_world k) → rt_inv (k_world k0) ∧ advances (k_world k) (k_world k0)) →
  stops l k0 k1 → k_world k' = k_world k1 → operations k' = operations k1 → lists k' = lists k1 →
  k_state k' = s → halted s l k k'.
Proof.
  intros L0 O0 R0 I0 [V (q & Hq & O) R W C I] Ew Eo El Es. simpl in R0.
  assert (lists k1 = lists k0) as L1 by (unfold lists; injection V as _ -> -> -> -> _; done).
  constructor; [done|congruence| |congruence|congruence|intros; rewrite Ew; auto|rewrite Ew].
  - exists q. unfold teardown_log in *. injection L0 as _ Ei Eb Ea. rewrite <- O0, <- Ei, <- Eb, <- Ea, Eo. done.
  - intros Hw. destruct (I0 Hw) as [Hw1 A1]. destruct (I Hw1) as [Hw2 A2]. split; [done|]. by eapply advances_trans.
Qed.

Lemma now_run k : ∃ t k', now k = (Ok t, k') ∧ follows [] k k'.
Proof. apply total_run; [apply total_now|apply does_now]. Qed.

(** A started application stops, whatever its hooks and resources do. *)
Lemma shutdown_run k :
  k_state k = STARTED →
  ∃ l, halted STOPPED l k (shutdown graph options k).2 ∧ (cooperative → l = false).
Proof.
  intros Hs. unfold shutdown, shutdown_begin. autorewrite with mrun. rewrite Hs. autorewrite with mrun.
  destruct (open_requests_run false (with_k_state STOPPING k)) as (k1 & R1 & V1 & O1 & F1 & I1).
  rewrite (M_bind_run _ _ _ _ _ R1). autorewrite with mrun. destruct (now_run k1) as (t & k2 & R2 & [V2 O2 F2 I2]).
  rewrite (M_bind_run _ _ _ _ _ R2). autorewrite with mrun. unfold run_shutdown_task. autorewrite with mrun.
  simpl. set (d := t + shutdown_timeout options). set (k3 := with_shutdown (d, None) k2).
  autorewrite with mrun. unfold _run_shutdown. autorewrite with mrun.
  destruct (shutdown_steps_run d k3) as (e & l & k4 & R4 & S4 & Hl).
  rewrite (M_bind_run _ _ _ _ _ R4). autorewrite with mrun. exists l. split; [|done].
  injection V1 as _ E1 E2 E3 E4 _. injection V2 as _ E5 E6 E7 E8 _.
  apply (stops_halted _ _ _ k3 k4); simpl; try done;
    try (unfold shutdown_end; autorewrite with mrun; simpl; by destruct e).
  - unfold lists. simpl. congruence.
  - rewrite O2, app_nil_r. done.
  - unfold flags in F1, F2. simpl in *. congruence.
  - intros Hw. destruct (I1 Hw) as [Hw1 A1]. destruct (I2 Hw1) as [Hw2 A2]. split; [done|]. by eapply advances_trans.
Qed.

Lemma open_requests_id b k : _request_admission_open (admission (k_world k)) = b → open_requests b k = (Ok tt, k).
Proof. intros <-. destruct k as [[? ? ? [] ? ? ?] ? ? ? ? ? ? ?]. done. Qed.

Lemma open_work_id b k : _work_admission_open (admission (k_world k)) = b → open_work b k = (Ok tt, k).
Proof. intros <-. destruct k as [[? ? ? [] ? ? ?] ? ? ? ? ? ? ?]. done. Qed.

Lemma rollback_kernel k :
  ∃ l k', _rollback graph options k = (Ok tt, k') ∧ halted FAILED l k k' ∧ (cooperative → l = false).
Proof.
  unfold _rollback. destruct (now_run k) as (t & k1 & R1 & [V1 O1 F1 I1]). rewrite (M_bind_run _ _ _ _ _ R1).
  set (d := t + _). destruct (open_requests_run false k1) as (k2 & R2 & V2 & O2 & F2 & I2).
  rewrite (M_bind_run _ _ _ _ _ R2). destruct (cutoff_run d k2) as (c & k3 & R3 & F3).
  rewrite (M_bind_run _ _ _ _ _ R3). destruct (quiesce_deadline_run d k3) as (cd & k4 & R4 & F4).
  rewrite (M_bind_run _ _ _ _ _ R4). autorewrite with mrun.
  destruct (quiesce_run c cd k4) as (e & l & k5 & k6 & R5 & R6 & Q & Hl). rewrite (M_bind_run _ _ _ _ _ R5).
  rewrite (M_bind_run _ _ _ _ _ R6). destruct (cutoff_run d k6) as (c' & k7 & R7 & F7).
  rewrite (M_bind_run _ _ _ _ _ R7). destruct (drain_run d c' k7) as (e8 & k8 & R8 & F8).
  rewrite (M_bind_run _ _ _ _ _ R8).
  pose proof (quiesced_follows _ _ _ (quiesced_follows _ _ _ Q F7) F8) as Q8.
  pose proof (follows_trans _ _ _ _ _ F3 F4) as F34.
  assert (∀ s k9 k', stops s k2 k9 → k_world k' = k_world k9 → operations k' = operations k9 → lists k' = lists k9 →
    k_state k' = FAILED → halted FAILED s k k') as Hhalt.
  { intros s k9 k' Hst. apply (stops_halted _ _ _ k2 k9); try done.
    - injection V1 as _ E1 E2 E3 E4 _. injection V2 as _ E5 E6 E7 E8 _. unfold lists. congruence.
    - rewrite O2, O1, app_nil_r. done.
    - by rewrite F2.
    - intros Hw. destruct (I1 Hw) as [Hw1 A1]. destruct (I2 Hw1) as [Hw2 A2]. split; [done|]. by eapply advances_trans. }
  destruct l; simpl.
  - exists true. eexists. split; [done|]. split; [|done].
    apply (Hhalt _ k8); try done. apply (follows_stops _ _ _ _ F34). by apply stops_lingering.
  - destruct (teardown_run d k8) as (e9 & k9 & R9 & C9). rewrite (M_bind_run _ _ _ _ _ R9).
    assert (stops false k2 k9) as S9 by (apply (follows_stops _ _ _ _ F34); by eapply stops_torn).
    assert (_request_admission_open (admission (k_world k9)) = false) as Hr
      by (rewrite (st_request _ _ _ S9); unfold flags in F2; congruence).
    rewrite (M_bind_run _ _ _ _ _ (open_requests_id _ _ Hr)).
    rewrite (M_bind_run _ _ _ _ _ (open_work_id _ _ (st_work _ _ _ S9))). exists false. eexists.
    split; [done|]. split; [|done]. by apply (Hhalt _ k9).
Qed.

End shutdown.
