(* ===== verification/RtStart.v ===== *)
(** * The application kernel: start

    What starting an application does when it succeeds, what is left when it
    fails, and that only the application's own code can make it fail. *)

From Stdlib Require Import ZArith Lia.
From stdpp Require Import base tactics list gmap strings.
From S2P Require Import Prelude DiDeclarations DiCompiler RtContainer RtContainerFacts RtScopes RtGraph.
From S2P Require Import DiGraphFacts RtResolution RtKernel RtKernelFacts RtShutdown.
Local Open Scope Z_scope.

Section start.
Context {A : Type} `{Application A, Lifecycle A}.
Context (graph : CompiledGraph) (options : ApplicationOptions).
Implicit Types k : kernel A.

Abbreviation K := (M (kernel A) rt_error).
Abbreviation factory := (Some _work_scope_factory).
Abbreviation intrinsic := (Some _intrinsic_provider).

(** ** Progress *)

(** From [k] to [k'] these operations were started, these participants were
    initialized and these bootstrapped. *)
Record advance (ops : list operation) (inits boots : list value) k k' : Prop := {
  ad_view : (k_state k', _modules k', _binding_attempted k', _shutdown_task k') =
            (k_state k, _modules k, _binding_attempted k, _shutdown_task k);
  ad_inits : _module_initialized k' = _module_initialized k ++ inits;
  ad_boots : _bootstrapped k' = _bootstrapped k ++ boots;
  ad_operations : operations k' = operations k ++ ops;
  ad_flags : flags (k_world k') = flags (k_world k);
  ad_inv : rt_inv (k_world k) → rt_inv (k_world k') ∧ advances (k_world k) (k_world k')
}.

Lemma follows_advance ops k k' : follows ops k k' → advance ops [] [] k k'.
Proof. intros [[= V1 V2 V3 V4 V5 V6] O F I]. constructor; rewrite ?app_nil_r; [congruence..|done]. Qed.

Lemma advance_refl k : advance [] [] [] k k.
Proof. apply follows_advance, follows_refl. Qed.

Lemma advance_trans o1 i1 b1 o2 i2 b2 k1 k2 k3 :
  advance o1 i1 b1 k1 k2 → advance o2 i2 b2 k2 k3 → advance (o1 ++ o2) (i1 ++ i2) (b1 ++ b2) k1 k3.
Proof.
  intros [V1 N1 B1 O1 F1 I1] [V2 N2 B2 O2 F2 I2].
  constructor; [congruence|by rewrite N2, N1, app_assoc|by rewrite B2, B1, app_assoc|
                by rewrite O2, O1, app_assoc|congruence|].
  intros Hw. destruct (I1 Hw) as [Hw2 A1]. destruct (I2 Hw2) as [Hw3 A2]. split; [done|]. by eapply advances_trans.
Qed.

(** ** The outcome of a hook *)

(** Calling this hook of a participant did not raise: there is none, or it was
    run and returned. *)
Definition hook_returned (name : hook) (v : value) : Prop :=
  hook_of v name = NoHook ∨
  hook_of v name = AsyncHook 0 ∧ ∃ a a', run_operation (Hook v name) a = (Ok tt, a').

(** It raised [e]: the hook was run and raised it, or what the participant has
    under this name is not a hook. *)
Definition hook_raised (name : hook) (v : value) (e : rt_error) : Prop :=
  (hook_of v name = AsyncHook 0 ∧ ∃ a a', run_operation (Hook v name) a = (Err e, a')) ∨
  (hook_of v name ≠ NoHook ∧ hook_of v name ≠ AsyncHook 0 ∧ e = LifecycleError).

Definition hook_outcome (name : hook) (v : value) (r : result rt_error unit) : Prop :=
  match r with Ok _ => hook_returned name v | Err e => hook_raised name v e end.

(** Without a deadline an operation is run to its end. *)
Lemma await_outcome o k : ∃ a a', run_operation o a = ((_await_bounded graph o None None k).1, a').
Proof.
  unfold _await_bounded. rewrite run_bind_modify. unfold in_app, on_world, app, zoom, mbind, M_bind. simpl.
  destruct (run_operation o (env (k_world k))) as [r a'] eqn:Hr. simpl. exists (env (k_world k)), a'. by rewrite Hr.
Qed.

Lemma call_hook_outcome v name k : hook_outcome name v (_call_hook graph v name None k).1.
Proof.
  unfold _call_hook, hook_outcome, hook_raised, hook_returned.
  destruct (hook_of v name) as [| | |n] eqn:Hh; simpl; [by left|by right..|].
  destruct (n =? 0) eqn:Hn; [|right; split_and!; [done|intros [= ->]; done|done]].
  apply Z.eqb_eq in Hn as ->. destruct (await_outcome (Hook v name) k) as (a & a' & Hr).
  destruct (_await_bounded graph (Hook v name) None None k) as [[[]|e] k']; [right|left]; eauto.
Qed.

(** A statement of a loop over participants, which calls a hook of [v]: it
    advances by [inits] and [boots] when the hook did not raise. *)
Definition stage (name : hook) (v : value) (inits boots : list value) (m : K unit) : Prop :=
  ∀ k, let '(r, k') := m k in hook_outcome name v r ∧
       match r with
       | Ok _ => advance (hook_log name v) inits boots k k'
       | Err _ => advance (hook_log name v) [] [] k k'
       end.

Lemma stage_hook name v inits boots f :
  (∀ k, advance [] inits boots k (f k)) → stage name v inits boots (_call_hook graph v name None;; modify f).
Proof.
  intros Hadd k. unfold mbind, M_bind. pose proof (does_call_hook graph v name None k) as Hf.
  pose proof (call_hook_outcome v name k) as Ho.
  destruct (_call_hook graph v name None k) as [[[]|e] k1]; simpl in Hf, Ho; [|split; [done|by apply follows_advance]].
  rewrite run_modify. split; [done|]. apply follows_advance in Hf. rewrite <- (app_nil_r (hook_log _ _)).
  exact (advance_trans _ [] [] _ _ _ _ _ _ Hf (Hadd k1)).
Qed.

Lemma stage_init v : stage on_module_init v [v] [] (init_participant graph v).
Proof.
  apply stage_hook. intros k. by constructor; simpl; rewrite ?app_nil_r.
Qed.

Lemma stage_bootstrap v : stage on_application_bootstrap v [] [v] (bootstrap graph v).
Proof.
  apply stage_hook. intros k. by constructor; simpl; rewrite ?app_nil_r.
Qed.

Lemma hooks_app name l1 l2 : hooks name (l1 ++ l2) = hooks name l1 ++ hooks name l2.
Proof. unfold hooks. by rewrite fmap_app, join_app. Qed.
Lemma hooks_one name v : hooks name [v] = hook_log name v.
Proof. unfold hooks. simpl. apply app_nil_r. Qed.

(** A loop of stages gets through its list, or stops at the element whose hook
    raised. *)
Lemma stages name (f : value → K unit) (inits boots : value → list value) l k :
  (∀ v, stage name v (inits v) (boots v) (f v)) →
  let '(r, k') := mfor f l k in
  match r with
  | Ok _ => Forall (hook_returned name) l ∧
            advance (hooks name l) (mjoin (inits <$> l)) (mjoin (boots <$> l)) k k'
  | Err e => ∃ l1 v, l1 ++ [v] `prefix_of` l ∧ Forall (hook_returned name) l1 ∧ hook_raised name v e ∧
               advance (hooks name (l1 ++ [v])) (mjoin (inits <$> l1)) (mjoin (boots <$> l1)) k k'
  end.
Proof.
  intros Hf. revert k. induction l as [|v l IH]; intros k; cbn [mfor]; [split; [done|apply advance_refl]|].
  unfold mbind, M_bind. specialize (Hf v k). destruct (f v k) as [[u|e] k1]; destruct Hf as [Ho Ha]; simpl in Ho.
  - specialize (IH k1). destruct (mfor f l k1) as [[u'|e] k2].
    + destruct IH as [IH1 IH2]. split; [by constructor|]. by eapply advance_trans.
    + destruct IH as (l1 & x & Hp & Hr & Hx & Ha'). exists (v :: l1), x.
      split_and!; [by apply prefix_cons|by constructor|done|]. by eapply (advance_trans _ _ _ _ _ _ _ _ _ Ha Ha').
  - exists [], v. split_and!; [by apply prefix_cons, prefix_nil|done|done|]. simpl. by rewrite hooks_one.
Qed.

Lemma mjoin_single {B} (l : list B) : mjoin ((λ x, [x]) <$> l) = l.
Proof. induction l as [|b l IH]; [done|]. exact (f_equal (cons b) IH). Qed.
Lemma mjoin_none {B C} l : mjoin ((λ _ : B, [] : list C) <$> l) = [].
Proof. by induction l. Qed.

Lemma init_modules l k :
  let '(r, k') := mfor (init_participant graph) l k in
  match r with
  | Ok _ => Forall (hook_returned on_module_init) l ∧ advance (hooks on_module_init l) l [] k k'
  | Err e => ∃ l1 v, l1 ++ [v] `prefix_of` l ∧ Forall (hook_returned on_module_init) l1 ∧
      hook_raised on_module_init v e ∧ advance (hooks on_module_init (l1 ++ [v])) l1 [] k k'
  end.
Proof.
  pose proof (stages on_module_init (init_participant graph) (λ v, [v]) (λ _, []) l k stage_init) as Hs.
  destruct (mfor _ l k) as [[u|e] k'].
  - by rewrite mjoin_single, mjoin_none in Hs.
  - destruct Hs as (l1 & v & Hs). rewrite mjoin_single, mjoin_none in Hs. eauto.
Qed.

Lemma bootstraps l k :
  let '(r, k') := mfor (bootstrap graph) l k in
  match r with
  | Ok _ => Forall (hook_returned on_application_bootstrap) l ∧
            advance (hooks on_application_bootstrap l) [] l k k'
  | Err e => ∃ l1 v, l1 ++ [v] `prefix_of` l ∧ Forall (hook_returned on_application_bootstrap) l1 ∧
      hook_raised on_application_bootstrap v e ∧
      advance (hooks on_application_bootstrap (l1 ++ [v])) [] l1 k k'
  end.
Proof.
  pose proof (stages on_application_bootstrap (bootstrap graph) (λ _, []) (λ v, [v]) l k stage_bootstrap) as Hs.
  destruct (mfor _ l k) as [[u|e] k'].
  - by rewrite mjoin_single, mjoin_none in Hs.
  - destruct Hs as (l1 & v & Hs). rewrite mjoin_none, mjoin_single in Hs. eauto.
Qed.

(** ** Singletons *)

Lemma does_resolve fuel task ref s : does [] (on_world (resolve_ref graph factory intrinsic fuel task ref s) : K value).
Proof.
  apply does_world; intros w.
  - apply flags_resolve.
  - intros Hw. split; [by apply rt_inv_resolve|by apply advances_resolve].
Qed.

Lemma does_is_singleton ref : does [] (is_singleton graph ref : K bool).
Proof. apply does_bind; [apply does_lift|]. intros p. apply does_ret. Qed.

Lemma does_start_singleton ref : does [] (start_singleton graph ref : K unit).
Proof.
  apply does_bind; [apply does_is_singleton|]. intros b. destruct b; [|apply does_ret].
  apply does_bind; [apply does_resolve|]. intros _. apply does_ret.
Qed.

Definition singleton_plan (ref : ProviderRef) (p : ProviderPlan) : Prop :=
  dict_get (providers graph) ref = Some p ∧ pp_scope p = SINGLETON.

Lemma start_singleton_plan ref k k' :
  start_singleton graph ref k = (Ok tt, k') → is_Some (dict_get (providers graph) ref).
Proof.
  unfold start_singleton, is_singleton, get_plan. destruct (dict_get (providers graph) ref); [by eexists|].
  by autorewrite with mrun.
Qed.

Lemma start_singleton_ok ref p k k' :
  singleton_plan ref p → start_singleton graph ref k = (Ok tt, k') →
  is_Some (cache (app_scope (k_world k')) !! pp_canonical p).
Proof.
  intros [Hp Hs]. unfold start_singleton, is_singleton, get_plan. rewrite Hp. autorewrite with mrun.
  rewrite bool_decide_true by done. unfold on_world, zoom, mbind, M_bind.
  destruct (resolve_ref graph factory intrinsic _ 0 ref None (k_world k)) as [[v|e] w] eqn:Hr; [|done].
  intros [= <-]. simpl.
  destruct (resolve_ref_cases graph factory intrinsic (depth graph) 0 ref None (k_world k)) as [[e He]|(_ & _ & He)];
    rewrite Hr in He; [done|]. exists v. by eapply (resolve_singleton graph factory intrinsic).
Qed.

Lemma does_singletons l : does [] (mfor (start_singleton graph) l : K unit).
Proof. apply does_for. apply does_start_singleton. Qed.

(** The participants among the singletons: those that are not [None]. *)
Definition is_participant (w : world A) (ref : ProviderRef) (v : value) : Prop :=
  (∃ p, singleton_plan ref p) ∧ cache (app_scope w) !! ref = Some v ∧ v ≠ Object PyNone.

(** [vs] are the objects of [refs], which are, in the order of [l], the
    singletons but those whose object is [None]. *)
Definition participants (w : world A) (l refs : list ProviderRef) (vs : list value) : Prop :=
  refs `sublist_of` l ∧ Forall2 (is_participant w) refs vs ∧
  ∀ ref p, ref ∈ l → singleton_plan ref p → pp_canonical p = ref →
    ref ∈ refs ∨ cache (app_scope w) !! ref = Some (Object PyNone).

Lemma is_participant_later w w' ref v : advances w w' → is_participant w ref v → is_participant w' ref v.
Proof. intros [Hc _] (Hp & Hv & Hne). split_and!; [done| |done]. by eapply lookup_weaken. Qed.

(** One singleton: skipped, or initialized like a module. *)
Lemma init_singleton_cases ref k :
  (∃ e, init_singleton graph ref k = (Err e, k)) ∧ dict_get (providers graph) ref = None ∨
  init_singleton graph ref k = (Ok tt, k) ∧
    (∀ p v, singleton_plan ref p → cache (app_scope (k_world k)) !! ref = Some v → v = Object PyNone) ∨
  ∃ v, is_participant (k_world k) ref v ∧ init_singleton graph ref k = init_participant graph v k.
Proof.
  unfold init_singleton, is_singleton, get_plan.
  destruct (dict_get (providers graph) ref) as [p|] eqn:Hp; [|left; split; [by exists KeyError|done]].
  autorewrite with mrun. destruct (bool_decide _) eqn:Hs; last first.
  { right; left. split; [done|]. intros p' v [Hp' Hs']. apply bool_decide_eq_false in Hs. congruence. }
  apply bool_decide_eq_true in Hs.
  destruct (cache (app_scope (k_world k)) !! ref) as [v|] eqn:Hv; [|by right; left].
  assert (v = Object PyNone ∨ v ≠ Object PyNone) as [->|Hne] by (destruct v as [[]| | |]; auto);
    [right; left; split; [done|]; congruence|].
  right; right. exists v. split; [split_and!; [by exists p|done..]|]. destruct v as [[]| | |]; done.
Qed.

Lemma participants_later w w' l refs vs :
  advances w w' → participants w l refs vs → participants w' l refs vs.
Proof.
  intros Ha (H1 & H2 & H3). split_and!; [done| |].
  - eapply Forall2_impl; [exact H2|]. intros. by eapply is_participant_later.
  - intros ref p Hin Hp Hc. destruct (H3 ref p Hin Hp Hc) as [Hr|Hv]; [by left|right].
    eapply lookup_weaken; [exact Hv|apply Ha].
Qed.

Lemma participants_nil w : participants w [] [] [].
Proof. split_and!; [done..|]. by intros ??[]%elem_of_nil. Qed.

Lemma participants_cons w x l v refs vs :
  is_participant w x v → participants w l refs vs → participants w (x :: l) (x :: refs) (v :: vs).
Proof.
  intros Hv (H1 & H2 & H3). split_and!; [by apply sublist_skip|by constructor|].
  intros ref p Hin Hp Hc. apply elem_of_cons in Hin as [->|Hin]; [left; set_solver|].
  destruct (H3 ref p Hin Hp Hc); [left; set_solver|by right].
Qed.

Lemma participants_skip w x l refs vs :
  (∀ p, singleton_plan x p → pp_canonical p = x → cache (app_scope w) !! x = Some (Object PyNone)) →
  participants w l refs vs → participants w (x :: l) refs vs.
Proof.
  intros Hx (H1 & H2 & H3). split_and!; [by apply sublist_cons|done|].
  intros ref p Hin Hp Hc. apply elem_of_cons in Hin as [->|Hin]; [right; by eapply Hx|by eapply H3].
Qed.

Definition all_cached (w : world A) (l : list ProviderRef) : Prop :=
  ∀ ref, ref ∈ l → ∃ p, dict_get (providers graph) ref = Some p ∧
    (pp_scope p = SINGLETON → is_Some (cache (app_scope w) !! pp_canonical p)).

Lemma all_cached_later w w' l : advances w w' → all_cached w l → all_cached w' l.
Proof.
  intros [Hc _] Hall ref Hin. destruct (Hall ref Hin) as (p & Hp & Hs). exists p. split; [done|]. intros Hsc.
  destruct (Hs Hsc) as [v Hv]. exists v. by eapply lookup_weaken.
Qed.

Lemma start_singletons_cached l k k' :
  rt_inv (k_world k) → mfor (start_singleton graph) l k = (Ok tt, k') → all_cached (k_world k') l.
Proof.
  revert k. induction l as [|x l IH]; intros k Hw Hrun ref Hin; [by apply elem_of_nil in Hin|].
  cbn [mfor] in Hrun. apply M_bind_ok in Hrun as ([] & k1 & R1 & R2).
  pose proof (does_start_singleton x k) as F1. rewrite R1 in F1. destruct (fo_inv _ _ _ F1 Hw) as [Hw1 _].
  apply elem_of_cons in Hin as [->|Hin]; [|by eapply IH].
  destruct (start_singleton_plan x k k1 R1) as [p Hp]. exists p. split; [done|]. intros Hs.
  destruct (start_singleton_ok x p k k1 (conj Hp Hs) R1) as [v Hv].
  pose proof (does_singletons l k1) as F2. rewrite R2 in F2. destruct (fo_inv _ _ _ F2 Hw1) as [_ [Hc _]].
  exists v. by eapply lookup_weaken.
Qed.

(** The loop over the singletons, all of which are built, gets through them or
    stops at the one whose hook raised. *)
Lemma init_singletons l k :
  rt_inv (k_world k) → all_cached (k_world k) l →
  let '(r, k') := mfor (init_singleton graph) l k in
  match r with
  | Ok _ => ∃ refs vs, advance (hooks on_module_init vs) vs [] k k' ∧
      Forall (hook_returned on_module_init) vs ∧ participants (k_world k') l refs vs
  | Err e => ∃ l1 refs vs v, l1 `prefix_of` l ∧ advance (hooks on_module_init (vs ++ [v])) vs [] k k' ∧
      Forall (hook_returned on_module_init) vs ∧ hook_raised on_module_init v e ∧
      participants (k_world k') l1 refs (vs ++ [v])
  end.
Proof.
  revert k. induction l as [|x l IH]; intros k Hw Hall; cbn [mfor].
  { exists [], []. split_and!; [apply advance_refl|done|apply participants_nil]. }
  assert (all_cached (k_world k) l) as Hall' by (intros ref Hin; apply Hall; set_solver).
  destruct (Hall x ltac:(set_solver)) as (p & Hp & Hcached).
  unfold mbind, M_bind. destruct (init_singleton_cases x k) as [[_ Hno]|[[-> Hnone]|(v & Hv & ->)]]; [congruence| |].
  - assert (∀ k', rt_inv (k_world k) → advances (k_world k) (k_world k') → ∀ p, singleton_plan x p → pp_canonical p = x →
      cache (app_scope (k_world k')) !! x = Some (Object PyNone)) as Hskip.
    { intros k' _ [Hc _] p' Hp' Hcan. pose proof Hp' as [Hp'1 Hp'2].
      assert (p' = p) as -> by congruence. destruct (Hcached Hp'2) as [u Hu].
      rewrite Hcan in Hu. rewrite (Hnone p u Hp' Hu) in Hu. by eapply lookup_weaken. }
    specialize (IH k Hw Hall'). destruct (mfor _ l k) as [[[]|e] k'].
    + destruct IH as (refs & vs & Ha & Hr & Hpart). exists refs, vs. split_and!; [done|done|].
      apply participants_skip; [|done]. apply Hskip; [done|]. by apply (ad_inv _ _ _ _ _ Ha).
    + destruct IH as (l1 & refs & vs & v & Hl1 & Ha & Hr & He & Hpart). exists (x :: l1), refs, vs, v.
      split_and!; [by apply prefix_cons|done|done|done|]. apply participants_skip; [|done]. apply Hskip; [done|].
      by apply (ad_inv _ _ _ _ _ Ha).
  - pose proof (stage_init v k) as Hst. destruct (init_participant graph v k) as [[[]|e] k1]; destruct Hst as [Ho Hst];
      destruct (ad_inv _ _ _ _ _ Hst Hw) as [Hw1 Ha1]; simpl in Ho.
    2: { exists [x], [x], [], v. split_and!; [by apply prefix_cons, prefix_nil| |done|done|].
         - simpl. by rewrite hooks_one.
         - apply participants_cons; [by eapply is_participant_later|apply participants_nil]. }
    specialize (IH k1 Hw1 (all_cached_later _ _ _ Ha1 Hall')). destruct (mfor _ l k1) as [[[]|e] k'].
    + destruct IH as (refs & vs & Ha & Hr & Hpart). exists (x :: refs), (v :: vs).
      split_and!; [by apply (advance_trans _ [v] [] _ vs [] _ _ _ Hst Ha)|by constructor|].
      apply participants_cons; [|done]. eapply is_participant_later; [|exact Hv].
      eapply advances_trans; [exact Ha1|]. by apply (ad_inv _ _ _ _ _ Ha).
    + destruct IH as (l1 & refs & vs & u & Hl1 & Ha & Hr & He & Hpart). exists (x :: l1), (x :: refs), (v :: vs), u.
      split_and!; [by apply prefix_cons|by apply (advance_trans _ [v] [] _ vs [] _ _ _ Hst Ha)|by constructor|done|].
      apply participants_cons; [|done]. eapply is_participant_later; [|exact Hv].
      eapply advances_trans; [exact Ha1|]. by apply (ad_inv _ _ _ _ _ Ha).
Qed.

(** ** The start *)

(** A start that is under way: the modules it built, the participants whose
    init hook and whose bootstrap hook have returned, whether binding the driver
    was attempted, and what was started. *)
Record starting (modules inits boots : list value) (bound : bool) (ops : list operation) k : Prop := {
  sg_state : k_state k = STARTING;
  sg_task : _shutdown_task k = None;
  sg_inv : rt_inv (k_world k);
  sg_request : _request_admission_open (admission (k_world k)) = false;
  sg_closed : container_closed (k_world k) = false;
  sg_modules : _modules k = modules;
  sg_inits : _module_initialized k = inits;
  sg_boots : _bootstrapped k = boots;
  sg_bound : _binding_attempted k = bound;
  sg_operations : operations k = ops
}.

Lemma starting_advance ms i1 b1 bound o1 ops inits boots k k' :
  starting ms i1 b1 bound o1 k → advance ops inits boots k k' →
  starting ms (i1 ++ inits) (b1 ++ boots) bound (o1 ++ ops) k'.
Proof.
  intros [S T I R C M N B A' O] [[= V1 V2 V3 V4] N' B' O' [= F1 F2 F3] Iv]. destruct (Iv I) as [Hw _].
  constructor; congruence.
Qed.

(** The statements before the first hook. *)
Abbreviation building ms := (starting ms [] [] false []).

Lemma building_does {B} ms (m : K B) : does [] m → pres (building ms) m.
Proof. intros Hm k Hk. exact (starting_advance _ _ _ _ _ _ _ _ _ _ Hk (follows_advance _ _ _ (Hm k))). Qed.

Lemma building_new a : building [] (with_k_state STARTING (ApplicationKernel_new a)).
Proof. constructor; try done. apply rt_inv_new. Qed.

Lemma building_modules ms l k : building ms k → building l (with_modules l k).
Proof. intros []. by constructor. Qed.

Lemma does_build plans : does [] (build_modules plans : K _).
Proof.
  induction plans as [|p plans IH]; simpl; [apply does_ret|]. apply does_bind; [apply does_in_app|]. intros v.
  apply does_bind; [done|]. intros vs. apply does_ret.
Qed.

Lemma does_validate v : does [] (validate graph v : K unit).
Proof. unfold validate. case_match; [apply does_in_app|apply does_ret]. Qed.

(** All participants: the modules and then the objects of the singletons. *)
Definition all_participants (w : world A) (modules ps : list value) : Prop :=
  ∃ refs vs, ps = modules ++ vs ∧ participants w (provider_order graph) refs vs.

(** The first of them, in order. *)
Definition first_participants (w : world A) (modules ps : list value) : Prop :=
  ps `prefix_of` modules ∨
  ∃ l refs vs, l `prefix_of` provider_order graph ∧ ps = modules ++ vs ∧ participants w l refs vs.

(** How a start comes to raise [e], by how far it got: [inits] are the
    participants whose init hook has returned, [boots] those whose bootstrap
    hook has, [bound] whether the driver's binding was attempted, and the
    operations are all that were started. *)
Inductive start_raised (modules : list value) (w : world A) (e : rt_error)
    : list value → list value → bool → list operation → Prop :=
| raised_building : start_raised modules w e [] [] false []
| raised_init inits v :
    first_participants w modules (inits ++ [v]) →
    Forall (hook_returned on_module_init) inits → hook_raised on_module_init v e →
    start_raised modules w e inits [] false (hooks on_module_init (inits ++ [v]))
| raised_binding inits :
    all_participants w modules inits → Forall (hook_returned on_module_init) inits →
    (∃ a a', run_operation Bind a = (Err e, a')) →
    start_raised modules w e inits [] true (hooks on_module_init inits ++ [Bind])
| raised_bootstrap inits boots v :
    all_participants w modules inits → boots ++ [v] `prefix_of` inits →
    Forall (hook_returned on_module_init) inits → Forall (hook_returned on_application_bootstrap) boots →
    hook_raised on_application_bootstrap v e →
    start_raised modules w e inits boots true
      (hooks on_module_init inits ++ [Bind] ++ hooks on_application_bootstrap (boots ++ [v])).

Lemma start_raised_later ms w w' e inits boots bound ops :
  advances w w' → start_raised ms w e inits boots bound ops → start_raised ms w' e inits boots bound ops.
Proof.
  intros Ha. assert (∀ ps, all_participants w ms ps → all_participants w' ms ps) as Hall.
  { intros ps (refs & vs & Hps & Hp). exists refs, vs. split; [done|]. by eapply participants_later. }
  destruct 1 as [|inits v Hf|inits Hf|inits boots v Hf]; constructor; auto.
  destruct Hf as [Hf|(l & refs & vs & Hl & Hps & Hp)]; [by left|right]. exists l, refs, vs.
  split_and!; [done|done|]. by eapply participants_later.
Qed.

(** A start that failed, in the middle of its steps. *)
Definition start_stopped e k : Prop :=
  ∃ ms inits boots bound ops, starting ms inits boots bound ops k ∧
    start_raised ms (k_world k) e inits boots bound ops.

(** A statement of the part before the first hook. *)
Lemma build_bind {B C} ms (m : K B) (f : B → K C) k e k' :
  building ms k → does [] m → (∀ b k1, building ms k1 → m k = (Ok b, k1) → f b k1 = (Err e, k') → start_stopped e k') →
  (m ≫= f) k = (Err e, k') → start_stopped e k'.
Proof.
  intros Hk Hm Hf Hrun. pose proof (building_does ms m Hm k Hk) as Hk1.
  apply M_bind_err in Hrun as [Hrun|(b & k1 & Hrun & Hrun')]; rewrite Hrun in Hk1; [|by eapply Hf].
  exists ms, [], [], false, []. split; [done|constructor].
Qed.

(** The second half of the steps of [start]: the driver and the bootstrap hooks. *)
Definition start_second_half : K unit :=
  modify attempt_binding;;
  _await_bounded graph Bind None None;;
  open_work true;;
  k ← get;
  mfor (bootstrap graph) (_module_initialized k);;
  open_requests true;;
  modify (with_k_state STARTED).

Lemma second_half_raises ms inits k e k' :
  starting ms inits [] false (hooks on_module_init inits) k → all_participants (k_world k) ms inits →
  Forall (hook_returned on_module_init) inits → start_second_half k = (Err e, k') → start_stopped e k'.
Proof.
  intros Hk Hall Hret. unfold start_second_half. rewrite run_bind_modify.
  assert (starting ms inits [] true (hooks on_module_init inits) (attempt_binding k)) as H1 by (destruct Hk; by constructor).
  set (k1 := attempt_binding k) in *. pose proof (does_await graph Bind None None k1) as F1.
  pose proof (await_outcome Bind k1) as Ho. pose proof (fo_inv _ _ _ F1 (sg_inv _ _ _ _ _ _ H1)) as [_ A1].
  pose proof (starting_advance _ _ _ _ _ _ _ _ _ _ H1 (follows_advance _ _ _ F1)) as H2. rewrite app_nil_r in H2.
  assert (∀ w, advances (k_world k) w → all_participants w ms inits) as Hlater.
  { intros w Ha. destruct Hall as (refs & vs & Hi & Hp). exists refs, vs. split; [done|]. by eapply participants_later. }
  intros [Hrun|([] & k2 & Hrun & Hrun2)]%M_bind_err; rewrite Hrun in F1, Ho, A1, H2; simpl in *.
  { exists ms, inits, [], true, (hooks on_module_init inits ++ [Bind]). split; [done|]. constructor; auto. }
  destruct (open_work_run true k2) as (k3 & R3 & [= V1 V2 V3 V4 V5 V6] & O3 & [= G1 G2 G3] & I3).
  rewrite (M_bind_run _ _ _ _ _ R3), run_bind_get in Hrun2. destruct (I3 (sg_inv _ _ _ _ _ _ H2)) as [Hw3 A3].
  assert (starting ms inits [] true (hooks on_module_init inits ++ [Bind]) k3) as H3
    by (destruct H2; constructor; congruence).
  pose proof (bootstraps (_module_initialized k3) k3) as Hb. apply M_bind_err in Hrun2 as [Hrun2|(u & k4 & _ & Hrun2)];
    [|done].
  rewrite Hrun2 in Hb. destruct Hb as (l1 & v & Hp & Hr & He & Ha).
  pose proof (starting_advance _ _ _ _ _ _ _ _ _ _ H3 Ha) as H4. rewrite app_nil_r, <- app_assoc in H4.
  destruct (ad_inv _ _ _ _ _ Ha Hw3) as [_ A4]. do 5 eexists. split; [exact H4|].
  apply raised_bootstrap; try done; [|by rewrite (sg_inits _ _ _ _ _ _ H3) in Hp].
  apply Hlater. eapply advances_trans; [exact A1|]. by eapply advances_trans.
Qed.

(** The steps from the first hook on. *)
Lemma hooks_raise ms k e k' :
  building ms k → all_cached (k_world k) (provider_order graph) →
  (mfor (init_participant graph) ms;; mfor (init_singleton graph) (provider_order graph);; start_second_half) k
    = (Err e, k') → start_stopped e k'.
Proof.
  intros Hk Hall Hrun. pose proof (init_modules ms k) as Hm.
  apply M_bind_err in Hrun as [Hrun|([] & k1 & Hrun & Hrun1)]; rewrite Hrun in Hm.
  { destruct Hm as (l1 & v & Hp & Hr & He & Ha). pose proof (starting_advance _ _ _ _ _ _ _ _ _ _ Hk Ha) as H1.
    do 5 eexists. split; [exact H1|]. constructor; [by left|done|done]. }
  destruct Hm as [Hr Ha]. pose proof (starting_advance _ _ _ _ _ _ _ _ _ _ Hk Ha) as H1. simpl in H1.
  destruct (ad_inv _ _ _ _ _ Ha (sg_inv _ _ _ _ _ _ Hk)) as [Hw1 A1].
  pose proof (init_singletons (provider_order graph) k1 Hw1 (all_cached_later _ _ _ A1 Hall)) as Hs.
  apply M_bind_err in Hrun1 as [Hrun1|([] & k2 & Hrun1 & Hrun2)]; rewrite Hrun1 in Hs.
  { destruct Hs as (l1 & refs & vs & v & Hl & Ha' & Hr' & He & Hp).
    pose proof (starting_advance _ _ _ _ _ _ _ _ _ _ H1 Ha') as H2. rewrite <- hooks_app, app_assoc in H2.
    do 5 eexists. split; [exact H2|]. constructor; [|by apply Forall_app|done]. right.
    exists l1, refs, (vs ++ [v]). by rewrite <- app_assoc. }
  destruct Hs as (refs & vs & Ha' & Hr' & Hp). pose proof (starting_advance _ _ _ _ _ _ _ _ _ _ H1 Ha') as H2.
  rewrite <- hooks_app in H2. eapply second_half_raises; [exact H2|by exists refs, vs|by apply Forall_app|done].
Qed.

Lemma start_steps_fail a e k' :
  start_steps graph (with_k_state STARTING (ApplicationKernel_new a)) = (Err e, k') → start_stopped e k'.
Proof.
  unfold start_steps. apply (build_bind []); [apply building_new|apply does_build|]. intros ms k1 H1 _.
  rewrite run_bind_modify. apply (building_modules _ ms) in H1.
  apply (build_bind ms); [done|apply does_for, does_validate|]. intros [] k2 H2 _.
  apply (build_bind ms); [done|apply does_singletons|]. intros [] k3 H3 R3.
  apply hooks_raise; [done|]. eapply start_singletons_cached; [apply (sg_inv _ _ _ _ _ _ H2)|exact R3].
Qed.

(** A failed start raises what its steps raised, and leaves an application that
    has come to its end. *)
Lemma start_fail a e k :
  start graph options (ApplicationKernel_new a) = (Err e, k) →
  ∃ l k0, start_stopped e k0 ∧ halted FAILED l k0 k ∧ (cooperative → l = false).
Proof.
  unfold start. autorewrite with mrun. rewrite bool_decide_eq_false_2 by naive_solver. autorewrite with mrun.
  unfold try_except. destruct (start_steps graph _) as [[u|e'] k0] eqn:Hrun; [done|].
  destruct (rollback_kernel graph options k0) as (l & k' & Hr & Hh & Hl).
  rewrite (M_bind_run _ _ _ _ _ Hr). intros [= <- <-]. exists l, k0. split_and!; try done.
  by eapply start_steps_fail.
Qed.

(** ** A successful start *)

Record started k : Prop := {
  sd_state : k_state k = STARTED;
  sd_task : _shutdown_task k = None;
  sd_inv : rt_inv (k_world k);
  sd_flags : flags (k_world k) = (true, true, false);
  sd_binding : _binding_attempted k = true;
  (** every participant was initialized and then bootstrapped *)
  sd_bootstrapped : _bootstrapped k = _module_initialized k;
  (** the modules, then the singletons in construction order *)
  sd_participants : ∃ refs vs, _module_initialized k = _modules k ++ vs ∧
    participants (k_world k) (provider_order graph) refs vs;
  sd_operations : operations k = hooks on_module_init (_module_initialized k) ++ [Bind] ++
    hooks on_application_bootstrap (_module_initialized k);
  sd_cached ref p : ref ∈ provider_order graph → singleton_plan ref p →
    is_Some (cache (app_scope (k_world k)) !! pp_canonical p)
}.

Lemma does_run {B} ops (m : K B) k b k' : does ops m → m k = (Ok b, k') → follows ops k k'.
Proof. intros Hm Hrun. specialize (Hm k). by rewrite Hrun in Hm. Qed.

Lemma init_modules_run l k k' :
  mfor (init_participant graph) l k = (Ok tt, k') → advance (hooks on_module_init l) l [] k k'.
Proof. intros Hrun. pose proof (init_modules l k) as Hs. rewrite Hrun in Hs. apply Hs. Qed.

Lemma bootstraps_run l k k' :
  mfor (bootstrap graph) l k = (Ok tt, k') → advance (hooks on_application_bootstrap l) [] l k k'.
Proof. intros Hrun. pose proof (bootstraps l k) as Hs. rewrite Hrun in Hs. apply Hs. Qed.

(** The first half: the modules and singletons, constructed and initialized. *)
Lemma start_first_half k ms k1 k4 k5 k6 :
  rt_inv (k_world k) → build_modules (shape_modules (shape graph)) k = (Ok ms, k1) →
  (mfor (validate graph) ms;; mfor (start_singleton graph) (provider_order graph)) (with_modules ms k1) = (Ok tt, k4) →
  mfor (init_participant graph) ms k4 = (Ok tt, k5) →
  mfor (init_singleton graph) (provider_order graph) k5 = (Ok tt, k6) →
  ∃ refs vs, participants (k_world k6) (provider_order graph) refs vs ∧
    advance (hooks on_module_init (ms ++ vs)) (ms ++ vs) [] (with_modules ms k) k6 ∧
    ∀ ref p, ref ∈ provider_order graph → singleton_plan ref p →
      is_Some (cache (app_scope (k_world k6)) !! pp_canonical p).
Proof.
  intros Hw R1 R4 R5 R6. apply M_bind_ok in R4 as ([] & k3 & R3 & R4).
  pose proof (does_run _ _ _ _ _ (does_build _) R1) as [V1 O1 F1 I1]. destruct (I1 Hw) as [Hw1 A1].
  pose proof (does_run _ _ _ _ _ (does_for _ _ does_validate) R3) as F3. destruct (fo_inv _ _ _ F3 Hw1) as [Hw3 A3].
  pose proof (does_run _ _ _ _ _ (does_singletons _) R4) as F4. destruct (fo_inv _ _ _ F4 Hw3) as [Hw4 A4].
  pose proof (start_singletons_cached _ _ _ Hw3 R4) as Hall4.
  pose proof (init_modules_run _ _ _ R5) as F5. destruct (ad_inv _ _ _ _ _ F5 Hw4) as [Hw5 A5].
  pose proof (init_singletons (provider_order graph) k5 Hw5 (all_cached_later _ _ _ A5 Hall4)) as F6.
  rewrite R6 in F6. destruct F6 as (refs & vs & F6 & _ & Hp). exists refs, vs. split_and!; [done| |].
  - assert (follows [] (with_modules ms k) (with_modules ms k1)) as F0.
    { constructor; [unfold kview in *; simpl; congruence|done..]. }
    pose proof (follows_advance _ _ _ (follows_trans _ _ _ _ _ F0 (follows_trans _ _ _ _ _ F3 F4))) as F04.
    pose proof (advance_trans _ _ _ _ _ _ _ _ _ F04 (advance_trans _ _ _ _ _ _ _ _ _ F5 F6)) as Ha.
    by rewrite hooks_app.
  - intros ref p Hin [Hpl Hs]. destruct (ad_inv _ _ _ _ _ F6 Hw5) as [_ A6].
    destruct (all_cached_later _ _ _ (advances_trans _ _ _ A5 A6) Hall4 ref Hin) as (p' & Hp' & Hc).
    assert (p' = p) as -> by congruence. auto.
Qed.

Lemma start_steps_ok a k :
  start_steps graph (with_k_state STARTING (ApplicationKernel_new a)) = (Ok tt, k) → started k.
Proof.
  set (k0 := with_k_state STARTING _). unfold start_steps. intros (ms & k1 & R1 & Hrun)%M_bind_ok.
  rewrite run_bind_modify in Hrun. apply M_bind_ok in Hrun as ([] & k3 & R3 & Hrun).
  apply M_bind_ok in Hrun as ([] & k4 & R4 & Hrun). apply M_bind_ok in Hrun as ([] & k5 & R5 & Hrun).
  apply M_bind_ok in Hrun as ([] & k6 & R6 & Hrun).
  destruct (start_first_half k0 ms k1 k4 k5 k6 (rt_inv_new a) R1) as (refs & vs & Hp & Ha & Hall); [|done..|].
  { by rewrite (M_bind_run _ _ _ _ _ R3). }
  rewrite run_bind_modify in Hrun. apply M_bind_ok in Hrun as ([] & k8 & R8 & Hrun).
  apply M_bind_ok in Hrun as ([] & k9 & R9 & Hrun). rewrite run_bind_get in Hrun.
  apply M_bind_ok in Hrun as ([] & k10 & R10 & Hrun). apply M_bind_ok in Hrun as ([] & k11 & R11 & [= <-]).
  destruct Ha as [[= V1 V2 V3 V4] N B O [= F1 F2 F3] I]. destruct (I (rt_inv_new a)) as [Hw6 _].
  pose proof (does_run _ _ _ _ _ (does_await _ _ _ _) R8) as [[= V5 V6 V7 V8 V9 V10] O8 [= F4 F5 F6] I8].
  destruct (I8 Hw6) as [Hw8 A8].
  destruct (open_work_run true k8) as (k9' & R9' & [= V11 V12 V13 V14 V15 V16] & O9 & [= F7 F8 F9] & I9).
  rewrite R9 in R9'. injection R9' as <-. destruct (I9 Hw8) as [Hw9 A9].
  pose proof (bootstraps_run _ _ _ R10) as [[= V17 V18 V19 V20] N10 B10 O10 [= F10 F11 F12] I10].
  destruct (I10 Hw9) as [Hw10 A10].
  destruct (open_requests_run true k10) as (k11' & R11' & [= V21 V22 V23 V24 V25 V26] & O11 & [= F13 F14 F15] & I11).
  rewrite R11 in R11'. injection R11' as <-. destruct (I11 Hw10) as [Hw11 A11].
  pose proof (advances_trans _ _ _ (advances_trans _ _ _ A8 A9) (advances_trans _ _ _ A10 A11)) as Hadv.
  simpl in *. rewrite app_nil_r in N10.
  assert (_module_initialized k11 = ms ++ vs) as Hi by congruence.
  constructor; simpl; try congruence.
  - unfold flags. congruence.
  - rewrite V24, B10, V14, V8, B, V23. simpl. congruence.
  - exists refs, vs. split; [congruence|]. by eapply participants_later.
  - rewrite O11, O10, O9, O8, O, Hi, <- app_assoc. do 3 f_equal. congruence.
  - intros ref p Hin Hpl. destruct (Hall ref p Hin Hpl) as [v Hv]. exists v. eapply lookup_weaken; [exact Hv|apply Hadv].
Qed.

Lemma start_ok a k : start graph options (ApplicationKernel_new a) = (Ok tt, k) → started k.
Proof.
  unfold start. autorewrite with mrun. rewrite bool_decide_eq_false_2 by naive_solver. autorewrite with mrun.
  unfold try_except. destruct (start_steps graph _) as [[[]|e'] k0] eqn:Hrun; last first.
  { destruct (rollback_kernel graph options k0) as (l & k' & Hr & _). by rewrite (M_bind_run _ _ _ _ _ Hr). }
  intros [= <-]. by eapply start_steps_ok.
Qed.

(** ** Errors *)

Lemma kernel_capable : capable factory intrinsic.
Proof.
  split; [eexists; split; [done|]; by eexists|]. eexists. split; [done|]. intros t Ht Hne. unfold _intrinsic_provider.
  rewrite bool_decide_true; [by eexists|]. simpl in *. set_solver.
Qed.

Section errors.
Context (rank : ProviderRef → nat) `{!Runnable graph rank}.
Context (P : rt_error → Prop) (Happ : app_raises (A := A) P).

(** The errors of validators and hooks. *)
Definition lifecycle_raises : Prop :=
  (∀ v a e a', validate_graph v graph a = (Err e, a') → P e) ∧
  (∀ o a e a', run_operation o a = (Err e, a') → P e) ∧
  ∀ v name, name = on_module_init ∨ name = on_application_bootstrap →
    hook_of v name = NoHook ∨ hook_of v name = AsyncHook 0 ∨ P LifecycleError.
Context (Hlife : lifecycle_raises).

(** The container is open. *)
Definition running k : Prop := rt_inv (k_world k) ∧ container_closed (k_world k) = false.

Definition kraises {B} (m : K B) : Prop := ∀ k e k', running k → m k = (Err e, k') → P e.

Lemma running_does {B} ops (m : K B) : does ops m → pres running m.
Proof. intros Hm k [Hw Hc]. destruct (Hm k) as [_ _ [= _ _ Hf] I]. destruct (I Hw). split; [done|congruence]. Qed.

Lemma running_modify f : (∀ k, k_world (f k) = k_world k) → pres running (modify f : K unit).
Proof. intros Hf k. unfold running. simpl. by rewrite Hf. Qed.

Lemma running_open_work b : pres running (open_work b : K unit).
Proof.
  intros k [Hw Hc]. destruct (open_work_run b k) as (k' & -> & _ & _ & [= _ _ F] & I). destruct (I Hw).
  split; [done|]. simpl. congruence.
Qed.

Lemma kraises_bind {B C} (m : K B) (f : B → K C) :
  pres running m → kraises m → (∀ b, kraises (f b)) → kraises (m ≫= f).
Proof.
  intros Hp Hm Hf k e k' Hk Hrun. specialize (Hp k Hk).
  apply M_bind_err in Hrun as [Hrun|(b & k1 & Hrun & Hrun')]; [by eapply Hm|].
  eapply Hf; [|exact Hrun']. by rewrite Hrun in Hp.
Qed.

Lemma kraises_total {B} (m : K B) : total m → kraises m.
Proof. intros Hm k e k' _ Hrun. destruct (Hm k) as [b Hb]. by rewrite Hrun in Hb. Qed.

Lemma kraises_for {B} (f : B → K unit) l :
  (∀ b, b ∈ l → pres running (f b) ∧ kraises (f b)) → pres running (mfor f l) ∧ kraises (mfor f l).
Proof.
  induction l as [|b l IH]; intros Hf; simpl; [split; [by intros ?|by apply kraises_total, total_ret]|].
  destruct (Hf b ltac:(set_solver)) as [H1 H2]. destruct IH as [H3 H4]; [set_solver|].
  split; [by apply pres_bind|by apply kraises_bind].
Qed.

Lemma kraises_app {B} (m : M A rt_error B) : (∀ a e a', m a = (Err e, a') → P e) → kraises (in_app m).
Proof.
  intros Hm k e k' _. unfold in_app, on_world, app, zoom.
  destruct (m (env (k_world k))) as [r a] eqn:Hr. intros [= -> _]. by eapply Hm.
Qed.

Lemma kraises_await o : kraises (_await_bounded graph o None None).
Proof.
  unfold _await_bounded. apply kraises_bind; [by apply running_modify|by apply kraises_total; eexists|]. intros _.
  intros k e k' _. unfold in_app, on_world at 1, app, zoom, mbind, M_bind.
  destruct (run_operation o (env (k_world k))) as [r a] eqn:Hr. intros Hrun. simpl in Hrun. injection Hrun as -> _.
  by eapply (proj1 (proj2 Hlife)).
Qed.

Lemma kraises_hook v name :
  name = on_module_init ∨ name = on_application_bootstrap → kraises (_call_hook graph v name None).
Proof.
  intros Hn. unfold _call_hook. destruct (proj2 (proj2 Hlife) v name Hn) as [->|[->|HP]];
    [by apply kraises_total, total_ret|apply kraises_await|].
  destruct (hook_of v name); [by apply kraises_total, total_ret|by intros ? ? ? _ [= <- _]..|].
  case_match; [apply kraises_await|]. by intros ? ? ? _ [= <- _].
Qed.

Lemma running_usable k : running k → usable None (k_world k).
Proof.
  intros [Hw Hc]. split; [done|]. intros t [->| ->]; (eexists; split; [done|]);
    pose proof (ri_closed _ Hw) as Hs; by rewrite Hc in Hs.
Qed.

Lemma kraises_singleton ref : ref ∈ provider_order graph → kraises (start_singleton graph ref).
Proof.
  intros Hin k e k' Hk. apply run_order, dict_get_is_Some in Hin as [p Hp].
  unfold start_singleton, is_singleton, get_plan. rewrite Hp. autorewrite with mrun.
  destruct (bool_decide _) eqn:Hs; [|done]. apply bool_decide_eq_true in Hs.
  intros [Hrun|(v & k1 & _ & Hrun)]%M_bind_err; [|done]. unfold on_world, zoom in Hrun.
  destruct (resolve_ref graph factory intrinsic _ 0 ref None (k_world k)) as [r w] eqn:Hr.
  injection Hrun as -> _. unfold resolve_ref in Hr.
  rewrite (run_bind_get_state None _ _ (app_scope (k_world k))) in Hr by done.
  unfold check_access in Hr. destruct (ri_app _ (proj1 Hk)) as [_ Hlease]. rewrite Hlease in Hr.
  rewrite run_bind_lift in Hr. destruct (run_canonical ref p Hp) as (q & Hq & _).
  eapply (resolve_raises graph rank factory intrinsic P Happ kernel_capable _ ref None p Hp); [| |exact Hr].
  - unfold depth. pose proof (run_bounded _ _ Hq). lia.
  - split; [by apply running_usable|by eapply singleton_allowed].
Qed.
Lemma running_stage name v inits boots (m : K unit) : stage name v inits boots m → pres running m.
Proof.
  intros Hm k [Hw Hc]. specialize (Hm k). destruct (m k) as [[u|e] k'];
    destruct Hm as [_ [_ _ _ _ [= _ _ Hf] I]]; destruct (I Hw); (split; [done|simpl; congruence]).
Qed.

Lemma kraises_init v : pres running (init_participant graph v) ∧ kraises (init_participant graph v).
Proof.
  split; [eapply running_stage, stage_init|]. apply kraises_bind; [eapply running_does, does_call_hook| |].
  - apply kraises_hook. by left.
  - intros _. by apply kraises_total; eexists.
Qed.

Lemma kraises_bootstrap v : pres running (bootstrap graph v) ∧ kraises (bootstrap graph v).
Proof.
  split; [eapply running_stage, stage_bootstrap|]. apply kraises_bind; [eapply running_does, does_call_hook| |].
  - apply kraises_hook. by right.
  - intros _. by apply kraises_total; eexists.
Qed.

Lemma kraises_init_singleton ref :
  ref ∈ provider_order graph → pres running (init_singleton graph ref) ∧ kraises (init_singleton graph ref).
Proof.
  intros Hin. apply run_order, dict_get_is_Some in Hin as [p Hp].
  assert (∀ k, init_singleton graph ref k = (Ok tt, k) ∨ ∃ v, init_singleton graph ref k = init_participant graph v k)
    as Hcases.
  { intros k. destruct (init_singleton_cases ref k) as [[_ Hn]|[[He _]|(v & _ & He)]]; [congruence|eauto..]. }
  split.
  - intros k Hk. destruct (Hcases k) as [->|[v ->]]; [done|]. by apply kraises_init.
  - intros k e k' Hk. destruct (Hcases k) as [->|[v ->]]; [done|]. by apply kraises_init.
Qed.

Lemma kraises_build plans : kraises (build_modules plans).
Proof.
  induction plans as [|p plans IH]; simpl; [by apply kraises_total, total_ret|].
  apply kraises_bind; [eapply running_does, does_in_app|apply kraises_app; intros; by eapply (proj1 Happ)|]. intros v.
  apply kraises_bind; [eapply running_does, does_build|done|]. intros vs. by apply kraises_total, total_ret.
Qed.

Lemma kraises_validate v : kraises (validate graph v).
Proof.
  unfold validate. case_match; [apply kraises_app; intros; by eapply (proj1 Hlife)|by apply kraises_total, total_ret].
Qed.

Lemma start_steps_raises : kraises (start_steps graph).
Proof.
  unfold start_steps.
  assert (∀ f : kernel A → kernel A, kraises (modify f)) as Hmod by (intros f; apply kraises_total; by eexists).
  assert (∀ b, kraises (open_work b)) as Hwork by (intros b; apply kraises_total; by eexists).
  apply kraises_bind; [eapply running_does, does_build|apply kraises_build|]. intros ms.
  apply kraises_bind; [by apply running_modify|done|]. intros _.
  apply kraises_bind; [eapply running_does, does_for, does_validate| |intros _].
  { apply kraises_for. intros v _. split; [eapply running_does, does_validate|apply kraises_validate]. }
  apply kraises_bind; [eapply running_does, does_singletons| |intros _].
  { apply kraises_for. intros r Hr. split; [eapply running_does, does_start_singleton|by apply kraises_singleton]. }
  apply kraises_bind; [apply kraises_for; intros; apply kraises_init..|intros _].
  apply kraises_bind; [apply kraises_for; intros; by apply kraises_init_singleton..|intros _].
  apply kraises_bind; [by apply running_modify|done|]. intros _.
  apply kraises_bind; [eapply running_does, does_await|apply kraises_await|]. intros _.
  apply kraises_bind; [apply running_open_work|done|]. intros _.
  apply kraises_bind; [by intros ?|by apply kraises_total; eexists|]. intros k0.
  apply kraises_bind; [apply kraises_for; intros; apply kraises_bootstrap..|intros _].
  apply kraises_total. intros k. by eexists.
Qed.

(** Whatever starting an application raises, its own code raised. *)
Lemma start_raises a e k : start graph options (ApplicationKernel_new a) = (Err e, k) → P e.
Proof.
  unfold start. autorewrite with mrun. rewrite bool_decide_eq_false_2 by naive_solver. autorewrite with mrun.
  unfold try_except. destruct (start_steps graph _) as [[u|e'] k0] eqn:Hrun; [done|].
  destruct (rollback_kernel graph options k0) as (l & k' & Hr & _). rewrite (M_bind_run _ _ _ _ _ Hr).
  intros [= <- _]. eapply start_steps_raises; [|exact Hrun]. split; [apply rt_inv_new|done].
Qed.
End errors.

End start.
