(* ===== verification/RtProperties.v ===== *)
(** * The container and the kernel: properties

    Resources, scopes, start and shutdown of an application on a compiled
    graph. *)

From Stdlib Require Import ZArith Lia.
From stdpp Require Import base tactics list gmap strings.
From S2P Require Import Prelude DiDeclarations DiCompiler DiFinish DiProperties RtContainer RtContainerFacts RtScopes.
From S2P Require Import RtGraph RtResolution RtKernel RtKernelFacts RtShutdown RtStart.
Local Open Scope Z_scope.

Section container.
Context {A : Type} `{Application A}.
Context (graph : CompiledGraph).
Context (factory : option (ModuleId → result rt_error value)).
Context (intrinsic : option (Token → result rt_error value)).
Implicit Types w : world A.

Abbreviation rt_reachable := (rt_reachable graph factory intrinsic).
Abbreviation rt_run := (rt_run graph factory intrinsic).
Abbreviation resolve_ref := (resolve_ref graph factory intrinsic).
Abbreviation scope_resolve_ref := (scope_resolve_ref graph factory intrinsic).
Abbreviation construct := (_construct graph factory intrinsic).

(** C14: Resources are released in the reverse order of their acquisition, and
    none is forgotten. In every reachable state each scope, the application's
    own included, holds exactly the resources it entered and has not left, and
    each one it left was the most recent one it held; a scope that is closed,
    and a container that is closed, holds none. *)
Theorem resources_lifo w :
  rt_reachable w →
  (∀ t, stack t (trace w) (held w t)) ∧
  (∀ i r, scopes w !! i = Some r → _closed r = true → held w (Some i) = []) ∧
  (container_closed w = true → held w None = []).
Proof.
  intros Hw%reachable_inv. split_and!.
  - apply Hw.
  - intros i r Hr Hc. destruct (ri_scope _ Hw i r Hr) as (_ & (_ & Hok & _) & _). rewrite Hc in Hok.
    unfold held. simpl. rewrite Hr. simpl. by destruct (lease (rs_state r)) as [[]|].
  - intros Hc. pose proof (ri_closed _ Hw) as Hcl. by rewrite Hc in Hcl.
Qed.

(** C15: A resolution that fails leaves no trace in its scope: the scope caches
    what it cached before and holds the resources it held before, those entered
    on the way having been left again in reverse order. Other scopes are
    untouched. The application's scope keeps what it caches, and each new entry
    is under the canonical reference of a singleton provider and holds the object
    that a construction of that provider for the application returned: nothing of
    a request or transient, and nothing half built, is cached there. *)
Theorem resolution_failure_atomic w fuel task ref s e w' :
  rt_reachable w → resolve_ref fuel task ref s w = (Err e, w') →
  stack s (trace w') (held w s) ∧ held w' s = held w s ∧
  (cache <$> state_of w' s) = (cache <$> state_of w s) ∧
  (∀ t, t ≠ s → t ≠ None → state_of w' t = state_of w t) ∧
  cache (app_scope w) ⊆ cache (app_scope w') ∧
  ∀ r v, cache (app_scope w') !! r = Some v → cache (app_scope w) !! r = None →
    ∃ alias plan fuel' w1 w2,
      dict_get (providers graph) alias = Some plan ∧ pp_scope plan = SINGLETON ∧ pp_canonical plan = r ∧
      construct (RtContainer._resolve_ref graph factory intrinsic fuel') r (pp_recipe plan) None w1 = (Ok v, w2).
Proof.
  intros Hw%reachable_inv Hrun.
  assert (restored s w w') as [_ Hr].
  { destruct (resolve_ref_cases graph factory intrinsic fuel task ref s w) as [[e' He]|(_ & _ & He)]; rewrite Hrun in He.
    - injection He as _ ->. apply restored_refl.
    - pose proof (resolve_atomic graph factory intrinsic fuel ref s w) as Hat. by rewrite <- He in Hat. }
  assert (held w' s = held w s ∧ (cache <$> state_of w' s) = (cache <$> state_of w s)) as [Hh Hc].
  { specialize (Hr s). unfold held. destruct (state_of w s), (state_of w' s); try done.
    rewrite decide_True in Hr by done. destruct Hr as (_ & Hc & Hrec). simpl. by rewrite Hc, Hrec. }
  split_and!; [|done|done| | |].
  - rewrite <- Hh. pose proof (rt_inv_resolve graph factory intrinsic fuel task ref s w Hw) as Hw'.
    rewrite Hrun in Hw'. apply Hw'.
  - intros t Hts Ht. specialize (Hr t). destruct (state_of w t), (state_of w' t); try done.
    rewrite !decide_False in Hr by done. by rewrite Hr.
  - pose proof (advances_resolve graph factory intrinsic fuel task ref s w Hw) as [Ha _]. by rewrite Hrun in Ha.
  - intros r v Hv Hn. assert (adds graph factory intrinsic w w') as [_ Ha].
    { destruct (resolve_ref_cases graph factory intrinsic fuel task ref s w) as [[e' He]|(_ & _ & He)]; rewrite Hrun in He.
      - injection He as _ ->. split; auto.
      - pose proof (adding_resolve graph factory intrinsic fuel ref s w (proj1 (ri_app _ Hw))) as Ha. by rewrite <- He in Ha. }
    destruct (Ha r v Hv) as [|Hb]; [congruence|exact Hb].
Qed.

(** A singleton is one object. Once it was resolved, every later resolution
    of it, by whatever name, task and scope and whatever happened in between,
    gives the same object and builds nothing, as long as the container is open
    and the scope may be used. *)
Theorem singleton_shared w fuel task ref s p v w1 ops fuel' task' ref' s' p' x :
  rt_reachable w → dict_get (providers graph) ref = Some p → pp_scope p = SINGLETON →
  resolve_ref fuel task ref s w = (Ok v, w1) →
  dict_get (providers graph) ref' = Some p' → pp_scope p' = SINGLETON → pp_canonical p' = pp_canonical p →
  container_closed (rt_run ops w1) = false → state_of (rt_run ops w1) s' = Some x → check_access task' x = Ok tt →
  resolve_ref (S fuel') task' ref' s' (rt_run ops w1) = (Ok v, rt_run ops w1).
Proof.
  intros Hw%reachable_inv Hp Hs Hrun Hp' Hs' Hcan Hcl Hx Hacc.
  assert (cache (app_scope w1) !! pp_canonical p = Some v) as Hv.
  { destruct (resolve_ref_cases graph factory intrinsic fuel task ref s w) as [[e He]|(_ & _ & He)];
      rewrite Hrun in He; [done|].
    by eapply (resolve_singleton graph factory intrinsic). }
  pose proof (rt_inv_resolve graph factory intrinsic fuel task ref s w Hw) as Hw1. rewrite Hrun in Hw1.
  destruct (rt_run_inv graph factory intrinsic ops w1 Hw1) as [_ [Hc _]].
  pose proof (lookup_weaken _ _ _ _ Hv Hc) as Hv2.
  unfold RtContainer.resolve_ref. rewrite (run_bind_get_state _ _ _ _ Hx), run_bind_lift, Hacc. simpl.
  rewrite run_bind_gets, run_bind_throw, Hcl. unfold get_plan. rewrite Hp', run_bind_lift, Hs'. unfold _resolve_cached.
  rewrite (run_bind_get_state None _ _ (app_scope (rt_run ops w1))) by done. by rewrite Hcan, Hv2.
Qed.

(** A scope that is closed stays as it is, whatever happens next: nothing
    can be resolved in it, it cannot be entered again, and leaving it again does
    nothing. *)
Theorem closed_scope_final w i r ops :
  rt_reachable w → scopes w !! i = Some r → _closed r = true →
  scopes (rt_run ops w) !! i = Some r ∧
  (∀ fuel task ref, scope_resolve_ref fuel task i ref (rt_run ops w) = (Err ScopeError, rt_run ops w)) ∧
  (∀ task on_open, __aenter__ task on_open i (rt_run ops w) = (Err ScopeError, rt_run ops w)) ∧
  (∀ on_close exc, finalize_begin on_close i exc (rt_run ops w) = (Ok false, rt_run ops w)).
Proof.
  intros Hw%reachable_inv Hr Hc. destruct (rt_run_inv graph factory intrinsic ops w Hw) as [_ [_ Ha]].
  specialize (Ha i r Hr Hc). destruct (ri_scope _ Hw i r Hr) as (_ & (_ & _ & _ & _ & He) & _).
  specialize (He (or_introl Hc)). split_and!; [done| | |].
  - intros fuel task ref. unfold RtContainer.scope_resolve_ref. by rewrite run_bind_get_scope, Ha, He, Hc.
  - intros task on_open. unfold __aenter__. by rewrite run_bind_get_scope, Ha, He.
  - intros on_close exc. unfold finalize_begin. by rewrite run_bind_get_scope, Ha, Hc.
Qed.
End container.

Section kernel.
Context {A : Type} `{Application A, Lifecycle A}.
Context (options : ApplicationOptions).

Abbreviation factory := (Some _work_scope_factory).
Abbreviation intrinsic := (Some _intrinsic_provider).
Abbreviation tasks g := (rt_run g factory intrinsic).

(** A start that returns has done everything, in order: the modules and
    then every singleton's object (but [None]) in construction order were
    initialized, then the driver was bound, then the same participants were
    bootstrapped in the same order; every singleton of the graph is built, and
    only now are both kinds of scopes admitted. *)
Theorem start_success graph a k :
  start graph options (ApplicationKernel_new a) = (Ok tt, k) →
  k_state k = STARTED ∧ flags (k_world k) = (true, true, false) ∧
  _bootstrapped k = _module_initialized k ∧
  operations k = hooks on_module_init (_module_initialized k) ++ [Bind] ++
                 hooks on_application_bootstrap (_module_initialized k) ∧
  (∃ refs vs, _module_initialized k = _modules k ++ vs ∧
     participants graph (k_world k) (provider_order graph) refs vs) ∧
  ∀ ref p, ref ∈ provider_order graph → singleton_plan graph ref p →
    is_Some (cache (app_scope (k_world k)) !! pp_canonical p).
Proof. intros Hs%start_ok. destruct Hs. by split_and!. Qed.

(** C16: A start that fails undoes what it did, no more and no less, and
    reports the error that made it fail. Either nothing was started yet, or the
    participants (the modules, then the singletons' objects in construction
    order) were initialized one after the other until the init hook of one raised
    the error, or all were and binding the driver raised it, or the bootstrap hook
    of one did after those before it. Then, unless a hook ignored its
    cancellation, exactly the participants whose bootstrap hook had returned get
    their shutdown hook, the driver is closed if its binding was attempted, and
    exactly those whose init hook had returned get their destroy hook, each in
    reverse order; before that only quiescing hooks of bootstrapped participants
    ran, and afterwards the container is closed and holds no resource. The
    application is [FAILED] for good and admits no scope. *)
Theorem start_failure graph a e k :
  start graph options (ApplicationKernel_new a) = (Err e, k) →
  k_state k = FAILED ∧ (flags (k_world k)).1 = (false, false) ∧
  (∃ inits boots bound started quiesced,
     start_raised graph (_modules k) (k_world k) e inits boots bound started ∧
     quiesced `sublist_of` (quiesce_log <$> reverse boots) ∧
     (cooperative → container_closed (k_world k) = true ∧ held (k_world k) None = [] ∧
        operations k = started ++ quiesced ++
                       hooks on_application_shutdown (reverse boots) ++
                       (if bound then [BinderClose] else []) ++
                       hooks on_module_destroy (reverse inits))) ∧
  start graph options k = (Err ApplicationStateError, k) ∧ shutdown graph options k = (Err ApplicationStateError, k).
Proof.
  intros Hrun. destruct (start_fail graph options a e k Hrun)
    as (l & k0 & (ms & inits & boots & bound & ops & S & Hraised) & [Hs Hl Hops Hr Hwk Hc I] & Hco).
  destruct (I (sg_inv _ _ _ _ _ _ S)) as [Hw Hadv]. injection Hl as L1 L2 L3 L4.
  destruct Hops as (q & Hq & Hops). rewrite (sg_boots _ _ _ _ _ _ S) in Hq.
  split_and!; [done| | | |].
  - unfold flags. simpl. congruence.
  - exists inits, boots, bound, ops, q. split_and!; [|done|].
    + rewrite L1, (sg_modules _ _ _ _ _ _ S). by eapply start_raised_later.
    + intros Hcoop. rewrite (Hco Hcoop) in *. specialize (Hc eq_refl). split_and!; [done| |].
      * pose proof (ri_closed _ Hw) as Hcl. by rewrite Hc in Hcl.
      * rewrite Hops. unfold teardown_log. destruct S as [_ _ _ _ _ _ -> -> -> ->]. done.
  - unfold start. autorewrite with mrun. by rewrite bool_decide_true by congruence.
  - unfold shutdown, shutdown_begin. autorewrite with mrun. by rewrite Hs.
Qed.

(** C17: On a compiled graph only the application's own code can fail. Whatever
    starting the application raises, and whatever resolving a provider in a
    scope that is open raises to the task that entered it, one of the
    application's own constructors, factories, hooks or validators raised it,
    or a cleanup error around such an error: the graph has every provider that
    is asked for, no cycle, and nothing of a request in a singleton. *)
Theorem only_application_raises `{Reflection} import_resolver spec_transformer collect fuel root graph
    (P : rt_error → Prop) a :
  compile_graph collect import_resolver spec_transformer fuel root = Ok graph →
  app_raises (A := A) P → lifecycle_raises graph P →
  (∀ e k, start graph options (ApplicationKernel_new a) = (Err e, k) → P e) ∧
  ∀ (w w' : world A) task i r ref e,
    rt_reachable graph factory intrinsic w → container_closed w = false → scopes w !! i = Some r →
    _entered r = true → lease (rs_state r) = Some OPEN → owner_task (rs_state r) = Some task →
    is_Some (dict_get (providers graph) ref) →
    scope_resolve_ref graph factory intrinsic (depth graph) task i ref w = (Err e, w') → P e.
Proof.
  intros Hg Happ Hlife. destruct (compiled_runnable _ _ _ _ _ _ Hg) as [rank Hrun]. split.
  { intros e k. by eapply start_raises. }
  intros w w' task i r ref e Hw%reachable_inv Hcl Hr He Hl Ho [p Hp] Hres.
  destruct (ri_scope _ Hw i r Hr) as (_ & (Hkind & Hok & _) & _). rewrite Hl in Hok.
  destruct (_closed r) eqn:Hcr; [done|]. destruct Hok as [_ Hopen].
  assert (state_of w (Some i) = Some (rs_state r)) as Hst by (simpl; by rewrite Hr).
  assert (check_access task (rs_state r) = Ok tt) as Hacc.
  { unfold check_access. rewrite Hl, Ho. simpl. by rewrite bool_decide_eq_false_2 by naive_solver. }
  unfold scope_resolve_ref, resolve_ref in Hres.
  rewrite run_bind_get_scope, Hr, run_bind_throw, He, Hcr in Hres. cbn [negb orb] in Hres.
  rewrite (run_bind_get_state _ _ _ _ Hst), run_bind_lift, Hacc in Hres.
  destruct (run_canonical ref p Hp) as (q & Hq & _).
  eapply (resolve_raises graph rank factory intrinsic P Happ kernel_capable _ ref (Some i) p Hp); [| |exact Hres].
  - unfold depth. pose proof (run_bounded _ _ Hq). lia.
  - split; [split; [done|]|left; exists (rs_state r); split_and!; congruence].
    intros t [->| ->]; [by exists (rs_state r)|]. exists (app_scope w). split; [done|].
    pose proof (ri_closed _ Hw) as Hs. by rewrite Hcl in Hs.
Qed.

(** An application whose own code does not raise starts, on every graph
    that compiles. *)
Theorem application_starts `{Reflection} import_resolver spec_transformer collect fuel root graph a :
  compile_graph collect import_resolver spec_transformer fuel root = Ok graph →
  app_raises (A := A) (λ _, False) → lifecycle_raises graph (λ _, False) →
  ∃ k, start graph options (ApplicationKernel_new a) = (Ok tt, k) ∧ k_state k = STARTED.
Proof.
  intros Hg Happ Hlife. destruct (compiled_runnable _ _ _ _ _ _ Hg) as [rank Hrun].
  destruct (start graph options (ApplicationKernel_new a)) as [[[]|e] k] eqn:Hs.
  - exists k. split; [done|]. apply (start_ok graph options a k Hs).
  - by apply (start_raises graph options rank _ Happ Hlife) in Hs.
Qed.

(** C18: The life of an application is symmetric. After a successful start and
    whatever tasks did in their scopes, a shutdown ends in [STOPPED], whatever
    errors the hooks, the driver and the resources raise: every participant was
    initialized and bootstrapped, and gets its shutdown hook and its destroy
    hook in the reverse order, with the driver bound and closed in between; no
    scope is admitted any more, the container is closed and holds nothing, and a
    second shutdown does nothing. Only a hook that ignores its cancellation
    prevents this. *)
Theorem lifecycle_complete graph a k ops k' :
  start graph options (ApplicationKernel_new a) = (Ok tt, k) → Forall task_op ops → cooperative →
  k' = (shutdown graph options (with_world (tasks graph ops (k_world k)) k)).2 →
  k_state k' = STOPPED ∧ flags (k_world k') = (false, false, true) ∧ held (k_world k') None = [] ∧
  (∃ q, q `sublist_of` (quiesce_log <$> reverse (_module_initialized k)) ∧
     operations k' = hooks on_module_init (_module_initialized k) ++ [Bind] ++
                     hooks on_application_bootstrap (_module_initialized k) ++ q ++
                     hooks on_application_shutdown (reverse (_module_initialized k)) ++ [BinderClose] ++
                     hooks on_module_destroy (reverse (_module_initialized k))) ∧
  shutdown graph options k' = (Ok tt, k').
Proof.
  intros Hs%start_ok Hops Hco ->. destruct Hs as [Hst _ Hinv Hfl Hbind Hboot _ Hlog _].
  set (k1 := with_world _ k). destruct (shutdown_run graph options k1 Hst) as (l & [Ss Sl Sops Sr Sw Sc I] & Hl).
  rewrite (Hl Hco) in *. specialize (Sc eq_refl).
  destruct (rt_run_inv graph factory intrinsic ops (k_world k) Hinv) as [Hw1 _]. destruct (I Hw1) as [Hw2 _].
  split_and!; [done| | | |].
  - unfold flags. congruence.
  - pose proof (ri_closed _ Hw2) as Hcl. by rewrite Sc in Hcl.
  - destruct Sops as (q & Hq & Hlog'). exists q. simpl in Hq. rewrite Hboot in Hq. split; [done|].
    rewrite Hlog'. simpl. rewrite Hlog. unfold teardown_log. simpl. rewrite Hboot, Hbind.
    by rewrite <- !app_assoc.
  - unfold shutdown at 1, shutdown_begin. autorewrite with mrun. by rewrite Ss.
Qed.
End kernel.

(** ** A concrete application

    The graph of [DiProperties] with classes that are their own context
    managers; class [broken] raises. The application's state is its clock. *)

Lemma ex_compiles : is_ok ex_compiled = true.
Proof. vm_compute. reflexivity. Qed.

Definition ex_graph : CompiledGraph :=
  match ex_compiled as r return is_ok r = true → CompiledGraph with
  | Ok g => λ _, g
  | Err _ => λ H, match diff_false_true H with end
  end ex_compiles.

Lemma ex_graph_compiled : @compile_graph ex_reflection None None None 3 (ImportClass 1) = Ok ex_graph.
Proof. change (ex_compiled = Ok ex_graph). unfold ex_graph. generalize ex_compiles. by destruct ex_compiled. Qed.

Definition ex_class (broken : option Z) (c : Z) (args : list (pystr * value)) : M Z rt_error value :=
  if bool_decide (broken = Some c) then raise (AppError c) else mret (Object (PyObject c)).

Definition ex_application (broken : option Z) : Application Z := {|
  construct_class := ex_class broken;
  call_factory := ex_class broken;
  isawaitable _ := false;
  await_value v := mret v;
  manager_of _ := AsyncManager;
  enter_manager v := mret v;
  exit_manager _ _ := mret false;
  exit_within _ _ _ a := (Some (Ok false), a);
  exit_detached _ _ a := a;
  loop_time a := (a, a + 1)
|}.

Definition ex_lifecycle : Lifecycle Z := {|
  is_validator _ := false;
  validate_graph _ _ := mret tt;
  hook_of _ name := match name with on_application_quiesce => AsyncHook 1 | _ => AsyncHook 0 end;
  run_operation _ := mret tt;
  operation_within _ _ a := (Some (Ok tt), a);
  operation_detached _ a := a;
  cancel_within _ _ a := (true, a);
  cancel_tasks _ _ a := a;
  other_tasks _ := []
|}.

Definition ex_options : ApplicationOptions :=
  {| shutdown_timeout := 100; cancellation_grace := 5; cleanup_reserve := 5 |}.

Abbreviation ex_factory := (Some _work_scope_factory).
Abbreviation ex_intrinsic := (Some _intrinsic_provider).
Abbreviation ex_step broken := (@rt_step Z (ex_application broken) ex_graph ex_factory ex_intrinsic).
Abbreviation ex_run broken := (@rt_run Z (ex_application broken) ex_graph ex_factory ex_intrinsic).

(** Task 7 resolves class 11 in a request scope and leaves it. *)
Definition ex_ops : list rt_op :=
  [OpAdmit true true; OpRequestScope (ex_module 1); OpEnter 7 0; OpResolveIn 9 7 (ex_ref 1 11) 0].

Lemma ex_reachable broken ops : @rt_reachable Z (ex_application broken) ex_graph ex_factory ex_intrinsic
  (ex_run broken ops (Container_new 0)).
Proof.
  assert (∀ w, @rt_reachable Z (ex_application broken) ex_graph ex_factory ex_intrinsic w →
    @rt_reachable Z (ex_application broken) ex_graph ex_factory ex_intrinsic (ex_run broken ops w)) as Hr;
    [|apply Hr; constructor].
  unfold rt_run. induction ops as [|op ops IH]; intros w Hw; simpl; [done|]. apply IH. by constructor.
Qed.

Definition ex_closed : world Z := ex_run None (ex_ops ++ [OpLeave 0 None; OpCleanup 0]) (Container_new 0).
Definition ex_open (broken : option Z) : world Z := ex_run broken (take 3 ex_ops) (Container_new 0).

Lemma resources_lifo_witness :
  length (trace ex_closed) = 7%nat ∧ held ex_closed (Some 0) = [] ∧ stack (Some 0) (trace ex_closed) [].
Proof.
  destruct (@resources_lifo Z (ex_application None) ex_graph ex_factory ex_intrinsic ex_closed (ex_reachable None _))
    as (H1 & H2 & _).
  split; [vm_compute; reflexivity|]. assert (held ex_closed (Some 0) = []) as Hh by (vm_compute; reflexivity).
  split; [exact Hh|]. rewrite <- Hh. exact (H1 (Some 0)).
Defined.

(** Class 11 raises when it is constructed. *)
Definition ex_failed := @resolve_ref Z (ex_application (Some 11)) ex_graph ex_factory ex_intrinsic 9 7 (ex_ref 1 11) (Some 0) (ex_open (Some 11)).

Lemma resolution_failure_atomic_witness :
  ex_failed.1 = Err (AppError 11) ∧ held ex_failed.2 (Some 0) = held (ex_open (Some 11)) (Some 0) ∧
  length (trace ex_failed.2) = 5%nat.
Proof.
  assert (ex_failed.1 = Err (AppError 11)) as He by (vm_compute; reflexivity).
  assert (@resolve_ref Z (ex_application (Some 11)) ex_graph ex_factory ex_intrinsic 9 7 (ex_ref 1 11) (Some 0) (ex_open (Some 11))
    = (Err (AppError 11), ex_failed.2)) as Hrun.
  { rewrite <- He. apply surjective_pairing. }
  split; [exact He|]. split; [|vm_compute; reflexivity].
  exact (proj1 (proj2 (@resolution_failure_atomic Z (ex_application (Some 11)) ex_graph ex_factory ex_intrinsic (ex_open (Some 11))
    9 7 (ex_ref 1 11) (Some 0) (AppError 11) ex_failed.2 (ex_reachable (Some 11) _) Hrun))).
Defined.

(** Class 20 through its alias, in the scope of a request, after the
    application resolved it. *)
Definition ex_alias : ProviderRef := {| ref_module_id := ex_module 2; ref_token := TName (str "db") |}.
Definition ex_resolved := @resolve_ref Z (ex_application None) ex_graph ex_factory ex_intrinsic 9 7 (ex_ref 2 20) None (Container_new 0).

Lemma singleton_shared_witness :
  @resolve_ref Z (ex_application None) ex_graph ex_factory ex_intrinsic 1 7 ex_alias (Some 0)
    (ex_run None ex_ops ex_resolved.2) = (Ok (Object (PyObject 20)), ex_run None ex_ops ex_resolved.2).
Proof.
  assert (∃ p p' x, dict_get (providers ex_graph) (ex_ref 2 20) = Some p ∧ pp_scope p = SINGLETON ∧
    dict_get (providers ex_graph) ex_alias = Some p' ∧ pp_scope p' = SINGLETON ∧ pp_canonical p' = pp_canonical p ∧
    state_of (ex_run None ex_ops ex_resolved.2) (Some 0) = Some x ∧ check_access 7 x = Ok tt)
    as (p & p' & x & H1 & H2 & H3 & H4 & H5 & H6 & H7)
    by (do 3 eexists; split_and!; vm_compute; reflexivity).
  assert (ex_resolved.1 = Ok (Object (PyObject 20))) as He by (vm_compute; reflexivity).
  refine (@singleton_shared Z (ex_application None) ex_graph ex_factory ex_intrinsic (Container_new 0) 9 7 (ex_ref 2 20)
    None p (Object (PyObject 20)) ex_resolved.2 ex_ops 0 7 ex_alias (Some 0) p' x _ H1 H2 _ H3 H4 H5 _ H6 H7).
  - constructor.
  - rewrite <- He. apply surjective_pairing.
  - vm_compute. reflexivity.
Defined.

Lemma closed_scope_final_witness :
  @__aenter__ Z 7 (mret tt) 0 (ex_run None ex_ops ex_closed) = (Err ScopeError, ex_run None ex_ops ex_closed).
Proof.
  assert (∃ r, scopes ex_closed !! 0 = Some r ∧ _closed r = true) as (r & H1 & H2)
    by (eexists; split; vm_compute; reflexivity).
  destruct (@closed_scope_final Z (ex_application None) ex_graph ex_factory ex_intrinsic ex_closed 0 r ex_ops
    (ex_reachable None _) H1 H2) as (_ & _ & H3 & _). exact (H3 7 (mret tt)).
Defined.

Definition ex_start (broken : option Z) := @start Z (ex_application broken) ex_lifecycle ex_graph ex_options (ApplicationKernel_new 0).

Lemma ex_start_ok : ex_start None = (Ok tt, (ex_start None).2).
Proof. assert ((ex_start None).1 = Ok tt) as <- by (vm_compute; reflexivity). apply surjective_pairing. Qed.
Lemma ex_start_failed : ex_start (Some 20) = (Err (AppError 20), (ex_start (Some 20)).2).
Proof. assert ((ex_start (Some 20)).1 = Err (AppError 20)) as <- by (vm_compute; reflexivity). apply surjective_pairing. Qed.

Lemma start_success_witness :
  k_state (ex_start None).2 = STARTED ∧ length (_module_initialized (ex_start None).2) = 4%nat ∧
  length (operations (ex_start None).2) = 9%nat.
Proof.
  destruct (@start_success Z (ex_application None) ex_lifecycle ex_options ex_graph 0 (ex_start None).2 ex_start_ok) as (H1 & _).
  split; [exact H1|]. split; vm_compute; reflexivity.
Defined.

(** The bootstrap hook raises. *)
Definition ex_unbootable : Lifecycle Z := {|
  is_validator _ := false;
  validate_graph _ _ := mret tt;
  hook_of _ name := match name with on_application_quiesce => NoHook | _ => AsyncHook 0 end;
  run_operation o := match o with Hook _ on_application_bootstrap => raise (AppError 99) | _ => mret tt end;
  operation_within _ _ a := (Some (Ok tt), a);
  operation_detached _ a := a;
  cancel_within _ _ a := (true, a);
  cancel_tasks _ _ a := a;
  other_tasks _ := []
|}.
Definition ex_unstarted := @start Z (ex_application None) ex_unbootable ex_graph ex_options (ApplicationKernel_new 0).

Lemma start_failure_witness :
  k_state ex_unstarted.2 = FAILED ∧ length (operations ex_unstarted.2) = 11%nat ∧
  ∃ inits boots (bound : bool) started quiesced,
    operations ex_unstarted.2 = started ++ quiesced ++
      @hooks Z ex_unbootable on_application_shutdown (reverse boots) ++ (if bound then [BinderClose] else []) ++
      @hooks Z ex_unbootable on_module_destroy (reverse inits).
Proof.
  assert (ex_unstarted = (Err (AppError 99), ex_unstarted.2)) as Hrun.
  { assert (ex_unstarted.1 = Err (AppError 99)) as <- by (vm_compute; reflexivity). apply surjective_pairing. }
  destruct (@start_failure Z (ex_application None) ex_unbootable ex_options ex_graph 0 (AppError 99) ex_unstarted.2
    Hrun) as (H1 & _ & (inits & boots & bound & started & q & _ & _ & H2) & _).
  split; [exact H1|]. split; [vm_compute; reflexivity|]. exists inits, boots, bound, started, q.
  apply H2. split; [done|]. intros o d a. simpl. congruence.
Defined.

(** The errors the container raises itself. *)
Definition of_application (e : rt_error) : Prop :=
  match e with
  | ScopeError | ScopeClosedError | ResourceAcquireError | RuntimeError | KeyError | RecursionError => False
  | _ => True
  end.

Lemma take_first_ok p l x rest : take_first p l = Some (x, rest) → p x = true.
Proof.
  revert rest. induction l as [|e l IH]; intros rest; simpl; [done|]. destruct (p e) eqn:Hp; [by intros [= <- _]|].
  destruct (take_first p l) as [[y r]|]; [|done]. intros [= <- _]. by eapply IH.
Qed.

Lemma ex_cleanup_error e errs : of_application e → of_application (_scope_cleanup_error (Some e) errs).
Proof.
  intros He. unfold _scope_cleanup_error. destruct (is_cancelled e); [done|]. destruct (is_control e); [done|].
  destruct (take_first is_control errs) as [[c r]|] eqn:Hc; [|by repeat case_match].
  apply take_first_ok in Hc. by destruct c.
Qed.

Lemma ex_raises broken (P : rt_error → Prop) :
  (∀ c, broken = Some c → P (AppError c)) → (∀ e errs, P e → errs ≠ [] → P (_scope_cleanup_error (Some e) errs)) →
  @app_raises Z (ex_application broken) P.
Proof.
  intros HP Hc. split_and!; try done; intros c args a e a'; simpl; unfold ex_class; destruct (bool_decide _) eqn:E;
    try done; apply bool_decide_eq_true in E; intros [= <- _]; by apply HP.
Qed.

Lemma ex_lifecycle_raises P : @lifecycle_raises Z ex_lifecycle ex_graph P.
Proof. split_and!; try done. intros v name [->| ->]; by right; left. Qed.

Lemma only_application_raises_witness : of_application (AppError 20) ∧ (ex_start (Some 20)).1 = Err (AppError 20).
Proof.
  destruct (@only_application_raises Z (ex_application (Some 20)) ex_lifecycle ex_options ex_reflection None None None 3
    (ImportClass 1) ex_graph of_application 0 ex_graph_compiled) as [H1 _].
  - apply ex_raises; [done|]. intros e errs He _. by apply ex_cleanup_error.
  - apply ex_lifecycle_raises.
  - split; [|vm_compute; reflexivity]. exact (H1 (AppError 20) (ex_start (Some 20)).2 ex_start_failed).
Defined.

Lemma application_starts_witness : ∃ k, ex_start None = (Ok tt, k) ∧ k_state k = STARTED.
Proof.
  refine (@application_starts Z (ex_application None) ex_lifecycle ex_options ex_reflection None None None 3
    (ImportClass 1) ex_graph 0 ex_graph_compiled _ _).
  - apply ex_raises; done.
  - apply ex_lifecycle_raises.
Defined.

(** A request is served between start and shutdown. *)
Definition ex_served : list rt_op := tail ex_ops ++ [OpLeave 0 None; OpCleanup 0].
Definition ex_stopped := (@shutdown Z (ex_application None) ex_lifecycle ex_graph ex_options
  (with_world (ex_run None ex_served (k_world (ex_start None).2)) (ex_start None).2)).2.

Lemma lifecycle_complete_witness : k_state ex_stopped = STOPPED ∧ length (operations ex_stopped) = 22%nat.
Proof.
  destruct (@lifecycle_complete Z (ex_application None) ex_lifecycle ex_options ex_graph 0 (ex_start None).2 ex_served
    ex_stopped ex_start_ok) as (H1 & _).
  - repeat constructor.
  - split; [done|]. intros o d a. simpl. congruence.
  - reflexivity.
  - split; [exact H1|]. vm_compute. reflexivity.
Defined.
