(* ===== verification/CqMessages.v ===== *)
(** * CQRS: messages, envelopes and handler registration

    [errors.py], [messages.py], [identity.py], [envelope.py], [registrations.py],
    [registry.py], [context.py] and [builder.py] of [tori_py_cqrs_core]. What the
    code asks Python about classes and callables is the class [Inspection]. *)

From Stdlib Require Import ZArith Lia.
From stdpp Require Import base tactics list gmap strings.
From S2P Require Import Prelude.
Local Open Scope Z_scope.

(** ** Failures

    [CqException] is any other [Exception] of the application,
    [CqBaseException] one that is no [Exception]. *)

Inductive cq_error :=
| CqrsValidationError
| NestedCommandDispatchError
| EnvelopeValidationError
| TransportNotStartedError
| TransportStoppedError
| QueueCapacityError
| RequestTimeoutError (message_id correlation_id : uuid)
| InvalidLifecycleTransitionError
| DuplicateCommandHandlerError (message_type : pystr)
| DuplicateQueryHandlerError (message_type : pystr)
| MissingHandlerError (message_type : pystr)
| InvalidHandlerRegistrationError
| InvalidReplyCorrelationError (expected actual : uuid)
| InvalidTransportReplyError
| CqTypeError
| CqCancelledError
| CqException (id : Z)
| CqBaseException (id : Z).
#[export] Instance cq_error_eq_dec : EqDecision cq_error.
Proof. solve_decision. Defined.

(** [isinstance(e, Exception)] *)
Definition cq_is_exception (e : cq_error) : bool :=
  match e with CqCancelledError | CqBaseException _ => false | _ => true end.

(** ** Classes and handlers *)

Inductive pytype := TMessage | TCommand | TQuery | TEvent | TUser (id : Z).

(** What is given as a handler: a class, a function, or any other object. *)
Inductive target := ClassTarget (t : pytype) | FunctionTarget (id : Z) | InstanceTarget (id : Z).

#[export] Instance pytype_eq_dec : EqDecision pytype.
Proof. solve_decision. Defined.
#[export] Instance pytype_countable : Countable pytype.
Proof.
  refine (inj_countable' (λ t, match t with TMessage => inl 0 | TCommand => inl 1 | TQuery => inl 2
                                          | TEvent => inl 3 | TUser i => inr i end)
    (λ s, match s with inl 0 => TMessage | inl 1 => TCommand | inl 2 => TQuery | inl _ => TEvent
                     | inr i => TUser i end) _).
  by intros [].
Defined.
#[export] Instance target_eq_dec : EqDecision target.
Proof. solve_decision. Defined.
#[export] Instance target_countable : Countable target.
Proof.
  refine (inj_countable' (λ t, match t with ClassTarget t => inl t | FunctionTarget i => inr (inl i)
                                          | InstanceTarget i => inr (inr i) end)
    (λ s, match s with inl t => ClassTarget t | inr (inl i) => FunctionTarget i
                     | inr (inr i) => InstanceTarget i end) _).
  by intros [].
Defined.

Inductive parameter_kind := PositionalOnly | PositionalOrKeyword | OtherParameter.

(** [getattr(target, "handle", None)] *)
Record handle_attribute := { handle_callable : bool; handle_coroutine : bool }.

Class Inspection := {
  user_subclass : Z → pytype → bool;
  qualified_name : pytype → pystr;
  instance_type : Z → Z;
  instance_callable : Z → bool;
  iscoroutinefunction : target → bool;
  (** the kind of each parameter and whether it has a default *)
  parameters_of : target → list (parameter_kind * bool);
  handle_of : target → option handle_attribute
}.

Section inspection.
Context `{Inspection}.

Definition issubclass (t base : pytype) : bool :=
  match t with
  | TUser i => user_subclass i base
  | _ => bool_decide (t = base) || bool_decide (base = TMessage)
  end.

Definition is_marker (t : pytype) : bool :=
  match t with TUser _ => false | _ => true end.

Definition callable (t : target) : bool :=
  match t with InstanceTarget i => instance_callable i | _ => true end.

Definition isfunction (t : target) : bool :=
  match t with FunctionTarget _ => true | _ => false end.
Definition isclass (t : target) : bool :=
  match t with ClassTarget _ => true | _ => false end.

(** ** Messages and envelopes *)

Record message := { msg_type : pytype; msg_value : pyobj }.

Definition isinstance (m : message) (base : pytype) : bool := issubclass (msg_type m) base.

Definition message_type_for (t : option pytype) : result cq_error pystr :=
  match t with
  | Some t => if negb (issubclass t TMessage) || is_marker t then Err CqTypeError else Ok (qualified_name t)
  | None => Err CqTypeError
  end.

Record DeliveryMetadata := { delivery_id : uuid; enqueued_at : datetime; attempt : Z }.

Record Envelope := {
  env_message : message;
  env_message_type : pystr;
  message_id : uuid;
  correlation_id : option uuid;
  causation_id : option uuid;
  headers : list (pystr * pystr);
  delivery : DeliveryMetadata
}.

Record ReplyEnvelope := {
  reply_id : uuid;
  reply_correlation_id : uuid;
  reply_result : option pyobj;
  reply_error : option cq_error
}.

Record DeliveryReceipt := { rc_message_id : uuid; rc_delivery_id : uuid; rc_enqueued_at : datetime }.

Definition _validate_uuid (v : pyobj) : result cq_error uuid :=
  match v with PyUUID u => Ok u | _ => Err EnvelopeValidationError end.

Definition _validate_timestamp (v : pyobj) : result cq_error datetime :=
  match v with
  | PyDatetime d => if dt_aware d then Ok d else Err EnvelopeValidationError
  | _ => Err EnvelopeValidationError
  end.

Definition optional_uuid (v : pyobj) : result cq_error (option uuid) :=
  match v with PyNone => Ok None | _ => u ← _validate_uuid v; Ok (Some u) end.

Definition DeliveryMetadata_new (delivery_id enqueued_at attempt : pyobj) : result cq_error DeliveryMetadata :=
  d ← _validate_uuid delivery_id;
  t ← _validate_timestamp enqueued_at;
  match attempt with
  | PyInt n =>
      _ ← raise_if (n <? 1) EnvelopeValidationError;
      Ok {| delivery_id := d; enqueued_at := t; attempt := n |}
  | _ => Err EnvelopeValidationError
  end.

Definition header_item (kv : pyobj * pyobj) : result cq_error (pystr * pystr) :=
  match kv with (PyStr k, PyStr v) => Ok (k, v) | _ => Err EnvelopeValidationError end.

(** [None]: the object is no message, or the headers are no mapping. *)
Definition Envelope_new (m : option message) (message_type : pystr) (message_id correlation_id causation_id : pyobj)
    (headers : option (list (pyobj * pyobj))) (delivery : DeliveryMetadata) : result cq_error Envelope :=
  match m with
  | None => Err EnvelopeValidationError
  | Some m =>
      _ ← raise_if (negb (isinstance m TMessage)) EnvelopeValidationError;
      expected ← match message_type_for (Some (msg_type m)) with
                 | Ok t => Ok t
                 | Err _ => Err EnvelopeValidationError
                 end;
      _ ← raise_if (negb (bool_decide (message_type = expected))) EnvelopeValidationError;
      i ← _validate_uuid message_id;
      co ← optional_uuid correlation_id;
      ca ← optional_uuid causation_id;
      match headers with
      | None => Err EnvelopeValidationError
      | Some items =>
          h ← rmap header_item items;
          Ok {| env_message := m; env_message_type := message_type; message_id := i; correlation_id := co;
                causation_id := ca; headers := h; delivery := delivery |}
      end
  end.

(** [result] is [None] when it is Python's [None]. *)
Definition ReplyEnvelope_new (reply_id correlation_id : pyobj) (result : option pyobj) (error : option cq_error)
    : Prelude.result cq_error ReplyEnvelope :=
  r ← _validate_uuid reply_id;
  c ← _validate_uuid correlation_id;
  _ ← raise_if (bool_decide (is_Some error) && bool_decide (is_Some result)) EnvelopeValidationError;
  Ok {| reply_id := r; reply_correlation_id := c; reply_result := result; reply_error := error |}.

Definition DeliveryReceipt_new (message_id delivery_id enqueued_at : pyobj) : result cq_error DeliveryReceipt :=
  m ← _validate_uuid message_id;
  d ← _validate_uuid delivery_id;
  t ← _validate_timestamp enqueued_at;
  Ok {| rc_message_id := m; rc_delivery_id := d; rc_enqueued_at := t |}.

(** ** Registrations *)

Inductive HandlerKind := COMMAND | QUERY | EVENT.
Inductive HandlerStyle := STYLE_CLASS | STYLE_FUNCTION.
Inductive TargetMode := MODE_INSTANCE | MODE_CLASS | MODE_FUNCTION | MODE_FACTORY.
#[export] Instance HandlerKind_eq_dec : EqDecision HandlerKind.
Proof. solve_decision. Defined.
#[export] Instance HandlerStyle_eq_dec : EqDecision HandlerStyle.
Proof. solve_decision. Defined.
#[export] Instance TargetMode_eq_dec : EqDecision TargetMode.
Proof. solve_decision. Defined.

Record HandlerMetadata := { hm_kind : HandlerKind; hm_message_type : pytype }.

Record RegisteredHandler := {
  kind : HandlerKind;
  message_type : pytype;
  rh_target : target;
  style : HandlerStyle;
  target_mode : TargetMode
}.
#[export] Instance RegisteredHandler_eq_dec : EqDecision RegisteredHandler.
Proof. solve_decision. Defined.

Definition expected_base (k : HandlerKind) : pytype :=
  match k with COMMAND => TCommand | QUERY => TQuery | EVENT => TEvent end.

(** [None] is an object that is no class. *)
Definition _validate_message_kind (k : HandlerKind) (t : option pytype) : result cq_error pytype :=
  match t with
  | None => Err InvalidHandlerRegistrationError
  | Some t =>
      _ ← raise_if (negb (issubclass t TMessage)) InvalidHandlerRegistrationError;
      _ ← raise_if (is_marker t) InvalidHandlerRegistrationError;
      _ ← raise_if (negb (issubclass t (expected_base k))) InvalidHandlerRegistrationError;
      Ok t
  end.

Definition HandlerMetadata_new (k : HandlerKind) (t : option pytype) : result cq_error HandlerMetadata :=
  t ← _validate_message_kind k t; Ok {| hm_kind := k; hm_message_type := t |}.

Definition RegisteredHandler_new (k : HandlerKind) (t : option pytype) (x : target) (s : HandlerStyle)
    (m : TargetMode) : result cq_error RegisteredHandler :=
  t ← _validate_message_kind k t;
  _ ← raise_if (bool_decide (m = MODE_FUNCTION) && negb (bool_decide (s = STYLE_FUNCTION)))
        InvalidHandlerRegistrationError;
  _ ← raise_if (negb (bool_decide (m = MODE_FUNCTION)) && negb (bool_decide (s = STYLE_CLASS)))
        InvalidHandlerRegistrationError;
  Ok {| kind := k; message_type := t; rh_target := x; style := s; target_mode := m |}.

(** The metadata attributes that decorators have set, by owner. *)
Definition attributes : Type := gmap target HandlerMetadata.

Definition _decorate (k : HandlerKind) (t : option pytype) (x : target) (s : HandlerStyle)
    : M attributes cq_error target :=
  lift (_validate_message_kind k t);;
  throw_if (bool_decide (s = STYLE_CLASS) && negb (isclass x)) InvalidHandlerRegistrationError;;
  throw_if (bool_decide (s = STYLE_FUNCTION) && negb (isfunction x)) InvalidHandlerRegistrationError;;
  a ← get;
  throw_if (bool_decide (is_Some (a !! x))) InvalidHandlerRegistrationError;;
  m ← lift (HandlerMetadata_new k t);
  modify (<[x := m]>);;
  mret x.

Definition CommandHandler (t : option pytype) (x : target) : M attributes cq_error target :=
  _decorate COMMAND t x STYLE_CLASS.
Definition QueryHandler (t : option pytype) (x : target) : M attributes cq_error target :=
  _decorate QUERY t x STYLE_CLASS.
Definition EventsHandler (t : option pytype) (x : target) : M attributes cq_error target :=
  _decorate EVENT t x STYLE_CLASS.

Definition handles (t : option pytype) (x : target) : M attributes cq_error target :=
  match t with
  | None => raise InvalidHandlerRegistrationError
  | Some c =>
      throw_if (negb (issubclass c TMessage)) InvalidHandlerRegistrationError;;
      if issubclass c TCommand then _decorate COMMAND t x STYLE_FUNCTION
      else if issubclass c TQuery then _decorate QUERY t x STYLE_FUNCTION
      else if issubclass c TEvent then _decorate EVENT t x STYLE_FUNCTION
      else raise InvalidHandlerRegistrationError
  end.

Definition get_handler_metadata (a : attributes) (x : target) : option HandlerMetadata :=
  a !! match x with InstanceTarget i => ClassTarget (TUser (instance_type i)) | _ => x end.

Definition target_mode_for (x : target) : TargetMode :=
  match x with
  | FunctionTarget _ => MODE_FUNCTION
  | ClassTarget _ => MODE_CLASS
  | InstanceTarget _ => MODE_INSTANCE
  end.

Definition style_for (x : target) : HandlerStyle :=
  if bool_decide (target_mode_for x = MODE_FUNCTION) then STYLE_FUNCTION else STYLE_CLASS.

(** ** The registry *)

Record HandlerRegistry := {
  commands : gmap pytype RegisteredHandler;
  queries : gmap pytype RegisteredHandler;
  events : gmap pytype (list RegisteredHandler)
}.

Definition HandlerRegistry_empty : HandlerRegistry := {| commands := ∅; queries := ∅; events := ∅ |}.

Definition _validate_target (r : RegisteredHandler) : result cq_error unit :=
  let x := rh_target r in
  match target_mode r with
  | MODE_FUNCTION =>
      _ ← raise_if (negb (callable x) || negb (iscoroutinefunction x)) InvalidHandlerRegistrationError;
      let parameters := parameters_of x in
      raise_if (negb (zlen parameters =? 2) ||
                existsb (λ p, match p.1 with PositionalOnly | PositionalOrKeyword => p.2 | OtherParameter => true end)
                  parameters) InvalidHandlerRegistrationError
  | MODE_FACTORY => raise_if (negb (callable x)) InvalidHandlerRegistrationError
  | MODE_CLASS | MODE_INSTANCE =>
      _ ← raise_if (bool_decide (target_mode r = MODE_CLASS) && negb (isclass x)) InvalidHandlerRegistrationError;
      match handle_of x with
      | Some h => raise_if (negb (handle_callable h) || negb (handle_coroutine h)) InvalidHandlerRegistrationError
      | None => Err InvalidHandlerRegistrationError
      end
  end.

(** One round of the loop. *)
Definition add_registration (g : HandlerRegistry) (r : RegisteredHandler) : result cq_error HandlerRegistry :=
  _ ← _validate_target r;
  let t := message_type r in
  match kind r with
  | COMMAND =>
      match commands g !! t with
      | Some _ => name ← message_type_for (Some t); Err (DuplicateCommandHandlerError name)
      | None => Ok {| commands := <[t := r]> (commands g); queries := queries g; events := events g |}
      end
  | QUERY =>
      match queries g !! t with
      | Some _ => name ← message_type_for (Some t); Err (DuplicateQueryHandlerError name)
      | None => Ok {| commands := commands g; queries := <[t := r]> (queries g); events := events g |}
      end
  | EVENT =>
      let registered := default [] (events g !! t) in
      _ ← raise_if (existsb (λ e, bool_decide (rh_target e = rh_target r)) registered)
            InvalidHandlerRegistrationError;
      Ok {| commands := commands g; queries := queries g; events := <[t := registered ++ [r]]> (events g) |}
  end.

Definition HandlerRegistry_build (registrations : list RegisteredHandler) : result cq_error HandlerRegistry :=
  rfold add_registration HandlerRegistry_empty registrations.

Definition request_handler (g : HandlerRegistry) (k : HandlerKind) (t : pytype) : result cq_error RegisteredHandler :=
  handlers ← match k with
             | COMMAND => Ok (commands g)
             | QUERY => Ok (queries g)
             | EVENT => Err InvalidHandlerRegistrationError
             end;
  match handlers !! t with
  | Some r => Ok r
  | None => name ← message_type_for (Some t); Err (MissingHandlerError name)
  end.

Definition event_handlers (g : HandlerRegistry) (t : pytype) : list RegisteredHandler :=
  default [] (events g !! t).

(** ** The builder

    A transport, a provider and an error handler are objects, by identity. *)

Record CqrsBuilder := {
  _registrations : list RegisteredHandler;
  _command_transport : option Z;
  _query_transport : option Z;
  _event_transport : option Z;
  _provider : option Z;
  _event_error_handler : option Z
}.

Definition CqrsBuilder_new : CqrsBuilder :=
  {| _registrations := []; _command_transport := None; _query_transport := None; _event_transport := None;
     _provider := None; _event_error_handler := None |}.

Definition _validate_message_type (k : HandlerKind) (t : option pytype) : result cq_error pytype :=
  match t with
  | None => Err InvalidHandlerRegistrationError
  | Some t =>
      _ ← raise_if (negb (issubclass t TMessage)) InvalidHandlerRegistrationError;
      _ ← raise_if (negb (issubclass t (expected_base k))) InvalidHandlerRegistrationError;
      Ok t
  end.

Definition append_registration (r : RegisteredHandler) (b : CqrsBuilder) : CqrsBuilder :=
  {| _registrations := _registrations b ++ [r]; _command_transport := _command_transport b;
     _query_transport := _query_transport b; _event_transport := _event_transport b; _provider := _provider b;
     _event_error_handler := _event_error_handler b |}.

(** [handler_or_message_type] as a handler and as a message class. *)
Definition _add_handler (a : attributes) (k : HandlerKind) (first : target) (handler : option target)
    : M CqrsBuilder cq_error unit :=
  '(t, x) ← lift match handler with
                 | None =>
                     match get_handler_metadata a first with
                     | None => Err InvalidHandlerRegistrationError
                     | Some m => _ ← raise_if (negb (bool_decide (hm_kind m = k))) InvalidHandlerRegistrationError;
                                 Ok (Some (hm_message_type m), first)
                     end
                 | Some h => Ok (match first with ClassTarget t => Some t | _ => None end, h)
                 end;
  t ← lift (_validate_message_type k t);
  r ← lift (RegisteredHandler_new k (Some t) x (style_for x) (target_mode_for x));
  modify (append_registration r).

Definition _add_factory (k : HandlerKind) (t : option pytype) (factory : target) : M CqrsBuilder cq_error unit :=
  t ← lift (_validate_message_type k t);
  throw_if (negb (callable factory)) InvalidHandlerRegistrationError;;
  r ← lift (RegisteredHandler_new k (Some t) factory STYLE_CLASS MODE_FACTORY);
  modify (append_registration r).

Definition set_transport (k : HandlerKind) (i : Z) (b : CqrsBuilder) : CqrsBuilder :=
  {| _registrations := _registrations b;
     _command_transport := if decide (k = COMMAND) then Some i else _command_transport b;
     _query_transport := if decide (k = QUERY) then Some i else _query_transport b;
     _event_transport := if decide (k = EVENT) then Some i else _event_transport b;
     _provider := _provider b; _event_error_handler := _event_error_handler b |}.

Definition with_command_transport (i : Z) : M CqrsBuilder cq_error unit := modify (set_transport COMMAND i).
Definition with_query_transport (i : Z) : M CqrsBuilder cq_error unit := modify (set_transport QUERY i).
Definition with_event_transport (i : Z) : M CqrsBuilder cq_error unit := modify (set_transport EVENT i).

Definition with_handler_provider (i : Z) : M CqrsBuilder cq_error unit :=
  modify (λ b, {| _registrations := _registrations b; _command_transport := _command_transport b;
    _query_transport := _query_transport b; _event_transport := _event_transport b; _provider := Some i;
    _event_error_handler := _event_error_handler b |}).
Definition with_event_error_handler (i : Z) : M CqrsBuilder cq_error unit :=
  modify (λ b, {| _registrations := _registrations b; _command_transport := _command_transport b;
    _query_transport := _query_transport b; _event_transport := _event_transport b; _provider := _provider b;
    _event_error_handler := Some i |}).

(** What the three buses are built from. *)
Record CqrsBuses := {
  cb_registry : HandlerRegistry;
  cb_command_transport : Z;
  cb_query_transport : Z;
  cb_event_transport : Z;
  cb_provider : option Z;
  cb_error_handler : option Z
}.

Definition build (b : CqrsBuilder) : result cq_error CqrsBuses :=
  match _command_transport b, _query_transport b, _event_transport b with
  | Some c, Some q, Some e =>
      _ ← raise_if (negb (zlen (elements ({[ c ]} ∪ {[ q ]} ∪ {[ e ]} : gset Z)) =? 3)) CqrsValidationError;
      registry ← HandlerRegistry_build (_registrations b);
      Ok {| cb_registry := registry; cb_command_transport := c; cb_query_transport := q; cb_event_transport := e;
            cb_provider := _provider b; cb_error_handler := _event_error_handler b |}
  | _, _, _ => Err CqrsValidationError
  end.
End inspection.
