(* ===== verification/CqRegistry.v ===== *)
(** * CQRS: the handler registry

    When a list of registrations is accepted, and what is looked up in the
    registry built from it. *)

From Stdlib Require Import ZArith Lia.
From stdpp Require Import base tactics list gmap strings.
From S2P Require Import Prelude CqMessages.
Local Open Scope Z_scope.

Section registry.
Context `{Inspection}.
Implicit Types (r : RegisteredHandler) (regs : list RegisteredHandler) (g : HandlerRegistry).

Definition of_kind (k : HandlerKind) regs : list RegisteredHandler := filter (λ r, kind r = k) regs.
Definition for_event (t : pytype) regs : list RegisteredHandler :=
  filter (λ r, kind r = EVENT ∧ message_type r = t) regs.

(** Every target is a handler, a command and a query has one handler, and an
    event no handler twice. *)
Definition acceptable regs : Prop :=
  (∀ r, r ∈ regs → _validate_target r = Ok tt) ∧
  NoDup (message_type <$> of_kind COMMAND regs) ∧
  NoDup (message_type <$> of_kind QUERY regs) ∧
  ∀ t, NoDup (rh_target <$> for_event t regs).

(** The registry holds exactly the registrations. *)
Definition holds regs g : Prop :=
  (∀ t r, commands g !! t = Some r ↔ r ∈ of_kind COMMAND regs ∧ message_type r = t) ∧
  (∀ t r, queries g !! t = Some r ↔ r ∈ of_kind QUERY regs ∧ message_type r = t) ∧
  ∀ t, event_handlers g t = for_event t regs.

Lemma NoDup_snoc {B} (l : list B) x : NoDup (l ++ [x]) ↔ NoDup l ∧ x ∉ l.
Proof.
  rewrite NoDup_app. split.
  - intros (Hl & Hn & _). split; [done|]. intros Hx. by apply (Hn x Hx), list_elem_of_singleton.
  - intros [Hl Hx]. split_and!; [done| |apply NoDup_singleton]. by intros y Hy ->%list_elem_of_singleton.
Qed.

Lemma of_kind_snoc k regs r : of_kind k (regs ++ [r]) = of_kind k regs ++ (if decide (kind r = k) then [r] else []).
Proof. unfold of_kind. by rewrite filter_app, filter_cons, filter_nil. Qed.

Lemma for_event_snoc t regs r :
  for_event t (regs ++ [r]) = for_event t regs ++ (if decide (kind r = EVENT ∧ message_type r = t) then [r] else []).
Proof. unfold for_event. by rewrite filter_app, filter_cons, filter_nil. Qed.

(** A map from the message types of one kind, extended by one registration. *)
Lemma insert_one (m : gmap pytype RegisteredHandler) (l : list RegisteredHandler) r :
  (∀ t x, m !! t = Some x ↔ x ∈ l ∧ message_type x = t) → m !! message_type r = None →
  ∀ t x, <[message_type r := r]> m !! t = Some x ↔ x ∈ l ++ [r] ∧ message_type x = t.
Proof.
  intros Hm Hn t x. rewrite elem_of_app, list_elem_of_singleton. destruct (decide (message_type r = t)) as [<-|Hne].
  - rewrite lookup_insert_eq. split; [naive_solver|]. intros [[Hx| ->] Ht]; [|done].
    exfalso. destruct (Hm (message_type r) x) as [_ Hx']. rewrite Hx' in Hn by done. done.
  - rewrite lookup_insert_ne, Hm by done. naive_solver.
Qed.

Lemma lookup_none (m : gmap pytype RegisteredHandler) (l : list RegisteredHandler) t :
  (∀ t x, m !! t = Some x ↔ x ∈ l ∧ message_type x = t) → m !! t = None ↔ t ∉ message_type <$> l.
Proof.
  intros Hm. rewrite <- eq_None_ne_Some, list_elem_of_fmap. split.
  - intros Hn (x & -> & Hx). by apply (Hn x), Hm.
  - intros Hn x [Hx <-]%Hm. apply Hn. by exists x.
Qed.

Lemma acceptable_snoc regs r :
  acceptable (regs ++ [r]) ↔ acceptable regs ∧ _validate_target r = Ok tt ∧
    (kind r = COMMAND → message_type r ∉ message_type <$> of_kind COMMAND regs) ∧
    (kind r = QUERY → message_type r ∉ message_type <$> of_kind QUERY regs) ∧
    (kind r = EVENT → rh_target r ∉ rh_target <$> for_event (message_type r) regs).
Proof.
  unfold acceptable. rewrite !of_kind_snoc, !fmap_app. split.
  - intros (Hv & Hc & Hq & He). split_and!.
    + set_solver.
    + by apply NoDup_app in Hc as [? _].
    + by apply NoDup_app in Hq as [? _].
    + intros t. specialize (He t). rewrite for_event_snoc, fmap_app in He. by apply NoDup_app in He as [? _].
    + set_solver.
    + intros Hk. rewrite decide_True in Hc by done. by apply NoDup_snoc in Hc as [_ ?].
    + intros Hk. rewrite decide_True in Hq by done. by apply NoDup_snoc in Hq as [_ ?].
    + intros Hk. specialize (He (message_type r)). rewrite for_event_snoc, fmap_app, decide_True in He by done.
      by apply NoDup_snoc in He as [_ ?].
  - intros ((Hv & Hc & Hq & He) & Hr & Hc' & Hq' & He'). split_and!.
    + intros x [Hx| ->%list_elem_of_singleton]%elem_of_app; auto.
    + case_decide; [apply NoDup_snoc; auto|by rewrite app_nil_r].
    + case_decide; [apply NoDup_snoc; auto|by rewrite app_nil_r].
    + intros t. rewrite for_event_snoc, fmap_app. case_decide as Hk; [|by rewrite app_nil_r].
      destruct Hk as [Hk <-]. apply NoDup_snoc; auto.
Qed.

Lemma acceptable_app regs l : acceptable (regs ++ l) → acceptable regs.
Proof.
  induction l as [|x l IH] using rev_ind; [by rewrite app_nil_r|].
  rewrite app_assoc. intros [Ha _]%acceptable_snoc. auto.
Qed.

Lemma existsb_target r l :
  existsb (λ e, bool_decide (rh_target e = rh_target r)) l = true ↔ rh_target r ∈ rh_target <$> l.
Proof.
  rewrite existsb_exists, list_elem_of_fmap. split.
  - intros (x & Hx & Hb%bool_decide_eq_true). exists x. split; [done|]. by apply list_elem_of_In.
  - intros (x & -> & Hx). exists x. split; [by apply list_elem_of_In|by apply bool_decide_eq_true].
Qed.

(** One registration more. *)
Lemma add_registration_step regs g r :
  holds regs g → acceptable regs →
  match add_registration g r with
  | Ok g' => holds (regs ++ [r]) g' ∧ acceptable (regs ++ [r])
  | Err _ => ¬ acceptable (regs ++ [r])
  end.
Proof.
  intros (Hc & Hq & He) Ha. unfold add_registration.
  destruct (_validate_target r) as [[]|e] eqn:Hv; r_simpl;
    [|intros (_ & Hr & _)%acceptable_snoc; congruence].
  destruct (kind r) eqn:Hk.
  - destruct (commands g !! message_type r) as [x|] eqn:Hx.
    + assert (¬ acceptable (regs ++ [r])); [|by destruct (message_type_for (Some (message_type r)))].
      rewrite acceptable_snoc. intros (_ & _ & Hn & _). specialize (Hn Hk). rewrite <- lookup_none in Hn by done. congruence.
    + assert (acceptable (regs ++ [r])) by (rewrite acceptable_snoc; split_and!; try done;
        intros Hk'; first [congruence|by rewrite <- lookup_none]). split; [|done].
      split_and!; simpl; intros; rewrite ?of_kind_snoc, ?for_event_snoc, ?decide_True, ?decide_False, ?app_nil_r
        by first [done|congruence|intros [? ?]; congruence]; [by apply insert_one|apply Hq|apply He].
  - destruct (queries g !! message_type r) as [x|] eqn:Hx.
    + assert (¬ acceptable (regs ++ [r])); [|by destruct (message_type_for (Some (message_type r)))].
      rewrite acceptable_snoc. intros (_ & _ & _ & Hn & _). specialize (Hn Hk). rewrite <- lookup_none in Hn by done. congruence.
    + assert (acceptable (regs ++ [r])) by (rewrite acceptable_snoc; split_and!; try done;
        intros Hk'; first [congruence|by rewrite <- lookup_none]). split; [|done].
      split_and!; simpl; intros; rewrite ?of_kind_snoc, ?for_event_snoc, ?decide_True, ?decide_False, ?app_nil_r
        by first [done|congruence|intros [? ?]; congruence]; [apply Hc|by apply insert_one|apply He].
  - fold (event_handlers g (message_type r)). rewrite He.
    destruct (existsb _ _) eqn:Hx; simpl.
    + apply existsb_target in Hx. intros (_ & _ & _ & _ & Hn)%acceptable_snoc. by apply Hn.
    + assert (acceptable (regs ++ [r])).
      { rewrite acceptable_snoc. split_and!; try done; try (intros; congruence). intros _ Hin%existsb_target. congruence. }
      split; [|done]. split_and!; simpl; intros; rewrite ?of_kind_snoc, ?decide_False, ?app_nil_r by congruence;
        [apply Hc|apply Hq|]. rewrite for_event_snoc. unfold event_handlers. simpl.
      destruct (decide (message_type r = t)) as [<-|Hne].
      * by rewrite lookup_insert_eq, decide_True.
      * rewrite lookup_insert_ne, decide_False, app_nil_r by first [done|intros [? ?]; congruence]. apply He.
Qed.

Lemma build_step l regs g :
  holds regs g → acceptable regs →
  match rfold add_registration g l with
  | Ok g' => holds (regs ++ l) g' ∧ acceptable (regs ++ l)
  | Err _ => ¬ acceptable (regs ++ l)
  end.
Proof.
  revert regs g. induction l as [|r l IH]; intros regs g Hh Ha; simpl; [by rewrite app_nil_r|].
  pose proof (add_registration_step regs g r Hh Ha) as Hs. rewrite (app_assoc regs [r] l : _ ++ r :: l = _).
  destruct (add_registration g r) as [g'|e]; simpl; [apply IH; apply Hs|]. intros Hn. by apply Hs, (acceptable_app _ l).
Qed.

Lemma holds_empty : holds [] HandlerRegistry_empty.
Proof. split_and!; intros; unfold event_handlers; simpl; rewrite ?lookup_empty; try done; set_solver. Qed.

Lemma acceptable_nil : acceptable [].
Proof. split_and!; try (intros; constructor); set_solver. Qed.

Lemma build_registry regs :
  match HandlerRegistry_build regs with
  | Ok g => holds regs g ∧ acceptable regs
  | Err _ => ¬ acceptable regs
  end.
Proof. apply (build_step regs [] _ holds_empty acceptable_nil). Qed.
End registry.
