(* ===== verification/CqDispatch.v ===== *)
(** * CQRS: dispatch and buses

    [context.py], [provider.py], [dispatch.py] and [buses.py] of
    [tori_py_cqrs_core]. Handlers and their providers are the classes
    [HandlerCode] and [HandlerProvider]; they run on the dispatcher's state, so
    that they see which commands are being handled. *)

From Stdlib Require Import ZArith Lia.
From stdpp Require Import base tactics list gmap strings.
From S2P Require Import Prelude CqMessages CqRegistry.
Local Open Scope Z_scope.

Class HandlerCode (A : Type) := {
  (** the call of a function handler or of [handle]: whether it gave an
      awaitable *)
  call_handler : HandlerStyle → target → message → M A cq_error bool;
  (** awaiting it; [None] is Python's [None] *)
  await_handler : HandlerStyle → target → message → M A cq_error (option pyobj);
  (** a class or factory called without arguments, its result awaited if it can
      be *)
  call_target : target → M A cq_error target
}.

(** What [provide] returns, as a context manager; the exit tells whether it
    suppresses the error. *)
Class HandlerProvider (A : Type) := {
  provide_enter : RegisteredHandler → Envelope → M A cq_error target;
  provide_exit : RegisteredHandler → option cq_error → M A cq_error bool
}.

(** [except Exception] *)
Definition except_exception {S B} (m : M S cq_error B) (h : cq_error → M S cq_error B) : M S cq_error B :=
  try_except m (λ e, if cq_is_exception e then h e else raise e).

(** ** The default provider *)

Section provider.
Context `{Inspection} {A : Type} `{HandlerCode A}.

Definition _resolve (r : RegisteredHandler) : M A cq_error target :=
  match target_mode r with
  | MODE_INSTANCE | MODE_FUNCTION => mret (rh_target r)
  | _ =>
      throw_if (negb (callable (rh_target r))) InvalidHandlerRegistrationError;;
      except_exception (call_target (rh_target r)) (λ _, raise InvalidHandlerRegistrationError)
  end.

Definition DefaultHandlerProvider : HandlerProvider A :=
  {| provide_enter r _ := _resolve r; provide_exit _ _ := mret false |}.
End provider.

(** ** The dispatcher *)

(** The buses a handler can use, once they are bound. *)
Record BusHandles := { command_bus : option Z; query_bus : option Z; event_bus : option Z }.

Definition BusHandles_context (h : BusHandles) : result cq_error (Z * Z * Z) :=
  match command_bus h, query_bus h, event_bus h with
  | Some c, Some q, Some e => Ok (c, q, e)
  | _, _, _ => Err InvalidLifecycleTransitionError
  end.

(** The frames of commands being handled are shared by all tasks; a context
    names the frames a task runs in. *)
Record dispatch_state (A : Type) := {
  ds_env : A;
  frames : list (Z * bool);
  _command_invocations : list nat
}.
Arguments ds_env {A}.
Arguments frames {A}.
Arguments _command_invocations {A}.

Section dispatcher.
Context `{Inspection} {A : Type} `{HandlerCode (dispatch_state A), HandlerProvider (dispatch_state A)}.
Context (_registry : HandlerRegistry) (_bus_handles : BusHandles).

Abbreviation D := (M (dispatch_state A) cq_error).

Definition is_command_bus_active (bus : Z) (s : dispatch_state A) : bool :=
  existsb (λ i, match frames s !! i with
                | Some (b, active) => active && (b =? bus)
                | None => false
                end) (_command_invocations s).

(** [with _command_invocation(bus): m] *)
Definition _command_invocation {B} (bus : Z) (m : D B) : D B :=
  s ← get;
  let i := length (frames s) in
  modify (λ s, {| ds_env := ds_env s; frames := frames s ++ [(bus, true)];
                  _command_invocations := _command_invocations s ++ [i] |});;
  let leave : D unit :=
    modify (λ s', {| ds_env := ds_env s'; frames := <[i := (bus, false)]> (frames s');
                     _command_invocations := _command_invocations s |}) in
  r ← try_except (r ← m; mret (Ok r)) (λ e, mret (Err e));
  leave;;
  lift r.

(** [async with] around the call of a handler. *)
Definition with_handler (r : RegisteredHandler) (e : Envelope) (body : target → D (option pyobj))
    : D (option pyobj) :=
  handler ← provide_enter r e;
  result ← try_except (v ← body handler; mret (Ok v)) (λ x, mret (Err x));
  match result with
  | Ok v => provide_exit r None;; mret v
  | Err x => suppressed ← provide_exit r (Some x); if suppressed : bool then mret None else raise x
  end.

Definition _invoke (r : RegisteredHandler) (e : Envelope) : D (option pyobj) :=
  lift (BusHandles_context _bus_handles);;
  with_handler r e (λ handler,
    throw_if (bool_decide (style r = STYLE_CLASS) &&
              negb (default false (handle_callable <$> handle_of handler))) InvalidHandlerRegistrationError;;
    awaitable ← call_handler (style r) handler (env_message e);
    throw_if (negb awaitable) InvalidHandlerRegistrationError;;
    await_handler (style r) handler (env_message e)).

Definition _validate_request_category (e : Envelope) (k : HandlerKind) : result cq_error unit :=
  _ ← raise_if (bool_decide (k = COMMAND) && negb (isinstance (env_message e) TCommand)) EnvelopeValidationError;
  _ ← raise_if (bool_decide (k = QUERY) && negb (isinstance (env_message e) TQuery)) EnvelopeValidationError;
  raise_if (bool_decide (k = EVENT)) EnvelopeValidationError.

(** The lookup of the handler and its call. *)
Definition handle_request (e : Envelope) (k : HandlerKind) (bus : option Z) : D (option pyobj) :=
  r ← lift (request_handler _registry k (msg_type (env_message e)));
  match k, bus with
  | COMMAND, Some b => _command_invocation b (_invoke r e)
  | _, _ => _invoke r e
  end.

Definition dispatch_request (uuid4 : uuid) (e : Envelope) (k : HandlerKind) (bus : option Z) : D ReplyEnvelope :=
  match correlation_id e with
  | None => raise EnvelopeValidationError
  | Some c =>
      lift (_validate_request_category e k);;
      r ← except_exception (v ← handle_request e k bus; mret (Ok v)) (λ x, mret (Err x));
      match r with
      | Ok v => lift (ReplyEnvelope_new (PyUUID uuid4) (PyUUID c) v None)
      | Err x => lift (ReplyEnvelope_new (PyUUID uuid4) (PyUUID c) None (Some x))
      end
  end.

Fixpoint invoke_all (rs : list RegisteredHandler) (e : Envelope) : D unit :=
  match rs with
  | [] => mret tt
  | r :: rs => _invoke r e;; invoke_all rs e
  end.

Definition dispatch_event (e : Envelope) : D unit :=
  throw_if (negb (isinstance (env_message e) TEvent)) EnvelopeValidationError;;
  invoke_all (event_handlers _registry (msg_type (env_message e))) e.

(** The handlers to call, each in its own task. *)
Definition event_invocations (e : Envelope) : result cq_error (list RegisteredHandler) :=
  _ ← raise_if (negb (isinstance (env_message e) TEvent)) EnvelopeValidationError;
  Ok (event_handlers _registry (msg_type (env_message e))).
End dispatcher.

(** ** The lifecycle of a bus

    Its sections under the lock. *)

Inductive _BusState := BUS_NEW | BUS_STARTING | BUS_RUNNING | BUS_STOPPING | BUS_STOPPED.
#[export] Instance _BusState_eq_dec : EqDecision _BusState.
Proof. solve_decision. Defined.

Record _BusLifecycle := { bus_state : _BusState; _startup_complete : bool; bus_shutdown_complete : bool }.

Definition _BusLifecycle_new : _BusLifecycle :=
  {| bus_state := BUS_NEW; _startup_complete := false; bus_shutdown_complete := false |}.

Abbreviation L := (M _BusLifecycle cq_error).

Definition bus_start_begin : L unit :=
  b ← get;
  throw_if (bool_decide (bus_state b ≠ BUS_NEW)) InvalidLifecycleTransitionError;;
  modify (λ b, {| bus_state := BUS_STARTING; _startup_complete := _startup_complete b;
                  bus_shutdown_complete := bus_shutdown_complete b |}).

(** The start of the transport raised. *)
Definition bus_start_failed : L unit :=
  modify (λ b, {| bus_state := if decide (bus_state b = BUS_STARTING) then BUS_NEW else bus_state b;
                  _startup_complete := true; bus_shutdown_complete := bus_shutdown_complete b |}).

(** It returned; whether the bus was stopped meanwhile. *)
Definition bus_start_end : L bool :=
  b ← get;
  let stopped_during_start := bool_decide (bus_state b ≠ BUS_STARTING) in
  modify (λ b, {| bus_state := if stopped_during_start then bus_state b else BUS_RUNNING;
                  _startup_complete := true; bus_shutdown_complete := bus_shutdown_complete b |});;
  mret stopped_during_start.

Definition require_running : L unit :=
  b ← get;
  match bus_state b with
  | BUS_NEW => raise TransportNotStartedError
  | BUS_STOPPED => raise TransportStoppedError
  | BUS_STARTING | BUS_STOPPING => raise InvalidLifecycleTransitionError
  | BUS_RUNNING => mret tt
  end.

(** Nothing to do, another shutdown to wait for, or one to run, with a start to
    wait for or not. *)
Inductive bus_shutdown_action := BusStopped | BusWait | BusShutdown (wait_for_start : bool).

Definition bus_shutdown_begin : L bus_shutdown_action :=
  b ← get;
  let stopping (a : bus_shutdown_action) : L bus_shutdown_action :=
    modify (λ b, {| bus_state := BUS_STOPPING; _startup_complete := _startup_complete b;
                    bus_shutdown_complete := bus_shutdown_complete b |});; mret a in
  match bus_state b with
  | BUS_STOPPED => mret BusStopped
  | BUS_NEW => stopping (BusShutdown false)
  | BUS_STOPPING => mret BusWait
  | s => stopping (BusShutdown (bool_decide (s = BUS_STARTING)))
  end.

Definition bus_shutdown_end : L unit :=
  modify (λ b, {| bus_state := BUS_STOPPED; _startup_complete := _startup_complete b; bus_shutdown_complete := true |}).

(** ** Executing *)

Section buses.
Context `{Inspection} {A : Type}.

(** Fresh identifiers and the time, when an envelope is made. *)
Definition _envelope_for (message_id delivery_id : uuid) (correlation : option uuid) (now : datetime) (m : message)
    : result cq_error Envelope :=
  d ← DeliveryMetadata_new (PyUUID delivery_id) (PyDatetime now) (PyInt 1);
  t ← message_type_for (Some (msg_type m));
  Envelope_new (Some m) t (PyUUID message_id) (match correlation with Some c => PyUUID c | None => PyNone end) PyNone
    (Some []) d.

(** [execute] up to the transport's [request]; [None] is an object that is no
    message. *)
Definition execute_begin (k : HandlerKind) (active : bool) (message_id delivery_id correlation : uuid) (now : datetime)
    (m : option message) : L Envelope :=
  match m with
  | None => raise EnvelopeValidationError
  | Some m =>
      throw_if (negb (isinstance m (expected_base k))) EnvelopeValidationError;;
      throw_if (bool_decide (k = COMMAND) && active) NestedCommandDispatchError;;
      require_running;;
      lift (_envelope_for message_id delivery_id (Some correlation) now m)
  end.

(** [execute] after it. *)
Definition execute_end (correlation : uuid) (reply : ReplyEnvelope) : result cq_error (option pyobj) :=
  _ ← raise_if (negb (bool_decide (reply_correlation_id reply = correlation)))
        (InvalidReplyCorrelationError correlation (reply_correlation_id reply));
  match reply_error reply with
  | Some e => Err e
  | None => Ok (reply_result reply)
  end.

Definition publish_begin (message_id delivery_id : uuid) (now : datetime) (m : option message) : L Envelope :=
  match m with
  | None => raise EnvelopeValidationError
  | Some m =>
      throw_if (negb (isinstance m TEvent)) EnvelopeValidationError;;
      require_running;;
      lift (_envelope_for message_id delivery_id None now m)
  end.
End buses.

(** ** The event bus: handler tasks *)

Record EventHandlerFailure := { failure_error : cq_error; failure_envelope : Envelope; failure_handler : RegisteredHandler }.

Inductive event_task :=
| HandlerTask (envelope : Envelope) (handler : RegisteredHandler) (generation : Z)
| ObserverTask (failure : EventHandlerFailure) (generation : Z).

Definition task_generation (t : event_task) : Z :=
  match t with HandlerTask _ _ g | ObserverTask _ g => g end.

Record EventBus := { _event_tasks : gmap Z event_task; _event_generation : Z; next_task : Z }.

Definition EventBus_new : EventBus := {| _event_tasks := ∅; _event_generation := 0; next_task := 0 |}.

Inductive task_outcome := TaskReturned | TaskCancelled | TaskRaised (e : cq_error).

Section event_bus.
Context `{Inspection}.
Context (_registry : HandlerRegistry).

Definition add_task (t : event_task) (b : EventBus) : EventBus :=
  {| _event_tasks := <[next_task b := t]> (_event_tasks b); _event_generation := _event_generation b;
     next_task := next_task b + 1 |}.
Definition remove_task (i : Z) (b : EventBus) : EventBus :=
  {| _event_tasks := delete i (_event_tasks b); _event_generation := _event_generation b; next_task := next_task b |}.

Definition _track_event_invocation (e : Envelope) (generation : Z) (r : RegisteredHandler) : M EventBus cq_error unit :=
  modify (add_task (HandlerTask e r generation)).

Definition _consume (e : Envelope) : M EventBus cq_error unit :=
  modify (λ b, {| _event_tasks := _event_tasks b; _event_generation := _event_generation b + 1; next_task := next_task b |});;
  b ← get;
  invocations ← lift (event_invocations _registry e);
  mfor (_track_event_invocation e (_event_generation b)) invocations.

(** The callbacks that run when a task is done. *)
Definition _event_task_done (i : Z) (o : task_outcome) : M EventBus cq_error unit :=
  b ← get;
  modify (remove_task i);;
  match _event_tasks b !! i, o with
  | Some (HandlerTask e r g), TaskRaised x =>
      modify (add_task (ObserverTask {| failure_error := x; failure_envelope := e; failure_handler := r |} g))
  | _, _ => mret tt
  end.

Definition _tasks_for_generations (generations : gset Z) (b : EventBus) : gmap Z event_task :=
  filter (λ p, task_generation p.2 ∈ generations) (_event_tasks b).

(** The generations that [_drain_event_tasks] waits for, and whether it is
    done. *)
Definition drain_generations (b : EventBus) : gset Z :=
  list_to_set ((λ p, task_generation p.2) <$> map_to_list (_event_tasks b)).

Definition drained_events (generations : gset Z) (b : EventBus) : bool :=
  bool_decide (_tasks_for_generations generations b = ∅).
End event_bus.
