(* ===== verification/CqDispatchFacts.v ===== *)
(** * CQRS: facts about dispatching a request *)

From Stdlib Require Import ZArith Lia.
From stdpp Require Import base tactics list gmap strings.
From S2P Require Import Prelude CqMessages CqRegistry CqDispatch.
Local Open Scope Z_scope.

Section dispatch.
Context `{Inspection} {A : Type} `{HandlerCode (dispatch_state A), HandlerProvider (dispatch_state A)}.

(** The handler of a command or query is the one registered for its class. *)
Lemma registered_request (regs : list RegisteredHandler) (g : HandlerRegistry) (k : HandlerKind) (t : pytype)
    (r : RegisteredHandler) :
  holds regs g → request_handler g k t = Ok r ↔ k ≠ EVENT ∧ r ∈ regs ∧ kind r = k ∧ message_type r = t.
Proof.
  intros (Hc & Hq & _). specialize (Hc t r). specialize (Hq t r).
  unfold of_kind in Hc, Hq. rewrite list_elem_of_filter in Hc, Hq. unfold request_handler.
  assert (∀ x : option RegisteredHandler,
    match x with Some r => Ok r | None => name ← message_type_for (Some t); Err (MissingHandlerError name) end = Ok r
    ↔ x = Some r) as Hx.
  { intros [x|]; [naive_solver|]. destruct (message_type_for (Some t)); r_simpl; naive_solver. }
  destruct k; r_simpl; [rewrite Hx, Hc|rewrite Hx, Hq|]; naive_solver.
Qed.

Lemma message_kind_ok (k : HandlerKind) (t : pytype) :
  _validate_message_kind k (Some t) = Ok t →
  issubclass t TMessage = true ∧ is_marker t = false ∧ issubclass t (expected_base k) = true.
Proof.
  unfold _validate_message_kind. intros Hv. apply result_bind_ok in Hv as ([] & Hx1%raise_if_ok & Hv).
  apply result_bind_ok in Hv as ([] & Hx2%raise_if_ok & Hv). apply result_bind_ok in Hv as ([] & Hx3%raise_if_ok & _).
  by rewrite negb_false_iff in Hx1, Hx3.
Qed.

Lemma category_ok (e : Envelope) (k : HandlerKind) :
  k ≠ EVENT → _validate_message_kind k (Some (msg_type (env_message e))) = Ok (msg_type (env_message e)) →
  _validate_request_category e k = Ok tt.
Proof.
  intros Hk (_ & _ & Hb)%message_kind_ok. unfold _validate_request_category, isinstance.
  destruct k; simpl in *; rewrite ?Hb; done.
Qed.

(** An envelope for a message of a registered class. *)
Lemma envelope_for_ok (mid did : uuid) (c : option uuid) (now : datetime) (m : message) (k : HandlerKind) :
  _validate_message_kind k (Some (msg_type m)) = Ok (msg_type m) → dt_aware now = true →
  ∃ e, _envelope_for mid did c now m = Ok e ∧ env_message e = m ∧ message_id e = mid ∧ correlation_id e = c.
Proof.
  intros (Hx1 & Hx2 & _)%message_kind_ok Hnow. unfold _envelope_for, DeliveryMetadata_new, Envelope_new, isinstance. simpl.
  rewrite Hnow, Hx1, Hx2. r_simpl. simpl. rewrite bool_decide_true by done. simpl. destruct c; simpl; eexists; done.
Qed.

Lemma execute_begin_ok (k : HandlerKind) (active : bool) (mid did c : uuid) (now : datetime) (m : message) (b : _BusLifecycle) :
  _validate_message_kind k (Some (msg_type m)) = Ok (msg_type m) → dt_aware now = true →
  bus_state b = BUS_RUNNING → (k = COMMAND → active = false) →
  ∃ e, execute_begin k active mid did c now (Some m) b = (Ok e, b) ∧ env_message e = m ∧ correlation_id e = Some c.
Proof.
  intros Hv Hnow Hb Ha. destruct (envelope_for_ok mid did (Some c) now m k Hv Hnow) as (e & He & Hm & _ & Hc).
  exists e. split; [|done]. destruct (message_kind_ok _ _ Hv) as (_ & _ & Hx3).
  unfold execute_begin, isinstance. rewrite Hx3. autorewrite with mrun. simpl.
  assert (bool_decide (k = COMMAND) && active = false) as -> by (case_bool_decide; [by rewrite Ha|done]).
  autorewrite with mrun. unfold require_running. autorewrite with mrun. rewrite Hb. autorewrite with mrun. by rewrite He.
Qed.

(** ** Replies *)

Definition reply_of (u c : uuid) (r : result cq_error (option pyobj)) : ReplyEnvelope :=
  match r with
  | Ok v => {| reply_id := u; reply_correlation_id := c; reply_result := v; reply_error := None |}
  | Err x => {| reply_id := u; reply_correlation_id := c; reply_result := None; reply_error := Some x |}
  end.

(** An [Exception] becomes a reply, any other error is raised. *)
Definition dispatch_reply (u c : uuid) (r : result cq_error (option pyobj)) : result cq_error ReplyEnvelope :=
  match r with
  | Err x => if cq_is_exception x then Ok (reply_of u c r) else Err x
  | Ok _ => Ok (reply_of u c r)
  end.

Lemma execute_end_reply (u c : uuid) (r : result cq_error (option pyobj)) : execute_end c (reply_of u c r) = r.
Proof. unfold execute_end. destruct r; simpl; by rewrite bool_decide_true. Qed.

(** ** What serving a message is

    The calls of the application's code, in order, and what they lead to. *)

Definition has_handle (r : RegisteredHandler) (h : target) : bool :=
  negb (bool_decide (style r = STYLE_CLASS)) || default false (handle_callable <$> handle_of h).

(** The handler is called with the message and what it gives is awaited. *)
Inductive handler_ran (r : RegisteredHandler) (h : target) (m : message) (s : dispatch_state A)
    : result cq_error (option pyobj) → dispatch_state A → Prop :=
| ran_without_handle : has_handle r h = false → handler_ran r h m s (Err InvalidHandlerRegistrationError) s
| ran_call_raised x s1 :
    has_handle r h = true → call_handler (style r) h m s = (Err x, s1) → handler_ran r h m s (Err x) s1
| ran_not_awaitable s1 :
    has_handle r h = true → call_handler (style r) h m s = (Ok false, s1) →
    handler_ran r h m s (Err InvalidHandlerRegistrationError) s1
| ran_awaited outcome s1 s2 :
    has_handle r h = true → call_handler (style r) h m s = (Ok true, s1) →
    await_handler (style r) h m s1 = (outcome, s2) → handler_ran r h m s outcome s2.

(** The provider gives the handler and is told how the call ended; it may
    suppress an error. *)
Inductive served (bh : BusHandles) (r : RegisteredHandler) (e : Envelope) (s : dispatch_state A)
    : result cq_error (option pyobj) → dispatch_state A → Prop :=
| served_unbound x : BusHandles_context bh = Err x → served bh r e s (Err x) s
| served_unprovided x s1 :
    is_ok (BusHandles_context bh) = true → provide_enter r e s = (Err x, s1) → served bh r e s (Err x) s1
| served_returned h v s1 s2 ended s3 :
    is_ok (BusHandles_context bh) = true → provide_enter r e s = (Ok h, s1) →
    handler_ran r h (env_message e) s1 (Ok v) s2 → provide_exit r None s2 = (ended, s3) →
    served bh r e s (match ended with Ok _ => Ok v | Err x => Err x end) s3
| served_raised h x s1 s2 ended s3 :
    is_ok (BusHandles_context bh) = true → provide_enter r e s = (Ok h, s1) →
    handler_ran r h (env_message e) s1 (Err x) s2 → provide_exit r (Some x) s2 = (ended, s3) →
    served bh r e s (match ended with Ok true => Ok None | Ok false => Err x | Err y => Err y end) s3.

Lemma call_ran (r : RegisteredHandler) (h : target) (m : message) (s : dispatch_state A) :
  let run := (throw_if (bool_decide (style r = STYLE_CLASS) &&
                        negb (default false (handle_callable <$> handle_of h))) InvalidHandlerRegistrationError;;
              awaitable ← call_handler (style r) h m;
              throw_if (negb awaitable) InvalidHandlerRegistrationError;;
              await_handler (style r) h m) s in
  handler_ran r h m s run.1 run.2.
Proof.
  simpl. rewrite run_bind_throw.
  assert (bool_decide (style r = STYLE_CLASS) && negb (default false (handle_callable <$> handle_of h)) =
          negb (has_handle r h)) as ->.
  { unfold has_handle. by destruct (bool_decide _), (default _ _). }
  destruct (has_handle r h) eqn:Hh; simpl; [|by constructor].
  destruct (call_handler (style r) h m s) as [[[]|x] s1] eqn:Hc.
  - rewrite (M_bind_run _ _ _ _ _ Hc), run_bind_throw. simpl. eapply ran_awaited; [done..|apply surjective_pairing].
  - rewrite (M_bind_run _ _ _ _ _ Hc), run_bind_throw. by apply ran_not_awaitable.
  - rewrite (M_bind_eq _ _ _ _ _ Hc). by apply ran_call_raised.
Qed.

Lemma invoke_served (bh : BusHandles) (r : RegisteredHandler) (e : Envelope) (s : dispatch_state A) :
  served bh r e s (_invoke bh r e s).1 (_invoke bh r e s).2.
Proof.
  unfold _invoke. rewrite run_bind_lift. destruct (BusHandles_context bh) as [c|x] eqn:Hb; [|by constructor].
  assert (is_ok (BusHandles_context bh) = true) as Hok by (by rewrite Hb).
  unfold with_handler. destruct (provide_enter r e s) as [[h|x] s1] eqn:Hp;
    [|rewrite (M_bind_eq _ _ _ _ _ Hp); by apply served_unprovided].
  rewrite (M_bind_run _ _ _ _ _ Hp). pose proof (call_ran r h (env_message e) s1) as Hran. simpl in Hran.
  set (run := (throw_if _ _;; _) : M (dispatch_state A) cq_error (option pyobj)) in *.
  unfold try_except, mbind, M_bind in Hran |- *. destruct (run s1) as [[v|x] s2]; simpl in *.
  - destruct (provide_exit r None s2) as [ended s3] eqn:Hx.
    pose proof (served_returned bh r e s h v s1 s2 ended s3 Hok Hp Hran Hx) as Hs. by destruct ended.
  - destruct (provide_exit r (Some x) s2) as [ended s3] eqn:Hx.
    pose proof (served_raised bh r e s h x s1 s2 ended s3 Hok Hp Hran Hx) as Hs. by destruct ended as [[]|].
Qed.

(** ** The frames of commands *)

Definition in_context (s : dispatch_state A) (ctx : list nat) : dispatch_state A :=
  {| ds_env := ds_env s; frames := frames s; _command_invocations := ctx |}.

(** The state a command of [bus] is handled in, and what is left of it. *)
Definition entered (bus : Z) (s : dispatch_state A) : dispatch_state A :=
  {| ds_env := ds_env s; frames := frames s ++ [(bus, true)];
     _command_invocations := _command_invocations s ++ [length (frames s)] |}.
Definition left_frame (bus : Z) (s s2 : dispatch_state A) : dispatch_state A :=
  {| ds_env := ds_env s2; frames := <[length (frames s) := (bus, false)]> (frames s2);
     _command_invocations := _command_invocations s |}.

Lemma entered_active (bus : Z) (s : dispatch_state A) : is_command_bus_active bus (entered bus s) = true.
Proof.
  unfold is_command_bus_active. simpl. rewrite existsb_app. simpl. rewrite lookup_app_r, Nat.sub_diag by lia. simpl.
  by rewrite Z.eqb_refl, orb_true_r.
Qed.

Lemma inactive_frames (s s' : dispatch_state A) (l : list (Z * bool)) ctx b :
  frames s' = frames s ++ l → Forall (λ f, f.2 = false) l →
  is_command_bus_active b (in_context s' ctx) = is_command_bus_active b (in_context s ctx).
Proof.
  intros Hf Hl. unfold is_command_bus_active. simpl. rewrite Hf.
  induction ctx as [|i ctx IH]; simpl; [done|]. rewrite IH. f_equal.
  destruct (decide (i < length (frames s))%nat) as [Hi|Hi]; [by rewrite lookup_app_l|].
  rewrite lookup_app_r, (lookup_ge_None_2 (frames s) i) by lia.
  destruct (l !! _) as [[b' a]|] eqn:Hli; [|done]. eapply Forall_lookup_1 in Hl; [|exact Hli]. simpl in Hl. by subst.
Qed.

Lemma left_inactive (bus : Z) (s s2 : dispatch_state A) (extra : list (Z * bool)) ctx b :
  frames s2 = frames (entered bus s) ++ extra → Forall (λ f, f.2 = false) extra →
  is_command_bus_active b (in_context (left_frame bus s s2) ctx) = is_command_bus_active b (in_context s ctx).
Proof.
  intros Hf Hl. apply (inactive_frames _ _ ((bus, false) :: extra)); [|by constructor]. simpl. rewrite Hf. simpl.
  by rewrite <- app_assoc, insert_app_r_alt, Nat.sub_diag by lia.
Qed.

Lemma command_invocation_run (bus : Z) {B} (m : M (dispatch_state A) cq_error B) (s : dispatch_state A) :
  _command_invocation bus m s = ((m (entered bus s)).1, left_frame bus s (m (entered bus s)).2).
Proof.
  unfold _command_invocation, mbind, M_bind, get, modify, try_except, lift, mret, M_ret. simpl.
  unfold entered. by destruct (m _) as [[v|x] s2].
Qed.

(** The bus whose command a request is, when it is one. *)
Definition command_of (k : HandlerKind) (bus : option Z) : option Z :=
  match k with COMMAND => bus | _ => None end.

Context (g : HandlerRegistry) (bh : BusHandles).

Lemma handle_request_run (e : Envelope) (k : HandlerKind) (bus : option Z) (r : RegisteredHandler) (s : dispatch_state A) :
  request_handler g k (msg_type (env_message e)) = Ok r →
  handle_request g bh e k bus s =
    match command_of k bus with
    | Some b => ((_invoke bh r e (entered b s)).1, left_frame b s (_invoke bh r e (entered b s)).2)
    | None => _invoke bh r e s
    end.
Proof.
  intros Hr. unfold handle_request. rewrite Hr. autorewrite with mrun.
  destruct k, bus; simpl; by rewrite ?command_invocation_run.
Qed.

Lemma dispatch_run (u : uuid) (e : Envelope) (k : HandlerKind) (bus : option Z) (c : uuid) (s : dispatch_state A) :
  correlation_id e = Some c → _validate_request_category e k = Ok tt →
  dispatch_request g bh u e k bus s =
    (dispatch_reply u c (handle_request g bh e k bus s).1, (handle_request g bh e k bus s).2).
Proof.
  intros Hc Hcat. unfold dispatch_request. rewrite Hc, Hcat. autorewrite with mrun.
  unfold except_exception, try_except, mbind, M_bind.
  destruct (handle_request g bh e k bus s) as [[v|x] a]; simpl; [done|]. by destruct (cq_is_exception x).
Qed.
End dispatch.
