(* ===== verification/CqTransport.v ===== *)
(** * CQRS: the in-memory transport

    [inmemory.py] of [tori_py_cqrs_core]. Between two awaits a coroutine runs
    alone, so the transport is a transition system: each section of code between
    awaits is a function on the state, and [tstep] says which section may run
    when. What the consumer and the error handler do, how long they take, and
    when a caller gives up are arbitrary. The fields [accepted], [delivered],
    [dropped] and [lost] record what happened; the program keeps no such
    record. The worker's handler for an [Exception] of its own loop is left out:
    every [Exception] of the consumer and of the error handler is caught before
    it gets there. *)

From Stdlib Require Import ZArith Lia.
From stdpp Require Import base tactics list gmap strings.
From S2P Require Import Prelude CqMessages.
Local Open Scope Z_scope.

Inductive TransportState := NEW | STARTING | RUNNING | STOPPING | STOPPED.
#[export] Instance TransportState_eq_dec : EqDecision TransportState.
Proof. solve_decision. Defined.

(** A request carries the future its caller waits for. *)
Inductive queue_item :=
| _RequestItem (envelope : Envelope) (reply : Z)
| _PublishItem (envelope : Envelope).

Definition item_envelope (i : queue_item) : Envelope :=
  match i with _RequestItem e _ | _PublishItem e => e end.
Definition item_reply (i : queue_item) : option Z :=
  match i with _RequestItem _ f => Some f | _PublishItem _ => None end.

(** Where the worker task is: not run yet, before the loop's test, waiting for
    an item, in the consumer, or in the error handler. *)
Inductive worker_state :=
| NoWorker
| Created
| AtLoop
| Waiting
| Consuming (item : queue_item)
| Reporting (item : queue_item) (error : cq_error)
| Finished.

(** A call of [_enqueue] that waits for a slot, or has one. *)
Record submission := { sub_item : queue_item; sub_acquired : bool }.

(** Where the task that shuts down is: waiting for the queue to drain, or for
    the worker to end. *)
Inductive shutdown_state := NoShutdown | Draining | Joining | ShutdownDone.

Record transport := {
  max_queue_size : Z;
  has_error_handler : bool;
  _queue : list queue_item;
  _unfinished : Z;
  _capacity : Z;
  has_consumer : bool;
  _worker : worker_state;
  worker_cancelling : bool;
  _active_request : option queue_item;
  _stop_event : bool;
  _force_shutdown_event : bool;
  _shutdown_complete : bool;
  _state : TransportState;
  replies : gmap Z (option (result cq_error ReplyEnvelope));
  submissions : gmap Z submission;
  next_id : Z;
  shutdown_task : shutdown_state;
  accepted : list queue_item;
  delivered : list queue_item;
  dropped : list queue_item;
  lost : list queue_item
}.

Abbreviation T := (M transport cq_error).

Definition InMemoryTransport_new (max_queue_size : Z) (default_timeout : option Z) (error_handler : bool)
    : result cq_error transport :=
  _ ← raise_if (max_queue_size <? 1) CqrsValidationError;
  _ ← raise_if (match default_timeout with Some t => t <? 0 | None => false end) CqrsValidationError;
  Ok {| max_queue_size := max_queue_size; has_error_handler := error_handler; _queue := []; _unfinished := 0;
        _capacity := max_queue_size; has_consumer := false; _worker := NoWorker; worker_cancelling := false;
        _active_request := None; _stop_event := false; _force_shutdown_event := false;
        _shutdown_complete := false; _state := NEW; replies := ∅; submissions := ∅; next_id := 0;
        shutdown_task := NoShutdown; accepted := []; delivered := []; dropped := []; lost := [] |}.

(** ** Updates *)

Definition set_state (s : TransportState) (t : transport) : transport :=
  {| max_queue_size := max_queue_size t; has_error_handler := has_error_handler t; _queue := _queue t;
     _unfinished := _unfinished t; _capacity := _capacity t; has_consumer := has_consumer t; _worker := _worker t;
     worker_cancelling := worker_cancelling t; _active_request := _active_request t; _stop_event := _stop_event t;
     _force_shutdown_event := _force_shutdown_event t; _shutdown_complete := _shutdown_complete t; _state := s;
     replies := replies t; submissions := submissions t; next_id := next_id t; shutdown_task := shutdown_task t;
     accepted := accepted t; delivered := delivered t; dropped := dropped t; lost := lost t |}.
Definition set_worker (w : worker_state) (t : transport) : transport :=
  {| max_queue_size := max_queue_size t; has_error_handler := has_error_handler t; _queue := _queue t;
     _unfinished := _unfinished t; _capacity := _capacity t; has_consumer := has_consumer t; _worker := w;
     worker_cancelling := worker_cancelling t; _active_request := _active_request t; _stop_event := _stop_event t;
     _force_shutdown_event := _force_shutdown_event t; _shutdown_complete := _shutdown_complete t;
     _state := _state t; replies := replies t; submissions := submissions t; next_id := next_id t;
     shutdown_task := shutdown_task t; accepted := accepted t; delivered := delivered t; dropped := dropped t;
     lost := lost t |}.
Definition set_events (stop force complete : bool) (t : transport) : transport :=
  {| max_queue_size := max_queue_size t; has_error_handler := has_error_handler t; _queue := _queue t;
     _unfinished := _unfinished t; _capacity := _capacity t; has_consumer := has_consumer t; _worker := _worker t;
     worker_cancelling := worker_cancelling t; _active_request := _active_request t;
     _stop_event := stop || _stop_event t; _force_shutdown_event := force || _force_shutdown_event t;
     _shutdown_complete := complete || _shutdown_complete t; _state := _state t; replies := replies t;
     submissions := submissions t; next_id := next_id t; shutdown_task := shutdown_task t;
     accepted := accepted t; delivered := delivered t; dropped := dropped t; lost := lost t |}.
Definition set_consumer (t : transport) : transport :=
  {| max_queue_size := max_queue_size t; has_error_handler := has_error_handler t; _queue := _queue t;
     _unfinished := _unfinished t; _capacity := _capacity t; has_consumer := true; _worker := _worker t;
     worker_cancelling := worker_cancelling t; _active_request := _active_request t; _stop_event := _stop_event t;
     _force_shutdown_event := _force_shutdown_event t; _shutdown_complete := _shutdown_complete t;
     _state := _state t; replies := replies t; submissions := submissions t; next_id := next_id t;
     shutdown_task := shutdown_task t; accepted := accepted t; delivered := delivered t; dropped := dropped t;
     lost := lost t |}.
Definition set_shutdown (s : shutdown_state) (t : transport) : transport :=
  {| max_queue_size := max_queue_size t; has_error_handler := has_error_handler t; _queue := _queue t;
     _unfinished := _unfinished t; _capacity := _capacity t; has_consumer := has_consumer t; _worker := _worker t;
     worker_cancelling := worker_cancelling t; _active_request := _active_request t; _stop_event := _stop_event t;
     _force_shutdown_event := _force_shutdown_event t; _shutdown_complete := _shutdown_complete t;
     _state := _state t; replies := replies t; submissions := submissions t; next_id := next_id t;
     shutdown_task := s; accepted := accepted t; delivered := delivered t; dropped := dropped t; lost := lost t |}.
(** [worker.cancel()], unless the task is done *)
Definition cancel_worker (t : transport) : transport :=
  {| max_queue_size := max_queue_size t; has_error_handler := has_error_handler t; _queue := _queue t;
     _unfinished := _unfinished t; _capacity := _capacity t; has_consumer := has_consumer t; _worker := _worker t;
     worker_cancelling := match _worker t with NoWorker | Finished => worker_cancelling t | _ => true end;
     _active_request := _active_request t; _stop_event := _stop_event t;
     _force_shutdown_event := _force_shutdown_event t; _shutdown_complete := _shutdown_complete t;
     _state := _state t; replies := replies t; submissions := submissions t; next_id := next_id t;
     shutdown_task := shutdown_task t; accepted := accepted t; delivered := delivered t; dropped := dropped t;
     lost := lost t |}.
(** [self._capacity.release()] *)
Definition release (t : transport) : transport :=
  {| max_queue_size := max_queue_size t; has_error_handler := has_error_handler t; _queue := _queue t;
     _unfinished := _unfinished t; _capacity := _capacity t + 1; has_consumer := has_consumer t;
     _worker := _worker t; worker_cancelling := worker_cancelling t; _active_request := _active_request t;
     _stop_event := _stop_event t; _force_shutdown_event := _force_shutdown_event t;
     _shutdown_complete := _shutdown_complete t; _state := _state t; replies := replies t;
     submissions := submissions t; next_id := next_id t; shutdown_task := shutdown_task t;
     accepted := accepted t; delivered := delivered t; dropped := dropped t; lost := lost t |}.
Definition set_replies (f : gmap Z (option (result cq_error ReplyEnvelope)) → gmap Z (option (result cq_error ReplyEnvelope)))
    (t : transport) : transport :=
  {| max_queue_size := max_queue_size t; has_error_handler := has_error_handler t; _queue := _queue t;
     _unfinished := _unfinished t; _capacity := _capacity t; has_consumer := has_consumer t; _worker := _worker t;
     worker_cancelling := worker_cancelling t; _active_request := _active_request t; _stop_event := _stop_event t;
     _force_shutdown_event := _force_shutdown_event t; _shutdown_complete := _shutdown_complete t;
     _state := _state t; replies := f (replies t); submissions := submissions t; next_id := next_id t;
     shutdown_task := shutdown_task t; accepted := accepted t; delivered := delivered t; dropped := dropped t;
     lost := lost t |}.
Definition set_submissions (f : gmap Z submission → gmap Z submission) (n : Z) (t : transport) : transport :=
  {| max_queue_size := max_queue_size t; has_error_handler := has_error_handler t; _queue := _queue t;
     _unfinished := _unfinished t; _capacity := _capacity t; has_consumer := has_consumer t; _worker := _worker t;
     worker_cancelling := worker_cancelling t; _active_request := _active_request t; _stop_event := _stop_event t;
     _force_shutdown_event := _force_shutdown_event t; _shutdown_complete := _shutdown_complete t;
     _state := _state t; replies := replies t; submissions := f (submissions t); next_id := n;
     shutdown_task := shutdown_task t; accepted := accepted t; delivered := delivered t; dropped := dropped t;
     lost := lost t |}.

(** [if not future.done(): ...] *)
Definition complete (f : option Z) (r : result cq_error ReplyEnvelope) : transport → transport :=
  set_replies (λ m, match f with Some f => alter (λ o, match o with None => Some r | Some _ => o end) f m | None => m end).

Definition _set_future_error (f : option Z) (e : cq_error) : transport → transport := complete f (Err e).

(** ** Submitting *)

Definition _require_running : T unit :=
  t ← get;
  match _state t with
  | NEW => raise TransportNotStartedError
  | STOPPED => raise TransportStoppedError
  | RUNNING => mret tt
  | _ => raise InvalidLifecycleTransitionError
  end.

Definition _raise_submission_error {B} : T B :=
  t ← get;
  if bool_decide (_state t = STOPPED) then raise TransportStoppedError else raise InvalidLifecycleTransitionError.

(** The call of [_enqueue] begins: the task that acquires a slot is created. *)
Definition enqueue_begin (make : Z → queue_item) : T Z :=
  t ← get;
  let i := next_id t in
  modify (set_submissions <[i := {| sub_item := make i; sub_acquired := false |}]> (i + 1));;
  mret i.

Definition request (e : Envelope) : T Z :=
  _require_running;;
  throw_if (bool_decide (correlation_id e = None)) EnvelopeValidationError;;
  t ← get;
  modify (set_replies <[next_id t := None]>);;
  enqueue_begin (_RequestItem e).

Definition publish (e : Envelope) : T Z :=
  _require_running;;
  enqueue_begin (λ _, _PublishItem e).

Definition receipt (e : Envelope) : DeliveryReceipt :=
  {| rc_message_id := message_id e; rc_delivery_id := delivery_id (delivery e);
     rc_enqueued_at := enqueued_at (delivery e) |}.

(** [self._capacity.acquire()] *)
Definition acquire (i : Z) (s : submission) (t : transport) : transport :=
  {| max_queue_size := max_queue_size t; has_error_handler := has_error_handler t; _queue := _queue t;
     _unfinished := _unfinished t; _capacity := _capacity t - 1; has_consumer := has_consumer t;
     _worker := _worker t; worker_cancelling := worker_cancelling t; _active_request := _active_request t;
     _stop_event := _stop_event t; _force_shutdown_event := _force_shutdown_event t;
     _shutdown_complete := _shutdown_complete t; _state := _state t; replies := replies t;
     submissions := <[i := {| sub_item := sub_item s; sub_acquired := true |}]> (submissions t);
     next_id := next_id t; shutdown_task := shutdown_task t; accepted := accepted t; delivered := delivered t;
     dropped := dropped t; lost := lost t |}.

Definition put_item (item : queue_item) (t : transport) : transport :=
  {| max_queue_size := max_queue_size t; has_error_handler := has_error_handler t; _queue := _queue t ++ [item];
     _unfinished := _unfinished t + 1; _capacity := _capacity t; has_consumer := has_consumer t;
     _worker := _worker t; worker_cancelling := worker_cancelling t; _active_request := _active_request t;
     _stop_event := _stop_event t; _force_shutdown_event := _force_shutdown_event t;
     _shutdown_complete := _shutdown_complete t; _state := _state t; replies := replies t;
     submissions := submissions t; next_id := next_id t; shutdown_task := shutdown_task t;
     accepted := accepted t ++ [item]; delivered := delivered t; dropped := dropped t; lost := lost t |}.

(** [self._queue.put_nowait(item)] *)
Definition put_nowait (item : queue_item) : T bool :=
  t ← get;
  if max_queue_size t <=? zlen (_queue t) then mret false
  else modify (put_item item);; mret true.

Definition drop_submission (i : Z) : T unit :=
  modify (λ t, set_submissions (delete i) (next_id t) t).

(** [_enqueue] goes on with a slot, under the lock. *)
Definition enqueue_locked (i : Z) (s : submission) : T unit :=
  drop_submission i;;
  t ← get;
  if bool_decide (_state t ≠ RUNNING) then modify release;; _raise_submission_error
  else
    queued ← put_nowait (sub_item s);
    if queued : bool then mret tt else modify release;; raise QueueCapacityError.

(** [_enqueue] ends without its item: no slot in time, the transport stops, or
    the caller is cancelled. *)
Definition enqueue_abandoned (i : Z) (s : submission) (e : cq_error) : T unit :=
  drop_submission i;;
  (if sub_acquired s then modify release else mret tt);;
  raise e.

(** What a caller of [request] gets at the end of its wait. *)
Definition request_result (e : Envelope) (c : uuid) (f : Z) : T ReplyEnvelope :=
  t ← get;
  match replies t !! f with
  | Some (Some r) => lift r
  | _ => raise (RequestTimeoutError (message_id e) c)
  end.

(** ** The worker *)

Definition set_active (a : option queue_item) (t : transport) : transport :=
  {| max_queue_size := max_queue_size t; has_error_handler := has_error_handler t; _queue := _queue t;
     _unfinished := _unfinished t; _capacity := _capacity t; has_consumer := has_consumer t; _worker := _worker t;
     worker_cancelling := worker_cancelling t; _active_request := a; _stop_event := _stop_event t;
     _force_shutdown_event := _force_shutdown_event t; _shutdown_complete := _shutdown_complete t;
     _state := _state t; replies := replies t; submissions := submissions t; next_id := next_id t;
     shutdown_task := shutdown_task t; accepted := accepted t; delivered := delivered t; dropped := dropped t;
     lost := lost t |}.

Definition task_done (t : transport) : transport :=
  {| max_queue_size := max_queue_size t; has_error_handler := has_error_handler t; _queue := _queue t;
     _unfinished := _unfinished t - 1; _capacity := _capacity t; has_consumer := has_consumer t;
     _worker := _worker t; worker_cancelling := worker_cancelling t; _active_request := _active_request t;
     _stop_event := _stop_event t; _force_shutdown_event := _force_shutdown_event t;
     _shutdown_complete := _shutdown_complete t; _state := _state t; replies := replies t;
     submissions := submissions t; next_id := next_id t; shutdown_task := shutdown_task t;
     accepted := accepted t; delivered := delivered t; dropped := dropped t; lost := lost t |}.

Definition deliver (item : queue_item) (q : list queue_item) (t : transport) : transport :=
  {| max_queue_size := max_queue_size t; has_error_handler := has_error_handler t; _queue := q;
     _unfinished := _unfinished t; _capacity := _capacity t; has_consumer := has_consumer t; _worker := _worker t;
     worker_cancelling := worker_cancelling t; _active_request := _active_request t; _stop_event := _stop_event t;
     _force_shutdown_event := _force_shutdown_event t; _shutdown_complete := _shutdown_complete t;
     _state := _state t; replies := replies t; submissions := submissions t; next_id := next_id t;
     shutdown_task := shutdown_task t; accepted := accepted t; delivered := delivered t ++ [item];
     dropped := dropped t; lost := lost t |}.

Definition lose (item : queue_item) (t : transport) : transport :=
  {| max_queue_size := max_queue_size t; has_error_handler := has_error_handler t; _queue := _queue t;
     _unfinished := _unfinished t; _capacity := _capacity t; has_consumer := has_consumer t; _worker := _worker t;
     worker_cancelling := worker_cancelling t; _active_request := _active_request t; _stop_event := _stop_event t;
     _force_shutdown_event := _force_shutdown_event t; _shutdown_complete := _shutdown_complete t;
     _state := _state t; replies := replies t; submissions := submissions t; next_id := next_id t;
     shutdown_task := shutdown_task t; accepted := accepted t; delivered := delivered t; dropped := dropped t;
     lost := lost t ++ [item] |}.

(** The [finally] around one item; the worker goes on or ends. *)
Definition finish_item (next : worker_state) (t : transport) : transport :=
  set_worker next (task_done (set_active None t)).

(** The first part of [_process_request] and [_process_publish]. *)
Definition process_begin (item : queue_item) : T unit :=
  t ← get;
  match item with
  | _RequestItem e f =>
      modify (set_active (Some item));;
      if negb (has_consumer t) then
        modify (_set_future_error (Some f) TransportStoppedError);; modify (finish_item AtLoop)
      else if bool_decide (correlation_id e = None) then
        modify (_set_future_error (Some f) EnvelopeValidationError);; modify (finish_item AtLoop)
      else modify (set_worker (Consuming item))
  | _PublishItem _ =>
      if negb (has_consumer t) then modify (finish_item AtLoop) else modify (set_worker (Consuming item))
  end.

(** [await self._queue.get()] and what follows, or the wait in it. *)
Definition get_item : T unit :=
  t ← get;
  match _queue t with
  | [] => modify (set_worker Waiting)
  | item :: q => modify (deliver item q);; modify release;; process_begin item
  end.

Definition loop_top : T unit :=
  t ← get;
  if bool_decide (_state t = STOPPING ∨ _state t = STOPPED) && bool_decide (_queue t = [])
  then modify (set_worker Finished)
  else get_item.

(** A reply that carries the failure of a request. *)
Definition error_reply (reply_id : uuid) (c : uuid) (e : cq_error) : ReplyEnvelope :=
  {| reply_id := reply_id; reply_correlation_id := c; reply_result := None; reply_error := Some e |}.

(** The end of [_complete_request_error]. *)
Definition answer_error (uuid4 : uuid) (item : queue_item) (e : cq_error) : T unit :=
  (match item with
   | _RequestItem env f =>
       match correlation_id env with
       | Some c => modify (complete (Some f) (Ok (error_reply uuid4 c e)))
       | None => mret tt
       end
   | _PublishItem _ => mret tt
   end);;
  modify (finish_item AtLoop).

(** [_report_error]: nothing to wait for without an error handler. *)
Definition report_begin (uuid4 : uuid) (item : queue_item) (e : cq_error) : T unit :=
  t ← get;
  if has_error_handler t then modify (set_worker (Reporting item e)) else answer_error uuid4 item e.

(** The worker is cancelled in the middle of an item. *)
Definition cancelled_item (item : queue_item) : T unit :=
  modify (_set_future_error (item_reply item) TransportStoppedError);;
  modify (finish_item Finished).

(** The worker task ends with an error it does not handle. *)
Definition lost_item (item : queue_item) : T unit :=
  modify (lose item);; modify (finish_item Finished).

(** What the consumer returned or raised. *)
Inductive consumed := Returns (reply : option ReplyEnvelope) | Raises (error : cq_error).

Definition item_failed (uuid4 : uuid) (item : queue_item) (e : cq_error) : T unit :=
  t ← get;
  match e with
  | CqCancelledError => if worker_cancelling t then cancelled_item item else report_begin uuid4 item e
  | CqBaseException _ => lost_item item
  | _ => report_begin uuid4 item e
  end.

Definition process_end (uuid4 : uuid) (item : queue_item) (c : consumed) : T unit :=
  match item, c with
  | _, Raises e => item_failed uuid4 item e
  | _PublishItem _, Returns _ => modify (finish_item AtLoop)
  | _RequestItem _ _, Returns None => item_failed uuid4 item InvalidTransportReplyError
  | _RequestItem e f, Returns (Some reply) =>
      if bool_decide (correlation_id e = Some (reply_correlation_id reply)) then
        modify (complete (Some f) (Ok reply));; modify (finish_item AtLoop)
      else item_failed uuid4 item
             (InvalidReplyCorrelationError (default 0 (correlation_id e)) (reply_correlation_id reply))
  end.

(** What the error handler raised, if it did. *)
Definition report_end (uuid4 : uuid) (item : queue_item) (e : cq_error) (raised : option cq_error) : T unit :=
  t ← get;
  match raised with
  | Some CqCancelledError =>
      if worker_cancelling t then cancelled_item item else answer_error uuid4 item e
  | Some (CqBaseException _) => lost_item item
  | _ => answer_error uuid4 item e
  end.

(** ** Lifecycle *)

Definition drop_all (t : transport) : transport :=
  {| max_queue_size := max_queue_size t; has_error_handler := has_error_handler t; _queue := [];
     _unfinished := _unfinished t; _capacity := _capacity t; has_consumer := has_consumer t; _worker := _worker t;
     worker_cancelling := worker_cancelling t; _active_request := _active_request t; _stop_event := _stop_event t;
     _force_shutdown_event := _force_shutdown_event t; _shutdown_complete := _shutdown_complete t;
     _state := _state t; replies := replies t; submissions := submissions t; next_id := next_id t;
     shutdown_task := shutdown_task t; accepted := accepted t; delivered := delivered t;
     dropped := dropped t ++ _queue t; lost := lost t |}.

(** The loop of [_drain_pending] over the items it takes out. *)
Definition _drain_pending : T unit :=
  t ← get;
  modify drop_all;;
  mfor (λ item, modify release;; modify (_set_future_error (item_reply item) TransportStoppedError);;
                modify task_done) (_queue t).

Definition start_begin : T unit :=
  t ← get;
  throw_if (bool_decide (_state t ≠ NEW)) InvalidLifecycleTransitionError;;
  modify set_consumer;;
  modify (set_state STARTING);;
  modify (set_worker Created).

Definition start_ready : T unit :=
  t ← get;
  throw_if (bool_decide (_state t ≠ STARTING)) TransportStoppedError;;
  modify (set_state RUNNING).

Definition stopped : T unit :=
  _drain_pending;;
  modify (set_state STOPPED);;
  modify (set_events false false true).

(** The wait for the worker to be ready is cancelled. *)
Definition start_cancelled : T unit :=
  modify (set_events true false false);;
  modify cancel_worker;;
  stopped.

(** Whether there is a shutdown to run, or one to wait for. *)
Inductive shutdown_action := AlreadyStopped | WaitForOther | RunShutdown.

Definition shutdown_begin : T shutdown_action :=
  t ← get;
  match _state t with
  | STOPPED => mret AlreadyStopped
  | STOPPING => mret WaitForOther
  | NEW =>
      modify (set_events true false false);; modify (set_state STOPPED);;
      modify (set_events false false true);; mret AlreadyStopped
  | _ =>
      modify (set_state STOPPING);; modify (set_events true false false);;
      modify (set_shutdown Draining);; mret RunShutdown
  end.

Definition fail_active : T unit :=
  t ← get; modify (_set_future_error (a ← _active_request t; item_reply a) TransportStoppedError).

Definition _force_shutdown : T unit :=
  modify (set_events false true false);;
  fail_active;;
  modify cancel_worker;;
  _drain_pending.

(** The [finally] of [shutdown] up to its wait for the worker, and after. *)
Definition shutdown_cancel : T unit :=
  fail_active;; modify cancel_worker;; modify (set_shutdown Joining).

Definition shutdown_finish : T unit := stopped;; modify (set_shutdown ShutdownDone).

(** ** Steps *)

Inductive tstep : transport → transport → Prop :=
| t_start t : tstep t (start_begin t).2
| t_worker t : _worker t = Created → tstep t (set_worker AtLoop t)
| t_ready t : _state t = STARTING → _worker t ≠ Created → tstep t (start_ready t).2
| t_start_cancelled t : _state t = STARTING → tstep t (start_cancelled t).2
| t_request t e : tstep t (request e t).2
| t_publish t e : tstep t (publish e t).2
| t_acquire t i s : submissions t !! i = Some s → sub_acquired s = false → 0 < _capacity t →
    tstep t (acquire i s t)
| t_enqueue t i s : submissions t !! i = Some s → sub_acquired s = true → _state t ≠ STARTING →
    tstep t (enqueue_locked i s t).2
| t_abandon t i s e : submissions t !! i = Some s → tstep t (enqueue_abandoned i s e t).2
| t_loop t : _worker t = AtLoop → tstep t (loop_top t).2
| t_wake t : _worker t = Waiting → _queue t ≠ [] → tstep t (get_item t).2
| t_cancelled t : _worker t = Waiting ∨ _worker t = Created → worker_cancelling t = true →
    tstep t (set_worker Finished t)
| t_consumed t item c u : _worker t = Consuming item → tstep t (process_end u item c t).2
| t_reported t item e r u : _worker t = Reporting item e → tstep t (report_end u item e r t).2
| t_shutdown t : _state t ≠ STARTING → tstep t (shutdown_begin t).2
| t_force t : _state t = STOPPING ∨ _state t = STOPPED → tstep t (_force_shutdown t).2
| t_shutdown_cancel t : shutdown_task t = Draining → tstep t (shutdown_cancel t).2
| t_shutdown_finish t : shutdown_task t = Joining → tstep t (shutdown_finish t).2.

Inductive t_reachable (n : Z) (d : option Z) (h : bool) : transport → Prop :=
| t_new t : InMemoryTransport_new n d h = Ok t → t_reachable n d h t
| t_next t t' : t_reachable n d h t → tstep t t' → t_reachable n d h t'.
