(* ===== verification/CqTransportFacts.v ===== *)
(** * CQRS: invariants of the in-memory transport *)

From Stdlib Require Import ZArith Lia.
From stdpp Require Import base tactics list gmap strings fin_maps.
From S2P Require Import Prelude CqMessages CqTransport.
Local Open Scope Z_scope.

Implicit Types t : transport.

(** The item the worker is at. *)
Definition busy t : option queue_item :=
  match _worker t with Consuming i | Reporting i _ => Some i | _ => None end.

Definition count (o : option queue_item) : Z := match o with Some _ => 1 | None => 0 end.

(** The calls that have a slot but no place in the queue yet. *)
Definition holders (m : gmap Z submission) : Z :=
  Z.of_nat (size (filter (λ p : Z * submission, sub_acquired p.2 = true) m)).

Lemma zlen_snoc {B} (l : list B) x : zlen (l ++ [x]) = zlen l + 1.
Proof. by rewrite zlen_app. Qed.

(** ** Slots *)

Record slots t : Prop := {
  sl_max : 1 ≤ max_queue_size t;
  sl_capacity : 0 ≤ _capacity t;
  sl_sum : _capacity t + zlen (_queue t) + holders (submissions t) = max_queue_size t;
  sl_unfinished : _unfinished t = zlen (_queue t) + count (busy t);
  sl_ids i s : submissions t !! i = Some s → i < next_id t
}.

Lemma holders_empty : holders ∅ = 0.
Proof. unfold holders. rewrite map_filter_empty. done. Qed.

Lemma holders_nonneg m : 0 ≤ holders m.
Proof. unfold holders. lia. Qed.

Lemma holders_insert_false m i s : m !! i = None → sub_acquired s = false → holders (<[i := s]> m) = holders m.
Proof.
  intros Hi Hs. unfold holders. rewrite map_filter_insert, decide_False by (simpl; congruence).
  by rewrite delete_id.
Qed.

Lemma holders_acquire m i s s' :
  m !! i = Some s → sub_acquired s = false → sub_acquired s' = true → holders (<[i := s']> m) = holders m + 1.
Proof.
  intros Hi Hs Hs'. unfold holders. rewrite map_filter_insert, decide_True by done.
  rewrite map_size_insert_None; [lia|]. apply map_lookup_filter_None. right. intros x Hx. simplify_eq. simpl. congruence.
Qed.

Lemma holders_delete m i s :
  m !! i = Some s → holders (delete i m) = holders m - (if sub_acquired s then 1 else 0).
Proof.
  intros Hi. unfold holders. rewrite map_filter_delete. destruct (sub_acquired s) eqn:Hs.
  - rewrite map_size_delete_Some; [|exists s; by apply map_lookup_filter_Some].
    assert (size (filter (λ p : Z * submission, sub_acquired p.2 = true) m) ≠ 0%nat); [|lia].
    apply map_size_non_empty_iff. intros He. assert (filter (λ p : Z * submission, sub_acquired p.2 = true) m !! i = Some s) as Hf
      by (by apply map_lookup_filter_Some). rewrite He in Hf. by rewrite lookup_empty in Hf.
  - rewrite delete_id; [lia|]. apply map_lookup_filter_None. right. intros x Hx. simplify_eq. simpl. congruence.
Qed.

(** ** Draining *)

(** A future that is still open fails. *)
Definition failed (o : option (result cq_error ReplyEnvelope)) : option (result cq_error ReplyEnvelope) :=
  match o with None => Some (Err TransportStoppedError) | Some _ => o end.

Definition rest t :=
  (max_queue_size t, has_error_handler t, has_consumer t, _worker t, worker_cancelling t,
   (_active_request t, _state t, submissions t, next_id t, shutdown_task t),
   (accepted t, delivered t, lost t)).

Lemma drain_loop l t : ∃ t',
  mfor (λ item, modify release;; modify (_set_future_error (item_reply item) TransportStoppedError);;
                modify task_done : T unit) l t = (Ok tt, t') ∧
  _capacity t' = _capacity t + zlen l ∧ _unfinished t' = _unfinished t - zlen l ∧
  _queue t' = _queue t ∧ dropped t' = dropped t ∧ rest t' = rest t ∧
  ∀ f, replies t' !! f = if decide (f ∈ omap item_reply l) then failed <$> replies t !! f else replies t !! f.
Proof.
  revert t. induction l as [|x l IH]; intros t; simpl.
  { exists t. split_and!; try done; unfold zlen; simpl; lia. }
  autorewrite with mrun. set (t1 := task_done _).
  destruct (IH t1) as (t' & Hrun & H1 & H2 & H3 & H4 & H5 & H6). exists t'. rewrite Hrun, H1, H2, H3, H4, H5.
  split_and!; try done; autorewrite with tori; simpl; try lia. intros f. rewrite H6. simpl.
  unfold _set_future_error, complete. simpl. destruct (item_reply x) as [g|]; simpl; [|done].
  destruct (decide (g = f)) as [->|Hne].
  - rewrite lookup_alter_eq, (decide_True (P := f ∈ f :: _)) by set_solver.
    case_decide; destruct (replies t !! f) as [[]|]; done.
  - rewrite lookup_alter_ne by done. assert (f ∈ g :: omap item_reply l ↔ f ∈ omap item_reply l) as Hiff by set_solver.
    by rewrite (decide_ext _ _ _ _ Hiff).
Qed.

(** The queue was emptied, and every request in it got an error. *)
Record drained t t' : Prop := {
  dr_queue : _queue t' = [];
  dr_dropped : dropped t' = dropped t ++ _queue t;
  dr_capacity : _capacity t' = _capacity t + zlen (_queue t);
  dr_unfinished : _unfinished t' = _unfinished t - zlen (_queue t);
  dr_rest : rest t' = rest t;
  dr_replies f : replies t' !! f =
    if decide (f ∈ omap item_reply (_queue t)) then failed <$> replies t !! f else replies t !! f
}.

Lemma drain_pending_run t : ∃ t', _drain_pending t = (Ok tt, t') ∧ drained t t'.
Proof.
  unfold _drain_pending. autorewrite with mrun.
  destruct (drain_loop (_queue t) (drop_all t)) as (t' & -> & H1 & H2 & H3 & H4 & H5 & H6).
  exists t'. split; [done|]. by constructor.
Qed.

(** ** Every step keeps the slots *)

Ltac t_open :=
  unfold start_begin, start_ready, request, publish, enqueue_begin, enqueue_locked, enqueue_abandoned,
    drop_submission, put_nowait, _raise_submission_error, _require_running, loop_top, get_item, process_begin,
    process_end, item_failed, report_begin, report_end, answer_error, cancelled_item, lost_item, shutdown_begin,
    shutdown_cancel, fail_active in *;
  autorewrite with mrun;
  repeat (match goal with
          | |- context [match ?x with _ => _ end] => destruct x eqn:?
          | |- context [if ?x then _ else _] => destruct x eqn:?
          end; autorewrite with mrun; simplify_eq/=).

Lemma slots_drained t t' : slots t → drained t t' → slots t'.
Proof.
  intros [H1 H2 H3 H4 H5] [Q D C U R _]. unfold rest in R. injection R as R1 R2 R3 R4 R5 R6 R7 R8 R9 R10 R11 R12 R13.
  assert (0 ≤ zlen (_queue t)) by (unfold zlen; lia).
  constructor; rewrite ?Q, ?R1, ?R8, ?R9; unfold zlen in *; unfold busy in *; rewrite ?R4; simpl in *; try lia.
  apply H5.
Qed.

Lemma slots_new n d h t : InMemoryTransport_new n d h = Ok t → slots t.
Proof.
  unfold InMemoryTransport_new. intros Hn. apply result_bind_ok in Hn as ([] & H1%raise_if_ok & Hn).
  apply result_bind_ok in Hn as ([] & _ & [= <-]). apply Z.ltb_ge in H1.
  constructor; simpl; rewrite ?holders_empty; unfold zlen; simpl; try lia. done.
Qed.

(** What the slots depend on. *)
Definition slot_view t := (max_queue_size t, _capacity t, zlen (_queue t), _unfinished t, count (busy t), submissions t, next_id t).

Lemma slots_view t t' : slot_view t' = slot_view t → slots t → slots t'.
Proof. intros [= E1 E2 E3 E4 E5 E6 E7] [H1 H2 H3 H4 H5]. constructor; rewrite ?E1, ?E2, ?E3, ?E4, ?E5, ?E6, ?E7; done. Qed.

(** A call without a slot joins, one leaves with or without its slot. *)
Lemma slots_join t t' s :
  slots t → sub_acquired s = false →
  slot_view t' = (max_queue_size t, _capacity t, zlen (_queue t), _unfinished t, count (busy t),
                  <[next_id t := s]> (submissions t), next_id t + 1) → slots t'.
Proof.
  intros [H1 H2 H3 H4 H5] Hs [= E1 E2 E3 E4 E5 E6 E7].
  assert (submissions t !! next_id t = None) as Hn.
  { destruct (submissions t !! next_id t) as [x|] eqn:Hx; [|done]. apply H5 in Hx. lia. }
  constructor; rewrite ?E1, ?E2, ?E3, ?E4, ?E5, ?E6, ?E7; try done.
  - by rewrite holders_insert_false.
  - intros i x [[<- _]|[_ Hx]]%lookup_insert_Some; [lia|]. apply H5 in Hx. lia.
Qed.

Lemma slots_leave t t' i s :
  slots t → submissions t !! i = Some s →
  slot_view t' = (max_queue_size t, _capacity t + (if sub_acquired s then 1 else 0), zlen (_queue t), _unfinished t,
                  count (busy t), delete i (submissions t), next_id t) → slots t'.
Proof.
  intros [H1 H2 H3 H4 H5] Hs [= E1 E2 E3 E4 E5 E6 E7].
  constructor; rewrite ?E1, ?E2, ?E3, ?E4, ?E5, ?E6, ?E7; try done.
  - destruct (sub_acquired s); lia.
  - rewrite (holders_delete _ _ _ Hs). destruct (sub_acquired s); lia.
  - intros j x [_ Hx]%lookup_delete_Some. by eapply H5.
Qed.

Lemma slots_enqueue t i s : slots t → submissions t !! i = Some s → sub_acquired s = true → slots (enqueue_locked i s t).2.
Proof.
  intros Hsl Hs Ha. t_open; try (eapply (slots_leave t _ i s); [done..|]; unfold slot_view; simpl; by rewrite Ha).
  destruct Hsl as [H1 H2 H3 H4 H5]. constructor; simpl; try done.
  - rewrite (holders_delete _ _ _ Hs), Ha, zlen_snoc. lia.
  - rewrite zlen_snoc. unfold busy in *. simpl. lia.
  - intros j x [_ Hx]%lookup_delete_Some. by eapply H5.
Qed.

(** The worker takes an item, and ends it. *)
Lemma slots_get t : slots t → busy t = None → slots (get_item t).2.
Proof.
  intros Hsl Hb. unfold get_item. autorewrite with mrun. destruct (_queue t) as [|x q] eqn:Hq.
  { destruct Hsl as [H1 H2 H3 H4 H5]. rewrite Hb in H4. constructor; simpl; rewrite ?Hq in *; done. }
  destruct Hsl as [H1 H2 H3 H4 H5]. rewrite Hb in H4. rewrite Hq in *. autorewrite with tori mrun in *. simpl in *.
  unfold process_begin. t_open; constructor; simpl; try done; lia.
Qed.

Lemma slots_finish t item w t' :
  slots t → busy t = Some item → (match w with AtLoop | Finished => True | _ => False end) →
  slot_view t' = slot_view t → slots (finish_item w t').
Proof.
  intros [H1 H2 H3 H4 H5] Hb Hw [= E1 E2 E3 E4 E5 E6 E7]. rewrite Hb in H4. simpl in H4.
  constructor; simpl; rewrite ?E1, ?E2, ?E3, ?E4, ?E6, ?E7; try done.
  destruct w; simpl; try done; lia.
Qed.

Lemma slots_process t item c u : slots t → busy t = Some item → slots (process_end u item c t).2.
Proof.
  intros Hsl Hb. t_open; try (eapply (slots_finish t); done);
    (apply (slots_view t); [|done]); unfold slot_view; rewrite Hb; done.
Qed.

Lemma slots_report t item e r u : slots t → busy t = Some item → slots (report_end u item e r t).2.
Proof. intros Hsl Hb. t_open; eapply (slots_finish t); done. Qed.

Lemma slots_stopped t : slots t → slots (stopped t).2.
Proof.
  intros Hsl. unfold stopped. destruct (drain_pending_run t) as (t' & Hrun & Hd). rewrite (M_bind_run _ _ _ _ _ Hrun).
  autorewrite with mrun. apply (slots_view t'); [done|]. by eapply slots_drained.
Qed.

(** ** Order *)

(** Messages are delivered in the order they were accepted in; what is not
    delivered is still in the queue, or was dropped by a shutdown. *)
Record order t : Prop := {
  or_new : _state t = NEW → _worker t = NoWorker;
  or_early : _state t = NEW ∨ _state t = STARTING → accepted t = [];
  or_consumer : _worker t ≠ NoWorker → has_consumer t = true;
  or_shutdown : shutdown_task t ≠ NoShutdown → _state t = STOPPING ∨ _state t = STOPPED;
  or_fifo : accepted t = delivered t ++ dropped t ++ _queue t;
  or_dropped : dropped t ≠ [] → _queue t = [] ∧ (_state t = STOPPING ∨ _state t = STOPPED);
  or_stopped : _state t = STOPPED → _queue t = [];
  or_busy item : busy t = Some item → item ∈ delivered t;
  or_lost item : item ∈ lost t → item ∈ delivered t
}.

Lemma order_new n d h t : InMemoryTransport_new n d h = Ok t → order t.
Proof.
  unfold InMemoryTransport_new. intros Hn. apply result_bind_ok in Hn as ([] & _ & Hn).
  apply result_bind_ok in Hn as ([] & _ & [= <-]). by constructor; simpl.
Qed.

Definition order_view t :=
  (_state t, _worker t, has_consumer t, shutdown_task t, (accepted t, delivered t, dropped t, _queue t, lost t)).

Lemma order_eq t t' : order_view t' = order_view t → order t → order t'.
Proof.
  unfold order_view. intros [= E1 E2 E3 E4 E5 E6 E7 E8 E9] [].
  constructor; unfold busy in *; rewrite ?E1, ?E2, ?E3, ?E4, ?E5, ?E6, ?E7, ?E8, ?E9; done.
Qed.

(** The worker moves without taking an item. *)
Lemma order_worker t w :
  order t → _worker t ≠ NoWorker → (match w with NoWorker => False | Consuming i | Reporting i _ => busy t = Some i | _ => True end) →
  order (set_worker w t).
Proof.
  intros [H1 H2 H3 H4 H5 H6 H7 H8 H9] Hw Hb. constructor; simpl; try done.
  - intros Hs. by specialize (H1 Hs).
  - intros _. by apply H3.
  - intros item. unfold busy. simpl. destruct w; try done; intros [= <-]; by apply H8.
Qed.

Lemma order_finish t t' w :
  order t → _worker t ≠ NoWorker → (match w with AtLoop | Finished => True | _ => False end) →
  (_state t', has_consumer t', shutdown_task t', (accepted t', delivered t', dropped t', _queue t')) =
  (_state t, has_consumer t, shutdown_task t, (accepted t, delivered t, dropped t, _queue t)) →
  (∀ item, item ∈ lost t' → item ∈ lost t ∨ busy t = Some item) → order (finish_item w t').
Proof.
  intros [H1 H2 H3 H4 H5 H6 H7 H8 H9] Hw Hok [= E1 E2 E3 E4 E5 E6 E7] Hl.
  constructor; simpl; rewrite ?E1, ?E2, ?E3, ?E4, ?E5, ?E6, ?E7; try done.
  - intros Hs. by specialize (H1 Hs).
  - intros _. by apply H3.
  - intros item. unfold busy. simpl. by destruct w.
  - intros item Hi. destruct (Hl item Hi); auto.
Qed.

Lemma order_get t : order t → busy t = None → _worker t ≠ NoWorker → order (get_item t).2.
Proof.
  intros Ho Hb Hw. unfold get_item. autorewrite with mrun. destruct (_queue t) as [|x q] eqn:Hq; [by apply order_worker|].
  autorewrite with mrun. destruct Ho as [H1 H2 H3 H4 H5 H6 H7 H8 H9].
  assert (dropped t = []) as Hd by (destruct (dropped t) eqn:Hd; [done|]; destruct H6 as [? _]; [done|]; congruence).
  rewrite Hq in *. rewrite Hd in *. simpl in H5.
  set (t1 := release (deliver x q t)).
  assert (order (set_worker (Consuming x) t1) ∧ order t1) as [Hc H0].
  { split; constructor; simpl; rewrite ?Hd; try done.
    all: try (intros Hs; by specialize (H1 Hs)). all: try (intros _; by apply H3).
    all: try (by rewrite <- app_assoc). all: try (intros Hs; specialize (H7 Hs); done).
    all: try (intros item Hi; specialize (H9 item Hi); set_solver).
    - intros item [= <-]. set_solver.
    - intros item. unfold busy. simpl. fold (busy t). by rewrite Hb. }
  unfold process_begin. autorewrite with mrun. rewrite (H3 Hw : has_consumer t1 = true). simpl.
  destruct x as [e f|e]; autorewrite with mrun; simpl; [|done]. case_bool_decide.
  - autorewrite with mrun. apply (order_finish t1); try done. by left.
  - autorewrite with mrun. by apply (order_eq (set_worker (Consuming (_RequestItem e f)) t1)).
Qed.

Lemma order_process t item c u : order t → busy t = Some item → order (process_end u item c t).2.
Proof.
  intros Ho Hb. assert (_worker t ≠ NoWorker) as Hw by (intros Hn; unfold busy in Hb; by rewrite Hn in Hb).
  t_open; try (by apply order_worker); apply (order_finish t); try done;
    try (by left); intros i [?| ->%list_elem_of_singleton]%elem_of_app; auto.
Qed.

Lemma order_report t item e r u : order t → busy t = Some item → order (report_end u item e r t).2.
Proof.
  intros Ho Hb. assert (_worker t ≠ NoWorker) as Hw by (intros Hn; unfold busy in Hb; by rewrite Hn in Hb).
  t_open; apply (order_finish t); try done;
    try (by left); intros i [?| ->%list_elem_of_singleton]%elem_of_app; auto.
Qed.

Lemma order_drained t t' :
  order t → drained t t' → _state t = STOPPING ∨ _state t = STOPPED → order t'.
Proof.
  intros [H1 H2 H3 H4 H5 H6 H7 H8 H9] [Q D C U R _] Hs. unfold rest in R.
  injection R as R1 R2 R3 R4 R5 R6 R7 R8 R9 R10 R11 R12 R13.
  constructor; unfold busy in *; rewrite ?Q, ?D, ?R3, ?R4, ?R7, ?R10, ?R11, ?R12, ?R13, ?app_nil_r; try done.
Qed.

Lemma order_stopped t : order t → _state t ≠ NEW → order (stopped t).2.
Proof.
  intros [H1 H2 H3 H4 H5 H6 H7 H8 H9] Hs. unfold stopped. destruct (drain_pending_run t) as (t' & Hrun & [Q D C U R _]).
  rewrite (M_bind_run _ _ _ _ _ Hrun). autorewrite with mrun. unfold rest in R.
  injection R as R1 R2 R3 R4 R5 R6 R7 R8 R9 R10 R11 R12 R13.
  constructor; unfold busy in *; simpl; rewrite ?Q, ?D, ?R3, ?R4, ?R10, ?R11, ?R12, ?R13, ?app_nil_r; try done; auto.
  by intros [?|?].
Qed.

Lemma order_enqueue t i s : order t → order (enqueue_locked i s t).2.
Proof.
  intros Ho. t_open; try (by apply (order_eq t)). apply bool_decide_eq_false, dec_stable in Heqb.
  destruct Ho as [H1 H2 H3 H4 H5 H6 H7 H8 H9]. constructor; unfold busy in *; simpl; rewrite ?Heqb in *; try done.
  - by intros [?|?].
  - by rewrite H5, <- !app_assoc.
  - intros Hd. by destruct (H6 Hd) as [_ [?|?]].
Qed.

Lemma order_shutdown t : order t → _state t ≠ STARTING → order (shutdown_begin t).2.
Proof.
  intros Ho Hn. unfold shutdown_begin. autorewrite with mrun.
  destruct Ho as [H1 H2 H3 H4 H5 H6 H7 H8 H9]. destruct (_state t) eqn:Hs; autorewrite with mrun; try done.
  - assert (accepted t = []) as Ha by auto. assert (_queue t = []) as Hq.
    { rewrite H5 in Ha. by apply app_nil in Ha as [_ [_ ?]%app_nil]. }
    constructor; unfold busy in *; simpl; rewrite ?Hq in *; auto; by intros [?|?].
  - constructor; unfold busy in *; simpl; auto; try (by intros [?|?]); try done.
    intros Hd. by destruct (H6 Hd) as [_ [?|?]].
  - constructor; simpl; rewrite ?Hs; auto.
  - constructor; simpl; rewrite ?Hs; auto.
Qed.

Lemma order_step t t' : order t → tstep t t' → order t'.
Proof.
  intros Ho Hst. destruct Hst.
  - t_open; [done|]. apply bool_decide_eq_false, dec_stable in Heqb.
    destruct Ho as [H1 H2 H3 H4 H5 H6 H7 H8 H9]. constructor; unfold busy; simpl; try done.
    + intros _. apply H2. by left.
    + intros Hn. destruct (H4 Hn); congruence.
    + intros Hd. destruct (H6 Hd) as [_ [?|?]]; congruence.
  - apply order_worker; [done|congruence|done].
  - t_open; [done|]. destruct Ho as [H1 H2 H3 H4 H5 H6 H7 H8 H9]. constructor; unfold busy in *; simpl; try done.
    + by intros [?|?].
    + intros Hn. destruct (H4 Hn); congruence.
    + intros Hd. destruct (H6 Hd) as [_ [?|?]]; congruence.
  - unfold start_cancelled. autorewrite with mrun. apply order_stopped; [by apply (order_eq t)|simpl; congruence].
  - t_open; try done; by apply (order_eq t).
  - t_open; try done; by apply (order_eq t).
  - by apply (order_eq t).
  - by apply order_enqueue.
  - t_open; by apply (order_eq t).
  - assert (busy t = None) as Hb by (unfold busy; by rewrite H). unfold loop_top. autorewrite with mrun.
    case_match; [apply order_worker; try done; congruence|apply order_get; try done; congruence].
  - apply order_get; [done|unfold busy; by rewrite H|congruence].
  - apply order_worker; [done| |done]. by destruct H as [-> | ->].
  - apply order_process; [done|]. unfold busy. by rewrite H.
  - apply order_report; [done|]. unfold busy. by rewrite H.
  - by apply order_shutdown.
  - unfold _force_shutdown, fail_active. autorewrite with mrun.
    match goal with |- order (_drain_pending ?x).2 => destruct (drain_pending_run x) as (t' & -> & Hd) end.
    eapply order_drained; [|exact Hd|done]. by apply (order_eq t).
  - t_open. destruct Ho as [H1 H2 H3 H4 H5 H6 H7 H8 H9]. constructor; unfold busy in *; simpl; try done.
    intros _. apply H4. congruence.
  - unfold shutdown_finish. assert (_state t ≠ NEW) as Hn by (destruct (or_shutdown _ Ho); congruence).
    pose proof (order_stopped t Ho Hn) as Hs. assert (_state (stopped t).2 = STOPPED) as Hst.
    { unfold stopped. destruct (drain_pending_run t) as (t' & Hrun & _). by rewrite (M_bind_run _ _ _ _ _ Hrun). }
    unfold mbind, M_bind. destruct (stopped t) as [[] t1]; [|done]. simpl in *.
    destruct Hs as [H1 H2 H3 H4 H5 H6 H7 H8 H9]. constructor; unfold busy in *; simpl; try done. by right.
Qed.

(** ** Every step keeps the slots *)

Lemma slots_step t t' : order t → slots t → tstep t t' → slots t'.
Proof.
  intros Ho Hsl Hst. destruct Hst.
  - t_open; [done|]. apply bool_decide_eq_false, dec_stable in Heqb.
    apply (slots_view t); [|done]. unfold slot_view, busy. simpl. by rewrite (or_new _ Ho Heqb).
  - apply (slots_view t); [|done]. unfold slot_view, busy. simpl. by rewrite H.
  - t_open; [done|]. by apply (slots_view t).
  - unfold start_cancelled. autorewrite with mrun. apply slots_stopped. by apply (slots_view t).
  - t_open; try done; (eapply slots_join; [done| |reflexivity]; done).
  - t_open; try done; (eapply slots_join; [done| |reflexivity]; done).
  - destruct Hsl as [H2 H3 H4 H5 H6]. constructor; simpl; try done; try lia.
    + erewrite holders_acquire by done. lia.
    + intros j x [[<- _]|[_ Hx]]%lookup_insert_Some; by eapply H6.
  - by apply slots_enqueue.
  - t_open; eapply (slots_leave t _ i s); try done; unfold slot_view; simpl; rewrite ?Heqb; try done. by rewrite Z.add_0_r.
  - assert (busy t = None) as Hb by (unfold busy; by rewrite H). unfold loop_top. autorewrite with mrun.
    case_match; [|by apply slots_get]. apply (slots_view t); [|done]. unfold slot_view. by rewrite Hb.
  - apply slots_get; [done|]. unfold busy. by rewrite H.
  - apply (slots_view t); [|done]. unfold slot_view, busy. destruct H as [-> | ->]; done.
  - apply slots_process; [done|]. unfold busy. by rewrite H.
  - apply slots_report; [done|]. unfold busy. by rewrite H.
  - t_open; try done; by apply (slots_view t).
  - unfold _force_shutdown, fail_active. autorewrite with mrun.
    match goal with |- slots (_drain_pending ?x).2 => destruct (drain_pending_run x) as (t' & -> & Hd) end.
    eapply slots_drained; [|exact Hd]. by apply (slots_view t).
  - t_open; by apply (slots_view t).
  - unfold shutdown_finish. pose proof (slots_stopped t Hsl) as Hs. unfold mbind, M_bind.
    destruct (stopped t) as [[] t1]; [by apply (slots_view t1)|done].
Qed.
