(* ===== verification/CqTransportReplies.v ===== *)
(** * CQRS: replies of the in-memory transport *)

From Stdlib Require Import ZArith Lia.
From stdpp Require Import base tactics list gmap strings fin_maps.
From S2P Require Import Prelude CqMessages CqTransport CqTransportFacts.
Local Open Scope Z_scope.

Implicit Types t : transport.

(** A reply that may be given to a request. *)
Definition proper (e : Envelope) (r : result cq_error ReplyEnvelope) : Prop :=
  match r with Ok r => correlation_id e = Some (reply_correlation_id r) | Err _ => True end.

Definition answered t (f : Z) : Prop := ∃ r, replies t !! f = Some (Some r).

(** Every future belongs to one request, and every request that was accepted is
    answered, in the queue, at the worker, or lost with it. *)
Record answers t : Prop := {
  an_submitted i s e f : submissions t !! i = Some s → sub_item s = _RequestItem e f →
    f = i ∧ replies t !! f = Some None ∧ correlation_id e ≠ None;
  an_accepted e f : _RequestItem e f ∈ accepted t →
    f < next_id t ∧ submissions t !! f = None ∧ is_Some (replies t !! f) ∧ correlation_id e ≠ None;
  an_unique e1 e2 f : _RequestItem e1 f ∈ accepted t → _RequestItem e2 f ∈ accepted t → e1 = e2;
  an_ids f : is_Some (replies t !! f) → f < next_id t;
  an_answered e f : _RequestItem e f ∈ accepted t →
    answered t f ∨ _RequestItem e f ∈ _queue t ∨ busy t = Some (_RequestItem e f) ∨ _RequestItem e f ∈ lost t;
  an_proper e f r : _RequestItem e f ∈ accepted t → replies t !! f = Some (Some r) → proper e r;
  an_active : _active_request t = match busy t with Some (_RequestItem e f) => Some (_RequestItem e f) | _ => None end
}.

Lemma answers_new n d h t : InMemoryTransport_new n d h = Ok t → answers t.
Proof.
  unfold InMemoryTransport_new. intros Hn. apply result_bind_ok in Hn as ([] & _ & Hn).
  apply result_bind_ok in Hn as ([] & _ & [= <-]). constructor; simpl; try done; try set_solver.
  intros f [r Hr]. done.
Qed.

Definition reply_view t :=
  (replies t, submissions t, next_id t, accepted t, (_queue t, busy t, lost t, _active_request t)).

Lemma answers_eq t t' : reply_view t' = reply_view t → answers t → answers t'.
Proof.
  unfold reply_view. intros [= E1 E2 E3 E4 E5 E6 E7 E8] [].
  constructor; unfold answered in *; rewrite ?E1, ?E2, ?E3, ?E4, ?E5, ?E6, ?E7, ?E8; done.
Qed.

(** ** Completing futures *)

Lemma complete_lookup t f r g :
  replies (complete (Some f) r t) !! g =
  if decide (g = f) then (λ o, match o with None => Some r | Some _ => o end) <$> replies t !! f else replies t !! g.
Proof.
  unfold complete. simpl. case_decide; subst; [by rewrite lookup_alter_eq|by rewrite lookup_alter_ne].
Qed.

(** The future of an accepted request is set, unless it is set already. *)
Lemma answers_complete t e f r :
  answers t → _RequestItem e f ∈ accepted t → proper e r → answers (complete (Some f) r t).
Proof.
  intros [H1 H2 H3 H4 H5 H6 H7] Hin Hr. destruct (H2 e f Hin) as (Hlt & Hsub & [o Ho] & Hc).
  constructor; try done.
  - intros i s e' f' Hs Hi. destruct (H1 i s e' f' Hs Hi) as (-> & Hp & Hc'). split_and!; [done| |done].
    rewrite complete_lookup, decide_False; [done|]. intros ->. simpl in Hs. congruence.
  - intros e' f' Hin'. destruct (H2 e' f' Hin') as (? & ? & Hp & ?). split_and!; try done.
    rewrite complete_lookup. case_decide; [subst; rewrite Ho; by eexists|done].
  - intros g. rewrite complete_lookup. case_decide; [subst; rewrite Ho; intros _; by apply H4; exists o|apply H4].
  - intros e' f' Hin'. destruct (H5 e' f' Hin') as [[r' Hr']|Ho']; [|auto]. left. exists r'.
    rewrite complete_lookup. case_decide; [|done]. subst. by rewrite Hr'.
  - intros e' f' r' Hin'. rewrite complete_lookup. case_decide; [|by apply H6]. subst. rewrite Ho. simpl.
    destruct o as [o|]; [intros [= <-]; by apply (H6 e' f)|]. intros [= <-]. by rewrite (H3 e' e f Hin' Hin).
Qed.

Lemma complete_answers t f r : is_Some (replies t !! f) → answered (complete (Some f) r t) f.
Proof.
  intros [o Ho]. unfold answered. rewrite complete_lookup, decide_True, Ho by done. destruct o; by eexists.
Qed.

(** ** Ending an item *)

Lemma answers_finish t item w :
  answers t → busy t = Some item → (match w with AtLoop | Finished => True | _ => False end) →
  (∀ e f, item = _RequestItem e f → answered t f ∨ item ∈ lost t) → answers (finish_item w t).
Proof.
  intros [H1 H2 H3 H4 H5 H6 H7] Hb Hw Hdone.
  assert (busy (finish_item w t) = None) as Hb' by (unfold busy; simpl; by destruct w).
  constructor; try done; [|by rewrite Hb'].
  intros e f Hin. change (answered t f ∨ _RequestItem e f ∈ _queue t ∨ busy (finish_item w t) = Some (_RequestItem e f) ∨ _RequestItem e f ∈ lost t).
  destruct (H5 e f Hin) as [?|[?|[Hx|?]]]; auto. rewrite Hb in Hx. injection Hx as ->.
  destruct (Hdone e f eq_refl); auto.
Qed.

(** The worker ends its item with this reply. *)
Lemma answers_reply t e f w r :
  order t → answers t → busy t = Some (_RequestItem e f) →
  (match w with AtLoop | Finished => True | _ => False end) → proper e r →
  answers (finish_item w (complete (Some f) r t)).
Proof.
  intros Ho Ha Hb Hw Hr. assert (_RequestItem e f ∈ accepted t) as Hin.
  { rewrite (or_fifo _ Ho). apply elem_of_app. left. by apply (or_busy _ Ho). }
  apply (answers_finish _ (_RequestItem e f)); [by eapply answers_complete|done..|].
  intros e' f' [= <- <-]. left. apply complete_answers. by apply (an_accepted _ Ha e).
Qed.

Lemma answers_lose t item w :
  answers t → busy t = Some item → (match w with AtLoop | Finished => True | _ => False end) →
  answers (finish_item w (lose item t)).
Proof.
  intros Ha Hb Hw. apply (answers_finish _ item); [|done..|].
  - destruct Ha as [H1 H2 H3 H4 H5 H6 H7]. constructor; try done. intros e f Hin. simpl.
    destruct (H5 e f Hin) as [?|[?|[?|?]]]; auto. right; right; right. set_solver.
  - intros e f ->. right. simpl. set_solver.
Qed.

(** The worker goes on to report an error. *)
Lemma answers_reporting t item e : answers t → busy t = Some item → answers (set_worker (Reporting item e) t).
Proof. intros Ha Hb. apply (answers_eq t); [|done]. unfold reply_view. by rewrite Hb. Qed.

Lemma answers_answer t item e u :
  order t → answers t → busy t = Some item → answers (answer_error u item e t).2.
Proof.
  intros Ho Ha Hb. unfold answer_error. destruct item as [env f|env]; autorewrite with mrun.
  - assert (correlation_id env ≠ None) as Hc.
    { apply (an_accepted _ Ha env f). rewrite (or_fifo _ Ho). apply elem_of_app. left. by apply (or_busy _ Ho). }
    destruct (correlation_id env) as [c|] eqn:Hcorr; [|done]. autorewrite with mrun. by apply answers_reply with (e := env).
  - by apply (answers_finish t (_PublishItem env)).
Qed.

Lemma answers_cancelled t item : order t → answers t → busy t = Some item → answers (cancelled_item item t).2.
Proof.
  intros Ho Ha Hb. unfold cancelled_item, _set_future_error. autorewrite with mrun. destruct item as [e f|e]; simpl.
  - by apply answers_reply with (e := e).
  - apply (answers_finish _ (_PublishItem e)); try done. by apply (answers_eq t).
Qed.

Lemma answers_report_begin t item e u :
  order t → answers t → busy t = Some item → answers (report_begin u item e t).2.
Proof.
  intros Ho Ha Hb. unfold report_begin. autorewrite with mrun. case_match; [by apply answers_reporting|by apply answers_answer].
Qed.

Lemma answers_failed t item e u : order t → answers t → busy t = Some item → answers (item_failed u item e t).2.
Proof.
  intros Ho Ha Hb. unfold item_failed. autorewrite with mrun.
  destruct e; try by apply answers_report_begin.
  - case_match; [by apply answers_cancelled|by apply answers_report_begin].
  - unfold lost_item. autorewrite with mrun. by apply answers_lose.
Qed.

Lemma answers_process t item c u : order t → answers t → busy t = Some item → answers (process_end u item c t).2.
Proof.
  intros Ho Ha Hb. unfold process_end. destruct item as [e f|e], c as [[r|]|x]; try by apply answers_failed.
  - case_bool_decide as Hc; [|by apply answers_failed]. autorewrite with mrun. by apply answers_reply with (e := e).
  - by apply (answers_finish t (_PublishItem e)).
  - by apply (answers_finish t (_PublishItem e)).
Qed.

Lemma answers_report t item e r u : order t → answers t → busy t = Some item → answers (report_end u item e r t).2.
Proof.
  intros Ho Ha Hb. unfold report_end. autorewrite with mrun. destruct r as [x|]; [|by apply answers_answer].
  destruct x; try by apply answers_answer.
  - case_match; [by apply answers_cancelled|by apply answers_answer].
  - unfold lost_item. autorewrite with mrun. by apply answers_lose.
Qed.

(** ** The other sections *)

Lemma answers_drained t t' : order t → answers t → drained t t' → answers t'.
Proof.
  intros Ho [H1 H2 H3 H4 H5 H6 H7] [Q D C U R Hrep]. unfold rest in R.
  injection R as R1 R2 R3 R4 R5 R6 R7 R8 R9 R10 R11 R12 R13.
  assert (busy t' = busy t) as Hb by (unfold busy; by rewrite R4).
  assert (∀ f, f ∈ omap item_reply (_queue t) → ∃ e, _RequestItem e f ∈ _queue t) as Hq.
  { intros f ([e g|e] & Hx & Hf)%list_elem_of_omap; [|done]. injection Hf as ->. by exists e. }
  assert (∀ x, x ∈ _queue t → x ∈ accepted t) as Hqa by (intros x Hx; rewrite (or_fifo _ Ho); set_solver).
  assert (∀ f, is_Some (replies t' !! f) ↔ is_Some (replies t !! f)) as Hsome.
  { intros f. rewrite Hrep. case_decide; [|done]. by rewrite fmap_is_Some. }
  constructor; rewrite ?R8, ?R9, ?R11, ?R13, ?Hb, ?R6; try done.
  - intros i s e f Hs Hi. destruct (H1 i s e f Hs Hi) as (-> & Hp & Hc). split_and!; [done| |done].
    rewrite Hrep, decide_False; [done|]. intros Hf. destruct (Hq i Hf) as [e' He'].
    destruct (H2 e' i (Hqa _ He')) as (_ & Hn & _). congruence.
  - intros e f Hin. destruct (H2 e f Hin) as (? & ? & ? & ?). by rewrite Hsome.
  - intros f. rewrite Hsome. apply H4.
  - intros e f Hin. unfold answered. setoid_rewrite Hrep.
    destruct (H5 e f Hin) as [[r Hr]|[Hx|[?|?]]]; [| |auto..].
    + left. case_decide; [rewrite Hr; by exists r|by exists r].
    + left. rewrite decide_True by (apply list_elem_of_omap; by eexists).
      destruct (H2 e f Hin) as (_ & _ & [[r|] Hr] & _); rewrite Hr; by eexists.
  - intros e f r Hin. rewrite Hrep. case_decide; [|by apply H6].
    destruct (replies t !! f) as [[r'|]|] eqn:Hr; simpl; [|by intros [= <-]|done]. intros [= <-]. by apply (H6 e f).
Qed.

Lemma answers_stopped t : order t → answers t → answers (stopped t).2.
Proof.
  intros Ho Ha. unfold stopped. destruct (drain_pending_run t) as (t' & Hrun & Hd). rewrite (M_bind_run _ _ _ _ _ Hrun).
  autorewrite with mrun. apply (answers_eq t'); [done|]. by eapply answers_drained.
Qed.

Lemma answers_fail_active t : order t → answers t → answers (fail_active t).2.
Proof.
  intros Ho Ha. unfold fail_active, _set_future_error. autorewrite with mrun. rewrite (an_active _ Ha).
  destruct (busy t) as [[e f|e]|] eqn:Hb; simpl; try by apply (answers_eq t).
  apply (answers_complete t e); [done| |done]. rewrite (or_fifo _ Ho). apply elem_of_app. left. by apply (or_busy _ Ho).
Qed.

Lemma answers_get t : order t → answers t → busy t = None → _worker t ≠ NoWorker → answers (get_item t).2.
Proof.
  intros Ho Ha Hb Hw. unfold get_item. autorewrite with mrun. destruct (_queue t) as [|x q] eqn:Hq.
  { apply (answers_eq t); [|done]. unfold reply_view. rewrite Hb. done. }
  autorewrite with mrun. unfold process_begin. autorewrite with mrun. simpl.
  rewrite (or_consumer _ Ho Hw). simpl.
  assert (x ∈ accepted t) as Hin by (rewrite (or_fifo _ Ho), Hq; set_solver).
  assert (∀ a, a = match x with _RequestItem e f => Some (_RequestItem e f) | _ => None end →
    answers (set_worker (Consuming x) (set_active a (release (deliver x q t))))) as Hgo.
  { intros a ->. destruct Ha as [H1 H2 H3 H4 H5 H6 H7]. constructor; try done; simpl.
    intros e f Hef. unfold answered, busy. simpl. destruct (H5 e f Hef) as [?|[Hx|[Hx|?]]]; auto.
    - rewrite Hq in Hx. apply elem_of_cons in Hx as [<-|Hx]; auto.
    - rewrite Hb in Hx. done. }
  destruct x as [e f|e]; autorewrite with mrun; simpl.
  - rewrite bool_decide_eq_false_2 by (by apply (an_accepted _ Ha e f)). autorewrite with mrun. by apply Hgo.
  - pose proof (Hgo None eq_refl) as Hg. apply (answers_eq (set_worker (Consuming (_PublishItem e)) (set_active None (release (deliver (_PublishItem e) q t))))); [|done].
    unfold reply_view. simpl. by rewrite (an_active _ Ha), Hb.
Qed.

Lemma answers_enqueue t i s : order t → answers t → submissions t !! i = Some s → answers (enqueue_locked i s t).2.
Proof.
  intros Ho Ha Hs. assert (∀ t', reply_view t' = (replies t, delete i (submissions t), next_id t, accepted t,
    (_queue t, busy t, lost t, _active_request t)) → answers t') as Hleave.
  { intros t' [= E1 E2 E3 E4 E5 E6 E7 E8]. destruct Ha as [H1 H2 H3 H4 H5 H6 H7].
    constructor; unfold answered in *; rewrite ?E1, ?E2, ?E3, ?E4, ?E5, ?E6, ?E7, ?E8; try done.
    - intros j x e f [_ Hx]%lookup_delete_Some. by apply H1.
    - intros e f Hin. destruct (H2 e f Hin) as (? & ? & ? & ?). split_and!; try done. rewrite lookup_delete_None. auto. }
  t_open; try (by apply Hleave).
  destruct Ha as [H1 H2 H3 H4 H5 H6 H7]. constructor; try done; simpl.
  - intros j x e f [_ Hx]%lookup_delete_Some. by apply H1.
  - intros e f [Hin|Hin%list_elem_of_singleton]%elem_of_app.
    + destruct (H2 e f Hin) as (? & ? & ? & ?). split_and!; try done. rewrite lookup_delete_None. auto.
    + destruct (H1 i s e f Hs (eq_sym Hin)) as (-> & Hp & Hc). rewrite lookup_delete_eq, Hp.
      split_and!; try done. apply H4. by rewrite Hp.
  - intros e1 e2 f [Hi1|Hi1%list_elem_of_singleton]%elem_of_app [Hi2|Hi2%list_elem_of_singleton]%elem_of_app.
    + by apply (H3 _ _ f).
    + destruct (H1 i s e2 f Hs (eq_sym Hi2)) as (-> & _). destruct (H2 e1 i Hi1) as (_ & ? & _). congruence.
    + destruct (H1 i s e1 f Hs (eq_sym Hi1)) as (-> & _). destruct (H2 e2 i Hi2) as (_ & ? & _). congruence.
    + congruence.
  - intros e f [Hin|Hin%list_elem_of_singleton]%elem_of_app; [|right; left; set_solver].
    destruct (H5 e f Hin) as [?|[?|[?|?]]]; auto. right; left. set_solver.
  - intros e f r [Hin|Hin%list_elem_of_singleton]%elem_of_app; [by apply H6|].
    destruct (H1 i s e f Hs (eq_sym Hin)) as (-> & Hp & _). congruence.
Qed.

Lemma answers_abandon t i s e : answers t → submissions t !! i = Some s → answers (enqueue_abandoned i s e t).2.
Proof.
  intros [H1 H2 H3 H4 H5 H6 H7] Hs. t_open; constructor; try done; simpl;
    first [intros j x e' f [_ Hx]%lookup_delete_Some; by apply H1
          |intros e' f Hin; destruct (H2 e' f Hin) as (? & ? & ? & ?); split_and!; try done; rewrite lookup_delete_None; auto].
Qed.

Lemma answers_request t e : slots t → answers t → answers (request e t).2.
Proof.
  intros Hsl Ha. t_open; try done. apply bool_decide_eq_false in Heqb.
  destruct Ha as [H1 H2 H3 H4 H5 H6 H7]. assert (replies t !! next_id t = None) as Hn.
  { destruct (replies t !! next_id t) eqn:Hx; [|done]. assert (next_id t < next_id t) by (apply H4; by rewrite Hx). lia. }
  constructor; unfold answered in *; simpl; try done.
  - intros i s e' f [[<- <-]|[Hne Hs]]%lookup_insert_Some Hi; simpl in *.
    + injection Hi as <- <-. by rewrite lookup_insert_eq.
    + destruct (H1 i s e' f Hs Hi) as (-> & ? & ?). by rewrite lookup_insert_ne.
  - intros e' f Hin. destruct (H2 e' f Hin) as (? & ? & ? & ?). rewrite !lookup_insert_ne by lia. split_and!; try done; lia.
  - intros f. destruct (decide (next_id t = f)) as [<-|]; [lia|]. rewrite lookup_insert_ne by done.
    intros Hf%H4. lia.
  - intros e' f Hin. destruct (H2 e' f Hin) as (? & _). rewrite lookup_insert_ne by lia. by apply H5.
  - intros e' f r Hin. destruct (H2 e' f Hin) as (? & _). rewrite lookup_insert_ne by lia. by apply H6.
Qed.

Lemma answers_publish t e : slots t → answers t → answers (publish e t).2.
Proof.
  intros Hsl Ha. t_open; try done. destruct Ha as [H1 H2 H3 H4 H5 H6 H7].
  constructor; unfold answered in *; simpl; try done.
  - intros i s e' f [[<- <-]|[Hne Hs]]%lookup_insert_Some Hi; [done|by eapply H1].
  - intros e' f Hin. destruct (H2 e' f Hin) as (? & ? & ? & ?). rewrite lookup_insert_ne by lia. split_and!; try done; lia.
  - intros f Hf%H4. lia.
Qed.

Lemma answers_acquire t i s : answers t → submissions t !! i = Some s → answers (acquire i s t).
Proof.
  intros [H1 H2 H3 H4 H5 H6 H7] Hs. constructor; try done; simpl.
  - intros j x e f [[<- <-]|[Hne Hx]]%lookup_insert_Some Hi; [by eapply (H1 i s)|by eapply H1].
  - intros e f Hin. destruct (H2 e f Hin) as (? & ? & ? & ?). split_and!; try done.
    rewrite lookup_insert_ne; [done|]. intros ->. congruence.
Qed.

Lemma answers_step t t' : order t → slots t → answers t → tstep t t' → answers t'.
Proof.
  intros Ho Hsl Ha Hst.
  assert (∀ item, _worker t = Consuming item → busy t = Some item) as Hcb by (intros ? Hw; unfold busy; by rewrite Hw).
  assert (∀ w, (match w with Consuming _ | Reporting _ _ => False | _ => True end) → busy t = None →
    answers (set_worker w t)) as Hmove.
  { intros w Hw Hb. apply (answers_eq t); [|done]. unfold reply_view. rewrite Hb. by destruct w. }
  destruct Hst; try (by apply answers_request); try (by apply answers_publish);
    try (by apply answers_acquire); try (by apply answers_enqueue); try (by apply answers_abandon).
  - t_open; [done|]. apply bool_decide_eq_false, dec_stable in Heqb.
    apply (answers_eq t); [|done]. unfold reply_view, busy. simpl. by rewrite (or_new _ Ho Heqb).
  - apply Hmove; [done|]. unfold busy. by rewrite H.
  - t_open; [done|]. by apply (answers_eq t).
  - unfold start_cancelled. autorewrite with mrun. apply answers_stopped; [by apply (order_eq t)|by apply (answers_eq t)].
  - assert (busy t = None) as Hb by (unfold busy; by rewrite H). unfold loop_top. autorewrite with mrun.
    case_match; [by apply Hmove|apply answers_get; try done; congruence].
  - apply answers_get; [done..|unfold busy; by rewrite H|congruence].
  - apply Hmove; [done|]. unfold busy. by destruct H as [-> | ->].
  - apply answers_process; auto.
  - apply answers_report; [done..|]. unfold busy. by rewrite H.
  - unfold shutdown_begin. autorewrite with mrun. destruct (_state t); autorewrite with mrun; try done; by apply (answers_eq t).
  - unfold _force_shutdown. autorewrite with mrun. set (t1 := set_events _ _ _ t).
    assert (order t1) as Ho1 by (by apply (order_eq t)). assert (answers t1) as Ha1 by (by apply (answers_eq t)).
    pose proof (answers_fail_active t1 Ho1 Ha1) as Ha2.
    assert (order (fail_active t1).2) as Ho2 by (by apply (order_eq t1)).
    unfold mbind, M_bind. destruct (fail_active t1) as [[] t2]; [|done]. rewrite run_modify. simpl in Ha2, Ho2.
    destruct (drain_pending_run (cancel_worker t2)) as (t' & -> & Hd). simpl.
    eapply answers_drained; [| |exact Hd]; [by apply (order_eq t2)|by apply (answers_eq t2)].
  - unfold shutdown_cancel. pose proof (answers_fail_active t Ho Ha) as Ha1. unfold mbind, M_bind.
    destruct (fail_active t) as [[] t1]; [|done]. by apply (answers_eq t1).
  - unfold shutdown_finish. pose proof (answers_stopped t Ho Ha) as Hs. unfold mbind, M_bind.
    destruct (stopped t) as [[] t1]; [by apply (answers_eq t1)|done].
Qed.

(** ** Futures of different requests *)

Definition futures (l : list queue_item) : list Z := omap item_reply l.

Lemma futures_app l1 l2 : futures (l1 ++ l2) = futures l1 ++ futures l2.
Proof. apply omap_app. Qed.

Lemma futures_elem l f : f ∈ futures l ↔ ∃ e, _RequestItem e f ∈ l.
Proof.
  unfold futures. rewrite list_elem_of_omap. split.
  - intros ([e g|e] & Hx & Hf); [|done]. injection Hf as ->. by exists e.
  - intros [e He]. by exists (_RequestItem e f).
Qed.

(** Only [enqueue_locked] accepts. *)
Lemma accepted_step t t' :
  tstep t t' → accepted t' = accepted t ∨
  ∃ i s, submissions t !! i = Some s ∧ accepted t' = accepted t ++ [sub_item s].
Proof.
  assert (∀ t, accepted (stopped t).2 = accepted t) as Hstop.
  { intros u. unfold stopped. destruct (drain_pending_run u) as (u' & Hrun & Hd). rewrite (M_bind_run _ _ _ _ _ Hrun).
    autorewrite with mrun. simpl. pose proof (dr_rest _ _ Hd) as R. unfold rest in R. by injection R. }
  assert (∀ t, accepted (get_item t).2 = accepted t) as Hget by (intros u; t_open; done).
  destruct 1; try (left; by rewrite Hget); try (by left); try (left; t_open; done).
  - left. unfold start_cancelled. autorewrite with mrun. by rewrite Hstop.
  - t_open; [by left..|]. right. by exists i, s.
  - left. unfold _force_shutdown, fail_active. autorewrite with mrun.
    match goal with |- accepted (_drain_pending ?x).2 = _ => destruct (drain_pending_run x) as (u & -> & Hd) end.
    pose proof (dr_rest _ _ Hd) as R. unfold rest in R. by injection R.
  - left. unfold shutdown_finish. specialize (Hstop t). unfold mbind, M_bind. by destruct (stopped t) as [[] t1].
Qed.

Lemma futures_nodup t t' :
  answers t → NoDup (futures (accepted t)) → tstep t t' → NoDup (futures (accepted t')).
Proof.
  intros Ha Hn Hst. destruct (accepted_step t t' Hst) as [->|(i & s & Hs & ->)]; [done|].
  rewrite futures_app. destruct (sub_item s) as [e f|e] eqn:Hi; simpl; [|by rewrite app_nil_r].
  destruct (an_submitted _ Ha i s e f Hs Hi) as (-> & _). apply NoDup_app. split_and!; [done| |apply NoDup_singleton].
  intros g Hg ->%list_elem_of_singleton. apply futures_elem in Hg as [e' He'].
  destruct (an_accepted _ Ha e' i He') as (_ & ? & _). congruence.
Qed.

(** ** What never changes back *)

Definition closing t : Prop := _state t = STOPPING ∨ _state t = STOPPED.

Record later t t' : Prop := {
  la_max : max_queue_size t' = max_queue_size t;
  la_accepted : accepted t `prefix_of` accepted t';
  la_delivered : delivered t `prefix_of` delivered t';
  la_replies f r : replies t !! f = Some (Some r) → replies t' !! f = Some (Some r);
  la_closing : closing t → closing t' ∧ accepted t' = accepted t;
  la_stopped : _state t = STOPPED → _state t' = STOPPED
}.

Lemma tr_later_refl t : later t t.
Proof. by constructor. Qed.

Lemma tr_later_trans t1 t2 t3 : later t1 t2 → later t2 t3 → later t1 t3.
Proof.
  intros [M1 A1 D1 R1 C1 S1] [M2 A2 D2 R2 C2 S2]. constructor; auto; [congruence|by etrans..|].
  intros Hc. destruct (C1 Hc) as [Hc2 E1]. destruct (C2 Hc2) as [Hc3 E2]. split; [done|congruence].
Qed.

(** Nothing is accepted or delivered, and futures are only set. *)
Lemma later_still t t' :
  (max_queue_size t', accepted t', delivered t') = (max_queue_size t, accepted t, delivered t) →
  (∀ f r, replies t !! f = Some (Some r) → replies t' !! f = Some (Some r)) →
  (closing t → closing t') → (_state t = STOPPED → _state t' = STOPPED) → later t t'.
Proof.
  intros [= E1 E2 E3] HR HC HS. constructor; try done; [by rewrite E2|by rewrite E3|]. intros Hc. auto.
Qed.

Lemma complete_keeps t o r g x : replies t !! g = Some (Some x) → replies (complete o r t) !! g = Some (Some x).
Proof.
  intros Hg. destruct o as [f|]; [|done]. rewrite complete_lookup. case_decide; [subst; by rewrite Hg|done].
Qed.

Lemma drained_keeps t t' g x : drained t t' → replies t !! g = Some (Some x) → replies t' !! g = Some (Some x).
Proof. intros Hd Hg. rewrite (dr_replies _ _ Hd), Hg. by case_decide. Qed.

Lemma later_drained t t' : drained t t' → later t t'.
Proof.
  intros Hd. pose proof (dr_rest _ _ Hd) as R. unfold rest in R.
  injection R as R1 R2 R3 R4 R5 R6 R7 R8 R9 R10 R11 R12 R13.
  apply later_still; [congruence|by intros; eapply drained_keeps|unfold closing; congruence|congruence].
Qed.

Lemma later_stopped t : later t (stopped t).2.
Proof.
  unfold stopped. destruct (drain_pending_run t) as (t' & Hrun & Hd). rewrite (M_bind_run _ _ _ _ _ Hrun).
  autorewrite with mrun. apply (tr_later_trans _ t'); [by apply later_drained|]. apply later_still; try done. by right.
Qed.

Lemma later_get t : later t (get_item t).2.
Proof.
  unfold get_item. autorewrite with mrun. destruct (_queue t) as [|x q]; [by apply later_still|].
  autorewrite with mrun. unfold process_begin. autorewrite with mrun. simpl.
  assert (∀ t', (max_queue_size t', accepted t', delivered t', _state t') =
    (max_queue_size t, accepted t, delivered t ++ [x], _state t) →
    (∀ f r, replies t !! f = Some (Some r) → replies t' !! f = Some (Some r)) → later t t') as Hgo.
  { intros t' [= E1 E2 E3 E4] HR. constructor; unfold closing; rewrite ?E1, ?E2, ?E3, ?E4; auto. by apply prefix_app_r. }
  destruct x as [e f|e]; autorewrite with mrun; simpl.
  - destruct (has_consumer t); simpl; [case_bool_decide|]; autorewrite with mrun; apply Hgo; try done;
      intros; by apply (complete_keeps (set_active _ _)).
  - destruct (has_consumer t); simpl; by apply Hgo.
Qed.

Ltac later_case :=
  apply later_still; try done; intros; repeat (apply complete_keeps); done.

Lemma later_item t item c u : later t (process_end u item c t).2.
Proof. unfold _set_future_error. t_open; unfold _set_future_error; later_case. Qed.

Lemma later_report t item e r u : later t (report_end u item e r t).2.
Proof. t_open; unfold _set_future_error; later_case. Qed.

Lemma later_fail_active t : later t (fail_active t).2.
Proof. unfold fail_active, _set_future_error. autorewrite with mrun. later_case. Qed.

Lemma later_enqueue t i s : later t (enqueue_locked i s t).2.
Proof.
  t_open; try later_case. apply bool_decide_eq_false, dec_stable in Heqb.
  constructor; try done; simpl; [by apply prefix_app_r|]. intros [?|?]; congruence.
Qed.

Lemma later_request t e : answers t → later t (request e t).2.
Proof.
  intros Ha. t_open; try later_case. apply later_still; try done. simpl. intros f r Hf.
  rewrite lookup_insert_ne; [done|]. intros <-. assert (next_id t < next_id t); [|lia].
  apply (an_ids _ Ha). by rewrite Hf.
Qed.

Lemma later_shutdown t : later t (shutdown_begin t).2.
Proof.
  unfold shutdown_begin. autorewrite with mrun. destruct (_state t) eqn:Hs; autorewrite with mrun; try apply tr_later_refl;
    apply later_still; try done; unfold closing; simpl; intuition congruence.
Qed.

Lemma later_force t : later t (_force_shutdown t).2.
Proof.
  unfold _force_shutdown. autorewrite with mrun. set (t1 := set_events _ _ _ t).
  apply (tr_later_trans _ t1); [later_case|]. pose proof (later_fail_active t1) as H2. unfold mbind, M_bind.
  destruct (fail_active t1) as [[] t2]; [|done]. rewrite run_modify. simpl in H2. apply (tr_later_trans _ _ _ H2).
  destruct (drain_pending_run (cancel_worker t2)) as (t' & -> & Hd). simpl.
  apply (tr_later_trans _ (cancel_worker t2)); [later_case|by apply later_drained].
Qed.

Lemma later_step t t' : order t → answers t → tstep t t' → later t t'.
Proof.
  intros Ho Ha Hst. destruct Hst; try (by apply later_get); try (by apply later_item); try (by apply later_report);
    try (by apply later_enqueue); try (by apply later_request); try (by apply later_shutdown); try (by apply later_force);
    try later_case.
  - t_open; [apply tr_later_refl|]. apply bool_decide_eq_false, dec_stable in Heqb. apply later_still; try done;
      unfold closing; simpl; intuition congruence.
  - t_open; [apply tr_later_refl|]. apply later_still; try done; unfold closing; simpl; intuition congruence.
  - unfold start_cancelled. autorewrite with mrun. eapply tr_later_trans; [|apply later_stopped]. later_case.
  - t_open; later_case.
  - t_open; later_case.
  - unfold loop_top. autorewrite with mrun. case_match; [later_case|apply later_get].
  - unfold shutdown_finish. pose proof (later_stopped t) as H2. unfold mbind, M_bind.
    destruct (stopped t) as [[] t1]; [|exact H2]. simpl in *. apply (tr_later_trans _ _ _ H2). later_case.
Qed.

(** ** The invariant *)

Record tr_inv t : Prop := {
  tr_order : order t;
  tr_slots : slots t;
  tr_answers : answers t;
  tr_futures : NoDup (futures (accepted t))
}.

Lemma tr_inv_step t t' : tr_inv t → tstep t t' → tr_inv t'.
Proof.
  intros [Ho Hs Ha Hf] Hst.
  constructor; [by eapply order_step|by eapply slots_step|by eapply answers_step|by eapply futures_nodup].
Qed.

Lemma transport_steps t t' : tr_inv t → rtc tstep t t' → tr_inv t' ∧ later t t'.
Proof.
  intros Hi Hst. induction Hst as [t|t t1 t2 H1 _ IH]; [auto using tr_later_refl|].
  destruct IH as [H2 H3]; [by eapply tr_inv_step|]. split; [done|].
  eapply tr_later_trans; [|done]. destruct Hi. by eapply later_step.
Qed.

Lemma reachable_transport n d h t : t_reachable n d h t → tr_inv t ∧ max_queue_size t = n.
Proof.
  induction 1 as [t Hn|t t' Hr [Hi Hm] Hst].
  - split; [constructor; [by eapply order_new|by eapply slots_new|by eapply answers_new|]|];
      unfold InMemoryTransport_new in Hn; apply result_bind_ok in Hn as ([] & _ & Hn);
      apply result_bind_ok in Hn as ([] & _ & [= <-]); [constructor|done].
  - destruct (transport_steps t t' Hi) as [Hi' Hl]; [by apply rtc_once|]. split; [done|]. by rewrite (la_max _ _ Hl).
Qed.

(** ** A request whose worker is gone *)

Record stranded (f : Z) t : Prop := {
  sd_worker : _worker t = Finished;
  sd_pending : replies t !! f = Some None;
  sd_queue : f ∉ futures (_queue t);
  sd_submissions : submissions t !! f = None;
  sd_next : f < next_id t
}.

Lemma stranded_eq f t t' :
  (_worker t', replies t', _queue t', submissions t', next_id t') =
  (_worker t, replies t, _queue t, submissions t, next_id t) → stranded f t → stranded f t'.
Proof. intros [= E1 E2 E3 E4 E5] []. by constructor; rewrite ?E1, ?E2, ?E3, ?E4, ?E5. Qed.

Lemma stranded_drained f t t' : stranded f t → drained t t' → stranded f t'.
Proof.
  intros [H1 H2 H3 H4 H5] [Q D C U R Hrep]. unfold rest in R.
  injection R as R1 R2 R3 R4 R5 R6 R7 R8 R9 R10 R11 R12 R13.
  constructor; rewrite ?R4, ?R8, ?R9, ?Q; try done; [|set_solver]. by rewrite Hrep, decide_False.
Qed.

Lemma stranded_stopped f t : stranded f t → stranded f (stopped t).2.
Proof.
  intros Hs. unfold stopped. destruct (drain_pending_run t) as (t' & Hrun & Hd). rewrite (M_bind_run _ _ _ _ _ Hrun).
  autorewrite with mrun. apply (stranded_eq f t'); [done|]. by eapply stranded_drained.
Qed.

Lemma stranded_active f t : tr_inv t → stranded f t → (fail_active t) = (Ok tt, t).
Proof.
  intros [_ _ Ha _] Hs. unfold fail_active, _set_future_error, complete. autorewrite with mrun.
  rewrite (an_active _ Ha). unfold busy. rewrite (sd_worker _ _ Hs). simpl. by destruct t.
Qed.

Lemma stranded_step f t t' : tr_inv t → stranded f t → tstep t t' → stranded f t'.
Proof.
  intros Hi Hs Hst. destruct (Hs) as [H1 H2 H3 H4 H5]. destruct Hst; try congruence.
  - t_open; [done|]. apply bool_decide_eq_false, dec_stable in Heqb. pose proof (or_new _ (tr_order _ Hi) Heqb). congruence.
  - t_open; by apply (stranded_eq f t).
  - unfold start_cancelled. autorewrite with mrun. apply stranded_stopped, (stranded_eq f t); done.
  - t_open; try done. constructor; simpl; rewrite ?lookup_insert_ne by lia; try done; lia.
  - t_open; try done. constructor; simpl; rewrite ?lookup_insert_ne by lia; try done; lia.
  - constructor; simpl; try done. rewrite lookup_insert_ne; [done|]. intros ->. congruence.
  - t_open; constructor; simpl; rewrite ?lookup_delete_None; auto. rewrite futures_app. intros [?|Hf]%elem_of_app; [done|].
    apply futures_elem in Hf as [e He%list_elem_of_singleton].
    destruct (an_submitted _ (tr_answers _ Hi) i s e f H (eq_sym He)) as (-> & _). congruence.
  - t_open; constructor; simpl; rewrite ?lookup_delete_None; auto.
  - destruct H; congruence.
  - unfold shutdown_begin. autorewrite with mrun. destruct (_state t); autorewrite with mrun; try done; by apply (stranded_eq f t).
  - unfold _force_shutdown. autorewrite with mrun. set (t1 := set_events _ _ _ t).
    assert (fail_active t1 = (Ok tt, t1)) as Hfa.
    { unfold fail_active, _set_future_error, complete. autorewrite with mrun. simpl.
      rewrite (an_active _ (tr_answers _ Hi)). unfold busy. rewrite H1. done. }
    rewrite (M_bind_run _ _ _ _ _ Hfa), run_bind_modify. destruct (drain_pending_run (cancel_worker t1)) as (t' & -> & Hd). simpl.
    eapply stranded_drained; [|exact Hd]. by apply (stranded_eq f t).
  - unfold shutdown_cancel. rewrite (M_bind_run _ _ _ _ _ (stranded_active f t Hi Hs)). autorewrite with mrun.
    by apply (stranded_eq f t).
  - unfold shutdown_finish. pose proof (stranded_stopped f t Hs) as H6. unfold mbind, M_bind.
    destruct (stopped t) as [[] t1]; [|done]. by apply (stranded_eq f t1).
Qed.

Lemma stranded_forever f t t' : tr_inv t → stranded f t → rtc tstep t t' → stranded f t'.
Proof.
  intros Hi Hs Hst. induction Hst as [t|t t1 t2 H1 _ IH]; [done|].
  apply IH; [by eapply tr_inv_step|by eapply stranded_step].
Qed.

Lemma stopped_delivered t : delivered (stopped t).2 = delivered t.
Proof.
  unfold stopped. destruct (drain_pending_run t) as (u' & Hrun & Hd). rewrite (M_bind_run _ _ _ _ _ Hrun).
  autorewrite with mrun. simpl. pose proof (dr_rest _ _ Hd) as R. unfold rest in R. by injection R.
Qed.

(** A finished worker delivers nothing. *)
Lemma finished_delivered t t' : _worker t = Finished → tstep t t' → delivered t' = delivered t.
Proof.
  intros Hw Hst. destruct Hst; try congruence; try (destruct H; congruence);
    lazymatch goal with
    | |- delivered (start_cancelled _).2 = _ => unfold start_cancelled; autorewrite with mrun; by rewrite stopped_delivered
    | |- delivered (_force_shutdown _).2 = _ => idtac
    | |- delivered (shutdown_finish _).2 = _ => idtac
    | _ => t_open; done
    end.
  - unfold _force_shutdown, fail_active. autorewrite with mrun.
    match goal with |- delivered (_drain_pending ?x).2 = _ => destruct (drain_pending_run x) as (u & -> & Hd) end.
    pose proof (dr_rest _ _ Hd) as R. unfold rest in R. by injection R.
  - unfold shutdown_finish. pose proof (stopped_delivered t). unfold mbind, M_bind. by destruct (stopped t) as [[] t1].
Qed.

Lemma stranded_delivered f t t' : tr_inv t → stranded f t → rtc tstep t t' → delivered t' = delivered t.
Proof.
  intros Hi Hs Hst. induction Hst as [t|t t1 t2 H1 _ IH]; [done|].
  rewrite <- (finished_delivered t t1) by (by destruct Hs).
  apply IH; [by eapply tr_inv_step|by eapply stranded_step].
Qed.

(** The request at the worker is nowhere else. *)
Lemma busy_not_queued t e f : tr_inv t → busy t = Some (_RequestItem e f) → f ∉ futures (_queue t).
Proof.
  intros [Ho _ _ Hn] Hb Hf. rewrite (or_fifo _ Ho), !futures_app in Hn.
  apply NoDup_app in Hn as (_ & Hn & _). apply (Hn f); [|set_solver].
  apply futures_elem. exists e. by apply (or_busy _ Ho).
Qed.

Lemma process_strands t e f u x :
  tr_inv t → _worker t = Consuming (_RequestItem e f) → replies t !! f = Some None →
  stranded f (process_end u (_RequestItem e f) (Raises (CqBaseException x)) t).2.
Proof.
  intros Hi Hw Hf. assert (busy t = Some (_RequestItem e f)) as Hb by (unfold busy; by rewrite Hw).
  assert (_RequestItem e f ∈ accepted t) as Hin.
  { rewrite (or_fifo _ (tr_order _ Hi)). apply elem_of_app. left. by apply (or_busy _ (tr_order _ Hi)). }
  destruct (an_accepted _ (tr_answers _ Hi) e f Hin) as (Hlt & Hsub & _).
  constructor; simpl; try done. by apply (busy_not_queued t e).
Qed.

(** ** A call that holds a slot *)

Lemma holders_pos (m : gmap Z submission) i s : m !! i = Some s → sub_acquired s = true → 1 ≤ holders m.
Proof.
  intros Hi Hs. pose proof (holders_delete m i s Hi) as Hd. rewrite Hs in Hd.
  pose proof (holders_nonneg (delete i m)). lia.
Qed.

Lemma slot_enqueues t i s :
  zlen (_queue t) < max_queue_size t → _state t = RUNNING →
  (enqueue_locked i s t).1 = Ok tt ∧ _queue (enqueue_locked i s t).2 = _queue t ++ [sub_item s].
Proof.
  intros Hq Hr. unfold enqueue_locked, drop_submission, put_nowait. autorewrite with mrun. simpl.
  rewrite Hr, bool_decide_false by (by intros []). autorewrite with mrun. simpl.
  assert ((max_queue_size t <=? zlen (_queue t)) = false) as -> by lia. by autorewrite with mrun.
Qed.
