(* ===== verification/CqProperties.v ===== *)
(** * CQRS: properties *)

From Stdlib Require Import ZArith Lia.
From stdpp Require Import base tactics list gmap strings.
From S2P Require Import Prelude CqMessages CqRegistry CqDispatch CqDispatchFacts.
Local Open Scope Z_scope.

(** ** The registry and the dispatcher *)

Section dispatch.
Context `{Inspection} {A : Type} `{HandlerCode (dispatch_state A), HandlerProvider (dispatch_state A)}.

(** A registry is built from exactly the lists of registrations in which
    every target is a handler, no command or query has two handlers, and no
    event has the same handler twice. It then holds exactly the registrations:
    the handler of a command or query is the one registered for its class, and
    the handlers of an event are those registered for it, in their order. *)
Theorem registry_exact (regs : list RegisteredHandler) :
  (is_ok (HandlerRegistry_build regs) = true ↔ acceptable regs) ∧
  ∀ g, HandlerRegistry_build regs = Ok g →
    (∀ k t r, request_handler g k t = Ok r ↔ k ≠ EVENT ∧ r ∈ regs ∧ kind r = k ∧ message_type r = t) ∧
    ∀ t, event_handlers g t = for_event t regs.
Proof.
  pose proof (build_registry regs) as Hb. split.
  - destruct (HandlerRegistry_build regs); naive_solver.
  - intros g Hg. rewrite Hg in Hb. destruct Hb as [(Hc & Hq & He) _]. split; [|done]. intros k t r.
    rewrite (registered_request regs g k t r) by done. destruct k; naive_solver.
Qed.

(** C19: A command or query put to a running bus, whose class has a handler, goes
    out in an envelope of its own. Dispatching it asks the provider for the
    registered handler, calls that handler with the message, awaits what it
    gives and tells the provider how that ended; the outcome (what the handler
    returned or raised, or the error of a step before or after it) comes back in
    a reply with the envelope's correlation id, from which [execute] gives it to
    the caller. Only an error that is no [Exception] leaves the dispatcher. While
    a command is handled its bus counts as active, so that a nested command is
    refused; afterwards the frame of the call is marked inactive, the context is
    the one of before, and (when the handler left no active frame of its own) no
    context that copied it sees a difference. *)
Theorem execute_roundtrip (regs : list RegisteredHandler) (g : HandlerRegistry) (bh : BusHandles) (r : RegisteredHandler)
    (m : message) (active : bool) (mid did c u : uuid) (now : datetime) (b : _BusLifecycle) (bus : option Z)
    (s : dispatch_state A) :
  HandlerRegistry_build regs = Ok g → r ∈ regs → kind r ≠ EVENT → message_type r = msg_type m →
  _validate_message_kind (kind r) (Some (msg_type m)) = Ok (msg_type m) → dt_aware now = true →
  bus_state b = BUS_RUNNING → (kind r = COMMAND → active = false) →
  ∃ e s1 outcome s2, execute_begin (kind r) active mid did c now (Some m) b = (Ok e, b) ∧ env_message e = m ∧
    served bh r e s1 outcome s2 ∧
    match (dispatch_request g bh u e (kind r) bus s).1 with
    | Ok reply => correlation_id e = Some (reply_correlation_id reply) ∧ execute_end c reply = outcome
    | Err x => outcome = Err x ∧ cq_is_exception x = false
    end ∧
    let s' := (dispatch_request g bh u e (kind r) bus s).2 in
    match command_of (kind r) bus with
    | Some b' =>
        s1 = {| ds_env := ds_env s; frames := frames s ++ [(b', true)];
                _command_invocations := _command_invocations s ++ [length (frames s)] |} ∧
        is_command_bus_active b' s1 = true ∧
        (∀ m', isinstance m' TCommand = true →
           execute_begin COMMAND (is_command_bus_active b' s1) mid did c now (Some m') b =
           (Err NestedCommandDispatchError, b)) ∧
        s' = {| ds_env := ds_env s2; frames := <[length (frames s) := (b', false)]> (frames s2);
                _command_invocations := _command_invocations s |} ∧
        ∀ extra, frames s2 = frames s1 ++ extra → Forall (λ f, f.2 = false) extra →
          ∀ ctx bus', is_command_bus_active bus' (in_context s' ctx) = is_command_bus_active bus' (in_context s ctx)
    | None => s1 = s ∧ s' = s2
    end.
Proof.
  intros Hg Hr Hk Ht Hv Hnow Hb Ha.
  destruct (execute_begin_ok (kind r) active mid did c now m b) as (e & He & Hm & Hc); try done.
  assert (request_handler g (kind r) (msg_type (env_message e)) = Ok r) as Hreg.
  { apply (registered_request regs); [|by rewrite Hm]. pose proof (build_registry regs) as Hbr. rewrite Hg in Hbr. apply Hbr. }
  assert (_validate_request_category e (kind r) = Ok tt) as Hcat by (by apply category_ok; rewrite ?Hm).
  pose proof (dispatch_run g bh u e (kind r) bus c s Hc Hcat) as Hrun.
  rewrite (handle_request_run g bh e (kind r) bus r s Hreg) in Hrun.
  set (s1 := match command_of (kind r) bus with Some b' => entered b' s | None => s end).
  exists e, s1, (_invoke bh r e s1).1, (_invoke bh r e s1).2. rewrite Hrun.
  split_and!; [done|done|apply invoke_served| |].
  - assert ((match command_of (kind r) bus with
             | Some b' => ((_invoke bh r e (entered b' s)).1, left_frame b' s (_invoke bh r e (entered b' s)).2)
             | None => _invoke bh r e s
             end).1 = (_invoke bh r e s1).1) as -> by (unfold s1; by destruct (command_of (kind r) bus)).
    rewrite Hc. unfold dispatch_reply. destruct (_invoke bh r e s1) as [[v|x] a]; simpl.
    { split; [done|apply (execute_end_reply u c (Ok v))]. }
    destruct (cq_is_exception x) eqn:Hx; simpl; [split; [done|apply (execute_end_reply u c (Err x))]|done].
  - unfold s1. destruct (command_of (kind r) bus) as [b'|]; [|done]. split_and!; [done|apply entered_active| |done|].
    + intros m' Hm'. rewrite entered_active. unfold execute_begin. simpl. rewrite Hm'. by autorewrite with mrun.
    + intros extra Hf Hx ctx bus'. by apply (left_inactive b' s _ extra).
Qed.
End dispatch.

(** *** A command class, a query class and an event class *)

Definition ex_inspection : Inspection :=
  {| user_subclass i base := match base with
                             | TMessage => (1 <=? i) && (i <=? 3)
                             | TCommand => i =? 1 | TQuery => i =? 2 | TEvent => i =? 3
                             | TUser j => i =? j
                             end;
     qualified_name t := match t with TUser i => [i] | _ => [] end;
     instance_type i := i; instance_callable _ := false; iscoroutinefunction _ := true;
     parameters_of _ := [(PositionalOrKeyword, false); (PositionalOrKeyword, false)];
     handle_of _ := Some {| handle_callable := true; handle_coroutine := true |} |}.

(** Handler 11 doubles what the application's counter holds, handler 12
    raises. *)
Definition ex_code : HandlerCode (dispatch_state Z) :=
  {| call_handler _ _ _ := mret true;
     await_handler _ x _ := match x with
                            | FunctionTarget 11 =>
                                modify (λ s, {| ds_env := 2 * ds_env s; frames := frames s;
                                                _command_invocations := _command_invocations s |});;
                                s ← get; mret (Some (PyInt (ds_env s)))
                            | _ => raise (CqException 7)
                            end;
     call_target x := mret x |}.

Definition ex_reg (k : HandlerKind) (t f : Z) : RegisteredHandler :=
  {| kind := k; message_type := TUser t; rh_target := FunctionTarget f; style := STYLE_FUNCTION;
     target_mode := MODE_FUNCTION |}.

Definition ex_regs : list RegisteredHandler :=
  [ex_reg COMMAND 1 11; ex_reg QUERY 2 12; ex_reg EVENT 3 11; ex_reg EVENT 3 12].

Definition ex_registry : HandlerRegistry :=
  match HandlerRegistry_build (H := ex_inspection) ex_regs with Ok g => g | Err _ => HandlerRegistry_empty end.

Lemma registry_exact_witness :
  event_handlers ex_registry (TUser 3) = [ex_reg EVENT 3 11; ex_reg EVENT 3 12] ∧
  request_handler (H := ex_inspection) ex_registry COMMAND (TUser 1) = Ok (ex_reg COMMAND 1 11).
Proof.
  destruct (proj2 (registry_exact (H := ex_inspection) ex_regs) ex_registry) as [Hr He]; [by vm_compute|].
  split; [by rewrite He|]. apply Hr. split_and!; [done|by left|done..].
Defined.

Definition ex_handles : BusHandles := {| command_bus := Some 1; query_bus := Some 2; event_bus := Some 3 |}.

#[local] Existing Instance ex_inspection.
#[local] Existing Instance ex_code.
#[local] Existing Instance DefaultHandlerProvider.

Definition ex_message (t : Z) : message := {| msg_type := TUser t; msg_value := PyNone |}.
Definition ex_bus : _BusLifecycle :=
  {| bus_state := BUS_RUNNING; _startup_complete := true; bus_shutdown_complete := false |}.
Definition ex_dispatch : dispatch_state Z := {| ds_env := 21; frames := []; _command_invocations := [] |}.

Lemma execute_roundtrip_witness :
  ∃ e reply s', execute_begin COMMAND false 101 102 103 (Datetime 5 (Some 0)) (Some (ex_message 1)) ex_bus = (Ok e, ex_bus) ∧
    dispatch_request ex_registry ex_handles 104 e COMMAND (Some 1) ex_dispatch = (Ok reply, s') ∧
    execute_end 103 reply = Ok (Some (PyInt 42)) ∧ ds_env s' = 42 ∧
    ∃ s1 outcome s2, served ex_handles (ex_reg COMMAND 1 11) e s1 outcome s2.
Proof.
  destruct (execute_roundtrip ex_regs ex_registry ex_handles (ex_reg COMMAND 1 11) (ex_message 1) false 101 102 103 104
    (Datetime 5 (Some 0)) ex_bus (Some 1) ex_dispatch) as (e & s1 & outcome & s2 & He & _ & Hserved & _); try done; [by left|].
  exists e. simpl in He. pose proof He as He'. vm_compute in He'. injection He' as <-.
  eexists _, _. split; [exact He|]. split; [by vm_compute|]. split; [by vm_compute|]. split; [by vm_compute|].
  exists s1, outcome, s2. exact Hserved.
Defined.
