(* ===== verification/CqTransportProperties.v ===== *)
(** * CQRS: properties of the in-memory transport

    What holds in every state the transport can reach, under every interleaving
    of its callers, its worker and a shutdown, and for every consumer and error
    handler. *)

From Stdlib Require Import ZArith Lia.
From stdpp Require Import base tactics list gmap strings.
From S2P Require Import Prelude CqMessages CqTransport CqTransportFacts CqTransportReplies.
Local Open Scope Z_scope.

Implicit Types t : transport.

(** The queue never holds more than the configured number of messages. Free
    slots, queued messages and calls that hold a slot always add up to that
    number, and a call that holds a slot while the transport is running always
    gets its message into the queue. *)
Theorem transport_bounded (n : Z) (d : option Z) (h : bool) t :
  t_reachable n d h t →
  zlen (_queue t) ≤ n ∧ 0 ≤ _capacity t ∧ _capacity t + zlen (_queue t) + holders (submissions t) = n ∧
  _unfinished t = zlen (_queue t) + count (busy t) ∧
  ∀ i s, submissions t !! i = Some s → sub_acquired s = true → _state t = RUNNING →
    (enqueue_locked i s t).1 = Ok tt ∧ _queue (enqueue_locked i s t).2 = _queue t ++ [sub_item s].
Proof.
  intros [Hi Hm]%reachable_transport. destruct (tr_slots _ Hi) as [H1 H2 H3 H4 _]. rewrite Hm in H3.
  pose proof (holders_nonneg (submissions t)). split_and!; [lia..|]. intros i s Hs Ha Hr.
  apply slot_enqueues; [|done]. pose proof (holders_pos _ _ _ Hs Ha). lia.
Qed.

(** C20: Messages reach the consumer in the order in which they were accepted,
    and each once: what was accepted is what was delivered, then what a shutdown
    dropped, then what is queued. Only a transport that is closing drops
    messages, a stopped one has none left in its queue. What was accepted and
    delivered stays so, and once the transport is closing it accepts nothing
    more. *)
Theorem transport_fifo (n : Z) (d : option Z) (h : bool) t :
  t_reachable n d h t →
  accepted t = delivered t ++ dropped t ++ _queue t ∧
  (dropped t ≠ [] → closing t ∧ _queue t = []) ∧ (_state t = STOPPED → _queue t = []) ∧
  ∀ t', rtc tstep t t' →
    accepted t `prefix_of` accepted t' ∧ delivered t `prefix_of` delivered t' ∧
    (closing t → closing t' ∧ accepted t' = accepted t).
Proof.
  intros [Hi _]%reachable_transport. destruct (tr_order _ Hi) as [_ _ _ _ H5 H6 H7 _ _].
  split_and!; [done|by intros [? ?]%H6|done|]. intros t' Hst. destruct (transport_steps t t' Hi Hst) as [_ []]. done.
Qed.

(** C21: Every request that was accepted is answered, in the queue, with the
    worker, or was lost with the worker; in a stopped transport none is in the
    queue. A request has one future, no other request has it, the reply it gets
    has the request's correlation id, and it keeps that reply. *)
Theorem requests_answered (n : Z) (d : option Z) (h : bool) t e f :
  t_reachable n d h t → _RequestItem e f ∈ accepted t →
  (answered t f ∨ _RequestItem e f ∈ _queue t ∨ busy t = Some (_RequestItem e f) ∨ _RequestItem e f ∈ lost t) ∧
  (_state t = STOPPED → answered t f ∨ busy t = Some (_RequestItem e f) ∨ _RequestItem e f ∈ lost t) ∧
  NoDup (futures (accepted t)) ∧
  ∀ r, replies t !! f = Some (Some r) →
    (∀ reply, r = Ok reply → correlation_id e = Some (reply_correlation_id reply)) ∧
    ∀ t', rtc tstep t t' → replies t' !! f = Some (Some r).
Proof.
  intros [Hi _]%reachable_transport Hin. pose proof (an_answered _ (tr_answers _ Hi) e f Hin) as Hans.
  split_and!; [done| |by destruct Hi|].
  - intros Hs. rewrite (or_stopped _ (tr_order _ Hi) Hs) in Hans. destruct Hans as [?|[[]%not_elem_of_nil|?]]; auto.
  - intros r Hr. split; [intros reply ->; exact (an_proper _ (tr_answers _ Hi) e f _ Hin Hr)|].
    intros t' Hst. destruct (transport_steps t t' Hi Hst) as [_ Hl]. by apply (la_replies _ _ Hl).
Qed.

(** A consumer that raises an error which is neither an [Exception] nor a
    cancellation ends the worker: the request it was handling is never answered,
    whatever happens later, and nothing that is still queued is ever delivered. *)
Theorem base_exception_strands_request (n : Z) (d : option Z) (h : bool) t e f (u : uuid) (x : Z) :
  t_reachable n d h t → _worker t = Consuming (_RequestItem e f) → replies t !! f = Some None →
  let t1 := (process_end u (_RequestItem e f) (Raises (CqBaseException x)) t).2 in
  tstep t t1 ∧ _worker t1 = Finished ∧ _state t1 = _state t ∧ _queue t1 = _queue t ∧
  ∀ t', rtc tstep t1 t' → replies t' !! f = Some None ∧ delivered t' = delivered t.
Proof.
  intros [Hi _]%reachable_transport Hw Hf t1.
  assert (tstep t t1) as Hst by (by apply t_consumed). split_and!; [done..|]. intros t' Hrun.
  assert (tr_inv t1) as Hi1 by (by eapply tr_inv_step).
  assert (stranded f t1) as Hs by (by apply (process_strands t e)).
  split; [by apply (sd_pending f t'), (stranded_forever f t1)|]. change (delivered t) with (delivered t1). by apply (stranded_delivered f t1).
Qed.

(** ** A run: one request at the worker, one queued *)

Definition ex_envelope (i : Z) : Envelope :=
  {| env_message := {| msg_type := TUser 1; msg_value := PyNone |}; env_message_type := [1]; message_id := i;
     correlation_id := Some (100 + i); causation_id := None; headers := [];
     delivery := {| delivery_id := i; enqueued_at := Datetime 5 (Some 0); attempt := 1 |} |}.

Definition ex_item (i : Z) : queue_item := _RequestItem (ex_envelope i) i.

Definition ex_new : transport :=
  {| max_queue_size := 1; has_error_handler := false; _queue := []; _unfinished := 0; _capacity := 1;
     has_consumer := false; _worker := NoWorker; worker_cancelling := false; _active_request := None;
     _stop_event := false; _force_shutdown_event := false; _shutdown_complete := false; _state := NEW; replies := ∅;
     submissions := ∅; next_id := 0; shutdown_task := NoShutdown; accepted := []; delivered := []; dropped := [];
     lost := [] |}.

Definition ex_started : transport := (start_ready (set_worker AtLoop (start_begin ex_new).2)).2.

(** Request [i] is made and gets a slot. *)
Definition ex_holding (i : Z) t : transport :=
  acquire i {| sub_item := ex_item i; sub_acquired := false |} (request (ex_envelope i) t).2.
Definition ex_submit (i : Z) t : transport :=
  (enqueue_locked i {| sub_item := ex_item i; sub_acquired := true |} (ex_holding i t)).2.

Definition ex_busy : transport := (loop_top (ex_submit 0 ex_started)).2.
Definition ex_both : transport := ex_submit 1 ex_busy.
(** The first request is answered, and the transport is shut down. *)
Definition ex_stopping : transport :=
  let reply := {| reply_id := 9; reply_correlation_id := 100; reply_result := None; reply_error := None |} in
  (shutdown_begin (process_end 0 (ex_item 0) (Returns (Some reply)) ex_both).2).2.
Definition ex_closed : transport := (shutdown_finish (shutdown_cancel ex_stopping).2).2.

Lemma ex_started_reachable : t_reachable 1 None false ex_started.
Proof.
  eapply t_next; [eapply t_next; [eapply t_next; [by apply t_new|apply t_start]|by apply t_worker]|by apply t_ready].
Qed.

Lemma ex_holding_reachable i t :
  t_reachable 1 None false t → submissions (request (ex_envelope i) t).2 !! i = Some {| sub_item := ex_item i; sub_acquired := false |} →
  0 < _capacity (request (ex_envelope i) t).2 → t_reachable 1 None false (ex_holding i t).
Proof. intros Hr Hs Hc. eapply t_next; [|by apply t_acquire]. eapply t_next; [exact Hr|apply t_request]. Qed.

Lemma ex_submit_reachable i t :
  t_reachable 1 None false (ex_holding i t) → submissions (ex_holding i t) !! i = Some {| sub_item := ex_item i; sub_acquired := true |} →
  _state (ex_holding i t) ≠ STARTING → t_reachable 1 None false (ex_submit i t).
Proof. intros Hr Hs Hn. eapply t_next; [exact Hr|by apply t_enqueue]. Qed.

Lemma ex_busy_reachable : t_reachable 1 None false ex_busy.
Proof.
  eapply t_next; [|by apply t_loop]. apply ex_submit_reachable; [|by vm_compute..].
  apply ex_holding_reachable; [apply ex_started_reachable|by vm_compute..].
Qed.

Lemma ex_held_reachable : t_reachable 1 None false (ex_holding 1 ex_busy).
Proof. apply ex_holding_reachable; [apply ex_busy_reachable|by vm_compute..]. Qed.

Lemma ex_both_reachable : t_reachable 1 None false ex_both.
Proof. apply ex_submit_reachable; [apply ex_held_reachable|by vm_compute..]. Qed.

Lemma ex_closed_reachable : t_reachable 1 None false ex_closed.
Proof.
  apply (t_next _ _ _ (shutdown_cancel ex_stopping).2); [|by apply t_shutdown_finish].
  apply (t_next _ _ _ ex_stopping); [|by apply t_shutdown_cancel].
  eapply t_next; [eapply t_next; [apply ex_both_reachable|by apply t_consumed]|by apply t_shutdown].
Qed.

Lemma transport_bounded_witness :
  zlen (_queue ex_both) ≤ 1 ∧
  (enqueue_locked 1 {| sub_item := ex_item 1; sub_acquired := true |} (ex_holding 1 ex_busy)).1 = Ok tt.
Proof.
  split; [apply (transport_bounded 1 None false ex_both ex_both_reachable)|].
  apply (transport_bounded 1 None false (ex_holding 1 ex_busy) ex_held_reachable); by vm_compute.
Defined.

Lemma transport_fifo_witness :
  [ex_item 0; ex_item 1] = delivered ex_closed ++ dropped ex_closed ++ _queue ex_closed ∧ dropped ex_closed = [ex_item 1].
Proof. split; [apply (transport_fifo 1 None false ex_closed ex_closed_reachable)|by vm_compute]. Defined.

Lemma requests_answered_witness :
  (answered ex_closed 1 ∨ busy ex_closed = Some (ex_item 1) ∨ ex_item 1 ∈ lost ex_closed) ∧
  replies ex_closed !! 1 = Some (Some (Err TransportStoppedError)).
Proof.
  split; [|by vm_compute].
  apply (requests_answered 1 None false ex_closed (ex_envelope 1) 1 ex_closed_reachable); [|by vm_compute].
  assert (accepted ex_closed = [ex_item 0; ex_item 1]) as -> by (by vm_compute). set_solver.
Defined.

Lemma base_exception_strands_request_witness :
  let t1 := (process_end 0 (ex_item 0) (Raises (CqBaseException 1)) ex_both).2 in
  _worker t1 = Finished ∧ _queue t1 = [ex_item 1] ∧
  ∀ t', rtc tstep t1 t' → replies t' !! 0 = Some None ∧ delivered t' = [ex_item 0].
Proof.
  destruct (base_exception_strands_request 1 None false ex_both (ex_envelope 0) 0 0 1 ex_both_reachable)
    as (_ & Hw & _ & Hq & Hf); [by vm_compute..|]. split_and!; [exact Hw|exact Hq|exact Hf].
Defined.
