(* ===== verification/Pipeline.v ===== *)
(** * Interceptor chains

    The code around a handler in the message, HTTP and WebSocket pipelines and
    around an intercepted provider: [dispatch] and [next_once]. What an
    interceptor does is a program [icode] over the state [S]: it runs code of its
    own, awaits its [next] callback any number of times, and returns or raises. *)

From Stdlib Require Import ZArith Lia.
From stdpp Require Import base tactics list.
From S2P Require Import Prelude.
Local Open Scope Z_scope.

Section interceptors.
Context {S E R O : Type}.

Inductive icode : Type :=
| IDone (r : result E O)
| INext (k : result E R → icode)
| IStep (f : S → S) (k : S → icode).

(** [interceptor.intercept(context, next_once)]; [double] is raised by a second
    call of the callback. *)
Fixpoint run_icode (double : E) (next : M S E R) (called : bool) (p : icode) : M S E O :=
  match p with
  | IDone r => lift r
  | INext k =>
      if called then run_icode double next true (k (Err double))
      else λ s, run_icode double next true (k (next s).1) (next s).2
  | IStep f k => λ s, run_icode double next called (k (f s)) (f s)
  end.

(** [dispatch(0)]: [wrap] finds the interceptor of an entry, [accept] checks what
    it returned. *)
Fixpoint dispatch {I} (double : E) (wrap : I → M S E icode) (accept : O → result E R) (entries : list I)
    (terminal : M S E R) : M S E R :=
  match entries with
  | [] => terminal
  | i :: entries =>
      p ← wrap i;
      o ← run_icode double (dispatch double wrap accept entries terminal) false p;
      lift (accept o)
  end.

(** ** How often the terminal runs *)

(** A method moves [count] by at most [n]. *)
Definition grows {A} (count : S → Z) (n : Z) (m : M S E A) : Prop :=
  ∀ s, count s ≤ count (m s).2 ≤ count s + n.

(** The interceptor's own code does not change the view. *)
Fixpoint quiet {T} (view : S → T) (p : icode) : Prop :=
  match p with
  | IDone _ => True
  | INext k => ∀ r, quiet view (k r)
  | IStep f k => (∀ s, view (f s) = view s) ∧ ∀ s, quiet view (k s)
  end.

Lemma run_icode_keeps {T} (view : S → T) double next called p :
  keeps view next → quiet view p → keeps view (run_icode double next called p).
Proof.
  intros Hnext. revert called. induction p as [r|k IH|f k IH]; intros called Hq s; simpl in *; [done| |].
  - destruct called; [by apply IH|]. rewrite IH by done. apply Hnext.
  - destruct Hq as [Hf Hk]. rewrite IH by done. apply Hf.
Qed.

Lemma keeps_bind_ok {A B T} (view : S → T) (m : M S E A) (f : A → M S E B) :
  keeps view m → (∀ s x, (m s).1 = Ok x → keeps view (f x)) → keeps view (m ≫= f).
Proof.
  intros Hm Hf s. unfold mbind, M_bind. specialize (Hm s). specialize (Hf s). destruct (m s) as [[x|e] s1]; simpl in *; [|done].
  by rewrite (Hf x eq_refl s1).
Qed.

Lemma dispatch_keeps {T I} (view : S → T) double (wrap : I → M S E icode) accept entries terminal :
  keeps view terminal →
  (∀ i, i ∈ entries → keeps view (wrap i) ∧ ∀ s p, (wrap i s).1 = Ok p → quiet view p) →
  keeps view (dispatch double wrap accept entries terminal).
Proof.
  intros Ht. induction entries as [|i entries IH]; intros Hw; [done|]. simpl. destruct (Hw i) as [Hk Hq]; [by left|].
  apply keeps_bind_ok; [done|]. intros s p Hp. apply keeps_bind; [|intros; apply keeps_lift].
  apply run_icode_keeps; [|by eapply Hq]. apply IH. intros j Hj. apply Hw. by right.
Qed.

Lemma keeps_mapM {A B T} (view : S → T) (f : A → M S E B) l :
  (∀ x, keeps view (f x)) → keeps view (mapM f l).
Proof.
  intros Hf. induction l as [|x l IH]; simpl; [apply keeps_ret|].
  apply keeps_bind; [done|]. intros y. apply keeps_bind; [done|]. intros ys. apply keeps_ret.
Qed.

Lemma grows_keeps {A} count (m : M S E A) : keeps count m → grows count 0 m.
Proof. intros Hm s. rewrite (Hm s). lia. Qed.

Lemma grows_keeps_n {A} count n (m : M S E A) : 0 ≤ n → keeps count m → grows count n m.
Proof. intros Hn Hm s. rewrite (Hm s). lia. Qed.

Lemma grows_le {A} count a b (m : M S E A) : a ≤ b → grows count a m → grows count b m.
Proof. intros Hab Hm s. specialize (Hm s). lia. Qed.

Lemma grows_bind {A B} count a b (m : M S E A) (f : A → M S E B) :
  0 ≤ b → grows count a m → (∀ x, grows count b (f x)) → grows count (a + b) (m ≫= f).
Proof.
  intros Hb Hm Hf s. unfold mbind, M_bind. specialize (Hm s). destruct (m s) as [[x|e] s1]; simpl in *; [|lia].
  specialize (Hf x s1). lia.
Qed.

(** The two ways to sequence code of which one part is counted. *)
Lemma grows_bind_l {A B} count n (m : M S E A) (f : A → M S E B) :
  grows count n m → (∀ x, keeps count (f x)) → grows count n (m ≫= f).
Proof. intros Hm Hf. rewrite <- (Z.add_0_r n). apply grows_bind; [lia|done|]. intros x. by apply grows_keeps. Qed.

Lemma grows_bind_r {A B} count n (m : M S E A) (f : A → M S E B) :
  0 ≤ n → keeps count m → (∀ x, grows count n (f x)) → grows count n (m ≫= f).
Proof. intros Hn Hm Hf. rewrite <- (Z.add_0_l n). apply grows_bind; [lia|by apply grows_keeps|done]. Qed.

Lemma grows_bind_ok {A B} count n (m : M S E A) (f : A → M S E B) :
  0 ≤ n → keeps count m → (∀ s x, (m s).1 = Ok x → grows count n (f x)) → grows count n (m ≫= f).
Proof.
  intros Hn Hm Hf s. unfold mbind, M_bind. specialize (Hm s). specialize (Hf s).
  destruct (m s) as [[x|e] s1]; simpl in *; [|lia]. specialize (Hf x eq_refl s1). lia.
Qed.

Lemma grows_try {A} count n (m : M S E A) (h : E → M S E A) :
  grows count n m → (∀ e, keeps count (h e)) → grows count n (try_except m h).
Proof.
  intros Hm Hh s. unfold try_except. specialize (Hm s). destruct (m s) as [[x|e] s1]; simpl in *; [done|].
  by rewrite (Hh e s1).
Qed.

Lemma run_icode_grows double next count n p (called : bool) :
  0 ≤ n → grows count n next → quiet count p →
  grows count (if called then 0 else n) (run_icode double next called p).
Proof.
  intros Hn Hnext. revert called. induction p as [r|k IH|f k IH]; intros called Hq s; simpl in *.
  - destruct called; lia.
  - destruct called; [by apply (IH _ true)|]. pose proof (Hnext s). destruct (next s) as [r s1]. simpl in *.
    pose proof (IH r true (Hq r) s1). simpl in *. lia.
  - destruct Hq as [Hf Hk]. rewrite <- (Hf s). by apply IH.
Qed.

(** However often the interceptors call their callbacks, the terminal runs at
    most once. *)
Lemma dispatch_grows {I} double (wrap : I → M S E icode) accept count n entries terminal :
  0 ≤ n → grows count n terminal →
  (∀ i, i ∈ entries → keeps count (wrap i) ∧ ∀ s p, (wrap i s).1 = Ok p → quiet count p) →
  grows count n (dispatch double wrap accept entries terminal).
Proof.
  intros Hn Ht. induction entries as [|i entries IH]; intros Hw; [done|]. simpl.
  assert (grows count n (dispatch double wrap accept entries terminal)) as IH' by (apply IH; intros j Hj; apply Hw; by right).
  destruct (Hw i) as [Hk Hq]; [by left|]. apply grows_bind_ok; [done..|]. intros s p Hp. apply grows_bind_l.
  - apply (run_icode_grows _ _ _ n p false); [done..|]. by eapply Hq.
  - intros o. apply keeps_lift.
Qed.
End interceptors.
Arguments icode : clear implicits.

(** ** Outcomes

    Whatever the state, a method returns a value in [P] or raises an error in [Q]. *)

Section outcomes.
Context {S E : Type}.

Definition ensures {A} (P : A → Prop) (Q : E → Prop) (m : M S E A) : Prop :=
  ∀ s, match (m s).1 with Ok a => P a | Err e => Q e end.

Lemma ensures_ret {A} (P : A → Prop) (Q : E → Prop) a : P a → ensures P Q (mret a).
Proof. by intros ??. Qed.
Lemma ensures_raise {A} (P : A → Prop) (Q : E → Prop) e : Q e → ensures P Q (raise e).
Proof. by intros ??. Qed.
Lemma ensures_lift {A} (P : A → Prop) (Q : E → Prop) r :
  match r with Ok a => P a | Err e => Q e end → ensures P Q (lift r).
Proof. by intros ??. Qed.
Lemma ensures_weaken {A} (P P' : A → Prop) (Q Q' : E → Prop) m :
  ensures P Q m → (∀ a, P a → P' a) → (∀ e, Q e → Q' e) → ensures P' Q' m.
Proof. intros Hm HP HQ s. specialize (Hm s). destruct (m s).1; auto. Qed.
Lemma ensures_bind {A B} (R : A → Prop) (P : B → Prop) (Q : E → Prop) (m : M S E A) (f : A → M S E B) :
  ensures R Q m → (∀ a, R a → ensures P Q (f a)) → ensures P Q (m ≫= f).
Proof.
  intros Hm Hf s. unfold mbind, M_bind. specialize (Hm s). destruct (m s) as [[a|e] s1]; simpl in *; [|done]. by apply Hf.
Qed.
Lemma ensures_try {A} (P : A → Prop) (R Q : E → Prop) (m : M S E A) (h : E → M S E A) :
  ensures P R m → (∀ e, R e → ensures P Q (h e)) → ensures P Q (try_except m h).
Proof.
  intros Hm Hh s. unfold try_except. specialize (Hm s). destruct (m s) as [[a|e] s1]; simpl in *; [done|]. by apply Hh.
Qed.
Lemma ensures_any {A} (m : M S E A) : ensures (λ _, True) (λ _, True) m.
Proof. intros s. by destruct (m s).1. Qed.
End outcomes.
