(* ===== verification/MsWire.v ===== *)
(** * Microservices: identities and wire values

    [errors.py], [identities.py] and [wire.py] of [tori_py_microservices]. The
    JSON encoding of a value, which [msgspec] computes, is the class [Json]. *)

From Stdlib Require Import ZArith Lia.
From stdpp Require Import base tactics list gmap strings.
From S2P Require Import Prelude.
Local Open Scope Z_scope.

(** [MsException] is any other [Exception] of the application. *)
Inductive ms_error :=
| IdentityValidationError
| WireValidationError
| WireEncodingError
| WireDecodingError
| WireSizeLimitError
| WireDeadlineError
| TransportStateError
| TransportUnroutableError
| TransportCapacityError
| TransportCorrelationError
| TransportOtherError
| DuplicateSettlementError
| MsValueError
| MsTypeError
| MsKeyError
| MsgspecError
| MsException (id : Z).
#[export] Instance ms_error_eq_dec : EqDecision ms_error.
Proof. solve_decision. Defined.

(** [isinstance(e, TransportError)]; [TransportOtherError] stands for the kinds
    the in-memory transport does not raise. *)
Definition is_transport_error (e : ms_error) : bool :=
  match e with
  | TransportStateError | TransportUnroutableError | TransportCapacityError | TransportCorrelationError
  | TransportOtherError | DuplicateSettlementError => true
  | _ => false
  end.

(** ** Identities *)

(** [str(n)] for a positive [n]; the fuel is at least the number of digits. *)
Fixpoint digits (fuel : nat) (n : Z) : pystr :=
  match fuel with
  | O => []
  | S fuel => if n <? 10 then [48 + n] else digits fuel (n / 10) ++ [48 + n mod 10]
  end.

Definition dec (n : Z) : pystr := digits (S (Z.to_nat (Z.log2 n))) n.

Definition dot : Z := 46.

Definition alias_start (c : Z) : bool := (97 <=? c) && (c <=? 122).
Definition alias_char (c : Z) : bool := alias_start c || (48 <=? c) && (c <=? 57) || (c =? 95) || (c =? 45).

Definition alias_pattern (s : pystr) : bool :=
  match s with
  | c :: r => alias_start c && forallb alias_char r && (zlen r <=? 62)
  | [] => false
  end.

Definition _validate_alias (value : pyobj) : result ms_error pystr :=
  match value with
  | PyStr s => if alias_pattern s then Ok s else Err IdentityValidationError
  | _ => Err IdentityValidationError
  end.

Definition _validate_version (value : pyobj) : result ms_error Z :=
  match value with
  | PyInt n => if n <=? 0 then Err IdentityValidationError else Ok n
  | _ => Err IdentityValidationError
  end.

(** The names are ASCII, one byte for each character. *)
Definition _validate_composed_name (s : pystr) : result ms_error unit :=
  raise_if (match utf8_len s with Some n => 255 <? n | None => true end) IdentityValidationError.

Record ServiceIdentity := { namespace : pystr; svc_name : pystr; contract_version : Z }.

Definition label (s : ServiceIdentity) : pystr :=
  namespace s ++ dot :: svc_name s ++ dot :: 118 :: dec (contract_version s).

Definition ServiceIdentity_new (namespace name version : pyobj) : result ms_error ServiceIdentity :=
  ns ← _validate_alias namespace;
  n ← _validate_alias name;
  v ← _validate_version version;
  let s := {| namespace := ns; svc_name := n; contract_version := v |} in
  _ ← _validate_composed_name (label s);
  Ok s.

(** A service identity that was constructed. *)
Definition valid_service (s : ServiceIdentity) : Prop := ∃ ns n v, ServiceIdentity_new ns n v = Ok s.

Record RpcTarget := { rpc_service : ServiceIdentity; rpc_method : pystr; rpc_schema_version : Z }.

Definition rpc_routing_key (t : RpcTarget) : pystr := label (rpc_service t) ++ dot :: rpc_method t.

Definition RpcTarget_new (service : ServiceIdentity) (method version : pyobj) : result ms_error RpcTarget :=
  m ← _validate_alias method;
  v ← _validate_version version;
  let t := {| rpc_service := service; rpc_method := m; rpc_schema_version := v |} in
  _ ← _validate_composed_name (rpc_routing_key t);
  Ok t.

Record EventIdentity := { ev_source : ServiceIdentity; ev_event : pystr; ev_schema_version : Z }.

Definition exchange_name (e : EventIdentity) : pystr := str "tori_py.events." ++ label (ev_source e).
Definition event_routing_key (e : EventIdentity) : pystr := ev_event e ++ dot :: 118 :: dec (ev_schema_version e).

Definition EventIdentity_new (source : ServiceIdentity) (event version : pyobj) : result ms_error EventIdentity :=
  e ← _validate_alias event;
  v ← _validate_version version;
  let i := {| ev_source := source; ev_event := e; ev_schema_version := v |} in
  _ ← _validate_composed_name (exchange_name i);
  _ ← _validate_composed_name (event_routing_key i);
  Ok i.

Definition hex_char (c : Z) : bool := (48 <=? c) && (c <=? 57) || (97 <=? c) && (c <=? 102).

(** A [ReplyRoute] is its value. *)
Definition ReplyRoute_new (value : pyobj) : result ms_error pystr :=
  match value with
  | PyStr s => if bool_decide (take 6 s = str "reply.") && (zlen s =? 38) && forallb hex_char (drop 6 s)
               then Ok s else Err WireValidationError
  | _ => Err WireValidationError
  end.

Record MessageLimits := {
  max_envelope_bytes : Z;
  max_header_count : Z;
  max_header_bytes : Z;
  max_nesting_depth : Z;
  max_collection_items : Z
}.

Definition MessageLimits_default : MessageLimits :=
  {| max_envelope_bytes := 1024 * 1024; max_header_count := 64; max_header_bytes := 64 * 1024;
     max_nesting_depth := 64; max_collection_items := 10000 |}.

Definition positive_limit (v : pyobj) : result ms_error Z :=
  match v with PyInt n => if n <=? 0 then Err WireValidationError else Ok n | _ => Err WireValidationError end.

Definition MessageLimits_new (envelope headers header_bytes depth items : pyobj) : result ms_error MessageLimits :=
  a ← positive_limit envelope; b ← positive_limit headers; c ← positive_limit header_bytes;
  d ← positive_limit depth; e ← positive_limit items;
  Ok {| max_envelope_bytes := a; max_header_count := b; max_header_bytes := c; max_nesting_depth := d;
        max_collection_items := e |}.

Definition require_utc (v : pyobj) : result ms_error datetime :=
  match v with
  | PyDatetime d => if bool_decide (dt_offset d = Some 0) then Ok d else Err WireValidationError
  | _ => Err WireValidationError
  end.

Definition require_uuid (v : pyobj) : result ms_error uuid :=
  match v with PyUUID u => Ok u | _ => Err WireValidationError end.

Definition optional_id (v : pyobj) : result ms_error (option uuid) :=
  match v with PyNone => Ok None | _ => u ← require_uuid v; Ok (Some u) end.

Definition require_future_deadline (created_at deadline_at : pyobj) : result ms_error (datetime * datetime) :=
  c ← require_utc created_at;
  d ← require_utc deadline_at;
  _ ← raise_if (dt_leb d c) WireValidationError;
  Ok (c, d).

(** The order of Python strings, by code point. *)
Fixpoint str_leb (a b : pystr) : bool :=
  match a, b with
  | [], _ => true
  | _ :: _, [] => false
  | x :: a, y :: b => if x =? y then str_leb a b else x <? y
  end.

(** ** Header values *)

Inductive wkey := KeyStr (s : pystr) | KeyOther (id : Z).

(** What a header may hold: a float is finite or not, 0 is [0.0], a mapping is
    its items, and a list or tuple its elements. *)
Inductive wvalue :=
| WNone
| WBool (b : bool)
| WInt (n : Z)
| WFloat (id : Z) (finite : bool)
| WStr (s : pystr)
| WMap (items : list (wkey * wvalue))
| WList (tuple : bool) (items : list wvalue)
| WOther (id : Z).

Definition header_key (k : wkey) : result ms_error wkey :=
  match k with
  | KeyStr (c :: r) => Ok k
  | _ => Err WireValidationError
  end.

Fixpoint _freeze_value (max_depth max_items depth : Z) (v : wvalue) : result ms_error wvalue :=
  _ ← raise_if (max_depth <? depth) WireValidationError;
  match v with
  | WFloat _ finite => _ ← raise_if (negb finite) WireValidationError; Ok v
  | WNone | WBool _ | WInt _ | WStr _ => Ok v
  | WMap items =>
      _ ← raise_if (max_items <? zlen items) WireSizeLimitError;
      frozen ← (fix go (l : list (wkey * wvalue)) : result ms_error (list (wkey * wvalue)) :=
        match l with
        | [] => Ok []
        | (k, x) :: l =>
            k ← header_key k;
            x ← _freeze_value max_depth max_items (depth + 1) x;
            r ← go l; Ok ((k, x) :: r)
        end) items;
      Ok (WMap frozen)
  | WList _ items =>
      _ ← raise_if (max_items <? zlen items) WireSizeLimitError;
      frozen ← (fix go (l : list wvalue) : result ms_error (list wvalue) :=
        match l with
        | [] => Ok []
        | x :: l =>
            x ← _freeze_value max_depth max_items (depth + 1) x;
            r ← go l; Ok (x :: r)
        end) items;
      Ok (WList true frozen)
  | WOther _ => Err WireValidationError
  end.

(** [msgspec.json.encode]. *)
Class Json := { json_encode : wvalue → result ms_error bytes }.

Fixpoint _plain_value (v : wvalue) : wvalue :=
  match v with
  | WMap items => WMap ((fix go (l : list (wkey * wvalue)) := match l with
                        | [] => [] | (k, x) :: l => (k, _plain_value x) :: go l end) items)
  | WList true items => WList false ((fix go (l : list wvalue) := match l with
                        | [] => [] | x :: l => _plain_value x :: go l end) items)
  | _ => v
  end.

Definition falsy (v : wvalue) : bool :=
  match v with
  | WNone | WBool false | WInt 0 | WFloat 0 _ | WStr [] | WMap [] | WList _ [] => true
  | _ => false
  end.

Section wire.
Context `{Json}.

Definition freeze_headers (headers : wvalue) (limits : option MessageLimits) : result ms_error wvalue :=
  let limits := default MessageLimits_default limits in
  let source := if falsy headers then WMap [] else headers in
  match source with
  | WMap items =>
      _ ← raise_if (max_header_count limits <? zlen items) WireValidationError;
      frozen ← _freeze_value (max_nesting_depth limits) (max_collection_items limits) 0 source;
      data ← json_encode (_plain_value frozen);
      _ ← raise_if (max_header_bytes limits <? zlen data) WireSizeLimitError;
      Ok frozen
  | _ => Err WireValidationError
  end.

(** ** Envelopes *)

Record MessageMetadata := {
  md_message_id : uuid;
  md_created_at : datetime;
  md_correlation_id : option uuid;
  md_causation_id : option uuid;
  md_headers : wvalue
}.

Definition MessageMetadata_new (message_id created_at correlation_id causation_id : pyobj) (headers : wvalue)
    (limits : option MessageLimits) : result ms_error MessageMetadata :=
  m ← require_uuid message_id;
  t ← require_utc created_at;
  co ← optional_id correlation_id;
  ca ← optional_id causation_id;
  h ← freeze_headers headers limits;
  Ok {| md_message_id := m; md_created_at := t; md_correlation_id := co; md_causation_id := ca; md_headers := h |}.

Record RemoteRpcErrorData := { rd_code : pystr; rd_message : pystr; rd_retryable : bool; rd_details : wvalue }.

Definition non_empty (v : pyobj) : result ms_error pystr :=
  match v with PyStr (c :: r) => Ok (c :: r) | _ => Err WireValidationError end.

Definition RemoteRpcErrorData_new (code message retryable : pyobj) (details : wvalue) (limits : option MessageLimits)
    : result ms_error RemoteRpcErrorData :=
  c ← non_empty code;
  m ← non_empty message;
  _ ← raise_if (4096 <? zlen m) WireValidationError;
  match retryable with
  | PyBool b =>
      d ← freeze_headers details limits;
      Ok {| rd_code := c; rd_message := m; rd_retryable := b; rd_details := d |}
  | _ => Err WireValidationError
  end.

Record RpcRequestEnvelope := {
  rq_message_id : uuid;
  rq_target : RpcTarget;
  rq_created_at : datetime;
  rq_deadline_at : datetime;
  rq_correlation_id : uuid;
  rq_causation_id : option uuid;
  rq_reply_to : pystr;
  rq_headers : wvalue;
  rq_payload : wvalue
}.

(** [reply_to] is a [ReplyRoute], or [None] for any other object. *)
Definition RpcRequestEnvelope_new (message_id : pyobj) (service : ServiceIdentity) (method schema_version created_at
    deadline_at correlation_id causation_id : pyobj) (reply_to : option pystr) (headers payload : wvalue)
    (limits : option MessageLimits) : result ms_error RpcRequestEnvelope :=
  target ← RpcTarget_new service method schema_version;
  m ← require_uuid message_id;
  co ← require_uuid correlation_id;
  ca ← optional_id causation_id;
  times ← match require_future_deadline created_at deadline_at with
          | Err WireValidationError => Err WireDeadlineError
          | r => r
          end;
  match reply_to with
  | None => Err WireValidationError
  | Some route =>
      h ← freeze_headers headers limits;
      Ok {| rq_message_id := m; rq_target := target; rq_created_at := times.1; rq_deadline_at := times.2;
            rq_correlation_id := co; rq_causation_id := ca; rq_reply_to := route; rq_headers := h;
            rq_payload := payload |}
  end.

Record RpcResponseEnvelope := {
  rs_message_id : uuid;
  rs_correlation_id : uuid;
  rs_completed_at : datetime;
  rs_outcome : wvalue + RemoteRpcErrorData
}.

(** [result] is [None] for [RESULT_MISSING]. *)
Definition RpcResponseEnvelope_new (message_id correlation_id completed_at : pyobj) (result : option wvalue)
    (error : option RemoteRpcErrorData) : Prelude.result ms_error RpcResponseEnvelope :=
  m ← require_uuid message_id;
  c ← require_uuid correlation_id;
  t ← require_utc completed_at;
  match result, error with
  | Some r, None => Ok {| rs_message_id := m; rs_correlation_id := c; rs_completed_at := t; rs_outcome := inl r |}
  | None, Some e => Ok {| rs_message_id := m; rs_correlation_id := c; rs_completed_at := t; rs_outcome := inr e |}
  | _, _ => Err WireValidationError
  end.

Record EventEnvelope := {
  ee_message_id : uuid;
  ee_identity : EventIdentity;
  ee_occurred_at : datetime;
  ee_correlation_id : option uuid;
  ee_causation_id : option uuid;
  ee_headers : wvalue;
  ee_payload : wvalue
}.

Definition EventEnvelope_new (message_id : pyobj) (source : ServiceIdentity) (event schema_version occurred_at
    correlation_id causation_id : pyobj) (headers payload : wvalue) (limits : option MessageLimits)
    : result ms_error EventEnvelope :=
  identity ← EventIdentity_new source event schema_version;
  m ← require_uuid message_id;
  t ← require_utc occurred_at;
  co ← optional_id correlation_id;
  ca ← optional_id causation_id;
  h ← freeze_headers headers limits;
  Ok {| ee_message_id := m; ee_identity := identity; ee_occurred_at := t; ee_correlation_id := co;
        ee_causation_id := ca; ee_headers := h; ee_payload := payload |}.
End wire.
