(* ===== verification/MsValues.v ===== *)
(** * Microservices: publications, deliveries and subscriptions

    [transport.py] of [tori_py_microservices], with the settlement outcomes of
    [invocation.py]. *)

From Stdlib Require Import ZArith Lia.
From stdpp Require Import base tactics list gmap strings.
From S2P Require Import Prelude MsWire.
Local Open Scope Z_scope.

Inductive TransportStatus := CREATED | PREPARED | RUNNING | QUIESCING | CLOSED.
#[export] Instance TransportStatus_eq_dec : EqDecision TransportStatus.
Proof. solve_decision. Defined.

Inductive SettlementRecommendation := ACK | RETRY | REJECT | UNSETTLED.
#[export] Instance SettlementRecommendation_eq_dec : EqDecision SettlementRecommendation.
Proof. solve_decision. Defined.

(** The native value of a publication: a pair of strings is an exchange and a
    routing key. *)
Inductive native_value := NativePair (exchange key : pystr) | NativeOther (id : Z).

Inductive dispatch_mode := SERVICE_POOL | SINGLETON | BROADCAST.
#[export] Instance dispatch_mode_eq_dec : EqDecision dispatch_mode.
Proof. solve_decision. Defined.

Record EventSubscription := {
  sub_identity : EventIdentity;
  sub_mode : dispatch_mode;
  sub_name : pystr;
  sub_destination : option ServiceIdentity;
  sub_instance : option pystr;
  sub_reliable : bool
}.

Definition mode_of (s : pyobj) : result ms_error dispatch_mode :=
  match s with
  | PyStr s => if bool_decide (s = str "service_pool") then Ok SERVICE_POOL
               else if bool_decide (s = str "singleton") then Ok SINGLETON
               else if bool_decide (s = str "broadcast") then Ok BROADCAST
               else Err MsValueError
  | _ => Err MsValueError
  end.

(** [reliable] is [None] when it was not given; [uuid_hex] is the text of a fresh
    [uuid4]. *)
Definition EventSubscription_new (uuid_hex : pystr) (identity : EventIdentity) (mode subscription : pyobj)
    (destination : option ServiceIdentity) (instance_id : pyobj) (reliable : option pyobj)
    : result ms_error EventSubscription :=
  m ← mode_of mode;
  s ← _validate_alias subscription;
  i ← match instance_id with PyNone => Ok None | v => a ← _validate_alias v; Ok (Some a) end;
  r ← match default (PyBool (negb (bool_decide (m = BROADCAST)))) reliable with
      | PyBool b => Ok b
      | _ => Err MsValueError
      end;
  _ ← raise_if (negb (bool_decide (m = BROADCAST)) && negb r) MsValueError;
  _ ← raise_if (bool_decide (m = SERVICE_POOL) && bool_decide (destination = None)) MsValueError;
  _ ← raise_if (bool_decide (m = BROADCAST) && r && bool_decide (i = None)) MsValueError;
  _ ← raise_if (bool_decide (m = BROADCAST) && bool_decide (destination = None)) MsValueError;
  Ok {| sub_identity := identity; sub_mode := m; sub_name := s; sub_destination := destination;
        sub_instance := if bool_decide (m = BROADCAST) && bool_decide (i = None)
                        then Some (str "instance-" ++ uuid_hex) else i;
        sub_reliable := r |}.

Record Publication := {
  pub_message_id : uuid;
  pub_routing_key : pystr;
  pub_body : bytes;
  pub_headers : wvalue;
  pub_mandatory : bool;
  pub_correlation_id : option uuid;
  pub_reply_to : option pystr;
  pub_native : option native_value;
  pub_expires_at : option datetime
}.

Record EncodedDelivery := {
  dl_message_id : uuid;
  dl_routing_key : pystr;
  dl_body : bytes;
  dl_headers : wvalue;
  dl_received_at : datetime;
  dl_attempt : Z;
  dl_redelivered : bool;
  dl_correlation_id : option uuid;
  dl_reply_to : option pystr;
  dl_native : option native_value;
  dl_expires_at : option datetime;
  dl_subscription : option EventSubscription
}.

Record PublicationReceipt := { rc_message_id : uuid; rc_accepted_at : datetime; rc_routed : bool }.

Definition routing_key_of (v : pyobj) : result ms_error pystr :=
  match v with PyStr (c :: r) => Ok (c :: r) | _ => Err MsValueError end.
Definition body_of (v : pyobj) : result ms_error bytes :=
  match v with PyBytes b => Ok b | _ => Err MsTypeError end.
Definition flag_of (v : pyobj) : result ms_error bool :=
  match v with PyBool b => Ok b | _ => Err MsValueError end.
Definition attempt_of (v : pyobj) : result ms_error Z :=
  match v with PyInt n => if n <=? 0 then Err MsValueError else Ok n | _ => Err MsValueError end.
Definition optional_utc (v : pyobj) : result ms_error (option datetime) :=
  match v with PyNone => Ok None | _ => d ← require_utc v; Ok (Some d) end.

Section values.
Context `{Json}.

Definition Publication_new (message_id routing_key body : pyobj) (headers : wvalue) (mandatory correlation_id : pyobj)
    (reply_to : option pystr) (native : option native_value) (expires_at : pyobj) : result ms_error Publication :=
  m ← require_uuid message_id;
  k ← routing_key_of routing_key;
  b ← body_of body;
  f ← flag_of mandatory;
  c ← optional_id correlation_id;
  e ← optional_utc expires_at;
  h ← freeze_headers headers None;
  Ok {| pub_message_id := m; pub_routing_key := k; pub_body := b; pub_headers := h; pub_mandatory := f;
        pub_correlation_id := c; pub_reply_to := reply_to; pub_native := native; pub_expires_at := e |}.

Definition EncodedDelivery_new (message_id routing_key body : pyobj) (headers : wvalue) (received_at attempt redelivered
    correlation_id : pyobj) (reply_to : option pystr) (native : option native_value) (expires_at : pyobj)
    (subscription : option EventSubscription) : result ms_error EncodedDelivery :=
  m ← require_uuid message_id;
  k ← routing_key_of routing_key;
  b ← body_of body;
  t ← require_utc received_at;
  a ← attempt_of attempt;
  r ← flag_of redelivered;
  c ← optional_id correlation_id;
  e ← optional_utc expires_at;
  h ← freeze_headers headers None;
  Ok {| dl_message_id := m; dl_routing_key := k; dl_body := b; dl_headers := h; dl_received_at := t; dl_attempt := a;
        dl_redelivered := r; dl_correlation_id := c; dl_reply_to := reply_to; dl_native := native; dl_expires_at := e;
        dl_subscription := subscription |}.

Definition PublicationReceipt_new (message_id accepted_at routed : pyobj) : result ms_error PublicationReceipt :=
  m ← require_uuid message_id;
  t ← require_utc accepted_at;
  r ← flag_of routed;
  Ok {| rc_message_id := m; rc_accepted_at := t; rc_routed := r |}.

(** Optional values as Python objects. *)
Definition py_uuid (o : option uuid) : pyobj := match o with Some u => PyUUID u | None => PyNone end.
Definition py_datetime (o : option datetime) : pyobj := match o with Some d => PyDatetime d | None => PyNone end.

(** [dataclasses.replace(p, mandatory=..., native=...)] validates again. *)
Definition replace (p : Publication) (mandatory : bool) (native : option native_value) : result ms_error Publication :=
  Publication_new (PyUUID (pub_message_id p)) (PyStr (pub_routing_key p)) (PyBytes (pub_body p)) (pub_headers p)
    (PyBool mandatory) (py_uuid (pub_correlation_id p)) (pub_reply_to p) native (py_datetime (pub_expires_at p)).
(** A publication has gone through its constructor. *)
Definition valid_publication (p : Publication) : Prop :=
  ∃ m k b h f c r n e, Publication_new m k b h f c r n e = Ok p.

End values.
