(* ===== verification/MsBroker.v ===== *)
(** * Microservices: the in-memory broker

    [inmemory.py] of [tori_py_microservices]: [InMemoryBroker] with its queues,
    and the endpoints of servers and clients. Queues, servers, clients and reply
    queues are objects on a heap, since several variables refer to them. Between
    two awaits a coroutine runs alone, so each such section is a function on the
    broker; [MsEndpoints] puts them together.

    A record of a delivery has no [queue_name], which is never read, and no flag
    [settled]: a record leaves its queue when it is settled. Streams of status
    events are left out. The fields [places], [flights] and [deliveries_made] record
    where each queued publication is, the queue and the server of each delivery,
    and which attempts were delivered; the program keeps no such record. *)

From Stdlib Require Import ZArith Lia.
From stdpp Require Import base tactics list gmap strings.
From S2P Require Import Prelude MsWire MsValues.
Local Open Scope Z_scope.

(** ** Objects *)

(** A copy of a publication in one queue; [qp_id] is its identity. *)
Record QueuedPublication := {
  qp_id : Z;
  qp_publication : Publication;
  qp_attempt : Z;
  qp_redelivered : bool
}.

Record DeliveryRecord := { dr_server : Z; dr_delivery : EncodedDelivery; dr_queued : QueuedPublication }.

Record Consumer := { cs_server : Z; cs_prefetch : Z; cs_in_flight : Z; cs_active : bool }.

(** The task of a queue: none yet, in its loop, waiting for [wake], or ended. *)
Inductive queue_task := NoTask | Polling | Sleeping | TaskDone.

Record queue := {
  q_name : pystr;
  messages : list QueuedPublication;
  consumers : list (pystr * Consumer);
  deliveries : list (Z * DeliveryRecord);
  cursor : Z;
  wake : bool;
  q_task : queue_task
}.

Record server := {
  sv_service : ServiceIdentity;
  replica_id : pystr;
  prefetch : Z;
  sv_status : TransportStatus;
  _queue_names : gset pystr;
  _subscriptions_by_queue : gmap pystr EventSubscription;
  _delivery_queues : gmap Z pystr;
  _tasks : gset Z;
  _in_flight : Z;
  has_dispatcher : bool
}.

(** An [asyncio.Queue] of replies; [None] tells the client that it is closed. *)
Record reply_queue := { rq_items : list (option EncodedDelivery); rq_max : Z }.

Record client := {
  cl_reply_to : pystr;
  max_pending_replies : Z;
  cl_reply_queue : option Z;
  cl_status : TransportStatus;
  _pending_replies : gset uuid;
  _completed_replies : list uuid;
  _receive_replies : bool
}.

(** Where a call of [InMemoryServerTransport.close] is: in its first
    [stop_server], waiting for the dispatch tasks, in its second [stop_server],
    or at its end; a queue may be half removed. *)
Inductive close_phase :=
| FirstStop (removing : option pystr) (rest : list Z)
| WaitTasks
| SecondStop (removing : option pystr) (rest : list Z)
| CloseDone.
Record closer := { cr_server : Z; cr_phase : close_phase }.

(** How a queued publication ended, and where it is. *)
Inductive ending := EndAcked | EndRejected | EndDead | EndExpired.
Inductive place := InQueue (i : Z) | InFlight (i key : Z) | Ended (e : ending).

Record topology := {
  _queues : list (pystr * Z);
  _rpc_queues : list (pystr * pystr);
  _event_routes : gmap (pystr * pystr) (gset pystr);
  _ephemeral_queues : gset pystr;
  _reliable_broadcast_owners : gmap pystr Z
}.

Record broker := {
  max_queue_messages : Z;
  max_delivery_attempts : Z;
  dead_letters : list EncodedDelivery;
  topo : topology;
  queue_heap : gmap Z queue;
  server_heap : gmap Z server;
  _servers : gset Z;
  _reply_queues : gmap pystr Z;
  reply_heap : gmap Z reply_queue;
  client_heap : gmap Z client;
  _clients : gset Z;
  _closed : bool;
  next_object : Z;
  closers : list closer;
  places : gmap Z place;
  flights : gmap Z (Z * Z);
  deliveries_made : list (Z * Z)
}.

Abbreviation B := (M broker ms_error).

Definition InMemoryBroker_new (max_messages max_attempts : pyobj) : result ms_error broker :=
  m ← match max_messages with PyInt n => if n <=? 0 then Err MsValueError else Ok n
                            | PyBool true => Ok 1 | _ => Err MsValueError end;
  a ← match max_attempts with PyInt n => if n <=? 0 then Err MsValueError else Ok n
                            | PyBool true => Ok 1 | _ => Err MsValueError end;
  Ok {| max_queue_messages := m; max_delivery_attempts := a; dead_letters := [];
        topo := {| _queues := []; _rpc_queues := []; _event_routes := ∅; _ephemeral_queues := ∅;
                   _reliable_broadcast_owners := ∅ |};
        queue_heap := ∅; server_heap := ∅; _servers := ∅; _reply_queues := ∅; reply_heap := ∅; client_heap := ∅;
        _clients := ∅; _closed := false; next_object := 0; closers := []; places := ∅; flights := ∅; deliveries_made := [] |}.

(** ** Updates *)

Definition set_queues (f : gmap Z queue → gmap Z queue) (b : broker) : broker :=
  {| max_queue_messages := max_queue_messages b; max_delivery_attempts := max_delivery_attempts b;
     dead_letters := dead_letters b; topo := topo b; queue_heap := f (queue_heap b); server_heap := server_heap b;
     _servers := _servers b; _reply_queues := _reply_queues b; reply_heap := reply_heap b;
     client_heap := client_heap b; _clients := _clients b; _closed := _closed b; next_object := next_object b;
     closers := closers b; places := places b; flights := flights b;
     deliveries_made := deliveries_made b |}.
Definition set_servers (f : gmap Z server → gmap Z server) (b : broker) : broker :=
  {| max_queue_messages := max_queue_messages b; max_delivery_attempts := max_delivery_attempts b;
     dead_letters := dead_letters b; topo := topo b; queue_heap := queue_heap b; server_heap := f (server_heap b);
     _servers := _servers b; _reply_queues := _reply_queues b; reply_heap := reply_heap b;
     client_heap := client_heap b; _clients := _clients b; _closed := _closed b; next_object := next_object b;
     closers := closers b; places := places b; flights := flights b;
     deliveries_made := deliveries_made b |}.
Definition set_topo (f : topology → topology) (b : broker) : broker :=
  {| max_queue_messages := max_queue_messages b; max_delivery_attempts := max_delivery_attempts b;
     dead_letters := dead_letters b; topo := f (topo b); queue_heap := queue_heap b; server_heap := server_heap b;
     _servers := _servers b; _reply_queues := _reply_queues b; reply_heap := reply_heap b;
     client_heap := client_heap b; _clients := _clients b; _closed := _closed b; next_object := next_object b;
     closers := closers b; places := places b; flights := flights b;
     deliveries_made := deliveries_made b |}.
Definition set_registered (f : gset Z → gset Z) (b : broker) : broker :=
  {| max_queue_messages := max_queue_messages b; max_delivery_attempts := max_delivery_attempts b;
     dead_letters := dead_letters b; topo := topo b; queue_heap := queue_heap b; server_heap := server_heap b;
     _servers := f (_servers b); _reply_queues := _reply_queues b; reply_heap := reply_heap b;
     client_heap := client_heap b; _clients := _clients b; _closed := _closed b; next_object := next_object b;
     closers := closers b; places := places b; flights := flights b;
     deliveries_made := deliveries_made b |}.
Definition set_dead (f : list EncodedDelivery → list EncodedDelivery) (b : broker) : broker :=
  {| max_queue_messages := max_queue_messages b; max_delivery_attempts := max_delivery_attempts b;
     dead_letters := f (dead_letters b); topo := topo b; queue_heap := queue_heap b; server_heap := server_heap b;
     _servers := _servers b; _reply_queues := _reply_queues b; reply_heap := reply_heap b;
     client_heap := client_heap b; _clients := _clients b; _closed := _closed b; next_object := next_object b;
     closers := closers b; places := places b; flights := flights b;
     deliveries_made := deliveries_made b |}.
(** The clients, the reply queues and the routes to them. *)
Definition set_replies (routes : gmap pystr Z → gmap pystr Z) (heap : gmap Z reply_queue → gmap Z reply_queue)
    (clients : gmap Z client → gmap Z client) (registered : gset Z → gset Z) (b : broker) : broker :=
  {| max_queue_messages := max_queue_messages b; max_delivery_attempts := max_delivery_attempts b;
     dead_letters := dead_letters b; topo := topo b; queue_heap := queue_heap b; server_heap := server_heap b;
     _servers := _servers b; _reply_queues := routes (_reply_queues b); reply_heap := heap (reply_heap b);
     client_heap := clients (client_heap b); _clients := registered (_clients b); _closed := _closed b;
     next_object := next_object b; closers := closers b; places := places b; flights := flights b;
     deliveries_made := deliveries_made b |}.
Definition set_closed (b : broker) : broker :=
  {| max_queue_messages := max_queue_messages b; max_delivery_attempts := max_delivery_attempts b;
     dead_letters := dead_letters b; topo := topo b; queue_heap := queue_heap b; server_heap := server_heap b;
     _servers := _servers b; _reply_queues := _reply_queues b; reply_heap := reply_heap b;
     client_heap := client_heap b; _clients := _clients b; _closed := true; next_object := next_object b;
     closers := closers b; places := places b; flights := flights b;
     deliveries_made := deliveries_made b |}.
Definition set_closers (f : list closer → list closer) (b : broker) : broker :=
  {| max_queue_messages := max_queue_messages b; max_delivery_attempts := max_delivery_attempts b;
     dead_letters := dead_letters b; topo := topo b; queue_heap := queue_heap b; server_heap := server_heap b;
     _servers := _servers b; _reply_queues := _reply_queues b; reply_heap := reply_heap b;
     client_heap := client_heap b; _clients := _clients b; _closed := _closed b; next_object := next_object b;
     closers := f (closers b); places := places b; flights := flights b;
     deliveries_made := deliveries_made b |}.
Definition set_history (f : gmap Z place → gmap Z place) (g : gmap Z (Z * Z) → gmap Z (Z * Z))
    (made : list (Z * Z)) (b : broker) : broker :=
  {| max_queue_messages := max_queue_messages b; max_delivery_attempts := max_delivery_attempts b;
     dead_letters := dead_letters b; topo := topo b; queue_heap := queue_heap b; server_heap := server_heap b;
     _servers := _servers b; _reply_queues := _reply_queues b; reply_heap := reply_heap b;
     client_heap := client_heap b; _clients := _clients b; _closed := _closed b; next_object := next_object b;
     closers := closers b; places := f (places b); flights := g (flights b);
     deliveries_made := deliveries_made b ++ made |}.
Definition take_object (b : broker) : broker :=
  {| max_queue_messages := max_queue_messages b; max_delivery_attempts := max_delivery_attempts b;
     dead_letters := dead_letters b; topo := topo b; queue_heap := queue_heap b; server_heap := server_heap b;
     _servers := _servers b; _reply_queues := _reply_queues b; reply_heap := reply_heap b;
     client_heap := client_heap b; _clients := _clients b; _closed := _closed b; next_object := next_object b + 1;
     closers := closers b; places := places b; flights := flights b;
     deliveries_made := deliveries_made b |}.

(** A new object's identity. *)
Definition fresh : B Z := b ← get; modify take_object;; mret (next_object b).

(** A queued publication is now there. *)
Definition placed (x : Z) (p : place) : B unit := modify (set_history <[x := p]> id []).

Definition set_messages (l : list QueuedPublication) (q : queue) : queue :=
  {| q_name := q_name q; messages := l; consumers := consumers q; deliveries := deliveries q; cursor := cursor q;
     wake := wake q; q_task := q_task q |}.
Definition set_consumers (c : list (pystr * Consumer)) (q : queue) : queue :=
  {| q_name := q_name q; messages := messages q; consumers := c; deliveries := deliveries q; cursor := cursor q;
     wake := wake q; q_task := q_task q |}.
Definition set_deliveries (d : list (Z * DeliveryRecord)) (q : queue) : queue :=
  {| q_name := q_name q; messages := messages q; consumers := consumers q; deliveries := d; cursor := cursor q;
     wake := wake q; q_task := q_task q |}.
Definition set_cursor (c : Z) (q : queue) : queue :=
  {| q_name := q_name q; messages := messages q; consumers := consumers q; deliveries := deliveries q; cursor := c;
     wake := wake q; q_task := q_task q |}.
Definition set_task (w : bool) (t : queue_task) (q : queue) : queue :=
  {| q_name := q_name q; messages := messages q; consumers := consumers q; deliveries := deliveries q;
     cursor := cursor q; wake := w; q_task := t |}.
(** [queue.wake.set()] *)
Definition set_wake (q : queue) : queue := set_task true (q_task q) q.

Definition set_status (s : TransportStatus) (v : server) : server :=
  {| sv_service := sv_service v; replica_id := replica_id v; prefetch := prefetch v; sv_status := s;
     _queue_names := _queue_names v; _subscriptions_by_queue := _subscriptions_by_queue v;
     _delivery_queues := _delivery_queues v; _tasks := _tasks v; _in_flight := _in_flight v;
     has_dispatcher := has_dispatcher v |}.
Definition set_names (n : gset pystr) (s : gmap pystr EventSubscription) (v : server) : server :=
  {| sv_service := sv_service v; replica_id := replica_id v; prefetch := prefetch v; sv_status := sv_status v;
     _queue_names := n; _subscriptions_by_queue := s; _delivery_queues := _delivery_queues v; _tasks := _tasks v;
     _in_flight := _in_flight v; has_dispatcher := has_dispatcher v |}.
Definition set_flight (d : gmap Z pystr) (t : gset Z) (n : Z) (v : server) : server :=
  {| sv_service := sv_service v; replica_id := replica_id v; prefetch := prefetch v; sv_status := sv_status v;
     _queue_names := _queue_names v; _subscriptions_by_queue := _subscriptions_by_queue v; _delivery_queues := d;
     _tasks := t; _in_flight := n; has_dispatcher := has_dispatcher v |}.
Definition set_dispatcher (v : server) : server :=
  {| sv_service := sv_service v; replica_id := replica_id v; prefetch := prefetch v; sv_status := sv_status v;
     _queue_names := _queue_names v; _subscriptions_by_queue := _subscriptions_by_queue v;
     _delivery_queues := _delivery_queues v; _tasks := _tasks v; _in_flight := _in_flight v; has_dispatcher := true |}.

Definition set_client (status : TransportStatus) (pending : gset uuid) (completed : list uuid) (c : client) : client :=
  {| cl_reply_to := cl_reply_to c; max_pending_replies := max_pending_replies c; cl_reply_queue := cl_reply_queue c;
     cl_status := status; _pending_replies := pending; _completed_replies := completed;
     _receive_replies := _receive_replies c |}.

(** Reading and changing an object. *)
Definition queue_at (i : Z) : B queue :=
  b ← get; match queue_heap b !! i with Some q => mret q | None => raise MsKeyError end.
Definition server_at (i : Z) : B server :=
  b ← get; match server_heap b !! i with Some v => mret v | None => raise MsKeyError end.
Definition client_at (i : Z) : B client :=
  b ← get; match client_heap b !! i with Some c => mret c | None => raise MsKeyError end.
Definition on_queue (i : Z) (f : queue → queue) : B unit := modify (set_queues (alter f i)).
Definition on_server (i : Z) (f : server → server) : B unit := modify (set_servers (alter f i)).
Definition on_client (i : Z) (f : client → client) : B unit := modify (set_replies id id (alter f i) id).

(** [del d[k]] and [d.pop(k, None)] *)
Definition dict_del {K A} `{EqDecision K} (d : list (K * A)) (k : K) : list (K * A) := filter (λ kv, kv.1 ≠ k) d.

(** [self._queues[name]] *)
Definition named (name : pystr) : B Z :=
  b ← get; match dict_get (_queues (topo b)) name with Some i => mret i | None => raise MsKeyError end.

Definition _require_open : B unit := b ← get; throw_if (_closed b) TransportStateError.

(** ** Registering *)

Definition with_queues (d : list (pystr * Z)) (t : topology) : topology :=
  {| _queues := d; _rpc_queues := _rpc_queues t; _event_routes := _event_routes t;
     _ephemeral_queues := _ephemeral_queues t; _reliable_broadcast_owners := _reliable_broadcast_owners t |}.
Definition with_rpc (d : list (pystr * pystr)) (t : topology) : topology :=
  {| _queues := _queues t; _rpc_queues := d; _event_routes := _event_routes t;
     _ephemeral_queues := _ephemeral_queues t; _reliable_broadcast_owners := _reliable_broadcast_owners t |}.
Definition with_events (r : gmap (pystr * pystr) (gset pystr)) (e : gset pystr) (o : gmap pystr Z) (t : topology) : topology :=
  {| _queues := _queues t; _rpc_queues := _rpc_queues t; _event_routes := r; _ephemeral_queues := e;
     _reliable_broadcast_owners := o |}.

(** [None] is a failed assertion, which a valid subscription never meets. *)
Definition _event_queue_name (s : EventSubscription) : option pystr :=
  let i := sub_identity s in
  let prefix := str "tori_py.event." ++ label (ev_source i) ++ dot :: ev_event i ++ dot :: 118 :: dec (ev_schema_version i) in
  match sub_mode s with
  | SERVICE_POOL =>
      d ← sub_destination s; Some (prefix ++ str "--pool." ++ label d ++ dot :: sub_name s)
  | SINGLETON => Some (prefix ++ str "--singleton." ++ sub_name s)
  | BROADCAST =>
      x ← sub_instance s; d ← sub_destination s;
      Some (prefix ++ str "--broadcast." ++ label d ++ dot :: sub_name s ++ dot :: x)
  end.

Definition new_queue (name : pystr) : queue :=
  {| q_name := name; messages := []; consumers := []; deliveries := []; cursor := 0; wake := false; q_task := NoTask |}.

(** [self._queues.setdefault(name, _Queue(name))] *)
Definition ensure_queue (name : pystr) : B unit :=
  b ← get;
  match dict_get (_queues (topo b)) name with
  | Some _ => mret tt
  | None =>
      i ← fresh;
      modify (set_queues <[i := new_queue name]>);;
      modify (set_topo (λ t, with_queues (dict_set (_queues t) name i) t))
  end.

Definition _servers_by_replica (replica : pystr) : B (option Z) :=
  b ← get;
  mret (snd <$> list_find (λ i, replica_id <$> server_heap b !! i = Some replica) (elements (_servers b))).

Definition rpc_queue_name (s : ServiceIdentity) : pystr := str "rpc." ++ label s.

Definition method_ok (m : pyobj) : result ms_error unit :=
  match m with PyStr (_ :: _) => Ok tt | _ => Err MsValueError end.

Definition check_owner (s : Z) (p : EventSubscription * pystr) : B unit :=
  b ← get;
  throw_if (bool_decide (sub_mode p.1 = BROADCAST) && sub_reliable p.1 &&
            match _reliable_broadcast_owners (topo b) !! p.2 with Some o => negb (o =? s) | None => false end)
    TransportStateError.

Definition register_subscription (s : Z) (p : EventSubscription * pystr) : B unit :=
  check_owner s p;;
  let '(sub, name) := p in
  let broadcast := bool_decide (sub_mode sub = BROADCAST) in
  let key := (exchange_name (sub_identity sub), event_routing_key (sub_identity sub)) in
  modify (set_topo (λ t, with_events (_event_routes t)
    (if broadcast && negb (sub_reliable sub) then {[ name ]} ∪ _ephemeral_queues t else _ephemeral_queues t)
    (if broadcast && sub_reliable sub then <[name := s]> (_reliable_broadcast_owners t) else _reliable_broadcast_owners t) t));;
  ensure_queue name;;
  modify (set_topo (λ t, with_events (<[key := {[ name ]} ∪ default ∅ (_event_routes t !! key)]> (_event_routes t))
    (_ephemeral_queues t) (_reliable_broadcast_owners t) t));;
  on_server s (λ v, set_names ({[ name ]} ∪ _queue_names v) (<[name := sub]> (_subscriptions_by_queue v)) v).

Definition queue_names (subs : list EventSubscription) : result ms_error (list pystr) :=
  rmap (λ s, match _event_queue_name s with Some n => Ok n | None => Err (MsException 0) end) subs.

Definition register_server (s : Z) (rpc_methods : list pyobj) (subs : list EventSubscription) : B unit :=
  _require_open;;
  v ← server_at s;
  owner ← _servers_by_replica (replica_id v);
  throw_if (match owner with Some o => negb (o =? s) | None => false end) TransportStateError;;
  lift (rmap method_ok rpc_methods);;
  names ← lift (queue_names subs);
  mfor (check_owner s) (zip subs names);;
  modify (set_registered (union {[ s ]}));;
  let name := rpc_queue_name (sv_service v) in
  ensure_queue name;;
  modify (set_topo (λ t, with_rpc (dict_set (_rpc_queues t) (label (sv_service v)) name) t));;
  on_server s (λ v, set_names ({[ name ]} ∪ _queue_names v) (_subscriptions_by_queue v) v);;
  mfor (register_subscription s) (zip subs names).

(** ** Starting and stopping consumers *)

Definition start_consumer (s : Z) (name : pystr) : B unit :=
  v ← server_at s;
  i ← named name;
  let c := {| cs_server := s; cs_prefetch := prefetch v; cs_in_flight := 0; cs_active := true |} in
  on_queue i (λ q, set_consumers (dict_set (consumers q) (replica_id v) c) q);;
  on_queue i (λ q, match q_task q with
                   | NoTask | TaskDone => set_task true Polling q
                   | _ => set_wake q
                   end).

Definition start_server (s : Z) : B unit :=
  v ← server_at s;
  mfor (start_consumer s) (elements (_queue_names v)).

(** An unsettled delivery goes back to the front of its queue. *)
Definition requeue_delivery (s i : Z) (kv : Z * DeliveryRecord) : B unit :=
  let '(key, record) := kv in
  if negb (dr_server record =? s) then mret tt
  else
    let m := dr_queued record in
    let m := {| qp_id := qp_id m; qp_publication := qp_publication m; qp_attempt := qp_attempt m + 1;
                qp_redelivered := true |} in
    on_queue i (λ q, set_messages (m :: messages q) (set_deliveries (dict_del (deliveries q) key) q));;
    modify (set_history <[qp_id m := InQueue i]> (delete key) []);;
    on_server s (λ v, set_flight (delete key (_delivery_queues v)) (_tasks v) (_in_flight v - 1) v).

Definition forget_name (name : pystr) (v : server) : server :=
  set_names (_queue_names v ∖ {[ name ]}) (delete name (_subscriptions_by_queue v)) v.

(** [_remove_queue] up to its await, and whether it waits for the queue's task.
    The queue keeps its messages, but no publication finds it any more. *)
Definition remove_queue_begin (name : pystr) : B bool :=
  b ← get;
  match dict_get (_queues (topo b)) name with
  | None => mret false
  | Some i =>
      modify (set_topo (λ t, with_queues (dict_del (_queues t) name) t));;
      q ← queue_at i;
      match q_task q with
      | NoTask => mret false
      | _ => on_queue i (λ q, set_task (wake q) TaskDone q);; mret true
      end
  end.

Definition remove_queue_end (name : pystr) : B unit :=
  modify (set_topo (λ t, with_rpc (filter (λ kv, kv.2 ≠ name) (_rpc_queues t)) t));;
  b ← get;
  modify (set_servers (map_imap (λ j v, Some (if decide (j ∈ _servers b) then forget_name name v else v))));;
  modify (set_topo (λ t, with_events
    (filter (λ kv, kv.2 ≠ ∅) ((λ names : gset pystr, names ∖ {[ name ]}) <$> _event_routes t))
    (_ephemeral_queues t ∖ {[ name ]}) (delete name (_reliable_broadcast_owners t)) t)).

Definition _remove_queue (name : pystr) : B (option pystr) :=
  awaits ← remove_queue_begin name;
  if awaits : bool then mret (Some name) else remove_queue_end name;; mret None.

(** One round of [stop_server]; the name of a queue is returned when the round
    waits inside of [_remove_queue]. *)
Definition stop_queue (s : Z) (requeue : bool) (i : Z) : B (option pystr) :=
  v ← server_at s;
  on_queue i (λ q, set_consumers (dict_del (consumers q) (replica_id v)) q);;
  q ← queue_at i;
  (if requeue then mfor (requeue_delivery s i) (deliveries q) else mret tt);;
  on_queue i set_wake;;
  b ← get;
  let other_owner := existsb (λ j, negb (j =? s) && match server_heap b !! j with
                                                    | Some w => bool_decide (q_name q ∈ _queue_names w)
                                                    | None => false
                                                    end) (elements (_servers b)) in
  if requeue && bool_decide (q_name q ∈ _ephemeral_queues (topo b)) &&
     bool_decide (dict_del (consumers q) (replica_id v) = []) && negb other_owner
  then _remove_queue (q_name q)
  else if bool_decide (_reliable_broadcast_owners (topo b) !! q_name q = Some s)
  then modify (set_topo (λ t, with_events (_event_routes t) (_ephemeral_queues t)
         (delete (q_name q) (_reliable_broadcast_owners t)) t));; mret None
  else mret None.

(** ** Publishing *)

Definition _routes (routing_key : pystr) (native : option native_value) (t : topology) : gset pystr :=
  match native with
  | Some (NativePair exchange key) => default ∅ (_event_routes t !! (exchange, key))
  | _ => match list_find (λ kv : pystr * pystr, (kv.1 ++ [dot]) `prefix_of` routing_key) (_rpc_queues t) with
         | Some (_, (_, name)) => {[ name ]}
         | None => ∅
         end
  end.

Definition is_full (name : pystr) : B bool :=
  b ← get; i ← named name; q ← queue_at i;
  mret (max_queue_messages b <=? zlen (messages q)).

Fixpoint any_full (names : list pystr) : B bool :=
  match names with
  | [] => mret false
  | n :: names => f ← is_full n; if f : bool then mret true else any_full names
  end.

Definition enqueue (p : Publication) (name : pystr) : B unit :=
  i ← named name;
  c ← fresh;
  placed c (InQueue i);;
  on_queue i (λ q, set_wake (set_messages
    (messages q ++ [{| qp_id := c; qp_publication := p; qp_attempt := 1; qp_redelivered := false |}]) q)).

Section broker.
Context `{Json}.

Definition publish (now : datetime) (p : Publication) : B PublicationReceipt :=
  _require_open;;
  b ← get;
  let routes := elements (_routes (pub_routing_key p) (pub_native p) (topo b)) in
  throw_if (pub_mandatory p && bool_decide (routes = [])) TransportUnroutableError;;
  full ← any_full routes;
  throw_if full TransportCapacityError;;
  mfor (enqueue p) routes;;
  lift (PublicationReceipt_new (PyUUID (pub_message_id p)) (PyDatetime now) (PyBool (negb (bool_decide (routes = []))))).

(** ** Delivering *)

Fixpoint insert_by (c : pystr * Consumer) (l : list (pystr * Consumer)) : list (pystr * Consumer) :=
  match l with
  | [] => [c]
  | d :: r => if str_leb c.1 d.1 then c :: l else d :: insert_by c r
  end.

(** [list.sort(key=replica_id)]; the key of a consumer is its server's. *)
Definition sort_consumers (l : list (pystr * Consumer)) : list (pystr * Consumer) := foldr insert_by [] l.

Definition eligible (b : broker) (c : Consumer) : bool :=
  cs_active c && (cs_in_flight c <? cs_prefetch c) &&
  match server_heap b !! cs_server c with
  | Some v => _in_flight v <? prefetch v
  | None => false
  end.

Definition _next_consumer (i : Z) : B (option (pystr * Consumer)) :=
  b ← get;
  q ← queue_at i;
  let l := sort_consumers (filter (λ kv, eligible b kv.2 = true) (consumers q)) in
  if bool_decide (l = []) then mret None
  else
    on_queue i (set_cursor ((cursor q + 1) mod zlen l));;
    mret (l !! Z.to_nat (cursor q mod zlen l)).

Definition take_message (i : Z) : B unit := on_queue i (λ q, set_messages (tail (messages q)) q).

Definition expired (now : datetime) (p : Publication) : bool :=
  match pub_expires_at p with Some e => dt_leb e now | None => false end.

Definition deliver (i : Z) (name : pystr) (c : pystr * Consumer) (m : QueuedPublication) (now : datetime) : B unit :=
  v ← server_at (cs_server c.2);
  let p := qp_publication m in
  d ← lift (EncodedDelivery_new (PyUUID (pub_message_id p)) (PyStr (pub_routing_key p)) (PyBytes (pub_body p))
              (pub_headers p) (PyDatetime now) (PyInt (qp_attempt m)) (PyBool (qp_redelivered m))
              (py_uuid (pub_correlation_id p)) (pub_reply_to p) (pub_native p) (py_datetime (pub_expires_at p))
              (_subscriptions_by_queue v !! name));
  key ← fresh;
  let up := {| cs_server := cs_server c.2; cs_prefetch := cs_prefetch c.2; cs_in_flight := cs_in_flight c.2 + 1;
               cs_active := cs_active c.2 |} in
  on_queue i (λ q, set_consumers (dict_set (consumers q) c.1 up) (set_deliveries
    (deliveries q ++ [(key, {| dr_server := cs_server c.2; dr_delivery := d; dr_queued := m |})]) q));;
  on_server (cs_server c.2) (λ v, set_flight (<[key := name]> (_delivery_queues v)) ({[ key ]} ∪ _tasks v)
    (_in_flight v + 1) v);;
  modify (set_history <[qp_id m := InFlight i key]> <[key := (i, cs_server c.2)]> [(qp_id m, qp_attempt m)]).

(** One round of the loop; what it raises ends the task. *)
Definition run_round (i : Z) (now : datetime) : B unit :=
  c ← _next_consumer i;
  q ← queue_at i;
  match c, messages q with
  | Some c, m :: _ =>
      take_message i;;
      if expired now (qp_publication m) then placed (qp_id m) (Ended EndExpired)
      else deliver i (q_name q) c m now
  | _, _ => on_queue i (set_task false Sleeping)
  end.

Definition _run_queue (i : Z) (now : datetime) : B unit :=
  b ← get;
  if _closed b then on_queue i (λ q, set_task (wake q) TaskDone q)
  else try_except (run_round i now) (λ e, on_queue i (λ q, set_task (wake q) TaskDone q);; raise e).

(** ** Settling *)

Definition push_dead (d : EncodedDelivery) (b : broker) : broker :=
  set_dead (λ l, drop (S (length l) - Z.to_nat (max_queue_messages b)) (l ++ [d])) b.

Definition release_consumer (replica : pystr) (q : queue) : queue :=
  match dict_get (consumers q) replica with
  | Some c => set_consumers (dict_set (consumers q) replica
                {| cs_server := cs_server c; cs_prefetch := cs_prefetch c; cs_in_flight := cs_in_flight c - 1;
                   cs_active := cs_active c |}) q
  | None => q
  end.

Definition _wake_server_queues (s : Z) : B unit :=
  v ← server_at s;
  mfor (λ name, b ← get; match dict_get (_queues (topo b)) name with
                         | Some i => on_queue i set_wake
                         | None => mret tt
                         end) (elements (_queue_names v)).

Definition settle (s : Z) (key : Z) (outcome : SettlementRecommendation) : B unit :=
  v ← server_at s;
  match _delivery_queues v !! key with
  | None => raise DuplicateSettlementError
  | Some name =>
      i ← named name;
      q ← queue_at i;
      match dict_get (deliveries q) key with
      | None => raise DuplicateSettlementError
      | Some record =>
          b ← get;
          let m := dr_queued record in
          let redelivery_requested := bool_decide (outcome = RETRY ∨ outcome = UNSETTLED) in
          let retry_terminal := redelivery_requested && (qp_attempt m <? max_delivery_attempts b) &&
                                (max_queue_messages b <=? zlen (messages q)) in
          on_server s (λ v, set_flight (delete key (_delivery_queues v)) (_tasks v) (_in_flight v - 1) v);;
          on_queue i (λ q, release_consumer (replica_id v) (set_deliveries (dict_del (deliveries q) key) q));;
          let place :=
            if redelivery_requested && (qp_attempt m <? max_delivery_attempts b) && negb retry_terminal then InQueue i
            else Ended (if redelivery_requested then EndDead else if decide (outcome = ACK) then EndAcked else EndRejected) in
          modify (set_history <[qp_id m := place]> (delete key) []);;
          (if redelivery_requested && (qp_attempt m <? max_delivery_attempts b) && negb retry_terminal then
             on_queue i (λ q, set_messages (messages q ++ [{| qp_id := qp_id m; qp_publication := qp_publication m;
               qp_attempt := qp_attempt m + 1; qp_redelivered := true |}]) q)
           else if redelivery_requested then modify (push_dead (dr_delivery record))
           else mret tt);;
          _wake_server_queues s
      end
  end.
End broker.
