(* ===== verification/MsEndpoints.v ===== *)
(** * Microservices: servers and clients of the in-memory broker

    [InMemoryServerTransport] and [InMemoryClientTransport] of [inmemory.py], and
    the broker with all its tasks as a transition system. What a dispatcher does
    with a delivery, how long it takes, and when waits time out is arbitrary. *)

From Stdlib Require Import ZArith Lia.
From stdpp Require Import base tactics list gmap strings.
From S2P Require Import Prelude MsWire MsValues MsBroker.
Local Open Scope Z_scope.

(** ** Servers *)

Definition positive_count (v : pyobj) : result ms_error Z :=
  match v with
  | PyInt n => if n <=? 0 then Err MsValueError else Ok n
  | PyBool true => Ok 1
  | _ => Err MsValueError
  end.

(** [replica_id] is the given one, or the text of a fresh [uuid4]. *)
Definition InMemoryServerTransport_new (service : ServiceIdentity) (replica : pystr) (count : pyobj) : B Z :=
  n ← lift (positive_count count);
  i ← fresh;
  modify (set_servers <[i := {| sv_service := service; replica_id := replica; prefetch := n; sv_status := CREATED;
    _queue_names := ∅; _subscriptions_by_queue := ∅; _delivery_queues := ∅; _tasks := ∅; _in_flight := 0;
    has_dispatcher := false |}]>);;
  mret i.

Definition _require (s : Z) (expected : TransportStatus) : B unit :=
  v ← server_at s; throw_if (bool_decide (sv_status v ≠ expected)) TransportStateError.

Definition prepare (s : Z) (rpc_methods : list pyobj) (subs : list EventSubscription) : B unit :=
  _require s CREATED;;
  register_server s rpc_methods subs;;
  on_server s (set_status PREPARED).

Definition start (s : Z) : B unit :=
  _require s PREPARED;;
  on_server s set_dispatcher;;
  start_server s;;
  on_server s (set_status RUNNING).

(** The queues [stop_server] goes through. *)
Definition all_queues (b : broker) : list Z := snd <$> _queues (topo b).

Definition stop_intake (s : Z) : B unit :=
  v ← server_at s;
  match sv_status v with
  | CLOSED | QUIESCING => mret tt
  | RUNNING =>
      on_server s (set_status QUIESCING);;
      b ← get;
      mfor (λ i, stop_queue s false i;; mret tt) (all_queues b)
  | _ => raise TransportStateError
  end.

(** [close] up to its first await. *)
Definition close_begin (s : Z) : B unit :=
  v ← server_at s;
  match sv_status v with
  | CLOSED => mret tt
  | st =>
      (if bool_decide (st = RUNNING) then stop_intake s else mret tt);;
      b ← get;
      let phase := if bool_decide (st = PREPARED) then FirstStop None (all_queues b) else WaitTasks in
      modify (set_closers (λ l, l ++ [{| cr_server := s; cr_phase := phase |}]))
  end.

Definition move_closer (j : nat) (s : Z) (p : close_phase) : B unit :=
  modify (set_closers <[j := {| cr_server := s; cr_phase := p |}]>).

(** [close] goes on: one queue more, or its next part. *)
Definition close_step (j : nat) (c : closer) : B unit :=
  let s := cr_server c in
  match cr_phase c with
  | FirstStop (Some name) rest => remove_queue_end name;; move_closer j s (FirstStop None rest)
  | FirstStop None (i :: rest) => r ← stop_queue s true i; move_closer j s (FirstStop r rest)
  | FirstStop None [] => move_closer j s WaitTasks
  | WaitTasks => b ← get; move_closer j s (SecondStop None (all_queues b))
  | SecondStop (Some name) rest => remove_queue_end name;; move_closer j s (SecondStop None rest)
  | SecondStop None (i :: rest) => r ← stop_queue s true i; move_closer j s (SecondStop r rest)
  | SecondStop None [] =>
      modify (set_registered (λ r, r ∖ {[ s ]}));;
      on_server s (λ v, set_status CLOSED (set_names (_queue_names v) ∅ v));;
      move_closer j s CloseDone
  | CloseDone => mret tt
  end.

(** What the dispatcher did with a delivery. *)
Inductive dispatched :=
| Recommends (o : SettlementRecommendation)
| OtherResult
| DispatchRaises (e : ms_error)
| DispatchCancelled.

Definition is_pending (s key : Z) : B bool :=
  v ← server_at s; mret (bool_decide (is_Some (_delivery_queues v !! key))).

(** [except DuplicateSettlementError, TransportCapacityError: pass] *)
Definition settle_quietly (s key : Z) (o : SettlementRecommendation) : B unit :=
  try_except (settle s key o) (λ e, match e with
                                    | DuplicateSettlementError | TransportCapacityError => mret tt
                                    | _ => raise e
                                    end).

Definition dispatch_result (s key : Z) (subscribed : bool) (r : dispatched) : B unit :=
  match r with
  | DispatchCancelled => mret tt
  | DispatchRaises e =>
      pending ← is_pending s key;
      if negb pending then mret tt
      else if is_transport_error e then settle s key UNSETTLED
      else settle_quietly s key (if subscribed then RETRY else REJECT)
  | Recommends o => settle_quietly s key o
  | OtherResult => settle s key REJECT
  end.

(** The end of a dispatch task; [subscribed] says whether the delivery came from
    a subscription. *)
Definition _dispatch (s key : Z) (subscribed : bool) (r : dispatched) : B unit :=
  v ← server_at s;
  let done : B unit := on_server s (λ v, set_flight (_delivery_queues v) (_tasks v ∖ {[ key ]}) (_in_flight v) v) in
  if negb (has_dispatcher v) then done
  else try_except (dispatch_result s key subscribed r) (λ e, done;; raise e);; done.

(** ** Replies *)

Section endpoints.
Context `{Json}.

Definition put_reply (i : Z) (r : option EncodedDelivery) : B unit :=
  b ← get;
  match reply_heap b !! i with
  | None => raise MsKeyError
  | Some q =>
      throw_if (rq_max q <=? zlen (rq_items q)) TransportCapacityError;;
      modify (set_replies id <[i := {| rq_items := rq_items q ++ [r]; rq_max := rq_max q |}]> id id)
  end.

Definition publish_reply (now : datetime) (p : Publication) : B PublicationReceipt :=
  _require_open;;
  match pub_correlation_id p with
  | None => raise TransportCorrelationError
  | Some c =>
      b ← get;
      match _reply_queues b !! pub_routing_key p with
      | None => raise TransportUnroutableError
      | Some i =>
          d ← lift (EncodedDelivery_new (PyUUID (pub_message_id p)) (PyStr (pub_routing_key p)) (PyBytes (pub_body p))
                (pub_headers p) (PyDatetime now) (PyInt 1) (PyBool false) (PyUUID c) (pub_reply_to p) (pub_native p)
                PyNone None);
          put_reply i (Some d);;
          lift (PublicationReceipt_new (PyUUID (pub_message_id p)) (PyDatetime now) (PyBool true))
      end
  end.

(** [InMemoryServerTransport.publish_reply] *)
Definition server_publish_reply (s : Z) (now : datetime) (p : Publication) : B PublicationReceipt :=
  v ← server_at s;
  throw_if (bool_decide (sv_status v ≠ PREPARED ∧ sv_status v ≠ RUNNING)) TransportStateError;;
  publish_reply now p.

Definition _signal_reply_queue_closed (i : Z) : B unit :=
  modify (set_replies id (alter (λ q, {| rq_items := [None]; rq_max := rq_max q |}) i) id id).

Definition register_reply_route (route : pystr) (c : Z) (max_pending : Z) : B Z :=
  _require_open;;
  b ← get;
  throw_if (bool_decide (is_Some (_reply_queues b !! route))) TransportStateError;;
  i ← fresh;
  modify (set_replies <[route := i]> <[i := {| rq_items := []; rq_max := max_pending |}]> id (union {[ c ]}));;
  mret i.

Definition unregister_reply_route (route : pystr) (c : Z) : B unit :=
  b ← get;
  modify (set_replies (delete route) id id id);;
  (match _reply_queues b !! route with
   | Some i => _signal_reply_queue_closed i
   | None => mret tt
   end);;
  modify (set_replies id id id (λ r, r ∖ {[ c ]})).

(** ** Clients *)

Definition InMemoryClientTransport_new (reply_to : pystr) (max_pending : pyobj) : B Z :=
  n ← lift (positive_count max_pending);
  i ← fresh;
  modify (set_replies id id <[i := {| cl_reply_to := reply_to; max_pending_replies := n; cl_reply_queue := None;
    cl_status := CREATED; _pending_replies := ∅; _completed_replies := []; _receive_replies := true |}]> id);;
  mret i.

Definition client_start (c : Z) (receive_replies : pyobj) : B unit :=
  k ← client_at c;
  throw_if (bool_decide (cl_status k ≠ CREATED)) TransportStateError;;
  match receive_replies with
  | PyBool receive =>
      let receiving q s k := {| cl_reply_to := cl_reply_to k; max_pending_replies := max_pending_replies k;
        cl_reply_queue := q; cl_status := s; _pending_replies := _pending_replies k;
        _completed_replies := _completed_replies k; _receive_replies := receive |} in
      on_client c (receiving (cl_reply_queue k) (cl_status k));;
      if receive then
        q ← register_reply_route (cl_reply_to k) c (max_pending_replies k);
        on_client c (receiving (Some q) RUNNING)
      else on_client c (receiving (cl_reply_queue k) RUNNING)
  | _ => raise MsTypeError
  end.

Definition _require_running (c : Z) : B client :=
  k ← client_at c; throw_if (bool_decide (cl_status k ≠ RUNNING)) TransportStateError;; mret k.

Definition set_pending (c : Z) (f : gset uuid → gset uuid) : B unit :=
  on_client c (λ k, set_client (cl_status k) (f (_pending_replies k)) (_completed_replies k) k).

Definition publish_rpc (c : Z) (target : RpcTarget) (now : datetime) (p : Publication) : B PublicationReceipt :=
  k ← _require_running c;
  throw_if (negb (_receive_replies k)) TransportStateError;;
  throw_if (bool_decide (pub_routing_key p ≠ rpc_routing_key target)) MsValueError;;
  match pub_correlation_id p with
  | None => raise TransportCorrelationError
  | Some u =>
      throw_if (bool_decide (pub_reply_to p ≠ Some (cl_reply_to k))) TransportCorrelationError;;
      throw_if (bool_decide (u ∈ _pending_replies k)) TransportCorrelationError;;
      throw_if (bool_decide (u ∈ _completed_replies k)) TransportCorrelationError;;
      throw_if (max_pending_replies k <=? Z.of_nat (size (_pending_replies k))) TransportCapacityError;;
      set_pending c (union {[ u ]});;
      try_except (p ← lift (replace p true None); publish now p)
        (λ e, set_pending c (λ r, r ∖ {[ u ]});; raise e)
  end.

Definition publish_event (c : Z) (e : EventIdentity) (now : datetime) (p : Publication) : B PublicationReceipt :=
  _require_running c;;
  throw_if (bool_decide (pub_routing_key p ≠ event_routing_key e)) MsValueError;;
  p ← lift (Publication_new (PyUUID (pub_message_id p)) (PyStr (pub_routing_key p)) (PyBytes (pub_body p))
        (pub_headers p) (PyBool (pub_mandatory p)) (py_uuid (pub_correlation_id p)) (pub_reply_to p)
        (Some (NativePair (exchange_name e) (event_routing_key e))) PyNone);
  publish now p.

Definition replies_begin (c : Z) : B unit :=
  k ← _require_running c; throw_if (negb (_receive_replies k)) TransportStateError.

(** One round of [replies], when there is an item: a reply to yield, or none. *)
Definition next_reply (c : Z) : B (option EncodedDelivery) :=
  k ← client_at c;
  b ← get;
  match cl_reply_queue k with
  | None => raise MsKeyError
  | Some i =>
      match reply_heap b !! i with
      | Some {| rq_items := item :: rest; rq_max := n |} =>
          modify (set_replies id <[i := {| rq_items := rest; rq_max := n |}]> id id);;
          match item with
          | None => mret None
          | Some d =>
              match dl_correlation_id d with
              | None => mret (Some d)
              | Some u =>
                  if bool_decide (u ∈ _completed_replies k) || bool_decide (u ∉ _pending_replies k) then mret None
                  else
                    on_client c (λ k, set_client (cl_status k) (_pending_replies k ∖ {[ u ]})
                      (drop (S (length (_completed_replies k)) - Z.to_nat (max_pending_replies k))
                         (_completed_replies k ++ [u])) k);;
                    mret (Some d)
              end
          end
      | _ => mret None
      end
  end.

Definition client_close (c : Z) : B unit :=
  k ← client_at c;
  if bool_decide (cl_status k = CLOSED) then mret tt
  else
    (if _receive_replies k then unregister_reply_route (cl_reply_to k) c else mret tt);;
    on_client c (λ k, set_client CLOSED (_pending_replies k) (_completed_replies k) k).

Definition cancel_pending (c : Z) (u : uuid) : B unit := set_pending c (λ r, r ∖ {[ u ]}).

Definition _close_from_broker (c : Z) : B unit :=
  on_client c (λ k, set_client CLOSED (_pending_replies k) (_completed_replies k) k).

(** [InMemoryBroker.close], when the servers it found are closed, and after the
    tasks of the queues have ended. *)
Definition broker_close_tasks : B unit :=
  modify set_closed;;
  modify (set_queues (fmap (λ q, set_task (wake q) (match q_task q with NoTask => NoTask | _ => TaskDone end) q))).

Definition broker_close_end : B unit :=
  b ← get;
  mfor _close_from_broker (elements (_clients b));;
  mfor _signal_reply_queue_closed (snd <$> map_to_list (_reply_queues b));;
  modify (set_replies (λ _, ∅) id id (λ _, ∅));;
  modify (set_registered (λ _, ∅)).

(** ** Steps

    Each section of code between two awaits is one step. *)

Inductive bstep : broker → broker → Prop :=
| b_server b service replica n : valid_service service → bstep b (InMemoryServerTransport_new service replica n b).2
| b_prepare b s methods subs : bstep b (prepare s methods subs b).2
| b_start b s : bstep b (start s b).2
| b_publish b now p : valid_publication p → dt_offset now = Some 0 → bstep b (publish now p b).2
| b_run b i q now : queue_heap b !! i = Some q → q_task q = Polling → dt_offset now = Some 0 →
    bstep b (_run_queue i now b).2
| b_wake b i q : queue_heap b !! i = Some q → q_task q = Sleeping → wake q = true →
    bstep b (set_queues <[i := set_task true Polling q]> b)
| b_settle b s key o : bstep b (settle s key o b).2
| b_dispatch b s v key subscribed r : server_heap b !! s = Some v → key ∈ _tasks v →
    bstep b (_dispatch s key subscribed r b).2
| b_stop_intake b s : bstep b (stop_intake s b).2
| b_close b s : bstep b (close_begin s b).2
| b_close_step b j c : closers b !! j = Some c → bstep b (close_step j c b).2
| b_client b route n : bstep b (InMemoryClientTransport_new route n b).2
| b_client_start b c r : bstep b (client_start c r b).2
| b_rpc b c t now p : valid_publication p → dt_offset now = Some 0 → bstep b (publish_rpc c t now p b).2
| b_event b c e now p : valid_publication p → dt_offset now = Some 0 → bstep b (publish_event c e now p b).2
| b_reply b now p : valid_publication p → dt_offset now = Some 0 → bstep b (publish_reply now p b).2
| b_next_reply b c : bstep b (next_reply c b).2
| b_cancel_pending b c u : bstep b (cancel_pending c u b).2
| b_client_close b c : bstep b (client_close c b).2
| b_close_tasks b : bstep b (broker_close_tasks b).2
| b_close_end b : bstep b (broker_close_end b).2.

Inductive b_reachable (m a : pyobj) : broker → Prop :=
| b_new b : InMemoryBroker_new m a = Ok b → b_reachable m a b
| b_next b b' : b_reachable m a b → bstep b b' → b_reachable m a b'.
End endpoints.
