(* ===== verification/MsWireFacts.v ===== *)
(** * Microservices: frozen headers and names

    A header that was frozen once passes through every later constructor as it
    is; names are built so that they can be taken apart again. *)

From Stdlib Require Import ZArith Lia.
From stdpp Require Import base tactics list gmap strings.
From S2P Require Import Prelude MsWire MsValues.
Local Open Scope Z_scope.

(** ** Freezing *)

Section induction.
Context (P : wvalue → Prop).
Context (Hatom : ∀ v, match v with WMap _ | WList _ _ => False | _ => True end → P v).
Context (Hmap : ∀ items, Forall (λ kv, P kv.2) items → P (WMap items)).
Context (Hlist : ∀ t items, Forall P items → P (WList t items)).

Fixpoint wvalue_rec' (v : wvalue) : P v :=
  match v with
  | WMap items => Hmap items ((fix go l : Forall (λ kv, P kv.2) l :=
      match l with [] => Forall_nil_2 _ | kv :: l => Forall_cons_2 _ kv l (wvalue_rec' kv.2) (go l) end) items)
  | WList t items => Hlist t items ((fix go l : Forall P l :=
      match l with [] => Forall_nil_2 _ | x :: l => Forall_cons_2 _ x l (wvalue_rec' x) (go l) end) items)
  | v => Hatom v I
  end.
End induction.

(** The loops over the items of a value. *)
Definition freeze_item (d n depth : Z) (kv : wkey * wvalue) : result ms_error (wkey * wvalue) :=
  k ← header_key kv.1; x ← _freeze_value d n (depth + 1) kv.2; Ok (k, x).

Lemma freeze_map d n depth items :
  _freeze_value d n depth (WMap items) =
  (_ ← raise_if (d <? depth) WireValidationError;
   _ ← raise_if (n <? zlen items) WireSizeLimitError;
   frozen ← rmap (freeze_item d n depth) items; Ok (WMap frozen)).
Proof.
  simpl. unfold raise_if. destruct (d <? depth); [done|]. r_simpl. destruct (n <? zlen items); [done|]. r_simpl. f_equal.
  induction items as [|[k x] l IH]; simpl; [done|]. rewrite IH. change (freeze_item d n depth (k, x)) with
    (k ← header_key k; x ← _freeze_value d n (depth + 1) x; Ok (k, x)).
  destruct (header_key k); r_simpl; [|done]. destruct (_freeze_value _ _ _ x); r_simpl; [done|done].
Qed.

Lemma freeze_list d n depth t items :
  _freeze_value d n depth (WList t items) =
  (_ ← raise_if (d <? depth) WireValidationError;
   _ ← raise_if (n <? zlen items) WireSizeLimitError;
   frozen ← rmap (_freeze_value d n (depth + 1)) items; Ok (WList true frozen)).
Proof.
  simpl. unfold raise_if. destruct (d <? depth); [done|]. r_simpl. destruct (n <? zlen items); [done|]. r_simpl. f_equal.
  induction items as [|x l IH]; simpl; [done|]. destruct (_freeze_value _ _ _ x); r_simpl; [|done]. by rewrite IH.
Qed.

Lemma rmap_again {A} (f : A → result ms_error A) l l' :
  Forall (λ x, ∀ y, f x = Ok y → f y = Ok y) l → rmap f l = Ok l' → rmap f l' = Ok l'.
Proof.
  intros Hl. rewrite !rmap_ok_iff. intros H2. induction H2; inversion Hl; subst; constructor; auto.
Qed.

Lemma header_key_ok k k' : header_key k = Ok k' → k' = k.
Proof. destruct k as [[|]|]; by intros [= <-]. Qed.

(** What is frozen stays as it is. *)
Lemma freeze_again d n depth v f : _freeze_value d n depth v = Ok f → _freeze_value d n depth f = Ok f.
Proof.
  revert depth f. induction v as [v Hv|items IH|t items IH] using wvalue_rec'; intros depth f Hf.
  - assert (f = v); [|by subst]. destruct v; try done; simpl in Hf; m_inv.
  - rewrite freeze_map in Hf. destruct (raise_if (d <? depth) _) eqn:H1; [|done]. simpl in Hf.
    apply result_bind_ok in Hf as ([] & H2 & Hf). apply result_bind_ok in Hf as (l & Hl & [= <-]).
    rewrite freeze_map, H1. r_simpl. unfold zlen in *. rewrite (rmap_ok_length _ _ _ Hl), H2. r_simpl.
    rewrite (rmap_again (freeze_item d n depth) items l); [done| |done].
    eapply Forall_impl; [exact IH|]. intros [k x] Hx [k' y] Hy. unfold freeze_item in *. simpl in *.
    apply result_bind_ok in Hy as (k1 & Hk & Hy). apply result_bind_ok in Hy as (y1 & Hy & [= <- <-]).
    pose proof (header_key_ok _ _ Hk); subst k1. rewrite Hk. r_simpl. by rewrite (Hx _ _ Hy).
  - rewrite freeze_list in Hf. destruct (raise_if (d <? depth) _) eqn:H1; [|done]. simpl in Hf.
    apply result_bind_ok in Hf as ([] & H2 & Hf). apply result_bind_ok in Hf as (l & Hl & [= <-]).
    rewrite freeze_list, H1. r_simpl. unfold zlen in *. rewrite (rmap_ok_length _ _ _ Hl), H2. r_simpl.
    rewrite (rmap_again (_freeze_value d n (depth + 1)) items l); [done| |done].
    eapply Forall_impl; [exact IH|]. intros x Hx y Hy. by eapply Hx.
Qed.

Section values.
Context `{Json}.

Lemma freeze_headers_again h l f : freeze_headers h l = Ok f → freeze_headers f l = Ok f.
Proof.
  unfold freeze_headers. intros Hf.
  assert (∀ x, match x with WMap _ => True | _ => False end → (if falsy x then WMap [] else x) = x) as Hx
    by (by intros [| | | | |[]| |]).
  destruct (if falsy h then WMap [] else h) as [| | | | |items| |] eqn:Hs; try done.
  apply result_bind_ok in Hf as ([] & Hc & Hf). apply result_bind_ok in Hf as (g & Hg & Hf).
  apply result_bind_ok in Hf as (data & Hd & Hf). apply result_bind_ok in Hf as ([] & Hb & [= <-]).
  pose proof (freeze_again _ _ _ _ _ Hg) as Hag.
  rewrite freeze_map in Hg. apply result_bind_ok in Hg as ([] & _ & Hg). apply result_bind_ok in Hg as ([] & _ & Hg).
  apply result_bind_ok in Hg as (items' & Hi & [= <-]).
  rewrite Hx by done. unfold zlen in *. rewrite (rmap_ok_length _ _ _ Hi), Hc. r_simpl. rewrite Hag. r_simpl. rewrite Hd. r_simpl. by rewrite Hb.
Qed.

(** What a valid publication consists of. *)
Lemma valid_fields p :
  valid_publication p → pub_routing_key p ≠ [] ∧ freeze_headers (pub_headers p) None = Ok (pub_headers p) ∧
  match pub_expires_at p with Some d => dt_offset d = Some 0 | None => True end.
Proof.
  intros (m & k & b & h & f & c & r & n & e & Hp). unfold Publication_new in Hp.
  apply result_bind_ok in Hp as (m' & _ & Hp). apply result_bind_ok in Hp as (k' & Hk & Hp).
  apply result_bind_ok in Hp as (b' & _ & Hp). apply result_bind_ok in Hp as (f' & _ & Hp).
  apply result_bind_ok in Hp as (c' & _ & Hp). apply result_bind_ok in Hp as (e' & He & Hp).
  apply result_bind_ok in Hp as (h' & Hh & [= <-]). simpl. split_and!.
  - intros ->. unfold routing_key_of in Hk. by destruct k as [| | |[]| | | | | | |].
  - by eapply freeze_headers_again.
  - destruct e' as [d|]; [|done]. unfold optional_utc, require_utc in He. destruct e; try done. simpl in He.
    case_bool_decide; [|done]. by injection He as ->.
Qed.

Lemma optional_id_py o : optional_id (py_uuid o) = Ok o.
Proof. by destruct o. Qed.

Lemma optional_utc_py o : match o with Some d => dt_offset d = Some 0 | None => True end → optional_utc (py_datetime o) = Ok o.
Proof. destruct o as [d|]; [|done]. simpl. intros Hd. by rewrite bool_decide_true. Qed.

(** A delivery of a valid publication can always be made. *)
Lemma delivery_ok p now attempt redelivered sub :
  valid_publication p → dt_offset now = Some 0 → 1 ≤ attempt →
  EncodedDelivery_new (PyUUID (pub_message_id p)) (PyStr (pub_routing_key p)) (PyBytes (pub_body p))
    (pub_headers p) (PyDatetime now) (PyInt attempt) (PyBool redelivered) (py_uuid (pub_correlation_id p))
    (pub_reply_to p) (pub_native p) (py_datetime (pub_expires_at p)) sub =
  Ok {| dl_message_id := pub_message_id p; dl_routing_key := pub_routing_key p; dl_body := pub_body p;
        dl_headers := pub_headers p; dl_received_at := now; dl_attempt := attempt; dl_redelivered := redelivered;
        dl_correlation_id := pub_correlation_id p; dl_reply_to := pub_reply_to p; dl_native := pub_native p;
        dl_expires_at := pub_expires_at p; dl_subscription := sub |}.
Proof.
  intros (Hk & Hh & He)%valid_fields Hn Ha. unfold EncodedDelivery_new. simpl.
  destruct (pub_routing_key p); [done|]. simpl. rewrite bool_decide_true by done. r_simpl.
  assert ((attempt <=? 0) = false) as -> by lia. r_simpl. rewrite optional_id_py. r_simpl.
  rewrite optional_utc_py by done. r_simpl. by rewrite Hh.
Qed.

Lemma replace_valid p p' b n : replace p b n = Ok p' → valid_publication p'.
Proof. unfold replace, valid_publication. intros Hp. repeat eexists. exact Hp. Qed.
End values.

(** A target that was constructed. *)
Definition valid_target (t : RpcTarget) : Prop :=
  valid_service (rpc_service t) ∧ ∃ m v, RpcTarget_new (rpc_service t) m v = Ok t.

(** Reading a number back. *)
Definition undec (s : pystr) : Z := foldl (λ a c, a * 10 + (c - 48)) 0 s.

Lemma undec_snoc s c : undec (s ++ [c]) = undec s * 10 + (c - 48).
Proof. unfold undec. by rewrite foldl_app. Qed.

Lemma digits_value fuel n : 0 ≤ n < 2 ^ Z.of_nat fuel → undec (digits fuel n) = n.
Proof.
  revert n. induction fuel as [|fuel IH]; intros n Hn; [simpl in *; cbn; lia|]. simpl. case_match eqn:Hc; bool_hyps.
  - unfold undec. simpl. lia.
  - rewrite undec_snoc, IH.
    + pose proof (Z.div_mod n 10). lia.
    + split; [apply Z.div_pos; lia|]. rewrite Nat2Z.inj_succ, Z.pow_succ_r in Hn by lia.
      apply Z.div_lt_upper_bound; lia.
Qed.

Lemma dec_value n : 0 < n → undec (dec n) = n.
Proof.
  intros Hn. apply digits_value. split; [lia|]. rewrite Nat2Z.inj_succ, Z2Nat.id by apply Z.log2_nonneg.
  apply Z.log2_spec. lia.
Qed.

Lemma dec_inj n k : 0 < n → 0 < k → dec n = dec k → n = k.
Proof. intros Hn Hk He. rewrite <- (dec_value n), <- (dec_value k) by done. by rewrite He. Qed.

Lemma digits_no_dot fuel n : 0 ≤ n → dot ∉ digits fuel n.
Proof.
  revert n. induction fuel as [|fuel IH]; intros n Hn; simpl; [set_solver|]. unfold dot in *. case_match; bool_hyps.
  - rewrite list_elem_of_singleton. lia.
  - rewrite elem_of_app, list_elem_of_singleton. pose proof (Z.mod_pos_bound n 10). intros [Hd|Hd]; [|lia].
    eapply IH; [|exact Hd]. apply Z.div_pos; lia.
Qed.

Lemma alias_no_dot s : alias_pattern s = true → dot ∉ s.
Proof.
  destruct s as [|c r]; simpl; [done|]. intros Ha. bool_hyps. unfold alias_start, dot in *. rewrite elem_of_cons.
  intros [<-|Hin]; [bool_hyps; lia|]. rewrite forallb_forall in *.
  match goal with HF : ∀ x, _ → alias_char x = true |- _ => specialize (HF 46) end.
  rewrite <- list_elem_of_In in *. by match goal with HF : _ → alias_char 46 = true |- _ => specialize (HF Hin) end.
Qed.

(** Two ways to split a name at its first dot are the same. *)
Lemma split_dot x y u v : dot ∉ x → dot ∉ y → x ++ dot :: u = y ++ dot :: v → x = y ∧ u = v.
Proof.
  revert y. induction x as [|c x IH]; intros [|d y]; simpl; rewrite ?not_elem_of_cons; intros Hx Hy He; simplify_eq; try tauto.
  destruct (IH y) as [-> ->]; tauto.
Qed.

Lemma valid_service_parts s :
  valid_service s → dot ∉ namespace s ∧ dot ∉ svc_name s ∧ dot ∉ dec (contract_version s) ∧ 0 < contract_version s.
Proof.
  intros (ns & n & v & Hs). unfold ServiceIdentity_new in Hs. apply result_bind_ok in Hs as (ns' & Hns & Hs).
  apply result_bind_ok in Hs as (n' & Hn & Hs). apply result_bind_ok in Hs as (v' & Hv & Hs).
  apply result_bind_ok in Hs as (u & _ & Hs). simplify_eq. simpl.
  assert (0 < v') by (unfold _validate_version in Hv; repeat case_match; simplify_eq; bool_hyps; lia).
  split_and!; [| |apply digits_no_dot; lia|done]; apply alias_no_dot; unfold _validate_alias in *; repeat case_match; by simplify_eq.
Qed.

(** A label followed by a dot says which service it is. *)
Lemma label_dot_inj s t u v :
  valid_service s → valid_service t → label s ++ dot :: u = label t ++ dot :: v → s = t ∧ u = v.
Proof.
  intros (Hs1 & Hs2 & Hs3 & Hs4)%valid_service_parts (Ht1 & Ht2 & Ht3 & Ht4)%valid_service_parts.
  unfold label. rewrite <- !(assoc_L (++)); simpl. intros [Hn He]%split_dot; [|done..].
  rewrite <- !(assoc_L (++)) in He; simpl in He. apply split_dot in He as [Hm He]; [|done..]. injection He as He.
  apply split_dot in He as [Hv ->]; [|done..]. apply dec_inj in Hv; [|done..].
  split; [|done]. destruct s, t; simpl in *. congruence.
Qed.

Lemma label_inj s t : valid_service s → valid_service t → label s = label t → s = t.
Proof. intros Hs Ht He. destruct (label_dot_inj s t [] [] Hs Ht); [by rewrite He|done]. Qed.
