(* ===== verification/MsBrokerFacts.v ===== *)
(** * Microservices: the books of the broker

    Where each queued publication and each delivery is, and how that changes. *)

From Stdlib Require Import ZArith Lia.
From stdpp Require Import base tactics list gmap strings.
From S2P Require Import Prelude MsWire MsValues MsBroker MsEndpoints MsWireFacts.
Local Open Scope Z_scope.

Section books.
Context `{Json}.
Implicit Types b : broker.

(** The parts of the objects that matter here. *)
Definition q_at b (i : Z) : option (pystr * list QueuedPublication * list (Z * DeliveryRecord)) :=
  (λ q, (q_name q, messages q, deliveries q)) <$> queue_heap b !! i.
Definition s_at b (s : Z) : option (Z * gmap Z pystr * Z) :=
  (λ v, (prefetch v, _delivery_queues v, _in_flight v)) <$> server_heap b !! s.

Definition sound (m : QueuedPublication) : Prop :=
  valid_publication (qp_publication m) ∧ 1 ≤ qp_attempt m ∧ qp_redelivered m = (1 <? qp_attempt m).

Record inv b : Prop := {
  iv_messages i n ms ds : q_at b i = Some (n, ms, ds) →
    NoDup (qp_id <$> ms) ∧ ∀ x, x ∈ qp_id <$> ms ↔ places b !! x = Some (InQueue i);
  iv_deliveries i n ms ds : q_at b i = Some (n, ms, ds) →
    NoDup ds.*1 ∧ ∀ k r, (k, r) ∈ ds →
      places b !! qp_id (dr_queued r) = Some (InFlight i k) ∧ flights b !! k = Some (i, dr_server r);
  iv_inqueue x i : places b !! x = Some (InQueue i) → is_Some (q_at b i);
  iv_inflight x i k : places b !! x = Some (InFlight i k) →
    ∃ n ms ds r, q_at b i = Some (n, ms, ds) ∧ (k, r) ∈ ds ∧ qp_id (dr_queued r) = x;
  iv_flights k i s : flights b !! k = Some (i, s) →
    is_Some (s_at b s) ∧ ∃ n ms ds r, q_at b i = Some (n, ms, ds) ∧ (k, r) ∈ ds ∧ dr_server r = s;
  iv_fresh_q i : is_Some (q_at b i) → i < next_object b;
  iv_fresh_s s : is_Some (s_at b s) → s < next_object b;
  iv_fresh_p x : is_Some (places b !! x) → x < next_object b;
  iv_fresh_f k : is_Some (flights b !! k) → k < next_object b;
  iv_server s p dq f : s_at b s = Some (p, dq, f) → f = Z.of_nat (size dq) ∧ f ≤ p ∧ 1 ≤ p;
  iv_owner s p dq f k name : s_at b s = Some (p, dq, f) →
    dq !! k = Some name ↔ ∃ i ms ds, flights b !! k = Some (i, s) ∧ q_at b i = Some (name, ms, ds);
  iv_tries i n ms ds m : q_at b i = Some (n, ms, ds) → m ∈ ms →
    sound m ∧ ∀ a, (qp_id m, a) ∈ deliveries_made b → a < qp_attempt m;
  iv_tried i n ms ds k r : q_at b i = Some (n, ms, ds) → (k, r) ∈ ds →
    sound (dr_queued r) ∧ (qp_id (dr_queued r), qp_attempt (dr_queued r)) ∈ deliveries_made b ∧
    ∀ a, (qp_id (dr_queued r), a) ∈ deliveries_made b → a ≤ qp_attempt (dr_queued r);
  iv_made : NoDup (deliveries_made b);
  iv_made_placed x a : (x, a) ∈ deliveries_made b → is_Some (places b !! x)
}.

(** ** Changes that do not touch the books *)

Record calm b b' : Prop := {
  cm_q i : q_at b' i = q_at b i;
  cm_s s : s_at b' s = s_at b s;
  cm_places : places b' = places b;
  cm_flights : flights b' = flights b;
  cm_made : deliveries_made b' = deliveries_made b;
  cm_next : next_object b ≤ next_object b'
}.

Lemma inv_calm b b' : calm b b' → inv b → inv b'.
Proof.
  intros [Q S P F D N] I. constructor; rewrite ?P, ?F, ?D; repeat setoid_rewrite Q; repeat setoid_rewrite S; try apply I.
  - intros i Hi. pose proof (iv_fresh_q _ I i Hi). lia.
  - intros i Hi. pose proof (iv_fresh_s _ I i Hi). lia.
  - intros i Hi. pose proof (iv_fresh_p _ I i Hi). lia.
  - intros i Hi. pose proof (iv_fresh_f _ I i Hi). lia.
Qed.

Lemma inv_new m a b : InMemoryBroker_new m a = Ok b → inv b.
Proof.
  unfold InMemoryBroker_new. intros Hb. apply result_bind_ok in Hb as (? & _ & Hb).
  apply result_bind_ok in Hb as (? & _ & [= <-]).
  constructor; unfold q_at, s_at; simpl; intros *; rewrite ?lookup_empty; try done; try set_solver.
  all: try (by intros [? ?]). constructor.
Qed.

Lemma NoDup_fst_inj {K V} (d : list (K * V)) k v w : NoDup d.*1 → (k, v) ∈ d → (k, w) ∈ d → v = w.
Proof.
  induction d as [|[l u] d IH]; simpl; [set_solver|]. rewrite NoDup_cons. intros [Hl Hd].
  assert (∀ x, (k, x) ∈ d → k ∈ d.*1) as Hin by (intros x Hx; apply list_elem_of_fmap; by exists (k, x)).
  rewrite !elem_of_cons. intros [?|Hv] [?|Hw]; simplify_eq; [done|by apply Hin in Hw|by apply Hin in Hv|auto].
Qed.

(** ** New objects *)

Lemma inv_new_queue b b' name :
  inv b → (∀ j, q_at b' j = if decide (j = next_object b) then Some (name, [], []) else q_at b j) →
  (∀ s, s_at b' s = s_at b s) → places b' = places b → flights b' = flights b →
  deliveries_made b' = deliveries_made b → next_object b' = next_object b + 1 → inv b'.
Proof.
  intros I Q S P F D N. set (i := next_object b) in *.
  assert (q_at b i = None) as Hi by (destruct (q_at b i) eqn:Hx; [|done]; pose proof (iv_fresh_q _ I i (mk_is_Some _ _ Hx)); lia).
  assert (∀ j x, q_at b j = Some x → q_at b' j = Some x) as Hold
    by (intros j x Hj; rewrite Q, decide_False; [done|intros ->; congruence]).
  constructor; rewrite ?P, ?F, ?D; repeat setoid_rewrite S; try apply I.
  - intros j n ms ds. rewrite Q. case_decide as Hj; [|apply I]. intros [= <- <- <-]. split; [constructor|].
    intros x. split; [set_solver|]. intros Hx%(iv_inqueue _ I). subst j. rewrite Hi in Hx. by destruct Hx.
  - intros j n ms ds. rewrite Q. case_decide; [|apply I]. intros [= <- <- <-]. split; [constructor|set_solver].
  - intros x j [y Hj]%(iv_inqueue _ I). by rewrite (Hold _ _ Hj).
  - intros x j k (n & ms & ds & r & Hj & Hr)%(iv_inflight _ I). exists n, ms, ds, r. by rewrite (Hold _ _ Hj).
  - intros k j s (Hs & n & ms & ds & r & Hj & Hr)%(iv_flights _ I). split; [done|]. exists n, ms, ds, r. by rewrite (Hold _ _ Hj).
  - intros j. rewrite Q. case_decide; [subst; lia|]. intros Hj%(iv_fresh_q _ I). lia.
  - intros j Hj%(iv_fresh_s _ I). lia.
  - intros j Hj%(iv_fresh_p _ I). lia.
  - intros j Hj%(iv_fresh_f _ I). lia.
  - intros s p dq f k nm Hs. rewrite (iv_owner _ I s p dq f k nm Hs). split; intros (j & ms & ds & Hf & Hj).
    + exists j, ms, ds. by rewrite (Hold _ _ Hj).
    + destruct (iv_flights _ I _ _ _ Hf) as (_ & n & ms' & ds' & r & Hj' & _). rewrite (Hold _ _ Hj') in Hj. simplify_eq. eauto.
  - intros j n ms ds m. rewrite Q. case_decide; [|apply I]. intros [= <- <- <-]. set_solver.
  - intros j n ms ds k r. rewrite Q. case_decide; [|apply I]. intros [= <- <- <-]. set_solver.
Qed.

Lemma inv_new_server b b' p :
  inv b → 1 ≤ p → (∀ j, q_at b' j = q_at b j) →
  (∀ s, s_at b' s = if decide (s = next_object b) then Some (p, ∅, 0) else s_at b s) →
  places b' = places b → flights b' = flights b → deliveries_made b' = deliveries_made b →
  next_object b' = next_object b + 1 → inv b'.
Proof.
  intros I Hp Q S P F D N.
  assert (s_at b (next_object b) = None) as Hi
    by (destruct (s_at b _) eqn:Hx; [|done]; pose proof (iv_fresh_s _ I _ (mk_is_Some _ _ Hx)); lia).
  constructor; rewrite ?P, ?F, ?D; repeat setoid_rewrite Q; try apply I.
  - intros k i s (Hs & Hr)%(iv_flights _ I). split; [|done]. rewrite S. by case_decide.
  - intros j Hj%(iv_fresh_q _ I). lia.
  - intros s. rewrite S. case_decide; [subst; lia|]. intros Hj%(iv_fresh_s _ I). lia.
  - intros j Hj%(iv_fresh_p _ I). lia.
  - intros j Hj%(iv_fresh_f _ I). lia.
  - intros s q dq f. rewrite S. case_decide; [|apply I]. intros [= <- <- <-]. rewrite map_size_empty. lia.
  - intros s q dq f k nm. rewrite S. case_decide; [|apply I]. intros [= <- <- <-]. rewrite lookup_empty.
    split; [done|]. intros (i & ms & ds & Hf & _). destruct (iv_flights _ I _ _ _ Hf) as [[? Hs] _]. congruence.
Qed.

(** ** One publication moves

    Publication [x] moves within queue [i], into it or out of it, and the
    delivery [k] may begin or end; everything else stays. *)

Definition here (i : Z) (p : option place) : Prop :=
  match p with Some (InQueue j) | Some (InFlight j _) => j = i | _ => True end.

Record moved b b' (i x k : Z) (n : pystr) (ms : list QueuedPublication) (ds : list (Z * DeliveryRecord)) : Prop := {
  mv_old : ∃ ms0 ds0, q_at b i = Some (n, ms0, ds0);
  mv_new : q_at b' i = Some (n, ms, ds);
  mv_others j : j ≠ i → q_at b' j = q_at b j;
  mv_places y : y ≠ x → places b' !! y = places b !! y;
  mv_here : here i (places b !! x) ∧ here i (places b' !! x);
  mv_flights l : l ≠ k → flights b' !! l = flights b !! l;
  mv_flight : (∀ j s, flights b !! k = Some (j, s) → j = i) ∧ (∀ j s, flights b' !! k = Some (j, s) → j = i);
  mv_made y a : (y, a) ∈ deliveries_made b' → (y, a) ∈ deliveries_made b ∨ y = x;
  mv_made_old y a : (y, a) ∈ deliveries_made b → (y, a) ∈ deliveries_made b';
  mv_next : next_object b ≤ next_object b';
  mv_next_x : is_Some (places b' !! x) ∧ x < next_object b' ∧ (is_Some (flights b' !! k) → k < next_object b')
}.

(** What then has to hold in queue [i]. *)
Record local b (i : Z) (ms : list QueuedPublication) (ds : list (Z * DeliveryRecord)) : Prop := {
  lc_messages : NoDup (qp_id <$> ms) ∧ ∀ y, y ∈ qp_id <$> ms ↔ places b !! y = Some (InQueue i);
  lc_deliveries : NoDup ds.*1 ∧ ∀ l r, (l, r) ∈ ds →
    places b !! qp_id (dr_queued r) = Some (InFlight i l) ∧ flights b !! l = Some (i, dr_server r);
  lc_inflight y l : places b !! y = Some (InFlight i l) → ∃ r, (l, r) ∈ ds ∧ qp_id (dr_queued r) = y;
  lc_flights l s : flights b !! l = Some (i, s) → ∃ r, (l, r) ∈ ds ∧ dr_server r = s;
  lc_tries m : m ∈ ms → sound m ∧ ∀ a, (qp_id m, a) ∈ deliveries_made b → a < qp_attempt m;
  lc_tried l r : (l, r) ∈ ds →
    sound (dr_queued r) ∧ (qp_id (dr_queued r), qp_attempt (dr_queued r)) ∈ deliveries_made b ∧
    ∀ a, (qp_id (dr_queued r), a) ∈ deliveries_made b → a ≤ qp_attempt (dr_queued r)
}.

(** And of the servers. *)
Record manned b : Prop := {
  mn_flights l i s : flights b !! l = Some (i, s) → is_Some (s_at b s);
  mn_fresh s : is_Some (s_at b s) → s < next_object b;
  mn_server s p dq f : s_at b s = Some (p, dq, f) → f = Z.of_nat (size dq) ∧ f ≤ p ∧ 1 ≤ p;
  mn_owner s p dq f l name : s_at b s = Some (p, dq, f) →
    dq !! l = Some name ↔ ∃ i ms ds, flights b !! l = Some (i, s) ∧ q_at b i = Some (name, ms, ds)
}.

Lemma inv_local b i n ms ds : inv b → q_at b i = Some (n, ms, ds) → local b i ms ds.
Proof.
  intros I Hi. constructor.
  - by apply (iv_messages _ I i n ms ds).
  - by apply (iv_deliveries _ I i n ms ds).
  - intros y l (n' & ms' & ds' & r & Hq & Hr)%(iv_inflight _ I). simplify_eq. eauto.
  - intros l s (_ & n' & ms' & ds' & r & Hq & Hr)%(iv_flights _ I). simplify_eq. eauto.
  - intros m. by apply (iv_tries _ I i n ms ds).
  - intros l r. by apply (iv_tried _ I i n ms ds).
Qed.

(** The other queues are not touched. *)
Lemma moved_other b b' i x k n ms ds j nj mj dj :
  inv b → moved b b' i x k n ms ds → j ≠ i → q_at b j = Some (nj, mj, dj) → local b' j mj dj.
Proof.
  intros I M Hj Hq. pose proof (inv_local b j nj mj dj I Hq) as [L1 L2 L3 L4 L5 L6].
  destruct (mv_here _ _ _ _ _ _ _ _ M) as [Hx Hx']. destruct (mv_flight _ _ _ _ _ _ _ _ M) as [Hk Hk'].
  assert (∀ y, places b !! y = Some (InQueue j) ↔ places b' !! y = Some (InQueue j)) as Pq.
  { intros y. destruct (decide (y = x)) as [->|Hy]; [|by rewrite (mv_places _ _ _ _ _ _ _ _ M y Hy)].
    split; intros He; rewrite He in *; simpl in *; congruence. }
  assert (∀ y l, places b !! y = Some (InFlight j l) ↔ places b' !! y = Some (InFlight j l)) as Pf.
  { intros y l. destruct (decide (y = x)) as [->|Hy]; [|by rewrite (mv_places _ _ _ _ _ _ _ _ M y Hy)].
    split; intros He; rewrite He in *; simpl in *; congruence. }
  assert (∀ l s, flights b !! l = Some (j, s) ↔ flights b' !! l = Some (j, s)) as Fl.
  { intros l s. destruct (decide (l = k)) as [->|Hl]; [|by rewrite (mv_flights _ _ _ _ _ _ _ _ M l Hl)].
    split; intros He; [pose proof (Hk _ _ He)|pose proof (Hk' _ _ He)]; congruence. }
  assert (∀ y a, y ≠ x → (y, a) ∈ deliveries_made b' → (y, a) ∈ deliveries_made b) as Hm
    by (intros y a Hy Hin; by destruct (mv_made _ _ _ _ _ _ _ _ M y a Hin)).
  constructor.
  - split; [apply L1|]. intros y. rewrite <- Pq. apply L1.
  - split; [apply L2|]. intros l r Hr. rewrite <- Pf, <- Fl. by apply L2.
  - intros y l He%Pf. by apply L3.
  - intros l s He%Fl. by apply L4.
  - intros m Hin. destruct (L5 m Hin) as [Hs Ha]. split; [done|]. intros a Hma. apply Ha, Hm; [|done].
    intros Heq. assert (places b !! x = Some (InQueue j)) as He by (rewrite <- Heq; apply L1, list_elem_of_fmap; eauto).
    rewrite He in Hx. simpl in Hx. congruence.
  - intros l r Hin. destruct (L6 l r Hin) as (Hs & Hd & Ha). split_and!; [done|by apply (mv_made_old _ _ _ _ _ _ _ _ M)|].
    intros a Hma. apply Ha, Hm; [|done]. intros Heq. destruct (proj2 L2 l r Hin) as [He _]. rewrite Heq in He.
    rewrite He in Hx. simpl in Hx. congruence.
Qed.

Lemma inv_moved b b' i x k n ms ds :
  inv b → moved b b' i x k n ms ds → local b' i ms ds → manned b' → NoDup (deliveries_made b') → inv b'.
Proof.
  intros I M L [N1 N2 N3 N4] Hnd.
  assert (∀ j nj mj dj, q_at b' j = Some (nj, mj, dj) → local b' j mj dj) as HL.
  { intros j nj mj dj Hq. destruct (decide (j = i)) as [->|Hj].
    - rewrite (mv_new _ _ _ _ _ _ _ _ M) in Hq. by simplify_eq.
    - rewrite (mv_others _ _ _ _ _ _ _ _ M j Hj) in Hq. by eapply moved_other. }
  assert (∀ j, is_Some (q_at b j) → is_Some (q_at b' j)) as Hsome.
  { intros j Hj. destruct (decide (j = i)) as [->|Hne]; [by rewrite (mv_new _ _ _ _ _ _ _ _ M)|].
    by rewrite (mv_others _ _ _ _ _ _ _ _ M j Hne). }
  assert (∀ y j, places b' !! y = Some (InQueue j) ∨ (∃ l, places b' !! y = Some (InFlight j l)) → is_Some (q_at b' j)) as HP.
  { intros y j Hy. destruct (decide (y = x)) as [->|Hne].
    - destruct (mv_here _ _ _ _ _ _ _ _ M) as [_ Hh]. assert (j = i) as -> by
        (destruct Hy as [He|[l He]]; rewrite He in Hh; done). by rewrite (mv_new _ _ _ _ _ _ _ _ M).
    - rewrite (mv_places _ _ _ _ _ _ _ _ M y Hne) in Hy. apply Hsome. destruct Hy as [He|[l He]].
      + by apply (iv_inqueue _ I y).
      + destruct (iv_inflight _ I _ _ _ He) as (? & ? & ? & ? & Hq & _). by rewrite Hq. }
  assert (∀ l j s, flights b' !! l = Some (j, s) → is_Some (q_at b' j)) as HF.
  { intros l j s Hl. destruct (decide (l = k)) as [->|Hne].
    - destruct (mv_flight _ _ _ _ _ _ _ _ M) as [_ Hk]. rewrite (Hk _ _ Hl). by rewrite (mv_new _ _ _ _ _ _ _ _ M).
    - rewrite (mv_flights _ _ _ _ _ _ _ _ M l Hne) in Hl. apply Hsome.
      destruct (iv_flights _ I _ _ _ Hl) as (_ & ? & ? & ? & ? & Hq & _). by rewrite Hq. }
  pose proof (mv_next _ _ _ _ _ _ _ _ M) as HN. destruct (mv_next_x _ _ _ _ _ _ _ _ M) as (Hxp & Hx & Hk).
  constructor; try done; try (by intros j nj mj dj Hq; destruct (HL _ _ _ _ Hq));
    try (by intros j nj mj dj m Hq; apply (HL _ _ _ _ Hq)); try (by intros j nj mj dj l r Hq; apply (HL _ _ _ _ Hq)).
  - intros y j Hy. apply (HP y). by left.
  - intros y j l Hy. destruct (HP y j) as [[[nj mj] dj] Hq]; [by right; eauto|].
    destruct (lc_inflight _ _ _ _ (HL _ _ _ _ Hq) y l Hy) as (r & Hr). eauto 10.
  - intros l j s Hl. split; [by eapply N1|]. destruct (HF _ _ _ Hl) as [[[nj mj] dj] Hq].
    destruct (lc_flights _ _ _ _ (HL _ _ _ _ Hq) l s Hl) as (r & Hr). eauto 10.
  - intros j Hj. assert (is_Some (q_at b j)) as Hj'.
    { destruct (decide (j = i)) as [->|Hne]; [destruct (mv_old _ _ _ _ _ _ _ _ M) as (? & ? & ->); by eexists|].
      by rewrite (mv_others _ _ _ _ _ _ _ _ M j Hne) in Hj. }
    pose proof (iv_fresh_q _ I j Hj'). lia.
  - intros y Hy. destruct (decide (y = x)) as [->|Hne]; [done|]. rewrite (mv_places _ _ _ _ _ _ _ _ M y Hne) in Hy.
    pose proof (iv_fresh_p _ I y Hy). lia.
  - intros l Hl. destruct (decide (l = k)) as [->|Hne]; [by apply Hk|]. rewrite (mv_flights _ _ _ _ _ _ _ _ M l Hne) in Hl.
    pose proof (iv_fresh_f _ I l Hl). lia.
  - intros y a [Hin| ->]%(mv_made _ _ _ _ _ _ _ _ M); [|done]. destruct (decide (y = x)) as [->|Hne]; [done|].
    rewrite (mv_places _ _ _ _ _ _ _ _ M y Hne). by apply (iv_made_placed _ I y a).
Qed.

(** The servers, when the names of the queues are the same. *)
Lemma manned_same b b' :
  inv b → (∀ s, s_at b' s = s_at b s) → flights b' = flights b → next_object b ≤ next_object b' →
  (∀ j, (λ q, q.1.1) <$> q_at b' j = (λ q, q.1.1) <$> q_at b j) → manned b'.
Proof.
  intros I S F N Q. constructor; rewrite ?F.
  - intros l i s (Hs & _)%(iv_flights _ I). by rewrite S.
  - intros s. rewrite S. intros Hs%(iv_fresh_s _ I). lia.
  - intros s p dq f. rewrite S. apply I.
  - intros s p dq f l name. rewrite S. intros Hs. rewrite (iv_owner _ I s p dq f l name Hs).
    split; intros (j & ms & ds & Hl & Hj); specialize (Q j); rewrite Hj in Q; simpl in Q.
    + destruct (q_at b' j) as [[[n' ms'] ds']|] eqn:Hq; simplify_eq/=. eauto.
    + destruct (q_at b j) as [[[n' ms'] ds']|] eqn:Hq; simplify_eq/=. eauto.
Qed.

(** And when the delivery [k] of server [s] begins or ends. *)
Lemma manned_flight b b' i s k n p dq f dq' f' :
  inv b → s_at b s = Some (p, dq, f) → s_at b' s = Some (p, dq', f') → (∀ t, t ≠ s → s_at b' t = s_at b t) →
  (∀ l, l ≠ k → flights b' !! l = flights b !! l ∧ dq' !! l = dq !! l) →
  (∀ j t, flights b !! k = Some (j, t) → t = s) →
  (flights b' !! k = Some (i, s) ∧ dq' !! k = Some n ∨ flights b' !! k = None ∧ dq' !! k = None) →
  f' = Z.of_nat (size dq') → f' ≤ p → next_object b ≤ next_object b' →
  ((λ q, q.1.1) <$> q_at b i = Some n) →
  (∀ j, (λ q, q.1.1) <$> q_at b' j = (λ q, q.1.1) <$> q_at b j) → manned b'.
Proof.
  intros I S S' So Hl Hk Hk' Hf Hp N Hn Q. constructor.
  - intros l j t Hlj. destruct (decide (t = s)) as [->|Hts]; [by rewrite S'|]. rewrite (So t Hts).
    destruct (decide (l = k)) as [->|Hlk]; [destruct Hk' as [[? _]|[? _]]; congruence|].
    rewrite (proj1 (Hl l Hlk)) in Hlj. by apply (iv_flights _ I) in Hlj as [? _].
  - intros t Ht. assert (is_Some (s_at b t)) as Ht'.
    { destruct (decide (t = s)) as [->|Hts]; [by rewrite S|by rewrite (So t Hts) in Ht]. }
    pose proof (iv_fresh_s _ I t Ht'). lia.
  - intros t p1 dq1 f1 Ht. destruct (decide (t = s)) as [->|Hts].
    + rewrite S' in Ht. simplify_eq. pose proof (iv_server _ I _ _ _ _ S). lia.
    + rewrite (So t Hts) in Ht. by apply (iv_server _ I) in Ht.
  - assert (∀ j nm, (∃ ms ds, q_at b' j = Some (nm, ms, ds)) ↔ ∃ ms ds, q_at b j = Some (nm, ms, ds)) as Hnm.
    { intros j nm. specialize (Q j). destruct (q_at b' j) as [[[? ?] ?]|], (q_at b j) as [[[? ?] ?]|]; simplify_eq/=;
        split; intros (? & ? & ?); simplify_eq; eauto. }
    intros t p1 dq1 f1 l nm Ht. transitivity (∃ j, flights b' !! l = Some (j, t) ∧ ∃ ms ds, q_at b' j = Some (nm, ms, ds));
      [|naive_solver]. setoid_rewrite Hnm.
    destruct (decide (t = s)) as [->|Hts].
    + rewrite S' in Ht. injection Ht as <- <- <-. destruct (decide (l = k)) as [->|Hlk].
      * destruct Hk' as [[-> ->]|[-> ->]]; [|naive_solver]. destruct (q_at b i) as [[[n1 ms1] ds1]|] eqn:Hi; simplify_eq/=.
        split; [intros [= <-]; eauto|]. intros (j & [= <-] & ms & ds & Hj). simplify_eq. done.
      * destruct (Hl l Hlk) as [-> ->]. rewrite (iv_owner _ I s p dq f l nm S). naive_solver.
    + rewrite (So t Hts) in Ht. rewrite (iv_owner _ I t p1 dq1 f1 l nm Ht). destruct (decide (l = k)) as [->|Hlk].
      * split; intros (j & Hj); [|destruct Hj as [Hj _]; destruct Hk' as [[? _]|[? _]]; congruence].
        destruct Hj as (ms & ds & Hj & _). apply Hk in Hj. congruence.
      * rewrite (proj1 (Hl l Hlk)). naive_solver.
Qed.

Lemma same_names b b' i n ms ds :
  q_at b' i = Some (n, ms, ds) → (∃ ms0 ds0, q_at b i = Some (n, ms0, ds0)) → (∀ j, j ≠ i → q_at b' j = q_at b j) →
  ∀ j, (λ q, q.1.1) <$> q_at b' j = (λ q, q.1.1) <$> q_at b j.
Proof.
  intros Hi (ms0 & ds0 & H0) Ho j. destruct (decide (j = i)) as [->|Hj]; [by rewrite Hi, H0|by rewrite Ho].
Qed.

Lemma fresh_place b : inv b → places b !! next_object b = None.
Proof. intros I. destruct (places b !! _) eqn:Hx; [|done]. pose proof (iv_fresh_p _ I _ (mk_is_Some _ _ Hx)). lia. Qed.
Lemma fresh_flight b : inv b → flights b !! next_object b = None.
Proof. intros I. destruct (flights b !! _) eqn:Hx; [|done]. pose proof (iv_fresh_f _ I _ (mk_is_Some _ _ Hx)). lia. Qed.

(** A publication is put at the end of a queue. *)
Lemma inv_enqueue b b' i n ms ds m :
  inv b → q_at b i = Some (n, ms, ds) → q_at b' i = Some (n, ms ++ [m], ds) → (∀ j, j ≠ i → q_at b' j = q_at b j) →
  (∀ s, s_at b' s = s_at b s) → places b' = <[next_object b := InQueue i]> (places b) → flights b' = flights b →
  deliveries_made b' = deliveries_made b → next_object b' = next_object b + 1 →
  qp_id m = next_object b → sound m → inv b'.
Proof.
  intros I Hq Q' Qo S P F D N Hid Hs. set (x := next_object b) in *.
  pose proof (fresh_place b I) as Hx. pose proof (fresh_flight b I) as Hf. fold x in Hx, Hf.
  destruct (inv_local b i n ms ds I Hq) as [L1 L2 L3 L4 L5 L6].
  assert (∀ y, is_Some (places b !! y) → y ≠ x) as Hne by (intros y [? Hy] ->; congruence).
  apply (inv_moved b b' i x x n (ms ++ [m]) ds); [done| | | |].
  - constructor; rewrite ?P, ?F, ?D, ?N; try done; try lia; try eauto.
    + intros y Hy. by rewrite lookup_insert_ne.
    + rewrite Hx, lookup_insert_eq. done.
    + by rewrite Hf.
    + rewrite lookup_insert_eq. split_and!; [by eexists|lia|lia].
  - constructor; rewrite ?P, ?F, ?D; try done.
    + rewrite fmap_app. simpl. rewrite Hid. split.
      * apply NoDup_app. split_and!; [apply L1| |apply NoDup_singleton].
        intros y Hy ->%list_elem_of_singleton. apply L1 in Hy. congruence.
      * intros y. rewrite elem_of_app, list_elem_of_singleton. destruct (decide (y = x)) as [->|Hy].
        -- rewrite lookup_insert_eq. naive_solver.
        -- rewrite lookup_insert_ne by done. rewrite (proj2 L1 y). naive_solver.
    + split; [apply L2|]. intros l r Hr. destruct (proj2 L2 l r Hr) as [He ?]. rewrite lookup_insert_ne; [done|].
      intros Heq. rewrite <- Heq, Hx in He. done.
    + intros y l. destruct (decide (y = x)) as [->|Hy]; [by rewrite lookup_insert_eq|].
      rewrite lookup_insert_ne by done. apply L3.
    + intros m' [Hm| ->%list_elem_of_singleton]%elem_of_app; [by apply L5|]. split; [done|].
      intros a Ha%(iv_made_placed _ I). rewrite Hid in Ha. exfalso. by apply (Hne _ Ha).
  - apply (manned_same b); try done; [lia|]. apply (same_names _ _ i n (ms ++ [m]) ds); eauto.
  - rewrite D. apply I.
Qed.

Lemma NoDup_head {A B} (f : A → B) m ms : NoDup (f <$> (m :: ms)) → f m ∉ f <$> ms ∧ NoDup (f <$> ms).
Proof. by rewrite fmap_cons, NoDup_cons. Qed.

(** The first message of a queue expires. *)
Lemma inv_expire b b' i n m ms ds e :
  inv b → q_at b i = Some (n, m :: ms, ds) → q_at b' i = Some (n, ms, ds) → (∀ j, j ≠ i → q_at b' j = q_at b j) →
  (∀ s, s_at b' s = s_at b s) → places b' = <[qp_id m := Ended e]> (places b) → flights b' = flights b →
  deliveries_made b' = deliveries_made b → next_object b' = next_object b → inv b'.
Proof.
  intros I Hq Q' Qo S P F D N. set (x := qp_id m) in *.
  destruct (inv_local b i n (m :: ms) ds I Hq) as [[L1 L1'] L2 L3 L4 L5 L6]. apply NoDup_head in L1 as [Hm L1]. fold x in Hm.
  assert (places b !! x = Some (InQueue i)) as Hx by (apply L1', list_elem_of_fmap; exists m; split; [done|by left]).
  pose proof (iv_fresh_p _ I x (mk_is_Some _ _ Hx)) as Hlt. pose proof (fresh_flight b I) as Hf.
  apply (inv_moved b b' i x (next_object b) n ms ds); [done| | | |].
  - constructor; rewrite ?P, ?F, ?D, ?N; try done; try eauto.
    + intros y Hy. by rewrite lookup_insert_ne.
    + by rewrite Hx, lookup_insert_eq.
    + by rewrite Hf.
    + rewrite lookup_insert_eq. split_and!; [by eexists|lia|]. rewrite Hf. by intros [? ?].
  - constructor; rewrite ?P, ?F, ?D; try done.
    + split; [done|]. intros y. destruct (decide (y = x)) as [->|Hy]; [by rewrite lookup_insert_eq; split|].
      rewrite lookup_insert_ne, <- L1', fmap_cons, elem_of_cons by done. naive_solver.
    + split; [apply L2|]. intros l r Hr. destruct (proj2 L2 l r Hr) as [He ?]. rewrite lookup_insert_ne; [done|].
      intros Heq. rewrite <- Heq, Hx in He. done.
    + intros y l. destruct (decide (y = x)) as [->|Hy]; [by rewrite lookup_insert_eq|].
      rewrite lookup_insert_ne by done. apply L3.
    + intros m' Hin. apply L5. by right.
  - apply (manned_same b); try done; [lia|]. apply (same_names _ _ i n ms ds); eauto.
  - rewrite D. apply I.
Qed.

(** The first message of a queue is delivered to a server. *)
Lemma inv_deliver b b' i n m ms ds s p dq f r :
  inv b → q_at b i = Some (n, m :: ms, ds) → q_at b' i = Some (n, ms, ds ++ [(next_object b, r)]) →
  (∀ j, j ≠ i → q_at b' j = q_at b j) →
  s_at b s = Some (p, dq, f) → f < p → s_at b' s = Some (p, <[next_object b := n]> dq, f + 1) →
  (∀ t, t ≠ s → s_at b' t = s_at b t) → dr_server r = s → dr_queued r = m →
  places b' = <[qp_id m := InFlight i (next_object b)]> (places b) →
  flights b' = <[next_object b := (i, s)]> (flights b) →
  deliveries_made b' = deliveries_made b ++ [(qp_id m, qp_attempt m)] → next_object b' = next_object b + 1 → inv b'.
Proof.
  intros I Hq Q' Qo Hs Hfp S' So Hrs Hrm P F D N. set (x := qp_id m) in *. set (k := next_object b) in *.
  destruct (inv_local b i n (m :: ms) ds I Hq) as [[L1 L1'] [L2 L2'] L3 L4 L5 L6].
  apply NoDup_head in L1 as [Hm L1]. fold x in Hm.
  assert (places b !! x = Some (InQueue i)) as Hx by (apply L1', list_elem_of_fmap; exists m; split; [done|by left]).
  pose proof (iv_fresh_p _ I x (mk_is_Some _ _ Hx)) as Hlt. fold k in Hlt. pose proof (fresh_flight b I) as Hf. fold k in Hf.
  assert (m ∈ m :: ms) as Hmm by (by left). destruct (L5 m Hmm) as [Hsound Htry].
  assert (∀ l r', (l, r') ∈ ds → l ≠ k ∧ qp_id (dr_queued r') ≠ x) as Hold.
  { intros l r' Hr. destruct (L2' l r' Hr) as [He Hl]. split; intros Heq; rewrite Heq in *; congruence. }
  assert (dq !! k = None) as Hdq.
  { destruct (dq !! k) eqn:He; [|done]. apply (iv_owner _ I s p dq f k _ Hs) in He as (? & ? & ? & ? & ?). congruence. }
  apply (inv_moved b b' i x k n ms (ds ++ [(k, r)])); [done| | | |].
  - constructor; rewrite ?P, ?F, ?D, ?N; try done; try eauto; try lia.
    + intros y Hy. by rewrite lookup_insert_ne.
    + by rewrite Hx, lookup_insert_eq.
    + intros l Hl. by rewrite lookup_insert_ne.
    + rewrite Hf, lookup_insert_eq. split; [done|]. by intros j t [= <- <-].
    + intros y a [?|[= -> ->]%list_elem_of_singleton]%elem_of_app; auto.
    + intros y a Ha. apply elem_of_app. by left.
    + rewrite lookup_insert_eq. split_and!; [by eexists|lia|lia].
  - constructor; rewrite ?P, ?F, ?D.
    + split; [done|]. intros y. destruct (decide (y = x)) as [->|Hy]; [by rewrite lookup_insert_eq; split|].
      rewrite lookup_insert_ne, <- L1', fmap_cons, elem_of_cons by done. naive_solver.
    + split.
      * rewrite fmap_app. apply NoDup_app. split_and!; [done| |apply NoDup_singleton].
        intros l [[l' r'] [-> Hin]]%list_elem_of_fmap Hl%list_elem_of_singleton. by destruct (Hold _ _ Hin).
      * intros l r' [Hin|[= -> ->]%list_elem_of_singleton]%elem_of_app.
        -- destruct (Hold _ _ Hin). rewrite !lookup_insert_ne by done. by apply L2'.
        -- rewrite Hrm. fold x. rewrite !lookup_insert_eq. by rewrite Hrs.
    + intros y l. destruct (decide (y = x)) as [->|Hy].
      * rewrite lookup_insert_eq. intros [= <-]. exists r. rewrite Hrm. split; [set_solver|done].
      * rewrite lookup_insert_ne by done. intros (r' & ? & ?)%L3. exists r'. split; [set_solver|done].
    + intros l t. destruct (decide (l = k)) as [->|Hl].
      * rewrite lookup_insert_eq. intros [= <-]. exists r. split; [set_solver|done].
      * rewrite lookup_insert_ne by done. intros (r' & ? & ?)%L4. exists r'. split; [set_solver|done].
    + intros m' Hin. destruct (L5 m') as [Hs' Ha]; [by right|]. split; [done|].
      intros a [?|[= He _]%list_elem_of_singleton]%elem_of_app; [by apply Ha|].
      exfalso. apply Hm. rewrite <- He. apply list_elem_of_fmap. eauto.
    + intros l r' [Hin|[= -> ->]%list_elem_of_singleton]%elem_of_app.
      * destruct (L6 l r' Hin) as (Hs' & Hd & Ha). destruct (Hold _ _ Hin) as [_ Hne]. split_and!; [done|set_solver|].
        intros a [?|[= He _]%list_elem_of_singleton]%elem_of_app; [by apply Ha|done].
      * rewrite Hrm. split_and!; [done|set_solver|]. intros a [Ha%Htry|[= ->]%list_elem_of_singleton]%elem_of_app; lia.
  - apply (manned_flight b b' i s k n p dq f (<[k := n]> dq) (f + 1)); try done; try lia.
    + intros l Hl. by rewrite F, !lookup_insert_ne.
    + intros j t. by rewrite Hf.
    + left. by rewrite F, !lookup_insert_eq.
    + rewrite map_size_insert_None by done. pose proof (iv_server _ I _ _ _ _ Hs). lia.
    + by rewrite Hq.
    + apply (same_names _ _ i n ms (ds ++ [(k, r)])); eauto.
  - rewrite D. apply NoDup_app. split_and!; [apply I| |apply NoDup_singleton].
    intros [y a] Hin [= -> ->]%list_elem_of_singleton. apply Htry in Hin. lia.
Qed.
Lemma elem_of_dict_del {K V} `{EqDecision K} (d : list (K * V)) k l v : (l, v) ∈ dict_del d k ↔ l ≠ k ∧ (l, v) ∈ d.
Proof. unfold dict_del. by rewrite list_elem_of_filter. Qed.

Lemma dict_del_NoDup {K V} `{EqDecision K} (d : list (K * V)) k : NoDup d.*1 → NoDup (dict_del d k).*1.
Proof.
  unfold dict_del. induction d as [|[l v] d IH]; simpl; [done|]. rewrite NoDup_cons. intros [Hl Hd].
  rewrite filter_cons. case_decide; [|by apply IH]. simpl. apply NoDup_cons. split; [|by apply IH].
  intros [[l' v'] [-> Hin]]%list_elem_of_fmap. apply Hl, list_elem_of_fmap. exists (l', v'). split; [done|].
  by apply list_elem_of_filter in Hin as [_ ?].
Qed.

(** A delivery ends: its publication is queued again, or has ended. *)
Lemma inv_return b b' i n ms ds k r s p dq f pl ms' :
  inv b → q_at b i = Some (n, ms, ds) → (k, r) ∈ ds → dr_server r = s →
  q_at b' i = Some (n, ms', dict_del ds k) → (∀ j, j ≠ i → q_at b' j = q_at b j) →
  s_at b s = Some (p, dq, f) → s_at b' s = Some (p, delete k dq, f - 1) → (∀ t, t ≠ s → s_at b' t = s_at b t) →
  places b' = <[qp_id (dr_queued r) := pl]> (places b) → flights b' = delete k (flights b) →
  deliveries_made b' = deliveries_made b → next_object b' = next_object b →
  ((∃ m, pl = InQueue i ∧ ms' ≡ₚ m :: ms ∧ qp_id m = qp_id (dr_queued r) ∧ sound m ∧
         qp_attempt m = qp_attempt (dr_queued r) + 1) ∨ (∃ e, pl = Ended e) ∧ ms' = ms) → inv b'.
Proof.
  intros I Hq Hr Hrs Q' Qo Hs S' So P F D N Hpl. set (x := qp_id (dr_queued r)) in *.
  destruct (inv_local b i n ms ds I Hq) as [[L1 L1'] [L2 L2'] L3 L4 L5 L6].
  destruct (L2' k r Hr) as [Hx Hk]. fold x in Hx. rewrite Hrs in Hk.
  pose proof (iv_fresh_p _ I x (mk_is_Some _ _ Hx)) as Hlt.
  assert (∀ m, m ∈ ms → qp_id m ≠ x) as Hms.
  { intros m Hin He. assert (qp_id m ∈ qp_id <$> ms) as Hi by (apply list_elem_of_fmap; eauto). apply L1' in Hi. congruence. }
  assert (∀ l r', (l, r') ∈ ds → l ≠ k → qp_id (dr_queued r') ≠ x) as Hds.
  { intros l r' Hin Hl Heq. destruct (L2' l r' Hin) as [He _]. rewrite Heq in He. congruence. }
  assert (dq !! k = Some n) as Hdq by (apply (iv_owner _ I s p dq f k n Hs); eauto).
  apply (inv_moved b b' i x k n ms' (dict_del ds k)); [done| | | |].
  - constructor; rewrite ?P, ?F, ?D, ?N; try done; try eauto; try lia.
    + intros y Hy. by rewrite lookup_insert_ne.
    + rewrite Hx, lookup_insert_eq. by destruct Hpl as [(? & -> & _)|[[? ->] _]].
    + intros l Hl. by rewrite lookup_delete_ne.
    + rewrite lookup_delete_eq, Hk. split; [by intros j t [= <- <-]|done].
    + rewrite lookup_insert_eq, lookup_delete_eq. split_and!; [by eexists|lia|by intros [? ?]].
  - constructor; rewrite ?P, ?F, ?D.
    + destruct Hpl as [(m & -> & Hp & Hm & _)|[[e ->] ->]].
      * split; [rewrite Hp, fmap_cons, NoDup_cons, Hm; split; [|done]; by intros (m' & He & Hin)%list_elem_of_fmap; apply (Hms m')|].
        intros y. rewrite Hp, fmap_cons, elem_of_cons, Hm. destruct (decide (y = x)) as [->|Hy].
        -- rewrite lookup_insert_eq. naive_solver.
        -- rewrite lookup_insert_ne, <- L1' by done. naive_solver.
      * split; [done|]. intros y. destruct (decide (y = x)) as [->|Hy].
        -- rewrite lookup_insert_eq. split; [|done]. by intros (m' & He & Hin)%list_elem_of_fmap; exfalso; apply (Hms m').
        -- by rewrite lookup_insert_ne.
    + split; [by apply dict_del_NoDup|]. intros l r' [Hl Hin]%elem_of_dict_del.
      rewrite lookup_insert_ne, lookup_delete_ne by (first [done|by apply not_eq_sym, (Hds l)]). by apply L2'.
    + intros y l. destruct (decide (y = x)) as [->|Hy].
      * rewrite lookup_insert_eq. by destruct Hpl as [(? & -> & _)|[[? ->] _]].
      * rewrite lookup_insert_ne by done. intros Hyl. destruct (L3 y l Hyl) as (r' & Hin & Hid). exists r'. split; [|done].
        apply elem_of_dict_del. split; [|done]. intros ->.
        assert (r' = r) as -> by (eapply (NoDup_fst_inj ds k); done). by apply Hy; rewrite <- Hid.
    + intros l t. destruct (decide (l = k)) as [->|Hl]; [by rewrite lookup_delete_eq|].
      rewrite lookup_delete_ne by done. intros (r' & Hin & Ht)%L4. exists r'. split; [|done]. by apply elem_of_dict_del.
    + intros m Hin. destruct Hpl as [(m1 & _ & Hp & Hm & Hs1 & Ha1)|[_ ->]]; [|by apply L5].
      rewrite Hp in Hin. apply elem_of_cons in Hin as [->|Hin]; [|by apply L5]. split; [done|].
      rewrite Hm, Ha1. intros a Ha. destruct (L6 k r Hr) as (_ & _ & Hle). apply Hle in Ha. lia.
    + intros l r' [Hl Hin]%elem_of_dict_del. by apply (L6 l r').
  - apply (manned_flight b b' i s k n p dq f (delete k dq) (f - 1)); try done; try lia.
    + intros l Hl. by rewrite F, !lookup_delete_ne.
    + intros j t. rewrite Hk. by intros [= <- <-].
    + right. by rewrite F, !lookup_delete_eq.
    + rewrite map_size_delete_Some by (by eexists). pose proof (iv_server _ I _ _ _ _ Hs) as (Hf & _).
      assert (size dq ≠ 0%nat); [|lia]. intros He%map_size_empty_inv. by rewrite He, lookup_empty in Hdq.
    + pose proof (iv_server _ I _ _ _ _ Hs). lia.
    + by rewrite Hq.
    + apply (same_names _ _ i n ms' (dict_del ds k)); eauto.
  - rewrite D. apply I.
Qed.
End books.
