(* ===== verification/MsBrokerSteps.v ===== *)
(** * Microservices: every step keeps the books of the broker *)

From Stdlib Require Import ZArith Lia.
From stdpp Require Import base tactics list gmap strings.
From S2P Require Import Prelude MsWire MsValues MsBroker MsEndpoints MsWireFacts MsBrokerFacts.
Local Open Scope Z_scope.

Section steps.
Context `{Json}.
Implicit Types b : broker.

(** Copies that have ended. *)
Context {F : gmap Z ending}.

(** The names of queues lead to queues of that name. *)
Definition linked b : Prop :=
  ∀ name i, dict_get (_queues (topo b)) name = Some i → ∃ ms ds, q_at b i = Some (name, ms, ds).

(** The copies that have ended stay ended. *)
Definition kept b : Prop := ∀ x e, F !! x = Some e → places b !! x = Some (Ended e).

Definition good b : Prop := inv b ∧ linked b ∧ kept b.

Lemma kept_same b b' : kept b → places b' = places b → kept b'.
Proof. intros K P x e Hx. rewrite P. by apply K. Qed.

(** Only a copy that has not ended moves. *)
Lemma kept_insert b b' x p :
  kept b → (∀ e, places b !! x ≠ Some (Ended e)) → places b' = <[x := p]> (places b) → kept b'.
Proof. intros K Hx P y e Hy%K. rewrite P, lookup_insert_ne; [done|]. intros <-. by eapply Hx. Qed.

Definition unlinks b b' : Prop :=
  ∀ name i, dict_get (_queues (topo b')) name = Some i → dict_get (_queues (topo b)) name = Some i.

Lemma good_calm b b' : calm b b' → unlinks b b' → good b → good b'.
Proof.
  intros C U (I & L & K). split_and!; [by eapply inv_calm| |by eapply kept_same, cm_places]. intros name i Hi%U. destruct (L name i Hi) as (ms & ds & Hq).
  exists ms, ds. by rewrite (cm_q _ _ C).
Qed.

Lemma good_new m a b : F = ∅ → InMemoryBroker_new m a = Ok b → good b.
Proof.
  intros HF Hb. split_and!; [by eapply inv_new| |intros x e; by rewrite HF]. unfold InMemoryBroker_new in Hb.
  apply result_bind_ok in Hb as (? & _ & Hb). apply result_bind_ok in Hb as (? & _ & [= <-]). by intros name i.
Qed.

(** ** Code that does not touch the books *)

Definition quiet_q (f : queue → queue) : Prop :=
  ∀ q, (q_name (f q), messages (f q), deliveries (f q)) = (q_name q, messages q, deliveries q).
Definition quiet_s (f : server → server) : Prop :=
  ∀ v, (prefetch (f v), _delivery_queues (f v), _in_flight (f v)) = (prefetch v, _delivery_queues v, _in_flight v).

Lemma q_at_on i f b j :
  q_at (set_queues (alter f i) b) j =
  if decide (j = i) then (λ q, (q_name (f q), messages (f q), deliveries (f q))) <$> queue_heap b !! i else q_at b j.
Proof.
  unfold q_at. simpl. case_decide as Hj; [subst; rewrite lookup_alter_eq; by destruct (queue_heap b !! i)|].
  by rewrite lookup_alter_ne.
Qed.

Lemma s_at_on s f b t :
  s_at (set_servers (alter f s) b) t =
  if decide (t = s) then (λ v, (prefetch (f v), _delivery_queues (f v), _in_flight (f v))) <$> server_heap b !! s else s_at b t.
Proof.
  unfold s_at. simpl. case_decide as Hj; [subst; rewrite lookup_alter_eq; by destruct (server_heap b !! s)|].
  by rewrite lookup_alter_ne.
Qed.

Lemma calm_on_queue i f b : quiet_q f → calm b (set_queues (alter f i) b).
Proof.
  intros Hf. constructor; try done. intros j. rewrite q_at_on. case_decide as Hj; [|done]. subst. unfold q_at.
  destruct (queue_heap b !! i) as [q|]; simpl; [by rewrite Hf|done].
Qed.

Lemma calm_on_server s f b : quiet_s f → calm b (set_servers (alter f s) b).
Proof.
  intros Hf. constructor; try done. intros j. rewrite s_at_on. case_decide as Hj; [|done]. subst. unfold s_at.
  destruct (server_heap b !! s) as [q|]; simpl; [by rewrite Hf|done].
Qed.

Lemma pres_calm (f : broker → broker) : (∀ b, calm b (f b) ∧ unlinks b (f b)) → pres good (modify f : B unit).
Proof. intros Hf b Hg. destruct (Hf b). by eapply good_calm. Qed.

Lemma pres_on_queue i f : quiet_q f → pres good (on_queue i f).
Proof. intros Hf. apply pres_calm. intros b. split; [by apply calm_on_queue|by intros name j]. Qed.

Lemma pres_on_server s f : quiet_s f → pres good (on_server s f).
Proof. intros Hf. apply pres_calm. intros b. split; [by apply calm_on_server|by intros name j]. Qed.

Lemma pres_take : pres good (modify take_object : B unit).
Proof. apply pres_calm. intros b. split; [constructor; try done; simpl; lia|by intros name j]. Qed.

(** A change of the topology that links no new queue. *)
Lemma pres_topo (f : topology → topology) :
  (∀ t name i, dict_get (_queues (f t)) name = Some i → dict_get (_queues t) name = Some i) →
  pres good (modify (set_topo f) : B unit).
Proof. intros Hf. apply pres_calm. intros b. split; [by constructor|]. intros name i. apply Hf. Qed.

Ltac quiet := apply pres_calm; intros b; split; [by constructor|by intros name j].

Lemma pres_registered f : pres good (modify (set_registered f) : B unit).
Proof. quiet. Qed.
Lemma pres_replies f g h k : pres good (modify (set_replies f g h k) : B unit).
Proof. quiet. Qed.
Lemma pres_closers f : pres good (modify (set_closers f) : B unit).
Proof. quiet. Qed.
Lemma pres_closed : pres good (modify set_closed : B unit).
Proof. quiet. Qed.
Lemma pres_dead d : pres good (modify (push_dead d) : B unit).
Proof. quiet. Qed.

Lemma pres_for {A} (f : A → B unit) l : (∀ a, pres good (f a)) → pres good (mfor f l).
Proof. intros Hf. induction l as [|x l IH]; simpl; [apply pres_ret|]. apply pres_bind; auto. Qed.

Lemma pres_fresh : pres good fresh.
Proof. unfold fresh. solve_pres; apply pres_take. Qed.
Lemma pres_queue_at i : pres good (queue_at i).
Proof. unfold queue_at. solve_pres. Qed.
Lemma pres_server_at i : pres good (server_at i).
Proof. unfold server_at. solve_pres. Qed.
Lemma pres_client_at i : pres good (client_at i).
Proof. unfold client_at. solve_pres. Qed.
Lemma pres_named n : pres good (named n).
Proof. unfold named. solve_pres. Qed.
Lemma pres_open : pres good _require_open.
Proof. unfold _require_open. solve_pres. Qed.
Lemma pres_on_client c f : pres good (on_client c f).
Proof. apply pres_replies. Qed.

#[local] Hint Resolve pres_take pres_registered pres_replies pres_closers pres_closed pres_dead pres_fresh
  pres_queue_at pres_server_at pres_client_at pres_named pres_open pres_on_client : tori.

(** Follow the code; what is left are changes of objects and of the topology. *)
Ltac solve_good :=
  repeat first
    [ solve [eauto 2 with tori nocore]
    | apply pres_bind; [|intros ?]
    | apply pres_try; [|intros ?]
    | apply pres_for; intros ?
    | apply pres_on_queue; by intros ?
    | apply pres_on_server; by intros ?
    | case_match ].


(** ** Registering and publishing *)

Lemma pres_ensure name : pres good (ensure_queue name).
Proof.
  intros b (I & L & K). unfold ensure_queue. autorewrite with mrun. destruct (dict_get _ name) as [i|] eqn:Hn; [done|].
  unfold fresh. autorewrite with mrun. simpl. set (b' := set_topo _ _).
  assert (∀ j, q_at b' j = if decide (j = next_object b) then Some (name, [], []) else q_at b j) as Q.
  { intros j. unfold q_at. simpl. case_decide as Hj; [subst; by rewrite lookup_insert_eq|by rewrite lookup_insert_ne]. }
  split_and!; [by eapply (inv_new_queue b b' name)| |by apply (kept_same b)]. intros nm i. simpl. rewrite dict_get_set, Q. case_decide as Hnm.
  - intros [= <-]. subst. rewrite decide_True by done. eauto.
  - intros Hi. destruct (L nm i Hi) as (ms & ds & Hq). pose proof (iv_fresh_q _ I i (mk_is_Some _ _ Hq)).
    rewrite decide_False by lia. eauto.
Qed.

Lemma pres_server service replica n : pres good (InMemoryServerTransport_new service replica n).
Proof.
  intros b (I & L & K). unfold InMemoryServerTransport_new. autorewrite with mrun.
  destruct (positive_count n) as [p|] eqn:Hp; [|done]. unfold fresh. autorewrite with mrun. simpl.
  assert (1 ≤ p) by (unfold positive_count in Hp; repeat case_match; simplify_eq; bool_hyps; lia).
  split_and!; [|by intros nm i Hi; apply (L nm i)|by apply (kept_same b)].
  apply (inv_new_server b _ p); try done. intros s. unfold s_at. simpl.
  case_decide as Hs; [subst; by rewrite lookup_insert_eq|by rewrite lookup_insert_ne].
Qed.

Lemma linked_same b b' :
  linked b → topo b' = topo b → (∀ j, (λ q, q.1.1) <$> q_at b' j = (λ q, q.1.1) <$> q_at b j) → linked b'.
Proof.
  intros L T Q name i. rewrite T. intros (ms & ds & Hq)%L. specialize (Q i). rewrite Hq in Q. simpl in Q.
  destruct (q_at b' i) as [[[n ms'] ds']|]; simplify_eq/=. eauto.
Qed.

Lemma pres_enqueue p name : valid_publication p → pres good (enqueue p name).
Proof.
  intros Hp b (I & L & K). unfold enqueue, named. autorewrite with mrun. destruct (dict_get _ name) as [i|] eqn:Hn; [|done].
  unfold fresh, placed, on_queue. autorewrite with mrun. destruct (L name i Hn) as (ms & ds & Hq).
  pose proof Hq as Hq'. unfold q_at in Hq'. destruct (queue_heap b !! i) as [q|] eqn:Hi; [|done]. injection Hq' as Hq1 Hq2 Hq3.
  set (m := {| qp_id := _ |}). set (b' := set_queues _ _).
  assert (∀ j, q_at b' j = if decide (j = i) then Some (name, ms ++ [m], ds) else q_at b j) as Q.
  { intros j. unfold b'. rewrite q_at_on. case_decide; [|done]. simpl. rewrite Hi. simpl. by rewrite Hq1, Hq2, Hq3. }
  split_and!.
  - apply (inv_enqueue b b' i name ms ds m); try done; [by rewrite Q, decide_True|by intros j Hj; rewrite Q, decide_False|].
    apply app_nil_r.
  - apply (linked_same b); [done|done|]. intros j. rewrite Q. case_decide; subst; by rewrite ?Hq.
  - apply (kept_insert b b' (next_object b) (InQueue i)); [done| |done]. intros e He.
    pose proof (iv_fresh_p _ I _ (mk_is_Some _ _ He)). lia.
Qed.

Lemma pres_publish now p : valid_publication p → pres good (publish now p).
Proof.
  intros Hp. unfold publish. pose proof pres_enqueue. assert (∀ l, pres good (any_full l)).
  { intros l. induction l as [|x l IH]; simpl; unfold is_full; solve_good. }
  solve_good.
Qed.

Lemma pres_check_owner s p : pres good (check_owner s p).
Proof. unfold check_owner. solve_good. Qed.

Lemma pres_register_subscription s p : pres good (register_subscription s p).
Proof.
  unfold register_subscription. pose proof pres_check_owner. pose proof pres_ensure. destruct p as [sub name].
  solve_good; try (apply pres_topo; by intros ???).
Qed.

Lemma pres_register s methods subs : pres good (register_server s methods subs).
Proof.
  unfold register_server, _servers_by_replica. pose proof pres_check_owner. pose proof pres_ensure.
  pose proof pres_register_subscription. solve_good; try (apply pres_topo; by intros ???).
Qed.
(** ** Starting and stopping *)

Lemma pres_start_server s : pres good (start_server s).
Proof.
  unfold start_server, start_consumer. solve_good. apply pres_on_queue. intros q. by destruct (q_task q).
Qed.

(** One delivery goes back to its queue. *)
Lemma good_requeue s i k r b n ms ds :
  good b → q_at b i = Some (n, ms, ds) → (k, r) ∈ ds →
  good (requeue_delivery s i (k, r) b).2 ∧
  ∃ ms', q_at (requeue_delivery s i (k, r) b).2 i =
         Some (n, ms', if decide (dr_server r = s) then dict_del ds k else ds).
Proof.
  intros (I & L & K) Hq Hr. unfold requeue_delivery. destruct (decide (dr_server r = s)) as [Hs|Hs].
  2: { assert ((dr_server r =? s) = false) as -> by lia. simpl. split; [done|eauto]. }
  rewrite Hs, Z.eqb_refl. cbv beta iota zeta delta [negb]. unfold on_queue, on_server. autorewrite with mrun.
  destruct (iv_deliveries _ I i n ms ds Hq) as [_ Hd]. destruct (Hd k r Hr) as [Hpl Hf]. rewrite Hs in Hf.
  destruct (iv_flights _ I _ _ _ Hf) as [[[[p dq] f] Hsv] _].
  pose proof Hq as Hq'. unfold q_at in Hq'. destruct (queue_heap b !! i) as [q|] eqn:Hi; [|done]. injection Hq' as Hq1 Hq2 Hq3.
  pose proof Hsv as Hsv'. unfold s_at in Hsv'. destruct (server_heap b !! s) as [v|] eqn:Hv; [|done]. injection Hsv' as Hv1 Hv2 Hv3.
  set (m := {| qp_id := _ |}). set (b' := set_servers _ _).
  assert (∀ j, q_at b' j = if decide (j = i) then Some (n, m :: ms, dict_del ds k) else q_at b j) as Q.
  { intros j. change (q_at b' j) with (q_at (set_queues (alter (λ q, set_messages (m :: messages q)
      (set_deliveries (dict_del (deliveries q) k) q)) i) b) j). rewrite q_at_on. case_decide; [|done]. rewrite Hi. simpl.
    by rewrite Hq1, Hq2, Hq3. }
  assert (∀ t, s_at b' t = if decide (t = s) then Some (p, delete k dq, f - 1) else s_at b t) as S.
  { intros t. unfold b'. rewrite s_at_on. case_decide; [|done]. simpl. rewrite Hv. simpl. by rewrite Hv1, Hv2, Hv3. }
  destruct (iv_tried _ I i n ms ds k r Hq Hr) as ((Hval & Hatt & _) & _).
  simpl snd. split; [split_and!|].
  - apply (inv_return b b' i n ms ds k r s p dq f (InQueue i) (m :: ms)); try done; try (by rewrite ?Q, ?S, decide_True);
      try (intros j Hj; rewrite ?Q, ?S; by rewrite decide_False); [by simpl; rewrite app_nil_r|].
    left. exists m. split_and!; try done. unfold sound. simpl. split_and!; [done|lia|]. symmetry. apply Z.ltb_lt. lia.
  - apply (linked_same b); [done|done|]. intros j. rewrite Q. case_decide as Hj; [subst j; by rewrite Hq|done].
  - apply (kept_insert b b' (qp_id (dr_queued r)) (InQueue i)); [done| |done]. intros e. by rewrite Hpl.
  - eexists. by rewrite Q, decide_True.
Qed.

Lemma good_requeue_all s i l b n ms ds :
  good b → q_at b i = Some (n, ms, ds) → NoDup l.*1 → (∀ k r, (k, r) ∈ l → (k, r) ∈ ds) →
  good (mfor (requeue_delivery s i) l b).2.
Proof.
  revert b ms ds. induction l as [|[k r] l IH]; intros b ms ds G Hq Hn Hl; [done|]. cbn [mfor].
  apply NoDup_cons in Hn as [Hk Hn]. destruct (good_requeue s i k r b n ms ds G Hq) as [G' (ms' & Hq')]; [apply Hl; by left|].
  unfold mbind, M_bind. destruct (requeue_delivery s i (k, r) b) as [[u|e] b'] eqn:Hrun; simpl in G', Hq'; [|done].
  eapply IH; [done|exact Hq'|done|]. intros l' r' Hin. assert ((l', r') ∈ ds) by (apply Hl; by right).
  case_decide; [|done]. apply elem_of_dict_del. split; [|done]. intros ->. apply Hk, list_elem_of_fmap. by exists (k, r').
Qed.

Lemma dict_get_del {V} (d : list (pystr * V)) k l v : dict_get (dict_del d k) l = Some v → dict_get d l = Some v.
Proof.
  unfold dict_del. induction d as [|[j w] d IH]; simpl; [done|]. rewrite filter_cons. simpl.
  case_decide as Hj; rewrite !dict_get_cons; case_decide; try done; auto. subst l j.
  intros Hk. exfalso. clear -Hk. induction d as [|[j w'] d IH]; [done|]. rewrite filter_cons in Hk. simpl in Hk.
  case_decide as Hj; [|auto]. rewrite dict_get_cons in Hk. case_decide; [done|auto].
Qed.

Lemma pres_remove_begin name : pres good (remove_queue_begin name).
Proof.
  unfold remove_queue_begin. solve_good. apply pres_topo. intros t n i. simpl. apply dict_get_del.
Qed.

Lemma calm_servers (f : Z → server → server) b : (∀ j, quiet_s (f j)) → calm b (set_servers (map_imap (λ j v, Some (f j v))) b).
Proof.
  intros Hf. constructor; try done. intros s. unfold s_at. simpl. rewrite map_lookup_imap.
  destruct (server_heap b !! s) as [v|] eqn:Hv; simpl; [by rewrite (Hf s)|done].
Qed.

Lemma pres_remove_end name : pres good (remove_queue_end name).
Proof.
  unfold remove_queue_end. apply pres_bind; [apply pres_topo; by intros ???|intros _].
  apply pres_bind; [apply pres_get|intros b]. apply pres_bind; [|intros _; apply pres_topo; by intros ???].
  apply pres_calm. intros b'. split; [|by intros n i]. apply (calm_servers (λ j v, if decide (j ∈ _servers b) then forget_name name v else v)).
  intros j v. by case_decide.
Qed.

Lemma pres_remove name : pres good (_remove_queue name).
Proof. unfold _remove_queue. pose proof pres_remove_begin. pose proof pres_remove_end. solve_good. Qed.

Lemma bind_good {A C} (m : B A) (k : A → B C) b : good (m b).2 → (∀ a, pres good (k a)) → good ((m ≫= k) b).2.
Proof. intros Hm Hk. unfold mbind, M_bind. destruct (m b) as [[a|e] b']; [by apply Hk|done]. Qed.

Lemma good_stop_requeue s (requeue : bool) i b q :
  good b → queue_heap b !! i = Some q →
  good ((if requeue then mfor (requeue_delivery s i) (deliveries q) else mret tt) b).2.
Proof.
  intros G Hi. destruct requeue; [|done].
  assert (q_at b i = Some (q_name q, messages q, deliveries q)) as Hq by (unfold q_at; by rewrite Hi).
  eapply good_requeue_all; [done|exact Hq| |done]. by destruct (iv_deliveries _ (proj1 G) _ _ _ _ Hq).
Qed.

Lemma pres_stop_queue s requeue i : pres good (stop_queue s requeue i).
Proof.
  unfold stop_queue. apply pres_bind; [apply pres_server_at|intros v].
  apply pres_bind; [by apply pres_on_queue|intros _]. intros b G.
  unfold queue_at. autorewrite with mrun. destruct (queue_heap b !! i) as [q|] eqn:Hi; [|done]. autorewrite with mrun.
  apply bind_good; [by apply good_stop_requeue|intros _].
  apply pres_bind; [by apply pres_on_queue|intros _]. apply pres_bind; [apply pres_get|intros b1].
  destruct (requeue && _ && _ && _); [apply pres_remove|]. destruct (bool_decide _); [|apply pres_ret].
  apply pres_bind; [apply pres_topo; by intros ???|intros _; apply pres_ret].
Qed.
(** ** Delivering *)

Lemma insert_by_perm c l : insert_by c l ≡ₚ c :: l.
Proof. induction l as [|d l IH]; simpl; [done|]. case_match; [done|]. rewrite IH. apply Permutation_swap. Qed.

Lemma sort_consumers_perm l : sort_consumers l ≡ₚ l.
Proof. induction l as [|c l IH]; simpl; [done|]. unfold sort_consumers in IH. by rewrite insert_by_perm, IH. Qed.

Lemma queue_at_run i q b : queue_heap b !! i = Some q → queue_at i b = (Ok q, b).
Proof. intros Hi. unfold queue_at. autorewrite with mrun. by rewrite Hi. Qed.
Lemma server_at_run s v b : server_heap b !! s = Some v → server_at s b = (Ok v, b).
Proof. intros Hs. unfold server_at. autorewrite with mrun. by rewrite Hs. Qed.
Lemma named_run n i b : dict_get (_queues (topo b)) n = Some i → named n b = (Ok i, b).
Proof. intros Hn. unfold named. autorewrite with mrun. by rewrite Hn. Qed.

(** The consumer that is chosen can take one more delivery. *)
Lemma next_consumer_run i b q :
  queue_heap b !! i = Some q →
  ∃ o n, _next_consumer i b = (Ok o, set_queues (alter (set_cursor n) i) b) ∧
    ∀ c, o = Some c → c ∈ consumers q ∧ eligible b c.2 = true.
Proof.
  intros Hi. unfold _next_consumer, queue_at. autorewrite with mrun. rewrite Hi. autorewrite with mrun.
  set (l := sort_consumers _). case_bool_decide as Hl.
  - exists None, (cursor q). split; [|done]. autorewrite with mrun. f_equal. destruct b. unfold set_queues. simpl in *. f_equal.
    symmetry. apply alter_id. intros q' Hq'. rewrite Hi in Hq'. injection Hq' as <-. by destruct q.
  - autorewrite with mrun. eexists _, _. split; [done|]. intros c Hc%list_elem_of_lookup_2.
    unfold l in Hc. rewrite sort_consumers_perm in Hc. apply list_elem_of_filter in Hc as [? ?]. done.
Qed.

Lemma eligible_server b c :
  eligible b c = true → ∃ v, server_heap b !! cs_server c = Some v ∧ _in_flight v < prefetch v.
Proof.
  unfold eligible. intros Hc. bool_hyps. destruct (server_heap b !! cs_server c) as [v|]; [|done]. bool_hyps. eauto.
Qed.

(** A message that waits has not ended. *)
Lemma head_not_ended b i n m ms ds e : inv b → q_at b i = Some (n, m :: ms, ds) → places b !! qp_id m ≠ Some (Ended e).
Proof.
  intros I Hq. destruct (iv_messages _ I _ _ _ _ Hq) as [_ Hm]. assert (places b !! qp_id m = Some (InQueue i)) as ->; [|done].
  apply Hm. by left.
Qed.

Lemma good_expire b i q m ms :
  good b → queue_heap b !! i = Some q → messages q = m :: ms →
  good (set_history <[qp_id m := Ended EndExpired]> id [] (set_queues (alter (λ q, set_messages (tail (messages q)) q) i) b)).
Proof.
  intros (I & L & K) Hi Hm. set (b' := set_history _ _ _ _).
  assert (q_at b i = Some (q_name q, m :: ms, deliveries q)) as Hq by (unfold q_at; rewrite Hi; simpl; by rewrite Hm).
  assert (∀ j, q_at b' j = if decide (j = i) then Some (q_name q, ms, deliveries q) else q_at b j) as Q.
  { intros j. change (q_at b' j) with (q_at (set_queues (alter (λ q, set_messages (tail (messages q)) q) i) b) j).
    rewrite q_at_on, Hi. simpl. by rewrite Hm. }
  split_and!.
  - apply (inv_expire b b' i (q_name q) m ms (deliveries q) EndExpired); try done; [by rewrite Q, decide_True| |apply app_nil_r].
    intros j Hj. by rewrite Q, decide_False.
  - apply (linked_same b); [done|done|]. intros j. rewrite Q. case_decide as Hj; [subst j; by rewrite Hq|done].
  - eapply (kept_insert b b' (qp_id m)); [done|intros e; by eapply head_not_ended|done].
Qed.

(** The state after a delivery. *)
Definition after_deliver (i : Z) (name : pystr) (c : pystr * Consumer) (m : QueuedPublication) (d : EncodedDelivery) b : broker :=
  let key := next_object b in
  let up := {| cs_server := cs_server c.2; cs_prefetch := cs_prefetch c.2; cs_in_flight := cs_in_flight c.2 + 1;
               cs_active := cs_active c.2 |} in
  set_history <[qp_id m := InFlight i key]> <[key := (i, cs_server c.2)]> [(qp_id m, qp_attempt m)]
    (set_servers (alter (λ v, set_flight (<[key := name]> (_delivery_queues v)) ({[ key ]} ∪ _tasks v) (_in_flight v + 1) v)
      (cs_server c.2))
    (set_queues (alter (λ q, set_consumers (dict_set (consumers q) c.1 up) (set_deliveries
       (deliveries q ++ [(key, {| dr_server := cs_server c.2; dr_delivery := d; dr_queued := m |})]) q)) i)
    (take_object b))).

Lemma good_deliver b i q c m ms d :
  good b → queue_heap b !! i = Some q → messages q = m :: ms → eligible b c.2 = true →
  good (after_deliver i (q_name q) c m d (set_queues (alter (λ q, set_messages (tail (messages q)) q) i) b)).
Proof.
  intros (I & L & K) Hi Hm (v & Hv & Hlt)%eligible_server. set (b' := after_deliver _ _ _ _ _ _).
  set (s := cs_server c.2) in *. set (k := next_object b).
  set (r := {| dr_server := s; dr_delivery := d; dr_queued := m |}).
  assert (q_at b i = Some (q_name q, m :: ms, deliveries q)) as Hq by (unfold q_at; rewrite Hi; simpl; by rewrite Hm).
  assert (s_at b s = Some (prefetch v, _delivery_queues v, _in_flight v)) as Hs by (unfold s_at; by rewrite Hv).
  assert (∀ j, q_at b' j = if decide (j = i) then Some (q_name q, ms, deliveries q ++ [(k, r)]) else q_at b j) as Q.
  { intros j. unfold b', after_deliver, q_at. simpl. case_decide as Hj.
    - subst j. rewrite lookup_alter_eq, lookup_alter_eq, Hi. simpl. by rewrite Hm.
    - by rewrite !lookup_alter_ne. }
  assert (∀ t, s_at b' t = if decide (t = s) then Some (prefetch v, <[k := q_name q]> (_delivery_queues v), _in_flight v + 1)
                           else s_at b t) as S.
  { intros t. unfold b', after_deliver, s_at. simpl. fold s. case_decide as Ht.
    - subst t. rewrite lookup_alter_eq, Hv. done.
    - by rewrite lookup_alter_ne. }
  split_and!.
  - apply (inv_deliver b b' i (q_name q) m ms (deliveries q) s (prefetch v) (_delivery_queues v) (_in_flight v) r); try done;
      try (by rewrite ?Q, ?S, decide_True); intros j Hj; rewrite ?Q, ?S; by rewrite decide_False.
  - apply (linked_same b); [done|done|]. intros j. rewrite Q. case_decide as Hj; [subst j; by rewrite Hq|done].
  - eapply (kept_insert b b' (qp_id m)); [done|intros e; by eapply head_not_ended|done].
Qed.

(** A round of the loop never raises, and keeps the books. *)
Lemma run_round_good i now b q :
  good b → queue_heap b !! i = Some q → dt_offset now = Some 0 →
  good (run_round i now b).2 ∧ ∃ u, (run_round i now b).1 = Ok u.
Proof.
  intros G Hi Hnow. unfold run_round. destruct (next_consumer_run i b q Hi) as (o & n & Hrun & Ho).
  rewrite (M_bind_run _ _ _ _ _ Hrun). set (b1 := set_queues _ b).
  assert (good b1) as G1 by (eapply (pres_on_queue i (set_cursor n)); [by intros ?|done]).
  assert (queue_heap b1 !! i = Some (set_cursor n q)) as Hi1 by (unfold b1; simpl; by rewrite lookup_alter_eq, Hi).
  rewrite (M_bind_run _ _ _ _ _ (queue_at_run _ _ _ Hi1)).
  destruct o as [c|]; [destruct (messages (set_cursor n q)) as [|m ms] eqn:Hm|];
    try (by split; [eapply (pres_on_queue i (set_task false Sleeping)); [by intros ?|done]|eexists]).
  unfold take_message, on_queue. autorewrite with mrun. destruct (expired now (qp_publication m)).
  { split; [|by eexists]. exact (good_expire b1 i _ m ms G1 Hi1 Hm). }
  destruct (Ho c eq_refl) as [_ Hel]. assert (eligible b1 c.2 = true) as Hel1 by done.
  destruct (eligible_server _ _ Hel1) as (v & Hv & _).
  unfold deliver. match goal with |- context [(server_at _ ≫= _) ?st] =>
    rewrite (M_bind_run _ _ _ _ _ (server_at_run _ v st Hv)) end. autorewrite with mrun.
  destruct (iv_tries _ (proj1 G1) i (q_name q) (m :: ms) (deliveries q) m) as [(Hval & Hatt & _) _];
    [unfold q_at; rewrite Hi1; simpl in *; by rewrite Hm|by left|].
  rewrite delivery_ok by done. unfold fresh, on_queue, on_server. autorewrite with mrun.
  split; [|by eexists]. exact (good_deliver b1 i _ c m ms _ G1 Hi1 Hm Hel1).
Qed.
(** ** Settling *)

Lemma calm_trans b1 b2 b3 : calm b1 b2 → calm b2 b3 → calm b1 b3.
Proof.
  intros [Q1 S1 P1 F1 D1 N1] [Q2 S2 P2 F2 D2 N2]. constructor; intros; [by rewrite Q2|by rewrite S2|congruence..|lia].
Qed.

Lemma run_bind_on_queue {A} i f (k : unit → B A) b : (on_queue i f ≫= k) b = k tt (set_queues (alter f i) b).
Proof. done. Qed.

(** Waking queues changes nothing of the books. *)
Lemma wake_run s v b : server_heap b !! s = Some v →
  ∃ b', _wake_server_queues s b = (Ok tt, b') ∧ calm b b' ∧ topo b' = topo b ∧ dead_letters b' = dead_letters b ∧
        server_heap b' = server_heap b.
Proof.
  intros Hs. unfold _wake_server_queues. rewrite (M_bind_run _ _ _ _ _ (server_at_run _ _ _ Hs)). clear Hs.
  revert b. induction (elements (_queue_names v)) as [|n l IH]; intros b; simpl.
  { exists b. by split_and!. }
  autorewrite with mrun. destruct (dict_get _ n) as [i|].
  - rewrite run_bind_on_queue. destruct (IH (set_queues (alter set_wake i) b)) as (b' & -> & C & T & D & V).
    exists b'. split_and!; try done. eapply calm_trans; [|done]. by apply calm_on_queue.
  - autorewrite with mrun. destruct (IH b) as (b' & -> & ?). eauto.
Qed.

Definition redelivers (o : SettlementRecommendation) : bool := bool_decide (o = RETRY ∨ o = UNSETTLED).

(** Whether the publication goes back to its queue, and where it ends otherwise. *)
Definition again b (o : SettlementRecommendation) (m : QueuedPublication) (ms : list QueuedPublication) : bool :=
  redelivers o && (qp_attempt m <? max_delivery_attempts b) && (zlen ms <? max_queue_messages b).
Definition ending_of (o : SettlementRecommendation) : ending :=
  if redelivers o then EndDead else if decide (o = ACK) then EndAcked else EndRejected.

Definition bump (m : QueuedPublication) : QueuedPublication :=
  {| qp_id := qp_id m; qp_publication := qp_publication m; qp_attempt := qp_attempt m + 1; qp_redelivered := true |}.

(** The settlement of a delivery that is in flight. *)
Record settled b b' (s key i : Z) (r : DeliveryRecord) (o : SettlementRecommendation) : Prop := {
  se_good : good b';
  se_queue n ms ds : q_at b i = Some (n, ms, ds) →
    q_at b' i = Some (n, if again b o (dr_queued r) ms then ms ++ [bump (dr_queued r)] else ms, dict_del ds key);
  se_others j : j ≠ i → q_at b' j = q_at b j;
  se_place ms : messages <$> queue_heap b !! i = Some ms → places b' =
    <[qp_id (dr_queued r) := if again b o (dr_queued r) ms then InQueue i else Ended (ending_of o)]> (places b);
  se_server p dq f : s_at b s = Some (p, dq, f) → s_at b' s = Some (p, delete key dq, f - 1);
  se_dead ms : messages <$> queue_heap b !! i = Some ms → dead_letters b' = dead_letters
    (if redelivers o && negb (again b o (dr_queued r) ms) then push_dead (dr_delivery r) b else b)
}.

Lemma q_name_release x q : (q_name (release_consumer x q), messages (release_consumer x q), deliveries (release_consumer x q)) =
  (q_name q, messages q, deliveries q).
Proof. unfold release_consumer. by destruct (dict_get (consumers q) x). Qed.

(** The state once the delivery is gone, before queues are woken. *)
Definition removed_delivery b (s key i : Z) (v : server) (pl : place) (m : QueuedPublication) : broker :=
  set_history <[qp_id m := pl]> (delete key) []
    (set_queues (alter (λ q, release_consumer (replica_id v) (set_deliveries (dict_del (deliveries q) key) q)) i)
    (set_servers (alter (λ v, set_flight (delete key (_delivery_queues v)) (_tasks v) (_in_flight v - 1) v) s) b)).

Definition after_settle b (s key i : Z) (v : server) (r : DeliveryRecord) (o : SettlementRecommendation)
    (ms : list QueuedPublication) : broker :=
  let m := dr_queued r in
  let b1 := removed_delivery b s key i v (if again b o m ms then InQueue i else Ended (ending_of o)) m in
  if again b o m ms then set_queues (alter (λ q, set_messages (messages q ++ [bump m]) q) i) b1
  else if redelivers o then push_dead (dr_delivery r) b1 else b1.

Section settling.
Context (s key i : Z) (v : server) (o : SettlementRecommendation) (b : broker) (name : pystr) (q : queue) (r : DeliveryRecord).
Context (G : good b) (Hv : server_heap b !! s = Some v) (Hk : _delivery_queues v !! key = Some name).
Context (Hn : dict_get (_queues (topo b)) name = Some i) (Hi : queue_heap b !! i = Some q).
Context (Hr : dict_get (deliveries q) key = Some r).

Let b2 := after_settle b s key i v r o (messages q).

Lemma settle_code : settle s key o b = _wake_server_queues s b2.
Proof.
  unfold settle. rewrite (M_bind_run _ _ _ _ _ (server_at_run _ _ _ Hv)), Hk, (M_bind_run _ _ _ _ _ (named_run _ _ _ Hn)),
    (M_bind_run _ _ _ _ _ (queue_at_run _ _ _ Hi)), Hr. unfold on_server, on_queue. autorewrite with mrun.
  set (m := dr_queued r). fold (redelivers o).
  assert (redelivers o && (qp_attempt m <? max_delivery_attempts b) &&
    negb (redelivers o && (qp_attempt m <? max_delivery_attempts b) && (max_queue_messages b <=? zlen (messages q))) =
    again b o m (messages q)) as ->.
  { unfold again. destruct (redelivers o), (qp_attempt m <? max_delivery_attempts b); simpl; try done. by rewrite Z.ltb_antisym. }
  unfold b2, after_settle, ending_of. fold m. destruct (again b o m (messages q)); [done|]. by destruct (redelivers o).
Qed.

Lemma settle_view {A} (view : broker → A) :
  (∀ f b, view (set_queues f b) = view b) → (∀ f b, view (set_dead f b) = view b) →
  view b2 = view (removed_delivery b s key i v
    (if again b o (dr_queued r) (messages q) then InQueue i else Ended (ending_of o)) (dr_queued r)).
Proof. intros V1 V2. unfold b2, after_settle. case_match; [apply V1|]. case_match; [apply V2|done]. Qed.

Lemma settle_q j :
  q_at b2 j = if decide (j = i) then Some (q_name q, if again b o (dr_queued r) (messages q)
    then messages q ++ [bump (dr_queued r)] else messages q, dict_del (deliveries q) key) else q_at b j.
Proof.
  unfold b2, after_settle. set (b1 := removed_delivery _ _ _ _ _ _ _).
  assert (∀ j, q_at b1 j = if decide (j = i) then Some (q_name q, messages q, dict_del (deliveries q) key) else q_at b j) as Q1.
  { intros j'. unfold b1, q_at. simpl. case_decide; [subst; rewrite lookup_alter_eq, Hi; simpl; by rewrite q_name_release|].
    by rewrite lookup_alter_ne. }
  destruct (again b o (dr_queued r) (messages q)); [|destruct (redelivers o); apply (Q1 j)].
  rewrite q_at_on. case_decide; [subst j|by rewrite Q1, decide_False]. specialize (Q1 i). rewrite decide_True in Q1 by done.
  unfold q_at in Q1. destruct (queue_heap b1 !! i) as [q1|]; simplify_eq/=. congruence.
Qed.

Lemma settle_s t :
  s_at b2 t = if decide (t = s) then Some (prefetch v, delete key (_delivery_queues v), _in_flight v - 1) else s_at b t.
Proof.
  unfold s_at. rewrite (settle_view server_heap) by done. simpl.
  case_decide; [subst; by rewrite lookup_alter_eq, Hv|by rewrite lookup_alter_ne].
Qed.

Lemma settle_good : good b2.
Proof.
  destruct G as (I & L & K). set (m := dr_queued r). assert ((key, r) ∈ deliveries q) as Hin by (by apply dict_get_elem).
  assert (q_at b i = Some (q_name q, messages q, deliveries q)) as Hq by (unfold q_at; by rewrite Hi).
  assert (s_at b s = Some (prefetch v, _delivery_queues v, _in_flight v)) as Hs by (unfold s_at; by rewrite Hv).
  assert (dr_server r = s) as Hrs.
  { pose proof Hk as Hk'. apply (iv_owner _ I _ _ _ _ _ _ Hs) in Hk' as (j & ? & ? & Hf & _).
    destruct (iv_deliveries _ I _ _ _ _ Hq) as [_ Hd]. destruct (Hd _ _ Hin) as [_ Hf']. congruence. }
  destruct (iv_tried _ I _ _ _ _ _ _ Hq Hin) as ((Hval & Hatt & _) & _). split_and!.
  - apply (inv_return b b2 i (q_name q) (messages q) (deliveries q) key r s (prefetch v) (_delivery_queues v) (_in_flight v)
      (if again b o m (messages q) then InQueue i else Ended (ending_of o))
      (if again b o m (messages q) then messages q ++ [bump m] else messages q)); try done;
      try (by rewrite ?settle_q, ?settle_s, decide_True);
      try (intros j Hj; rewrite ?settle_q, ?settle_s; by rewrite decide_False);
      try (by rewrite settle_view); [rewrite settle_view by done; apply app_nil_r|].
    destruct (again b o m (messages q)); [left|right; eauto]. exists (bump m). split_and!; try done.
    + by rewrite Permutation_app_comm.
    + unfold sound. simpl. fold m in Hatt. split_and!; [done|lia|]. symmetry. apply Z.ltb_lt. lia.
  - apply (linked_same b); [done|by rewrite settle_view|]. intros j. rewrite settle_q.
    case_decide as Hj; [subst j; by rewrite Hq|done].
  - eapply (kept_insert b b2 (qp_id m)); [done| |by rewrite settle_view]. intros e.
    destruct (iv_deliveries _ I _ _ _ _ Hq) as [_ Hd]. destruct (Hd _ _ Hin) as [Hp _]. fold m in Hp. by rewrite Hp.
Qed.

Lemma settle_run : ∃ b', settle s key o b = (Ok tt, b') ∧ settled b b' s key i r o.
Proof.
  assert (server_heap b2 !! s = Some (set_flight (delete key (_delivery_queues v)) (_tasks v) (_in_flight v - 1) v)) as Hv2
    by (rewrite (settle_view server_heap) by done; simpl; by rewrite lookup_alter_eq, Hv).
  rewrite settle_code. destruct (wake_run s _ b2 Hv2) as (b' & -> & C & T & Dd & _). exists b'. split; [done|]. constructor.
  - eapply good_calm; [done| |apply settle_good]. intros nm j. by rewrite T.
  - intros n ms ds. unfold q_at at 1. rewrite Hi, (cm_q _ _ C), settle_q, decide_True by done. by intros [= <- <- <-].
  - intros j Hj. by rewrite (cm_q _ _ C), settle_q, decide_False.
  - intros ms. rewrite Hi. intros [= <-]. by rewrite (cm_places _ _ C), settle_view.
  - intros p dq f. unfold s_at at 1. rewrite Hv, (cm_s _ _ C), settle_s, decide_True by done. by intros [= <- <- <-].
  - intros ms. rewrite Hi. intros [= <-]. rewrite Dd. unfold b2, after_settle.
    destruct (again b o (dr_queued r) (messages q)); simpl; [by rewrite andb_false_r|].
    rewrite andb_true_r. by destruct (redelivers o).
Qed.
End settling.

Lemma pres_settle s key o : pres good (settle s key o).
Proof.
  intros b G. destruct (server_heap b !! s) as [v|] eqn:Hv.
  2: { unfold settle, server_at. autorewrite with mrun. rewrite Hv. by autorewrite with mrun. }
  assert (server_at s b = (Ok v, b)) as Hs by (by apply server_at_run).
  destruct (_delivery_queues v !! key) as [name|] eqn:Hk.
  2: { unfold settle. rewrite (M_bind_run _ _ _ _ _ Hs), Hk. by autorewrite with mrun. }
  destruct (dict_get (_queues (topo b)) name) as [i|] eqn:Hn.
  2: { unfold settle. rewrite (M_bind_run _ _ _ _ _ Hs), Hk. unfold named. autorewrite with mrun. rewrite Hn. by autorewrite with mrun. }
  destruct (queue_heap b !! i) as [q|] eqn:Hi.
  2: { unfold settle. rewrite (M_bind_run _ _ _ _ _ Hs), Hk, (M_bind_run _ _ _ _ _ (named_run _ _ _ Hn)). unfold queue_at.
       autorewrite with mrun. rewrite Hi. by autorewrite with mrun. }
  destruct (dict_get (deliveries q) key) as [r|] eqn:Hr.
  - destruct (settle_run s key i v o b name q r G Hv Hk Hn Hi Hr) as (b' & -> & Hse). apply Hse.
  - unfold settle. rewrite (M_bind_run _ _ _ _ _ Hs), Hk, (M_bind_run _ _ _ _ _ (named_run _ _ _ Hn)),
      (M_bind_run _ _ _ _ _ (queue_at_run _ _ _ Hi)), Hr. by autorewrite with mrun.
Qed.

(** ** The endpoints *)

Lemma pres_require s st : pres good (_require s st).
Proof. unfold _require. solve_good. Qed.

Lemma pres_prepare s methods subs : pres good (prepare s methods subs).
Proof. unfold prepare. pose proof pres_require. pose proof pres_register. solve_good. Qed.

Lemma pres_start s : pres good (start s).
Proof. unfold start. pose proof pres_require. pose proof pres_start_server. solve_good. Qed.

Lemma pres_stop_intake s : pres good (stop_intake s).
Proof. unfold stop_intake. pose proof pres_stop_queue. solve_good. Qed.

Lemma pres_close_begin s : pres good (close_begin s).
Proof. unfold close_begin. pose proof pres_stop_intake. solve_good; try (apply pres_topo; by intros ???). Qed.

Lemma pres_close_step j c : pres good (close_step j c).
Proof.
  unfold close_step, move_closer. pose proof pres_stop_queue. pose proof pres_remove_end. solve_good.
Qed.

Lemma pres_dispatch s key subscribed r : pres good (_dispatch s key subscribed r).
Proof.
  pose proof pres_settle. unfold _dispatch, dispatch_result, is_pending, settle_quietly. solve_good.
Qed.

Lemma pres_put_reply i r : pres good (put_reply i r).
Proof. unfold put_reply. solve_good. Qed.

Lemma pres_publish_reply now p : pres good (publish_reply now p).
Proof. unfold publish_reply. pose proof pres_put_reply. solve_good. Qed.

Lemma pres_client_new route n : pres good (InMemoryClientTransport_new route n).
Proof. unfold InMemoryClientTransport_new. solve_good. Qed.

Lemma pres_client_start c r : pres good (client_start c r).
Proof. unfold client_start, register_reply_route. solve_good. Qed.

Lemma pres_next_reply c : pres good (next_reply c).
Proof. unfold next_reply. solve_good. Qed.

Lemma pres_client_close c : pres good (client_close c).
Proof. unfold client_close, unregister_reply_route, _signal_reply_queue_closed. solve_good. Qed.

Lemma pres_bind_lift {A C} (r : result ms_error A) (k : A → B C) :
  (∀ a, r = Ok a → pres good (k a)) → pres good (lift r ≫= k).
Proof.
  intros Hk b G. destruct r as [a|e]; autorewrite with mrun; [by apply Hk|done].
Qed.

Lemma pres_require_running c : pres good (_require_running c).
Proof. unfold _require_running. solve_good. Qed.

Lemma pres_publish_rpc c t now p : pres good (publish_rpc c t now p).
Proof.
  assert (pres good (p ← lift (replace p true None); publish now p))
    by (apply pres_bind_lift; intros p' Hp; eapply pres_publish, replace_valid, Hp).
  unfold publish_rpc, set_pending. pose proof pres_require_running. solve_good.
Qed.

Lemma pres_publish_event c e now p : pres good (publish_event c e now p).
Proof.
  unfold publish_event. pose proof pres_require_running.
  do 2 (apply pres_bind; [solve_good|intros ?]). apply pres_bind_lift. intros p' Hp. apply pres_publish.
  unfold valid_publication. repeat eexists. exact Hp.
Qed.

Lemma pres_close_tasks : pres good broker_close_tasks.
Proof.
  unfold broker_close_tasks. apply pres_bind; [apply pres_closed|intros _]. apply pres_calm. intros b.
  split; [|by intros n i]. constructor; try done. intros i. unfold q_at. simpl. rewrite lookup_fmap.
  by destruct (queue_heap b !! i).
Qed.

Lemma pres_close_end : pres good broker_close_end.
Proof. unfold broker_close_end, _close_from_broker, _signal_reply_queue_closed. solve_good. Qed.

Lemma run_queue_good i now b q :
  good b → queue_heap b !! i = Some q → dt_offset now = Some 0 → good (_run_queue i now b).2.
Proof.
  intros G Hi Hnow. unfold _run_queue. autorewrite with mrun. destruct (_closed b); [by apply pres_on_queue|].
  destruct (run_round_good i now b q G Hi Hnow) as [G' [u Hu]]. unfold try_except.
  destruct (run_round i now b) as [r b'] eqn:Hrun. simpl in *. by rewrite Hu.
Qed.

Lemma bstep_good b b' : bstep b b' → good b → good b'.
Proof.
  intros Hs G. destruct Hs;
    [apply pres_server|apply pres_prepare|apply pres_start|by apply pres_publish|by eapply run_queue_good| |apply pres_settle
    |apply pres_dispatch|apply pres_stop_intake|apply pres_close_begin|apply pres_close_step|apply pres_client_new
    |apply pres_client_start|apply pres_publish_rpc|apply pres_publish_event|apply pres_publish_reply|apply pres_next_reply
    |apply pres_on_client|apply pres_client_close|apply pres_close_tasks|apply pres_close_end]; try done.
  eapply good_calm; [| |done]; [|by intros n j]. constructor; try done. intros j. unfold q_at. simpl.
  destruct (decide (j = i)) as [->|Hj]; [|by rewrite lookup_insert_ne]. by rewrite lookup_insert_eq, H0.
Qed.

Lemma reachable_good m a b : F = ∅ → b_reachable m a b → good b.
Proof. intros HF. induction 1 as [b Hb|b b' _ IH Hs]; [by eapply good_new|by eapply bstep_good]. Qed.
End steps.
