(* ===== verification/MsRoutes.v ===== *)
(** * Microservices: where publications go

    The routes of the broker: what they lead to, and who may change them; and what
    publishing does with them. *)

From Stdlib Require Import ZArith Lia.
From stdpp Require Import base tactics list gmap strings.
From S2P Require Import Prelude MsWire MsValues MsBroker MsEndpoints MsWireFacts MsBrokerFacts MsBrokerSteps.
Local Open Scope Z_scope.

Local Notation good := (MsBrokerSteps.good (F := ∅)).

Definition event_name (n : pystr) : Prop := ∃ r, n = str "tori_py.event." ++ r.

(** The name of the queue of a broadcast subscription that is not reliable. *)
Definition ephemeral_name (n : pystr) : Prop :=
  ∃ sub, sub_mode sub = BROADCAST ∧ sub_reliable sub = false ∧ _event_queue_name sub = Some n.

Definition phase_removes (p : close_phase) : option pystr :=
  match p with FirstStop r _ | SecondStop r _ => r | _ => None end.

Section routes.
Context `{Json}.
Implicit Types b : broker.

(** A call of [close] is half through the removal of queue [n]. *)
Definition removing b (n : pystr) : Prop := ∃ j c, closers b !! j = Some c ∧ phase_removes (cr_phase c) = Some n.

Definition here_named b (n : pystr) : Prop := is_Some (dict_get (_queues (topo b)) n).

(** The queue object [i] is the one its name leads to. *)
Definition live b (i : Z) : Prop :=
  (queue_heap b !! i ≫= λ q, dict_get (_queues (topo b)) (q_name q)) = Some i.
#[export] Instance live_dec b i : Decision (live b i).
Proof. unfold live. apply _. Defined.

(** [o] is a queue that is being removed at this moment. *)
Record routed (o : option pystr) b : Prop := {
  rt_rpc l n : (l, n) ∈ _rpc_queues (topo b) → ∃ s, valid_service s ∧ l = label s ∧ n = rpc_queue_name s ∧ here_named b n;
  rt_labels : NoDup (_rpc_queues (topo b)).*1;
  rt_event key ns n : _event_routes (topo b) !! key = Some ns → n ∈ ns →
    event_name n ∧ (here_named b n ∨ removing b n ∨ o = Some n);
  rt_ephemeral n : n ∈ _ephemeral_queues (topo b) → ephemeral_name n;
  rt_lasting i n : q_name <$> queue_heap b !! i = Some n → dict_get (_queues (topo b)) n = Some i ∨ ephemeral_name n;
  rt_service s v : server_heap b !! s = Some v → valid_service (sv_service v)
}.

(** ** Code that leaves the routes alone *)

Definition rview b := (topo b, closers b, sv_service <$> server_heap b, q_name <$> queue_heap b).

Lemma routed_view o b b' : rview b' = rview b → routed o b → routed o b'.
Proof.
  unfold rview. intros [= T C S Q] [R1 R2 R3 R4 R6 R5]. constructor; unfold here_named, removing in *; rewrite ?T, ?C; try done.
  { intros i n. rewrite <- lookup_fmap, Q, lookup_fmap. apply R6. }
  intros s v Hv. assert ((sv_service <$> server_heap b') !! s = Some (sv_service v)) as Hs by (rewrite lookup_fmap; by rewrite Hv).
  rewrite S, lookup_fmap in Hs. destruct (server_heap b !! s) as [w|] eqn:Hw; [|done]. injection Hs as <-. by eapply R5.
Qed.

Lemma keeps_routed {A} o (m : B A) : keeps rview m → pres (routed o) m.
Proof. intros Hm b. apply routed_view, Hm. Qed.

Lemma keeps_rview_queue i f : (∀ q, q_name (f q) = q_name q) → keeps rview (on_queue i f).
Proof.
  intros Hf b. unfold rview. simpl. f_equal. apply map_eq. intros t. rewrite !lookup_fmap.
  destruct (decide (t = i)) as [->|Ht]; [rewrite lookup_alter_eq|by rewrite lookup_alter_ne].
  destruct (queue_heap b !! i) as [q|]; simpl; [by rewrite Hf|done].
Qed.

Lemma keeps_rview_server s f : (∀ v, sv_service (f v) = sv_service v) → keeps rview (on_server s f).
Proof.
  intros Hf b. unfold rview. simpl. do 2 f_equal. apply map_eq. intros t. rewrite !lookup_fmap.
  destruct (decide (t = s)) as [->|Ht]; [rewrite lookup_alter_eq|by rewrite lookup_alter_ne].
  destruct (server_heap b !! s) as [v|]; simpl; [by rewrite Hf|done].
Qed.

Lemma keeps_for {A T} (view : broker → T) (f : A → B unit) l : (∀ a, keeps view (f a)) → keeps view (mfor f l).
Proof. intros Hf. induction l as [|x l IH]; simpl; [apply keeps_ret|]. apply keeps_bind; auto. Qed.

Lemma keeps_rview_replies f g h k : keeps rview (modify (set_replies f g h k) : B unit).
Proof. done. Qed.
Lemma keeps_rview_history f g l : keeps rview (modify (set_history f g l) : B unit).
Proof. done. Qed.
Lemma keeps_rview_registered f : keeps rview (modify (set_registered f) : B unit).
Proof. done. Qed.
Lemma keeps_rview_closed : keeps rview (modify set_closed : B unit).
Proof. done. Qed.
Lemma keeps_rview_dead d : keeps rview (modify (push_dead d) : B unit).
Proof. done. Qed.
Lemma keeps_rview_take : keeps rview (modify take_object : B unit).
Proof. done. Qed.
End routes.

#[export] Hint Resolve keeps_rview_replies keeps_rview_history keeps_rview_registered
  keeps_rview_closed keeps_rview_dead keeps_rview_take : tori.

Ltac solve_rview :=
  repeat first
    [ solve [eauto 2 with tori nocore]
    | apply keeps_bind; [|intros ?]
    | apply keeps_try; [|intros ?]
    | apply keeps_for; intros ?
    | apply keeps_rview_server; by intros ?
    | apply keeps_rview_queue; intros ?; solve [done | by case_match | unfold release_consumer; by case_match]
    | case_match ].

Section frames.
Context `{Json}.

Lemma keeps_rview_named n : keeps rview (named n).
Proof. unfold named. solve_rview. Qed.
Lemma keeps_rview_queue_at i : keeps rview (queue_at i).
Proof. unfold queue_at. solve_rview. Qed.
Lemma keeps_rview_server_at i : keeps rview (server_at i).
Proof. unfold server_at. solve_rview. Qed.
Lemma keeps_rview_client_at i : keeps rview (client_at i).
Proof. unfold client_at. solve_rview. Qed.
Lemma keeps_rview_on_client i f : keeps rview (on_client i f).
Proof. unfold on_client. solve_rview. Qed.
Lemma keeps_rview_fresh : keeps rview fresh.
Proof. unfold fresh. solve_rview. Qed.
Lemma keeps_rview_open : keeps rview _require_open.
Proof. unfold _require_open. solve_rview. Qed.
End frames.

#[export] Hint Resolve keeps_rview_named keeps_rview_queue_at keeps_rview_server_at keeps_rview_client_at
  keeps_rview_on_client keeps_rview_fresh keeps_rview_open : tori.

Section operations.
Context `{Json}.
Implicit Types b : broker.

Lemma keeps_rview_start_server s : keeps rview (start_server s).
Proof. unfold start_server, start_consumer. solve_rview. Qed.
Lemma keeps_rview_publish now p : keeps rview (publish now p).
Proof.
  assert (∀ l, keeps rview (any_full l)) by (intros l; induction l as [|x l IH]; simpl; unfold is_full; solve_rview).
  assert (∀ n, keeps rview (enqueue p n)) by (intros n; unfold enqueue, placed; solve_rview).
  unfold publish. solve_rview.
Qed.
Lemma keeps_rview_run i now : keeps rview (_run_queue i now).
Proof. unfold _run_queue, run_round, _next_consumer, take_message, placed, deliver. solve_rview. Qed.
Lemma keeps_rview_settle s key o : keeps rview (settle s key o).
Proof. unfold settle, _wake_server_queues. solve_rview. Qed.
Lemma keeps_rview_dispatch s key sub r : keeps rview (_dispatch s key sub r).
Proof.
  pose proof keeps_rview_settle. unfold _dispatch, dispatch_result, is_pending, settle_quietly. solve_rview.
Qed.
Lemma keeps_rview_client_new route n : keeps rview (InMemoryClientTransport_new route n).
Proof. unfold InMemoryClientTransport_new. solve_rview. Qed.
Lemma keeps_rview_client_start c r : keeps rview (client_start c r).
Proof. unfold client_start, register_reply_route. solve_rview. Qed.
Lemma keeps_rview_running c : keeps rview (_require_running c).
Proof. unfold _require_running. solve_rview. Qed.
Lemma keeps_rview_rpc c t now p : keeps rview (publish_rpc c t now p).
Proof. pose proof keeps_rview_publish. pose proof keeps_rview_running. unfold publish_rpc, set_pending. solve_rview. Qed.
Lemma keeps_rview_event c e now p : keeps rview (publish_event c e now p).
Proof. pose proof keeps_rview_publish. pose proof keeps_rview_running. unfold publish_event. solve_rview. Qed.
Lemma keeps_rview_reply now p : keeps rview (publish_reply now p).
Proof. unfold publish_reply, put_reply. solve_rview. Qed.
Lemma keeps_rview_next_reply c : keeps rview (next_reply c).
Proof. unfold next_reply. solve_rview. Qed.
Lemma keeps_rview_client_close c : keeps rview (client_close c).
Proof. unfold client_close, unregister_reply_route, _signal_reply_queue_closed. solve_rview. Qed.
Lemma keeps_rview_close_tasks : keeps rview broker_close_tasks.
Proof.
  unfold broker_close_tasks. solve_rview. intros b. unfold rview. simpl. f_equal.
  rewrite <- map_fmap_compose. apply map_fmap_ext. done.
Qed.
Lemma keeps_rview_close_end : keeps rview broker_close_end.
Proof. unfold broker_close_end, _close_from_broker, _signal_reply_queue_closed. solve_rview. Qed.
End operations.

Section changes.
Context `{Json}.
Implicit Types b : broker.

Lemma dict_set_in {V} (d : list (pystr * V)) k v l w : (l, w) ∈ dict_set d k v → (l, w) = (k, v) ∨ (l, w) ∈ d.
Proof.
  induction d as [|[j u] d IH]; simpl; [rewrite list_elem_of_singleton; by left|].
  case_decide; rewrite !elem_of_cons; [tauto|]. intros [He|Hin]; [tauto|]. destruct (IH Hin); tauto.
Qed.

Lemma dict_get_del_ne {V} (d : list (pystr * V)) k l : l ≠ k → dict_get (dict_del d k) l = dict_get d l.
Proof.
  intros Hl. unfold dict_del. induction d as [|[j w] d IH]; [done|]. rewrite filter_cons. simpl.
  case_decide as Hj; rewrite !dict_get_cons, ?IH; [done|]. by rewrite decide_False by congruence.
Qed.

Lemma rpc_not_event s : ¬ event_name (rpc_queue_name s).
Proof. by intros [r Hr]. Qed.

Lemma pres_routed_ensure o name : pres (routed o) (ensure_queue name).
Proof.
  intros b [R1 R2 R3 R4 R6 R5]. unfold ensure_queue. autorewrite with mrun. destruct (dict_get _ name) as [i|] eqn:Hn; [done|].
  unfold fresh. autorewrite with mrun. simpl. set (b' := set_topo _ _).
  assert (∀ n, here_named b n → here_named b' n) as Hh.
  { intros n Hn'. unfold here_named, b'. simpl. rewrite dict_get_set. by case_decide. }
  constructor; try done.
  - intros l n Hin. destruct (R1 l n Hin) as (s & ? & ? & ? & ?). eauto 10.
  - intros key ns n Hk Hin. destruct (R3 key ns n Hk Hin) as [? [?|?]]; eauto.
  - intros i n Hi. unfold b' in *. simpl in *. rewrite dict_get_set. destruct (decide (i = next_object b)) as [->|Hne].
    + rewrite lookup_insert_eq in Hi. injection Hi as <-. left. by rewrite decide_True.
    + rewrite lookup_insert_ne in Hi by done. destruct (R6 i n Hi) as [Hg|]; [left|by right].
      rewrite decide_False; [done|]. intros ->. congruence.
Qed.

Lemma ensure_run name b : ∃ b', ensure_queue name b = (Ok tt, b') ∧ here_named b' name ∧
  server_heap b' = server_heap b ∧ topo b' = with_queues (_queues (topo b')) (topo b).
Proof.
  unfold ensure_queue. autorewrite with mrun. destruct (dict_get _ name) as [i|] eqn:Hn.
  - exists b. autorewrite with mrun. split_and!; try done; [by eexists|]. by destruct (topo b).
  - unfold fresh. autorewrite with mrun. eexists. split_and!; try done. unfold here_named. simpl.
    rewrite dict_get_set, decide_True by done. by eexists.
Qed.

(** A new label leads to the queue of its service. *)
Lemma routed_add_rpc o s b :
  valid_service s → here_named b (rpc_queue_name s) → routed o b →
  routed o (set_topo (λ t, with_rpc (dict_set (_rpc_queues t) (label s) (rpc_queue_name s)) t) b).
Proof.
  intros Hs Hn [R1 R2 R3 R4 R6 R5]. constructor; try done.
  - intros l n [[= -> ->]|Hin]%dict_set_in; [by exists s|]. by apply R1.
  - by apply dict_set_NoDup.
Qed.

Lemma routed_add_event o key name b :
  event_name name → here_named b name → routed o b →
  routed o (set_topo (λ t, with_events (<[key := {[ name ]} ∪ default ∅ (_event_routes t !! key)]> (_event_routes t))
    (_ephemeral_queues t) (_reliable_broadcast_owners t) t) b).
Proof.
  intros He Hn [R1 R2 R3 R4 R6 R5]. constructor; try done. intros k ns n. simpl.
  destruct (decide (k = key)) as [->|Hk]; [rewrite lookup_insert_eq|rewrite lookup_insert_ne by done; apply R3].
  intros [= <-]. rewrite elem_of_union, elem_of_singleton. intros [->|Hin]; [by split; [|left]|].
  destruct (_event_routes (topo b) !! key) as [ns|] eqn:Hr; [|set_solver]. by eapply R3.
Qed.

Lemma routed_names (o : option pystr) (e : topology → gset pystr) (owners : topology → gmap pystr Z) b :
  (∀ n, n ∈ e (topo b) → ephemeral_name n) → routed o b →
  routed o (set_topo (λ t, with_events (_event_routes t) (e t) (owners t) t) b).
Proof. intros He [R1 R2 R3 R4 R6 R5]. by constructor. Qed.

Lemma event_queue_name sub name : _event_queue_name sub = Some name → event_name name.
Proof.
  unfold _event_queue_name. repeat case_match; intros Hn;
    repeat (match type of Hn with context [mbind _ ?x] => destruct x; [|done]; simpl in Hn end);
    injection Hn as <-; by eexists.
Qed.

Lemma ephemeral_event name : ephemeral_name name → event_name name.
Proof. intros (sub & _ & _ & Hn). by eapply event_queue_name. Qed.

Lemma pres_routed_subscription o s sub name :
  _event_queue_name sub = Some name → pres (routed o) (register_subscription s (sub, name)).
Proof.
  intros Hname b R. pose proof (event_queue_name _ _ Hname) as He. unfold register_subscription, check_owner. autorewrite with mrun. simpl.
  match goal with |- context [if ?c then (Err _, _) else _] => destruct c end; [done|].
  autorewrite with mrun. set (b1 := set_topo _ b).
  assert (routed o b1) as R1.
  { apply (routed_names o (λ t, _) (λ t, _)); [|done]. intros n. simpl.
    destruct (bool_decide (sub_mode sub = BROADCAST) && negb (sub_reliable sub)) eqn:Hm; [rewrite elem_of_union, elem_of_singleton|].
    - apply andb_true_iff in Hm as [Hm%bool_decide_eq_true Hr%negb_true_iff]. intros [->|Hn]; [by exists sub|]. by apply (rt_ephemeral _ _ R).
    - apply (rt_ephemeral _ _ R). }
  destruct (ensure_run name b1) as (b2 & Hrun & Hn & _). rewrite (M_bind_run _ _ _ _ _ Hrun), run_bind_modify.
  assert (routed o b2) as R2 by (pose proof (pres_routed_ensure o name b1 R1) as HR; by rewrite Hrun in HR).
  apply (keeps_routed o (on_server s _)); [by apply keeps_rview_server|]. by apply routed_add_event.
Qed.
End changes.

Section removal.
Context `{Json}.
Implicit Types b : broker.

Lemma pres_for_in {A} (I : broker → Prop) (f : A → B unit) l : (∀ a, a ∈ l → pres I (f a)) → pres I (mfor f l).
Proof.
  induction l as [|x l IH]; intros Hf; simpl; [apply pres_ret|]. apply pres_bind; [apply Hf; by left|].
  intros _. apply IH. intros a Ha. apply Hf. by right.
Qed.

Lemma queue_names_event subs names sub name :
  queue_names subs = Ok names → (sub, name) ∈ zip subs names → _event_queue_name sub = Some name.
Proof.
  unfold queue_names. intros Hn%rmap_ok_iff Hin.
  induction Hn as [|x y xs ys Hx _ IH]; simpl in Hin; [by apply not_elem_of_nil in Hin|]. apply elem_of_cons in Hin as [[= -> ->]|Hin]; [|auto].
  destruct (_event_queue_name x) eqn:He; simplify_eq. done.
Qed.

Lemma pres_routed_register o s methods subs : pres (routed o) (register_server s methods subs).
Proof.
  intros b R. unfold register_server, _require_open, server_at, _servers_by_replica. autorewrite with mrun.
  destruct (_closed b); [done|]. destruct (server_heap b !! s) as [v|] eqn:Hv; [|done]. autorewrite with mrun.
  match goal with |- context [if ?c then (Err _, _) else _] => destruct c end; [done|]. autorewrite with mrun.
  destruct (rmap method_ok methods); [|done]. autorewrite with mrun. destruct (queue_names subs) as [names|] eqn:Hn; [|done].
  assert (keeps rview (mfor (check_owner s) (zip subs names))) as Hc by (apply keeps_for; intros ?; unfold check_owner; solve_rview).
  unfold mbind at 1, M_bind at 1. pose proof (routed_view o _ _ (Hc b) R) as R0. pose proof (Hc b) as Hv0.
  destruct (mfor (check_owner s) (zip subs names) b) as [[u|e] b0]; [|done]. simpl in R0, Hv0.
  autorewrite with mrun. set (b1 := set_registered _ b0). assert (routed o b1) as R1 by (by apply (routed_view o b0)).
  pose proof (rt_service _ _ R s v Hv) as Hs.
  destruct (ensure_run (rpc_queue_name (sv_service v)) b1) as (b2 & Hrun & Hh & _). rewrite (M_bind_run _ _ _ _ _ Hrun).
  assert (routed o b2) as R2 by (pose proof (pres_routed_ensure o (rpc_queue_name (sv_service v)) b1 R1) as HR; by rewrite Hrun in HR).
  autorewrite with mrun. apply pres_bind.
  - apply keeps_routed. by apply keeps_rview_server.
  - intros _. apply pres_for_in. intros [sub name] Hin. apply pres_routed_subscription. by eapply queue_names_event.
  - by apply routed_add_rpc.
Qed.

(** The end of a removal forgets the queue. *)
Lemma routed_remove_end o name b :
  o = None ∨ o = Some name → routed o b → routed None (remove_queue_end name b).2.
Proof.
  intros Ho [R1 R2 R3 R4 R6 R5]. unfold remove_queue_end. autorewrite with mrun. simpl. constructor; simpl.
  - intros l n [_ Hin]%list_elem_of_filter. by apply R1.
  - eapply sublist_NoDup; [exact R2|]. apply fmap_sublist, sublist_filter.
  - intros key ns n [Hk _]%map_lookup_filter_Some. rewrite lookup_fmap in Hk.
    destruct (_event_routes (topo b) !! key) as [ns'|] eqn:Hr; [|done]. injection Hk as <-.
    intros [Hin Hne]%elem_of_difference. rewrite elem_of_singleton in Hne.
    destruct (R3 key ns' n Hr Hin) as [? [?|[?|Hn]]]; [by auto|by auto|]. destruct Ho; simplify_eq.
  - intros n [Hin _]%elem_of_difference. by apply R4.
  - done.
  - intros s v. rewrite map_lookup_imap. destruct (server_heap b !! s) as [w|] eqn:Hw; [|done]. simpl.
    intros [= <-]. specialize (R5 s w Hw). by case_decide.
Qed.

Lemma removal_ends name b : ∃ b', remove_queue_end name b = (Ok tt, b').
Proof. unfold remove_queue_end. autorewrite with mrun. by eexists. Qed.

(** A removal leaves the routes in order, but for a queue it still waits for. *)
Lemma routed_remove name b :
  ephemeral_name name → good b → routed None b →
  ∃ r b', _remove_queue name b = (Ok r, b') ∧ routed r b' ∧ (r = None ∨ r = Some name).
Proof.
  intros He (_ & L & _) R. unfold _remove_queue, remove_queue_begin. autorewrite with mrun.
  destruct (dict_get (_queues (topo b)) name) as [i|] eqn:Hn.
  2: { autorewrite with mrun. destruct (removal_ends name b) as [b' Hrun]. exists None, b'.
       rewrite (M_bind_run _ _ _ _ _ Hrun). split_and!; [done| |by left].
       pose proof (routed_remove_end None name b) as HR. rewrite Hrun in HR. by apply HR; [left|]. }
  autorewrite with mrun. set (b1 := set_topo _ b). destruct (L name i Hn) as (ms & ds & Hq). unfold q_at in Hq.
  destruct (queue_heap b !! i) as [q|] eqn:Hi; [|done].
  assert (routed (Some name) b1) as R1.
  { destruct R as [R1 R2 R3 R4 R6 R5]. constructor; try done.
    - intros l n Hin. destruct (R1 l n Hin) as (s & Hs & -> & -> & Hh). exists s. split_and!; try done.
      unfold here_named. simpl. rewrite dict_get_del_ne; [done|]. intros <-. by eapply rpc_not_event, ephemeral_event.
    - intros key ns n Hk Hin. destruct (R3 key ns n Hk Hin) as [? [Hh|[?|?]]]; [|by auto..]. split; [done|].
      destruct (decide (n = name)) as [->|Hne]; [by right; right|]. left. unfold here_named. simpl. by rewrite dict_get_del_ne.
    - intros j n Hj. simpl. destruct (decide (n = name)) as [->|Hne]; [by right|]. rewrite dict_get_del_ne by done. by apply R6. }
  rewrite (M_bind_run _ _ _ _ _ (queue_at_run i q b1 Hi)). destruct (q_task q); autorewrite with mrun;
    try (eexists _, _; split_and!; [done| |by right];
         by apply (keeps_routed (Some name) _ (keeps_rview_queue i (λ q, set_task (wake q) TaskDone q) ltac:(done)) b1)).
  destruct (removal_ends name b1) as [b' Hrun]. exists None, b'. rewrite (M_bind_run _ _ _ _ _ Hrun).
  split_and!; [done| |by left]. pose proof (routed_remove_end (Some name) name b1) as HR. rewrite Hrun in HR. by apply HR; [right|].
Qed.

Lemma keeps_rview_requeue s i kr : keeps rview (requeue_delivery s i kr).
Proof. unfold requeue_delivery. destruct kr as [k r]. solve_rview. Qed.

(** Raised, or returned the name of a queue that is half removed. *)
Definition half {A} (r : result ms_error (option A)) : option A := match r with Ok o => o | Err _ => None end.

Lemma routed_stop_queue s requeue i b :
  good b → routed None b →
  routed (half (stop_queue s requeue i b).1) (stop_queue s requeue i b).2 ∧
  (requeue = false → half (stop_queue s requeue i b).1 = None).
Proof.
  intros G R. unfold stop_queue, server_at. autorewrite with mrun. destruct (server_heap b !! s) as [v|]; [|done].
  autorewrite with mrun. unfold on_queue, queue_at. autorewrite with mrun. set (b1 := set_queues _ b).
  assert (good b1) as G1 by (by apply (pres_on_queue i (λ q, set_consumers (dict_del (consumers q) (replica_id v)) q))).
  assert (routed None b1) as R1
    by (by apply (keeps_routed None _ (keeps_rview_queue i (λ q, set_consumers (dict_del (consumers q) (replica_id v)) q) ltac:(done)) b)).
  destruct (queue_heap b1 !! i) as [q|] eqn:Hi; [|by split]. autorewrite with mrun.
  set (c := if requeue then _ else _ : B unit).
  assert (keeps rview c) as Hc by (unfold c; destruct requeue; [apply keeps_for, keeps_rview_requeue|apply keeps_ret]).
  assert (good (c b1).2) as G2 by (by apply good_stop_requeue). pose proof (routed_view None _ _ (Hc b1) R1) as R2.
  destruct (c b1) as [u b2] eqn:Hrun. rewrite !(M_bind_eq _ _ _ _ _ Hrun). destruct u; [|by split]. simpl in G2, R2. autorewrite with mrun.
  set (b3 := set_queues _ b2). assert (good b3) as G3 by (apply (pres_on_queue i set_wake); [by intros ?|done]).
  assert (routed None b3) as R3 by (by apply (keeps_routed None _ (keeps_rview_queue i set_wake ltac:(done)) b2)).
  destruct requeue; simpl.
  - case_bool_decide as Hn; simpl.
    + case_match.
      * destruct (routed_remove (q_name q) b3) as (r & b' & -> & HR & _); try done. by apply (rt_ephemeral _ _ R3).
      * case_match; autorewrite with mrun; simpl; [|done]. split; [|done].
        apply (routed_names None _ (λ t, _)); [|done]. apply (rt_ephemeral _ _ R3).
    + case_match; autorewrite with mrun; simpl; [|done]. split; [|done].
      apply (routed_names None _ (λ t, _)); [|done]. apply (rt_ephemeral _ _ R3).
  - case_match; autorewrite with mrun; simpl; [|done]. split; [|done].
    apply (routed_names None _ (λ t, _)); [|done]. apply (rt_ephemeral _ _ R3).
Qed.
End removal.

Section closing.
Context `{Json}.
Implicit Types b : broker.

(** No route leads to the queue. *)
Definition unrouted b (n : pystr) : Prop := ∀ key ns, _event_routes (topo b) !! key = Some ns → n ∉ ns.

Lemma routed_closers o f b :
  routed o b → (∀ n, removing b n ∨ o = Some n → removing (set_closers f b) n ∨ unrouted b n) →
  routed None (set_closers f b).
Proof.
  intros [R1 R2 R3 R4 R6 R5] Hf. constructor; try done. intros key ns n Hk Hin.
  destruct (R3 key ns n Hk Hin) as [? [?|Hr]]; [by auto|]. split; [done|]. destruct (Hf n Hr) as [?|Hu]; [by auto|].
  by destruct (Hu key ns Hk).
Qed.

Lemma removing_others b j p s n :
  removing b n → (∀ c, closers b !! j = Some c → phase_removes (cr_phase c) ≠ Some n) →
  removing (set_closers <[j := {| cr_server := s; cr_phase := p |}]> b) n.
Proof.
  intros (l & c & Hc & Hp) Hj. assert (l ≠ j) by (intros ->; by eapply Hj).
  exists l, c. simpl. by rewrite list_lookup_insert_ne.
Qed.

Lemma remove_end_unrouted name b : unrouted (remove_queue_end name b).2 name.
Proof.
  unfold remove_queue_end. autorewrite with mrun. intros key ns. simpl. intros [Hk _]%map_lookup_filter_Some.
  rewrite lookup_fmap in Hk. destruct (_event_routes (topo b) !! key); [|done]. injection Hk as <-. set_solver.
Qed.

Lemma keeps_closers_remove_end name : keeps closers (remove_queue_end name).
Proof. intros b. unfold remove_queue_end. by autorewrite with mrun. Qed.

Lemma keeps_closers_stop s requeue i : keeps closers (stop_queue s requeue i).
Proof.
  pose proof keeps_closers_remove_end. unfold stop_queue, server_at, queue_at, _remove_queue, remove_queue_begin, on_queue.
  assert (∀ f, keeps closers (modify (set_queues f) : B unit)) by done.
  assert (∀ f, keeps closers (modify (set_topo f) : B unit)) by done.
  assert (∀ k, keeps closers (requeue_delivery s i k)).
  { intros [k r]. unfold requeue_delivery, on_queue, on_server. by case_match. }
  repeat first [solve [eauto 2 with tori nocore]|apply keeps_bind; [|intros ?]|apply keeps_for; intros ?|case_match].
Qed.

(** [close] goes on with a queue. *)
Lemma close_stop j c (p : option pystr → close_phase) i b :
  good b → routed None b → closers b !! j = Some c → phase_removes (cr_phase c) = None → (∀ r, phase_removes (p r) = r) →
  routed None ((r ← stop_queue (cr_server c) true i; move_closer j (cr_server c) (p r)) b).2.
Proof.
  intros G R Hc Hp Hr. destruct (routed_stop_queue (cr_server c) true i b G R) as [R' _].
  pose proof (keeps_closers_stop (cr_server c) true i b) as Hk.
  destruct (stop_queue (cr_server c) true i b) as [[r|e] b'] eqn:Hrun; simpl in *; unfold mbind, M_bind; rewrite Hrun; [|done].
  simpl. eapply routed_closers; [exact R'|]. intros n [Hn|Hn]; left.
  - apply removing_others; [done|]. rewrite Hk, Hc. intros ? [= <-]. by rewrite Hp.
  - exists j, {| cr_server := cr_server c; cr_phase := p r |}. simpl.
    rewrite list_lookup_insert_eq by (rewrite Hk; by eapply lookup_lt_Some). by rewrite Hr.
Qed.

(** [close] ends the removal it waited for. *)
Lemma close_removed j c name p b :
  routed None b → closers b !! j = Some c → phase_removes (cr_phase c) = Some name →
  routed None ((remove_queue_end name;; move_closer j (cr_server c) p) b).2.
Proof.
  intros R Hc Hp. pose proof (routed_remove_end None name b (or_introl eq_refl) R) as R'.
  pose proof (remove_end_unrouted name b) as Hu. pose proof (keeps_closers_remove_end name b) as Hk.
  destruct (removal_ends name b) as [b' Hrun]. rewrite Hrun in *. rewrite (M_bind_run _ _ _ _ _ Hrun). simpl in *.
  eapply routed_closers; [exact R'|]. intros n [Hn|]; [|done]. destruct (decide (n = name)) as [->|Hne]; [by right|].
  left. apply removing_others; [done|]. rewrite Hk, Hc. intros ? [= <-]. rewrite Hp. congruence.
Qed.

Lemma routed_close_step j c b :
  good b → routed None b → closers b !! j = Some c → routed None (close_step j c b).2.
Proof.
  intros G R Hc. unfold close_step. destruct (cr_phase c) as [[name|] [|i rest]| |[name|] [|i rest]|] eqn:Hp; try done;
    try (by eapply close_removed; [..|rewrite Hp]); try (by eapply close_stop; [..|rewrite Hp|]).
  all: assert (∀ n, removing b n → ∀ c', closers b !! j = Some c' → phase_removes (cr_phase c') ≠ Some n)
    as Hne by (intros n _ c'; rewrite Hc; intros [= <-]; by rewrite Hp).
  - eapply routed_closers; [exact R|]. intros n [Hn|]; [|done]. left. apply removing_others; auto.
  - autorewrite with mrun. eapply routed_closers; [exact R|]. intros n [Hn|]; [|done]. left. apply removing_others; auto.
  - autorewrite with mrun. unfold on_server, move_closer. autorewrite with mrun.
    match goal with |- routed _ (_, set_closers _ ?st).2 => assert (rview st = rview b) as Hst end.
    { by apply (keeps_rview_server (cr_server c) (λ v, set_status CLOSED (set_names (_queue_names v) ∅ v))
        ltac:(done) (set_registered _ b)). }
    eapply routed_closers; [eapply routed_view; [exact Hst|exact R]|]. intros n [Hn|]; [|done].
    left. apply removing_others; [done|]. intros c' Hc'. apply (Hne n Hn). by injection Hst.
Qed.

Lemma pres_routed_stop_intake s : pres (λ b, good b ∧ routed None b) (stop_intake s).
Proof.
  intros b [G R]. split; [by apply pres_stop_intake|]. revert b G R. intros b G R. unfold stop_intake, server_at.
  autorewrite with mrun. destruct (server_heap b !! s) as [v|]; [|done]. autorewrite with mrun. destruct (sv_status v); try done.
  set (b1 := (on_server s (set_status QUIESCING) b).2).
  assert (good b1) as G1 by (apply pres_on_server; [by intros ?|done]).
  assert (routed None b1) as R1 by (by apply (keeps_routed None (on_server s _)); [apply keeps_rview_server|]).
  change (routed None ((mfor (λ i, stop_queue s false i;; mret tt) (all_queues b1)) b1).2).
  assert (pres (λ b, good b ∧ routed None b) (mfor (λ i, stop_queue s false i;; mret tt) (all_queues b1))) as HP.
  { apply pres_for_in. intros i _. apply pres_bind; [|intros _; apply pres_ret]. intros b2 [G2 R2].
    split; [by apply pres_stop_queue|]. destruct (routed_stop_queue s false i b2 G2 R2) as [HR Hh]. by rewrite Hh in HR. }
  by destruct (HP b1).
Qed.
End closing.

Section all.
Context `{Json}.
Implicit Types b : broker.

Lemma routed_new m a b : InMemoryBroker_new m a = Ok b → routed None b.
Proof.
  unfold InMemoryBroker_new. intros Hb. apply result_bind_ok in Hb as (? & _ & Hb).
  apply result_bind_ok in Hb as (? & _ & [= <-]). constructor; simpl; try set_solver. constructor.
Qed.

Lemma pres_routed_server service replica n :
  valid_service service → pres (routed None) (InMemoryServerTransport_new service replica n).
Proof.
  intros Hs b [R1 R2 R3 R4 R6 R5]. unfold InMemoryServerTransport_new. autorewrite with mrun.
  destruct (positive_count n); [|done]. unfold fresh. autorewrite with mrun. constructor; try done. simpl.
  intros s v. destruct (decide (s = next_object b)) as [->|Hne]; [rewrite lookup_insert_eq; by intros [= <-]|].
  rewrite lookup_insert_ne by done. apply R5.
Qed.

Lemma pres_routed_close_begin s : pres (λ b, good b ∧ routed None b) (close_begin s).
Proof.
  unfold close_begin. apply pres_bind; [intros b; unfold server_at; autorewrite with mrun; by destruct (server_heap b !! s)|].
  intros v. destruct (sv_status v) eqn:Hst; try (by intros b; auto).
  all: apply pres_bind; [case_match; [apply pres_routed_stop_intake|apply pres_ret]|intros _]; intros b [G R];
    autorewrite with mrun;
    (split; [by apply (pres_closers _)|]);
    apply (routed_closers None); try done; intros n [(j & c & Hj & Hc)|]; try done; left; exists j, c;
    (split; [|done]); by apply lookup_app_l_Some.
Qed.

Lemma pres_routed_prepare s methods subs : pres (routed None) (prepare s methods subs).
Proof.
  unfold prepare. apply pres_bind; [apply keeps_routed; unfold _require; solve_rview|intros _].
  apply pres_bind; [apply pres_routed_register|intros _]. by apply keeps_routed, keeps_rview_server.
Qed.

Lemma keeps_rview_start s : keeps rview (start s).
Proof. pose proof keeps_rview_start_server. unfold start, _require. solve_rview. Qed.

Lemma rview_wake b i q : queue_heap b !! i = Some q → rview (set_queues <[i := set_task true Polling q]> b) = rview b.
Proof.
  intros Hi. unfold rview. simpl. f_equal. rewrite fmap_insert. simpl. apply insert_id. rewrite lookup_fmap. by rewrite Hi.
Qed.

Lemma bstep_routed b b' : bstep b b' → good b → routed None b → routed None b'.
Proof.
  intros Hs G R. destruct Hs;
    [by apply pres_routed_server|by apply pres_routed_prepare| | | |by eapply routed_view; [apply rview_wake|]| | |by apply pres_routed_stop_intake
    |by apply pres_routed_close_begin|by apply routed_close_step|..]; eapply routed_view; try exact R;
    first [apply keeps_rview_start|apply keeps_rview_publish|apply keeps_rview_run|apply keeps_rview_settle
    |apply keeps_rview_dispatch|apply keeps_rview_client_new|apply keeps_rview_client_start|apply keeps_rview_rpc
    |apply keeps_rview_event|apply keeps_rview_reply|apply keeps_rview_next_reply|apply keeps_rview_on_client
    |apply keeps_rview_client_close|apply keeps_rview_close_tasks|apply keeps_rview_close_end].
Qed.

Lemma reachable_routed m a b : b_reachable m a b → good b ∧ routed None b.
Proof.
  induction 1 as [b Hb|b b' _ [G R] Hs]; [split; [by eapply good_new|by eapply routed_new]|].
  split; [by eapply bstep_good|by eapply bstep_routed].
Qed.

(** ** Finding the queues of a publication *)

Lemma list_find_ext_in {A} (P Q : A → Prop) `{∀ x, Decision (P x), ∀ x, Decision (Q x)} l :
  (∀ x, x ∈ l → P x ↔ Q x) → list_find P l = list_find Q l.
Proof.
  induction l as [|x l IH]; intros HPQ; simpl; [done|]. assert (P x ↔ Q x) by (apply HPQ; by left).
  case_decide; case_decide; try tauto. rewrite IH; [done|]. intros y Hy. apply HPQ. by right.
Qed.

Lemma routes_rpc o b t :
  routed o b → valid_target t →
  _routes (rpc_routing_key t) None (topo b) =
  match dict_get (_rpc_queues (topo b)) (label (rpc_service t)) with Some n => {[ n ]} | None => ∅ end.
Proof.
  intros R [Ht _]. unfold _routes, dict_get.
  rewrite (list_find_ext_in _ (λ kv, kv.1 = label (rpc_service t))); [by destruct (list_find _ _) as [[? []]|]|].
  intros [l n] (s & Hs & -> & _)%(rt_rpc _ _ R). unfold rpc_routing_key. simpl. split.
  - intros [k Hk]. rewrite <- (assoc_L (++)) in Hk. simpl in Hk. by apply label_dot_inj in Hk as [-> _].
  - intros ->. exists (rpc_method t). by rewrite <- (assoc_L (++)).
Qed.

(** Every route leads to a queue, when no removal is under way. *)
Lemma routes_named key native b n :
  routed None b → (∀ n, ¬ removing b n) → n ∈ _routes key native (topo b) → here_named b n.
Proof.
  intros R Hr. unfold _routes. assert (n ∈ match list_find (λ kv : pystr * pystr, (kv.1 ++ [dot]) `prefix_of` key)
    (_rpc_queues (topo b)) with Some (_, (_, name)) => {[ name ]} | None => ∅ : gset pystr end → here_named b n) as Hrpc.
  { destruct (list_find _ _) as [[j [l m]]|] eqn:Hf; [|set_solver]. intros ->%elem_of_singleton.
    apply list_find_Some in Hf as (Hf & _). apply list_elem_of_lookup_2 in Hf.
    by destruct (rt_rpc _ _ R _ _ Hf) as (s & _ & _ & _ & ?). }
  destruct native as [[ex k|x]|]; try done. destruct (_event_routes (topo b) !! (ex, k)) as [ns|] eqn:Hk; [|set_solver].
  intros Hn. destruct (rt_event _ _ R _ _ n Hk Hn) as [_ [?|[Hx|]]]; [done| |done]. by destruct (Hr n).
Qed.
End all.

(** ** Which queues are removed *)

Section removed.
Context `{Json}.
Implicit Types b : broker.

(** The server [s] is the last to have a queue named [n], which is ephemeral. *)
Definition removable b (s : Z) (n : pystr) : Prop :=
  n ∈ _ephemeral_queues (topo b) ∧
  (∃ i q v, queue_heap b !! i = Some q ∧ q_name q = n ∧ server_heap b !! s = Some v ∧
     ∀ kc, kc ∈ consumers q → kc.1 = replica_id v) ∧
  ∀ t w, t ∈ _servers b → t ≠ s → server_heap b !! t = Some w → n ∉ _queue_names w.

Definition holding (n : pystr) (i : Z) b : Prop := dict_get (_queues (topo b)) n = Some i.

Lemma holding_topo {A} n i (m : B A) : keeps topo m → pres (holding n i) m.
Proof. intros Hm b. unfold holding. by rewrite (Hm b). Qed.

Lemma holding_rview {A} n i (m : B A) : keeps rview m → pres (holding n i) m.
Proof. intros Hm. apply holding_topo. intros b. specialize (Hm b). by injection Hm. Qed.

Lemma holding_set_topo n i f : (∀ t, _queues (f t) = _queues t) → pres (holding n i) (modify (set_topo f) : B unit).
Proof. intros Hf b. unfold holding. simpl. by rewrite Hf. Qed.

Lemma holding_ensure n i name : pres (holding n i) (ensure_queue name).
Proof.
  intros b Hb. unfold ensure_queue. autorewrite with mrun. destruct (dict_get _ name) as [j|] eqn:Hn; [done|].
  unfold fresh. autorewrite with mrun. unfold holding in *. simpl. rewrite dict_get_set. case_decide; [congruence|done].
Qed.

Lemma holding_register n i s methods subs : pres (holding n i) (register_server s methods subs).
Proof.
  assert (∀ p, keeps rview (check_owner s p)) as Hc by (intros p; unfold check_owner; solve_rview).
  unfold register_server, register_subscription, _servers_by_replica.
  repeat first
    [ apply holding_ensure
    | apply pres_bind; [|intros ?]
    | apply holding_set_topo; by intros ?
    | apply pres_for_in; intros ? _
    | solve [apply holding_rview; solve_rview]
    | case_match ].
Qed.

Lemma keeps_queues_remove_end name : keeps (λ b, _queues (topo b)) (remove_queue_end name).
Proof. intros b. unfold remove_queue_end. by autorewrite with mrun. Qed.

Lemma holding_remove n i name : n ≠ name → pres (holding n i) (_remove_queue name).
Proof.
  intros Hne. unfold _remove_queue, remove_queue_begin.
  assert (pres (holding n i) (remove_queue_end name)) as He.
  { intros b. unfold holding. by rewrite (keeps_queues_remove_end name b). }
  apply pres_bind; [|intros []; [apply pres_ret|apply pres_bind; [done|intros ?; apply pres_ret]]].
  apply pres_bind; [apply pres_get|]. intros b. case_match; [|apply pres_ret]. apply pres_bind.
  { intros b'. unfold holding. simpl. by rewrite dict_get_del_ne. }
  intros _. apply holding_rview. solve_rview.
Qed.

(** What the rounds of [stop_server] read of the broker. *)
Definition oview b := (topo b, _servers b, _queue_names <$> server_heap b).

Lemma keeps_oview_requeue s i kr : keeps oview (requeue_delivery s i kr).
Proof.
  destruct kr as [k r]. unfold requeue_delivery. case_match; [apply keeps_ret|].
  repeat (apply keeps_bind; [done|intros ?]). intros b. unfold oview. simpl. f_equal. apply map_eq. intros t.
  rewrite !lookup_fmap. destruct (decide (t = s)) as [->|Ht]; [rewrite lookup_alter_eq|by rewrite lookup_alter_ne].
  by destruct (server_heap b !! s).
Qed.

Lemma dict_del_nil {V} (d : list (pystr * V)) k kv : dict_del d k = [] → kv ∈ d → kv.1 = k.
Proof.
  unfold dict_del. intros Hd Hin. destruct (decide (kv.1 = k)) as [|Hne]; [done|].
  assert (kv ∈ filter (λ kv : pystr * V, kv.1 ≠ k) d) as Hf by (by apply list_elem_of_filter). rewrite Hd in Hf. set_solver.
Qed.

Lemma dict_del_twice {V} (d : list (pystr * V)) k : dict_del (dict_del d k) k = dict_del d k.
Proof. unfold dict_del. rewrite list_filter_filter. apply list_filter_iff. tauto. Qed.

Lemma stop_queue_removes s requeue i n j b :
  holding n j b → holding n j (stop_queue s requeue i b).2 ∨ requeue = true ∧ removable b s n.
Proof.
  intros Hb. unfold stop_queue, server_at. autorewrite with mrun. destruct (server_heap b !! s) as [v|] eqn:Hv; [|by left].
  autorewrite with mrun. unfold on_queue, queue_at. autorewrite with mrun. set (b1 := set_queues _ b).
  destruct (queue_heap b1 !! i) as [q|] eqn:Hi; [|by left]. autorewrite with mrun. set (c := if requeue then _ else _ : B unit).
  assert (keeps oview c) as Hc by (unfold c; destruct requeue; [apply keeps_for, keeps_oview_requeue|apply keeps_ret]).
  specialize (Hc b1). destruct (c b1) as [u b2] eqn:Hrun. rewrite !(M_bind_eq _ _ _ _ _ Hrun). injection Hc as T2 V2 N2.
  assert (holding n j b2) as H2 by (unfold holding in *; by rewrite T2). destruct u; [|by left]. autorewrite with mrun.
  set (b3 := set_queues _ b2).
  match goal with |- context [if ?x then _remove_queue _ else _] => destruct x eqn:Hx end; last first.
  { left. case_match; [|done]. by autorewrite with mrun. }
  destruct (decide (n = q_name q)) as [->|Hne]; [right|left; by apply holding_remove].
  apply andb_true_iff in Hx as [Hx Hno%negb_true_iff]. apply andb_true_iff in Hx as [Hx Hcons%bool_decide_eq_true].
  apply andb_true_iff in Hx as [Hrq Heph%bool_decide_eq_true]. split; [done|]. unfold b1 in Hi. simpl in Hi. rewrite lookup_alter_eq in Hi.
  destruct (queue_heap b !! i) as [q0|] eqn:Hi0; [|done]. injection Hi as <-. simpl in *. split_and!.
  - by rewrite T2 in Heph.
  - exists i, q0, v. split_and!; try done. intros kc. apply dict_del_nil. by rewrite <- dict_del_twice.
  - intros t w Ht Hts Hw Hin.
    apply not_true_iff_false in Hno. apply Hno.
    apply existsb_exists. exists t. split; [apply list_elem_of_In, elem_of_elements; change (_servers b3) with (_servers b2); by rewrite V2|].
    apply andb_true_iff. split; [apply negb_true_iff; by apply Z.eqb_neq|]. change (server_heap b3) with (server_heap b2).
    pose proof (f_equal (lookup t) N2) as Hl. rewrite !lookup_fmap in Hl. change (server_heap b1 !! t) with (server_heap b !! t) in Hl.
    rewrite Hw in Hl. destruct (server_heap b2 !! t) as [w2|]; [|done]. injection Hl as ->. by apply bool_decide_eq_true.
Qed.

Lemma holding_stop_intake n j s : pres (holding n j) (stop_intake s).
Proof.
  unfold stop_intake. apply pres_bind; [apply holding_rview; solve_rview|]. intros v.
  case_match; try apply pres_ret; try apply pres_raise; apply pres_bind; try (apply holding_rview; solve_rview); intros _;
    (apply pres_bind; [apply pres_get|intros b; apply pres_for_in; intros i _]); (apply pres_bind; [|intros _; apply pres_ret]);
    intros b' Hb'; by destruct (stop_queue_removes s false i n j b' Hb') as [|[? _]].
Qed.

(** In one step a queue is removed only for a server that closes. *)
Lemma step_removes b b' n j :
  bstep b b' → holding n j b → holding n j b' ∨ ∃ c, c ∈ closers b ∧ removable b (cr_server c) n.
Proof.
  intros Hs Hb. destruct Hs; try (left; revert Hb; solve [apply holding_rview; first
    [apply keeps_rview_start|apply keeps_rview_publish|apply keeps_rview_run|apply keeps_rview_settle
    |apply keeps_rview_dispatch|apply keeps_rview_client_new|apply keeps_rview_client_start|apply keeps_rview_rpc
    |apply keeps_rview_event|apply keeps_rview_reply|apply keeps_rview_next_reply|apply keeps_rview_on_client
    |apply keeps_rview_client_close|apply keeps_rview_close_tasks|apply keeps_rview_close_end]]).
  - left. revert Hb. apply holding_topo. unfold InMemoryServerTransport_new, fresh. solve_keeps.
  - left. revert Hb. unfold prepare. apply pres_bind; [apply holding_rview; unfold _require; solve_rview|intros _].
    apply pres_bind; [apply holding_register|intros _]. apply holding_rview. by apply keeps_rview_server.
  - by left.
  - left. by apply holding_stop_intake.
  - left. revert Hb. unfold close_begin. apply pres_bind; [apply holding_rview; solve_rview|]. intros v.
    repeat first [apply holding_stop_intake|apply pres_bind; [|intros ?]|apply pres_ret|apply holding_topo; done|case_match
      |solve [auto with tori]].
  - assert (∀ (p : close_phase), pres (holding n j) (move_closer j0 (cr_server c) p)) as Hmove by (intros p b'; done).
    assert (∀ name p, pres (holding n j) (remove_queue_end name;; move_closer j0 (cr_server c) p)) as Hend.
    { intros name p. apply pres_bind; [|intros _; apply Hmove]. intros b0. unfold holding. by rewrite (keeps_queues_remove_end name b0). }
    assert (∀ i p, holding n j ((r ← stop_queue (cr_server c) true i; move_closer j0 (cr_server c) (p r)) b).2 ∨
      removable b (cr_server c) n) as Hstop.
    { intros i p. destruct (stop_queue_removes (cr_server c) true i n j b Hb) as [Hk|[_ Hr]]; [left|by right].
      unfold mbind, M_bind. destruct (stop_queue (cr_server c) true i b) as [[r|e] b1]; [apply Hmove|]; done. }
    unfold close_step. destruct (cr_phase c) as [[name|] [|i rest]| |[name|] [|i rest]|];
      try (left; by first [apply Hend|apply Hmove|done]);
      [destruct (Hstop i (λ r, FirstStop r rest)) as [Hk|Hr]|destruct (Hstop i (λ r, SecondStop r rest)) as [Hk|Hr]];
      first [left; exact Hk|right; exists c; split; [by eapply list_elem_of_lookup_2|done]].
Qed.
End removed.

Section publishing.
Context `{Json}.
Implicit Types b : broker.

Definition full_at b (name : pystr) : bool :=
  match dict_get (_queues (topo b)) name ≫= λ i, queue_heap b !! i with
  | Some q => max_queue_messages b <=? zlen (messages q)
  | None => false
  end.

Lemma any_full_run b l :
  linked b → (∀ n, n ∈ l → here_named b n) → any_full l b = (Ok (existsb (full_at b) l), b).
Proof.
  intros L. induction l as [|n l IH]; intros Hl; [done|]. simpl. destruct (Hl n) as [i Hi]; [by left|].
  destruct (L n i Hi) as (ms & ds & Hq). unfold q_at in Hq. destruct (queue_heap b !! i) as [q|] eqn:Hqi; [|done].
  unfold is_full. autorewrite with mrun. rewrite (M_bind_run _ _ _ _ _ (named_run _ _ _ Hi)). autorewrite with mrun.
  rewrite (M_bind_run _ _ _ _ _ (queue_at_run _ _ _ Hqi)). autorewrite with mrun.
  unfold full_at at 1. rewrite Hi. simpl. rewrite Hqi. case_match; [done|]. apply IH. intros n' Hn'. apply Hl. by right.
Qed.

(** A first copy of [p]. *)
Definition copy (p : Publication) (x : Z) : QueuedPublication :=
  {| qp_id := x; qp_publication := p; qp_attempt := 1; qp_redelivered := false |}.

(** The queue that [name] leads to got one copy at its end, and nothing else changed. *)
Definition got_copy b b' (p : Publication) (names : list pystr) : Prop :=
  topo b' = topo b ∧ dead_letters b' = dead_letters b ∧ next_object b ≤ next_object b' ∧
  (∀ x, x < next_object b → places b' !! x = places b !! x) ∧
  ∀ i n ms ds, q_at b i = Some (n, ms, ds) →
    (n ∈ names ∧ dict_get (_queues (topo b)) n = Some i →
      ∃ x, next_object b ≤ x ∧ q_at b' i = Some (n, ms ++ [copy p x], ds) ∧ places b' !! x = Some (InQueue i)) ∧
    (¬ (n ∈ names ∧ dict_get (_queues (topo b)) n = Some i) → q_at b' i = Some (n, ms, ds)).

Lemma enqueue_run p name b i q :
  dict_get (_queues (topo b)) name = Some i → queue_heap b !! i = Some q →
  ∃ b', enqueue p name b = (Ok tt, b') ∧ topo b' = topo b ∧ dead_letters b' = dead_letters b ∧
    next_object b' = next_object b + 1 ∧ places b' = <[next_object b := InQueue i]> (places b) ∧
    ∀ j, q_at b' j = if decide (j = i) then Some (q_name q, messages q ++ [copy p (next_object b)], deliveries q) else q_at b j.
Proof.
  intros Hn Hi. unfold enqueue. rewrite (M_bind_run _ _ _ _ _ (named_run _ _ _ Hn)). unfold fresh, placed, on_queue.
  autorewrite with mrun. eexists. split_and!; try done. intros j. rewrite q_at_on. simpl. by rewrite Hi.
Qed.

Lemma enqueue_all p l b :
  linked b → NoDup l → (∀ n, n ∈ l → here_named b n) → ∃ b', mfor (enqueue p) l b = (Ok tt, b') ∧ got_copy b b' p l.
Proof.
  revert b. induction l as [|n l IH]; intros b L Hnd Hl.
  { exists b. split; [done|]. split_and!; try done. intros i nm ms ds Hq. split; [|done]. intros [Hin _]. set_solver. }
  apply NoDup_cons in Hnd as [Hn Hnd]. destruct (Hl n) as [i Hi]; [by left|].
  destruct (L n i Hi) as (ms & ds & Hq). pose proof Hq as Hq'. unfold q_at in Hq'.
  destruct (queue_heap b !! i) as [q|] eqn:Hqi; [|done]. injection Hq' as Hq1 Hq2 Hq3.
  destruct (enqueue_run p n b i q Hi Hqi) as (b1 & Hrun & T1 & D1 & N1 & P1 & Q1). simpl. rewrite (M_bind_run _ _ _ _ _ Hrun).
  destruct (IH b1) as (b' & -> & T & D & N & P & Q); [|done| |].
  { apply (linked_same b); [done|done|]. intros j. rewrite Q1. case_decide; subst; by rewrite ?Hq. }
  { intros n' Hn'. unfold here_named. rewrite T1. apply Hl. by right. }
  exists b'. split; [done|]. unfold got_copy. rewrite T, T1, D, D1. split_and!; try done; [lia| |].
  { intros x Hx. rewrite P by lia. rewrite P1, lookup_insert_ne by lia. done. }
  intros j nj mj dj Hj. rewrite T1 in Q. destruct (decide (j = i)) as [->|Hne].
  - simplify_eq. destruct (Q i (q_name q) (messages q ++ [copy p (next_object b)]) (deliveries q)) as [_ Q'];
      [by rewrite Q1, decide_True|]. split; [intros _|intros []; split; [by left|done]].
    exists (next_object b). split_and!; [lia|apply Q'; tauto|]. rewrite P by lia. by rewrite P1, lookup_insert_eq.
  - destruct (Q j nj mj dj) as [Qa Qb]; [by rewrite Q1, decide_False|]. split.
    + intros [Hin Hg]. apply elem_of_cons in Hin as [->|Hin]; [congruence|]. destruct Qa as (x & Hx & ?); [done|].
      exists x. split; [lia|done].
    + intros Hno. apply Qb. intros [Hin Hg]. apply Hno. split; [by right|done].
Qed.

Lemma receipt_ok x now (f : bool) : dt_offset now = Some 0 →
  ∃ r, PublicationReceipt_new (PyUUID x) (PyDatetime now) (PyBool f) = Ok r ∧ rc_message_id r = x ∧ rc_routed r = f.
Proof. intros Hn. unfold PublicationReceipt_new. simpl. rewrite bool_decide_true by done. eexists. by split_and!. Qed.
End publishing.
