(* ===== verification/MsProperties.v ===== *)
(** * Microservices: what the in-memory broker guarantees

    Concrete runs first, then the theorems. *)

From Stdlib Require Import ZArith Lia.
From stdpp Require Import base tactics list gmap strings.
From S2P Require Import Prelude MsWire MsValues MsBroker MsEndpoints MsWireFacts MsBrokerFacts MsBrokerSteps MsRoutes.
Local Open Scope Z_scope.

#[export] Instance no_text : Json := {| json_encode := λ _, Ok [] |}.

Definition noon : datetime := Datetime 0 (Some 0).

Definition orders : ServiceIdentity := {| namespace := str "shop"; svc_name := str "orders"; contract_version := 1 |}.
Definition get_order : RpcTarget := {| rpc_service := orders; rpc_method := str "get"; rpc_schema_version := 1 |}.
Definition order_placed : EventIdentity := {| ev_source := orders; ev_event := str "placed"; ev_schema_version := 1 |}.

Definition rpc_message (id : Z) : Publication :=
  {| pub_message_id := id; pub_routing_key := rpc_routing_key get_order; pub_body := []; pub_headers := WMap [];
     pub_mandatory := true; pub_correlation_id := None; pub_reply_to := None; pub_native := None; pub_expires_at := None |}.

Definition event_message (id : Z) : Publication :=
  {| pub_message_id := id; pub_routing_key := event_routing_key order_placed; pub_body := []; pub_headers := WMap [];
     pub_mandatory := false; pub_correlation_id := None; pub_reply_to := None;
     pub_native := Some (NativePair (exchange_name order_placed) (event_routing_key order_placed)); pub_expires_at := None |}.

Definition news : EventSubscription :=
  {| sub_identity := order_placed; sub_mode := BROADCAST; sub_name := str "news"; sub_destination := Some orders;
     sub_instance := Some (str "one"); sub_reliable := false |}.

Definition empty_broker : broker :=
  {| max_queue_messages := 10; max_delivery_attempts := 2; dead_letters := [];
     topo := {| _queues := []; _rpc_queues := []; _event_routes := ∅; _ephemeral_queues := ∅; _reliable_broadcast_owners := ∅ |};
     queue_heap := ∅; server_heap := ∅; _servers := ∅; _reply_queues := ∅; reply_heap := ∅; client_heap := ∅; _clients := ∅;
     _closed := false; next_object := 0; closers := []; places := ∅; flights := ∅; deliveries_made := [] |}.

(** What the tasks and callers do next. *)
Inductive action :=
| NewServer (replica : pystr) (prefetch : Z)
| Prepare (s : Z) (subs : list EventSubscription)
| Start (s : Z)
| Call (id : Z)
| Emit (id : Z)
| Run (i : Z)
| Wake (i : Z)
| Settle (s key : Z) (o : SettlementRecommendation)
| Close (s : Z)
| CloseStep (j : nat).

Definition act (a : action) (b : broker) : option broker :=
  match a with
  | NewServer r n => Some (InMemoryServerTransport_new orders r (PyInt n) b).2
  | Prepare s subs => Some (prepare s [] subs b).2
  | Start s => Some (start s b).2
  | Call id => Some (publish noon (rpc_message id) b).2
  | Emit id => Some (publish noon (event_message id) b).2
  | Run i => match queue_heap b !! i with
             | Some q => if q_task q is Polling then Some (_run_queue i noon b).2 else None
             | None => None
             end
  | Wake i => match queue_heap b !! i with
              | Some q => if wake q then (if q_task q is Sleeping then Some (set_queues <[i := set_task true Polling q]> b) else None)
                          else None
              | None => None
              end
  | Settle s key o => Some (settle s key o b).2
  | Close s => Some (close_begin s b).2
  | CloseStep j => match closers b !! j with Some c => Some (close_step j c b).2 | None => None end
  end.

Fixpoint run (l : list action) (b : broker) : option broker :=
  match l with [] => Some b | a :: l => b' ← act a b; run l b' end.

Lemma orders_valid : valid_service orders.
Proof. by exists (PyStr (str "shop")), (PyStr (str "orders")), (PyInt 1). Qed.

Lemma message_valid p : pub_headers p = WMap [] → pub_routing_key p ≠ [] → pub_expires_at p = None → valid_publication p.
Proof.
  destruct p as [m k bd h f c r n e]. simpl. intros -> Hk ->.
  exists (PyUUID m), (PyStr k), (PyBytes bd), (WMap []), (PyBool f), (py_uuid c), r, n, PyNone.
  destruct k; [done|]. by destruct c.
Qed.

Lemma rpc_message_valid i : valid_publication (rpc_message i).
Proof. by apply message_valid. Qed.
Lemma event_message_valid i : valid_publication (event_message i).
Proof. by apply message_valid. Qed.

Lemma act_step a b b' : act a b = Some b' → bstep b b'.
Proof.
  destruct a; simpl; intros Ha.
  - injection Ha as <-. constructor. apply orders_valid.
  - injection Ha as <-. constructor.
  - injection Ha as <-. constructor.
  - injection Ha as <-. constructor; [apply rpc_message_valid|done].
  - injection Ha as <-. constructor; [apply event_message_valid|done].
  - destruct (queue_heap b !! i) as [q|] eqn:Hi; [|done]. destruct (q_task q) eqn:Ht; try done. injection Ha as <-. by econstructor.
  - destruct (queue_heap b !! i) as [q|] eqn:Hi; [|done]. destruct (wake q) eqn:Hw; [|done].
    destruct (q_task q) eqn:Ht; try done. injection Ha as <-. by econstructor.
  - injection Ha as <-. constructor.
  - injection Ha as <-. constructor.
  - destruct (closers b !! j) as [c|] eqn:Hc; [|done]. injection Ha as <-. by constructor.
Qed.

Lemma acts_reachable l b b' :
  b_reachable (PyInt 10) (PyInt 2) b → run l b = Some b' → b_reachable (PyInt 10) (PyInt 2) b'.
Proof.
  revert b. induction l as [|a l IH]; intros b Hb; simpl; [by intros [= <-]|].
  destruct (act a b) as [b1|] eqn:Hact; [|done]. apply IH. eapply b_next; [done|]. by eapply act_step.
Qed.

Lemma empty_reachable : b_reachable (PyInt 10) (PyInt 2) empty_broker.
Proof. by apply b_new. Qed.

(** The state after some actions, and that it is reached. *)
Definition after (l : list action) : broker := default empty_broker (run l empty_broker).

Lemma after_reachable l : b_reachable (PyInt 10) (PyInt 2) (after l).
Proof.
  unfold after. destruct (run l empty_broker) as [b|] eqn:Hr; simpl; [|apply empty_reachable].
  eapply acts_reachable; [apply empty_reachable|done].
Qed.

(** That the actions are possible is a computation. *)
Definition possible (l : list action) : bool := match run l empty_broker with Some _ => true | None => false end.

Lemma after_run l : possible l = true → run l empty_broker = Some (after l).
Proof. unfold possible, after. by destruct (run l empty_broker). Qed.

Lemma run_app l k b : run (l ++ k) b = run l b ≫= run k.
Proof. revert b. induction l as [|a l IH]; intros b; simpl; [done|]. by destruct (act a b); simpl. Qed.

Lemma after_snoc l a : possible (l ++ [a]) = true → act a (after l) = Some (after (l ++ [a])).
Proof.
  intros Hp%after_run. rewrite run_app in Hp. destruct (run l empty_broker) as [b|] eqn:Hr; [|done].
  assert (after l = b) as -> by (unfold after; by rewrite Hr). simpl in Hp. by destruct (act a b).
Qed.

(** ** Where the copies of publications are *)

(** The places of copy [x] in a queue. *)
Definition spots (x : Z) (iq : Z * queue) : list place :=
  ((λ _, InQueue iq.1) <$> filter (λ m, qp_id m = x) (messages iq.2)) ++
  ((λ kr, InFlight iq.1 kr.1) <$> filter (λ kr, qp_id (dr_queued kr.2) = x) (deliveries iq.2)).

(** All places of copy [x] in the queues of the broker: those that their names
    lead to. A queue that was removed is not one of them. *)
Definition found (b : broker) (x : Z) : list place :=
  map_to_list (filter (λ iq, live b iq.1) (queue_heap b)) ≫= spots x.

Definition queue_of (p : place) : option Z :=
  match p with InQueue i | InFlight i _ => Some i | Ended _ => None end.
#[export] Instance queue_of_live_dec b p : Decision (∃ i, queue_of p = Some i ∧ live b i).
Proof.
  destruct (queue_of p) as [i|] eqn:Hp; [destruct (decide (live b i)) as [Hl|Hl]|].
  - left. by exists i.
  - right. intros (j & [= <-] & Hj). done.
  - right. by intros (j & ? & _).
Defined.

(** The deliveries that server [s] has not settled, over all queues. *)
Definition unsettled (b : broker) (s : Z) : list Z :=
  map_to_list (queue_heap b) ≫= λ iq, (filter (λ kr, dr_server kr.2 = s) (deliveries iq.2)).*1.

Section facts.
Context `{Json}.
Implicit Types b : broker.

Lemma q_at_heap b i q : queue_heap b !! i = Some q → q_at b i = Some (q_name q, messages q, deliveries q).
Proof. unfold q_at. by intros ->. Qed.

Lemma NoDup_same {A} (l : list A) (x : A) : NoDup l → (∀ y, y ∈ l ↔ y = x) → l = [x].
Proof.
  intros Hn Hl. apply Permutation_singleton_r, NoDup_Permutation; [done|apply NoDup_singleton|].
  intros y. by rewrite Hl, list_elem_of_singleton.
Qed.

Lemma elem_of_spots x iq p :
  p ∈ spots x iq ↔ (p = InQueue iq.1 ∧ x ∈ qp_id <$> messages iq.2) ∨
    ∃ k r, p = InFlight iq.1 k ∧ (k, r) ∈ deliveries iq.2 ∧ qp_id (dr_queued r) = x.
Proof.
  unfold spots. rewrite elem_of_app, 2!list_elem_of_fmap. split.
  - intros [(m & -> & [Hx Hm]%list_elem_of_filter)|([k r] & -> & [Hx Hm]%list_elem_of_filter)]; simpl in *.
    + left. split; [done|]. apply list_elem_of_fmap. by exists m.
    + right. by exists k, r.
  - intros [[-> (m & -> & Hm)%list_elem_of_fmap]|(k & r & -> & Hr & Hx)].
    + left. exists m. split; [done|]. by apply list_elem_of_filter.
    + right. exists (k, r). split; [done|]. by apply list_elem_of_filter.
Qed.

Lemma filter_NoDup_fmap {A C} (f : A → C) (l : list A) (x : C) `{∀ y, Decision (f y = x)} :
  NoDup (f <$> l) → (length (filter (λ y, f y = x) l) ≤ 1)%nat.
Proof.
  induction l as [|y l IH]; simpl; [lia|]. intros [Hy Hl]%NoDup_cons. rewrite filter_cons. case_decide as Hx; [|auto].
  simpl. assert (filter (λ y, f y = x) l = []) as ->; [|simpl; lia]. apply elem_of_nil_inv. intros z [Hz Hin]%list_elem_of_filter.
  apply Hy. apply list_elem_of_fmap. exists z. split; congruence.
Qed.

Lemma short_NoDup {A} (l : list A) : (length l ≤ 1)%nat → NoDup l.
Proof. destruct l as [|x [|y l]]; simpl; [constructor|intros; apply NoDup_singleton|lia]. Qed.

(** The places of a copy are those the books name, in the queues that are left. *)
Lemma elem_of_found b x p :
  inv b → p ∈ found b x ↔ places b !! x = Some p ∧ ∃ i, queue_of p = Some i ∧ live b i.
Proof.
  intros I. unfold found. rewrite list_elem_of_bind. split.
  - intros ([i q] & Hp & [Hi Hl]%elem_of_map_to_list%map_lookup_filter_Some); simpl in *.
    apply q_at_heap in Hi. apply elem_of_spots in Hp as [[-> Hx]|(k & r & -> & Hr & Hx)]; simpl in *; (split; [|by exists i]).
    + by apply (iv_messages _ I _ _ _ _ Hi).
    + subst x. by apply (iv_deliveries _ I _ _ _ _ Hi).
  - intros [Hp (j & Hj & Hl)]. destruct p as [i|i k|e]; simplify_eq/=.
    + destruct (iv_inqueue _ I _ _ Hp) as [[[n ms] ds] Hq]. pose proof Hq as Hq'. unfold q_at in Hq.
      destruct (queue_heap b !! j) as [q|] eqn:Hi; [|done]. injection Hq as Hn Hm Hd. exists (j, q).
      split; [|by apply elem_of_map_to_list, map_lookup_filter_Some]. apply elem_of_spots. left. split; [done|]. simpl. rewrite Hm.
      by apply (iv_messages _ I _ _ _ _ Hq').
    + destruct (iv_inflight _ I _ _ _ Hp) as (n & ms & ds & r & Hq & Hr & Hx). unfold q_at in Hq.
      destruct (queue_heap b !! j) as [q|] eqn:Hi; [|done]. injection Hq as Hn Hm Hd. exists (j, q).
      split; [|by apply elem_of_map_to_list, map_lookup_filter_Some]. apply elem_of_spots. right. exists k, r. simpl. by rewrite Hd.
Qed.

Lemma NoDup_spots b i q x : inv b → queue_heap b !! i = Some q → NoDup (spots x (i, q)).
Proof.
  intros I Hi%q_at_heap. unfold spots. simpl. apply NoDup_app. split_and!.
  - apply short_NoDup. rewrite length_fmap. apply filter_NoDup_fmap. by apply (iv_messages _ I _ _ _ _ Hi).
  - intros p (m & -> & _)%list_elem_of_fmap (kr & ? & _)%list_elem_of_fmap. done.
  - destruct (iv_deliveries _ I _ _ _ _ Hi) as [Hn _].
    assert (NoDup (filter (λ kr, qp_id (dr_queued kr.2) = x) (deliveries q)).*1) as Hf
      by (eapply sublist_NoDup; [exact Hn|]; apply fmap_sublist, sublist_filter).
    replace ((λ kr : Z * DeliveryRecord, InFlight i kr.1) <$> filter (λ kr, qp_id (dr_queued kr.2) = x) (deliveries q))
      with (InFlight i <$> (filter (λ kr, qp_id (dr_queued kr.2) = x) (deliveries q)).*1) by (by rewrite <- list_fmap_compose).
    apply NoDup_fmap_2; [|done]. by intros ?? [= ->].
Qed.

Lemma NoDup_found b x : inv b → NoDup (found b x).
Proof.
  intros I. apply NoDup_bind; [| |apply NoDup_map_to_list].
  - intros [i q] [j r] p [Hi _]%elem_of_map_to_list%map_lookup_filter_Some [Hj _]%elem_of_map_to_list%map_lookup_filter_Some Hp Hp'.
    assert (i = j) as -> by (apply elem_of_spots in Hp, Hp'; destruct Hp as [[-> _]|(? & ? & -> & _)];
      destruct Hp' as [[? _]|(? & ? & ? & _)]; simpl in *; congruence). congruence.
  - intros [i q] [Hi _]%elem_of_map_to_list%map_lookup_filter_Some. by eapply NoDup_spots.
Qed.

Lemma found_spec b x :
  inv b → found b x =
  match places b !! x with
  | Some p => if decide (∃ i, queue_of p = Some i ∧ live b i) then [p] else []
  | None => []
  end.
Proof.
  intros I. pose proof (NoDup_found b x I) as Hn.
  destruct (places b !! x) as [p|] eqn:Hp; [case_decide as Hd|].
  - apply NoDup_same; [done|]. intros y. rewrite elem_of_found, Hp by done. split; [by intros [[= <-] _]|by intros ->].
  - apply elem_of_nil_inv. intros y. rewrite elem_of_found, Hp by done. by intros [[= <-] ?].
  - apply elem_of_nil_inv. intros y. rewrite elem_of_found, Hp by done. by intros [].
Qed.

Lemma elem_of_unsettled b s k :
  inv b → k ∈ unsettled b s ↔ ∃ i, flights b !! k = Some (i, s).
Proof.
  intros I. unfold unsettled. rewrite list_elem_of_bind. split.
  - intros ([i q] & ([k' r] & -> & [Hs Hr]%list_elem_of_filter)%list_elem_of_fmap & Hi%elem_of_map_to_list). simpl in *.
    apply q_at_heap in Hi. destruct (iv_deliveries _ I _ _ _ _ Hi) as [_ Hd]. exists i. rewrite <- Hs. by apply Hd.
  - intros [i Hf]. destruct (iv_flights _ I _ _ _ Hf) as (_ & n & ms & ds & r & Hq & Hr & Hs). unfold q_at in Hq.
    destruct (queue_heap b !! i) as [q|] eqn:Hi; [|done]. injection Hq as _ _ Hd. exists (i, q).
    split; [|by apply elem_of_map_to_list]. apply list_elem_of_fmap. exists (k, r). split; [done|].
    apply list_elem_of_filter. simpl. by rewrite Hd.
Qed.

Lemma NoDup_unsettled b s : inv b → NoDup (unsettled b s).
Proof.
  intros I. unfold unsettled. apply NoDup_bind; [| |apply NoDup_map_to_list].
  - intros [i q] [j r] k Hi%elem_of_map_to_list Hj%elem_of_map_to_list
      ([k1 r1] & -> & [_ H1]%list_elem_of_filter)%list_elem_of_fmap ([k2 r2] & He & [_ H2]%list_elem_of_filter)%list_elem_of_fmap.
    simpl in *. subst k2. pose proof (q_at_heap _ _ _ Hi) as Hi'. pose proof (q_at_heap _ _ _ Hj) as Hj'.
    destruct (iv_deliveries _ I _ _ _ _ Hi') as [_ Hd1]. destruct (iv_deliveries _ I _ _ _ _ Hj') as [_ Hd2].
    destruct (Hd1 _ _ H1) as [_ Hf1]. destruct (Hd2 _ _ H2) as [_ Hf2]. rewrite Hf1 in Hf2. by simplify_eq.
  - intros [i q] Hi%elem_of_map_to_list%q_at_heap. eapply sublist_NoDup; [by apply (iv_deliveries _ I _ _ _ _ Hi)|].
    apply fmap_sublist, sublist_filter.
Qed.

(** The deliveries a server holds are those it counts. *)
Lemma unsettled_count b s v :
  inv b → server_heap b !! s = Some v → zlen (unsettled b s) = _in_flight v ∧ _in_flight v ≤ prefetch v.
Proof.
  intros I Hv. assert (s_at b s = Some (prefetch v, _delivery_queues v, _in_flight v)) as Hs by (unfold s_at; by rewrite Hv).
  destruct (iv_server _ I _ _ _ _ Hs) as (Hf & Hle & _). split; [|done]. rewrite Hf. unfold zlen. f_equal.
  assert (unsettled b s ≡ₚ (map_to_list (_delivery_queues v)).*1) as ->.
  - apply NoDup_Permutation; [by apply NoDup_unsettled|apply NoDup_fst_map_to_list|]. intros k. rewrite elem_of_unsettled by done.
    rewrite list_elem_of_fmap. split.
    + intros [i Hk]. destruct (iv_flights _ I _ _ _ Hk) as (_ & n & ms & ds & r & Hq & _). exists (k, n). split; [done|].
      apply elem_of_map_to_list, (iv_owner _ I _ _ _ _ _ _ Hs). eauto.
    + intros ([k' n] & -> & Hk%elem_of_map_to_list). apply (iv_owner _ I _ _ _ _ _ _ Hs) in Hk as (i & _ & _ & Hk & _). eauto.
  - by rewrite length_fmap, length_map_to_list.
Qed.
End facts.

Section theorems.
Context `{Json}.
Implicit Types b : broker.

(** A copy that is in no queue was in one that is removed. *)
Lemma dropped_queue b p i (C : Prop) :
  routed None b → ¬ (∃ i, queue_of p = Some i ∧ live b i) → queue_of p = Some i → is_Some (q_at b i) →
  C ∨ [] = [] :> list place ∧ ∃ q sub, queue_heap b !! i = Some q ∧ dict_get (_queues (topo b)) (q_name q) ≠ Some i ∧
    sub_mode sub = BROADCAST ∧ sub_reliable sub = false ∧ _event_queue_name sub = Some (q_name q).
Proof.
  intros R Hl Hp [x Hq]. right. split; [done|]. unfold q_at in Hq. destruct (queue_heap b !! i) as [q|] eqn:Hi; [|done].
  assert (dict_get (_queues (topo b)) (q_name q) ≠ Some i) as Hg.
  { intros Hg. apply Hl. exists i. split; [done|]. unfold live. by rewrite Hi. }
  destruct (rt_lasting _ _ R i (q_name q)) as [|(sub & Hs)]; [by rewrite Hi|done|]. by exists q, sub.
Qed.

(** C22: [InMemoryBroker] duplicates nothing, and loses nothing but with an
    ephemeral queue. In every reachable state, a copy of a publication that was
    accepted and has not ended (settled, dead-lettered or expired) is in exactly
    one place among the queues in [_queues], waiting once in one queue or once in
    flight to one server; a copy that has ended is in none. The exception is a
    copy whose queue was removed: it is gone, and the queue was that of a broadcast
    subscription that is not reliable. A queue leaves [_queues] in a step only
    when it is ephemeral and a server closes that was its last consumer while no
    other registered server has the subscription. Each attempt of a copy is
    delivered at most once, and the flag [redelivered] of a waiting copy says
    whether an attempt was made before. *)
Theorem broker_conserves m a b :
  b_reachable m a b →
  (∀ x, match places b !! x with
        | None | Some (Ended _) => found b x = []
        | Some (InQueue i as p) | Some (InFlight i _ as p) =>
            found b x = [p] ∨
            found b x = [] ∧ ∃ q sub, queue_heap b !! i = Some q ∧ dict_get (_queues (topo b)) (q_name q) ≠ Some i ∧
              sub_mode sub = BROADCAST ∧ sub_reliable sub = false ∧ _event_queue_name sub = Some (q_name q)
        end) ∧
  (∀ b' n i, bstep b b' → dict_get (_queues (topo b)) n = Some i →
     dict_get (_queues (topo b')) n = Some i ∨
     n ∈ _ephemeral_queues (topo b) ∧
     ∃ c j q v, c ∈ closers b ∧ queue_heap b !! j = Some q ∧ q_name q = n ∧ server_heap b !! cr_server c = Some v ∧
       (∀ kc, kc ∈ consumers q → kc.1 = replica_id v) ∧
       ∀ t w, t ∈ _servers b → t ≠ cr_server c → server_heap b !! t = Some w → n ∉ _queue_names w) ∧
  NoDup (deliveries_made b) ∧
  (∀ i q w, queue_heap b !! i = Some q → w ∈ messages q →
    qp_redelivered w = (1 <? qp_attempt w) ∧ (qp_id w, qp_attempt w) ∉ deliveries_made b).
Proof.
  intros Hb. destruct (reachable_routed m a b Hb) as [(I & _) R]. split_and!; [| |by apply iv_made|].
  - intros x. rewrite (found_spec b x I). destruct (places b !! x) as [p|] eqn:Hp; [|done].
    destruct (decide (∃ i, queue_of p = Some i ∧ live b i)) as [Hl|Hl].
    { destruct p; [by left..|]. by destruct Hl as (? & ? & _). }
    destruct p as [i|i k|e]; [| |done]; (eapply dropped_queue; [done|exact Hl|done|]).
    + by eapply iv_inqueue.
    + destruct (iv_inflight _ I _ _ _ Hp) as (n & ms & ds & r & Hq & _). by eexists.
  - intros b' n i Hs Hn. destruct (step_removes b b' n i Hs Hn) as [|(c & Hc & He & (j & q & v & Hr) & Ho)]; [by left|right].
    split; [done|]. exists c, j, q, v. naive_solver.
  - intros i q w Hi%q_at_heap Hw.
    destruct (iv_tries _ I _ _ _ _ _ Hi Hw) as [(_ & _ & Hr) Ha]. split; [done|]. intros Hd%Ha. lia.
Qed.

(** The end of a copy is final: whatever the broker, its servers and its clients do
    next, a copy that was acknowledged, rejected, dead-lettered or found expired
    is never put back into a queue and never delivered again. *)
Theorem ended_is_final m a b b' x e :
  b_reachable m a b → rtc bstep b b' → places b !! x = Some (Ended e) →
  places b' !! x = Some (Ended e) ∧ found b' x = [].
Proof.
  intros Hb Hs Hx. destruct (reachable_good (F := ∅) m a b eq_refl Hb) as (I & L & _).
  assert (good (F := {[ x := e ]}) b) as G
    by (split_and!; [done|done|]; intros y d; rewrite lookup_singleton_Some; by intros [<- <-]).
  clear Hb I L Hx. assert (good (F := {[ x := e ]}) b') as (I & _ & K)
    by (induction Hs as [b|b b1 b' Hs _ IH]; [done|]; by apply IH, (bstep_good b)).
  assert (places b' !! x = Some (Ended e)) as Hx by (apply K; by rewrite lookup_singleton_eq).
  split; [done|]. rewrite found_spec, Hx by done. case_decide as Hd; [|done]. by destruct Hd as (? & ? & _).
Qed.

(** The prefetch window holds: in every reachable state the deliveries that a server
    has been given and has not settled, counted over all queues, are as many as
    its [_in_flight] says, and never more than its [prefetch]. *)
Theorem prefetch_bound m a b s v :
  b_reachable m a b → server_heap b !! s = Some v → zlen (unsettled b s) = _in_flight v ∧ _in_flight v ≤ prefetch v.
Proof.
  intros Hb Hv. destruct (reachable_good (F := ∅) m a b eq_refl Hb) as (I & _). by apply unsettled_count.
Qed.

(** The outcomes of [settle]: an acknowledged or rejected delivery ends there. A retry
    or an unsettled delivery goes to the back of its queue as the next attempt
    while attempts are left and the queue has room, and is dead-lettered
    otherwise. In each case the server has one delivery less, other queues are
    as they were, and settling the same delivery again raises
    [DuplicateSettlementError] and changes nothing. *)
Theorem settle_outcomes m a b s v key name i q r o :
  b_reachable m a b → server_heap b !! s = Some v → _delivery_queues v !! key = Some name →
  dict_get (_queues (topo b)) name = Some i → queue_heap b !! i = Some q → dict_get (deliveries q) key = Some r →
  let w := dr_queued r in
  let retried := redelivers o && (qp_attempt w <? max_delivery_attempts b) && (zlen (messages q) <? max_queue_messages b) in
  ∃ b', settle s key o b = (Ok tt, b') ∧
    q_at b' i = Some (q_name q, if retried then messages q ++ [bump w] else messages q, dict_del (deliveries q) key) ∧
    (∀ j, j ≠ i → q_at b' j = q_at b j) ∧
    places b' !! qp_id w = Some (if retried then InQueue i else Ended (ending_of o)) ∧
    dead_letters b' = dead_letters (if redelivers o && negb retried then push_dead (dr_delivery r) b else b) ∧
    s_at b' s = Some (prefetch v, delete key (_delivery_queues v), _in_flight v - 1) ∧
    ∀ o', settle s key o' b' = (Err DuplicateSettlementError, b').
Proof.
  intros Hb Hv Hk Hn Hi Hr w retried. pose proof (reachable_good (F := ∅) m a b eq_refl Hb) as G.
  destruct (settle_run s key i v o b name q r G Hv Hk Hn Hi Hr) as (b' & Hrun & [Sg Sq So Sp Ss Sd]).
  assert (messages <$> queue_heap b !! i = Some (messages q)) as Hm by (by rewrite Hi).
  assert (s_at b' s = Some (prefetch v, delete key (_delivery_queues v), _in_flight v - 1)) as Hs'
    by (apply Ss; unfold s_at; by rewrite Hv).
  exists b'. split_and!; [done|by apply Sq, q_at_heap|done| |by apply Sd|done|].
  { rewrite (Sp _ Hm). by rewrite lookup_insert_eq. }
  intros o'. unfold s_at in Hs'. destruct (server_heap b' !! s) as [v'|] eqn:Hv'; [|done]. injection Hs' as _ Hd' _.
  unfold settle. rewrite (M_bind_run _ _ _ _ _ (server_at_run _ _ _ Hv')), Hd', lookup_delete_eq. done.
Qed.

(** C23: Finding the queue of a call: [_routes] takes the first registered label that,
    with a dot, starts the routing key, and this is the same as looking up the
    label of the target's service in the table: no other service is ever
    found, however their names overlap. *)
Theorem rpc_routes_exact m a b t :
  b_reachable m a b → valid_target t →
  _routes (rpc_routing_key t) None (topo b) =
    match dict_get (_rpc_queues (topo b)) (label (rpc_service t)) with Some n => {[ n ]} | None => ∅ end.
Proof. intros Hb Ht. destruct (reachable_routed m a b Hb) as [_ R]. by eapply routes_rpc. Qed.

(** [publish] does what it promises when no queue is half removed: it raises
    [TransportStateError] when the broker is closed, [TransportUnroutableError]
    for a mandatory publication without route, [TransportCapacityError] when a
    queue on its route is full, and then nothing has changed; otherwise every
    queue on its route gets exactly one copy at its end, the other queues
    nothing, and the receipt says whether there was one. It raises nothing else. *)
Theorem publish_total m a b now p :
  b_reachable m a b → (∀ n, ¬ removing b n) → valid_publication p → dt_offset now = Some 0 →
  let routes := elements (_routes (pub_routing_key p) (pub_native p) (topo b)) in
  if _closed b then publish now p b = (Err TransportStateError, b)
  else if pub_mandatory p && bool_decide (routes = []) then publish now p b = (Err TransportUnroutableError, b)
  else if existsb (full_at b) routes then publish now p b = (Err TransportCapacityError, b)
  else ∃ r b', publish now p b = (Ok r, b') ∧ rc_message_id r = pub_message_id p ∧
         rc_routed r = negb (bool_decide (routes = [])) ∧ got_copy b b' p routes.
Proof.
  intros Hb Hno Hp Hnow routes. destruct (reachable_routed m a b Hb) as [(_ & L & _) R].
  assert (∀ n, n ∈ routes → here_named b n) as Hr by (intros n; unfold routes; rewrite elem_of_elements; by apply routes_named).
  unfold publish, _require_open. autorewrite with mrun. destruct (_closed b); [done|]. autorewrite with mrun. fold routes.
  destruct (pub_mandatory p && bool_decide (routes = [])); [done|].
  rewrite (M_bind_run _ _ _ _ _ (any_full_run b routes L Hr)). autorewrite with mrun. destruct (existsb _ routes); [done|].
  destruct (enqueue_all p routes b L (NoDup_elements _) Hr) as (b' & Hrun & Hc). rewrite (M_bind_run _ _ _ _ _ Hrun).
  destruct (receipt_ok (pub_message_id p) now (negb (bool_decide (routes = []))) Hnow) as (r & Hre & ? & ?).
  exists r, b'. autorewrite with mrun. by rewrite Hre.
Qed.
End theorems.

(** ** Concrete runs *)

(** Two replicas of a service, each taking one delivery at a time. *)
Definition two_replicas : list action :=
  [NewServer (str "a") 1; NewServer (str "b") 1; Prepare 0 []; Prepare 1 []; Start 0; Start 1; Run 2].
(** One message comes, is delivered and acknowledged; then the queue is polled again. *)
Definition one_message (k : nat) : list action :=
  [Call 0; Wake 2; Run 2; Run 2; Settle 1 (4 + 2 * Z.of_nat k) ACK; Wake 2; Run 2].
(** Who could take the next message, and who got it. *)
Definition ready (b : broker) : list Z :=
  match queue_heap b !! 2 with
  | Some q => cs_server <$> filter (λ c, eligible b c = true) (consumers q).*2
  | None => []
  end.
Definition receiver (b : broker) : option (list Z) :=
  b' ← run [Call 0; Wake 2; Run 2] b; Some ((map_to_list (flights b')).*2.*2).

(** The next rounds: who was ready, and who received the message. *)
Fixpoint rounds (k n : nat) (b : broker) : list (list Z * option (list Z)) :=
  match n with
  | O => []
  | S n => (ready b, receiver b) :: match run (one_message k) b with Some b' => rounds (S k) n b' | None => [] end
  end.

Definition delivered : list action := two_replicas ++ [Call 7; Wake 2; Run 2].

(** A server with an ephemeral queue closes; its queue is half removed. *)
Definition half_removed : list action :=
  [NewServer (str "a") 1; Prepare 0 [news]; Start 0; Run 2; Close 0; CloseStep 0; CloseStep 0; CloseStep 0].

(** Rotation starves a replica: with two replicas that are both ready for each
    message, twenty messages that come one at a time all go to the second one.
    [_next_consumer] moves the cursor whenever the queue is polled, also when
    there is no message: the poll after each settlement undoes the rotation. *)
Theorem rotation_starves : rounds 0 20 (after two_replicas) = replicate 20 ([0; 1], Some [1]).
Proof. vm_compute. reflexivity. Qed.

(** A publication can meet a queue that is half removed: while [_remove_queue] waits
    for the queue's task, the queue is gone from [_queues] and still on the
    routes, and [publish] raises [KeyError], which no caller expects. *)
Theorem removal_race :
  ∃ b b', run half_removed empty_broker = Some b ∧ b_reachable (PyInt 10) (PyInt 2) b ∧ _closed b = false ∧
    (publish noon (event_message 9) b).1 = Err MsKeyError ∧
    act (CloseStep 0) b = Some b' ∧
    (publish noon (event_message 9) b').1 = Ok {| rc_message_id := 9; rc_accepted_at := noon; rc_routed := false |}.
Proof.
  exists (after half_removed), (after (half_removed ++ [CloseStep 0])).
  split_and!; [apply after_run|apply after_reachable| | |apply after_snoc|]; vm_compute; reflexivity.
Qed.

Lemma broker_conserves_witness :
  b_reachable (PyInt 10) (PyInt 2) (after delivered) ∧ found (after delivered) 3 = [InFlight 2 4].
Proof.
  split; [apply after_reachable|].
  destruct (broker_conserves (PyInt 10) (PyInt 2) (after delivered) (after_reachable _)) as [Hf _].
  specialize (Hf 3). assert (places (after delivered) !! 3 = Some (InFlight 2 4)) as Hp by (vm_compute; reflexivity).
  rewrite Hp in Hf. destruct Hf as [Hf|(_ & q & sub & Hq & Hg & _)]; [exact Hf|]. exfalso. vm_compute in Hq.
  injection Hq as <-. apply Hg. vm_compute. reflexivity.
Defined.

Lemma ended_is_final_witness :
  found (after (delivered ++ [Settle 1 4 ACK; Run 2])) 3 = [].
Proof.
  refine (proj2 (ended_is_final (PyInt 10) (PyInt 2) (after (delivered ++ [Settle 1 4 ACK]))
    (after (delivered ++ [Settle 1 4 ACK; Run 2])) 3 EndAcked (after_reachable _) _ _)).
  - eapply rtc_l; [apply (act_step (Run 2)); vm_compute; reflexivity|apply rtc_refl].
  - vm_compute. reflexivity.
Defined.

Lemma prefetch_bound_witness : ∃ v, server_heap (after delivered) !! 1 = Some v ∧ _in_flight v = 1 ∧ _in_flight v ≤ prefetch v.
Proof.
  eexists. split; [vm_compute; reflexivity|]. split; [reflexivity|].
  apply (prefetch_bound (PyInt 10) (PyInt 2) (after delivered) 1 _ (after_reachable _)). vm_compute. reflexivity.
Defined.

Lemma settle_outcomes_witness :
  ∃ b', settle 1 4 RETRY (after delivered) = (Ok tt, b') ∧ settle 1 4 ACK b' = (Err DuplicateSettlementError, b').
Proof.
  assert ((server_heap (after delivered) !! 1 ≫= λ v, _delivery_queues v !! 4) = Some (rpc_queue_name orders)) as Hk
    by (vm_compute; reflexivity).
  assert (qp_id ∘ dr_queued <$> (queue_heap (after delivered) !! 2 ≫= λ q, dict_get (deliveries q) 4) = Some 3) as Hr
    by (vm_compute; reflexivity).
  destruct (server_heap (after delivered) !! 1) as [v|] eqn:Hv; [|discriminate Hk].
  destruct (queue_heap (after delivered) !! 2) as [q|] eqn:Hq; [|discriminate Hr]. simpl in Hk, Hr.
  destruct (dict_get (deliveries q) 4) as [r|] eqn:Hd; [|discriminate Hr].
  destruct (settle_outcomes (PyInt 10) (PyInt 2) (after delivered) 1 v 4 (rpc_queue_name orders) 2 q r RETRY (after_reachable _)
    Hv Hk ltac:(vm_compute; reflexivity) Hq Hd) as (b' & Hrun & _ & _ & _ & _ & _ & Hagain).
  exists b'. split; [exact Hrun|apply Hagain].
Defined.

Lemma rpc_routes_exact_witness : elements (_routes (rpc_routing_key get_order) None (topo (after delivered))) = [rpc_queue_name orders].
Proof.
  rewrite (rpc_routes_exact (PyInt 10) (PyInt 2) (after delivered) get_order (after_reachable _)).
  - vm_compute. reflexivity.
  - split; [apply orders_valid|]. exists (PyStr (str "get")), (PyInt 1). vm_compute. reflexivity.
Defined.

Lemma publish_total_witness :
  ∃ r b', publish noon (rpc_message 8) (after delivered) = (Ok r, b') ∧ rc_routed r = true ∧
    got_copy (after delivered) b' (rpc_message 8) [rpc_queue_name orders].
Proof.
  pose proof (publish_total (PyInt 10) (PyInt 2) (after delivered) noon (rpc_message 8) (after_reachable _)) as Hp.
  assert (closers (after delivered) = []) as Hc by (vm_compute; reflexivity).
  specialize (Hp ltac:(intros n (j & c & Hj & _); by rewrite Hc in Hj) (rpc_message_valid 8) eq_refl).
  assert (elements (_routes (pub_routing_key (rpc_message 8)) (pub_native (rpc_message 8)) (topo (after delivered))) =
    [rpc_queue_name orders]) as Hr by (vm_compute; reflexivity). rewrite Hr in Hp. cbv zeta in Hp.
  assert (_closed (after delivered) = false) as Hcl by (vm_compute; reflexivity). rewrite Hcl in Hp.
  assert (existsb (full_at (after delivered)) [rpc_queue_name orders] = false) as Hfu by (vm_compute; reflexivity).
  rewrite Hfu in Hp. destruct Hp as (r & b' & H1 & _ & H2 & H3). exists r, b'.
  split; [exact H1|]. split; [exact H2|exact H3].
Defined.
