(* ===== verification/MsCodec.v ===== *)
(** * Microservices: the JSON codec

    [codec.py] of [tori_py_microservices]. The JSON libraries, [msgspec]'s
    conversion of objects and the text of timestamps are the class [WireText];
    [json_pairs] is [json.loads] before its hooks are applied, with the members
    of an object in their order, duplicates included. *)

From Stdlib Require Import ZArith Lia.
From stdpp Require Import base tactics list gmap strings.
From S2P Require Import Prelude MsWire.
Local Open Scope Z_scope.

Class WireText := {
  isoformat : datetime → pystr;
  fromisoformat : pystr → option datetime;
  to_builtins : wvalue → option wvalue;
  json_pairs : bytes → option wvalue;
  json_decode : bytes → option wvalue
}.

#[export] Instance wkey_eq_dec : EqDecision wkey.
Proof. solve_decision. Defined.

(** ** Texts *)

(** [s.replace(old, new)] for a non-empty [old]; each round takes a character. *)
Fixpoint replace_go (old new : pystr) (fuel : nat) (s : pystr) : pystr :=
  match fuel, s with
  | S fuel, c :: r => if decide (old `prefix_of` s) then new ++ replace_go old new fuel (drop (length old) s)
                      else c :: replace_go old new fuel r
  | _, _ => s
  end.
Definition str_replace (old new s : pystr) : pystr := replace_go old new (length s) s.

Definition hex_digit (d : Z) : Z := if d <? 10 then 48 + d else 87 + d.
Definition digit_value (c : Z) : Z := if c <? 58 then c - 48 else c - 87.

(** The last [n] hexadecimal digits of a number, and the number of a text. *)
Fixpoint hex_text (n : nat) (u : Z) : pystr :=
  match n with O => [] | S n => hex_text n (u / 16) ++ [hex_digit (u mod 16)] end.
Definition hex_value (s : pystr) : Z := foldl (λ a c, a * 16 + digit_value c) 0 s.

(** [str(uuid)] *)
Definition uuid_text (u : uuid) : pystr :=
  let h := hex_text 32 u in
  take 8 h ++ 45 :: take 4 (drop 8 h) ++ 45 :: take 4 (drop 12 h) ++ 45 :: take 4 (drop 16 h) ++ 45 :: drop 20 h.
Arguments uuid_text : simpl never.

Section codec.
Context `{Json} `{WireText}.

(** [d.astimezone(UTC)] of an aware datetime. *)
Definition to_utc (d : datetime) : datetime :=
  match dt_offset d with Some o => Datetime (dt_wall d - o) (Some 0) | None => d end.

Definition _timestamp (d : datetime) : pystr := str_replace (str "+00:00") (str "Z") (isoformat (to_utc d)).

(** ** Canonical values *)

Definition key_leb (a b : wkey) : bool :=
  match a, b with KeyStr a, KeyStr b => str_leb a b | _, _ => true end.

Fixpoint insert_item (x : wkey * wvalue) (l : list (wkey * wvalue)) : list (wkey * wvalue) :=
  match l with
  | [] => [x]
  | y :: r => if key_leb x.1 y.1 then x :: l else y :: insert_item x r
  end.

(** [dict(sorted(items))]; the keys of a mapping are distinct. *)
Definition sort_items (l : list (wkey * wvalue)) : list (wkey * wvalue) := foldr insert_item [] l.

Definition canonical_key (k : wkey) : result ms_error wkey :=
  match k with KeyStr (c :: r) => Ok k | _ => Err WireEncodingError end.

Fixpoint _canonical_builtins (limits : MessageLimits) (depth : Z) (v : wvalue) : result ms_error wvalue :=
  _ ← raise_if (max_nesting_depth limits <? depth) WireSizeLimitError;
  match v with
  | WFloat _ finite => _ ← raise_if (negb finite) WireEncodingError; Ok v
  | WNone | WBool _ | WInt _ | WStr _ => Ok v
  | WMap items =>
      _ ← raise_if (max_collection_items limits <? zlen items) WireSizeLimitError;
      items ← (fix go (l : list (wkey * wvalue)) : result ms_error (list (wkey * wvalue)) :=
        match l with
        | [] => Ok []
        | (k, x) :: l =>
            k ← canonical_key k;
            x ← _canonical_builtins limits (depth + 1) x;
            r ← go l; Ok ((k, x) :: r)
        end) items;
      Ok (WMap (sort_items items))
  | WList _ items =>
      _ ← raise_if (max_collection_items limits <? zlen items) WireSizeLimitError;
      items ← (fix go (l : list wvalue) : result ms_error (list wvalue) :=
        match l with
        | [] => Ok []
        | x :: l =>
            x ← _canonical_builtins limits (depth + 1) x;
            r ← go l; Ok (x :: r)
        end) items;
      Ok (WList false items)
  | WOther _ => Err WireEncodingError
  end.

Definition _canonical (limits : MessageLimits) (v : wvalue) : result ms_error wvalue :=
  match v with
  | WMap _ => _canonical_builtins limits 0 v
  | _ => match to_builtins v with
         | Some b => _canonical_builtins limits 0 b
         | None => Err WireEncodingError
         end
  end.

(** The items of a mapping; headers are always one. *)
Definition items_of (v : wvalue) : list (wkey * wvalue) := match v with WMap l => l | _ => [] end.

Definition _plain_headers (limits : MessageLimits) (headers : wvalue) : result ms_error wvalue :=
  _ ← raise_if (max_header_count limits <? zlen (items_of headers)) WireSizeLimitError;
  v ← _canonical limits headers;
  match v with WMap _ => Ok v | _ => Err WireEncodingError end.

Definition _checked_headers (limits : MessageLimits) (headers : wvalue) : result ms_error wvalue :=
  plain ← _plain_headers limits headers;
  data ← json_encode plain;
  _ ← raise_if (max_header_bytes limits <? zlen data) WireSizeLimitError;
  Ok plain.

(** ** Limits of whole envelopes *)

Fixpoint _check_limits (limits : MessageLimits) (depth : Z) (v : wvalue) : result ms_error unit :=
  _ ← raise_if (max_nesting_depth limits <? depth) WireSizeLimitError;
  match v with
  | WFloat _ finite => raise_if (negb finite) WireSizeLimitError
  | WMap items =>
      _ ← raise_if (max_collection_items limits <? zlen items) WireSizeLimitError;
      (fix go (l : list (wkey * wvalue)) : result ms_error unit :=
        match l with
        | [] => Ok tt
        | (k, x) :: l =>
            _ ← match k with KeyStr _ => Ok tt | _ => Err WireDecodingError end;
            _ ← _check_limits limits (depth + 1) x;
            go l
        end) items
  | WList false items =>
      _ ← raise_if (max_collection_items limits <? zlen items) WireSizeLimitError;
      (fix go (l : list wvalue) : result ms_error unit :=
        match l with
        | [] => Ok tt
        | x :: l => _ ← _check_limits limits (depth + 1) x; go l
        end) items
  | _ => Ok tt
  end.

(** [except (TypeError, ValueError, msgspec.EncodeError)]; the errors of this
    package that concern values are value errors. *)
Definition encode_failure (e : ms_error) : ms_error :=
  match e with
  | WireSizeLimitError => WireSizeLimitError
  | MsTypeError | MsValueError | MsgspecError | IdentityValidationError | WireValidationError | WireEncodingError
  | WireDecodingError | WireDeadlineError => WireEncodingError
  | _ => e
  end.

Definition on_error {A} (f : ms_error → ms_error) (r : result ms_error A) : result ms_error A :=
  match r with Ok a => Ok a | Err e => Err (f e) end.

Definition _encode_json (limits : MessageLimits) (v : wvalue) : result ms_error bytes :=
  data ← on_error encode_failure (_ ← _check_limits limits 0 v; json_encode v);
  _ ← raise_if (max_envelope_bytes limits <? zlen data) WireSizeLimitError;
  Ok data.

(** The hooks of [json.loads]: no member twice, no number that is not finite. *)
Fixpoint _reject_duplicate_members (seen : list wkey) (l : list (wkey * wvalue)) : result ms_error unit :=
  match l with
  | [] => Ok tt
  | (k, _) :: l => _ ← raise_if (bool_decide (k ∈ seen)) MsValueError; _reject_duplicate_members (k :: seen) l
  end.

Fixpoint loads_hooks (v : wvalue) : result ms_error unit :=
  match v with
  | WFloat _ finite => raise_if (negb finite) MsValueError
  | WMap items =>
      _ ← (fix go (l : list (wkey * wvalue)) : result ms_error unit :=
        match l with [] => Ok tt | (_, x) :: l => _ ← loads_hooks x; go l end) items;
      _reject_duplicate_members [] items
  | WList _ items =>
      (fix go (l : list wvalue) : result ms_error unit :=
        match l with [] => Ok tt | x :: l => _ ← loads_hooks x; go l end) items
  | _ => Ok tt
  end.

(** A text that is not JSON is one error, whoever finds it. *)
Definition parsed {A} (o : option A) : result ms_error A :=
  match o with Some a => Ok a | None => Err WireDecodingError end.

Definition _decode_json (limits : MessageLimits) (data : bytes) : result ms_error (list (wkey * wvalue)) :=
  _ ← raise_if (max_envelope_bytes limits <? zlen data) WireSizeLimitError;
  pairs ← parsed (json_pairs data);
  _ ← on_error (λ _, WireDecodingError) (loads_hooks pairs);
  v ← parsed (json_decode data);
  match v with
  | WMap items => _ ← _check_limits limits 0 v; Ok items
  | _ => Err WireDecodingError
  end.

(** ** Fields *)

Definition item (name : string) (v : wvalue) : wkey * wvalue := (KeyStr (str name), v).
Definition field (items : list (wkey * wvalue)) (name : string) : option wvalue := dict_get items (KeyStr (str name)).
(** [value[name]] *)
Definition member (items : list (wkey * wvalue)) (name : string) : result ms_error wvalue :=
  match field items name with Some v => Ok v | None => Err MsKeyError end.

Definition _require_fields (items : list (wkey * wvalue)) (required : list string) : result ms_error unit :=
  raise_if (existsb (λ n, negb (bool_decide (is_Some (field items n)))) required ||
            existsb (λ kv, negb (bool_decide (kv.1 ∈ (λ n, KeyStr (str n)) <$> required))) items) WireDecodingError.

Definition _string (v : wvalue) : result ms_error pystr :=
  match v with WStr s => Ok s | _ => Err WireDecodingError end.

(** [UUID(text)] is refused unless its canonical text is the given one. *)
Definition _uuid (v : wvalue) : result ms_error uuid :=
  text ← _string v;
  let u := hex_value (filter (λ c, c ≠ 45) (text : list Z)) in
  if bool_decide (uuid_text u = text) then Ok u else Err WireDecodingError.

Definition _timestamp_value (v : wvalue) : result ms_error datetime :=
  text ← _string v;
  d ← parsed (fromisoformat (str_replace (str "Z") (str "+00:00") text));
  _ ← raise_if (bool_decide (dt_offset d ≠ Some 0)) WireDecodingError;
  Ok d.

Definition _positive_int (v : wvalue) : result ms_error Z :=
  match v with WInt n => _ ← raise_if (n <=? 0) WireDecodingError; Ok n | _ => Err WireDecodingError end.

Definition _wire_service (s : ServiceIdentity) : list (wkey * wvalue) :=
  [item "namespace" (WStr (namespace s)); item "service" (WStr (svc_name s));
   item "contract_version" (WInt (contract_version s))].

Definition _service (items : list (wkey * wvalue)) : result ms_error ServiceIdentity :=
  _ ← raise_if (existsb (λ n, negb (bool_decide (is_Some (field items n)))) ["namespace"; "service"; "contract_version"]%string)
        WireDecodingError;
  ns ← member items "namespace"; ns ← _string ns;
  n ← member items "service"; n ← _string n;
  v ← member items "contract_version"; v ← _positive_int v;
  ServiceIdentity_new (PyStr ns) (PyStr n) (PyInt v).

(** [except WireSizeLimitError: raise], [except (IdentityValidationError,
    WireValidationError)] *)
Definition decode_failure (e : ms_error) : ms_error :=
  match e with
  | IdentityValidationError | WireValidationError | WireEncodingError | WireDecodingError | WireDeadlineError => WireDecodingError
  | _ => e
  end.

Definition _headers (limits : MessageLimits) (v : wvalue) : result ms_error wvalue :=
  match v with
  | WMap _ =>
      frozen ← on_error decode_failure (freeze_headers v (Some limits));
      plain ← _plain_headers limits frozen;
      data ← json_encode plain;
      _ ← raise_if (max_header_bytes limits <? zlen data) WireSizeLimitError;
      Ok frozen
  | _ => Err WireDecodingError
  end.

Definition _remote_error (limits : MessageLimits) (v : wvalue) : result ms_error RemoteRpcErrorData :=
  match v with
  | WMap items =>
      _ ← _require_fields items ["code"; "message"; "retryable"; "details"]%string;
      details ← member items "details";
      details ← match details with WMap _ => _headers limits details | _ => Err WireDecodingError end;
      retryable ← member items "retryable";
      retryable ← match retryable with WBool b => Ok b | _ => Err WireDecodingError end;
      on_error decode_failure
        (code ← member items "code"; code ← _string code;
         message ← member items "message"; message ← _string message;
         RemoteRpcErrorData_new (PyStr code) (PyStr message) (PyBool retryable) details (Some limits))
  | _ => Err WireDecodingError
  end.

Definition optional_text (o : option uuid) : wvalue := match o with Some u => WStr (uuid_text u) | None => WNone end.
Definition optional_uuid (v : wvalue) : result ms_error (option uuid) :=
  match v with WNone => Ok None | _ => u ← _uuid v; Ok (Some u) end.

(** ** Requests *)

Definition _REQUEST_FIELDS : list string :=
  ["message_id"; "kind"; "namespace"; "service"; "contract_version"; "method"; "schema_version"; "created_at";
   "deadline_at"; "correlation_id"; "causation_id"; "reply_to"; "headers"; "payload"]%string.

(** The object on the wire, with its headers and payload. *)
Definition request_value (e : RpcRequestEnvelope) (h p : wvalue) : list (wkey * wvalue) :=
  let t := rq_target e in
  [item "message_id" (WStr (uuid_text (rq_message_id e))); item "kind" (WStr (str "rpc_request"))] ++
  _wire_service (rpc_service t) ++
  [item "method" (WStr (rpc_method t)); item "schema_version" (WInt (rpc_schema_version t));
   item "created_at" (WStr (_timestamp (rq_created_at e))); item "deadline_at" (WStr (_timestamp (rq_deadline_at e)));
   item "correlation_id" (WStr (uuid_text (rq_correlation_id e)));
   item "causation_id" (optional_text (rq_causation_id e)); item "reply_to" (WStr (rq_reply_to e));
   item "headers" h; item "payload" p].

Definition encode_request (limits : MessageLimits) (e : RpcRequestEnvelope) : result ms_error bytes :=
  h ← _checked_headers limits (rq_headers e);
  p ← _canonical limits (rq_payload e);
  _encode_json limits (WMap (request_value e h p)).

(** [kind != expected] *)
Definition check_kind (items : list (wkey * wvalue)) (kind : string) : result ms_error unit :=
  k ← member items "kind";
  raise_if (match k with WStr s => negb (bool_decide (s = str kind)) | _ => true end) WireDecodingError.

Definition decode_request (limits : MessageLimits) (data : bytes) : result ms_error RpcRequestEnvelope :=
  v ← _decode_json limits data;
  _ ← _require_fields v _REQUEST_FIELDS;
  causation ← member v "causation_id";
  causation ← optional_uuid causation;
  on_error decode_failure
    (_ ← check_kind v "rpc_request";
     message_id ← member v "message_id"; message_id ← _uuid message_id;
     service ← _service v;
     method ← member v "method"; method ← _string method;
     schema_version ← member v "schema_version"; schema_version ← _positive_int schema_version;
     created_at ← member v "created_at"; created_at ← _timestamp_value created_at;
     deadline_at ← member v "deadline_at"; deadline_at ← _timestamp_value deadline_at;
     correlation_id ← member v "correlation_id"; correlation_id ← _uuid correlation_id;
     reply_to ← member v "reply_to"; reply_to ← _string reply_to; reply_to ← ReplyRoute_new (PyStr reply_to);
     headers ← member v "headers"; headers ← _headers limits headers;
     payload ← member v "payload";
     RpcRequestEnvelope_new (PyUUID message_id) service (PyStr method) (PyInt schema_version) (PyDatetime created_at)
       (PyDatetime deadline_at) (PyUUID correlation_id) (match causation with Some u => PyUUID u | None => PyNone end)
       (Some reply_to) headers payload (Some limits)).

(** ** Responses *)

Definition _RESPONSE_BASE_FIELDS : list string := ["message_id"; "kind"; "correlation_id"; "completed_at"]%string.

Definition response_value (e : RpcResponseEnvelope) (outcome : wkey * wvalue) : list (wkey * wvalue) :=
  [item "message_id" (WStr (uuid_text (rs_message_id e))); item "kind" (WStr (str "rpc_response"));
   item "correlation_id" (WStr (uuid_text (rs_correlation_id e)));
   item "completed_at" (WStr (_timestamp (rs_completed_at e))); outcome].

Definition error_value (d : RemoteRpcErrorData) (h : wvalue) : list (wkey * wvalue) :=
  [item "code" (WStr (rd_code d)); item "message" (WStr (rd_message d)); item "retryable" (WBool (rd_retryable d));
   item "details" h].

Definition encode_response (limits : MessageLimits) (e : RpcResponseEnvelope) : result ms_error bytes :=
  outcome ← match rs_outcome e with
            | inl r => r ← _canonical limits r; Ok (item "result" r)
            | inr d => h ← _checked_headers limits (rd_details d); Ok (item "error" (WMap (error_value d h)))
            end;
  _encode_json limits (WMap (response_value e outcome)).

Definition decode_response (limits : MessageLimits) (data : bytes) : result ms_error RpcResponseEnvelope :=
  v ← _decode_json limits data;
  _ ← raise_if (existsb (λ n, negb (bool_decide (is_Some (field v n)))) _RESPONSE_BASE_FIELDS) WireDecodingError;
  _ ← raise_if (existsb (λ kv, negb (bool_decide (kv.1 ∈ (λ n, KeyStr (str n)) <$>
        (_RESPONSE_BASE_FIELDS ++ ["result"; "error"]%string)))) v) WireDecodingError;
  _ ← check_kind v "rpc_response";
  let result := field v "result" in
  let error := field v "error" in
  _ ← raise_if (bool_decide (is_Some result ↔ is_Some error)) WireDecodingError;
  on_error decode_failure
    (message_id ← member v "message_id"; message_id ← _uuid message_id;
     correlation_id ← member v "correlation_id"; correlation_id ← _uuid correlation_id;
     completed_at ← member v "completed_at"; completed_at ← _timestamp_value completed_at;
     error ← match error with Some x => d ← _remote_error limits x; Ok (Some d) | None => Ok None end;
     RpcResponseEnvelope_new (PyUUID message_id) (PyUUID correlation_id) (PyDatetime completed_at) result error).

(** ** Events *)

Definition _EVENT_FIELDS : list string :=
  ["message_id"; "kind"; "namespace"; "service"; "contract_version"; "event"; "schema_version"; "occurred_at";
   "correlation_id"; "causation_id"; "headers"; "payload"]%string.

Definition event_value (e : EventEnvelope) (h p : wvalue) : list (wkey * wvalue) :=
  let i := ee_identity e in
  [item "message_id" (WStr (uuid_text (ee_message_id e))); item "kind" (WStr (str "event"))] ++
  _wire_service (ev_source i) ++
  [item "event" (WStr (ev_event i)); item "schema_version" (WInt (ev_schema_version i));
   item "occurred_at" (WStr (_timestamp (ee_occurred_at e)));
   item "correlation_id" (optional_text (ee_correlation_id e));
   item "causation_id" (optional_text (ee_causation_id e)); item "headers" h; item "payload" p].

Definition encode_event (limits : MessageLimits) (e : EventEnvelope) : result ms_error bytes :=
  h ← _checked_headers limits (ee_headers e);
  p ← _canonical limits (ee_payload e);
  _encode_json limits (WMap (event_value e h p)).

Definition decode_event (limits : MessageLimits) (data : bytes) : result ms_error EventEnvelope :=
  v ← _decode_json limits data;
  _ ← _require_fields v _EVENT_FIELDS;
  correlation ← member v "correlation_id";
  causation ← member v "causation_id";
  correlation ← optional_uuid correlation;
  causation ← optional_uuid causation;
  _ ← check_kind v "event";
  on_error decode_failure
    (message_id ← member v "message_id"; message_id ← _uuid message_id;
     source ← _service v;
     event ← member v "event"; event ← _string event;
     schema_version ← member v "schema_version"; schema_version ← _positive_int schema_version;
     occurred_at ← member v "occurred_at"; occurred_at ← _timestamp_value occurred_at;
     headers ← member v "headers"; headers ← _headers limits headers;
     payload ← member v "payload";
     EventEnvelope_new (PyUUID message_id) source (PyStr event) (PyInt schema_version) (PyDatetime occurred_at)
       (match correlation with Some u => PyUUID u | None => PyNone end)
       (match causation with Some u => PyUUID u | None => PyNone end) headers payload None).
End codec.
