(* ===== verification/MsCodecFacts.v ===== *)
(** * Microservices: encoding and decoding undo each other *)

From Stdlib Require Import ZArith Lia.
From stdpp Require Import base tactics list gmap strings sorting.
From S2P Require Import Prelude MsWire MsWireFacts MsCodec.
Local Open Scope Z_scope.

(** ** Texts *)

Lemma hex_digit_value d : 0 ≤ d < 16 → digit_value (hex_digit d) = d.
Proof. intros Hd. unfold digit_value, hex_digit. repeat case_match; bool_hyps; lia. Qed.

Lemma hex_text_value n u : hex_value (hex_text n u) = u mod 16 ^ Z.of_nat n.
Proof.
  revert u. induction n as [|n IH]; intros u; [by rewrite Z.mod_1_r|].
  cbn [hex_text]. unfold hex_value in *. rewrite foldl_app, IH. simpl.
  rewrite hex_digit_value by (apply Z.mod_pos_bound; lia).
  rewrite Nat2Z.inj_succ, Z.pow_succ_r, Z.rem_mul_r by lia. lia.
Qed.

Lemma hex_text_length n u : length (hex_text n u) = n.
Proof. revert u. induction n as [|n IH]; intros u; [done|]. simpl. rewrite length_app, IH. simpl. lia. Qed.

Lemma hex_text_plain n u : Forall (λ c, c ≠ 45) (hex_text n u).
Proof.
  revert u. induction n as [|n IH]; intros u; simpl; [constructor|]. apply Forall_app. split; [done|].
  apply Forall_singleton. pose proof (Z.mod_pos_bound u 16). unfold hex_digit. case_match; bool_hyps; lia.
Qed.

Lemma filter_plain (l : list Z) : Forall (λ c, c ≠ 45) l → filter (λ c, c ≠ 45) l = l.
Proof. induction 1 as [|c l Hc _ IH]; [done|]. rewrite filter_cons_True by done. by rewrite IH. Qed.

Lemma filter_dash (a b : list Z) :
  Forall (λ c, c ≠ 45) a → filter (λ c, c ≠ 45) (a ++ 45 :: b) = a ++ filter (λ c, c ≠ 45) b.
Proof. intros Ha. by rewrite filter_app, (filter_plain a Ha), filter_cons_False by auto. Qed.

Lemma take_piece m n k (h : list Z) : k = (m + n)%nat → take n (drop m h) ++ drop k h = drop m h.
Proof. intros ->. rewrite <- drop_drop. apply take_drop. Qed.

Lemma uuid_text_plain u : filter (λ c, c ≠ 45) (uuid_text u : list Z) = hex_text 32 u.
Proof.
  unfold uuid_text. pose proof (hex_text_plain 32 u) as Hp. set (h := hex_text 32 u) in *.
  assert (∀ n, Forall (λ c, c ≠ 45) (drop n h)) as Hd by (intros n; by apply Forall_drop).
  rewrite !filter_dash, filter_plain by (first [by apply Forall_take|apply Forall_take, Hd|apply Hd]).
  rewrite (take_piece 16 4 20), (take_piece 12 4 16), (take_piece 8 4 12) by done. apply take_drop.
Qed.

Definition valid_uuid (u : uuid) : Prop := 0 ≤ u < 2 ^ 128.

Section texts.
Context `{Json} `{WireText}.

Lemma uuid_roundtrip u : valid_uuid u → _uuid (WStr (uuid_text u)) = Ok u.
Proof.
  intros Hu. unfold _uuid, _string. r_simpl. rewrite uuid_text_plain, hex_text_value.
  assert (16 ^ Z.of_nat 32 = 2 ^ 128) as -> by (vm_compute; reflexivity).
  rewrite Z.mod_small by exact Hu. rewrite bool_decide_true by reflexivity. reflexivity.
Qed.

Lemma optional_uuid_roundtrip o :
  (∀ u, o = Some u → valid_uuid u) → optional_uuid (optional_text o) = Ok o.
Proof.
  destruct o as [u|]; [|done]. intros Hu. unfold optional_uuid, optional_text. rewrite uuid_roundtrip by auto. done.
Qed.
End texts.

Lemma prefix_head (c d : Z) (x y : pystr) : c ≠ d → ¬ (c :: x) `prefix_of` (d :: y).
Proof. intros Hc [k Hk]. by injection Hk. Qed.

(** A text that ends with its only occurrence of [old]. *)
Lemma replace_end c old new body :
  c ∉ body → str_replace (c :: old) new (body ++ c :: old) = body ++ new.
Proof.
  unfold str_replace. intros Hc. rewrite length_app. remember (length (c :: old)) as n eqn:Hn.
  assert (n ≠ 0%nat) as Hn0 by (subst; simpl; lia). clear Hn.
  induction body as [|d body IH]; simpl.
  - destruct n as [|n]; [done|]. simpl. rewrite decide_True by done. rewrite drop_all. destruct n; simpl; by rewrite app_nil_r.
  - apply not_elem_of_cons in Hc as [Hd Hc]. rewrite decide_False by (by apply prefix_head). by rewrite IH.
Qed.

(** What the code relies on in the libraries. *)
Fixpoint json_plain (v : wvalue) : bool :=
  match v with
  | WNone | WBool _ | WInt _ | WStr _ => true
  | WFloat _ finite => finite
  | WMap items =>
      bool_decide (NoDup items.*1) && forallb (λ kv, match kv.1 with KeyStr _ => true | _ => false end) items &&
      (fix go (l : list (wkey * wvalue)) : bool := match l with [] => true | (_, x) :: l => json_plain x && go l end) items
  | WList tuple items =>
      negb tuple && (fix go (l : list wvalue) : bool := match l with [] => true | x :: l => json_plain x && go l end) items
  | WOther _ => false
  end.

(** Timestamps are read back, what was encoded as JSON is decoded again, and
    builtins stay as they are. *)
Class WireTextLaws `{Json} `{WireText} : Prop := {
  iso_utc d : dt_offset d = Some 0 →
    ∃ body, isoformat d = body ++ str "+00:00" ∧ 43 ∉ body ∧ 90 ∉ body ∧ fromisoformat (isoformat d) = Some d;
  json_text v data : json_encode v = Ok data → json_plain v = true → json_pairs data = Some v ∧ json_decode data = Some v;
  builtins_plain v : json_plain v = true → to_builtins v = Some v
}.

Section timestamps.
Context `{WireTextLaws}.

Lemma timestamp_roundtrip d : dt_offset d = Some 0 → _timestamp_value (WStr (_timestamp d)) = Ok d.
Proof.
  intros Hd. unfold _timestamp_value, _timestamp, to_utc. rewrite Hd. simpl.
  assert (Datetime (dt_wall d - 0) (Some 0) = d) as -> by (destruct d; simpl in *; subst; f_equal; lia).
  destruct (iso_utc d Hd) as (body & Hb & Hp & Hz & Hf). rewrite Hb in *.
  change (str "+00:00") with (43 :: str "00:00") in *. change (str "Z") with ([90] : pystr).
  rewrite replace_end by done. rewrite (replace_end 90 []) by done. rewrite Hf. simpl. by rewrite Hd.
Qed.
End timestamps.

(** ** Canonical values *)

Lemma str_leb_total a b : str_leb a b = true ∨ str_leb b a = true.
Proof.
  revert b. induction a as [|x a IH]; intros [|y b]; simpl; auto. rewrite (Z.eqb_sym y x).
  destruct (Z.eqb_spec x y) as [->|Hne]; [apply IH|]. lia.
Qed.

Lemma key_leb_total a b : key_leb a b = true ∨ key_leb b a = true.
Proof. destruct a, b; simpl; auto using str_leb_total. Qed.

Definition sorted_items (l : list (wkey * wvalue)) : Prop := Sorted (λ x y, key_leb x.1 y.1 = true) l.

Lemma insert_item_perm x l : insert_item x l ≡ₚ x :: l.
Proof. induction l as [|y l IH]; simpl; [done|]. case_match; [done|]. rewrite IH. apply Permutation_swap. Qed.

Lemma sort_items_perm l : sort_items l ≡ₚ l.
Proof. induction l as [|x l IH]; simpl; [done|]. unfold sort_items in IH. by rewrite insert_item_perm, IH. Qed.

Lemma insert_item_sorted x l : sorted_items l → sorted_items (insert_item x l).
Proof.
  unfold sorted_items. induction l as [|y l IH]; simpl; intros Hl; [repeat constructor|]. case_match eqn:Hxy; [by constructor; [|constructor]|].
  inversion Hl as [|? ? Hs Hh]; subst. constructor; [auto|]. destruct (key_leb_total x.1 y.1); [congruence|].
  destruct l as [|z l]; simpl; [by constructor|]. inversion Hh; subst. case_match; by constructor.
Qed.

Lemma sort_items_sorted l : sorted_items (sort_items l).
Proof. induction l as [|x l IH]; simpl; [constructor|]. by apply insert_item_sorted. Qed.

Lemma sort_items_id l : sorted_items l → sort_items l = l.
Proof.
  induction 1 as [|x l Hl IH Hx]; [done|]. change (sort_items (x :: l)) with (insert_item x (sort_items l)). rewrite IH.
  destruct Hx as [|y l Hx]; simpl; [done|]. by rewrite Hx.
Qed.

Section canonical.
Context `{WireTextLaws}.

Definition canonical_item (limits : MessageLimits) (depth : Z) (kv : wkey * wvalue) : result ms_error (wkey * wvalue) :=
  k ← canonical_key kv.1; x ← _canonical_builtins limits (depth + 1) kv.2; Ok (k, x).

Lemma canonical_map limits depth items :
  _canonical_builtins limits depth (WMap items) =
  (_ ← raise_if (max_nesting_depth limits <? depth) WireSizeLimitError;
   _ ← raise_if (max_collection_items limits <? zlen items) WireSizeLimitError;
   l ← rmap (canonical_item limits depth) items; Ok (WMap (sort_items l))).
Proof.
  simpl. unfold raise_if. destruct (_ <? depth); [done|]. r_simpl. destruct (_ <? zlen items); [done|]. r_simpl. f_equal.
  induction items as [|[k x] l IH]; simpl; [done|]. rewrite IH. change (canonical_item limits depth (k, x)) with
    (k ← canonical_key k; x ← _canonical_builtins limits (depth + 1) x; Ok (k, x)).
  by destruct (canonical_key k); r_simpl; [destruct (_canonical_builtins _ _ x)|].
Qed.

Lemma canonical_list limits depth t items :
  _canonical_builtins limits depth (WList t items) =
  (_ ← raise_if (max_nesting_depth limits <? depth) WireSizeLimitError;
   _ ← raise_if (max_collection_items limits <? zlen items) WireSizeLimitError;
   l ← rmap (_canonical_builtins limits (depth + 1)) items; Ok (WList false l)).
Proof.
  simpl. unfold raise_if. destruct (_ <? depth); [done|]. r_simpl. destruct (_ <? zlen items); [done|]. r_simpl. f_equal.
  induction items as [|x l IH]; simpl; [done|]. destruct (_canonical_builtins _ _ x); r_simpl; [|done]. by rewrite IH.
Qed.

Lemma plain_map items : _plain_value (WMap items) = WMap (prod_map id _plain_value <$> items).
Proof. simpl. f_equal. induction items as [|[k x] l IH]; simpl; [done|]. by rewrite IH. Qed.

Lemma plain_list items : _plain_value (WList true items) = WList false (_plain_value <$> items).
Proof. done. Qed.

(** A canonical value can be frozen; the frozen value has the same plain and
    canonical form. *)
Definition refreezes limits depth (c : wvalue) : Prop :=
  ∃ f, _freeze_value (max_nesting_depth limits) (max_collection_items limits) depth c = Ok f ∧
       _plain_value f = c ∧ _canonical_builtins limits depth f = Ok c.

Lemma canonical_key_ok k k' : canonical_key k = Ok k' → k' = k ∧ header_key k = Ok k.
Proof. destruct k as [[|]|]; by intros [= <-]. Qed.

Lemma rmap_Forall2 {A C E} (P : A → C → Prop) (f : A → result E C) l :
  Forall (λ x, ∃ y, f x = Ok y ∧ P x y) l → ∃ l', rmap f l = Ok l' ∧ Forall2 P l l'.
Proof.
  induction 1 as [|x l (y & Hy & HP) _ (l' & Hl & H2)]; [by exists []|]. exists (y :: l'). simpl.
  rewrite Hy, Hl. split; [done|by constructor].
Qed.

(** The case of mappings: [s] are the sorted items of the canonical value. *)
Lemma refreezes_map limits depth s :
  max_nesting_depth limits <? depth = false → max_collection_items limits <? zlen s = false → sorted_items s →
  Forall (λ kc, canonical_key kc.1 = Ok kc.1 ∧ refreezes limits (depth + 1) kc.2) s → refreezes limits depth (WMap s).
Proof.
  intros Hd Hn Hso Hs.
  destruct (rmap_Forall2 (λ kc kf : wkey * wvalue, kf.1 = kc.1 ∧ _plain_value kf.2 = kc.2 ∧
    canonical_item limits depth kf = Ok kc) (freeze_item (max_nesting_depth limits) (max_collection_items limits) depth) s)
    as (fl & Hfl & H2).
  { eapply Forall_impl; [exact Hs|]. intros [k y] [Hk (f & Hf & Hp & Hcf)]. simpl in *. exists (k, f).
    unfold freeze_item, canonical_item. simpl. apply canonical_key_ok in Hk as Hk'. destruct Hk' as [_ Hk'].
    rewrite Hk'. r_simpl. rewrite Hf. r_simpl. rewrite Hk. r_simpl. by rewrite Hcf. }
  assert (zlen fl = zlen s) as Hz by (unfold zlen; by rewrite (Forall2_length _ _ _ H2)).
  exists (WMap fl). rewrite freeze_map, canonical_map, plain_map. unfold raise_if. rewrite Hd, Hn, Hz, Hn. r_simpl.
  rewrite Hfl. r_simpl. split_and!; [done| |].
  - f_equal. clear -H2. induction H2 as [|[k y] [k' f] xs ys (Hk & Hp & _) _ IH]; [done|]. rewrite fmap_cons, IH.
    unfold prod_map. simpl in *. by rewrite Hk, Hp.
  - assert (rmap (canonical_item limits depth) fl = Ok s) as ->
      by (apply rmap_ok_iff; clear -H2; induction H2 as [|? ? ? ? (_ & _ & ?) _ IH]; constructor; auto).
    r_simpl. by rewrite sort_items_id.
Qed.

Lemma refreezes_list limits depth l :
  max_nesting_depth limits <? depth = false → max_collection_items limits <? zlen l = false →
  Forall (refreezes limits (depth + 1)) l → refreezes limits depth (WList false l).
Proof.
  intros Hd Hn Hl.
  destruct (rmap_Forall2 (λ c f, _plain_value f = c ∧ _canonical_builtins limits (depth + 1) f = Ok c)
    (_freeze_value (max_nesting_depth limits) (max_collection_items limits) (depth + 1)) l) as (fl & Hfl & H2).
  { eapply Forall_impl; [exact Hl|]. intros c (f & ? & ? & ?). eauto. }
  assert (zlen fl = zlen l) as Hz by (unfold zlen; by rewrite (Forall2_length _ _ _ H2)).
  exists (WList true fl). rewrite freeze_list, canonical_list, plain_list. unfold raise_if. rewrite Hd, Hn, Hz, Hn. r_simpl.
  rewrite Hfl. r_simpl. split_and!; [done| |].
  - f_equal. clear -H2. induction H2 as [|? ? ? ? (? & _) _ IH]; [done|]. simpl. by f_equal.
  - assert (rmap (_canonical_builtins limits (depth + 1)) fl = Ok l) as ->
      by (apply rmap_ok_iff; clear -H2; induction H2 as [|? ? ? ? (_ & ?) _ IH]; constructor; auto). done.
Qed.

(** The canonical items, each with what is known of it. *)
Lemma canonical_items_Forall limits depth (P : wvalue → Prop) items l :
  Forall (λ kv, ∀ c, _canonical_builtins limits (depth + 1) kv.2 = Ok c → P c) items →
  rmap (canonical_item limits depth) items = Ok l → Forall (λ kc, canonical_key kc.1 = Ok kc.1 ∧ P kc.2) l.
Proof.
  intros IH Hl. rewrite rmap_ok_iff in Hl. induction Hl as [|[k x] [k' y] xs ys Hx _ IHl]; [constructor|].
  apply Forall_cons in IH as [Hx' IH]. constructor; [|auto]. unfold canonical_item in Hx.
  apply result_bind_ok in Hx as (k1 & Hk & Hx). apply result_bind_ok in Hx as (y1 & Hy & [= <- <-]). simpl in *.
  apply canonical_key_ok in Hk as Hk'. destruct Hk' as [-> _]. split; [done|]. by apply Hx'.
Qed.

Lemma rmap_Forall {A C E} (P : C → Prop) (f : A → result E C) l l' :
  Forall (λ x, ∀ y, f x = Ok y → P y) l → rmap f l = Ok l' → Forall P l'.
Proof.
  intros HP Hl. rewrite rmap_ok_iff in Hl. induction Hl; [constructor|]. apply Forall_cons in HP as []. constructor; auto.
Qed.

Lemma canonical_refreezes limits v depth c :
  _canonical_builtins limits depth v = Ok c → refreezes limits depth c.
Proof.
  revert depth c. induction v as [v Hv|items IH|t items IH] using wvalue_rec'; intros depth c Hc.
  - destruct v; try done; simpl in Hc; apply result_bind_ok in Hc as ([] & Hd & Hc); apply raise_if_ok in Hd; try done;
      first [injection Hc as <-|apply result_bind_ok in Hc as ([] & Hf & [= <-]); apply raise_if_ok in Hf];
      eexists; (split_and!; [simpl; unfold raise_if; rewrite Hd; r_simpl; rewrite ?Hf; reflexivity|reflexivity|]);
      simpl; unfold raise_if; rewrite Hd; r_simpl; rewrite ?Hf; reflexivity.
  - rewrite canonical_map in Hc. apply result_bind_ok in Hc as ([] & Hd & Hc). apply result_bind_ok in Hc as ([] & Hn & Hc).
    apply result_bind_ok in Hc as (l & Hl & [= <-]). pose proof (rmap_ok_length _ _ _ Hl) as Hlen. apply raise_if_ok in Hd, Hn.
    apply refreezes_map; [done| |apply sort_items_sorted|].
    + unfold zlen in *. by rewrite sort_items_perm, Hlen.
    + rewrite sort_items_perm. eapply canonical_items_Forall; [|exact Hl]. eapply Forall_impl; [exact IH|]. naive_solver.
  - rewrite canonical_list in Hc. apply result_bind_ok in Hc as ([] & Hd & Hc). apply result_bind_ok in Hc as ([] & Hn & Hc).
    apply result_bind_ok in Hc as (l & Hl & [= <-]). pose proof (rmap_ok_length _ _ _ Hl) as Hlen. apply raise_if_ok in Hd, Hn.
    apply refreezes_list; [done|unfold zlen in *; by rewrite Hlen|]. eapply rmap_Forall; [|exact Hl].
    eapply Forall_impl; [exact IH|]. naive_solver.
Qed.

(** Canonical values are canonical. *)
Lemma canonical_again limits v depth c :
  _canonical_builtins limits depth v = Ok c → _canonical_builtins limits depth c = Ok c.
Proof.
  revert depth c. induction v as [v Hv|items IH|t items IH] using wvalue_rec'; intros depth c Hc.
  - destruct v; try done; pose proof Hc as Hc'; simpl in Hc; apply result_bind_ok in Hc as ([] & Hd & Hc); try done;
      first [injection Hc as <-|apply result_bind_ok in Hc as ([] & Hf & [= <-])]; exact Hc'.
  - rewrite canonical_map in Hc. apply result_bind_ok in Hc as ([] & Hd & Hc). apply result_bind_ok in Hc as ([] & Hn & Hc).
    apply result_bind_ok in Hc as (l & Hl & [= <-]). pose proof (rmap_ok_length _ _ _ Hl) as Hlen. rewrite canonical_map, Hd. r_simpl.
    assert (zlen (sort_items l) = zlen items) as -> by (unfold zlen; by rewrite sort_items_perm, Hlen). rewrite Hn. r_simpl.
    assert (rmap (canonical_item limits depth) (sort_items l) = Ok (sort_items l)) as ->; [|r_simpl; by rewrite sort_items_id by apply sort_items_sorted].
    apply rmap_ok_iff, Forall_Forall2_diag. rewrite sort_items_perm.
    eapply Forall_impl; [eapply (canonical_items_Forall _ _ (λ y, _canonical_builtins limits (depth + 1) y = Ok y)); [|exact Hl]|].
    + eapply Forall_impl; [exact IH|]. naive_solver.
    + intros [k y] [Hk Hy]. unfold canonical_item. simpl in *. rewrite Hk. r_simpl. by rewrite Hy.
  - rewrite canonical_list in Hc. apply result_bind_ok in Hc as ([] & Hd & Hc). apply result_bind_ok in Hc as ([] & Hn & Hc).
    apply result_bind_ok in Hc as (l & Hl & [= <-]). pose proof (rmap_ok_length _ _ _ Hl) as Hlen. rewrite canonical_list, Hd. r_simpl.
    assert (zlen l = zlen items) as -> by (unfold zlen; by rewrite Hlen). rewrite Hn. r_simpl.
    assert (rmap (_canonical_builtins limits (depth + 1)) l = Ok l) as ->; [|done].
    apply rmap_ok_iff, Forall_Forall2_diag. eapply rmap_Forall; [|exact Hl]. eapply Forall_impl; [exact IH|]. naive_solver.
Qed.

(** ** Whole values *)

(** The keys of a Python dict are distinct. *)
Fixpoint uniq (v : wvalue) : bool :=
  match v with
  | WMap items => bool_decide (NoDup items.*1) &&
      (fix go (l : list (wkey * wvalue)) : bool := match l with [] => true | (_, x) :: l => uniq x && go l end) items
  | WList _ items => (fix go (l : list wvalue) : bool := match l with [] => true | x :: l => uniq x && go l end) items
  | _ => true
  end.

Lemma uniq_map items : uniq (WMap items) = true ↔ NoDup items.*1 ∧ Forall (λ kv, uniq kv.2 = true) items.
Proof.
  simpl. rewrite andb_true_iff, bool_decide_eq_true. apply and_iff_compat_l.
  induction items as [|[k x] l IH]; [by split|]. rewrite Forall_cons, <- IH, andb_true_iff. done.
Qed.

Lemma uniq_list t items : uniq (WList t items) = true ↔ Forall (λ x, uniq x = true) items.
Proof. simpl. induction items as [|x l IH]; [by split|]. rewrite Forall_cons, <- IH, andb_true_iff. done. Qed.

Definition is_str (k : wkey) : bool := match k with KeyStr _ => true | _ => false end.

Lemma json_plain_map items :
  json_plain (WMap items) = true ↔
  NoDup items.*1 ∧ Forall (λ kv, is_str kv.1 = true) items ∧ Forall (λ kv, json_plain kv.2 = true) items.
Proof.
  simpl. rewrite !andb_true_iff, bool_decide_eq_true, <- (and_assoc (NoDup _)). apply and_iff_compat_l.
  rewrite forallb_forall, Forall_forall. setoid_rewrite list_elem_of_In. apply and_iff_compat_l.
  induction items as [|[k x] l IH]; [by split|]. rewrite Forall_cons, <- IH, andb_true_iff. done.
Qed.

Lemma json_plain_list items : json_plain (WList false items) = true ↔ Forall (λ x, json_plain x = true) items.
Proof. simpl. induction items as [|x l IH]; [by split|]. rewrite Forall_cons, <- IH, andb_true_iff. done. Qed.

Lemma canonical_item_keys limits depth items l :
  rmap (canonical_item limits depth) items = Ok l → l.*1 = items.*1.
Proof.
  rewrite rmap_ok_iff. induction 1 as [|[k x] [k' y] xs ys Hx _ IH]; [done|]. rewrite !fmap_cons, IH. f_equal.
  unfold canonical_item in Hx. apply result_bind_ok in Hx as (k1 & Hk & Hx). apply result_bind_ok in Hx as (y1 & _ & [= <- _]).
  by apply canonical_key_ok in Hk as [-> _].
Qed.

Lemma canonical_plain limits v depth c : uniq v = true → _canonical_builtins limits depth v = Ok c → json_plain c = true.
Proof.
  revert depth c. induction v as [v Hv|items IH|t items IH] using wvalue_rec'; intros depth c Hu Hc.
  - destruct v; try done; simpl in Hc; apply result_bind_ok in Hc as ([] & _ & Hc); try done;
      first [by injection Hc as <-|apply result_bind_ok in Hc as ([] & Hf & [= <-])]. simpl. by destruct finite.
  - rewrite canonical_map in Hc. apply result_bind_ok in Hc as ([] & _ & Hc). apply result_bind_ok in Hc as ([] & _ & Hc).
    apply result_bind_ok in Hc as (l & Hl & [= <-]). apply uniq_map in Hu as [Hnd Hu].
    assert (Forall (λ kc, canonical_key kc.1 = Ok kc.1 ∧ json_plain kc.2 = true) l) as HF.
    { apply (canonical_items_Forall limits depth (λ c, json_plain c = true) items); [|exact Hl].
      rewrite Forall_forall in *. intros kv Hkv c. by apply IH, Hu. }
    apply json_plain_map.
    assert ((sort_items l).*1 ≡ₚ items.*1) as Hp by (by rewrite sort_items_perm, (canonical_item_keys _ _ _ _ Hl)).
    rewrite Hp, !sort_items_perm. split_and!; [done| |]; eapply Forall_impl; [exact HF| |exact HF|]; intros [k x] [Hk Hx]; [|done].
    by destruct k.
  - rewrite canonical_list in Hc. apply result_bind_ok in Hc as ([] & _ & Hc). apply result_bind_ok in Hc as ([] & _ & Hc).
    apply result_bind_ok in Hc as (l & Hl & [= <-]). apply uniq_list in Hu. apply json_plain_list.
    eapply rmap_Forall; [|exact Hl]. rewrite Forall_forall in *. intros x Hx c. by apply IH, Hu.
Qed.

Lemma reject_duplicates seen l :
  NoDup l.*1 → (∀ k, k ∈ seen → k ∉ l.*1) → _reject_duplicate_members seen l = Ok tt.
Proof.
  revert seen. induction l as [|[k x] l IH]; intros seen; simpl; [done|]. intros [Hk Hnd]%NoDup_cons Hs.
  rewrite bool_decide_false by (intros Hin; apply (Hs k Hin); by left). r_simpl. apply IH; [done|].
  intros k' [->|Hin]%elem_of_cons; [done|]. intros Hk'. apply (Hs k' Hin). by right.
Qed.

Lemma plain_hooks v : json_plain v = true → loads_hooks v = Ok tt.
Proof.
  induction v as [v Hv|items IH|t items IH] using wvalue_rec'.
  - destruct v; try done. simpl. by intros ->.
  - rewrite json_plain_map. intros (Hnd & _ & Hp). simpl.
    assert ((fix go (l : list (wkey * wvalue)) : result ms_error unit :=
        match l with [] => Ok tt | (_, x) :: l => _ ← loads_hooks x; go l end) items = Ok tt) as ->.
    { clear Hnd. induction items as [|[k x] l IHl]; [done|]. apply Forall_cons in IH as [Hx IH], Hp as [Hpx Hp].
      rewrite (Hx Hpx : loads_hooks x = Ok tt). r_simpl. auto. }
    r_simpl. apply reject_duplicates; [done|]. intros k Hk. by apply not_elem_of_nil in Hk.
  - destruct t; [done|]. rewrite json_plain_list. intros Hp. simpl.
    induction items as [|x l IHl]; [done|]. apply Forall_cons in IH as [Hx IH], Hp as [Hpx Hp].
    rewrite (Hx Hpx). r_simpl. auto.
Qed.

Lemma json_roundtrip limits items data :
  json_plain (WMap items) = true → _encode_json limits (WMap items) = Ok data → _decode_json limits data = Ok items.
Proof.
  intros Hp He. unfold _encode_json in He. apply result_bind_ok in He as (d & Hd & He).
  apply result_bind_ok in He as ([] & Hs & [= ->]). unfold on_error in Hd. case_match eqn:Hr; [|done].
  injection Hd as ->. apply result_bind_ok in Hr as ([] & Hl & Hj). destruct (json_text _ _ Hj Hp) as [J1 J2].
  unfold _decode_json. rewrite Hs, J1. r_simpl. unfold parsed. r_simpl. rewrite plain_hooks by done. r_simpl.
  rewrite J2. r_simpl. by rewrite Hl.
Qed.

(** ** Headers *)

Lemma plain_headers_ok limits h c :
  _plain_headers limits h = Ok c → match h with WMap _ => True | _ => False end →
  max_header_count limits <? zlen (items_of h) = false ∧ _canonical_builtins limits 0 h = Ok c ∧
  ∃ items, c = WMap items ∧ zlen items = zlen (items_of h).
Proof.
  intros Hc Hm. unfold _plain_headers in Hc. apply result_bind_ok in Hc as ([] & Hn & Hc). apply raise_if_ok in Hn.
  apply result_bind_ok in Hc as (c' & Hc' & Hc). destruct h as [| | | | |items| |]; try done. unfold _canonical in Hc'.
  assert (c' = c) as -> by (destruct c'; by simplify_eq). split_and!; [done..|]. rewrite canonical_map in Hc'.
  apply result_bind_ok in Hc' as ([] & _ & Hc'). apply result_bind_ok in Hc' as ([] & _ & Hc').
  apply result_bind_ok in Hc' as (l & Hl & [= <-]). eexists. split; [done|]. unfold zlen.
  by rewrite sort_items_perm, (rmap_ok_length _ _ _ Hl).
Qed.

(** The headers that are decoded have the canonical form of those that were
    encoded, and pass every later check. *)
Lemma headers_roundtrip limits h c :
  _checked_headers limits h = Ok c → match h with WMap _ => True | _ => False end →
  ∃ f, _headers limits c = Ok f ∧ _canonical_builtins limits 0 f = _canonical_builtins limits 0 h ∧
       freeze_headers f (Some limits) = Ok f ∧ _checked_headers limits f = Ok c.
Proof.
  intros Hc Hm. unfold _checked_headers in Hc. apply result_bind_ok in Hc as (c' & Hp & Hc).
  apply result_bind_ok in Hc as (data & Hj & Hc). apply result_bind_ok in Hc as ([] & Hs & [= ->]). apply raise_if_ok in Hs.
  destruct (plain_headers_ok _ _ _ Hp Hm) as (Hn & Hcan & items & -> & Hz).
  destruct (canonical_refreezes _ _ _ _ Hcan) as (f & Hf & Hpl & Hcf).
  assert (freeze_headers (WMap items) (Some limits) = Ok f) as Hfr.
  { unfold freeze_headers. simpl default. assert ((if falsy (WMap items) then WMap [] else WMap items) = WMap items) as ->
      by (by destruct items). unfold raise_if. rewrite Hz, Hn. r_simpl. rewrite Hf. r_simpl. rewrite Hpl, Hj. r_simpl.
    by rewrite Hs. }
  assert (∃ l, f = WMap l ∧ zlen l = zlen items) as (l & -> & Hzl).
  { destruct f as [| | | | |l|[]|]; try done. exists l. split; [done|]. rewrite plain_map in Hpl. injection Hpl as <-. unfold zlen. by rewrite length_fmap. }
  assert (_plain_headers limits (WMap l) = Ok (WMap items)) as Hpf
    by (unfold _plain_headers; simpl items_of; unfold raise_if; rewrite Hzl, Hz, Hn; r_simpl; unfold _canonical; by rewrite Hcf).
  exists (WMap l). split_and!; [|by rewrite Hcan|by eapply freeze_headers_again|].
  - unfold _headers. rewrite Hfr. simpl. rewrite Hpf. r_simpl. rewrite Hj. r_simpl. unfold raise_if. by rewrite Hs.
  - unfold _checked_headers. rewrite Hpf. r_simpl. rewrite Hj. r_simpl. unfold raise_if. by rewrite Hs.
Qed.
End canonical.
