(* ===== verification/MsCodecScenarios.v ===== *)
(** * Microservices: texts and envelopes for the codec

    A concrete reading of [Json] and [WireText]: every value is written as the
    bits of its number. *)

From Stdlib Require Import ZArith Lia.
From stdpp Require Import base tactics list gmap strings countable.
From S2P Require Import Prelude MsWire MsWireFacts MsCodec MsCodecFacts.
Local Open Scope Z_scope.

(** ** Values as trees *)

Definition leaf : Type := (option bool + Z) + ((Z * bool + pystr) + (wkey + Z)).

#[export] Instance wkey_countable : Countable wkey.
Proof.
  refine (inj_countable' (λ k, match k with KeyStr s => inl s | KeyOther i => inr i end)
    (λ x, match x with inl s => KeyStr s | inr i => KeyOther i end) _). by intros [].
Defined.

Fixpoint to_tree (v : wvalue) : gen_tree leaf :=
  match v with
  | WNone => GenLeaf (inl (inl None))
  | WBool b => GenLeaf (inl (inl (Some b)))
  | WInt n => GenLeaf (inl (inr n))
  | WFloat i f => GenLeaf (inr (inl (inl (i, f))))
  | WStr s => GenLeaf (inr (inl (inr s)))
  | WMap items => GenNode 0 ((fix go (l : list (wkey * wvalue)) := match l with
      | [] => [] | (k, x) :: l => GenLeaf (inr (inr (inl k))) :: to_tree x :: go l end) items)
  | WList t items => GenNode (if t then 1 else 2) ((fix go (l : list wvalue) := match l with
      | [] => [] | x :: l => to_tree x :: go l end) items)
  | WOther i => GenLeaf (inr (inr (inr i)))
  end.

Fixpoint of_tree (t : gen_tree leaf) : wvalue :=
  match t with
  | GenLeaf (inl (inl None)) => WNone
  | GenLeaf (inl (inl (Some b))) => WBool b
  | GenLeaf (inl (inr n)) => WInt n
  | GenLeaf (inr (inl (inl (i, f)))) => WFloat i f
  | GenLeaf (inr (inl (inr s))) => WStr s
  | GenLeaf (inr (inr (inr i))) => WOther i
  | GenLeaf _ => WNone
  | GenNode 0 ts => WMap ((fix go (l : list (gen_tree leaf)) := match l with
      | GenLeaf (inr (inr (inl k))) :: x :: l => (k, of_tree x) :: go l | _ => [] end) ts)
  | GenNode n ts => WList (bool_decide (n = 1%nat)) ((fix go (l : list (gen_tree leaf)) := match l with
      | [] => [] | x :: l => of_tree x :: go l end) ts)
  end.

Lemma of_to_tree v : of_tree (to_tree v) = v.
Proof.
  induction v as [v Hv|items IH|t items IH] using wvalue_rec'.
  - by destruct v.
  - simpl. f_equal. induction IH as [|[k x] l Hx _ IHl]; [done|]. simpl in *. by rewrite Hx, IHl.
  - destruct t; simpl; f_equal;
      induction IH as [|x l Hx _ IHl]; try done; simpl in *; by rewrite Hx, IHl.
Qed.

#[export] Instance wvalue_eq_dec : EqDecision wvalue.
Proof. refine (inj_eq_dec to_tree). intros a b E. by rewrite <- (of_to_tree a), E, of_to_tree. Defined.
#[export] Instance wvalue_countable : Countable wvalue := inj_countable' to_tree of_tree of_to_tree.

(** ** Numbers as texts of 0 and 1 *)

Fixpoint bits (p : positive) : list Z :=
  match p with xH => [] | xO p => 48 :: bits p | xI p => 49 :: bits p end.
Fixpoint unbits (l : list Z) : positive :=
  match l with [] => xH | c :: l => if c =? 48 then xO (unbits l) else xI (unbits l) end.

Lemma unbits_bits p : unbits (bits p) = p.
Proof. induction p as [p IH|p IH|]; simpl; by rewrite ?IH. Qed.
Lemma bits_range p c : c ∈ bits p → c = 48 ∨ c = 49.
Proof. induction p as [p IH|p IH|]; simpl; rewrite ?elem_of_cons; [naive_solver..|]. intros E. by apply not_elem_of_nil in E. Qed.

Definition as_bytes (l : list Z) : bytes := (λ c, if c =? 48 then Byte.x30 else Byte.x31) <$> l.
Definition of_bytes (l : bytes) : list Z := (λ b, if b is Byte.x30 then 48 else 49) <$> l.

Lemma of_as_bytes p : of_bytes (as_bytes (bits p)) = bits p.
Proof. unfold of_bytes, as_bytes. induction p as [p IH|p IH|]; cbn [bits]; rewrite ?fmap_cons, ?IH; done. Qed.

Definition bit_json : Json := {| json_encode v := Ok (as_bytes (bits (encode v))) |}.

Definition bit_text : WireText := {|
  isoformat d := bits (encode (dt_wall d)) ++ if decide (dt_offset d = Some 0) then str "+00:00" else str "?";
  fromisoformat s := w ← decode (unbits (take (length s - 6) s)); Some (Datetime w (Some 0));
  to_builtins v := Some v;
  json_pairs data := decode (unbits (of_bytes data));
  json_decode data := decode (unbits (of_bytes data))
|}.

Lemma bit_laws : @WireTextLaws bit_json bit_text.
Proof.
  constructor; [|simpl; intros v data [= <-] _; by rewrite of_as_bytes, unbits_bits, decode_encode|done].
  intros [w o] Ho. simpl in Ho. subst o. unfold isoformat, fromisoformat, bit_text. cbn [dt_wall dt_offset].
  rewrite decide_True by done. pose proof (bits_range (encode w)) as Hr. pose proof (unbits_bits (encode w)) as Hu.
  set (b := bits (encode w)) in *. exists b. split_and!; [done|by intros []%Hr|by intros []%Hr|].
  assert (take (length (b ++ str "+00:00") - 6) (b ++ str "+00:00") = b) as ->.
  { rewrite length_app. change (length (str "+00:00")) with 6%nat. rewrite Nat.add_sub. apply take_app_length. }
  by rewrite Hu, decode_encode.
Qed.

(** ** Envelopes *)

Definition wide_limits : MessageLimits :=
  {| max_envelope_bytes := 1024 * 1024; max_header_count := 100; max_header_bytes := 64 * 1024;
     max_nesting_depth := 64; max_collection_items := 10000 |}.

Definition shop : ServiceIdentity := {| namespace := str "shop"; svc_name := str "orders"; contract_version := 1 |}.
Definition morning : datetime := Datetime 0 (Some 0).
Definition evening : datetime := Datetime 5 (Some 0).

Definition sample_request : RpcRequestEnvelope :=
  {| rq_message_id := 17; rq_target := {| rpc_service := shop; rpc_method := str "get"; rpc_schema_version := 1 |};
     rq_created_at := morning; rq_deadline_at := evening; rq_correlation_id := 18; rq_causation_id := Some 19;
     rq_reply_to := str "reply.0123456789abcdef0123456789abcdef";
     rq_headers := WMap [(KeyStr (str "z"), WInt 1); (KeyStr (str "a"), WList true [WNone])];
     rq_payload := WMap [(KeyStr (str "id"), WInt 7); (KeyStr (str "all"), WBool true)] |}.

Definition sample_response : RpcResponseEnvelope :=
  {| rs_message_id := 20; rs_correlation_id := 18; rs_completed_at := evening;
     rs_outcome := inr {| rd_code := str "not_found"; rd_message := str "no order"; rd_retryable := false;
                          rd_details := WMap [(KeyStr (str "id"), WInt 7)] |} |}.

(** An event with 65 headers. *)
Definition sample_event : EventEnvelope :=
  {| ee_message_id := 21; ee_identity := {| ev_source := shop; ev_event := str "placed"; ev_schema_version := 1 |};
     ee_occurred_at := morning; ee_correlation_id := None; ee_causation_id := None;
     ee_headers := WMap ((λ i, (KeyStr [97 + Z.of_nat i], WNone)) <$> seq 0 65); ee_payload := WNone |}.
