(* ===== verification/MsCodecProperties.v ===== *)
(** * Microservices: what the codec guarantees *)

From Stdlib Require Import ZArith Lia.
From stdpp Require Import base tactics list gmap strings.
From S2P Require Import Prelude MsWire MsWireFacts MsCodec MsCodecFacts MsCodecScenarios.
Local Open Scope Z_scope.

(** The next member of an object whose keys are known is [v]. *)
Ltac read v :=
  match goal with
  | |- (member ?l ?n ≫= _) = _ => assert (member l n = Ok v) as -> by reflexivity
  | |- on_error _ (member ?l ?n ≫= _) = _ => assert (member l n = Ok v) as -> by reflexivity
  end; r_simpl.

Section identities.

Lemma alias_again v s : _validate_alias v = Ok s → _validate_alias (PyStr s) = Ok s.
Proof. unfold _validate_alias. intros Hv. destruct v; try done. case_match eqn:Hp; [|done]. injection Hv as <-. by rewrite Hp. Qed.

Lemma version_again v n : _validate_version v = Ok n → _validate_version (PyInt n) = Ok n ∧ n <=? 0 = false.
Proof. unfold _validate_version. intros Hv. destruct v; try done. case_match eqn:Hp; [done|]. injection Hv as <-. by rewrite Hp. Qed.

Lemma service_again s : valid_service s →
  ServiceIdentity_new (PyStr (namespace s)) (PyStr (svc_name s)) (PyInt (contract_version s)) = Ok s ∧
  contract_version s <=? 0 = false.
Proof.
  intros (ns & n & v & Hs). unfold ServiceIdentity_new in *. apply result_bind_ok in Hs as (ns' & Hns & Hs).
  apply result_bind_ok in Hs as (n' & Hn & Hs). apply result_bind_ok in Hs as (v' & Hv & Hs).
  apply result_bind_ok in Hs as ([] & Hc & [= <-]). simpl namespace. simpl svc_name. simpl contract_version.
  rewrite (alias_again _ _ Hns), (alias_again _ _ Hn). r_simpl. destruct (version_again _ _ Hv) as [-> ?]. r_simpl.
  by rewrite Hc.
Qed.

Lemma target_again s m v t : RpcTarget_new s m v = Ok t →
  rpc_service t = s ∧ RpcTarget_new s (PyStr (rpc_method t)) (PyInt (rpc_schema_version t)) = Ok t ∧
  rpc_schema_version t <=? 0 = false.
Proof.
  unfold RpcTarget_new. intros Ht. apply result_bind_ok in Ht as (m' & Hm & Ht). apply result_bind_ok in Ht as (v' & Hv & Ht).
  apply result_bind_ok in Ht as ([] & Hc & [= <-]). simpl rpc_method. simpl rpc_schema_version. simpl rpc_service.
  rewrite (alias_again _ _ Hm). r_simpl. destruct (version_again _ _ Hv) as [-> ?]. r_simpl. by rewrite Hc.
Qed.

Lemma event_again s m v t : EventIdentity_new s m v = Ok t →
  ev_source t = s ∧ EventIdentity_new s (PyStr (ev_event t)) (PyInt (ev_schema_version t)) = Ok t ∧
  ev_schema_version t <=? 0 = false.
Proof.
  unfold EventIdentity_new. intros Ht. apply result_bind_ok in Ht as (m' & Hm & Ht). apply result_bind_ok in Ht as (v' & Hv & Ht).
  apply result_bind_ok in Ht as ([] & Hc & Ht). apply result_bind_ok in Ht as ([] & Hd & [= <-]).
  simpl ev_event. simpl ev_schema_version. simpl ev_source.
  rewrite (alias_again _ _ Hm). r_simpl. destruct (version_again _ _ Hv) as [-> ?]. r_simpl. rewrite Hc. r_simpl. by rewrite Hd.
Qed.

Lemma utc_ok v d : require_utc v = Ok d → dt_offset d = Some 0 ∧ require_utc (PyDatetime d) = Ok d.
Proof.
  unfold require_utc. intros Hv. destruct v; try done. case_bool_decide; [|done]. injection Hv as ->.
  split; [done|]. by rewrite bool_decide_true.
Qed.

Lemma deadline_again c d ts : require_future_deadline c d = Ok ts →
  dt_offset ts.1 = Some 0 ∧ dt_offset ts.2 = Some 0 ∧ require_future_deadline (PyDatetime ts.1) (PyDatetime ts.2) = Ok ts.
Proof.
  unfold require_future_deadline. intros Ht. apply result_bind_ok in Ht as (c' & Hc & Ht).
  apply result_bind_ok in Ht as (d' & Hd & Ht). apply result_bind_ok in Ht as ([] & Hb & [= <-]). cbn [fst snd].
  apply utc_ok in Hc as [? Hc], Hd as [? Hd]. split_and!; [done..|]. rewrite Hc, Hd. r_simpl. by rewrite Hb.
Qed.
End identities.

Section roundtrips.
Context `{WireTextLaws}.

(** What [to_builtins] makes of a payload has distinct keys. *)
Definition builtin (p : wvalue) : Prop := uniq p = true ∧ ∀ v, to_builtins p = Some v → uniq v = true.

Lemma canonical_payload limits p c : builtin p → _canonical limits p = Ok c → json_plain c = true.
Proof.
  intros [Hp Hb] Hc. unfold _canonical in Hc. destruct p; try (destruct (to_builtins _) as [v|] eqn:Hv; [|done]);
    eapply canonical_plain; try exact Hc; auto.
Qed.

Lemma checked_plain limits h c :
  uniq h = true → match h with WMap _ => True | _ => False end → _checked_headers limits h = Ok c → json_plain c = true.
Proof.
  intros Hu Hm Hc. unfold _checked_headers in Hc. apply result_bind_ok in Hc as (c' & Hp & Hc).
  apply result_bind_ok in Hc as (data & _ & Hc). apply result_bind_ok in Hc as ([] & _ & [= ->]).
  destruct (plain_headers_ok _ _ _ Hp Hm) as (_ & Hcan & _). by eapply canonical_plain.
Qed.

Lemma freeze_headers_map h l f : freeze_headers h l = Ok f → match f with WMap _ => True | _ => False end.
Proof.
  unfold freeze_headers. destruct (if falsy h then WMap [] else h) eqn:Hs; try done. intros Hf.
  apply result_bind_ok in Hf as ([] & _ & Hf). apply result_bind_ok in Hf as (g & Hg & Hf).
  apply result_bind_ok in Hf as (? & _ & Hf). apply result_bind_ok in Hf as ([] & _ & [= <-]).
  rewrite freeze_map in Hg. apply result_bind_ok in Hg as ([] & _ & Hg). apply result_bind_ok in Hg as ([] & _ & Hg).
  by apply result_bind_ok in Hg as (? & _ & [= <-]).
Qed.

Lemma string_ok s : _string (WStr s) = Ok s.
Proof. done. Qed.
Lemma int_positive_ok n : n <=? 0 = false → _positive_int (WInt n) = Ok n.
Proof. unfold _positive_int, raise_if. by intros ->. Qed.
Lemma py_optional o : optional_id (match o with Some u => PyUUID u | None => PyNone end) = Ok o.
Proof. by destruct o. Qed.

Lemma service_roundtrip items s :
  valid_service s → field items "namespace" = Some (WStr (namespace s)) → field items "service" = Some (WStr (svc_name s)) →
  field items "contract_version" = Some (WInt (contract_version s)) → _service items = Ok s.
Proof.
  intros [Hs Hv]%service_again F1 F2 F3. unfold _service, member.
  assert (existsb (λ n, negb (bool_decide (is_Some (field items n)))) ["namespace"; "service"; "contract_version"]%string = false)
    as -> by (cbn [existsb]; rewrite F1, F2, F3; done).
  r_simpl. rewrite F1. r_simpl. rewrite string_ok. r_simpl. rewrite F2. r_simpl. rewrite string_ok. r_simpl.
  rewrite F3. r_simpl. rewrite int_positive_ok by done. by r_simpl.
Qed.

Definition with_request (e : RpcRequestEnvelope) (h p : wvalue) : RpcRequestEnvelope :=
  {| rq_message_id := rq_message_id e; rq_target := rq_target e; rq_created_at := rq_created_at e;
     rq_deadline_at := rq_deadline_at e; rq_correlation_id := rq_correlation_id e; rq_causation_id := rq_causation_id e;
     rq_reply_to := rq_reply_to e; rq_headers := h; rq_payload := p |}.

(** What a constructed request satisfies. *)
Record request_ok (e : RpcRequestEnvelope) : Prop := {
  ro_service : valid_service (rpc_service (rq_target e));
  ro_target : ∃ m v, RpcTarget_new (rpc_service (rq_target e)) m v = Ok (rq_target e);
  ro_times : ∃ c d, require_future_deadline c d = Ok (rq_created_at e, rq_deadline_at e);
  ro_ids : valid_uuid (rq_message_id e) ∧ valid_uuid (rq_correlation_id e) ∧
           ∀ u, rq_causation_id e = Some u → valid_uuid u;
  ro_reply : ReplyRoute_new (PyStr (rq_reply_to e)) = Ok (rq_reply_to e);
  ro_headers : ∃ h l, freeze_headers h l = Ok (rq_headers e);
  ro_keys : uniq (rq_headers e) = true ∧ builtin (rq_payload e)
}.

Lemma request_plain e h p : json_plain h = true → json_plain p = true → json_plain (WMap (request_value e h p)) = true.
Proof.
  intros Hh Hp. apply json_plain_map. split_and!.
  - apply (bool_decide_unpack _). reflexivity.
  - repeat constructor.
  - repeat (apply Forall_cons; split; [first [reflexivity|exact Hh|exact Hp|by destruct (rq_causation_id e)]|]). apply Forall_nil_2.
Qed.

Lemma decode_request_value limits data e h p :
  request_ok e → _decode_json limits data = Ok (request_value e h p) →
  ∀ f, _headers limits h = Ok f → freeze_headers f (Some limits) = Ok f →
  decode_request limits data = Ok (with_request e f p).
Proof.
  intros [Hs (m & v & Ht) (c & d & Hd) (U1 & U2 & U3) Hr _ _] Hj f Hf Hff. unfold decode_request. rewrite Hj. r_simpl.
  assert (_require_fields (request_value e h p) _REQUEST_FIELDS = Ok tt) as -> by reflexivity. r_simpl.
  read (optional_text (rq_causation_id e)). rewrite optional_uuid_roundtrip by done. r_simpl.
  assert (check_kind (request_value e h p) "rpc_request" = Ok tt) as -> by reflexivity. r_simpl.
  read (WStr (uuid_text (rq_message_id e))). rewrite uuid_roundtrip by done. r_simpl.
  destruct (target_again _ _ _ _ Ht) as (_ & Ht' & Hsv).
  destruct (deadline_again _ _ _ Hd) as (D1 & D2 & Hd'). cbn [fst snd] in D1, D2, Hd'.
  assert (_service (request_value e h p) = Ok (rpc_service (rq_target e))) as Hv by (apply service_roundtrip; [exact Hs|reflexivity..]).
  rewrite Hv. clear Hv. r_simpl.
  read (WStr (rpc_method (rq_target e))). rewrite string_ok. r_simpl.
  read (WInt (rpc_schema_version (rq_target e))). rewrite int_positive_ok by done. r_simpl.
  read (WStr (_timestamp (rq_created_at e))). rewrite timestamp_roundtrip by done. r_simpl.
  read (WStr (_timestamp (rq_deadline_at e))). rewrite timestamp_roundtrip by done. r_simpl.
  read (WStr (uuid_text (rq_correlation_id e))). rewrite uuid_roundtrip by done. r_simpl.
  read (WStr (rq_reply_to e)). rewrite string_ok. r_simpl. rewrite Hr. r_simpl.
  read h. rewrite Hf. r_simpl. read p. unfold RpcRequestEnvelope_new. rewrite Ht'. r_simpl. simpl require_uuid. r_simpl.
  rewrite py_optional. r_simpl. rewrite Hd'. r_simpl. rewrite Hff. by r_simpl.
Qed.

(** ** Responses *)

Definition with_outcome (e : RpcResponseEnvelope) (o : wvalue + RemoteRpcErrorData) : RpcResponseEnvelope :=
  {| rs_message_id := rs_message_id e; rs_correlation_id := rs_correlation_id e; rs_completed_at := rs_completed_at e;
     rs_outcome := o |}.
Definition with_details (d : RemoteRpcErrorData) (h : wvalue) : RemoteRpcErrorData :=
  {| rd_code := rd_code d; rd_message := rd_message d; rd_retryable := rd_retryable d; rd_details := h |}.

Definition error_ok (d : RemoteRpcErrorData) : Prop :=
  (∃ c m r h l, RemoteRpcErrorData_new c m r h l = Ok d) ∧ uniq (rd_details d) = true.

Record response_ok (e : RpcResponseEnvelope) : Prop := {
  so_ids : valid_uuid (rs_message_id e) ∧ valid_uuid (rs_correlation_id e);
  so_time : dt_offset (rs_completed_at e) = Some 0;
  so_outcome : match rs_outcome e with inl r => builtin r | inr d => error_ok d end
}.

Lemma error_again d : error_ok d →
  match rd_details d with WMap _ => True | _ => False end ∧
  ∀ f limits, freeze_headers f (Some limits) = Ok f →
    RemoteRpcErrorData_new (PyStr (rd_code d)) (PyStr (rd_message d)) (PyBool (rd_retryable d)) f (Some limits) =
    Ok (with_details d f).
Proof.
  intros [(c & m & r & h & l & Hd) _]. unfold RemoteRpcErrorData_new in *. apply result_bind_ok in Hd as (c' & Hc & Hd).
  apply result_bind_ok in Hd as (m' & Hm & Hd). apply result_bind_ok in Hd as ([] & Hl & Hd). destruct r; try done.
  apply result_bind_ok in Hd as (h' & Hh & [= <-]). split; [by eapply freeze_headers_map|]. intros f limits Hf. simpl rd_code.
  simpl rd_message. simpl rd_retryable.
  assert (∀ v s, non_empty v = Ok s → non_empty (PyStr s) = Ok s) as Hne
    by (intros v s; unfold non_empty; destruct v as [| | |[]| | | | | | |]; try done; by intros [= <-]).
  rewrite (Hne _ _ Hc), (Hne _ _ Hm). r_simpl. rewrite Hl. r_simpl. rewrite Hf. by r_simpl.
Qed.

Lemma remote_error_roundtrip limits d h f :
  error_ok d → _headers limits h = Ok f → freeze_headers f (Some limits) = Ok f →
  match h with WMap _ => True | _ => False end →
  _remote_error limits (WMap (error_value d h)) = Ok (with_details d f).
Proof.
  intros [_ Hd]%error_again Hf Hff Hh. unfold _remote_error.
  assert (_require_fields (error_value d h) ["code"; "message"; "retryable"; "details"]%string = Ok tt) as -> by reflexivity.
  r_simpl. read h. assert ((match h with WMap _ => _headers limits h | _ => Err WireDecodingError end) = Ok f) as ->
    by (by destruct h). r_simpl. read (WBool (rd_retryable d)). read (WStr (rd_code d)). rewrite string_ok. r_simpl.
  read (WStr (rd_message d)). rewrite string_ok. r_simpl. by rewrite Hd.
Qed.

Lemma decode_response_result limits data e r :
  response_ok e → _decode_json limits data = Ok (response_value e (item "result" r)) →
  decode_response limits data = Ok (with_outcome e (inl r)).
Proof.
  intros [[U1 U2] Ht _] Hj. unfold decode_response. rewrite Hj. r_simpl. set (v := response_value e _).
  assert (check_kind v "rpc_response" = Ok tt) as -> by reflexivity. r_simpl. assert (field v "result" = Some r) as -> by reflexivity. assert (field v "error" = None) as -> by reflexivity.
  read (WStr (uuid_text (rs_message_id e))). rewrite uuid_roundtrip by done. r_simpl.
  read (WStr (uuid_text (rs_correlation_id e))). rewrite uuid_roundtrip by done. r_simpl.
  read (WStr (_timestamp (rs_completed_at e))). rewrite timestamp_roundtrip by done. r_simpl.
  unfold RpcResponseEnvelope_new. simpl. by rewrite bool_decide_true.
Qed.

Lemma decode_response_error limits data e d h f :
  response_ok e → _decode_json limits data = Ok (response_value e (item "error" (WMap (error_value d h)))) →
  _remote_error limits (WMap (error_value d h)) = Ok (with_details d f) →
  decode_response limits data = Ok (with_outcome e (inr (with_details d f))).
Proof.
  intros [[U1 U2] Ht _] Hj Hd. unfold decode_response. rewrite Hj. r_simpl. set (x := WMap (error_value d h)) in *.
  set (v := response_value e _).
  assert (check_kind v "rpc_response" = Ok tt) as -> by reflexivity. r_simpl. assert (field v "result" = None) as -> by reflexivity. assert (field v "error" = Some x) as -> by reflexivity.
  read (WStr (uuid_text (rs_message_id e))). rewrite uuid_roundtrip by done. r_simpl.
  read (WStr (uuid_text (rs_correlation_id e))). rewrite uuid_roundtrip by done. r_simpl.
  read (WStr (_timestamp (rs_completed_at e))). rewrite timestamp_roundtrip by done. r_simpl.
  rewrite Hd. r_simpl. unfold RpcResponseEnvelope_new. simpl. by rewrite bool_decide_true.
Qed.

Lemma response_plain e n v : n ∈ ["result"; "error"]%string → json_plain v = true →
  json_plain (WMap (response_value e (item n v))) = true.
Proof.
  intros Hn Hv. apply json_plain_map. split_and!.
  - apply (bool_decide_unpack _). rewrite !elem_of_cons in Hn. destruct Hn as [->|[->|Hn]]; [reflexivity..|by apply not_elem_of_nil in Hn].
  - repeat constructor.
  - repeat (apply Forall_cons; split; [first [reflexivity|exact Hv]|]). apply Forall_nil_2.
Qed.
Lemma canonical_settled limits p c : builtin p → _canonical limits p = Ok c → _canonical limits c = Ok c.
Proof.
  intros Hp Hc. pose proof (canonical_payload _ _ _ Hp Hc) as Hj.
  assert (_canonical_builtins limits 0 c = Ok c) as Ha
    by (unfold _canonical in Hc; destruct p; try (destruct (to_builtins _) as [v|] eqn:Hv; [|done]); by eapply canonical_again).
  unfold _canonical. rewrite builtins_plain by done. by destruct c.
Qed.

(** ** Events *)

Record event_ok (e : EventEnvelope) : Prop := {
  eo_service : valid_service (ev_source (ee_identity e));
  eo_identity : ∃ n v, EventIdentity_new (ev_source (ee_identity e)) n v = Ok (ee_identity e);
  eo_time : dt_offset (ee_occurred_at e) = Some 0;
  eo_ids : valid_uuid (ee_message_id e) ∧ (∀ u, ee_correlation_id e = Some u → valid_uuid u) ∧
           ∀ u, ee_causation_id e = Some u → valid_uuid u;
  eo_headers : ∃ h l, freeze_headers h l = Ok (ee_headers e);
  eo_keys : uniq (ee_headers e) = true ∧ builtin (ee_payload e)
}.

Definition with_event (e : EventEnvelope) (h p : wvalue) : EventEnvelope :=
  {| ee_message_id := ee_message_id e; ee_identity := ee_identity e; ee_occurred_at := ee_occurred_at e;
     ee_correlation_id := ee_correlation_id e; ee_causation_id := ee_causation_id e; ee_headers := h; ee_payload := p |}.

Lemma event_plain e h p : json_plain h = true → json_plain p = true → json_plain (WMap (event_value e h p)) = true.
Proof.
  intros Hh Hp. apply json_plain_map. split_and!.
  - apply (bool_decide_unpack _). reflexivity.
  - repeat constructor.
  - repeat (apply Forall_cons; split; [first [reflexivity|exact Hh|exact Hp|by destruct (ee_correlation_id e)|by destruct (ee_causation_id e)]|]). apply Forall_nil_2.
Qed.

(** The decoded event is built with the default limits. *)
Lemma decode_event_value limits data e h p :
  event_ok e → _decode_json limits data = Ok (event_value e h p) →
  ∀ f, _headers limits h = Ok f →
  decode_event limits data = on_error decode_failure (g ← freeze_headers f None; Ok (with_event e g p)).
Proof.
  intros [Hs (n & v & Ht) Hd (U1 & U2 & U3) _ _] Hj f Hf. unfold decode_event. rewrite Hj. r_simpl.
  assert (_require_fields (event_value e h p) _EVENT_FIELDS = Ok tt) as -> by reflexivity. r_simpl.
  read (optional_text (ee_correlation_id e)). read (optional_text (ee_causation_id e)).
  rewrite !optional_uuid_roundtrip by done. r_simpl.
  assert (check_kind (event_value e h p) "event" = Ok tt) as -> by reflexivity. r_simpl.
  read (WStr (uuid_text (ee_message_id e))). rewrite uuid_roundtrip by done. r_simpl.
  destruct (event_again _ _ _ _ Ht) as (_ & Ht' & Hsv).
  assert (_service (event_value e h p) = Ok (ev_source (ee_identity e))) as Hv by (apply service_roundtrip; [exact Hs|reflexivity..]).
  rewrite Hv. clear Hv. r_simpl.
  read (WStr (ev_event (ee_identity e))). rewrite string_ok. r_simpl.
  read (WInt (ev_schema_version (ee_identity e))). rewrite int_positive_ok by done. r_simpl.
  read (WStr (_timestamp (ee_occurred_at e))). rewrite timestamp_roundtrip by done. r_simpl.
  read h. rewrite Hf. r_simpl. read p. unfold EventEnvelope_new. rewrite Ht'. r_simpl. simpl require_uuid. r_simpl.
  unfold require_utc. rewrite bool_decide_true by done. r_simpl. rewrite !py_optional. by r_simpl.
Qed.

(** ** Theorems *)

(** C31: Decoding an encoded request gives the request back: the same ids, target,
    times and reply route, the payload in canonical form, and headers with the
    same canonical form. What is decoded is encoded to the same bytes. *)
Theorem request_roundtrip limits e data :
  request_ok e → encode_request limits e = Ok data →
  ∃ f c, decode_request limits data = Ok (with_request e f c) ∧ _canonical limits (rq_payload e) = Ok c ∧
         _canonical_builtins limits 0 f = _canonical_builtins limits 0 (rq_headers e) ∧
         encode_request limits (with_request e f c) = Ok data.
Proof.
  intros He Hd. destruct (ro_keys e He) as [Hu Hb]. destruct (ro_headers e He) as (h0 & l0 & Hm%freeze_headers_map).
  unfold encode_request in Hd. apply result_bind_ok in Hd as (h & Hh & Hd). apply result_bind_ok in Hd as (c & Hc & Hd).
  destruct (headers_roundtrip _ _ _ Hh Hm) as (f & Hf & Hcf & Hff & Hhf).
  exists f, c. split_and!; [|done..|].
  - eapply decode_request_value; [done| |done..]. eapply json_roundtrip; [|exact Hd].
    apply request_plain; [by eapply checked_plain|by eapply canonical_payload].
  - unfold encode_request. simpl rq_headers. rewrite Hhf. r_simpl. simpl rq_payload.
    rewrite (canonical_settled _ _ _ Hb Hc). r_simpl. exact Hd.
Qed.

(** Decoding an encoded response gives the response back: a result in
    canonical form, or an error with the same code, message and retry advice and
    details with the same canonical form. *)
Theorem response_roundtrip limits e data :
  response_ok e → encode_response limits e = Ok data →
  match rs_outcome e with
  | inl r => ∃ c, decode_response limits data = Ok (with_outcome e (inl c)) ∧ _canonical limits r = Ok c
  | inr d => ∃ f, decode_response limits data = Ok (with_outcome e (inr (with_details d f))) ∧
                  _canonical_builtins limits 0 f = _canonical_builtins limits 0 (rd_details d)
  end.
Proof.
  intros He Hd. pose proof (so_outcome e He) as Ho. unfold encode_response in Hd. destruct (rs_outcome e) as [r|d].
  - apply result_bind_ok in Hd as (o & Hr & Hd). apply result_bind_ok in Hr as (c & Hc & [= <-]). exists c. split; [|done].
    apply decode_response_result; [done|]. eapply json_roundtrip; [|exact Hd].
    apply response_plain; [by left|by eapply canonical_payload].
  - apply result_bind_ok in Hd as (o & Hr & Hd). apply result_bind_ok in Hr as (h & Hh & [= <-]).
    destruct (error_again _ Ho) as [Hm _]. destruct (headers_roundtrip _ _ _ Hh Hm) as (f & Hf & Hcf & Hff & _).
    pose proof (checked_plain _ _ _ (proj2 Ho) Hm Hh) as Hp. exists f. split; [|done].
    assert (match h with WMap _ => True | _ => False end) as Hhm by (unfold _headers in Hf; by destruct h).
    apply (decode_response_error _ _ _ _ h); [done| |by apply remote_error_roundtrip]. eapply json_roundtrip; [|exact Hd].
    apply response_plain; [by right; left|]. apply json_plain_map. split_and!.
    + apply (bool_decide_unpack _). reflexivity.
    + repeat constructor.
    + repeat (apply Forall_cons; split; [first [reflexivity|exact Hp]|]). apply Forall_nil_2.
Qed.

(** An event with more headers than the default limits allow can be encoded
    with larger limits, but its decoder, which has the same limits, refuses it. *)
Theorem event_limits_ignored limits e data :
  event_ok e → max_header_count MessageLimits_default < zlen (items_of (ee_headers e)) →
  encode_event limits e = Ok data → decode_event limits data = Err WireDecodingError.
Proof.
  intros He Hn Hd. destruct (eo_keys e He) as [Hu Hb]. destruct (eo_headers e He) as (h0 & l0 & Hm%freeze_headers_map).
  unfold encode_event in Hd. apply result_bind_ok in Hd as (h & Hh & Hd). apply result_bind_ok in Hd as (c & Hc & Hd).
  destruct (headers_roundtrip _ _ _ Hh Hm) as (f & Hf & Hcf & Hff & Hhf).
  rewrite (decode_event_value limits data e h c He) with (f := f); [|eapply json_roundtrip; [|exact Hd]|done].
  2: { apply event_plain; [by eapply checked_plain|by eapply canonical_payload]. }
  pose proof (freeze_headers_map _ _ _ Hff) as Hfm.
  assert (zlen (items_of f) = zlen (items_of (ee_headers e))) as Hz.
  { assert (∀ x, _checked_headers limits x = Ok h → match x with WMap _ => True | _ => False end →
      ∃ l, h = WMap l ∧ zlen l = zlen (items_of x)) as Hx.
    { intros x Hx Hxm. unfold _checked_headers in Hx. apply result_bind_ok in Hx as (c' & Hp & Hx).
      apply result_bind_ok in Hx as (? & _ & Hx). apply result_bind_ok in Hx as ([] & _ & [= ->]).
      by destruct (plain_headers_ok _ _ _ Hp Hxm) as (_ & _ & ?). }
    destruct (Hx _ Hh Hm) as (l & -> & <-). destruct (Hx _ Hhf Hfm) as (l' & [= <-] & <-). done. }
  destruct f as [| | | | |items| |]; try done. simpl in Hz. unfold freeze_headers. destruct items as [|kv items]; simpl falsy.
  - unfold zlen in *. simpl in *. lia.
  - unfold raise_if. simpl default. rewrite (proj2 (Z.ltb_lt _ _)) by (rewrite Hz; exact Hn). done.
Qed.
End roundtrips.

(** ** At concrete envelopes *)

Definition encoded {A} (r : result ms_error A) (d : A) : A := match r with Ok a => a | Err _ => d end.

Lemma request_roundtrip_witness :
  ∃ f c, @decode_request bit_json bit_text wide_limits
           (encoded (@encode_request bit_json bit_text wide_limits sample_request) []) = Ok (with_request sample_request f c) ∧
         @_canonical bit_text wide_limits (rq_payload sample_request) = Ok c ∧
         _canonical_builtins wide_limits 0 f = _canonical_builtins wide_limits 0 (rq_headers sample_request) ∧
         @encode_request bit_json bit_text wide_limits (with_request sample_request f c) =
           Ok (encoded (@encode_request bit_json bit_text wide_limits sample_request) []).
Proof.
  apply (@request_roundtrip bit_json bit_text bit_laws); [|vm_compute; reflexivity]. split.
  - exists (PyStr (str "shop")), (PyStr (str "orders")), (PyInt 1). reflexivity.
  - exists (PyStr (str "get")), (PyInt 1). reflexivity.
  - exists (PyDatetime morning), (PyDatetime evening). reflexivity.
  - unfold valid_uuid. simpl. split_and!; try lia. intros u [= <-]. lia.
  - reflexivity.
  - exists (rq_headers sample_request), None. vm_compute. reflexivity.
  - split; [reflexivity|]. split; [reflexivity|]. intros v [= <-]. reflexivity.
Defined.

Lemma response_roundtrip_witness :
  ∃ f, @decode_response bit_json bit_text wide_limits
         (encoded (@encode_response bit_json bit_text wide_limits sample_response) []) =
       Ok (with_outcome sample_response (inr (with_details
         {| rd_code := str "not_found"; rd_message := str "no order"; rd_retryable := false;
            rd_details := WMap [(KeyStr (str "id"), WInt 7)] |} f))) ∧
       _canonical_builtins wide_limits 0 f = _canonical_builtins wide_limits 0 (WMap [(KeyStr (str "id"), WInt 7)]).
Proof.
  apply (@response_roundtrip bit_json bit_text bit_laws wide_limits sample_response); [|vm_compute; reflexivity]. split.
  - unfold valid_uuid. simpl. lia.
  - reflexivity.
  - split; [|reflexivity].
    exists (PyStr (str "not_found")), (PyStr (str "no order")), (PyBool false), (WMap [(KeyStr (str "id"), WInt 7)]), None.
    vm_compute. reflexivity.
Defined.

Lemma event_limits_ignored_witness :
  @decode_event bit_json bit_text wide_limits
    (encoded (@encode_event bit_json bit_text wide_limits sample_event) []) = Err WireDecodingError.
Proof.
  apply (@event_limits_ignored bit_json bit_text bit_laws wide_limits sample_event);
    [|vm_compute; reflexivity|vm_compute; reflexivity]. split.
  - exists (PyStr (str "shop")), (PyStr (str "orders")), (PyInt 1). reflexivity.
  - exists (PyStr (str "placed")), (PyInt 1). reflexivity.
  - reflexivity.
  - unfold valid_uuid. simpl. split_and!; [lia|lia|intros u [=]..].
  - exists (ee_headers sample_event), (Some wide_limits). vm_compute. reflexivity.
  - split; [vm_compute; reflexivity|]. split; [reflexivity|]. intros v [= <-]. reflexivity.
Defined.
