(* ===== verification/MsInvoke.v ===== *)
(** * Microservices: invoking a handler

    [invocation.py], [plans.py] and [contexts.py] of [tori_py_microservices]. The
    application, with the container that resolves its objects, is the class
    [Application] over a state of its own; an object is its identity. *)

From Stdlib Require Import ZArith Lia.
From stdpp Require Import base tactics list gmap strings.
From S2P Require Import Prelude Pipeline MsWire MsValues MsCodec.
Local Open Scope Z_scope.

(** The exceptions the pipeline tells apart. [PackageError] is any other
    [Exception], [NotAnException] a [BaseException] that is none. *)
Inductive msg_error :=
| MessageAuthorizationError
| MessageConfigurationError
| MessageRetryableError
| MessageRejectedError
| PublicRpcError (code message : pystr) (retryable : bool) (details : wvalue)
| MessageInvocationError
| PipelineStateError
| ScopeFinalizationError (body_error : option msg_error)
| PackageError (e : ms_error)
| NotAnException (id : Z).

Definition is_exception (e : msg_error) : bool := match e with NotAnException _ => false | _ => true end.

Definition PublicRpcError_new (code message retryable : pyobj) (details : wvalue) : result ms_error msg_error :=
  match code, message, retryable with
  | PyStr (c :: cs), PyStr (m :: ms), PyBool b =>
      match details with
      | WNone => Ok (PublicRpcError (c :: cs) (m :: ms) b (WMap []))
      | WMap _ => Ok (PublicRpcError (c :: cs) (m :: ms) b details)
      | _ => Err MsTypeError
      end
  | _, _, _ => Err MsValueError
  end.

Definition pack {A} (r : result ms_error A) : result msg_error A :=
  match r with Ok a => Ok a | Err e => Err (PackageError e) end.

(** ** Plans *)

Record provider_ref := { ref_id : Z; ref_token : Z }.

Inductive parameter_kind := KPayload | KHeaders | KHeader | KContext | KInject | KUnknown.
#[export] Instance parameter_kind_eq_dec : EqDecision parameter_kind.
Proof. solve_decision. Defined.

(** [pm_annotation] is [None] for no annotation, [object] and [Any];
    [pm_default] is [None] for [RESULT_MISSING]. *)
Record MessageParameterPlan := {
  pm_name : pystr;
  pm_annotation : option Z;
  pm_kind : parameter_kind;
  pm_source : option pystr;
  pm_token : option Z;
  pm_provider_ref : option provider_ref;
  pm_default : option wvalue;
  pm_has_default : bool
}.

(** A binding is an object, or a token: a string or a class. *)
Inductive binding := BObject (o : Z) | BToken (t : Z).

Inductive pipeline_kind := Guards | Pipes | Interceptors | Filters.
#[export] Instance pipeline_kind_eq_dec : EqDecision pipeline_kind.
Proof. solve_decision. Defined.

Record PipelinePlan := {
  pp_guards : list binding;
  pp_pipes : list binding;
  pp_interceptors : list binding;
  pp_filters : list binding;
  qualified_provider_refs : list (pipeline_kind * provider_ref)
}.

Definition bindings_of (kind : pipeline_kind) (p : PipelinePlan) : list binding :=
  match kind with
  | Guards => pp_guards p | Pipes => pp_pipes p | Interceptors => pp_interceptors p | Filters => pp_filters p
  end.

(** [RpcMetadata] and [EventHandlerMetadata]. *)
Inductive handler_metadata :=
| RpcMetadata (method : pystr) (schema_version : Z) (service_identity : option ServiceIdentity)
| EventHandlerMetadata (identity : EventIdentity) (mode : dispatch_mode) (subscription : pystr) (reliable : bool).

(** [RpcHandlerPlan] and [EventHandlerPlan], by their metadata. *)
Record HandlerPlan := {
  pl_module_id : Z;
  pl_controller_ref : provider_ref;
  pl_controller : Z;
  pl_method_name : pystr;
  pl_metadata : handler_metadata;
  pl_parameters : list MessageParameterPlan;
  pl_return_annotation : option Z;
  pl_controller_pipeline : PipelinePlan;
  pl_method_pipeline : PipelinePlan
}.

Definition is_event (p : HandlerPlan) : bool :=
  match pl_metadata p with EventHandlerMetadata _ _ _ _ => true | _ => false end.

(** ** Invocations and their results *)

Record MessageInvocation := {
  mi_application_id : pystr;
  mi_message_id : uuid;
  mi_correlation_id : option uuid;
  mi_payload : wvalue;
  mi_headers : wvalue;
  mi_metadata : wvalue;
  mi_causation_id : option uuid;
  mi_received_at : datetime;
  mi_expires_at : option datetime;
  mi_attempt : Z;
  mi_redelivered : bool;
  mi_native : option native_value;
  mi_limits : MessageLimits
}.

Record PipelineResult := { pr_value : wvalue; is_response : bool }.

(** [result] and [encoded_response] are [None] for [RESULT_MISSING]. *)
Record InvocationCompletion := {
  recommendation : SettlementRecommendation;
  ic_result : option wvalue;
  encoded_response : option bytes;
  body_error : option msg_error;
  scope_error : option msg_error
}.

Definition succeeded (c : InvocationCompletion) : bool :=
  match recommendation c, body_error c, scope_error c with ACK, None, None => true | _, _, _ => false end.

(** What guards, pipes, interceptors and filters see of a message. *)
Record MessageContext := {
  mc_kind : bool;
  mc_application : pystr;
  mc_module_identity : Z;
  mc_handler : Z * pystr;
  mc_correlation_id : option uuid;
  mc_message_metadata : wvalue;
  mc_message_id : option uuid;
  mc_causation_id : option uuid;
  mc_received_at : datetime;
  mc_expires_at : option datetime;
  mc_attempt : Z;
  mc_redelivered : bool;
  mc_native_value : option native_value;
  mc_limits : MessageLimits
}.

Record ArgumentMetadata := {
  am_parameter_name : pystr;
  am_binding_kind : parameter_kind;
  am_source_name : option pystr;
  am_annotation : option Z;
  am_route_id : pystr;
  am_module_id : Z
}.

Inductive argument := AValue (v : wvalue) | AContext | AObject (o : Z).

(** The code of the application, its container and [msgspec.convert]. *)
Class Application (S : Type) := {
  qualified : bool;
  resolve : Z → M S msg_error Z;
  resolve_ref : provider_ref → M S msg_error Z;
  can_activate : Z → MessageContext → M S msg_error bool;
  transform : Z → argument → ArgumentMetadata → M S msg_error argument;
  intercept : Z → MessageContext → icode S msg_error PipelineResult (option PipelineResult);
  catch : Z → msg_error → MessageContext → M S msg_error (option PipelineResult);
  handler : Z → pystr → option (list (pystr * argument) → M S msg_error wvalue);
  convert : wvalue → Z → option wvalue;
  enter_scope : Z → M S msg_error unit;
  exit_scope : option msg_error → M S msg_error unit
}.

(** ** Construction *)

(** [isinstance(attempt, int)] holds of booleans too. *)
Definition int_attempt (v : pyobj) : result ms_error Z :=
  match v with
  | PyInt n => if n <=? 0 then Err MsValueError else Ok n
  | PyBool true => Ok 1
  | _ => Err MsValueError
  end.

Section construction.
Context `{Json}.

Definition MessageInvocation_new (application_id message_id correlation_id causation_id received_at expires_at attempt : pyobj)
    (payload headers metadata : wvalue) (redelivered : bool) (native : option native_value) (limits : MessageLimits)
    : result ms_error MessageInvocation :=
  app ← match application_id with PyStr (c :: r) => Ok (c :: r) | _ => Err MsValueError end;
  n ← int_attempt attempt;
  m ← require_uuid message_id;
  co ← optional_id correlation_id;
  ca ← optional_id causation_id;
  t ← require_utc received_at;
  e ← optional_utc expires_at;
  h ← freeze_headers headers (Some limits);
  md ← freeze_headers metadata (Some limits);
  Ok {| mi_application_id := app; mi_message_id := m; mi_correlation_id := co; mi_payload := payload; mi_headers := h;
        mi_metadata := md; mi_causation_id := ca; mi_received_at := t; mi_expires_at := e; mi_attempt := n;
        mi_redelivered := redelivered; mi_native := native; mi_limits := limits |}.

(** [MessageContext.__post_init__] repeats the checks of the invocation; the
    headers are frozen again. *)
Definition _make_context (plan : HandlerPlan) (inv : MessageInvocation) : result ms_error MessageContext :=
  md ← freeze_headers (mi_metadata inv) (Some (mi_limits inv));
  Ok {| mc_kind := is_event plan; mc_application := mi_application_id inv; mc_module_identity := pl_module_id plan;
        mc_handler := (pl_controller plan, pl_method_name plan); mc_correlation_id := mi_correlation_id inv;
        mc_message_metadata := md; mc_message_id := Some (mi_message_id inv); mc_causation_id := mi_causation_id inv;
        mc_received_at := mi_received_at inv; mc_expires_at := mi_expires_at inv; mc_attempt := mi_attempt inv;
        mc_redelivered := mi_redelivered inv; mc_native_value := mi_native inv; mc_limits := mi_limits inv |}.
End construction.

(** ** The executor *)

Section executor.
Context {S : Type} `{Json} `{Application S}.

(** The entries of a kind, global ones first: the binding, its qualified
    reference, and whether a bare token may be resolved. *)
Fixpoint entries_of (refs : list provider_ref) (fallback : bool) (bs : list binding)
    : list (binding * option provider_ref * bool) :=
  match bs with
  | [] => []
  | BToken t :: bs => (BToken t, head refs, fallback) :: entries_of (tail refs) fallback bs
  | BObject o :: bs => (BObject o, None, fallback) :: entries_of refs fallback bs
  end.

Definition pipeline_part (kind : pipeline_kind) (fallback : bool) (p : PipelinePlan)
    : list (binding * option provider_ref * bool) :=
  entries_of (snd <$> filter (λ kr, kr.1 = kind) (qualified_provider_refs p)) fallback (bindings_of kind p).

Definition _pipeline_entries (global : PipelinePlan) (kind : pipeline_kind) (plan : HandlerPlan)
    : list (binding * option provider_ref * bool) :=
  pipeline_part kind false global ++ pipeline_part kind true (pl_controller_pipeline plan) ++
  pipeline_part kind true (pl_method_pipeline plan).

Definition _resolve_ref (ref : option provider_ref) (token : Z) : M S msg_error Z :=
  match ref with
  | None => resolve token
  | Some r => if qualified then resolve_ref r else raise MessageConfigurationError
  end.

Definition _resolve_binding (entry : binding * option provider_ref * bool) : M S msg_error Z :=
  match entry with
  | (b, None, fallback) =>
      match b with
      | BToken t => if fallback then resolve t else raise MessageConfigurationError
      | BObject o => mret o
      end
  | (_, Some r, _) => _resolve_ref (Some r) (ref_token r)
  end.

Fixpoint _run_guards (ctx : MessageContext) (entries : list (binding * option provider_ref * bool)) : M S msg_error unit :=
  match entries with
  | [] => mret tt
  | entry :: entries =>
      guard ← _resolve_binding entry;
      ok ← can_activate guard ctx;
      throw_if (negb ok) MessageAuthorizationError;;
      _run_guards ctx entries
  end.

(** [value[source]], or the default, or [RESULT_MISSING]. *)
Definition _field (value : wvalue) (source : option pystr) (p : MessageParameterPlan) : option wvalue :=
  match source with
  | None => Some value
  | Some k => match value with
              | WMap items => match dict_get items (KeyStr k) with
                              | Some v => Some v
                              | None => if pm_has_default p then pm_default p else None
                              end
              | _ => if pm_has_default p then pm_default p else None
              end
  end.

Definition _prepare_argument (p : MessageParameterPlan) (inv : MessageInvocation) : result msg_error (option wvalue) :=
  let value := match pm_kind p with
               | KPayload => _field (mi_payload inv) (pm_source p) p
               | KHeaders => Some (mi_headers inv)
               | _ => _field (mi_headers inv) (pm_source p) p
               end in
  match value with
  | None => if pm_has_default p then Ok (pm_default p) else Err MessageRejectedError
  | Some v =>
      match pm_kind p, pm_annotation p with
      | KHeaders, _ | _, None => Ok (Some v)
      | _, Some a => match convert v a with Some v => Ok (Some v) | None => Err MessageRejectedError end
      end
  end.

Definition is_data (k : parameter_kind) : bool := match k with KPayload | KHeaders | KHeader => true | _ => false end.

Fixpoint _prepare_arguments (ps : list MessageParameterPlan) (inv : MessageInvocation)
    (acc : list (pystr * option wvalue)) : result msg_error (list (pystr * option wvalue)) :=
  match ps with
  | [] => Ok acc
  | p :: ps =>
      acc ← if is_data (pm_kind p) then v ← _prepare_argument p inv; Ok (dict_set acc (pm_name p) v) else Ok acc;
      _prepare_arguments ps inv acc
  end.

Definition bind_value (inv : MessageInvocation) (prepared : option (list (pystr * option wvalue))) (p : MessageParameterPlan)
    : M S msg_error (option argument) :=
  match pm_kind p with
  | KPayload | KHeaders | KHeader =>
      v ← match prepared with
          | None => lift (_prepare_argument p inv)
          | Some d => match dict_get d (pm_name p) with Some v => mret v | None => raise (PackageError MsKeyError) end
          end;
      mret (AValue <$> v)
  | KContext => mret (Some AContext)
  | KInject =>
      match pm_token p with
      | None => raise MessageConfigurationError
      | Some t => o ← _resolve_ref (pm_provider_ref p) t; mret (Some (AObject o))
      end
  | KUnknown => raise MessageConfigurationError
  end.

Fixpoint _bind_arguments (inv : MessageInvocation) (prepared : option (list (pystr * option wvalue)))
    (ps : list MessageParameterPlan) (arguments : list (pystr * argument)) : M S msg_error (list (pystr * argument)) :=
  match ps with
  | [] => mret arguments
  | p :: ps =>
      value ← bind_value inv prepared p;
      match (match value with None => if pm_has_default p then AValue <$> pm_default p else None | _ => value end) with
      | None => raise MessageConfigurationError
      | Some v => _bind_arguments inv prepared ps (dict_set arguments (pm_name p) v)
      end
  end.

(** One parameter through all pipes; what is not a mapping is refused as headers. *)
Fixpoint pipe_chain (inv : MessageInvocation) (kind : parameter_kind) (md : ArgumentMetadata) (pipes : list Z) (v : argument)
    : M S msg_error argument :=
  match pipes with
  | [] => mret v
  | pipe :: pipes =>
      t ← transform pipe v md;
      t ← match kind with
          | KHeaders => match t with
                        | AValue x => f ← lift (pack (freeze_headers x (Some (mi_limits inv)))); mret (AValue f)
                        | _ => raise (PackageError WireValidationError)
                        end
          | _ => mret t
          end;
      pipe_chain inv kind md pipes t
  end.

Fixpoint pipe_arguments (plan : HandlerPlan) (inv : MessageInvocation) (pipes : list Z) (ps : list MessageParameterPlan)
    (arguments : list (pystr * argument)) : M S msg_error (list (pystr * argument)) :=
  match ps with
  | [] => mret arguments
  | p :: ps =>
      if negb (is_data (pm_kind p)) && negb (bool_decide (pm_kind p = KUnknown)) then pipe_arguments plan inv pipes ps arguments
      else
        match dict_get arguments (pm_name p) with
        | None => match pipes with [] => pipe_arguments plan inv pipes ps arguments | _ => raise (PackageError MsKeyError) end
        | Some v =>
            v ← pipe_chain inv (pm_kind p)
                  {| am_parameter_name := pm_name p; am_binding_kind := pm_kind p; am_source_name := pm_source p;
                     am_annotation := pm_annotation p; am_route_id := pl_method_name plan;
                     am_module_id := pl_module_id plan |} pipes v;
            pipe_arguments plan inv pipes ps (dict_set arguments (pm_name p) v)
        end
  end.

Definition _run_pipes (global : PipelinePlan) (plan : HandlerPlan) (inv : MessageInvocation)
    (arguments : list (pystr * argument)) : M S msg_error (list (pystr * argument)) :=
  pipes ← mapM _resolve_binding (_pipeline_entries global Pipes plan);
  pipe_arguments plan inv pipes (pl_parameters plan) arguments.

Definition _call_handler (plan : HandlerPlan) (arguments : list (pystr * argument)) : M S msg_error wvalue :=
  controller ← _resolve_ref (Some (pl_controller_ref plan)) (pl_controller plan);
  match handler controller (pl_method_name plan) with
  | None => raise MessageConfigurationError
  | Some h => h arguments
  end.

Definition _run_interceptors (global : PipelinePlan) (plan : HandlerPlan) (ctx : MessageContext) (terminal : M S msg_error wvalue)
    : M S msg_error PipelineResult :=
  dispatch PipelineStateError (λ entry, o ← _resolve_binding entry; mret (intercept o ctx))
    (λ o, match o with Some r => Ok r | None => Err MessageConfigurationError end)
    (_pipeline_entries global Interceptors plan)
    (v ← terminal; mret {| pr_value := v; is_response := false |}).

Definition _run_pipeline (global : PipelinePlan) (plan : HandlerPlan) (ctx : MessageContext) (inv : MessageInvocation)
    (prepared : option (list (pystr * option wvalue))) : M S msg_error PipelineResult :=
  _run_guards ctx (_pipeline_entries global Guards plan);;
  arguments ← _bind_arguments inv prepared (pl_parameters plan) [];
  arguments ← _run_pipes global plan inv arguments;
  _run_interceptors global plan ctx (_call_handler plan arguments).

(** [None] for [RESULT_MISSING]. *)
Fixpoint _run_filters (ctx : MessageContext) (e : msg_error) (entries : list (binding * option provider_ref * bool))
    : M S msg_error (option PipelineResult) :=
  match entries with
  | [] => mret None
  | entry :: entries =>
      r ← try_except (f ← _resolve_binding entry; catch f e ctx)
            (λ err, if is_exception err then mret None else raise err);
      match r with Some r => mret (Some r) | None => _run_filters ctx e entries end
  end.

Definition _validate_result (v : wvalue) (annotation : option Z) : result msg_error wvalue :=
  match annotation with
  | None => Ok v
  | Some a => match convert v a with Some v => Ok v | None => Err MessageConfigurationError end
  end.

Definition _validate_handler_result (plan : HandlerPlan) (v : wvalue) : result msg_error wvalue :=
  r ← _validate_result v (pl_return_annotation plan);
  _ ← raise_if (is_event plan && negb (match r with WNone => true | _ => false end)) MessageConfigurationError;
  Ok r.

Definition _recommendation (e : msg_error) (plan : HandlerPlan) : SettlementRecommendation :=
  match e with
  | MessageAuthorizationError | MessageRejectedError | MessageConfigurationError => REJECT
  | MessageRetryableError => RETRY
  | PublicRpcError _ _ _ _ | MessageInvocationError => REJECT
  | _ => if is_event plan then RETRY else REJECT
  end.

Definition _scope_recommendation (e : option msg_error) : SettlementRecommendation := UNSETTLED.

Definition success (v : wvalue) (encoded : option bytes) : InvocationCompletion :=
  {| recommendation := ACK; ic_result := Some v; encoded_response := encoded; body_error := None; scope_error := None |}.
Definition failure (r : SettlementRecommendation) (body scope : option msg_error) : InvocationCompletion :=
  {| recommendation := r; ic_result := None; encoded_response := None; body_error := body; scope_error := scope |}.

Definition _encode_result (encode : wvalue → M S msg_error bytes) (v : wvalue) : M S msg_error bytes :=
  try_except (encode v) (λ e, raise (if is_exception e then MessageConfigurationError else e)).

(** The result of an event handler is not encoded. *)
Definition encoded_if_rpc (plan : HandlerPlan) (encode : wvalue → M S msg_error bytes) (v : wvalue)
    : M S msg_error (option bytes) :=
  if is_event plan then mret None else b ← encode v; mret (Some b).

(** The handler of [run]'s [except] clause. *)
Definition run_failed (global : PipelinePlan) (plan : HandlerPlan) (ctx : MessageContext)
    (encode : wvalue → M S msg_error bytes) (e : msg_error) : M S msg_error InvocationCompletion :=
  if negb (is_exception e) then raise e
  else
    replacement ← _run_filters ctx e (_pipeline_entries global Filters plan);
    match replacement with
    | None => mret (failure (_recommendation e plan) (Some e) None)
    | Some r =>
        if is_response r
        then mret (failure (_recommendation MessageConfigurationError plan) (Some MessageConfigurationError) None)
        else
          try_except
            (v ← lift (_validate_handler_result plan (pr_value r));
             b ← encoded_if_rpc plan (_encode_result encode) v;
             mret (success v b))
            (λ err, match err with
                    | MessageConfigurationError =>
                        mret (failure (_recommendation MessageConfigurationError plan) (Some MessageConfigurationError) None)
                    | _ => raise err
                    end)
    end.

Definition run (global : PipelinePlan) (plan : HandlerPlan) (ctx : MessageContext) (inv : MessageInvocation)
    (encode : wvalue → M S msg_error bytes) (prepared : option (list (pystr * option wvalue)))
    : M S msg_error InvocationCompletion :=
  try_except
    (r ← _run_pipeline global plan ctx inv prepared;
     throw_if (is_response r) MessageConfigurationError;;
     v ← lift (_validate_handler_result plan (pr_value r));
     b ← encoded_if_rpc plan encode v;
     mret (success v b))
    (run_failed global plan ctx encode).

(** [work_scopes.run_in]: the operation inside [async with]; an error of the exit
    replaces the error of the body. *)
Definition run_in {A} (module_id : Z) (operation : M S msg_error A) : M S msg_error A :=
  enter_scope module_id;;
  r ← (λ s, let '(r, s1) := operation s in (Ok r, s1));
  exit_scope (match r with Err e => Some e | Ok _ => None end);;
  lift r.

Definition invoke (global : PipelinePlan) (plan : HandlerPlan) (inv : MessageInvocation)
    (encode : wvalue → M S msg_error bytes) : M S msg_error InvocationCompletion :=
  match _prepare_arguments (pl_parameters plan) inv [] with
  | Err e => if is_exception e then mret (failure REJECT (Some e) None) else raise e
  | Ok prepared =>
      try_except
        (run_in (pl_module_id plan)
          (ctx ← lift (pack (_make_context plan inv));
           run global plan ctx inv encode (Some prepared)))
        (λ e, match e with
              | ScopeFinalizationError body =>
                  let body := match body with Some b => if is_exception b then Some b else None | None => None end in
                  mret (failure (_scope_recommendation body) body (Some e))
              | _ => if is_exception e then mret (failure (_scope_recommendation (Some e)) None (Some e)) else raise e
              end)
  end.
End executor.
