(* ===== verification/MsInvokeProperties.v ===== *)
(** * Microservices: what an invocation guarantees *)

From Stdlib Require Import ZArith Lia.
From stdpp Require Import base tactics list gmap strings.
From S2P Require Import Prelude Pipeline MsWire MsValues MsCodec MsInvoke.
Local Open Scope Z_scope.

Section frames.
Context {S : Type} `{Json} `{Application S}.
Implicit Types (plan : HandlerPlan) (ctx : MessageContext) (inv : MessageInvocation).

(** Resolving objects, guards, filters and scopes do not change the view. *)
Record quiet_edges {T} (view : S → T) : Prop := {
  qa_resolve t : keeps view (resolve t);
  qa_resolve_ref r : keeps view (resolve_ref r);
  qa_guard o ctx : keeps view (can_activate o ctx);
  qa_filter o e ctx : keeps view (catch o e ctx);
  qa_enter m : keeps view (enter_scope m);
  qa_exit e : keeps view (exit_scope e)
}.

(** No code of the application but its handlers does. *)
Record quiet_app {T} (view : S → T) : Prop := {
  qa_edges : quiet_edges view;
  qa_pipe o v md : keeps view (transform o v md);
  qa_intercept o ctx : quiet view (intercept o ctx)
}.

Context {T : Type} (view : S → T) (Hq : quiet_edges view).

Lemma resolve_ref_keeps r t : keeps view (_resolve_ref r t).
Proof. destruct Hq. unfold _resolve_ref. solve_keeps; auto. Qed.

Lemma resolve_binding_keeps entry : keeps view (_resolve_binding entry).
Proof. pose proof resolve_ref_keeps. destruct Hq, entry as [[b r] f]. unfold _resolve_binding. solve_keeps; auto. Qed.

Hint Resolve resolve_ref_keeps resolve_binding_keeps : tori.

Lemma run_guards_keeps ctx entries : keeps view (_run_guards ctx entries).
Proof. destruct Hq. induction entries; simpl; solve_keeps; auto. Qed.

Lemma bind_arguments_keeps inv prepared ps args : keeps view (_bind_arguments inv prepared ps args).
Proof.
  revert args. induction ps as [|p ps IH]; intros args; simpl; [apply keeps_ret|]. unfold bind_value.
  apply keeps_bind; [solve_keeps|]. intros v. case_match; [apply IH|apply keeps_raise].
Qed.

Lemma pipe_chain_keeps inv kind md pipes v : quiet_app view → keeps view (pipe_chain inv kind md pipes v).
Proof.
  intros []. revert v. induction pipes as [|q pipes IH]; intros v; simpl; [apply keeps_ret|].
  apply keeps_bind; [done|]. intros t. apply keeps_bind; [solve_keeps|]. done.
Qed.

Lemma run_pipes_keeps global plan inv args : quiet_app view → keeps view (_run_pipes global plan inv args).
Proof.
  intros Ha. unfold _run_pipes. apply keeps_bind; [apply keeps_mapM, resolve_binding_keeps|]. intros pipes. revert args.
  induction (pl_parameters plan) as [|p ps IH]; intros args; simpl; [apply keeps_ret|]. case_match; [done|].
  case_match; [|case_match; [done|apply keeps_raise]]. apply keeps_bind; [by apply pipe_chain_keeps|]. done.
Qed.

Lemma run_filters_keeps ctx e entries : keeps view (_run_filters ctx e entries).
Proof.
  destruct Hq. induction entries as [|entry entries IH]; simpl; [apply keeps_ret|].
  apply keeps_bind; [|intros [r|]; [apply keeps_ret|done]]. apply keeps_try; [solve_keeps; auto|intros err; solve_keeps].
Qed.

(** Resolving the interceptors of the chain. *)
Lemma wrap_quiet ctx entry :
  quiet_app view → keeps view (o ← _resolve_binding entry; mret (intercept o ctx)) ∧
  ∀ s p, ((o ← _resolve_binding entry; mret (intercept o ctx)) s).1 = Ok p → quiet view p.
Proof.
  intros Ha. split; [apply keeps_bind; [auto with tori|intros; apply keeps_ret]|]. intros s p Hp. unfold mbind, M_bind in Hp.
  destruct (_resolve_binding entry s) as [[o|] s1]; simplify_eq/=. by apply qa_intercept.
Qed.

Context (encode : wvalue → M S msg_error bytes) (He : ∀ v, keeps view (encode v)).

Lemma encoded_keeps plan v : keeps view (encoded_if_rpc plan encode v).
Proof. unfold encoded_if_rpc. solve_keeps; auto. Qed.

Lemma run_failed_keeps global plan ctx e : keeps view (run_failed global plan ctx encode e).
Proof.
  unfold run_failed. case_match; [apply keeps_raise|]. apply keeps_bind; [apply run_filters_keeps|].
  intros [r|]; [|apply keeps_ret]. case_match; [apply keeps_ret|]. apply keeps_try; [|intros err; solve_keeps].
  unfold encoded_if_rpc, _encode_result. solve_keeps; auto.
Qed.

(** What a run does after its pipeline. *)
Lemma run_rest_keeps plan r :
  keeps view (throw_if (is_response r) MessageConfigurationError;;
              v ← lift (_validate_handler_result plan (pr_value r));
              b ← encoded_if_rpc plan encode v;
              mret (success v b)).
Proof.
  apply keeps_bind; [apply keeps_throw|]. intros _. apply keeps_bind; [apply keeps_lift|]. intros v.
  apply keeps_bind; [apply encoded_keeps|]. intros b. apply keeps_ret.
Qed.
End frames.

Section counting.
Context {S : Type} `{Json} `{Application S}.

(** [count] counts calls of handlers: no other code of the application moves it. *)
Record counts_handlers (count : S → Z) : Prop := {
  ch_quiet : quiet_app count;
  ch_handler c m h args : handler c m = Some h → grows count 1 (h args)
}.

Context (count : S → Z) (Hc : counts_handlers count).

Lemma run_pipeline_grows global plan ctx inv prepared : grows count 1 (_run_pipeline global plan ctx inv prepared).
Proof.
  destruct Hc as [Hq Hh]. pose proof (qa_edges _ Hq). unfold _run_pipeline. apply grows_bind_r; [done|by apply run_guards_keeps|]. intros _.
  apply grows_bind_r; [done|by apply bind_arguments_keeps|]. intros args.
  apply grows_bind_r; [done|by apply run_pipes_keeps|]. intros args'.
  apply dispatch_grows; [done| |intros entry _; by apply wrap_quiet].
  apply grows_bind_l; [|intros; apply keeps_ret]. unfold _call_handler. apply grows_bind_r; [done|by apply resolve_ref_keeps|].
  intros c. destruct (handler c _) as [h|] eqn:Hhd; [by eapply Hh|]. apply grows_keeps_n; [done|apply keeps_raise].
Qed.

Context (encode : wvalue → M S msg_error bytes) (He : ∀ v, keeps count (encode v)).

Lemma run_grows global plan ctx inv prepared : grows count 1 (run global plan ctx inv encode prepared).
Proof.
  pose proof (qa_edges _ (ch_quiet _ Hc)). apply grows_try; [|intros e; by apply run_failed_keeps].
  apply grows_bind_l; [apply run_pipeline_grows|]. intros r. by apply run_rest_keeps.
Qed.

Lemma run_in_grows {A} m (op : M S msg_error A) : grows count 1 op → grows count 1 (run_in m op).
Proof.
  pose proof (qa_edges _ (ch_quiet _ Hc)). intros Hop. unfold run_in. apply grows_bind_r; [done|by apply qa_enter|]. intros _. apply grows_bind_l.
  - intros s. specialize (Hop s). by destruct (op s).
  - intros r. apply keeps_bind; [by apply qa_exit|]. intros _. apply keeps_lift.
Qed.
End counting.

(** A view that the handlers do not change either is left alone. *)
Lemma invoke_keeps {S T} `{Json} `{Application S} (view : S → T) global plan inv encode :
  quiet_app view → (∀ c m h args, handler c m = Some h → keeps view (h args)) → (∀ v, keeps view (encode v)) →
  keeps view (invoke global plan inv encode).
Proof.
  intros Hq Hh He. pose proof (qa_edges _ Hq). unfold invoke. case_match; [|solve_keeps]. apply keeps_try; [|intros e; solve_keeps]. unfold run_in.
  apply keeps_bind; [by apply qa_enter|]. intros _. apply keeps_bind.
  - assert (∀ ctx, keeps view (run global plan ctx inv encode (Some a))) as Hr.
    { intros ctx. apply keeps_try; [|intros e; by apply run_failed_keeps]. apply keeps_bind; [|intros r; by apply run_rest_keeps].
      unfold _run_pipeline. apply keeps_bind; [by apply run_guards_keeps|]. intros _.
      apply keeps_bind; [by apply bind_arguments_keeps|]. intros args. apply keeps_bind; [by apply run_pipes_keeps|]. intros args'.
      apply dispatch_keeps; [|intros entry _; by apply wrap_quiet]. apply keeps_bind; [|intros; apply keeps_ret].
      unfold _call_handler. apply keeps_bind; [by apply resolve_ref_keeps|]. intros c.
      destruct (handler c _) as [h|] eqn:Hhd; [by eapply Hh|apply keeps_raise]. }
    assert (keeps view (ctx ← lift (pack (_make_context plan inv)); run global plan ctx inv encode (Some a))) as Hop
      by (apply keeps_bind; [apply keeps_lift|done]).
    intros s. specialize (Hop s). by match goal with |- context [let '(_, _) := ?x in _] => destruct x end.
  - intros r. apply keeps_bind; [by apply qa_exit|]. intros _. apply keeps_lift.
Qed.

Section table.
Context {S : Type} `{Json} `{Application S}.
Implicit Types (plan : HandlerPlan) (ctx : MessageContext) (inv : MessageInvocation).

(** Errors that leave the executor. *)
Definition escapes (e : msg_error) : Prop := is_exception e = false.

(** What a completion can be when [Enc] relates results to their encodings. *)
Definition completion_ok (Enc : wvalue → bytes → Prop) plan (c : InvocationCompletion) : Prop :=
  (∃ v b, c = success v b ∧ if is_event plan then v = WNone ∧ b = None else ∃ x, b = Some x ∧ Enc v x) ∨
  (∃ e, is_exception e = true ∧ c = failure (_recommendation e plan) (Some e) None).

(** The scope failed. *)
Definition scope_failed (c : InvocationCompletion) : Prop :=
  ∃ e body, is_exception e = true ∧ c = failure UNSETTLED body (Some e).

Lemma prepare_rejects ps inv acc e : _prepare_arguments ps inv acc = Err e → e = MessageRejectedError.
Proof.
  revert acc. induction ps as [|p ps IH]; intros acc; simpl; [done|].
  intros [Hp|(a & _ & Hp)]%result_bind_err; [|by eapply IH]. case_match; [|done].
  apply result_bind_err in Hp as [Hp|(? & _ & ?)]; [|done]. unfold _prepare_argument in Hp. m_inv.
Qed.

Lemma validate_config plan v e : _validate_handler_result plan v = Err e → e = MessageConfigurationError.
Proof.
  unfold _validate_handler_result, _validate_result. intros [Hv|(r & _ & [Hv|(? & _ & ?)]%result_bind_err)]%result_bind_err; [| |done].
  - by repeat case_match; simplify_eq.
  - unfold raise_if in Hv. by case_match; simplify_eq.
Qed.

Lemma validate_event plan v r : _validate_handler_result plan v = Ok r → is_event plan = true → r = WNone.
Proof.
  unfold _validate_handler_result. intros (r' & _ & Hr)%result_bind_ok Hev. rewrite Hev in Hr.
  apply result_bind_ok in Hr as ([] & Hr%raise_if_ok & [= <-]). by destruct r'.
Qed.

Lemma filters_escape ctx e entries : ensures (λ _, True) escapes (_run_filters ctx e entries).
Proof.
  induction entries as [|entry entries IH]; simpl; [by apply ensures_ret|].
  apply (ensures_bind (λ _, True)); [|intros [r|] _; [by apply ensures_ret|done]].
  eapply ensures_try; [apply ensures_any|]. intros err _. destruct (is_exception err) eqn:He; [by apply ensures_ret|by apply ensures_raise].
Qed.

(** Validating and encoding a result, and what the completion then is. *)
Lemma completes_ok Enc (Q : msg_error → Prop) plan (encode : wvalue → M S msg_error bytes) v :
  (∀ v, ensures (Enc v) Q (encode v)) → Q MessageConfigurationError →
  ensures (completion_ok Enc plan) Q
    (v ← lift (_validate_handler_result plan v); b ← encoded_if_rpc plan encode v; mret (success v b)).
Proof.
  intros He Hq. apply (ensures_bind (λ r, is_event plan = true → r = WNone)).
  - apply ensures_lift. destruct (_validate_handler_result plan v) eqn:Hv; [by eapply validate_event|by apply validate_config in Hv as ->].
  - intros r Hr. apply (ensures_bind (λ b, if is_event plan then b = None else ∃ x, b = Some x ∧ Enc r x)).
    + unfold encoded_if_rpc. destruct (is_event plan); [by apply ensures_ret|]. eapply ensures_bind; [apply He|].
      intros b Hb. apply ensures_ret. by exists b.
    + intros b Hb. apply ensures_ret. left. exists r, b. split; [done|]. destruct (is_event plan); auto.
Qed.

Context (Enc : wvalue → bytes → Prop) (encode : wvalue → M S msg_error bytes).
Context (Henc : ∀ v, ensures (Enc v) (λ _, True) (encode v)).

Lemma run_failed_table global plan ctx e :
  ensures (completion_ok Enc plan) escapes (run_failed global plan ctx encode e).
Proof.
  unfold run_failed. destruct (is_exception e) eqn:He; [|by apply ensures_raise]. simpl.
  apply (ensures_bind (λ _, True)); [apply filters_escape|]. intros [r|] _; [|apply ensures_ret; right; by exists e].
  case_match; [apply ensures_ret; right; by exists MessageConfigurationError|].
  apply (ensures_try _ (λ err, err = MessageConfigurationError ∨ escapes err)).
  - apply completes_ok; [|by left]. intros v. unfold _encode_result. eapply ensures_try; [apply Henc|]. intros err _.
    apply ensures_raise. destruct (is_exception err) eqn:Herr; [by left|by right].
  - intros err [->|Herr]; [apply ensures_ret; right; by exists MessageConfigurationError|].
    destruct err; try done.
Qed.

Lemma run_table global plan ctx inv prepared :
  ensures (completion_ok Enc plan) escapes (run global plan ctx inv encode prepared).
Proof.
  apply (ensures_try _ (λ _, True)); [|intros e _; apply run_failed_table].
  apply (ensures_bind (λ _, True)); [apply ensures_any|]. intros r _.
  apply (ensures_bind (λ _, True)); [apply ensures_any|]. intros _ _. by apply completes_ok.
Qed.

(** Any other [Exception] of the body is an [Exception] of the scope. *)
Lemma run_in_ensures {A} m (P : A → Prop) (op : M S msg_error A) :
  ensures P (λ _, True) op → ensures P (λ _, True) (run_in m op).
Proof.
  intros Hop. unfold run_in. apply (ensures_bind (λ _, True)); [apply ensures_any|]. intros _ _.
  apply (ensures_bind (λ r, match r with Ok a => P a | Err e => True end)).
  - intros s. specialize (Hop s). by destruct (op s) as [[a|e] s1].
  - intros r Hr. apply (ensures_bind (λ _, True)); [apply ensures_any|]. intros _ _. apply ensures_lift. by destruct r.
Qed.

Lemma invoke_table global plan inv :
  ensures (λ c, completion_ok Enc plan c ∨ scope_failed c) escapes (invoke global plan inv encode).
Proof.
  unfold invoke. destruct (_prepare_arguments _ inv []) as [prepared|e] eqn:Hp.
  - eapply ensures_try.
    + apply run_in_ensures. apply (ensures_bind (λ _, True)); [apply ensures_any|]. intros ctx _.
      eapply ensures_weaken; [apply run_table| |done]. intros c Hc. by left.
    + intros e _. destruct e; simpl is_exception; cbv iota;
        first [by apply ensures_raise|apply ensures_ret; right; eexists _, _; (split; [|reflexivity]); reflexivity].
  - apply prepare_rejects in Hp as ->. apply ensures_ret. left; right. by exists MessageRejectedError.
Qed.
End table.

(** ** Guards that refuse *)

Section guards.
Context {S : Type} `{Json} `{Application S}.

(** An object that a binding can stand for: the object itself, or what the
    container gives for a token. *)
Definition guard_object (b : binding) (g : Z) : Prop :=
  match b with
  | BObject o => g = o
  | BToken t => ∃ s s', resolve t s = (Ok g, s') ∨ ∃ r, resolve_ref r s = (Ok g, s')
  end.

Lemma resolved_object b r f s g s' : (∀ o, b = BObject o → r = None) → _resolve_binding (b, r, f) s = (Ok g, s') → guard_object b g.
Proof.
  intros Hr Hrun. destruct b as [o|t]; simpl.
  - rewrite (Hr o eq_refl) in Hrun. by injection Hrun.
  - exists s, s'. destruct r as [r|]; simpl in Hrun; [destruct qualified; [by eauto|done]|]. destruct f; [by left|done].
Qed.

Lemma entries_bindings refs f bs b :
  b ∈ bs → ∃ r, (b, r, f) ∈ entries_of refs f bs ∧ ∀ o, b = BObject o → r = None.
Proof.
  revert refs. induction bs as [|x bs IH]; intros refs Hb; [by apply not_elem_of_nil in Hb|].
  apply elem_of_cons in Hb as [<-|Hb].
  - destruct b as [o|t]; simpl; eexists; (split; [by left|]); by intros.
  - destruct x as [o|t]; simpl; [destruct (IH refs Hb) as (r & Hr & ?)|destruct (IH (tail refs) Hb) as (r & Hr & ?)];
      exists r; (split; [by right|done]).
Qed.

Lemma guard_entries global plan b :
  b ∈ pp_guards global ++ pp_guards (pl_controller_pipeline plan) ++ pp_guards (pl_method_pipeline plan) →
  ∃ r f, (b, r, f) ∈ _pipeline_entries global Guards plan ∧ ∀ o, b = BObject o → r = None.
Proof.
  rewrite !elem_of_app. unfold _pipeline_entries, pipeline_part.
  intros [Hb|[Hb|Hb]]; eapply entries_bindings in Hb as (r & Hr & Ho); exists r; eexists; (split; [|done]); rewrite !elem_of_app;
    [left|right; left|right; right]; exact Hr.
Qed.

Lemma run_guards_refuse global plan b ctx s u s' :
  b ∈ pp_guards global ++ pp_guards (pl_controller_pipeline plan) ++ pp_guards (pl_method_pipeline plan) →
  (∀ g, guard_object b g → ∀ ctx s, (can_activate g ctx s).1 ≠ Ok true) →
  _run_guards ctx (_pipeline_entries global Guards plan) s ≠ (Ok u, s').
Proof.
  intros (r & f & Hin & Ho)%guard_entries Hn. revert s. induction (_pipeline_entries global Guards plan) as [|x l IH];
    intros s Hrun; [by apply not_elem_of_nil in Hin|]. simpl in Hrun.
  apply M_bind_ok in Hrun as (g & s1 & Hg & Hrun). apply M_bind_ok in Hrun as (ok & s2 & Hok & Hrun).
  apply M_bind_ok in Hrun as (u' & s3 & Ht & Hrun). apply elem_of_cons in Hin as [<-|Hin]; [|by eapply IH].
  apply (Hn g (resolved_object _ _ _ _ _ _ Ho Hg) ctx s1). rewrite Hok. by destruct ok.
Qed.

Lemma keeps_stuck {A C T} (view : S → T) (m : M S msg_error A) (f : A → M S msg_error C) :
  keeps view m ∧ (∀ s a s', m s ≠ (Ok a, s')) → keeps view (m ≫= f).
Proof.
  intros [Hm Hn] s. unfold mbind, M_bind. specialize (Hm s). specialize (Hn s).
  destruct (m s) as [[a|e] s1]; simpl in *; [|done]. by destruct (Hn a s1).
Qed.

Lemma run_pipeline_refuses {T} (view : S → T) global plan ctx inv prepared :
  keeps view (_run_guards ctx (_pipeline_entries global Guards plan)) →
  (∀ s s', _run_guards ctx (_pipeline_entries global Guards plan) s ≠ (Ok tt, s')) →
  keeps view (_run_pipeline global plan ctx inv prepared) ∧ ∀ s a s', _run_pipeline global plan ctx inv prepared s ≠ (Ok a, s').
Proof.
  intros Hk Hn. assert (∀ s a s', _run_guards ctx (_pipeline_entries global Guards plan) s ≠ (Ok a, s')) as Hn'
    by (intros s [] s'; apply Hn).
  split; [by apply keeps_stuck|]. intros s a s' Hrun. apply M_bind_ok in Hrun as (u & s1 & Hg & _). by eapply Hn'.
Qed.
End guards.

Section theorems.
Context {S : Type} `{Json} `{Application S}.

(** C25: Whatever the interceptors do with their callbacks, one delivery calls its
    handler at most once. *)
Theorem handler_at_most_once (count : S → Z) global plan inv encode :
  counts_handlers count → (∀ v, keeps count (encode v)) → grows count 1 (invoke global plan inv encode).
Proof.
  intros Hc He. unfold invoke. case_match; [|case_match; apply grows_keeps_n; try done; solve_keeps].
  apply grows_try; [|intros e; solve_keeps]. apply run_in_grows; [done|]. apply grows_bind_r; [done|apply keeps_lift|].
  intros ctx. by apply run_grows.
Qed.


(** An invocation ends in one of three ways: it succeeded and is acknowledged,
    with an encoded response exactly for a call; the body failed, and the error
    decides between retrying and rejecting; the scope failed, and the message is
    left unsettled. Only what is not an [Exception] is raised. *)
Theorem invocation_outcomes global plan inv encode s :
  match (invoke global plan inv encode s).1 with
  | Ok c =>
      (∃ v b, c = success v b ∧ if is_event plan then v = WNone ∧ b = None else is_Some b) ∨
      (∃ e, is_exception e = true ∧ c = failure (_recommendation e plan) (Some e) None) ∨
      (∃ e body, is_exception e = true ∧ c = failure UNSETTLED body (Some e))
  | Err e => is_exception e = false
  end.
Proof.
  pose proof (invoke_table (λ _ _, True) encode (λ v, ensures_any _) global plan inv s) as He. case_match; [|done].
  unfold completion_ok, scope_failed in He. destruct He as [[(v & b & Hc & Hb)|He]|He]; [left|auto..]. exists v, b. split; [done|].
  destruct (is_event plan); [done|]. destruct Hb as (x & -> & _). by eexists.
Qed.
End theorems.

(** ** A small application

    Its state counts the calls of its only handler; its interceptor calls [next]
    twice, and guard 0 denies. *)

Definition twice_app : Application Z := {|
  qualified := true;
  resolve t := mret t;
  resolve_ref r := mret (ref_id r);
  can_activate o _ := mret (negb (o =? 0));
  transform _ v _ := mret v;
  intercept _ _ := INext (λ r, INext (λ r2, IDone (match r with Ok x => Ok (Some x) | Err e => Err e end)));
  catch _ _ _ := mret None;
  handler _ _ := Some (λ _, modify (Z.add 1);; mret (WInt 7));
  convert v _ := Some v;
  enter_scope _ := mret tt;
  exit_scope _ := mret tt
|}.

Definition no_pipeline : PipelinePlan :=
  {| pp_guards := []; pp_pipes := []; pp_interceptors := []; pp_filters := []; qualified_provider_refs := [] |}.

Definition twice_plan : HandlerPlan :=
  {| pl_module_id := 1; pl_controller_ref := {| ref_id := 2; ref_token := 2 |}; pl_controller := 2; pl_method_name := str "get";
     pl_metadata := RpcMetadata (str "get") 1 None; pl_parameters := []; pl_return_annotation := None;
     pl_controller_pipeline := {| pp_guards := []; pp_pipes := []; pp_interceptors := [BObject 3; BObject 4]; pp_filters := [];
                                  qualified_provider_refs := [] |};
     pl_method_pipeline := no_pipeline |}.

Definition guarded : PipelinePlan :=
  {| pp_guards := [BObject 1; BObject 0]; pp_pipes := []; pp_interceptors := []; pp_filters := []; qualified_provider_refs := [] |}.

Definition small_json : Json := {| json_encode _ := Ok [] |}.

Definition sample_invocation : MessageInvocation :=
  {| mi_application_id := str "app"; mi_message_id := 1; mi_correlation_id := Some 2; mi_payload := WNone;
     mi_headers := WMap []; mi_metadata := WMap []; mi_causation_id := None; mi_received_at := Datetime 0 (Some 0);
     mi_expires_at := None; mi_attempt := 1; mi_redelivered := false; mi_native := None; mi_limits := MessageLimits_default |}.

Definition sample_context : MessageContext :=
  {| mc_kind := false; mc_application := str "app"; mc_module_identity := 1; mc_handler := (2, str "get");
     mc_correlation_id := Some 2; mc_message_metadata := WMap []; mc_message_id := Some 1; mc_causation_id := None;
     mc_received_at := Datetime 0 (Some 0); mc_expires_at := None; mc_attempt := 1; mc_redelivered := false;
     mc_native_value := None; mc_limits := MessageLimits_default |}.

Lemma twice_counts : @counts_handlers Z twice_app id.
Proof.
  split; [split; [split|..]; by try (intros; by intros ?)|].
  intros c m h args [= <-] s. simpl. unfold id. lia.
Qed.

(** The handler has run once and its result is acknowledged. *)
Example twice_called :
  @invoke Z small_json twice_app no_pipeline twice_plan sample_invocation (λ _, mret []) 0 =
  (Ok (success (WInt 7) (Some [])), 1).
Proof. vm_compute. reflexivity. Qed.

Lemma handler_at_most_once_witness :
  grows id 1 (@invoke Z small_json twice_app no_pipeline twice_plan sample_invocation (λ _, mret [])).
Proof. apply (@handler_at_most_once Z small_json twice_app id); [exact twice_counts|]. intros v s. reflexivity. Defined.

