(* ===== verification/MsRuntime.v ===== *)
(** * Microservices: dispatching deliveries

    [ServiceRuntime._dispatch_message] of [runtime.py] with the registry of
    [plans.py] and the limits of [options.py]. The clock, fresh identifiers and
    the transport of replies are the class [Host]. Durations are in microseconds. *)

From Stdlib Require Import ZArith Lia.
From stdpp Require Import base tactics list gmap strings.
From S2P Require Import Prelude Pipeline MsWire MsValues MsCodec MsInvoke.
Local Open Scope Z_scope.

#[export] Instance ServiceIdentity_eq_dec : EqDecision ServiceIdentity.
Proof. solve_decision. Defined.
#[export] Instance EventIdentity_eq_dec : EqDecision EventIdentity.
Proof. solve_decision. Defined.

Class Host (S : Type) := {
  utc_now : M S msg_error datetime;
  uuid4 : M S msg_error uuid;
  publish_reply : Publication → M S msg_error unit
}.

Record MicroservicesOptions := {
  max_concurrency : Z;
  max_inflight_deliveries : Z;
  max_accepted_rpc_timeout : Z;
  max_clock_skew : Z;
  message_limits : MessageLimits;
  global_pipeline : PipelinePlan
}.

(** ** The registry *)

(** The keys of the two kinds of plans; a registry holds each in its own list. *)
Definition rpc_key (p : HandlerPlan) : pystr * Z :=
  match pl_metadata p with RpcMetadata m v _ => (m, v) | _ => ([], 0) end.
Definition subscription_key (p : HandlerPlan) : option (EventIdentity * dispatch_mode * pystr) :=
  match pl_metadata p with EventHandlerMetadata i m s _ => Some (i, m, s) | _ => None end.

Record ServiceHandlerRegistry := {
  rpc_handlers : list HandlerPlan;
  event_handlers : list HandlerPlan;
  rpc_by_target : list ((pystr * Z) * HandlerPlan);
  rpc_methods : list pystr;
  event_by_subscription : list (option (EventIdentity * dispatch_mode * pystr) * HandlerPlan)
}.

(** A dictionary of the plans by key; a later plan replaces an earlier one. *)
Definition index_plans {K} `{EqDecision K} (key : HandlerPlan → K) (ps : list HandlerPlan) : list (K * HandlerPlan) :=
  foldl (λ d p, dict_set d (key p) p) [] ps.

Definition ServiceHandlerRegistry_new (rpcs events : list HandlerPlan) : result ms_error ServiceHandlerRegistry :=
  let by_target := index_plans rpc_key rpcs in
  let methods := remove_dups ((λ p, (rpc_key p).1) <$> rpcs) in
  let by_subscription := index_plans subscription_key events in
  _ ← raise_if (negb (zlen by_target =? zlen rpcs)) MsValueError;
  _ ← raise_if (negb (zlen methods =? zlen rpcs)) MsValueError;
  _ ← raise_if (negb (zlen by_subscription =? zlen events)) MsValueError;
  Ok {| rpc_handlers := rpcs; event_handlers := events; rpc_by_target := by_target; rpc_methods := methods;
        event_by_subscription := by_subscription |}.

Section dispatch.
Context {S : Type} `{Json} `{WireText} `{Application S} `{Host S}.

Definition _terminal_rejection (e : msg_error) : InvocationCompletion := failure REJECT (Some e) None.

(** ** Errors that callers may see *)

Definition remote_error (code message : string) (retryable : bool) : result ms_error RemoteRpcErrorData :=
  RemoteRpcErrorData_new (PyStr (str code)) (PyStr (str message)) (PyBool retryable) (WMap []) None.

Definition _safe_remote_error (e : msg_error) : result ms_error RemoteRpcErrorData :=
  match e with
  | PublicRpcError code message retryable details =>
      match RemoteRpcErrorData_new (PyStr code) (PyStr message) (PyBool retryable) details None with
      | Ok d => Ok d
      | Err _ => remote_error "internal_error" "The remote service could not complete the request." false
      end
  | MessageAuthorizationError => remote_error "authorization_failed" "The RPC request was not authorized." false
  | MessageRetryableError => remote_error "temporarily_unavailable" "The RPC request could not be completed." true
  | MessageRejectedError => remote_error "invalid_request" "The RPC request was rejected." false
  | _ => remote_error "internal_error" "The remote service could not complete the request." false
  end.

(** ** Replies *)

Definition _publish_completion (c : InvocationCompletion) (response_id correlation_id : uuid) (reply_to : pystr) (body : bytes)
    : M S msg_error InvocationCompletion :=
  p ← lift (pack (Publication_new (PyUUID response_id) (PyStr reply_to) (PyBytes body) (WMap []) (PyBool true)
                    (PyUUID correlation_id) None None PyNone));
  try_except (publish_reply p)
    (λ e, match e with PackageError TransportUnroutableError => mret tt | _ => raise e end);;
  mret {| recommendation := ACK; ic_result := ic_result c; encoded_response := encoded_response c;
          body_error := body_error c; scope_error := scope_error c |}.

(** [codec.encode_response(RpcResponseEnvelope(..., completed_at=utc_now(), ...))] *)
Definition encode_reply (limits : MessageLimits) (response_id correlation_id : uuid) (result : option wvalue)
    (error : option RemoteRpcErrorData) : M S msg_error bytes :=
  t ← utc_now;
  r ← lift (pack (RpcResponseEnvelope_new (PyUUID response_id) (PyUUID correlation_id) (PyDatetime t) result error));
  lift (pack (encode_response limits r)).

Definition _publish_error_response (limits : MessageLimits) (correlation_id : uuid) (reply_to : pystr)
    (error : RemoteRpcErrorData) : M S msg_error InvocationCompletion :=
  response_id ← uuid4;
  body ← encode_reply limits response_id correlation_id None (Some error);
  _publish_completion (failure REJECT (Some MessageRejectedError) None) response_id correlation_id reply_to body.

(** ** Deliveries *)

Definition metadata_of (d : EncodedDelivery) (kind : string) : wvalue :=
  WMap [item "routing_key" (WStr (dl_routing_key d)); item "kind" (WStr (str kind))].

Definition optional_object {A} (f : A → pyobj) (o : option A) : pyobj := match o with Some a => f a | None => PyNone end.

Definition _message_invocation (identity : ServiceIdentity) (d : EncodedDelivery) (e : RpcRequestEnvelope)
    (limits : MessageLimits) : result ms_error MessageInvocation :=
  MessageInvocation_new (PyStr (label identity)) (PyUUID (rq_message_id e)) (PyUUID (rq_correlation_id e))
    (optional_object PyUUID (rq_causation_id e)) (PyDatetime (dl_received_at d)) (optional_object PyDatetime (dl_expires_at d))
    (PyInt (dl_attempt d)) (rq_payload e) (rq_headers e) (metadata_of d "rpc_request") (dl_redelivered d) (dl_native d) limits.

(** The envelope belongs to this service and to the delivery that carried it. *)
Definition rpc_mismatch (identity : ServiceIdentity) (d : EncodedDelivery) (e : RpcRequestEnvelope) (target : RpcTarget) : bool :=
  negb (bool_decide (rpc_service (rq_target e) = identity)) ||
  negb (bool_decide (dl_routing_key d = rpc_routing_key target)) ||
  negb (bool_decide (dl_message_id d = rq_message_id e)) ||
  negb (bool_decide (dl_correlation_id d = Some (rq_correlation_id e))) ||
  negb (bool_decide (dl_reply_to d = Some (rq_reply_to e))).

(** The body of a call that has a handler. *)
Definition dispatch_call (identity : ServiceIdentity) (options : MicroservicesOptions) (plan : HandlerPlan) (d : EncodedDelivery)
    (e : RpcRequestEnvelope) : M S msg_error InvocationCompletion :=
  let limits := message_limits options in
  inv ← lift (pack (_message_invocation identity d e limits));
  response_id ← uuid4;
  c ← invoke (global_pipeline options) plan inv (λ v, encode_reply limits response_id (rq_correlation_id e) (Some v) None);
  match scope_error c with
  | Some _ => mret c
  | None =>
      body ← match body_error c with
             | None => match encoded_response c with
                       | Some b => mret b
                       | None => raise (PackageError TransportStateError)
                       end
             | Some err =>
                 error ← lift (pack (_safe_remote_error err));
                 encode_reply limits response_id (rq_correlation_id e) None (Some error)
             end;
      _publish_completion c response_id (rq_correlation_id e) (rq_reply_to e) body
  end.

Definition dispatch_rpc (identity : ServiceIdentity) (options : MicroservicesOptions) (registry : ServiceHandlerRegistry)
    (d : EncodedDelivery) : M S msg_error InvocationCompletion :=
  let limits := message_limits options in
  match decode_request limits (dl_body d) with
  | Err err => mret (_terminal_rejection (PackageError err))
  | Ok e =>
      let t := rq_target e in
      target ← lift (pack (RpcTarget_new (rpc_service t) (PyStr (rpc_method t)) (PyInt (rpc_schema_version t))));
      if rpc_mismatch identity d e target then mret (_terminal_rejection MessageRejectedError) else
      now ← utc_now;
      latest ← match dt_sub now (- max_clock_skew options) with
               | Some x => mret x
               | None => raise (PackageError (MsException 0))
               end;
      if dt_ltb latest (rq_created_at e) then mret (_terminal_rejection MessageRejectedError) else
      if match dl_expires_at d with Some x => dt_leb x now | None => false end || dt_leb (rq_deadline_at e) now
      then error ← lift (pack (remote_error "deadline_exceeded" "The RPC deadline has elapsed." false));
           _publish_error_response limits (rq_correlation_id e) (rq_reply_to e) error else
      if max_accepted_rpc_timeout options <? instant (rq_deadline_at e) - instant now
      then mret (_terminal_rejection MessageRejectedError) else
      match dict_get (rpc_by_target registry) (rpc_method t, rpc_schema_version t) with
      | None =>
          error ← lift (pack (if bool_decide (rpc_method t ∈ rpc_methods registry)
                              then remote_error "unsupported_schema" "The RPC request schema is not supported." false
                              else remote_error "method_not_found" "The RPC method is not registered." false));
          _publish_error_response limits (rq_correlation_id e) (rq_reply_to e) error
      | Some plan => dispatch_call identity options plan d e
      end
  end.

Definition event_mismatch (d : EncodedDelivery) (sub : EventSubscription) (e : EventEnvelope) (identity : EventIdentity) : bool :=
  negb (bool_decide (identity = sub_identity sub)) ||
  negb (bool_decide (dl_routing_key d = event_routing_key (sub_identity sub))) ||
  negb (bool_decide (dl_message_id d = ee_message_id e)) ||
  negb (bool_decide (dl_correlation_id d = ee_correlation_id e)).

Definition dispatch_event (identity : ServiceIdentity) (options : MicroservicesOptions) (registry : ServiceHandlerRegistry)
    (d : EncodedDelivery) (sub : EventSubscription) : M S msg_error InvocationCompletion :=
  let limits := message_limits options in
  match (e ← decode_event limits (dl_body d);
         i ← EventIdentity_new (ev_source (ee_identity e)) (PyStr (ev_event (ee_identity e)))
               (PyInt (ev_schema_version (ee_identity e)));
         Ok (e, i)) with
  | Err err => mret (_terminal_rejection (PackageError err))
  | Ok (e, i) =>
      if event_mismatch d sub e i then mret (_terminal_rejection MessageRejectedError) else
      match dict_get (event_by_subscription registry) (Some (sub_identity sub, sub_mode sub, sub_name sub)) with
      | None => mret (_terminal_rejection MessageRejectedError)
      | Some plan =>
          inv ← lift (pack (MessageInvocation_new (PyStr (label identity)) (PyUUID (ee_message_id e))
                   (optional_object PyUUID (ee_correlation_id e)) (optional_object PyUUID (ee_causation_id e))
                   (PyDatetime (dl_received_at d)) (optional_object PyDatetime (dl_expires_at d)) (PyInt (dl_attempt d))
                   (ee_payload e) (ee_headers e) (metadata_of d "event") (dl_redelivered d) (dl_native d) limits));
          invoke (global_pipeline options) plan inv (λ _, mret []) (* the value itself; an event has no reply *)
      end
  end.

(** [registry] is [None] before the service is prepared. *)
Definition _dispatch_message (identity : ServiceIdentity) (options : MicroservicesOptions)
    (registry : option ServiceHandlerRegistry) (d : EncodedDelivery) : M S msg_error InvocationCompletion :=
  match registry with
  | None => raise (PackageError TransportStateError)
  | Some registry =>
      match dl_subscription d with
      | None => dispatch_rpc identity options registry d
      | Some sub => dispatch_event identity options registry d sub
      end
  end.
End dispatch.
