(* ===== verification/MsRuntimeProperties.v ===== *)
(** * Microservices: what the dispatcher of deliveries guarantees *)

From Stdlib Require Import ZArith Lia.
From stdpp Require Import base tactics list gmap strings.
From S2P Require Import Prelude Pipeline MsWire MsValues MsCodec MsInvoke MsInvokeProperties MsRuntime MsCodecFacts MsCodecScenarios.
Local Open Scope Z_scope.

Section replies.
Context {S : Type} `{Json} `{WireText} `{Application S} `{Host S}.
Implicit Types (limits : MessageLimits) (c : InvocationCompletion).

(** [log] is what was handed to the transport as replies. *)
Record replies_logged (log : S → list Publication) : Prop := {
  rl_app : quiet_app log;
  rl_handler o m h args : handler o m = Some h → keeps log (h args);
  rl_now : keeps log utc_now;
  rl_uuid : keeps log uuid4;
  rl_publish p s : log (publish_reply p s).2 = log s ++ [p]
}.

(** The error data a caller may get for [err]: exactly what the application put
    into a public error, and otherwise one of a few texts (code, message and
    whether to retry) that depend on the class of the error only. *)
Definition fixed_texts (err : msg_error) : list (pystr * pystr * bool) :=
  match err with
  | MessageAuthorizationError => [(str "authorization_failed", str "The RPC request was not authorized.", false)]
  | MessageRetryableError => [(str "temporarily_unavailable", str "The RPC request could not be completed.", true)]
  | MessageRejectedError =>
      [(str "invalid_request", str "The RPC request was rejected.", false);
       (str "deadline_exceeded", str "The RPC deadline has elapsed.", false);
       (str "unsupported_schema", str "The RPC request schema is not supported.", false);
       (str "method_not_found", str "The RPC method is not registered.", false)]
  | _ => [(str "internal_error", str "The remote service could not complete the request.", false)]
  end.

Definition fixed_data (t : pystr * pystr * bool) : RemoteRpcErrorData :=
  {| rd_code := t.1.1; rd_message := t.1.2; rd_retryable := t.2; rd_details := WMap [] |}.

Definition reportable (err : msg_error) (d : RemoteRpcErrorData) : Prop :=
  (∃ t, t ∈ fixed_texts err ∧ d = fixed_data t) ∨
  ∃ code message retryable details frozen, err = PublicRpcError code message retryable details ∧
    freeze_headers details None = Ok frozen ∧
    d = {| rd_code := code; rd_message := message; rd_retryable := retryable; rd_details := frozen |}.

(** The response tells the caller what the completion says. *)
Definition tells c (r : RpcResponseEnvelope) : Prop :=
  match body_error c with
  | None => ∃ v, ic_result c = Some v ∧ rs_outcome r = inl v
  | Some err => ∃ d, rs_outcome r = inr d ∧ reportable err d
  end.

(** [p] carries a response to the request [e] that tells of [c]. *)
Definition answers limits (e : RpcRequestEnvelope) c (p : Publication) : Prop :=
  pub_routing_key p = rq_reply_to e ∧ pub_correlation_id p = Some (rq_correlation_id e) ∧
  ∃ r, encode_response limits r = Ok (pub_body p) ∧ rs_message_id r = pub_message_id p ∧
       rs_correlation_id r = rq_correlation_id e ∧ tells c r.

(** What a dispatch published, against how it ended. *)
Definition settled limits (d : EncodedDelivery) (r : result msg_error InvocationCompletion) (ps : list Publication) : Prop :=
  match r with
  | Ok c => (recommendation c = ACK ∧ ∃ e p, decode_request limits (dl_body d) = Ok e ∧ ps = [p] ∧ answers limits e c p) ∨
            (recommendation c ∈ [REJECT; UNSETTLED] ∧ ps = [])
  | Err _ => (length ps ≤ 1)%nat
  end.

Context (log : S → list Publication) (Hl : replies_logged log).

Definition publishes (P : result msg_error InvocationCompletion → list Publication → Prop) (m : M S msg_error InvocationCompletion)
    : Prop :=
  ∀ s, ∃ ps, log (m s).2 = log s ++ ps ∧ P (m s).1 ps.

Lemma publishes_bind {A} (R : A → Prop) P (m : M S msg_error A) f :
  keeps log m → ensures R (λ _, True) m → (∀ e, P (Err e) []) → (∀ a, R a → publishes P (f a)) → publishes P (m ≫= f).
Proof.
  intros Hk He HP Hf s. unfold mbind, M_bind. specialize (Hk s). specialize (He s). destruct (m s) as [[a|e] s1]; simpl in *.
  - rewrite <- Hk. by apply Hf.
  - exists []. rewrite app_nil_r. auto.
Qed.

Lemma publishes_ret P c : P (Ok c) [] → publishes P (mret c).
Proof. intros HP s. exists []. by rewrite app_nil_r. Qed.

Lemma remote_data code message retryable details d :
  RemoteRpcErrorData_new (PyStr code) (PyStr message) (PyBool retryable) details None = Ok d →
  ∃ frozen, freeze_headers details None = Ok frozen ∧
    d = {| rd_code := code; rd_message := message; rd_retryable := retryable; rd_details := frozen |}.
Proof.
  unfold RemoteRpcErrorData_new. intros Hd. apply result_bind_ok in Hd as (c & Hn & Hd).
  apply result_bind_ok in Hd as (m & Hm & Hd). apply result_bind_ok in Hd as ([] & _ & Hd).
  apply result_bind_ok in Hd as (h & Hh & [= <-]). exists h. split; [done|].
  unfold non_empty in Hn, Hm. by destruct code, message; simplify_eq.
Qed.

Lemma freeze_nothing h : freeze_headers (WMap []) None = Ok h → h = WMap [].
Proof.
  unfold freeze_headers. cbn [falsy]. cbv iota. intros Hh.
  apply result_bind_ok in Hh as ([] & _ & Hh). apply result_bind_ok in Hh as (f & [= <-] & Hh).
  apply result_bind_ok in Hh as (? & _ & Hh). by apply result_bind_ok in Hh as ([] & _ & [= <-]).
Qed.

Lemma remote_error_safe code message retryable d :
  remote_error code message retryable = Ok d → d = fixed_data (str code, str message, retryable).
Proof. unfold remote_error. intros (h & Hh%freeze_nothing & ->)%remote_data. by subst h. Qed.

Lemma safe_reportable err d : _safe_remote_error err = Ok d → reportable err d.
Proof.
  assert (∀ code message b, (str code, str message, b) ∈ fixed_texts err → remote_error code message b = Ok d → reportable err d) as Hs.
  { intros code message b Hin ->%remote_error_safe. left. eauto. }
  unfold _safe_remote_error. destruct err; try (apply Hs; by left).
  destruct (RemoteRpcErrorData_new _ _ _ _ _) as [d'|] eqn:Hd; [|apply Hs; by left].
  intros [= ->]. right. apply remote_data in Hd as (h & Hh & ->). eauto 10.
Qed.

Lemma encode_reply_keeps limits id co r err : keeps log (encode_reply limits id co r err).
Proof. unfold encode_reply. apply keeps_bind; [apply Hl|]. intros t. solve_keeps. Qed.

Lemma encode_reply_ok limits id co r err :
  ensures (λ b, ∃ env, encode_response limits env = Ok b ∧ rs_message_id env = id ∧ rs_correlation_id env = co ∧
                       match r, err with Some v, None => rs_outcome env = inl v | None, Some x => rs_outcome env = inr x | _, _ => False end)
    (λ _, True) (encode_reply limits id co r err).
Proof.
  unfold encode_reply. eapply ensures_bind; [apply ensures_any|]. intros t _.
  eapply (ensures_bind (λ env, rs_message_id env = id ∧ rs_correlation_id env = co ∧
    match r, err with Some v, None => rs_outcome env = inl v | None, Some x => rs_outcome env = inr x | _, _ => False end)).
  - apply ensures_lift. destruct (RpcResponseEnvelope_new _ _ _ _ _) as [env|x] eqn:Henv; [|done]. simpl.
    unfold RpcResponseEnvelope_new in Henv. simpl require_uuid in Henv. apply result_bind_ok in Henv as (? & [= <-] & Henv).
    apply result_bind_ok in Henv as (? & [= <-] & Henv). apply result_bind_ok in Henv as (? & _ & Henv).
    destruct r, err; by simplify_eq/=.
  - intros env Henv. apply ensures_lift. destruct (encode_response limits env) as [b|] eqn:Hb; [|done]. exists env. naive_solver.
Qed.

(** Publishing a reply settles the call. *)
Lemma publish_completion_settled limits d e c id body :
  decode_request limits (dl_body d) = Ok e →
  (∃ r, encode_response limits r = Ok body ∧ rs_message_id r = id ∧ rs_correlation_id r = rq_correlation_id e ∧ tells c r) →
  publishes (settled limits d) (_publish_completion c id (rq_correlation_id e) (rq_reply_to e) body).
Proof.
  intros Hd (r & Hb & Hid & Hco & Ht). unfold _publish_completion.
  apply (publishes_bind (λ p, pub_message_id p = id ∧ pub_routing_key p = rq_reply_to e ∧ pub_body p = body ∧
    pub_correlation_id p = Some (rq_correlation_id e))); [apply keeps_lift| |simpl; intros; lia|].
  - apply ensures_lift. destruct (Publication_new _ _ _ _ _ _ _ _ _) as [p|] eqn:Hp; [|done]. simpl.
    unfold Publication_new in Hp. apply result_bind_ok in Hp as (m & [= <-] & Hp). apply result_bind_ok in Hp as (k & Hk & Hp).
    apply result_bind_ok in Hp as (b & [= <-] & Hp). apply result_bind_ok in Hp as (f & [= <-] & Hp).
    apply result_bind_ok in Hp as (co & [= <-] & Hp). apply result_bind_ok in Hp as (x & [= <-] & Hp).
    apply result_bind_ok in Hp as (h & _ & [= <-]). simpl. unfold routing_key_of in Hk. by destruct (rq_reply_to e); simplify_eq.
  - intros p (Hm & Hk & Hpb & Hpc) s. exists [p]. unfold mbind, M_bind, try_except.
    pose proof (rl_publish _ Hl p s) as Hps. destruct (publish_reply p s) as [res s1] eqn:Hpub. simpl in Hps.
    assert (settled limits d (Ok {| recommendation := ACK; ic_result := ic_result c; encoded_response := encoded_response c;
      body_error := body_error c; scope_error := scope_error c |}) [p]) as Hset.
    { left. split; [done|]. exists e, p. split_and!; [done..|]. split_and!; [done..|]. exists r. rewrite Hpb, Hm. auto. }
    destruct res as [[]|err]; [done|]. destruct err as [| | | | | | | |[]|]; try done; split; try done; simpl; lia.
Qed.

Lemma error_response_settled limits d e x :
  decode_request limits (dl_body d) = Ok e → reportable MessageRejectedError x →
  publishes (settled limits d) (_publish_error_response limits (rq_correlation_id e) (rq_reply_to e) x).
Proof.
  intros Hd Hx. unfold _publish_error_response.
  apply (publishes_bind (λ _, True)); [apply Hl|apply ensures_any|simpl; intros; lia|]. intros id _.
  eapply publishes_bind; [apply encode_reply_keeps|apply encode_reply_ok|simpl; intros; lia|].
  intros body (r & Hb & Hid & Hco & Ho). apply publish_completion_settled; [done|]. exists r. split_and!; [done..|].
  simpl. by exists x.
Qed.

Lemma dispatch_call_settled identity options plan d e :
  is_event plan = false → decode_request (message_limits options) (dl_body d) = Ok e →
  publishes (settled (message_limits options) d) (dispatch_call identity options plan d e).
Proof.
  intros Hev Hd. unfold dispatch_call. set (limits := message_limits options) in *.
  apply (publishes_bind (λ _, True)); [apply keeps_lift|apply ensures_any|simpl; intros; lia|]. intros inv _.
  apply (publishes_bind (λ _, True)); [apply Hl|apply ensures_any|simpl; intros; lia|]. intros id _.
  eapply publishes_bind.
  - apply invoke_keeps; [apply Hl|apply Hl|intros v; apply encode_reply_keeps].
  - eapply ensures_weaken; [apply (invoke_table _ _ (λ v, encode_reply_ok limits id (rq_correlation_id e) (Some v) None))|intros c Hc; exact Hc|done].
  - simpl; intros; lia.
  - intros c Hc. simpl in Hc. destruct Hc as [[(v & b & -> & Hb)|(err & Herr & ->)]|(err & body & Herr & ->)]; simpl scope_error; cbv iota.
    + rewrite Hev in Hb. destruct Hb as (x & -> & r & Hx & Hid & Hco & Ho). simpl body_error. simpl encoded_response. cbv iota.
      apply (publishes_bind (eq x)); [apply keeps_ret|by apply ensures_ret|simpl; intros; lia|]. intros ? <-.
      apply publish_completion_settled; [done|]. exists r. split_and!; [done..|]. simpl. by exists v.
    + simpl body_error. cbv iota. eapply (publishes_bind (λ b, ∃ dt, _safe_remote_error err = Ok dt ∧ ∃ r, encode_response limits r = Ok b ∧
        rs_message_id r = id ∧ rs_correlation_id r = rq_correlation_id e ∧ rs_outcome r = inr dt)).
      * apply keeps_bind; [apply keeps_lift|]. intros dt. apply encode_reply_keeps.
      * apply (ensures_bind (λ dt, _safe_remote_error err = Ok dt)); [apply ensures_lift; by destruct (_safe_remote_error err)|].
        intros dt Hdt. eapply ensures_weaken; [apply encode_reply_ok| |done]. naive_solver.
      * simpl; intros; lia.
      * intros b (dt & Hdt & r & Hb & Hid & Hco & Ho). apply publish_completion_settled; [done|]. exists r. split_and!; [done..|].
        simpl. exists dt. split; [done|by apply safe_reportable].
    + apply publishes_ret. right. split; [by right; left|done].
Qed.

(** The plans of a registry are those it was made of. *)
Lemma index_plans_elem {K} `{EqDecision K} (key : HandlerPlan → K) ps k p : dict_get (index_plans key ps) k = Some p → p ∈ ps.
Proof.
  unfold index_plans. assert (∀ d, dict_get (foldl (λ d p, dict_set d (key p) p) d ps) k = Some p →
    p ∈ ps ∨ dict_get d k = Some p) as Hi.
  { induction ps as [|q ps IH]; intros d; simpl; [auto|]. intros [Hp|Hp]%IH; [left; by right|]. rewrite dict_get_set in Hp.
    case_decide; [|auto]. simplify_eq. left. by left. }
  intros [Hp|Hp]%Hi; [done|]. by simplify_eq/=.
Qed.

Lemma dispatch_rpc_settled identity options registry d :
  (∀ k p, dict_get (rpc_by_target registry) k = Some p → is_event p = false) →
  publishes (settled (message_limits options) d) (dispatch_rpc identity options registry d).
Proof.
  intros Hr. unfold dispatch_rpc. set (limits := message_limits options).
  assert (∀ err, publishes (settled limits d) (mret (_terminal_rejection err))) as Hrej
    by (intros err; apply publishes_ret; right; split; [by left|done]).
  destruct (decode_request limits (dl_body d)) as [e|] eqn:Hd; [|done].
  assert (∀ code message b, (str code, str message, b) ∈ fixed_texts MessageRejectedError →
    publishes (settled limits d) (x ← lift (pack (remote_error code message b));
    _publish_error_response limits (rq_correlation_id e) (rq_reply_to e) x)) as Herr.
  { intros code message b Hc. apply (publishes_bind (reportable MessageRejectedError)); [apply keeps_lift| |simpl; intros; lia|].
    - apply ensures_lift. destruct (remote_error code message b) eqn:Hx; [|done]. left. eexists. split; [exact Hc|by apply remote_error_safe].
    - intros x Hx. by apply error_response_settled. }
  apply (publishes_bind (λ _, True)); [apply keeps_lift|apply ensures_any|simpl; intros; lia|]. intros target _.
  case_match; [done|]. apply (publishes_bind (λ _, True)); [apply Hl|apply ensures_any|simpl; intros; lia|]. intros now _.
  apply (publishes_bind (λ _, True)); [solve_keeps|apply ensures_any|simpl; intros; lia|]. intros latest _.
  case_match; [done|]. match goal with |- publishes _ (if ?b then _ else _) => destruct b end.
  { apply Herr. right; left. }
  case_match; [done|].
  destruct (dict_get (rpc_by_target registry) _) as [plan|] eqn:Hp; [by eapply dispatch_call_settled; [eapply Hr|]|].
  case_match; apply Herr; [right; right; left|right; right; right; left].
Qed.
End replies.

Section runtime_theorems.
Context {S : Type} `{Json} `{WireText} `{Application S} `{Host S}.

End runtime_theorems.

(** ** A service

    It has one method, [get], with the handler [h]; its state is the list of the
    replies it sent. *)

Definition shop_app (h : M (list Publication) msg_error wvalue) : Application (list Publication) := {|
  qualified := true;
  resolve t := mret t;
  resolve_ref r := mret (ref_id r);
  can_activate _ _ := mret true;
  transform _ v _ := mret v;
  intercept _ _ := INext (λ r, IDone (match r with Ok x => Ok (Some x) | Err e => Err e end));
  catch _ _ _ := mret None;
  handler _ _ := Some (λ _, h);
  convert v _ := Some v;
  enter_scope _ := mret tt;
  exit_scope _ := mret tt
|}.

Definition shop_host : Host (list Publication) := {|
  utc_now := mret (Datetime 1 (Some 0));
  uuid4 := mret 99;
  publish_reply p := modify (λ l, l ++ [p])
|}.

(** At most two headers. *)
Definition tight_limits : MessageLimits :=
  {| max_envelope_bytes := 1024 * 1024; max_header_count := 2; max_header_bytes := 64 * 1024;
     max_nesting_depth := 64; max_collection_items := 10000 |}.

Definition shop_options : MicroservicesOptions :=
  {| max_concurrency := 32; max_inflight_deliveries := 32; max_accepted_rpc_timeout := 10; max_clock_skew := 5;
     message_limits := tight_limits; global_pipeline := no_pipeline |}.

Definition shop_registry : ServiceHandlerRegistry :=
  {| rpc_handlers := [twice_plan]; event_handlers := []; rpc_by_target := [((str "get", 1), twice_plan)];
     rpc_methods := [str "get"]; event_by_subscription := [] |}.

Definition request_delivery : EncodedDelivery :=
  {| dl_message_id := rq_message_id sample_request; dl_routing_key := rpc_routing_key (rq_target sample_request);
     dl_body := match @encode_request bit_json bit_text tight_limits sample_request with Ok b => b | Err _ => [] end;
     dl_headers := WMap []; dl_received_at := Datetime 1 (Some 0); dl_attempt := 1; dl_redelivered := false;
     dl_correlation_id := Some (rq_correlation_id sample_request); dl_reply_to := Some (rq_reply_to sample_request);
     dl_native := None; dl_expires_at := None; dl_subscription := None |}.

Definition serve (h : M (list Publication) msg_error wvalue) : M (list Publication) msg_error InvocationCompletion :=
  @_dispatch_message (list Publication) bit_json bit_text (shop_app h) shop_host shop shop_options (Some shop_registry) request_delivery.

(** A public error with [n] details. *)
Definition busy (n : nat) : M (list Publication) msg_error wvalue :=
  raise (PublicRpcError (str "busy") (str "try later") true (WMap ((λ i, (KeyStr [97 + Z.of_nat i], WNone)) <$> seq 0 n))).


(** A handler that raises a public error with more details than the service's
    limits allow is never answered: encoding the error response fails, the
    dispatcher raises, and no reply is published. With details within the limits
    the caller gets the error. *)
Theorem public_error_unanswered :
  serve (busy 3) [] = (Err (PackageError WireSizeLimitError), []) ∧
  length (serve (busy 2) []).2 = 1%nat ∧ (∃ c, (serve (busy 2) []).1 = Ok c ∧ recommendation c = ACK).
Proof.
  split_and!; [vm_compute; reflexivity|vm_compute; reflexivity|].
  assert (match (serve (busy 2) []).1 with Ok c => bool_decide (recommendation c = ACK) | Err _ => false end = true) as Hc
    by (vm_compute; reflexivity).
  destruct (serve (busy 2) []).1 as [c|]; [|discriminate Hc]. exists c. by apply bool_decide_eq_true in Hc.
Qed.
