(* ===== verification/MsCluster.v ===== *)
(** * Microservices: the client cluster

    [cluster.py] of [tori_py_microservices]: the cache of proxies, the map of
    pending requests, the router of replies and the reaction to the status of the
    transport. A definition is a section of code between two awaits; [cstep] puts
    them in any order. Futures are objects on a heap; with each is kept the
    request that made it. Durations are in microseconds. *)

From Stdlib Require Import ZArith Lia.
From stdpp Require Import base tactics list gmap strings.
From S2P Require Import Prelude MsWire MsValues MsCodec MsRuntime.
Local Open Scope Z_scope.

Inductive rpc_error :=
| RpcTimeoutError
| RpcOutcomeUnknownError
| RpcProtocolError
| UnknownServiceError
| RemoteRpcError (d : RemoteRpcErrorData)
| ClusterError (e : ms_error).

Record ServiceClusterOptions := {
  default_rpc_timeout : Z;
  max_rpc_timeout : Z;
  max_pending_requests : Z;
  cl_message_limits : MessageLimits;
  default_namespace : option pystr;
  default_contract_version : option Z;
  max_cached_proxies : Z
}.

Definition positive_number (v : pyobj) : result ms_error Z :=
  match v with PyInt n => if n <=? 0 then Err MsValueError else Ok n | _ => Err MsValueError end.

(** Numbers are integers here; the code also accepts finite floats. *)
Definition ServiceClusterOptions_new (default_timeout max_timeout max_pending max_proxies namespace version : pyobj)
    (limits : MessageLimits) : result ms_error ServiceClusterOptions :=
  d ← positive_number default_timeout;
  m ← positive_number max_timeout;
  _ ← raise_if (m <? d) MsValueError;
  p ← positive_number max_pending;
  x ← positive_number max_proxies;
  ns ← match namespace with PyNone => Ok None | v => a ← _validate_alias v; Ok (Some a) end;
  cv ← match version with PyNone => Ok None | v => n ← positive_number v; Ok (Some n) end;
  Ok {| default_rpc_timeout := d; max_rpc_timeout := m; max_pending_requests := p; cl_message_limits := limits;
        default_namespace := ns; default_contract_version := cv; max_cached_proxies := x |}.

(** ** The state *)

Inductive future_state := FPending | FResult (r : RpcResponseEnvelope) | FFailed (e : rpc_error).

(** A future, and the correlation and generation it was made for. *)
Record future := { f_state : future_state; f_correlation : uuid; f_generation : Z }.

(** A router task reads the replies of one generation. *)
Record router := { rt_generation : Z; rt_done : bool }.

(** [cancelled] are the calls of [transport.cancel_pending]. *)
Record cluster := {
  _proxies : list (ServiceIdentity * Z);
  _pending : gmap uuid Z;
  _pending_generations : gmap uuid Z;
  futures : gmap Z future;
  _router_task : option router;
  _router_reply_to : option pystr;
  _router_generation : option Z;
  _transport_generation_value : Z;
  _route_ready : bool;
  _closed : bool;
  next_id : Z;
  cancelled : list uuid
}.

Definition ServiceCluster_new : cluster :=
  {| _proxies := []; _pending := ∅; _pending_generations := ∅; futures := ∅; _router_task := None; _router_reply_to := None;
     _router_generation := None; _transport_generation_value := 0; _route_ready := false; _closed := false; next_id := 0;
     cancelled := [] |}.

Definition set_pending_maps (p g : gmap uuid Z) (c : cluster) : cluster :=
  {| _proxies := _proxies c; _pending := p; _pending_generations := g; futures := futures c; _router_task := _router_task c;
     _router_reply_to := _router_reply_to c; _router_generation := _router_generation c;
     _transport_generation_value := _transport_generation_value c; _route_ready := _route_ready c; _closed := _closed c;
     next_id := next_id c; cancelled := cancelled c |}.
Definition set_futures (f : gmap Z future) (c : cluster) : cluster :=
  {| _proxies := _proxies c; _pending := _pending c; _pending_generations := _pending_generations c; futures := f;
     _router_task := _router_task c; _router_reply_to := _router_reply_to c; _router_generation := _router_generation c;
     _transport_generation_value := _transport_generation_value c; _route_ready := _route_ready c; _closed := _closed c;
     next_id := next_id c; cancelled := cancelled c |}.
Definition set_proxies (p : list (ServiceIdentity * Z)) (n : Z) (c : cluster) : cluster :=
  {| _proxies := p; _pending := _pending c; _pending_generations := _pending_generations c; futures := futures c;
     _router_task := _router_task c; _router_reply_to := _router_reply_to c; _router_generation := _router_generation c;
     _transport_generation_value := _transport_generation_value c; _route_ready := _route_ready c; _closed := _closed c;
     next_id := n; cancelled := cancelled c |}.
Definition set_router (t : option router) (route : option pystr) (g : option Z) (ready : bool) (c : cluster) : cluster :=
  {| _proxies := _proxies c; _pending := _pending c; _pending_generations := _pending_generations c; futures := futures c;
     _router_task := t; _router_reply_to := route; _router_generation := g;
     _transport_generation_value := _transport_generation_value c; _route_ready := ready; _closed := _closed c;
     next_id := next_id c; cancelled := cancelled c |}.
Definition set_generation (g : Z) (c : cluster) : cluster :=
  {| _proxies := _proxies c; _pending := _pending c; _pending_generations := _pending_generations c; futures := futures c;
     _router_task := _router_task c; _router_reply_to := _router_reply_to c; _router_generation := _router_generation c;
     _transport_generation_value := g; _route_ready := _route_ready c; _closed := _closed c; next_id := next_id c;
     cancelled := cancelled c |}.
Definition cancel (k : uuid) (c : cluster) : cluster :=
  {| _proxies := _proxies c; _pending := _pending c; _pending_generations := _pending_generations c; futures := futures c;
     _router_task := _router_task c; _router_reply_to := _router_reply_to c; _router_generation := _router_generation c;
     _transport_generation_value := _transport_generation_value c; _route_ready := _route_ready c; _closed := _closed c;
     next_id := next_id c; cancelled := cancelled c ++ [k] |}.

(** [future.set_result] and [set_exception]; a future that is done refuses. *)
Definition set_future (f : Z) (v : future_state) : M cluster ms_error unit :=
  c ← get;
  match futures c !! f with
  | Some x => match f_state x with
              | FPending => modify (set_futures (<[f := {| f_state := v; f_correlation := f_correlation x;
                                                           f_generation := f_generation x |}]> (futures c)))
              | _ => raise (MsException 0)
              end
  | None => raise (MsException 0)
  end.

Definition pop_pending (k : uuid) (c : cluster) : cluster :=
  set_pending_maps (delete k (_pending c)) (delete k (_pending_generations c)) c.

(** ** Proxies *)

(** An ordered dictionary, least recently used first. *)
Definition service (options : ServiceClusterOptions) (identity : ServiceIdentity) : M cluster ms_error Z :=
  c ← get;
  let ps := _proxies c in
  match dict_get ps identity with
  | None =>
      let ps := if max_cached_proxies options <=? zlen ps then tail ps else ps in
      modify (set_proxies (ps ++ [(identity, next_id c)]) (next_id c + 1));;
      mret (next_id c)
  | Some proxy =>
      modify (set_proxies (filter (λ x, x.1 ≠ identity) ps ++ [(identity, proxy)]) (next_id c));;
      mret proxy
  end.

Definition service_by_name (options : ServiceClusterOptions) (name : pyobj) (version : option Z) : M cluster ms_error Z :=
  match default_namespace options, (match version with Some v => Some v | None => default_contract_version options end) with
  | None, _ | _, None => raise MsValueError
  | Some ns, Some v => identity ← lift (ServiceIdentity_new (PyStr ns) name (PyInt v)); service options identity
  end.

(** ** Requests *)

Definition request_begin (options : ServiceClusterOptions) (timeout : option Z) : M cluster ms_error Z :=
  c ← get;
  throw_if (_closed c) TransportStateError;;
  let selected := default (default_rpc_timeout options) timeout in
  throw_if ((selected <=? 0) || (max_rpc_timeout options <? selected)) MsValueError;;
  mret selected.

(** After [start]; [fresh] is a new [uuid4]. *)
Definition register (options : ServiceClusterOptions) (correlation_id : option uuid) (fresh : uuid)
    : M cluster ms_error (uuid * Z) :=
  c ← get;
  throw_if (_closed c) TransportStateError;;
  throw_if (max_pending_requests options <=? Z.of_nat (size (_pending c))) TransportCapacityError;;
  let k := default fresh correlation_id in
  throw_if (bool_decide (is_Some (_pending c !! k))) MsValueError;;
  let f := next_id c in
  modify (set_proxies (_proxies c) (next_id c + 1));;
  modify (set_futures (<[f := {| f_state := FPending; f_correlation := k; f_generation := _transport_generation_value c |}]> (futures c)));;
  modify (set_pending_maps (<[k := f]> (_pending c)) (<[k := _transport_generation_value c]> (_pending_generations c)));;
  mret (k, f).

Definition _cleanup_request (k : uuid) (c : cluster) : cluster := cancel k (pop_pending k c).

Section messages.
Context `{Json} `{WireText}.

(** The envelope and the publication of a request. *)
Definition build_request (options : ServiceClusterOptions) (message_id : uuid) (identity : ServiceIdentity)
    (method schema_version causation_id : pyobj) (k : uuid) (created_at : datetime) (timeout : Z) (reply_to : pystr)
    (headers payload : wvalue) : result ms_error (RpcTarget * Publication) :=
  deadline ← match dt_sub created_at (- timeout) with Some d => Ok d | None => Err (MsException 1) end;
  h ← freeze_headers headers (Some (cl_message_limits options));
  e ← RpcRequestEnvelope_new (PyUUID message_id) identity method schema_version (PyDatetime created_at) (PyDatetime deadline)
        (PyUUID k) causation_id (Some reply_to) h payload None;
  target ← RpcTarget_new identity method schema_version;
  body ← encode_request (cl_message_limits options) e;
  p ← Publication_new (PyUUID (rq_message_id e)) (PyStr (rpc_routing_key target)) (PyBytes body) (WMap []) (PyBool true)
        (PyUUID k) (Some reply_to) None (PyDatetime deadline);
  Ok (target, p).

(** How waiting for the publication and the reply ended: the future was done, the
    deadline passed before or after the publication was confirmed, or the
    publication or the building of the request failed. *)
Inductive waited := WDone | WTimeout | WIndeterminate | WRaised (e : ms_error) | WCancelled.

(** The [except] clauses of [request]. *)
Definition request_failed (k : uuid) (e : rpc_error) : M cluster rpc_error RpcResponseEnvelope :=
  modify (_cleanup_request k);; raise e.

Definition request_wait (k : uuid) (f : Z) (w : waited) : M cluster rpc_error RpcResponseEnvelope :=
  c ← get;
  match w with
  | WDone =>
      match futures c !! f with
      | Some {| f_state := FResult r |} => mret r
      | Some {| f_state := FFailed e |} => request_failed k e
      | _ => raise (ClusterError (MsException 2))
      end
  | WTimeout => request_failed k RpcTimeoutError
  | WIndeterminate => request_failed k RpcOutcomeUnknownError
  | WRaised TransportUnroutableError => request_failed k UnknownServiceError
  | WRaised e => request_failed k (ClusterError e)
  | WCancelled => request_failed k (ClusterError (MsException 3))
  end.

(** [convert] is [msgspec.convert] to the response type. *)
Definition request_result (convert : wvalue → option wvalue) (r : RpcResponseEnvelope) : result rpc_error wvalue :=
  match rs_outcome r with
  | inr d => Err (RemoteRpcError d)
  | inl v => match convert v with Some x => Ok x | None => Err RpcProtocolError end
  end.

(** ** Replies *)

(** A delivery, or a [ReplyProtocolFailure] of a known correlation. *)
Inductive reply := RDelivery (d : EncodedDelivery) | RFailure (correlation_id : uuid).

Definition reply_correlation (r : reply) : option uuid :=
  match r with RDelivery d => dl_correlation_id d | RFailure k => Some k end.

(** What a reply makes of its future. *)
Definition reply_outcome (limits : MessageLimits) (reply_to : pystr) (k : uuid) (r : reply) : future_state :=
  match r with
  | RFailure _ => FFailed RpcProtocolError
  | RDelivery d =>
      if bool_decide (dl_routing_key d ≠ reply_to) then FFailed RpcProtocolError
      else match decode_response limits (dl_body d) with
           | Err _ => FFailed RpcProtocolError
           | Ok x => if bool_decide (rs_correlation_id x ≠ k) then FFailed RpcProtocolError else FResult x
           end
  end.

(** One round of [_route_replies]. *)
Definition route_reply (limits : MessageLimits) (reply_to : pystr) (generation : Z) (r : reply) : M cluster ms_error unit :=
  c ← get;
  match reply_correlation r with
  | None => mret tt
  | Some k =>
      if bool_decide (_pending_generations c !! k ≠ Some generation) then mret tt
      else
        modify (pop_pending k);;
        match _pending c !! k with
        | None => mret tt
        | Some f => set_future f (reply_outcome limits reply_to k r)
        end
  end.
End messages.

(** The futures of the given correlations fail, unless they are done. *)
Definition fail_future (e : rpc_error) (f : Z) (fs : gmap Z future) : gmap Z future :=
  match fs !! f with
  | Some x => match f_state x with
              | FPending => <[f := {| f_state := FFailed e; f_correlation := f_correlation x; f_generation := f_generation x |}]> fs
              | _ => fs
              end
  | None => fs
  end.

Definition fail_one (e : rpc_error) (k : uuid) (c : cluster) : cluster :=
  let c1 := cancel k (pop_pending k c) in
  match _pending c !! k with Some f => set_futures (fail_future e f (futures c)) c1 | None => c1 end.

Definition _fail_pending (e : rpc_error) (generation : option Z) (c : cluster) : cluster :=
  let ks := (filter (λ kg, generation = None ∨ generation = Some kg.2) (map_to_list (_pending_generations c))).*1 in
  foldl (λ c k, fail_one e k c) c ks.

(** The end of [_route_replies], normal or by an error. *)
Definition route_end (generation : Z) (c : cluster) : cluster :=
  let c := _fail_pending RpcOutcomeUnknownError (Some generation) c in
  match _router_task c with
  | Some t => if rt_generation t =? generation
              then set_router (Some {| rt_generation := generation; rt_done := true |}) (_router_reply_to c) (_router_generation c)
                     (_route_ready c) c
              else c
  | None => c
  end.

(** ** The router and the status of the transport *)

Definition router_idle (c : cluster) : bool := match _router_task c with Some t => rt_done t | None => true end.

(** The tail of [start] and of a [RUNNING] event: a router reads, and requests
    may go on. *)
Definition ensure_router (reply_to : pystr) (c : cluster) : cluster :=
  if router_idle c
  then set_router (Some {| rt_generation := _transport_generation_value c; rt_done := false |}) (Some reply_to)
         (Some (_transport_generation_value c)) true c
  else set_router (_router_task c) (_router_reply_to c) (_router_generation c) true c.

Inductive started := Ready | WaitForRoute | StaleRouter.

(** One round of [start]; [created] tells that the transport was started in this
    round, and [status] is the status after that. *)
Definition start_round (created : bool) (status : TransportStatus) (reply_to : pystr) : M cluster ms_error started :=
  c ← get;
  throw_if (_closed c) TransportStateError;;
  throw_if (negb created && bool_decide (status = CLOSED)) TransportStateError;;
  if negb (bool_decide (status = RUNNING))
  then modify (set_router (_router_task c) (_router_reply_to c) (_router_generation c) false);; mret WaitForRoute
  else if negb (_route_ready c) then mret WaitForRoute
  else if negb (router_idle c) &&
          negb (bool_decide (_router_reply_to c = Some reply_to) && bool_decide (_router_generation c = Some (_transport_generation_value c)))
  then mret StaleRouter
  else modify (ensure_router reply_to);; mret Ready.

Definition status_quiescing (generation : Z) (c : cluster) : cluster :=
  let c := set_generation generation c in
  let interrupted := _router_generation c in
  _fail_pending RpcOutcomeUnknownError interrupted (set_router (_router_task c) None None false c).
(** After the old router has ended. *)
Definition status_quiesced (c : cluster) : cluster := set_router None (_router_reply_to c) (_router_generation c) (_route_ready c) c.

Definition status_running (generation : Z) (reply_to : pystr) (c : cluster) : cluster :=
  let c := set_generation generation c in
  if _closed c then c else ensure_router reply_to c.

(** A [CLOSED] event, or the end of the status stream by an error. *)
Definition status_closed (generation : option Z) (c : cluster) : cluster :=
  let c := match generation with Some g => set_generation g c | None => c end in
  _fail_pending RpcOutcomeUnknownError None (set_router (_router_task c) (_router_reply_to c) (_router_generation c) false c).

(** ** Closing

    A cluster that was closed completely is not closed again. *)

Definition close_begin (c : cluster) : cluster :=
  let fs := map_to_list (_pending c) in
  {| _proxies := _proxies c; _pending := ∅; _pending_generations := ∅;
     futures := foldl (λ m kf, fail_future RpcOutcomeUnknownError kf.2 m) (futures c) fs;
     _router_task := _router_task c; _router_reply_to := _router_reply_to c; _router_generation := _router_generation c;
     _transport_generation_value := _transport_generation_value c; _route_ready := true; _closed := true;
     next_id := next_id c; cancelled := cancelled c ++ fs.*1 |}.

(** After the transport and the router have ended. *)
Definition close_end (c : cluster) : cluster := set_router (_router_task c) None None (_route_ready c) c.

(** ** Runs *)

Section steps.
Context `{Json} `{WireText}.
Context (options : ServiceClusterOptions).

Inductive cstep : cluster → cluster → Prop :=
| StepService identity c : cstep c (service options identity c).2
| StepRegister correlation fresh c : cstep c (register options correlation fresh c).2
| StepWait k f w c : (∃ x, futures c !! f = Some x ∧ f_correlation x = k) → cstep c (request_wait k f w c).2
| StepReply reply_to generation r c :
    cstep c (try_except (route_reply (cl_message_limits options) reply_to generation r)
               (λ _, modify (route_end generation)) c).2
| StepRouterEnd generation c : cstep c (route_end generation c)
| StepStart created status reply_to c : cstep c (start_round created status reply_to c).2
| StepQuiescing generation c : cstep c (status_quiescing generation c)
| StepQuiesced c : cstep c (status_quiesced c)
| StepRunning generation reply_to c : cstep c (status_running generation reply_to c)
| StepClosed generation c : cstep c (status_closed generation c)
| StepCloseBegin c : cstep c (close_begin c)
| StepCloseEnd c : cstep c (close_end c).
End steps.
