(* ===== verification/MsClusterFacts.v ===== *)
(** * Microservices: the invariant of the client cluster *)

From Stdlib Require Import ZArith Lia.
From stdpp Require Import base tactics list gmap strings.
From S2P Require Import Prelude MsWire MsValues MsCodec MsRuntime MsCluster.
Local Open Scope Z_scope.

(** [f] is the unresolved future of the request that waits under [k]. *)
Definition waits (c : cluster) (k : uuid) (f : Z) : Prop :=
  ∃ x, futures c !! f = Some x ∧ f_state x = FPending ∧ f_correlation x = k ∧ _pending_generations c !! k = Some (f_generation x).

Record cluster_ok (options : ServiceClusterOptions) (c : cluster) : Prop := {
  ok_pending k f : _pending c !! k = Some f → waits c k f;
  ok_generations k : is_Some (_pending_generations c !! k) → is_Some (_pending c !! k);
  ok_size : Z.of_nat (size (_pending c)) ≤ max_pending_requests options;
  ok_ids f x : futures c !! f = Some x → f < next_id c;
  ok_results f x r : futures c !! f = Some x → f_state x = FResult r → rs_correlation_id r = f_correlation x;
  ok_unresolved f x : futures c !! f = Some x → f_state x = FPending →
    _pending c !! f_correlation x = Some f ∨ f_correlation x ∈ cancelled c;
  ok_closed : _closed c = true → _pending c = ∅;
  ok_proxies : NoDup (_proxies c).*1 ∧ zlen (_proxies c) ≤ max_cached_proxies options
}.

(** Futures are never removed, and what is resolved stays as it is. *)
Definition settles (c c' : cluster) : Prop :=
  ∀ f x, futures c !! f = Some x → ∃ y, futures c' !! f = Some y ∧ f_correlation y = f_correlation x ∧
    f_generation y = f_generation x ∧ (f_state x ≠ FPending → y = x).

#[export] Instance settles_refl : Reflexive settles.
Proof. intros c f x Hx. by exists x. Qed.
#[export] Instance settles_trans : Transitive settles.
Proof.
  intros c1 c2 c3 H1 H2 f x Hx. destruct (H1 f x Hx) as (y & Hy & Hc & Hg & Hs). destruct (H2 f y Hy) as (z & Hz & Hc' & Hg' & Hs').
  exists z. split_and!; [done|congruence..|]. intros Hp. specialize (Hs Hp). subst y. auto.
Qed.

Lemma settles_same c c' : futures c' = futures c → settles c c'.
Proof. intros Hf f x Hx. rewrite Hf. by exists x. Qed.

Section facts.
Context (options : ServiceClusterOptions).

(** Changes that do not concern requests. *)
Lemma ok_frame c c' :
  cluster_ok options c → futures c' = futures c → _pending c' = _pending c → _pending_generations c' = _pending_generations c →
  NoDup (_proxies c').*1 ∧ zlen (_proxies c') ≤ max_cached_proxies options → next_id c ≤ next_id c' →
  cancelled c' = cancelled c → _closed c' = _closed c → cluster_ok options c' ∧ settles c c'.
Proof.
  intros Hc Hf Hp Hg Hx Hn Hca Hcl. split; [|by apply settles_same]. destruct Hc. unfold waits in *.
  split; rewrite ?Hf, ?Hp, ?Hg, ?Hca, ?Hcl; try done.
  - intros k f Hk. unfold waits. rewrite Hf, Hg. auto.
  - intros f x Hx'. specialize (ok_ids0 _ _ Hx'). lia.
Qed.

(** The futures after the wait under [k] has ended: its future, if it has one,
    takes the state [v]. *)
Definition resolved (k : uuid) (v : option future_state) (c : cluster) : gmap Z future :=
  match v, _pending c !! k with
  | Some v, Some f => alter (λ x, {| f_state := v; f_correlation := f_correlation x; f_generation := f_generation x |}) f (futures c)
  | _, _ => futures c
  end.

(** A future that is left unresolved must be cancelled. *)
Lemma ok_pop c c' k v :
  cluster_ok options c → (∀ r, v = Some (FResult r) → rs_correlation_id r = k) → v ≠ Some FPending →
  (v = None → k ∈ cancelled c') → cancelled c ⊆ cancelled c' →
  futures c' = resolved k v c → _pending c' = delete k (_pending c) → _pending_generations c' = delete k (_pending_generations c) →
  _proxies c' = _proxies c → next_id c' = next_id c → _closed c' = _closed c →
  cluster_ok options c' ∧ settles c c'.
Proof.
  intros Hc Hv Hvp Hcs Hsub Hf Hp Hg Hx Hn Hcl. remember (resolved k v c) as fs eqn:Hfs. unfold resolved in Hfs.
  assert (∀ f x, fs !! f = Some x → ∃ y, futures c !! f = Some y ∧ f_correlation x = f_correlation y ∧ f_generation x = f_generation y ∧
    (x = y ∨ (_pending c !! k = Some f ∧ v = Some (f_state x)))) as Hold.
  { intros f x Hfx. subst fs. destruct v as [v|]; [|by exists x; auto].
    destruct (_pending c !! k) as [f0|] eqn:Hk; [|by exists x; auto]. destruct (decide (f0 = f)) as [->|Hne].
    - rewrite lookup_alter_eq in Hfx. destruct (futures c !! f) as [y|] eqn:Hy; simplify_eq/=. exists y. split_and!; [done..|by right].
    - rewrite lookup_alter_ne in Hfx by done. exists x. split_and!; [done..|by left]. }
  assert (∀ f, _pending c !! k ≠ Some f → fs !! f = futures c !! f) as Hsame.
  { intros f Hne. subst fs. destruct v; [|done]. destruct (_pending c !! k); [|done]. rewrite lookup_alter_ne; [done|congruence]. }
  split.
  - split.
    + intros k' f Hk'. rewrite Hp in Hk'. apply lookup_delete_Some in Hk' as [Hne Hk'].
      destruct (ok_pending _ _ Hc k' f Hk') as (x & Hxf & Hs & Hco & Hge). exists x. rewrite Hf, Hg.
      rewrite lookup_delete_ne by done. rewrite Hsame; [done|]. intros Hk. destruct (ok_pending _ _ Hc k f Hk) as (x' & ? & _ & ? & _).
      simplify_eq.
    + intros k' Hk'. rewrite Hg in Hk'. rewrite Hp. destruct (decide (k = k')) as [->|Hne]; [by rewrite lookup_delete_eq in Hk'; destruct Hk'|].
      rewrite lookup_delete_ne in * by done. by apply (ok_generations _ _ Hc).
    + rewrite Hp. pose proof (ok_size _ _ Hc). destruct (_pending c !! k) as [f|] eqn:Hk; [|by rewrite delete_id].
      rewrite map_size_delete, Hk. lia.
    + intros f x Hfx. rewrite Hf in Hfx. destruct (Hold f x Hfx) as (y & Hy & _). rewrite Hn. by eapply ok_ids.
    + intros f x r Hfx Hr. rewrite Hf in Hfx. destruct (Hold f x Hfx) as (y & Hy & Hco & _ & [->|[Hk Hvs]]); [by eapply ok_results|].
      rewrite Hr in Hvs. rewrite (Hv r Hvs), Hco. destruct (ok_pending _ _ Hc k f Hk) as (x' & ? & _ & ? & _). by simplify_eq.
    + intros f x Hfx Hs. rewrite Hf in Hfx. rewrite Hp. destruct (Hold f x Hfx) as (y & Hy & Hco & _ & [->|[Hk Hvs]]); [|by rewrite Hs in Hvs].
      destruct (ok_unresolved _ _ Hc f y Hy Hs) as [Hpe|Hin]; [|right; auto]. destruct (decide (f_correlation y = k)) as [<-|Hne].
      * right. apply Hcs. destruct v as [v|]; [|done]. subst fs. rewrite Hpe in Hfx. rewrite lookup_alter_eq, Hy in Hfx. simplify_eq/=.
        destruct y; simpl in *; simplify_eq.
      * left. by rewrite lookup_delete_ne.
    + rewrite Hcl, Hp. intros Hz. rewrite (ok_closed _ _ Hc Hz). apply delete_empty.
    + rewrite Hx. apply Hc.
  - intros f y Hy. rewrite Hf. destruct (decide (_pending c !! k = Some f)) as [Hk|Hk]; [|rewrite Hsame by done; by exists y].
    destruct (ok_pending _ _ Hc k f Hk) as (x & Hx' & Hs & _). rewrite Hx' in Hy; injection Hy as ->. subst fs.
    destruct v as [v|]; [|by exists y]. rewrite Hk, lookup_alter_eq, Hx'. eexists. split; [done|]. done.
Qed.

Lemma insert_as_alter (g : future → future) (m : gmap Z future) f x : m !! f = Some x → <[f := g x]> m = alter g f m.
Proof.
  intros Hx. apply map_eq. intros i. destruct (decide (f = i)) as [<-|Hne].
  - by rewrite lookup_insert_eq, lookup_alter_eq, Hx.
  - by rewrite lookup_insert_ne, lookup_alter_ne.
Qed.

Lemma cleanup_ok c k : cluster_ok options c → cluster_ok options (_cleanup_request k c) ∧ settles c (_cleanup_request k c).
Proof.
  intros Hc. apply (ok_pop c _ k None); try done; unfold _cleanup_request, cancel; simpl.
  - intros _. apply elem_of_app. right. by left.
  - intros k'. rewrite elem_of_app. auto.
Qed.

(** Giving the future of [k] a state. *)
Lemma resolve_ok c k f v :
  cluster_ok options c → _pending c !! k = Some f → v ≠ FPending → (∀ r, v = FResult r → rs_correlation_id r = k) →
  ∃ c', set_future f v (pop_pending k c) = (Ok tt, c') ∧ futures c' = resolved k (Some v) c ∧ cluster_ok options c' ∧ settles c c'.
Proof.
  intros Hc Hk Hv Hr. destruct (ok_pending _ _ Hc k f Hk) as (x & Hx & Hs & _). unfold set_future, mbind, M_bind, get. simpl.
  rewrite Hx, Hs. eexists. split; [done|].
  assert (<[f := {| f_state := v; f_correlation := f_correlation x; f_generation := f_generation x |}]> (futures c) = resolved k (Some v) c) as Hf
    by (unfold resolved; rewrite Hk; by apply (insert_as_alter (λ x, {| f_state := v; f_correlation := f_correlation x; f_generation := f_generation x |}))).
  split; [exact Hf|]. apply (ok_pop c _ k (Some v)); try done.
  - intros r [= ->]. by apply Hr.
  - congruence.
Qed.

Lemma fail_one_ok c e k : cluster_ok options c → cluster_ok options (fail_one e k c) ∧ settles c (fail_one e k c).
Proof.
  intros Hc. unfold fail_one. destruct (_pending c !! k) as [f|] eqn:Hk; [|by apply cleanup_ok].
  destruct (ok_pending _ _ Hc k f Hk) as (x & Hx & Hs & _). apply (ok_pop c _ k (Some (FFailed e))); try done; simpl.
  - intros k'. rewrite elem_of_app. auto.
  - unfold fail_future, resolved. rewrite Hx, Hs, Hk. by apply (insert_as_alter (λ x, {| f_state := FFailed e; f_correlation := f_correlation x; f_generation := f_generation x |})).
Qed.

Lemma moves_trans c c1 c2 :
  cluster_ok options c1 ∧ settles c c1 → (cluster_ok options c1 → cluster_ok options c2 ∧ settles c1 c2) →
  cluster_ok options c2 ∧ settles c c2.
Proof. intros [H1 S1] H2. destruct (H2 H1) as [H3 S2]. split; [done|by etrans]. Qed.

Lemma fail_pending_ok c e g : cluster_ok options c → cluster_ok options (_fail_pending e g c) ∧ settles c (_fail_pending e g c).
Proof.
  unfold _fail_pending. generalize ((filter (λ kg : uuid * Z, g = None ∨ g = Some kg.2) (map_to_list (_pending_generations c))).*1).
  intros ks. revert c. induction ks as [|k ks IH]; intros c Hc; simpl; [by split|].
  eapply moves_trans; [by apply fail_one_ok|apply IH].
Qed.

(** Changes of the router only. *)
Lemma router_ok c t route g ready : cluster_ok options c → cluster_ok options (set_router t route g ready c) ∧ settles c (set_router t route g ready c).
Proof. intros Hc. apply ok_frame; done || apply Hc. Qed.
Lemma generation_ok c g : cluster_ok options c → cluster_ok options (set_generation g c) ∧ settles c (set_generation g c).
Proof. intros Hc. apply ok_frame; done || apply Hc. Qed.

Lemma ensure_router_ok c r : cluster_ok options c → cluster_ok options (ensure_router r c) ∧ settles c (ensure_router r c).
Proof. intros Hc. unfold ensure_router. case_match; by apply router_ok. Qed.

Lemma route_end_ok c g : cluster_ok options c → cluster_ok options (route_end g c) ∧ settles c (route_end g c).
Proof.
  intros Hc. unfold route_end. eapply moves_trans; [by apply fail_pending_ok|]. intros H1. case_match; [|done].
  case_match; [by apply router_ok|done].
Qed.

Lemma quiescing_ok c g : cluster_ok options c → cluster_ok options (status_quiescing g c) ∧ settles c (status_quiescing g c).
Proof.
  intros Hc. unfold status_quiescing. eapply moves_trans; [by apply generation_ok|]. intros H1.
  eapply moves_trans; [by apply router_ok|apply fail_pending_ok].
Qed.

Lemma running_ok c g r : cluster_ok options c → cluster_ok options (status_running g r c) ∧ settles c (status_running g r c).
Proof.
  intros Hc. unfold status_running. eapply moves_trans; [by apply (generation_ok c g)|]. intros H1.
  case_match; [done|by apply ensure_router_ok].
Qed.

Lemma closed_ok c og : cluster_ok options c → cluster_ok options (status_closed og c) ∧ settles c (status_closed og c).
Proof.
  intros Hc. unfold status_closed. set (c1 := match og with Some g => set_generation g c | None => c end).
  eapply (moves_trans c c1); [subst c1; destruct og; [by apply generation_ok|done]|]. intros H1.
  eapply moves_trans; [by apply router_ok|apply fail_pending_ok].
Qed.

Lemma start_round_ok c created status r :
  cluster_ok options c → cluster_ok options (start_round created status r c).2 ∧ settles c (start_round created status r c).2.
Proof.
  intros Hc. unfold start_round. autorewrite with mrun. cbv beta. repeat (case_match; autorewrite with mrun; cbv beta); try done;
    simpl; first [by apply router_ok|by apply ensure_router_ok].
Qed.

(** A reply resolves the future that waits for it, or is dropped. *)
Lemma route_reply_ok `{Json} `{WireText} c limits reply_to g r :
  cluster_ok options c →
  (route_reply limits reply_to g r c).1 = Ok tt ∧ cluster_ok options (route_reply limits reply_to g r c).2 ∧
  settles c (route_reply limits reply_to g r c).2.
Proof.
  intros Hc. unfold route_reply. autorewrite with mrun. cbv beta. destruct (reply_correlation r) as [k|]; [|done].
  case_bool_decide as Hg; [done|]. autorewrite with mrun. cbv beta.
  destruct (ok_generations _ _ Hc k) as [f Hk]; [by rewrite Hg|]. rewrite Hk.
  destruct (resolve_ok c k f (reply_outcome limits reply_to k r) Hc Hk) as (c' & -> & _ & Hok); [| |done].
  - unfold reply_outcome. by repeat case_match.
  - unfold reply_outcome. intros x. repeat case_match; try done. intros [= <-]. by bool_hyps; destruct (decide (rs_correlation_id a = k)).
Qed.

Lemma wait_ok c k f w :
  cluster_ok options c → cluster_ok options (request_wait k f w c).2 ∧ settles c (request_wait k f w c).2.
Proof.
  intros Hc. unfold request_wait, request_failed. autorewrite with mrun. cbv beta.
  repeat (case_match; autorewrite with mrun; cbv beta); simpl; try done; by apply cleanup_ok.
Qed.

(** A new request waits under a correlation of its own. *)
Lemma register_ok c co fresh :
  cluster_ok options c → cluster_ok options (register options co fresh c).2 ∧ settles c (register options co fresh c).2.
Proof.
  intros Hc. unfold register. autorewrite with mrun. cbv beta. destruct (_closed c) eqn:Hcl; [done|]. autorewrite with mrun. cbv beta.
  case_match eqn:Hsz; [done|]. autorewrite with mrun. cbv beta. set (k := default fresh co). apply Z.leb_gt in Hsz.
  case_bool_decide as Hk; [done|]. autorewrite with mrun. cbv beta. simpl.
  assert (_pending c !! k = None) as Hn by (by apply eq_None_not_Some).
  assert (futures c !! next_id c = None) as Hf.
  { destruct (futures c !! next_id c) as [x|] eqn:Hx; [|done]. pose proof (ok_ids _ _ Hc _ _ Hx). lia. }
  assert (∀ f x, futures c !! f = Some x → next_id c ≠ f) as Hne by (intros f x Hx Heq; rewrite <- Heq in Hx; congruence).
  split; [split|]; simpl.
  - intros k' f. rewrite lookup_insert_Some. intros [[<- <-]|[Hkk Hp]].
    + eexists. simpl. rewrite !lookup_insert_eq. done.
    + destruct (ok_pending _ _ Hc k' f Hp) as (x & Hx & ? & ? & ?). exists x. simpl.
      rewrite !lookup_insert_ne; eauto.
  - intros k'. rewrite !lookup_insert_is_Some'. pose proof (ok_generations _ _ Hc k'). naive_solver.
  - rewrite map_size_insert_None by done. lia.
  - intros f x. rewrite lookup_insert_Some. intros [[<- _]|[_ Hx]]; [lia|]. pose proof (ok_ids _ _ Hc _ _ Hx). lia.
  - intros f x r. rewrite lookup_insert_Some. intros [[_ <-]|[_ Hx]]; [done|]. by eapply ok_results.
  - intros f x. rewrite lookup_insert_Some. intros [[<- <-]|[_ Hx]] Hs; simpl; [left; by rewrite lookup_insert_eq|].
    destruct (ok_unresolved _ _ Hc f x Hx Hs) as [Hp|]; [|by right]. left. rewrite lookup_insert_ne; [done|congruence].
  - intros Hc'. congruence.
  - apply Hc.
  - intros f x Hx. exists x. simpl. rewrite lookup_insert_ne by eauto. done.
Qed.

Definition unresolved (x : future) : bool := match f_state x with FPending => true | _ => false end.

Lemma unresolved_spec x : unresolved x = true ↔ f_state x = FPending.
Proof. unfold unresolved. by destruct (f_state x). Qed.

(** Failing the futures of a list of requests. *)
Lemma fail_all_lookup e l (m : gmap Z future) f :
  foldl (λ m (kf : uuid * Z), fail_future e kf.2 m) m l !! f =
  (λ x, if bool_decide (f ∈ l.*2) && unresolved x
        then {| f_state := FFailed e; f_correlation := f_correlation x; f_generation := f_generation x |} else x) <$> m !! f.
Proof.
  revert m. induction l as [|[k g] l IH]; intros m; [simpl; by destruct (m !! f)|].
  rewrite fmap_cons. cbn [foldl snd]. rewrite IH. clear IH.
  destruct (decide (f = g)) as [->|Hne].
  - rewrite (bool_decide_eq_true_2 (g ∈ g :: l.*2)) by (by left). unfold fail_future, unresolved.
    destruct (m !! g) as [x|] eqn:Hx; simpl; [|by rewrite Hx].
    destruct (f_state x) eqn:Hs; rewrite ?lookup_insert_eq, ?Hx; simpl; rewrite ?Hs, ?andb_false_r; done.
  - assert (fail_future e g m !! f = m !! f) as ->
      by (unfold fail_future; repeat case_match; try done; by rewrite lookup_insert_ne).
    rewrite (bool_decide_ext (f ∈ g :: l.*2) (f ∈ l.*2)); [done|]. rewrite elem_of_cons. naive_solver.
Qed.

(** Closing wakes every request. *)
Lemma close_begin_ok c : cluster_ok options c → cluster_ok options (close_begin c) ∧ settles c (close_begin c).
Proof.
  intros Hc. unfold close_begin.
  assert (∀ f, f ∈ (map_to_list (_pending c)).*2 → ∃ k, _pending c !! k = Some f) as Hin.
  { intros f ([k f'] & -> & Hkf)%list_elem_of_fmap. exists k. by apply elem_of_map_to_list in Hkf. }
  split; [split|]; simpl.
  - done.
  - intros k. rewrite lookup_empty. by intros [].
  - rewrite map_size_empty. pose proof (ok_size _ _ Hc). lia.
  - intros f x. rewrite fail_all_lookup. intros (y & Hy & _)%fmap_Some. by eapply ok_ids.
  - intros f x r. rewrite fail_all_lookup. intros (y & Hy & ->)%fmap_Some Hr. case_match; [done|]. by eapply ok_results.
  - intros f x. rewrite fail_all_lookup. intros (y & Hy & ->)%fmap_Some. case_match; [done|]. intros Hs. right.
    apply elem_of_app. destruct (ok_unresolved _ _ Hc f y Hy Hs) as [Hp|]; [|by left]. right.
    apply list_elem_of_fmap. exists (f_correlation y, f). split; [done|]. by apply elem_of_map_to_list.
  - done.
  - apply Hc.
  - intros f x Hx. simpl. rewrite fail_all_lookup, Hx. simpl. eexists. split; [done|]. case_match eqn:Hd; [|done].
    split_and!; [done..|]. apply andb_true_iff in Hd as [_ Hd%unresolved_spec]. by rewrite Hd.
Qed.
End facts.
