(* ===== verification/MsClusterProperties.v ===== *)
(** * Microservices: what the client cluster guarantees *)

From Stdlib Require Import ZArith Lia.
From stdpp Require Import base tactics list gmap strings relations.
From S2P Require Import Prelude MsWire MsValues MsCodec MsCodecFacts MsCodecScenarios MsRuntime MsCluster MsClusterFacts.
Local Open Scope Z_scope.

(** ** The cache of proxies *)

(** The distinct elements of a history, ordered by their last use. *)
Definition touch {A} `{EqDecision A} (x : A) (r : list A) : list A := filter (λ y, y ≠ x) r ++ [x].
Definition recent {A} `{EqDecision A} (h : list A) : list A := foldl (λ r x, touch x r) [] h.
(** The last [n] elements. *)
Definition last_n {A} (n : nat) (l : list A) : list A := drop (length l - n) l.

Section recent.
Context {A : Type} `{EqDecision A}.
Implicit Types (x : A) (r h l : list A).

Lemma filter_out_notin x l : x ∉ l → filter (λ y, y ≠ x) l = l.
Proof. induction l as [|y l IH]; [done|]. intros [Hy Hl]%not_elem_of_cons. rewrite filter_cons_True by done. by rewrite IH. Qed.

Lemma filter_out_length x l : NoDup l → x ∈ l → S (length (filter (λ y, y ≠ x) l)) = length l.
Proof.
  induction 1 as [|y l Hy Hl IH]; [by intros Hx%not_elem_of_nil|]. intros [->|Hx]%elem_of_cons.
  - rewrite filter_cons_False by auto. by rewrite filter_out_notin.
  - rewrite filter_cons_True by (intros ->; done). simpl. by rewrite IH.
Qed.

Lemma touch_NoDup x r : NoDup r → NoDup (touch x r).
Proof.
  intros Hr. unfold touch. apply NoDup_app. split_and!; [by apply NoDup_filter| |apply NoDup_singleton].
  intros y [Hy _]%list_elem_of_filter Hyx. by apply list_elem_of_singleton in Hyx.
Qed.

Lemma recent_snoc h x : recent (h ++ [x]) = touch x (recent h).
Proof. unfold recent. by rewrite foldl_app. Qed.

Lemma recent_NoDup h : NoDup (recent h).
Proof. induction h as [|x h IH] using rev_ind; [constructor|]. rewrite recent_snoc. by apply touch_NoDup. Qed.

Lemma last_n_suffix n l : ∃ k, l = k ++ last_n n l ∧ (length (last_n n l) ≤ n)%nat ∧ (k ≠ [] → length (last_n n l) = n).
Proof.
  exists (take (length l - n) l). unfold last_n. rewrite take_drop, length_drop. split_and!; [done|lia|].
  intros Hk. destruct (decide (length l ≤ n)%nat); [|lia]. destruct Hk. by replace (length l - n)%nat with 0%nat by lia.
Qed.

Lemma last_n_app n k l : (length l ≤ n)%nat → (k ≠ [] → length l = n) → last_n n (k ++ l) = l.
Proof.
  intros Hl Hk. unfold last_n. rewrite length_app. destruct k as [|y k].
  - simpl. by replace (length l - n)%nat with 0%nat by lia.
  - rewrite drop_app_length'; [done|]. rewrite Hk by done. lia.
Qed.

(** Using an element of the window moves it to the end; using another pushes the
    oldest out when the window is full. *)
Lemma last_n_touch n x r : (0 < n)%nat → NoDup r →
  last_n n (touch x r) =
  if decide (x ∈ last_n n r) then touch x (last_n n r)
  else (if decide (n ≤ length (last_n n r))%nat then tail (last_n n r) else last_n n r) ++ [x].
Proof.
  intros Hn Hr. destruct (last_n_suffix n r) as (k & Hk & Hle & Hfull). set (w := last_n n r) in *. rewrite Hk in Hr |- *.
  apply NoDup_app in Hr as (Nk & Hkw & Nw). unfold touch at 1. rewrite filter_app, <- app_assoc. destruct (decide (x ∈ w)) as [Hx|Hx].
  - rewrite (filter_out_notin x k) by (intros Hin; by apply (Hkw x)). pose proof (filter_out_length x w Nw Hx) as Hlen.
    apply last_n_app; unfold touch; rewrite length_app; simpl; [lia|]. intros Hne. specialize (Hfull Hne). lia.
  - rewrite (filter_out_notin x w) by done. destruct (decide (n ≤ length w)%nat) as [Hw|Hw].
    + destruct w as [|y w]; [simpl in *; lia|]. simpl tail. replace (filter (λ y, y ≠ x) k ++ (y :: w) ++ [x]) with
        ((filter (λ y, y ≠ x) k ++ [y]) ++ (w ++ [x])) by (by rewrite <- !app_assoc).
      apply last_n_app; rewrite length_app; simpl in *; lia.
    + assert (k = []) as -> by (destruct k; [done|]; specialize (Hfull ltac:(done)); lia). simpl. apply (last_n_app n []); [|done].
      rewrite length_app. simpl. lia.
Qed.
End recent.

Section proxies.
Context (options : ServiceClusterOptions).

Lemma filter_keys (l : list (ServiceIdentity * Z)) i : (filter (λ x, x.1 ≠ i) l).*1 = filter (λ y, y ≠ i) l.*1.
Proof.
  induction l as [|[j q] l IH]; [done|]. rewrite fmap_cons. simpl fst. destruct (decide (j = i)) as [->|Hne].
  - by rewrite !filter_cons_False by auto.
  - rewrite !filter_cons_True by done. by rewrite fmap_cons, IH.
Qed.

Lemma service_keys c identity :
  (_proxies (service options identity c).2).*1 =
  if decide (identity ∈ (_proxies c).*1) then touch identity (_proxies c).*1
  else (if max_cached_proxies options <=? zlen (_proxies c) then tail (_proxies c).*1 else (_proxies c).*1) ++ [identity].
Proof.
  unfold service. autorewrite with mrun. cbv beta. destruct (dict_get (_proxies c) identity) as [p|] eqn:Hd; autorewrite with mrun.
  - rewrite decide_True by (apply dec_stable; rewrite <- dict_get_None; congruence).
    cbn [_proxies set_proxies snd]. by rewrite fmap_app, filter_keys.
  - apply dict_get_None in Hd. rewrite decide_False by done. cbn [_proxies set_proxies snd]. rewrite fmap_app. f_equal.
    case_match; [by destruct (_proxies c)|done].
Qed.

(** Asking for the proxies of a history of identities. *)
Definition ask (h : list ServiceIdentity) (c : cluster) : cluster := foldl (λ c i, (service options i c).2) c h.

(** C30: The cache of proxies holds the services used last: after any history of
    requests for proxies its keys are the last [max_cached_proxies] distinct
    identities, ordered by their last use. *)
Theorem proxy_cache_lru h :
  0 < max_cached_proxies options →
  (_proxies (ask h ServiceCluster_new)).*1 = last_n (Z.to_nat (max_cached_proxies options)) (recent h).
Proof.
  intros Hm. set (n := Z.to_nat (max_cached_proxies options)). induction h as [|x h IH] using rev_ind; [done|].
  unfold ask in *. rewrite foldl_app, recent_snoc, last_n_touch by (first [unfold n; lia|apply recent_NoDup]).
  cbn [foldl]. rewrite service_keys, IH. case_decide; [done|]. f_equal. unfold zlen. rewrite <- (length_fmap fst), IH.
  destruct (Z.leb_spec (max_cached_proxies options) (Z.of_nat (length (last_n n (recent h))))); case_decide; try done; unfold n in *; lia.
Qed.

Lemma service_ok c identity :
  0 < max_cached_proxies options → cluster_ok options c →
  cluster_ok options (service options identity c).2 ∧ settles c (service options identity c).2.
Proof.
  intros Hm Hc. assert (NoDup (_proxies (service options identity c).2).*1 ∧
    zlen (_proxies (service options identity c).2) ≤ max_cached_proxies options) as Hp.
  { destruct (ok_proxies _ _ Hc) as [Hn Hl]. unfold zlen in *. rewrite <- (length_fmap fst), service_keys.
    unfold zlen. rewrite <- (length_fmap fst (_proxies c)) in *. case_decide as Hin.
    - split; [by apply touch_NoDup|]. unfold touch. rewrite length_app. pose proof (filter_out_length _ _ Hn Hin). simpl. lia.
    - assert (∀ l : list ServiceIdentity, l ⊆ (_proxies c).*1 → NoDup l → NoDup (l ++ [identity])) as Happ.
      { intros l Hs Hnd. apply NoDup_app. split_and!; [done| |apply NoDup_singleton]. intros y Hy Hyx.
        apply list_elem_of_singleton in Hyx as ->. auto. }
      rewrite length_app. case_match; bool_hyps; (split; [apply Happ|]); simpl; try done; try lia.
      + destruct (_proxies c).*1; [done|]. simpl. intros y Hy. by right.
      + destruct (_proxies c).*1; [done|]. by apply NoDup_cons in Hn as [].
      + destruct (_proxies c).*1; simpl in *; lia. }
  assert (futures (service options identity c).2 = futures c ∧ _pending (service options identity c).2 = _pending c ∧
    _pending_generations (service options identity c).2 = _pending_generations c ∧ next_id c ≤ next_id (service options identity c).2 ∧
    cancelled (service options identity c).2 = cancelled c ∧ _closed (service options identity c).2 = _closed c) as (?&?&?&?&?&?).
  { unfold service. autorewrite with mrun. cbv beta. case_match; autorewrite with mrun; simpl; split_and!; done || lia. }
  by apply ok_frame.
Qed.
End proxies.

(** ** Runs *)

Section runs.
Context `{Json} `{WireText} (options : ServiceClusterOptions).

Lemma step_ok c c' :
  0 < max_cached_proxies options → cluster_ok options c → cstep options c c' → cluster_ok options c' ∧ settles c c'.
Proof.
  intros Hm Hc Hs. destruct Hs.
  - by apply service_ok.
  - by apply register_ok.
  - by apply wait_ok.
  - destruct (route_reply_ok options c (cl_message_limits options) reply_to generation r Hc) as (Hr & Hok). unfold try_except.
    by destruct (route_reply _ _ _ _ c) as [[|] ?].
  - by apply route_end_ok.
  - by apply start_round_ok.
  - by apply quiescing_ok.
  - by apply router_ok.
  - by apply running_ok.
  - by apply closed_ok.
  - by apply close_begin_ok.
  - by apply router_ok.
Qed.

Lemma new_ok : 0 ≤ max_pending_requests options → 0 < max_cached_proxies options → cluster_ok options ServiceCluster_new.
Proof.
  intros Hp Hm. split; simpl; try done. split; [constructor|]. unfold zlen. simpl. lia.
Qed.

Lemma run_ok c c' :
  0 < max_cached_proxies options → cluster_ok options c → rtc (cstep options) c c' → cluster_ok options c' ∧ settles c c'.
Proof.
  intros Hm Hc Hr. induction Hr as [c|c c1 c2 Hs _ IH]; [by split|].
  eapply moves_trans; [by apply step_ok|]. done.
Qed.

(** States of a cluster with valid options. *)
Definition reached (c : cluster) : Prop :=
  0 ≤ max_pending_requests options ∧ 0 < max_cached_proxies options ∧ rtc (cstep options) ServiceCluster_new c.

Lemma reached_ok c : reached c → cluster_ok options c.
Proof. intros (Hp & Hm & Hr). by eapply run_ok; [|apply new_ok|]. Qed.

(** Failing the pending requests reaches each of them. *)
Lemma fail_pending_wakes c e g k f x :
  cluster_ok options c → _pending c !! k = Some f → futures c !! f = Some x → (g = None ∨ g = Some (f_generation x)) →
  futures (_fail_pending e g c) !! f = Some {| f_state := FFailed e; f_correlation := f_correlation x; f_generation := f_generation x |}.
Proof.
  intros Hc Hk Hx Hg. destruct (ok_pending _ _ Hc k f Hk) as (x' & Hx' & Hs & Hco & Hge). rewrite Hx in Hx'. injection Hx' as <-.
  unfold _fail_pending.
  assert (k ∈ (filter (λ kg : uuid * Z, g = None ∨ g = Some kg.2) (map_to_list (_pending_generations c))).*1) as Hin.
  { apply list_elem_of_fmap. exists (k, f_generation x). split; [done|]. apply list_elem_of_filter. split; [done|].
    by apply elem_of_map_to_list. }
  revert Hin. generalize (filter (λ kg : uuid * Z, g = None ∨ g = Some kg.2) (map_to_list (_pending_generations c))).*1.
  intros ks. clear Hg. revert c Hc Hk Hx Hs Hge. induction ks as [|j ks IH]; intros c Hc Hk Hx Hs Hge; [by intros ?%not_elem_of_nil|].
  intros Hin. cbn [foldl]. destruct (fail_one_ok options c e j Hc) as [Hc1 Hset]. destruct (decide (j = k)) as [->|Hne].
  - assert (futures (fail_one e k c) !! f = Some {| f_state := FFailed e; f_correlation := f_correlation x; f_generation := f_generation x |}) as Hf.
    { unfold fail_one. rewrite Hk. simpl. unfold fail_future. rewrite Hx, Hs. apply lookup_insert_eq. }
    assert (settles (fail_one e k c) (foldl (λ c k, fail_one e k c) (fail_one e k c) ks)) as Hst.
    { clear -Hc1. revert Hc1. generalize (fail_one e k c). induction ks as [|j ks IH]; intros c1 Hc1; [done|]. cbn [foldl].
      destruct (fail_one_ok options c1 e j Hc1) as [Hc2 S2]. etrans; [exact S2|]. by apply IH. }
    destruct (Hst _ _ Hf) as (y & Hy & _ & _ & Hyx). by rewrite Hy, Hyx.
  - apply elem_of_cons in Hin as [->|Hin]; [done|].
    assert (_pending (fail_one e j c) !! k = Some f ∧ _pending_generations (fail_one e j c) !! k = Some (f_generation x)) as [Hk1 Hg1].
    { unfold fail_one. destruct (_pending c !! j); simpl; by rewrite !lookup_delete_ne. }
    destruct (ok_pending _ _ Hc1 k f Hk1) as (y & Hy & Hsy & Hcy & Hgy). destruct (Hset f x Hx) as (y' & Hy' & Hcy' & Hgy' & _).
    rewrite Hy in Hy'. injection Hy' as <-. assert (y = x) as -> by (destruct x, y; simpl in *; congruence). by apply IH.
Qed.

(** ** Theorems *)

(** C27: The state of the cluster is bounded and consistent: never more pending
    requests or cached proxies than the options allow; every entry of the pending
    map leads to the unresolved future of its own request; a request that is still
    unresolved is in the map or was cancelled; a closed cluster has none. *)
Theorem cluster_bounded c :
  reached c →
  Z.of_nat (size (_pending c)) ≤ max_pending_requests options ∧ zlen (_proxies c) ≤ max_cached_proxies options ∧
  (∀ k f, _pending c !! k = Some f → ∃ x, futures c !! f = Some x ∧ f_state x = FPending ∧ f_correlation x = k) ∧
  (∀ f x, futures c !! f = Some x → f_state x = FPending → _pending c !! f_correlation x = Some f ∨ f_correlation x ∈ cancelled c) ∧
  (_closed c = true → _pending c = ∅).
Proof.
  intros Hc%reached_ok. split_and!; [apply Hc|apply Hc| |apply Hc|apply Hc].
  intros k f Hk. destruct (ok_pending _ _ Hc k f Hk) as (x & ? & ? & ? & _). eauto.
Qed.

(** C28: A request gets one answer. Whatever happens afterwards, a future that was
    resolved keeps its value; a response it was resolved with has its correlation
    id; and no reply ever meets a future that is already resolved. *)
Theorem futures_settle_once c c' f x :
  reached c → rtc (cstep options) c c' → futures c !! f = Some x →
  (f_state x ≠ FPending → futures c' !! f = Some x) ∧
  (∀ r, f_state x = FResult r → rs_correlation_id r = f_correlation x) ∧
  (∀ reply_to g r, (route_reply (cl_message_limits options) reply_to g r c).1 = Ok tt).
Proof.
  intros Hc Hr Hx. pose proof (reached_ok c Hc) as Hok. destruct Hc as (_ & Hm & _). split_and!.
  - intros Hs. destruct (run_ok c c' Hm Hok Hr) as [_ Hset]. destruct (Hset f x Hx) as (y & Hy & _ & _ & Hyx). by rewrite Hy, Hyx.
  - intros r. by eapply ok_results.
  - intros reply_to g r. by apply (route_reply_ok options c).
Qed.

(** C29: No request waits for a transport that is gone: when the reply transport is
    interrupted, ends or closes, and when the cluster is closed, every pending
    request concerned fails at once with an unknown outcome. *)
Theorem transport_loss_wakes c k f x e g og :
  reached c → _pending c !! k = Some f → futures c !! f = Some x →
  e = {| f_state := FFailed RpcOutcomeUnknownError; f_correlation := f_correlation x; f_generation := f_generation x |} →
  (_router_generation c = Some (f_generation x) → futures (status_quiescing g c) !! f = Some e) ∧
  futures (route_end (f_generation x) c) !! f = Some e ∧
  futures (status_closed og c) !! f = Some e ∧ futures (close_begin c) !! f = Some e.
Proof.
  intros Hc%reached_ok Hk Hx ->. assert (∀ c1 og, cluster_ok options c1 → _pending c1 = _pending c → futures c1 = futures c →
    (og = None ∨ og = Some (f_generation x)) → futures (_fail_pending RpcOutcomeUnknownError og c1) !! f =
      Some {| f_state := FFailed RpcOutcomeUnknownError; f_correlation := f_correlation x; f_generation := f_generation x |}) as Hwake.
  { intros c1 og1 Hc1 Hp Hf. apply (fail_pending_wakes c1 _ _ k); [done|by rewrite Hp|by rewrite Hf]. }
  destruct (generation_ok options c g Hc) as [Hg _]. split_and!.
  - intros Hrg. unfold status_quiescing. apply Hwake; [by apply router_ok|done..|]. right. exact Hrg.
  - unfold route_end. repeat case_match; simpl; apply Hwake; auto.
  - unfold status_closed. apply Hwake; [|by destruct og..|by left]. apply router_ok. destruct og; [by apply generation_ok|done].
  - unfold close_begin. simpl. rewrite fail_all_lookup, Hx. simpl. destruct (ok_pending _ _ Hc k f Hk) as (x' & Hx' & Hs & _).
    rewrite Hx in Hx'. injection Hx' as <-. rewrite (proj2 (unresolved_spec x) Hs), bool_decide_true; [done|].
    apply list_elem_of_fmap. exists (k, f). split; [done|]. by apply elem_of_map_to_list.
Qed.
End runs.

(** ** A small cluster *)

Definition two_of_each : ServiceClusterOptions :=
  {| default_rpc_timeout := 5; max_rpc_timeout := 30; max_pending_requests := 2; cl_message_limits := wide_limits;
     default_namespace := None; default_contract_version := None; max_cached_proxies := 2 |}.

Definition no_service (n : Z) : ServiceIdentity := {| namespace := str "shop"; svc_name := str "orders"; contract_version := n |}.

(** A call with the correlation id 18. *)
Definition calling : cluster := (register two_of_each (Some 18) 0 ServiceCluster_new).2.

Lemma calling_reached : @reached bit_json bit_text two_of_each calling.
Proof. split_and!; [simpl; lia..|]. apply rtc_once. apply StepRegister. Qed.

Definition waiting : future := {| f_state := FPending; f_correlation := 18; f_generation := 0 |}.

Lemma proxy_cache_lru_witness :
  (_proxies (ask two_of_each [no_service 1; no_service 2; no_service 1; no_service 3] ServiceCluster_new)).*1 =
  [no_service 1; no_service 3].
Proof.
  etrans; [apply (proxy_cache_lru two_of_each [no_service 1; no_service 2; no_service 1; no_service 3]); simpl; lia|].
  vm_compute. reflexivity.
Defined.

Lemma cluster_bounded_witness : Z.of_nat (size (_pending calling)) ≤ 2.
Proof. apply (@cluster_bounded bit_json bit_text two_of_each calling calling_reached). Defined.

(** The call is answered. *)
Definition reply_delivery : EncodedDelivery :=
  {| dl_message_id := rs_message_id sample_response; dl_routing_key := str "reply.0123456789abcdef0123456789abcdef";
     dl_body := match @encode_response bit_json bit_text wide_limits sample_response with Ok b => b | Err _ => [] end;
     dl_headers := WMap []; dl_received_at := evening; dl_attempt := 1; dl_redelivered := false;
     dl_correlation_id := Some 18; dl_reply_to := None; dl_native := None; dl_expires_at := None; dl_subscription := None |}.

Definition answered (c : cluster) : cluster :=
  (@route_reply bit_json bit_text wide_limits (str "reply.0123456789abcdef0123456789abcdef") 0 (RDelivery reply_delivery) c).2.

Lemma futures_settle_once_witness :
  (f_state waiting ≠ FPending → futures calling !! 0 = Some waiting) ∧
  (∀ r, f_state waiting = FResult r → rs_correlation_id r = 18) ∧
  (∀ reply_to g r, (@route_reply bit_json bit_text wide_limits reply_to g r calling).1 = Ok tt).
Proof.
  apply (@futures_settle_once bit_json bit_text two_of_each calling calling 0 waiting calling_reached); [apply rtc_refl|].
  vm_compute. reflexivity.
Defined.

Lemma transport_loss_wakes_witness :
  futures (close_begin calling) !! 0 =
  Some {| f_state := FFailed RpcOutcomeUnknownError; f_correlation := 18; f_generation := 0 |}.
Proof.
  apply (@transport_loss_wakes bit_json bit_text two_of_each calling 18 0 waiting _ 0 None calling_reached);
    [vm_compute; reflexivity..|reflexivity].
Defined.

(** The reply to a call that timed out answers the next call with the same
    correlation id: the first caller gets a timeout, the second may register the
    id again, and then the late reply of the first is the result of the second. *)
Theorem late_reply_answers_retry :
  let timed_out := request_wait 18 0 WTimeout calling in
  let retry := register two_of_each (Some 18) 0 timed_out.2 in
  timed_out.1 = Err RpcTimeoutError ∧ retry.1 = Ok (18, 1) ∧
  match (request_wait 18 1 WDone (answered retry.2)).1 with
  | Ok r => rs_message_id r = rs_message_id sample_response
  | Err _ => False
  end.
Proof. split_and!; vm_compute; reflexivity. Qed.

(** The envelope of a request is built without the limits of the cluster. *)
Example request_limits_ignored :
  let h := ee_headers sample_event in
  @freeze_headers bit_json h (Some wide_limits) = Ok h ∧
  @build_request bit_json bit_text two_of_each 1 shop (PyStr (str "get")) (PyInt 1) PyNone 18 morning 5
    (str "reply.0123456789abcdef0123456789abcdef") h WNone = Err WireValidationError.
Proof. split; vm_compute; reflexivity. Qed.
