(* ===== verification/HttpResponses.v ===== *)
(** * HTTP: responses and errors

    [response.py] and [errors.py] of [tori_py.http], [errors.py] and
    [pipeline.py] of [tori_py.asgi], and how [asgi/application.py] puts a response
    on the wire. An object that flows through a pipeline is an [hvalue]. *)

From Stdlib Require Import ZArith Lia DecimalN.
From Stdlib Require Import Strings.Byte.
From stdpp Require Import base tactics list gmap strings.
From S2P Require Import Prelude DiDeclarations.
Local Open Scope Z_scope.

(** ** Values *)

Record HttpResponse := {
  content : bytes;
  status_code : Z;
  headers : list (pystr * pystr)
}.

(** [VResult] is a [PipelineResult]; [VContext] and [VStream] are the context and
    the body stream of the request; [VFloat] and [VUuid] are a float and a UUID by
    the text they were read from; [VObject] is any other object. *)
Inductive hvalue :=
| VNone
| VStr (s : pystr)
| VInt (n : Z)
| VList (l : list hvalue)
| VDict (items : list (pystr * hvalue))
| VResponse (r : HttpResponse)
| VResult (v : hvalue) (is_response : bool)
| VContext
| VStream
| VFloat (text : pystr)
| VUuid (text : pystr)
| VObject (o : Z).

Record PipelineResult := { pr_value : hvalue; is_response : bool }.
Definition from_value (v : hvalue) : PipelineResult := {| pr_value := v; is_response := false |}.
Definition from_response (v : hvalue) : PipelineResult := {| pr_value := v; is_response := true |}.

(** The exceptions the code tells apart. [AppException] is any other [Exception],
    [NotAnException] a [BaseException] that is none. *)
Inductive http_error :=
| HttpException (status : Z) (detail title : pystr) (response_headers : list (pystr * pystr)) (errors : option hvalue)
| ClientDisconnect
| OSError
| PipelineStateError
| HTypeError
| HValueError
| HKeyError
| HRuntimeError
| HAttributeError
| CookieError
| AppException (id : Z)
| NotAnException (id : Z).

Definition is_exception (e : http_error) : bool := match e with NotAnException _ => false | _ => true end.

(** The Unicode tables and [msgspec.json.encode]. *)
Class HttpText := {
  casefold : pystr → pystr;
  json_encode : hvalue → result http_error bytes
}.

Definition ascii_lower_cp (c : Z) : Z := if (65 <=? c) && (c <=? 90) then c + 32 else c.
Definition is_ascii (s : pystr) : Prop := Forall (λ c, 0 ≤ c < 128) s.
Class HttpTextLaws `{HttpText} : Prop := {
  casefold_ascii s : is_ascii s → casefold s = ascii_lower_cp <$> s
}.

(** ** Errors *)

Definition status_title (code : Z) : pystr :=
  match code with
  | 400 => str "Bad Request"
  | 403 => str "Forbidden"
  | 404 => str "Not Found"
  | 405 => str "Method Not Allowed"
  | 413 => str "Payload Too Large"
  | 415 => str "Unsupported Media Type"
  | 500 => str "Internal Server Error"
  | 503 => str "Service Unavailable"
  | _ => str "HTTP Error"
  end.

(** [title or status_title(status_code)] *)
Definition title_or (title : option pystr) (code : Z) : pystr :=
  match title with Some (c :: t) => c :: t | _ => status_title code end.

Definition HttpException_new (code : Z) (detail : pystr) (title : option pystr) (hs : option (list (pystr * pystr)))
    (errors : option hvalue) : http_error :=
  HttpException code detail (title_or title code) (default [] hs) errors.

Definition http_exception (code : Z) (detail : string) : http_error := HttpException_new code (str detail) None None None.

(** ** Header validation *)

Definition _HEADER_NAME_CHARACTERS : pystr :=
  str "!#$%&'*+-.^_`|~0123456789abcdefghijklmnopqrstuvwxyzABCDEFGHIJKLMNOPQRSTUVWXYZ".
Definition token_char (c : Z) : bool := existsb (Z.eqb c) _HEADER_NAME_CHARACTERS.

Definition _TRANSPORT_HEADERS : list pystr := [str "content-length"; str "transfer-encoding"].

Fixpoint span {A} (p : A → bool) (l : list A) : list A * list A :=
  match l with
  | x :: l' => if p x then let '(a, b) := span p l' in (x :: a, b) else ([], l)
  | [] => ([], [])
  end.

Definition blank (c : Z) : bool := (c =? 32) || (c =? 9).

(** The rest of a quoted string after its opening quote: what follows the closing
    one. *)
Fixpoint quoted (s : pystr) : option pystr :=
  match s with
  | [] => None
  | 34 :: s => Some s
  | 92 :: 10 :: s => None
  | 92 :: _ :: s => quoted s
  | 92 :: [] => None
  | _ :: s => quoted s
  end.

(** The parameters of [_MEDIA_TYPE], each of which takes a character at least. *)
Fixpoint media_params (fuel : nat) (s : pystr) : bool :=
  match fuel, s with
  | _, [] => true
  | S fuel, _ =>
      match (span blank s).2 with
      | 59 :: s =>
          match span token_char (span blank s).2 with
          | (_ :: _, 61 :: 34 :: s) => match quoted s with Some s => media_params fuel s | None => false end
          | (_ :: _, 61 :: s) => match span token_char s with
                                 | (_ :: _, s) => media_params fuel s
                                 | _ => false
                                 end
          | _ => false
          end
      | _ => false
      end
  | O, _ => false
  end.

(** [_MEDIA_TYPE.fullmatch(value) is not None] *)
Definition media_type (s : pystr) : bool :=
  match span token_char s with
  | (_ :: _, 47 :: s) => match span token_char s with (_ :: _, s) => media_params (length s) s | _ => false end
  | _ => false
  end.

Definition first_blank (s : pystr) : bool := match head s with Some c => blank c | None => false end.
Definition last_blank (s : pystr) : bool := match last s with Some c => blank c | None => false end.

Section responses.
Context `{HttpText}.

Definition is_name (name : pystr) (s : string) : bool := bool_decide (casefold name = str s).

Definition _validate_header (name value : pyobj) : result http_error (pystr * pystr) :=
  name ← match name with
         | PyStr (c :: s) => if forallb token_char (c :: s) then Ok (c :: s) else Err HValueError
         | _ => Err HValueError
         end;
  value ← match value with PyStr v => Ok v | _ => Err HTypeError end;
  _ ← raise_if (first_blank value || last_blank value) HValueError;
  _ ← raise_if (existsb (λ c, (c =? 13) || (c =? 10)) value) HValueError;
  _ ← raise_if (existsb (λ c, (c <? 32) && negb (c =? 9) || (c =? 127)) value) HValueError;
  _ ← raise_if (negb (forallb (λ c, c <? 256) value)) HValueError;
  _ ← raise_if (is_name name "content-type" && negb (media_type value)) HValueError;
  Ok (name, value).

Definition transport_header (name : pystr) : bool := bool_decide (casefold name ∈ _TRANSPORT_HEADERS).

Definition ResponseHeaderMetadata_new (name value : pyobj) : result http_error (pystr * pystr) :=
  h ← _validate_header name value;
  _ ← raise_if (transport_header h.1) HValueError;
  Ok h.

(** The loop of [__post_init__]; [seen] is [normalized_names]. *)
Fixpoint check_headers (seen : list pystr) (items : list (pyobj * pyobj)) : result http_error (list (pystr * pystr)) :=
  match items with
  | [] => Ok []
  | (n, v) :: items =>
      h ← _validate_header n v;
      _ ← raise_if (bool_decide (casefold h.1 ∈ seen)) HValueError;
      _ ← raise_if (transport_header h.1) HValueError;
      rest ← check_headers (casefold h.1 :: seen) items;
      Ok (h :: rest)
  end.

(** [hs] is [None] for an object that is no mapping. *)
Definition HttpResponse_new (body status : pyobj) (hs : option (list (pyobj * pyobj))) : result http_error HttpResponse :=
  c ← match body with PyBytes b => Ok b | _ => Err HTypeError end;
  st ← match status with
       | PyInt n => if (200 <=? n) && (n <=? 599) then Ok n else Err HValueError
       | _ => Err HValueError
       end;
  _ ← raise_if (((st =? 204) || (st =? 304)) && negb (bool_decide (c = []))) HValueError;
  items ← match hs with Some items => Ok items | None => Err HTypeError end;
  h ← check_headers [] items;
  Ok {| content := c; status_code := st; headers := h |}.

Definition str_items (hs : list (pystr * pystr)) : list (pyobj * pyobj) := (λ h, (PyStr h.1, PyStr h.2)) <$> hs.

(** ** Problem documents *)

Definition problem_body (code : Z) (detail : pystr) (path : option pystr) (title : option pystr) (errors : option hvalue)
    : hvalue :=
  VDict ([(str "type", VStr (str "about:blank")); (str "title", VStr (title_or title code));
          (str "status", VInt code); (str "detail", VStr detail)] ++
         match path with Some p => [(str "instance", VStr p)] | None => [] end ++
         match errors with Some e => [(str "errors", e)] | None => [] end).

Definition problem_response (code : Z) (detail : pystr) (path : option pystr) (title : option pystr)
    (hs : list (pystr * pystr)) (errors : option hvalue) : result http_error HttpResponse :=
  let kept := filter (λ h, negb (is_name h.1 "content-type" || is_name h.1 "x-request-id") = true) hs in
  body ← json_encode (problem_body code detail path title errors);
  HttpResponse_new (PyBytes body) (PyInt code)
    (Some (str_items (dict_set kept (str "content-type") (str "application/problem+json")))).

(** ** Handler results *)

Definition _encode_pipeline_result (r : PipelineResult) (code : Z) (response_headers : list (pystr * pystr))
    : result http_error HttpResponse :=
  match pr_value r with
  | VResponse resp => Ok resp
  | v =>
      _ ← raise_if (is_response r) (http_exception 500 "Pipeline response is not an HTTP response.");
      body ← match json_encode v with
             | Ok b => Ok b
             | Err HTypeError | Err HValueError => Err (http_exception 500 "Handler result could not be encoded as JSON.")
             | Err e => Err e
             end;
      let hs := foldl (λ d h, dict_set d h.1 h.2) []
                  (filter (λ h, is_name h.1 "x-request-id" = false) response_headers) in
      HttpResponse_new (PyBytes body) (PyInt code)
        (Some (str_items (dict_set hs (str "content-type") (str "application/json"))))
  end.
End responses.

(** ** On the wire *)

Definition byte_of_cp (limit c : Z) : result http_error byte :=
  if (0 <=? c) && (c <? limit) then
    match Byte.of_N (Z.to_N c) with Some b => Ok b | None => Err HValueError end
  else Err HValueError.

Definition encode_ascii (s : pystr) : result http_error bytes := rmap (byte_of_cp 128) s.
Definition encode_latin1 (s : pystr) : result http_error bytes := rmap (byte_of_cp 256) s.
Definition decode_latin1 (b : bytes) : pystr := (λ x, Z.of_N (Byte.to_N x)) <$> b.

(** [bytes.lower] *)
Definition bytes_lower (b : bytes) : pystr := ascii_lower_cp <$> decode_latin1 b.

(** [str(n)] for [0 <= n] *)
Fixpoint uint_str (u : Decimal.uint) : pystr :=
  match u with
  | Decimal.Nil => []
  | Decimal.D0 u => 48 :: uint_str u
  | Decimal.D1 u => 49 :: uint_str u
  | Decimal.D2 u => 50 :: uint_str u
  | Decimal.D3 u => 51 :: uint_str u
  | Decimal.D4 u => 52 :: uint_str u
  | Decimal.D5 u => 53 :: uint_str u
  | Decimal.D6 u => 54 :: uint_str u
  | Decimal.D7 u => 55 :: uint_str u
  | Decimal.D8 u => 56 :: uint_str u
  | Decimal.D9 u => 57 :: uint_str u
  end.
Definition decimal (n : nat) : pystr := uint_str (N.to_uint (N.of_nat n)).

Inductive asgi_send :=
| ResponseStart (status : Z) (hs : list (bytes * bytes))
| ResponseBody (body : bytes).

Section wire.
Context `{HttpText}.

Definition encode_header (h : pystr * pystr) : result http_error (bytes * bytes) :=
  n ← encode_ascii h.1; v ← encode_latin1 h.2; Ok (n, v).

(** The messages [_send_response] sends. *)
Definition _send_response (response : HttpResponse) (request_id : pystr) (omit_body : bool)
    : result http_error (list asgi_send) :=
  hs ← rmap encode_header (filter (λ h, is_name h.1 "x-request-id" = false) (headers response));
  len ← if (status_code response =? 204) || (status_code response =? 304) then Ok []
        else n ← encode_ascii (str "content-length"); v ← encode_ascii (decimal (length (content response))); Ok [(n, v)];
  n ← encode_ascii (str "x-request-id");
  v ← encode_ascii request_id;
  Ok [ResponseStart (status_code response) (hs ++ len ++ [(n, v)]);
      ResponseBody (if omit_body then [] else content response)].
End wire.

Definition id_char (c : Z) : bool :=
  (65 <=? c) && (c <=? 90) || (97 <=? c) && (c <=? 122) || (48 <=? c) && (c <=? 57) ||
  (c =? 46) || (c =? 95) || (c =? 45).

(** [fresh] is the text of the new UUID. *)
Definition request_id_from_scope (scope_headers : list (bytes * bytes)) (fresh : pystr) : pystr :=
  match filter (λ h, bytes_lower h.1 = str "x-request-id") scope_headers with
  | [h] =>
      let candidate := decode_latin1 h.2 in
      if forallb id_char candidate && (1 <=? zlen candidate) && (zlen candidate <=? 128) then candidate else fresh
  | _ => fresh
  end.

(** ** The native ASGI adapter *)

Record HttpContext := {
  hc_path : pystr;
  hc_method : pystr;
  hc_module_identity : ModuleId;
  hc_application : pystr;
  hc_route : option pystr;
  hc_request_id : pystr
}.

(** What the pipeline asks of a transport whose responses are [R]. *)
Class HttpPipelineAdapter (R : Type) := {
  is_abort_exception : http_error → bool;
  normalize_result : hvalue → result http_error PipelineResult;
  native_response_result : hvalue → result http_error (option PipelineResult);
  render_exception : http_error → HttpContext → result http_error PipelineResult;
  render_emergency : HttpContext → result http_error R
}.

Section asgi.
Context `{HttpText}.

Definition asgi_abort (e : http_error) : bool := match e with ClientDisconnect | OSError => true | _ => false end.

Definition asgi_normalize (v : hvalue) : result http_error PipelineResult :=
  match v with
  | VResult v r => Ok {| pr_value := v; is_response := r |}
  | VResponse _ => Ok (from_response v)
  | _ => Ok (from_value v)
  end.

Definition asgi_native (v : hvalue) : result http_error (option PipelineResult) :=
  Ok (match v with VResponse _ => Some (from_response v) | _ => None end).

Definition asgi_render (e : http_error) (ctx : HttpContext) : result http_error PipelineResult :=
  r ← match e with
      | HttpException st detail title hs errors => problem_response st detail (Some (hc_path ctx)) (Some title) hs errors
      | _ => problem_response 500 (str "Internal server error.") (Some (hc_path ctx)) None [] None
      end;
  Ok (from_response (VResponse r)).

Definition asgi_emergency (ctx : HttpContext) : result http_error HttpResponse :=
  problem_response 500 (str "Internal server error.") (Some (hc_path ctx)) None [] None.

#[export] Instance AsgiPipelineAdapter : HttpPipelineAdapter HttpResponse := {
  is_abort_exception := asgi_abort;
  normalize_result := asgi_normalize;
  native_response_result := asgi_native;
  render_exception := asgi_render;
  render_emergency := asgi_emergency
}.
End asgi.
