(* ===== verification/HttpPipeline.v ===== *)
(** * HTTP: the pipeline of a request

    [pipeline.py] of [tori_py.http], with the plans of [routes.py] it runs and
    [core/pipeline.py]'s bindings. The application, with the scope that resolves
    its objects, is the class [HttpApplication] over a state of its own; the
    transport is the class [HttpPipelineAdapter]. Objects are identities. *)

From Stdlib Require Import ZArith Lia.
From stdpp Require Import base tactics list gmap strings.
From S2P Require Import Prelude Pipeline DiDeclarations DiCompiler HttpResponses.
Local Open Scope Z_scope.

(** ** Plans *)

(** A binding is a token, an exact reference once it is qualified, or an object. *)
Inductive hbinding := HToken (t : Token) | HRef (r : ProviderRef) | HObject (o : Z).

Record PipelineBindings := {
  pb_middleware : list hbinding;
  pb_guards : list hbinding;
  pb_pipes : list hbinding;
  pb_interceptors : list hbinding;
  pb_filters : list hbinding
}.

Inductive binding_kind := HBody | HBodyStream | HPath | HQuery | HHeader | HCookie | HContext | HInject | HCustom.
#[export] Instance binding_kind_eq_dec : EqDecision binding_kind.
Proof. solve_decision. Defined.

Record ParameterPlan := {
  p_name : pystr;
  p_annotation : Z;
  p_kind : binding_kind;
  p_source : option pystr;
  p_token : option Token;
  p_default : hvalue;
  p_has_default : bool;
  p_max_bytes : option Z;
  p_provider_ref : option ProviderRef;
  p_resolver : option Z
}.

Record RoutePlan := {
  r_module_id : ModuleId;
  r_controller : Z;
  r_method_name : pystr;
  r_handler : Z;
  r_method : pystr;
  r_path : pystr;
  r_route_id : pystr;
  r_status_code : Z;
  r_parameters : list ParameterPlan;
  r_controller_pipeline : PipelineBindings;
  r_route_pipeline : PipelineBindings;
  r_return_annotation : Z;
  r_response_headers : list (pystr * pystr);
  r_rejects_body : bool;
  r_has_execution_pipeline : bool;
  r_handler_is_async : bool
}.

Record ArgumentMetadata := {
  a_parameter_name : pystr;
  a_binding_kind : binding_kind;
  a_source_name : option pystr;
  a_annotation : Z;
  a_route_id : pystr;
  a_module_id : ModuleId
}.

(** What calling a handler gives: a value, or an awaitable. *)
Inductive called (S : Type) :=
| CValue (v : hvalue)
| CAwaitable (m : M S http_error hvalue).
Arguments CValue {S} v.
Arguments CAwaitable {S} m.

(** [token_object] is a token as an object: a string or a class. *)
Class HttpApplication (S : Type) := {
  scope_resolve_ref : ProviderRef → M S http_error Z;
  token_object : Token → Z;
  handle : Z → HttpContext → icode S http_error PipelineResult hvalue;
  can_activate : Z → HttpContext → M S http_error bool;
  transform : Z → hvalue → ArgumentMetadata → M S http_error hvalue;
  intercept : Z → HttpContext → icode S http_error PipelineResult hvalue;
  catch : Z → http_error → HttpContext → M S http_error hvalue;
  call_handler : Z → list (pystr * hvalue) → M S http_error (called S)
}.

(** ** Qualification *)

(** The failure is [BootstrapError] with code [provider.unresolved]. *)
Fixpoint _qualify_bindings_for_kind (g : CompiledGraph) (bindings : list hbinding) (m : ModuleId)
    : result di_error (list hbinding) :=
  match bindings with
  | [] => Ok []
  | b :: bindings =>
      b ← match b with
          | HToken t => match visibility g !! (m, t) with Some r => Ok (HRef r) | None => Err ProviderUnresolved end
          | _ => Ok b
          end;
      bs ← _qualify_bindings_for_kind g bindings m;
      Ok (b :: bs)
  end.

Definition _qualify_pipeline (g : CompiledGraph) (p : PipelineBindings) (m : ModuleId) : result di_error PipelineBindings :=
  mw ← _qualify_bindings_for_kind g (pb_middleware p) m;
  gs ← _qualify_bindings_for_kind g (pb_guards p) m;
  ps ← _qualify_bindings_for_kind g (pb_pipes p) m;
  ics ← _qualify_bindings_for_kind g (pb_interceptors p) m;
  fs ← _qualify_bindings_for_kind g (pb_filters p) m;
  Ok {| pb_middleware := mw; pb_guards := gs; pb_pipes := ps; pb_interceptors := ics; pb_filters := fs |}.

Definition has_stages (p : PipelineBindings) : bool :=
  match pb_middleware p, pb_guards p, pb_pipes p, pb_interceptors p with
  | [], [], [], [] => false
  | _, _, _, _ => true
  end.

Definition _has_execution_pipeline (groups : list PipelineBindings) : bool := existsb has_stages groups.

Definition with_pipelines (p : RoutePlan) (c r : PipelineBindings) (has : bool) : RoutePlan :=
  {| r_module_id := r_module_id p; r_controller := r_controller p; r_method_name := r_method_name p;
     r_handler := r_handler p; r_method := r_method p; r_path := r_path p; r_route_id := r_route_id p;
     r_status_code := r_status_code p; r_parameters := r_parameters p; r_controller_pipeline := c;
     r_route_pipeline := r; r_return_annotation := r_return_annotation p; r_response_headers := r_response_headers p;
     r_rejects_body := r_rejects_body p; r_has_execution_pipeline := has; r_handler_is_async := r_handler_is_async p |}.

Definition qualify_plan (g : CompiledGraph) (global : PipelineBindings) (p : RoutePlan) : result di_error RoutePlan :=
  c ← _qualify_pipeline g (r_controller_pipeline p) (r_module_id p);
  r ← _qualify_pipeline g (r_route_pipeline p) (r_module_id p);
  Ok (with_pipelines p c r (_has_execution_pipeline [global; c; r])).

(** The executor's global pipeline and the qualified plans. *)
Definition qualify (g : CompiledGraph) (global_tokens : PipelineBindings) (plans : list RoutePlan)
    : result di_error (PipelineBindings * list RoutePlan) :=
  global ← _qualify_pipeline g global_tokens (shape_root (shape g));
  plans ← rmap (qualify_plan g global) plans;
  Ok (global, plans).

(** ** Execution *)

Section executor.
Context {S R : Type} `{HttpApplication S} `{HttpPipelineAdapter R}.
Context (global : PipelineBindings).

(** [except BaseException as error], re-raising what is not for the handler. *)
Definition contain {A} (h : http_error → M S http_error A) (e : http_error) : M S http_error A :=
  if is_abort_exception e then raise e
  else if negb (is_exception e) then raise e
  else h e.

(** [try: m ... except: h] where the code after it, [k], runs only if [m] did not
    raise. *)
Definition try_else {A B} (m : M S http_error A) (h : http_error → M S http_error B) (k : A → M S http_error B)
    : M S http_error B :=
  λ s, match m s with (Ok a, s1) => k a s1 | (Err e, s1) => h e s1 end.

Definition resolve_one (b : hbinding) : M S http_error Z :=
  match b with HRef r => scope_resolve_ref r | HObject o => mret o | HToken t => mret (token_object t) end.

Definition _resolve_pipeline (bs : list hbinding) : M S http_error (list Z) := mapM resolve_one bs.

(** The instances of a kind: global, controller, route. *)
Definition resolve_kind (kind : PipelineBindings → list hbinding) (plan : RoutePlan) : M S http_error (list Z) :=
  a ← _resolve_pipeline (kind global);
  b ← _resolve_pipeline (kind (r_controller_pipeline plan));
  c ← _resolve_pipeline (kind (r_route_pipeline plan));
  mret (a ++ b ++ c).

Fixpoint check_guards (ctx : HttpContext) (guards : list Z) : M S http_error unit :=
  match guards with
  | [] => mret tt
  | guard :: guards =>
      ok ← can_activate guard ctx;
      throw_if (negb ok) (http_exception 403 "Forbidden.");;
      check_guards ctx guards
  end.

Definition _run_guards (plan : RoutePlan) (ctx : HttpContext) : M S http_error unit :=
  guards ← resolve_kind pb_guards plan;
  check_guards ctx guards.

(** [arguments[name] = await pipe.transform(arguments[name], metadata)] for every
    pipe. *)
Fixpoint pipe_value (md : ArgumentMetadata) (pipes : list Z) (arguments : list (pystr * hvalue))
    : M S http_error (list (pystr * hvalue)) :=
  match pipes with
  | [] => mret arguments
  | pipe :: pipes =>
      match dict_get arguments (a_parameter_name md) with
      | None => raise HKeyError
      | Some v =>
          v ← transform pipe v md;
          pipe_value md pipes (dict_set arguments (a_parameter_name md) v)
      end
  end.

Definition metadata_of (plan : RoutePlan) (p : ParameterPlan) : ArgumentMetadata :=
  {| a_parameter_name := p_name p; a_binding_kind := p_kind p; a_source_name := p_source p;
     a_annotation := p_annotation p; a_route_id := r_route_id plan; a_module_id := r_module_id plan |}.

Fixpoint pipe_parameters (plan : RoutePlan) (pipes : list Z) (ps : list ParameterPlan) (arguments : list (pystr * hvalue))
    : M S http_error (list (pystr * hvalue)) :=
  match ps with
  | [] => mret arguments
  | p :: ps =>
      arguments ← match p_kind p with
                  | HContext | HInject => mret arguments
                  | _ => pipe_value (metadata_of plan p) pipes arguments
                  end;
      pipe_parameters plan pipes ps arguments
  end.

Definition _run_pipes (plan : RoutePlan) (arguments : list (pystr * hvalue)) : M S http_error (list (pystr * hvalue)) :=
  pipes ← resolve_kind pb_pipes plan;
  pipe_parameters plan pipes (r_parameters plan) arguments.

Definition _handler_result (plan : RoutePlan) (arguments : list (pystr * hvalue)) : M S http_error PipelineResult :=
  c ← call_handler (r_handler plan) arguments;
  v ← match c with
      | CAwaitable m => m
      | CValue v => if r_handler_is_async plan then raise HTypeError else mret v
      end;
  mret (from_value v).

Definition _run_interceptors (plan : RoutePlan) (ctx : HttpContext) (terminal : M S http_error PipelineResult)
    : M S http_error PipelineResult :=
  interceptors ← resolve_kind pb_interceptors plan;
  dispatch PipelineStateError (λ o, mret (intercept o ctx)) normalize_result interceptors terminal.

(** [terminal] of [_run_middleware] *)
Definition run_terminal (plan : RoutePlan) (ctx : HttpContext) (bind_arguments : M S http_error (list (pystr * hvalue)))
    : M S http_error PipelineResult :=
  _run_guards plan ctx;;
  arguments ← bind_arguments;
  arguments ← _run_pipes plan arguments;
  _run_interceptors plan ctx (_handler_result plan arguments).

Definition _run_middleware (plan : RoutePlan) (ctx : HttpContext) (bind_arguments : M S http_error (list (pystr * hvalue)))
    : M S http_error PipelineResult :=
  middleware ← resolve_kind pb_middleware plan;
  dispatch PipelineStateError (λ o, mret (handle o ctx)) normalize_result middleware (run_terminal plan ctx bind_arguments).

Definition _run_handler (plan : RoutePlan) (bind_arguments : M S http_error (list (pystr * hvalue)))
    : M S http_error PipelineResult :=
  arguments ← bind_arguments;
  _handler_result plan arguments.

(** ** Failures *)

(** What one filter answers; [None] sends the error on to the next. *)
Definition ask_filter (e : http_error) (ctx : HttpContext) (b : hbinding) : M S http_error (option PipelineResult) :=
  try_else (resolve_one b) (contain (λ _, mret None)) (λ f,
    try_except
      (v ← catch f e ctx;
       match v with
       | VResult v r => mret (Some {| pr_value := v; is_response := r |})
       | _ => native ← lift (native_response_result v);
              match native with Some r => mret (Some r) | None => raise HTypeError end
       end)
      (contain (λ _, mret None))).

Fixpoint ask_filters (e : http_error) (ctx : HttpContext) (bs : list hbinding) : M S http_error PipelineResult :=
  match bs with
  | [] => lift (render_exception e ctx)
  | b :: bs =>
      r ← ask_filter e ctx b;
      match r with Some r => mret r | None => ask_filters e ctx bs end
  end.

Definition filters_of (plan : option RoutePlan) : list hbinding :=
  match plan with
  | Some p => pb_filters (r_route_pipeline p) ++ pb_filters (r_controller_pipeline p)
  | None => []
  end ++ pb_filters global.

Definition _handle_exception (e : http_error) (plan : option RoutePlan) (ctx : HttpContext) : M S http_error PipelineResult :=
  if is_abort_exception e then raise e else ask_filters e ctx (filters_of plan).

Definition _render_emergency (ctx : HttpContext) : M S http_error R := lift (render_emergency ctx).

Definition _render_exception (plan : option RoutePlan) (ctx : HttpContext) (encode_result : PipelineResult → M S http_error R)
    (e : http_error) : M S http_error R :=
  try_except
    (r ← _handle_exception e plan ctx; encode_result r)
    (contain (λ _, _render_emergency ctx)).

Definition run (plan : RoutePlan) (ctx : HttpContext) (bind_arguments : M S http_error (list (pystr * hvalue)))
    (encode_result : PipelineResult → M S http_error R) (validate_result : M S http_error unit) : M S http_error R :=
  try_else
    (r ← (if r_has_execution_pipeline plan then _run_middleware plan ctx bind_arguments else _run_handler plan bind_arguments);
     validate_result;;
     mret r)
    (contain (_render_exception (Some plan) ctx encode_result))
    (λ r, try_except (encode_result r) (contain (_render_exception (Some plan) ctx encode_result))).

Definition handle_routing_error (e : http_error) (ctx : HttpContext) (encode_result : PipelineResult → M S http_error R)
    : M S http_error R :=
  if is_abort_exception e then raise e else _render_exception None ctx encode_result e.
End executor.
