(* ===== verification/HttpRoutes.v ===== *)
(** * HTTP: compiling the routes of controllers

    [routes.py] of [tori_py.http]. What Python says about controllers, handlers and
    their annotations is the class [RouteReflection]; controllers, functions and
    annotations are identities. *)

From Stdlib Require Import ZArith Lia.
From stdpp Require Import base tactics list gmap strings.
From S2P Require Import Prelude DiDeclarations DiCompiler HttpResponses HttpPipeline.
Local Open Scope Z_scope.

(** [BootstrapError] by its diagnostic code, [KeyError], and what resolving a
    controller raises. *)
Inductive route_error :=
| RControllerInvalidDeclaration
| RControllerInvalidSignature
| RouteDuplicate (method path : pystr)
| RouteInvalidBinding
| RouteInvalidSignature
| RProviderUnresolved
| RKeyError
| RResolution (id : Z).

Inductive marker :=
| MBody
| MBodyStream (max_bytes : Z)
| MPath (name : pystr)
| MQuery (name : pystr)
| MHeader (name : pystr)
| MCookie (name : pystr)
| MContext
| MInject (token : Token)
| MResolver (o : Z)
| MOther.

(** An annotation: [Annotated[base, *args]] when [ann_args] is not [None]. *)
Record annotation := { ann_base : Z; ann_args : option (list marker) }.

Record sig_parameter := {
  sp_name : pystr;
  sp_variadic : bool;
  sp_annotation : annotation;
  sp_default : option hvalue
}.

(** [signature] is [None] when the annotations cannot be inspected; the result
    holds the parameters and the return annotation. *)
Class RouteReflection := {
  controller_metadata : Z → option pystr;
  controller_dict : Z → list (pystr * Z);
  route_metadata : Z → option (pystr * pystr);
  status_metadata : Z → option Z;
  no_body_metadata : Z → bool;
  pipeline_metadata : Z → PipelineBindings;
  response_header_metadata : Z → list (pystr * pystr);
  signature : Z → option (list sig_parameter * Z);
  is_http_context : Z → bool;
  is_body_stream : Z → bool
}.

Definition _is_marker (m : marker) : bool := match m with MOther => false | _ => true end.

Definition _annotation_markers (a : annotation) : Z * list marker :=
  match ann_args a with
  | None => (ann_base a, [])
  | Some args => (ann_base a, if forallb _is_marker args then args else [])
  end.

Record marker_details := {
  md_kind : binding_kind;
  md_source : option pystr;
  md_token : option Token;
  md_max_bytes : option Z;
  md_resolver : option Z
}.

Definition sourced (k : binding_kind) (name : pystr) : marker_details :=
  {| md_kind := k; md_source := Some name; md_token := None; md_max_bytes := None; md_resolver := None |}.
Definition plain (k : binding_kind) : marker_details :=
  {| md_kind := k; md_source := None; md_token := None; md_max_bytes := None; md_resolver := None |}.

Definition _marker_details (m : marker) : result route_error marker_details :=
  match m with
  | MBody => Ok (plain HBody)
  | MBodyStream n => Ok {| md_kind := HBodyStream; md_source := None; md_token := None; md_max_bytes := Some n; md_resolver := None |}
  | MPath n => Ok (sourced HPath n)
  | MQuery n => Ok (sourced HQuery n)
  | MHeader n => Ok (sourced HHeader n)
  | MCookie n => Ok (sourced HCookie n)
  | MContext => Ok (plain HContext)
  | MInject t => Ok {| md_kind := HInject; md_source := None; md_token := Some t; md_max_bytes := None; md_resolver := None |}
  | MResolver o => Ok {| md_kind := HCustom; md_source := None; md_token := None; md_max_bytes := None; md_resolver := Some o |}
  | MOther => Err RouteInvalidBinding
  end.

Definition is_body (k : binding_kind) : bool := match k with HBody | HBodyStream => true | _ => false end.
Definition needs_source (k : binding_kind) : bool :=
  match k with HPath | HQuery | HHeader | HCookie => true | _ => false end.

Definition ends_with_slash (s : pystr) : bool := bool_decide (last s = Some 47).
Definition starts_with_slash (s : pystr) : bool := bool_decide (head s = Some 47).

(** [joined] of [_join_paths] *)
Definition join_raw (prefix path : pystr) : pystr :=
  if bool_decide (prefix = []) then path
  else if bool_decide (path = []) then prefix
  else if ends_with_slash prefix && starts_with_slash path then prefix ++ drop 1 path
  else if negb (ends_with_slash prefix) && negb (starts_with_slash path) then prefix ++ [47] ++ path
  else prefix ++ path.

Definition _join_paths (prefix path : pystr) : pystr :=
  if bool_decide (prefix = []) && bool_decide (path = []) then str "/"
  else
    let joined := join_raw prefix path in
    if starts_with_slash joined then joined else 47 :: joined.

Definition identities (method path : pystr) : list (pystr * pystr) :=
  if bool_decide (method = str "GET") then [(method, path); (str "HEAD", path)] else [(method, path)].

Definition _reserve_route (method path : pystr) (reserved : list (pystr * pystr)) : result route_error (list (pystr * pystr)) :=
  let ids := identities method path in
  _ ← raise_if (existsb (λ i, bool_decide (i ∈ reserved)) ids) (RouteDuplicate method path);
  Ok (ids ++ reserved).

Section routes.
Context `{RouteReflection}.

Definition compile_parameter (p : sig_parameter) : result route_error ParameterPlan :=
  _ ← raise_if (sp_variadic p) RouteInvalidBinding;
  let '(base, markers) := _annotation_markers (sp_annotation p) in
  m ← match markers with [m] => Ok m | _ => Err RouteInvalidBinding end;
  d ← _marker_details m;
  _ ← raise_if (needs_source (md_kind d) && bool_decide (md_source d = None)) RouteInvalidBinding;
  _ ← raise_if (bool_decide (md_kind d = HContext) && negb (is_http_context base)) RouteInvalidBinding;
  _ ← raise_if (bool_decide (md_kind d = HBodyStream) && negb (is_body_stream base)) RouteInvalidBinding;
  Ok {| p_name := sp_name p; p_annotation := base; p_kind := md_kind d; p_source := md_source d; p_token := md_token d;
        p_default := default VNone (sp_default p); p_has_default := bool_decide (is_Some (sp_default p));
        p_max_bytes := md_max_bytes d; p_provider_ref := None; p_resolver := md_resolver d |}.

(** [self] is skipped. *)
Definition _compile_signature (handler : Z) : result route_error (list ParameterPlan * Z) :=
  sig ← match signature handler with Some s => Ok s | None => Err RControllerInvalidSignature end;
  ps ← rmap compile_parameter (filter (λ p, sp_name p ≠ str "self") sig.1);
  _ ← raise_if (1 <? zlen (filter (λ p, is_body (p_kind p) = true) ps)) RouteInvalidBinding;
  Ok (ps, sig.2).

(** One entry of the controller's [__dict__]: its plan, if it is a route. *)
Definition compile_entry (module_id : ModuleId) (controller : Z) (prefix : pystr) (reserved : list (pystr * pystr))
    (entry : pystr * Z) : result route_error (option RoutePlan * list (pystr * pystr)) :=
  match route_metadata entry.2 with
  | None => Ok (None, reserved)
  | Some (method, p) =>
      let path := _join_paths prefix p in
      reserved ← _reserve_route method path reserved;
      sig ← _compile_signature entry.2;
      let rejects := no_body_metadata entry.2 in
      _ ← raise_if (rejects && existsb (λ q, is_body (p_kind q)) sig.1) RouteInvalidBinding;
      Ok (Some {| r_module_id := module_id; r_controller := controller; r_method_name := entry.1; r_handler := entry.2;
                  r_method := method; r_path := path; r_route_id := method ++ [32] ++ path;
                  r_status_code := default 200 (status_metadata entry.2); r_parameters := sig.1;
                  r_controller_pipeline := pipeline_metadata controller; r_route_pipeline := pipeline_metadata entry.2;
                  r_return_annotation := sig.2; r_response_headers := response_header_metadata entry.2;
                  r_rejects_body := rejects; r_has_execution_pipeline := false; r_handler_is_async := false |}, reserved)
  end.

Fixpoint compile_entries (module_id : ModuleId) (controller : Z) (prefix : pystr) (reserved : list (pystr * pystr))
    (entries : list (pystr * Z)) : result route_error (list RoutePlan) :=
  match entries with
  | [] => Ok []
  | e :: entries =>
      r ← compile_entry module_id controller prefix reserved e;
      ps ← compile_entries module_id controller prefix r.2 entries;
      Ok (match r.1 with Some p => p :: ps | None => ps end)
  end.

Definition compile_controller_routes (module_id : ModuleId) (controller : Z) : result route_error (list RoutePlan) :=
  match controller_metadata controller with
  | None => Err RControllerInvalidDeclaration
  | Some prefix => compile_entries module_id controller prefix [] (controller_dict controller)
  end.

Definition with_provider (p : ParameterPlan) (r : ProviderRef) : ParameterPlan :=
  {| p_name := p_name p; p_annotation := p_annotation p; p_kind := p_kind p; p_source := p_source p; p_token := p_token p;
     p_default := p_default p; p_has_default := p_has_default p; p_max_bytes := p_max_bytes p;
     p_provider_ref := Some r; p_resolver := p_resolver p |}.

Definition with_parameters (p : RoutePlan) (ps : list ParameterPlan) : RoutePlan :=
  {| r_module_id := r_module_id p; r_controller := r_controller p; r_method_name := r_method_name p;
     r_handler := r_handler p; r_method := r_method p; r_path := r_path p; r_route_id := r_route_id p;
     r_status_code := r_status_code p; r_parameters := ps; r_controller_pipeline := r_controller_pipeline p;
     r_route_pipeline := r_route_pipeline p; r_return_annotation := r_return_annotation p;
     r_response_headers := r_response_headers p; r_rejects_body := r_rejects_body p;
     r_has_execution_pipeline := r_has_execution_pipeline p; r_handler_is_async := r_handler_is_async p |}.

(** [visibility.get] of a key whose token is [None] finds nothing. *)
Definition qualify_injection (g : CompiledGraph) (m : ModuleId) (p : ParameterPlan) : result route_error ParameterPlan :=
  if negb (bool_decide (p_kind p = HInject)) then Ok p
  else
    match (t ← p_token p; visibility g !! (m, t)) with
    | None => Err RProviderUnresolved
    | Some visible =>
        match dict_get (providers g) visible with
        | None => Err RKeyError
        | Some plan => Ok (with_provider p (pp_canonical plan))
        end
    end.

Definition _qualify_route_injections (g : CompiledGraph) (plan : RoutePlan) : result route_error RoutePlan :=
  ps ← rmap (qualify_injection g (r_module_id plan)) (r_parameters plan);
  Ok (with_parameters plan ps).

(** The inner loop of [compile_routes]. *)
Fixpoint reserve_plans (g : CompiledGraph) (reserved : list (pystr * pystr)) (plans : list RoutePlan)
    : result route_error (list RoutePlan * list (pystr * pystr)) :=
  match plans with
  | [] => Ok ([], reserved)
  | p :: plans =>
      reserved ← _reserve_route (r_method p) (r_path p) reserved;
      q ← _qualify_route_injections g p;
      rest ← reserve_plans g reserved plans;
      Ok (q :: rest.1, rest.2)
  end.

Fixpoint compile_controllers (g : CompiledGraph) (reserved : list (pystr * pystr)) (cs : list (ModuleId * Z))
    : result route_error (list RoutePlan) :=
  match cs with
  | [] => Ok []
  | (m, c) :: cs =>
      plans ← compile_controller_routes m c;
      r ← reserve_plans g reserved plans;
      rest ← compile_controllers g r.2 cs;
      Ok (r.1 ++ rest)
  end.

Definition compile_routes (g : CompiledGraph) : result route_error (list RoutePlan) :=
  compile_controllers g []
    (mp ← shape_modules (shape g); (λ c, (mp_module_id mp, c)) <$> spec_controllers (mp_spec mp)).
End routes.

(** ** Binding *)

(** [resolve_controller] resolves a controller in its module, [method_of] is the
    bound method of the object with whether it is a coroutine function. *)
Definition with_handler (p : RoutePlan) (h : Z) (is_async : bool) : RoutePlan :=
  {| r_module_id := r_module_id p; r_controller := r_controller p; r_method_name := r_method_name p;
     r_handler := h; r_method := r_method p; r_path := r_path p; r_route_id := r_route_id p;
     r_status_code := r_status_code p; r_parameters := r_parameters p; r_controller_pipeline := r_controller_pipeline p;
     r_route_pipeline := r_route_pipeline p; r_return_annotation := r_return_annotation p;
     r_response_headers := r_response_headers p; r_rejects_body := r_rejects_body p;
     r_has_execution_pipeline := r_has_execution_pipeline p; r_handler_is_async := is_async |}.

Fixpoint bind_routes {S} (resolve_controller : ModuleId → Z → M S route_error Z) (method_of : Z → pystr → option (Z * bool))
    (plans : list RoutePlan) : M S route_error (list RoutePlan) :=
  match plans with
  | [] => mret []
  | p :: plans =>
      c ← resolve_controller (r_module_id p) (r_controller p);
      h ← match method_of c (r_method_name p) with
          | None => raise RControllerInvalidSignature
          | Some h => mret h
          end;
      rest ← bind_routes resolve_controller method_of plans;
      mret (with_handler p h.1 h.2 :: rest)
  end.
