(* ===== verification/AsgiRouter.v ===== *)
(** * ASGI: the router

    [_compile_route], [_CompiledRoute] and [AsgiRouter] of [asgi/routes.py]. A path
    template is parsed into pieces; matching a path against them tries the same
    splits, in the same order, as the regular expression the code builds: each
    group is greedy, so longer values come first. *)

From Stdlib Require Import ZArith Lia.
From stdpp Require Import base tactics list gmap strings.
From S2P Require Import Prelude DiDeclarations DiCompiler HttpResponses HttpPipeline HttpRoutes.
Local Open Scope Z_scope.

(** ** Templates *)

Inductive converter := CStr | CPath | CInt | CFloat | CUuid.
#[export] Instance converter_eq_dec : EqDecision converter.
Proof. solve_decision. Defined.

Inductive piece := PLit (s : pystr) | PParam (name : pystr) (c : converter).

Definition ident_start (c : Z) : bool := (65 <=? c) && (c <=? 90) || (97 <=? c) && (c <=? 122) || (c =? 95).
Definition digit (c : Z) : bool := (48 <=? c) && (c <=? 57).
Definition ident_char (c : Z) : bool := ident_start c || digit c.

Definition ident (s : pystr) : option (pystr * pystr) :=
  match s with
  | c :: _ => if ident_start c then Some (span ident_char s) else None
  | [] => None
  end.

(** [_PARAMETER] after its opening brace: the name, the converter, the rest. *)
Definition match_parameter (s : pystr) : option (pystr * option pystr * pystr) :=
  match ident s with
  | Some (name, 125 :: rest) => Some (name, None, rest)
  | Some (name, 58 :: rest) =>
      match ident rest with Some (conv, 125 :: rest) => Some (name, Some conv, rest) | _ => None end
  | _ => None
  end.

Definition _CONVERTERS : list (pystr * converter) :=
  [(str "str", CStr); (str "path", CPath); (str "int", CInt); (str "float", CFloat); (str "uuid", CUuid)].

Definition braces (s : pystr) : bool := existsb (λ c, (c =? 123) || (c =? 125)) s.

(** The loop of [_compile_route] over the matches of [_PARAMETER]; [lit] is the
    literal text since the last one, reversed, [names] the keys of [converters].
    Every round consumes a character at least. *)
Fixpoint compile_pieces (fuel : nat) (s lit : pystr) (names : list pystr) : result route_error (list piece) :=
  match fuel with
  | O => Err RouteInvalidSignature
  | S fuel =>
      match s with
      | [] => _ ← raise_if (braces lit) RouteInvalidSignature; Ok [PLit (rev lit)]
      | 123 :: s =>
          match match_parameter s with
          | None => compile_pieces fuel s (123 :: lit) names
          | Some (name, conv, rest) =>
              _ ← raise_if (braces lit) RouteInvalidSignature;
              _ ← raise_if (bool_decide (name ∈ names)) RouteInvalidSignature;
              c ← match dict_get _CONVERTERS (default (str "str") conv) with
                  | Some c => Ok c
                  | None => Err RouteInvalidSignature
                  end;
              ps ← compile_pieces fuel rest [] (name :: names);
              Ok (PLit (rev lit) :: PParam name c :: ps)
          end
      | c :: s => compile_pieces fuel s (c :: lit) names
      end
  end.

(** ** Matching *)

Definition hex (c : Z) : bool := digit c || (65 <=? c) && (c <=? 70) || (97 <=? c) && (c <=? 102).

Definition uuid_text (s : pystr) : bool :=
  (length s =? 36)%nat &&
  forallb (λ ic : nat * Z, if existsb (Nat.eqb ic.1) [8; 13; 18; 23]%nat then ic.2 =? 45 else hex ic.2)
    (zip (seq 0 36) s).

Definition float_text (s : pystr) : bool :=
  match span digit s with
  | (_ :: _, []) => true
  | (_ :: _, 46 :: f) => negb (bool_decide (f = [])) && forallb digit f
  | _ => false
  end.

(** Whether the expression of a converter matches all of [s]. *)
Definition accepts (c : converter) (s : pystr) : bool :=
  match c with
  | CStr => negb (bool_decide (s = [])) && forallb (λ c, negb (c =? 47)) s
  | CPath => forallb (λ c, negb (c =? 10)) s
  | CInt => negb (bool_decide (s = [])) && forallb digit s
  | CFloat => float_text s
  | CUuid => uuid_text s
  end.

Fixpoint strip_prefix (p s : pystr) : option pystr :=
  match p, s with
  | [], _ => Some s
  | a :: p, b :: s => if a =? b then strip_prefix p s else None
  | _, [] => None
  end.

(** The first [k] from [n] down for which [f] answers. *)
Fixpoint first_down {A} (f : nat → option A) (n : nat) : option A :=
  match f n, n with
  | Some a, _ => Some a
  | None, O => None
  | None, S n => first_down f n
  end.

(** [pattern.fullmatch(path)] with the text of its groups. *)
Fixpoint match_pieces (ps : list piece) (s : pystr) : option (list (pystr * converter * pystr)) :=
  match ps with
  | [] => if bool_decide (s = []) then Some [] else None
  | PLit l :: ps => s ← strip_prefix l s; match_pieces ps s
  | PParam name c :: ps =>
      first_down (λ k, if accepts c (take k s) then vs ← match_pieces ps (drop k s); Some ((name, c, take k s) :: vs) else None)
        (length s)
  end.

(** The default limit of [int(str)]; more digits are a [ValueError]. *)
Definition max_str_digits : Z := 4300.

Definition int_of_digits (s : pystr) : Z := foldl (λ n c, 10 * n + (c - 48)) 0 s.

Definition convert_value (c : converter) (s : pystr) : option hvalue :=
  match c with
  | CStr | CPath => Some (VStr s)
  | CInt => if max_str_digits <? zlen s then None else Some (VInt (int_of_digits s))
  | CFloat => Some (VFloat s)
  | CUuid => Some (VUuid s)
  end.

Record _CompiledRoute := {
  cr_plan : RoutePlan;
  cr_pattern : list piece;
  cr_allowed_methods : list pystr
}.

Definition match_path (r : _CompiledRoute) (path : pystr) : option (list (pystr * hvalue)) :=
  vs ← match_pieces (cr_pattern r) path;
  mapM (λ v : pystr * converter * pystr, x ← convert_value v.1.2 v.2; Some (v.1.1, x)) vs.

Definition allowed_methods (method : pystr) : list pystr :=
  if bool_decide (method = str "GET") then [str "GET"; str "HEAD"] else [method].

Definition _compile_route (plan : RoutePlan) : result route_error _CompiledRoute :=
  ps ← compile_pieces (S (length (r_path plan))) (r_path plan) [] [];
  Ok {| cr_plan := plan; cr_pattern := ps; cr_allowed_methods := allowed_methods (r_method plan) |}.

Definition AsgiRouter_new (plans : list RoutePlan) : result route_error (list _CompiledRoute) := rmap _compile_route plans.

Record RouteMatch := {
  rm_plan : option RoutePlan;
  rm_path_params : list (pystr * hvalue);
  rm_allowed_methods : list pystr;
  rm_redirect_path : option pystr
}.

Definition no_match : RouteMatch := {| rm_plan := None; rm_path_params := []; rm_allowed_methods := []; rm_redirect_path := None |}.

Definition add_methods (acc ms : list pystr) : list pystr :=
  foldl (λ acc m, if bool_decide (m ∈ acc) then acc else acc ++ [m]) acc ms.

(** The first loop of [match]: a route, or the methods of the routes that match
    the path. *)
Fixpoint match_routes (routes : list _CompiledRoute) (path method : pystr) (allowed : list pystr)
    : (RoutePlan * list (pystr * hvalue)) + list pystr :=
  match routes with
  | [] => inr allowed
  | r :: routes =>
      match match_path r path with
      | None => match_routes routes path method allowed
      | Some params =>
          if bool_decide (method ∈ cr_allowed_methods r) then inl (cr_plan r, params)
          else match_routes routes path method (add_methods allowed (cr_allowed_methods r))
      end
  end.

Definition alternate_path (path : pystr) : pystr := if ends_with_slash path then removelast path else path ++ [47].

Definition matches (method path : pystr) (r : _CompiledRoute) : bool :=
  bool_decide (method ∈ cr_allowed_methods r) && bool_decide (is_Some (match_path r path)).

Definition router_match (routes : list _CompiledRoute) (path method : pystr) : RouteMatch :=
  match match_routes routes path method [] with
  | inl (plan, params) =>
      {| rm_plan := Some plan; rm_path_params := params; rm_allowed_methods := []; rm_redirect_path := None |}
  | inr (m :: ms) => {| rm_plan := None; rm_path_params := []; rm_allowed_methods := m :: ms; rm_redirect_path := None |}
  | inr [] =>
      let alternate := alternate_path path in
      if negb (bool_decide (alternate = [])) && existsb (matches method alternate) routes
      then {| rm_plan := None; rm_path_params := []; rm_allowed_methods := []; rm_redirect_path := Some alternate |}
      else no_match
  end.
