(* ===== verification/AsgiRequests.v ===== *)
(** * ASGI: reading a request and answering it

    [context.py], [routes.py] and [application.py] of [tori_py.asgi]: the request
    with the messages its server delivers, the binding of arguments, the body
    stream, the endpoint of a route, and the dispatch of a request. The monitor
    that cancels a handler when its client disconnects is not modelled. *)

From Stdlib Require Import ZArith Lia.
From Stdlib Require Import Strings.Byte.
From stdpp Require Import base tactics list gmap strings.
From S2P Require Import Prelude Pipeline DiDeclarations DiCompiler HttpResponses HttpPipeline HttpRoutes AsgiRouter.
Local Open Scope Z_scope.

Inductive asgi_message :=
| HttpRequest (body : bytes) (more_body : bool)
| HttpDisconnect
| OtherMessage.

Record _AsgiBodyStream := {
  bs_max_bytes : option Z;
  bs_claimed : bool;
  bs_closed : bool;
  bs_complete : bool;
  bs_size : Z;
  bs_finished : bool
}.

(** [q_incoming] holds the messages still to be received; when there are no more,
    [receive] reports the disconnect. [q_body] is [None] for [_BODY_UNSET]. *)
Record asgi_request := {
  q_headers : list (bytes * bytes);
  q_query_string : bytes;
  q_path_params : list (pystr * hvalue);
  q_incoming : list asgi_message;
  q_body : option hvalue;
  q_stream : option _AsgiBodyStream
}.

Definition set_incoming (ms : list asgi_message) (q : asgi_request) : asgi_request :=
  {| q_headers := q_headers q; q_query_string := q_query_string q; q_path_params := q_path_params q;
     q_incoming := ms; q_body := q_body q; q_stream := q_stream q |}.
Definition set_body (b : option hvalue) (q : asgi_request) : asgi_request :=
  {| q_headers := q_headers q; q_query_string := q_query_string q; q_path_params := q_path_params q;
     q_incoming := q_incoming q; q_body := b; q_stream := q_stream q |}.
Definition set_stream (st : option _AsgiBodyStream) (q : asgi_request) : asgi_request :=
  {| q_headers := q_headers q; q_query_string := q_query_string q; q_path_params := q_path_params q;
     q_incoming := q_incoming q; q_body := q_body q; q_stream := st |}.
Definition set_path_params (ps : list (pystr * hvalue)) (q : asgi_request) : asgi_request :=
  {| q_headers := q_headers q; q_query_string := q_query_string q; q_path_params := ps;
     q_incoming := q_incoming q; q_body := q_body q; q_stream := q_stream q |}.

(** Why [json.loads] fails: [UnicodeDecodeError] and [JSONDecodeError], or anything
    else. *)
Inductive json_failure := Malformed | JsonError (e : http_error).

(** [json.loads], [urllib.parse.parse_qsl] with blank values, the names and values
    [SimpleCookie.load] sets for a header value, [None] when it raises
    [CookieError], and [str] of a list of strings. *)
Class RequestText := {
  json_loads : bytes → result json_failure hvalue;
  parse_qsl : pystr → list (pystr * pystr);
  load_cookie : pystr → option (list (pystr * pystr));
  str_of_list : list pystr → pystr
}.

Definition too_large : http_error := http_exception 413 "Request body exceeds the configured limit.".
Definition route_too_large : http_error := http_exception 413 "Request body exceeds the route limit.".
Definition body_not_allowed : http_error := http_exception 400 "Request body is not allowed.".
Definition malformed_json : http_error := http_exception 400 "Request body contains malformed JSON.".
Definition not_json : http_error := http_exception 415 "Request body must use a JSON media type.".
Definition not_consumed : http_error := http_exception 400 "Request body stream was not fully consumed.".
Definition no_dependency : http_error := http_exception 500 "Route dependency was not compiled.".
Definition no_resolver : http_error := http_exception 500 "Custom route parameter was not compiled.".

(** ** Bodies *)

(** The loop of [_reject_request_body]: the size of the body, and what is left to
    receive. *)
Fixpoint reject_loop (limit size : Z) (ms : list asgi_message) : result http_error Z * list asgi_message :=
  match ms with
  | [] => (Err ClientDisconnect, [])
  | HttpDisconnect :: ms => (Err ClientDisconnect, ms)
  | OtherMessage :: ms => (Err HRuntimeError, ms)
  | HttpRequest b more :: ms =>
      let size := size + zlen b in
      if limit <? size then (Err too_large, ms)
      else if more then reject_loop limit size ms
      else (Ok size, ms)
  end.

Definition _reject_request_body (limit : Z) : M asgi_request http_error unit :=
  ms ← gets q_incoming;
  let '(r, rest) := reject_loop limit 0 ms in
  modify (set_incoming rest);;
  size ← lift r;
  throw_if (negb (size =? 0)) body_not_allowed.

(** The loop of [_read_json_body]; [chunks] is in reverse. *)
Fixpoint read_loop (limit size : Z) (chunks : list bytes) (ms : list asgi_message)
    : result http_error (list bytes) * list asgi_message :=
  match ms with
  | [] => (Err ClientDisconnect, [])
  | HttpDisconnect :: ms => (Err ClientDisconnect, ms)
  | OtherMessage :: ms => (Err HRuntimeError, ms)
  | HttpRequest b more :: ms =>
      let size := size + zlen b in
      if limit <? size then (Err too_large, ms)
      else if more then read_loop limit size (b :: chunks) ms
      else (Ok (rev (b :: chunks)), ms)
  end.

Fixpoint lstrip (s : pystr) : pystr :=
  match s with c :: t => if cp_space c then lstrip t else s | [] => [] end.
Definition strip (s : pystr) : pystr := rev (lstrip (rev (lstrip s))).

Definition before_semicolon (s : pystr) : pystr := (span (λ c, negb (c =? 59)) s).1.

Definition ends_with (s suffix : pystr) : bool :=
  (length suffix <=? length s)%nat && bool_decide (drop (length s - length suffix) s = suffix).

Section requests.
Context `{HttpText} `{RequestText}.

Definition decoded_headers (q : asgi_request) : list (pystr * pystr) :=
  (λ h, (casefold (decode_latin1 h.1), decode_latin1 h.2)) <$> q_headers q.

Definition header_values (name : pystr) (q : asgi_request) : list pystr :=
  snd <$> filter (λ h, h.1 = casefold name) (decoded_headers q).

Definition query_values (name : pystr) (q : asgi_request) : list pystr :=
  snd <$> filter (λ h, h.1 = name) (parse_qsl (decode_latin1 (q_query_string q))).

(** [parsed.load(value)] for every value. *)
Fixpoint load_cookies (parsed : list (pystr * pystr)) (values : list pystr) : result http_error (list (pystr * pystr)) :=
  match values with
  | [] => Ok parsed
  | value :: values =>
      match load_cookie value with
      | Some morsels => load_cookies (foldl (λ acc m, dict_set acc m.1 m.2) parsed morsels) values
      | None => Err CookieError
      end
  end.

Definition cookies (q : asgi_request) : result http_error (list (pystr * pystr)) :=
  load_cookies [] (header_values (str "cookie") q).

(** [None] is [_MISSING]. *)
Definition _collapse_values (values : list pystr) : option hvalue :=
  match values with
  | [] => None
  | [v] => Some (VStr v)
  | vs => Some (VList (VStr <$> vs))
  end.

Definition media_type_of (values : list pystr) : pystr :=
  casefold (strip (before_semicolon (match values with [] => [] | [v] => v | vs => str_of_list vs end))).

Definition is_json (media : pystr) : bool :=
  bool_decide (media = str "application/json") || ends_with media (str "+json").

Definition _read_json_body (limit : Z) : M asgi_request http_error hvalue :=
  q ← get;
  match q_body q with
  | Some v => mret v
  | None =>
      throw_if (negb (is_json (media_type_of (header_values (str "content-type") q)))) not_json;;
      let '(r, rest) := read_loop limit 0 [] (q_incoming q) in
      modify (set_incoming rest);;
      chunks ← lift r;
      match json_loads (concat chunks) with
      | Ok v => modify (set_body (Some v));; mret v
      | Err Malformed => raise malformed_json
      | Err (JsonError e) => raise e
      end
  end.

(** ** The body stream *)

Definition stream_new (max_bytes : option Z) : _AsgiBodyStream :=
  {| bs_max_bytes := max_bytes; bs_claimed := false; bs_closed := false; bs_complete := false; bs_size := 0;
     bs_finished := false |}.

Definition with_claimed (st : _AsgiBodyStream) : _AsgiBodyStream :=
  {| bs_max_bytes := bs_max_bytes st; bs_claimed := true; bs_closed := bs_closed st; bs_complete := bs_complete st;
     bs_size := bs_size st; bs_finished := bs_finished st |}.
Definition with_closed (st : _AsgiBodyStream) : _AsgiBodyStream :=
  {| bs_max_bytes := bs_max_bytes st; bs_claimed := bs_claimed st; bs_closed := true; bs_complete := bs_complete st;
     bs_size := bs_size st; bs_finished := bs_finished st |}.
Definition with_finished (st : _AsgiBodyStream) : _AsgiBodyStream :=
  {| bs_max_bytes := bs_max_bytes st; bs_claimed := bs_claimed st; bs_closed := bs_closed st; bs_complete := bs_complete st;
     bs_size := bs_size st; bs_finished := true |}.
Definition with_size (st : _AsgiBodyStream) (size : Z) (complete : bool) : _AsgiBodyStream :=
  {| bs_max_bytes := bs_max_bytes st; bs_claimed := bs_claimed st; bs_closed := bs_closed st; bs_complete := complete;
     bs_size := size; bs_finished := bs_finished st |}.

Definition stream_aiter (st : _AsgiBodyStream) : result http_error _AsgiBodyStream :=
  _ ← raise_if (bs_closed st) HRuntimeError;
  _ ← raise_if (bs_claimed st) HRuntimeError;
  Ok (with_claimed st).

(** One resumption of [_iterate]: a chunk, or [None] when the iteration ends. *)
Fixpoint iterate (st : _AsgiBodyStream) (ms : list asgi_message)
    : result http_error (option bytes) * _AsgiBodyStream * list asgi_message :=
  if bs_complete st then (Ok None, with_finished st, ms)
  else if bs_closed st then (Err HRuntimeError, with_finished st, ms)
  else
    match ms with
    | [] => (Err ClientDisconnect, with_finished st, [])
    | HttpDisconnect :: ms => (Err ClientDisconnect, with_finished st, ms)
    | OtherMessage :: ms => (Err HRuntimeError, with_finished st, ms)
    | HttpRequest b more :: ms =>
        let size := bs_size st + zlen b in
        match bs_max_bytes st with
        | None => (Err HTypeError, with_finished (with_size st size (bs_complete st)), ms)
        | Some m =>
            if m <? size then (Err route_too_large, with_finished (with_size st size (bs_complete st)), ms)
            else
              let st := with_size st size (negb more) in
              match b with [] => iterate st ms | _ => (Ok (Some b), st, ms) end
        end
    end.

(** [anext]; a generator that has raised or returned only ends again. *)
Definition stream_anext (st : _AsgiBodyStream) (ms : list asgi_message)
    : result http_error (option bytes) * _AsgiBodyStream * list asgi_message :=
  if bs_finished st then (Ok None, st, ms) else iterate st ms.

(** ** Arguments *)

Definition kind_text (k : binding_kind) : pystr :=
  match k with
  | HBody => str "body" | HBodyStream => str "body_stream" | HPath => str "path" | HQuery => str "query"
  | HHeader => str "header" | HCookie => str "cookie" | HContext => str "context" | HInject => str "inject"
  | HCustom => str "custom"
  end.

Definition missing_value (p : ParameterPlan) : http_error :=
  HttpException_new 400 (str "Missing required " ++ kind_text (p_kind p) ++ str " value '" ++ p_name p ++ str "'.") None None None.

(** A source that is [None] is found in no mapping and has no [casefold]. *)
Definition _read_http_value (p : ParameterPlan) (q : asgi_request) : result http_error (option hvalue) :=
  match p_kind p, p_source p with
  | HPath, Some s => Ok (dict_get (q_path_params q) s)
  | HQuery, Some s => Ok (_collapse_values (query_values s q))
  | HHeader, Some s => Ok (_collapse_values (header_values s q))
  | HCookie, s => parsed ← cookies q; Ok (VStr <$> (s ≫= dict_get parsed))
  | (HPath | HQuery), None => Ok None
  | HHeader, None => Err HAttributeError
  | _, _ => Err (http_exception 500 "Unknown route binding kind.")
  end.
End requests.

(** [accepted] says of which annotations [RequestContext] is a subclass. *)
Definition validate_context_bindings (accepted : Z → bool) (plans : list RoutePlan) : result route_error unit :=
  raise_if (existsb (λ plan, existsb (λ p, bool_decide (p_kind p = HContext) && negb (accepted (p_annotation p))) (r_parameters plan)) plans)
    RouteInvalidBinding.

(** The state of the application holds the request it serves. [resolve_parameter]
    awaits a custom parameter's resolver. *)
Class AsgiHost (S : Type) := {
  request_of : S → asgi_request;
  set_request : asgi_request → S → S;
  resolve_parameter : Z → HttpContext → M S http_error hvalue
}.

Section endpoints.
Context {S : Type} `{HttpText} `{RequestText} `{HttpApplication S} `{AsgiHost S}.

Definition on_request {A} (m : M asgi_request http_error A) : M S http_error A := zoom request_of set_request m.

(** The value of a parameter; [None] is [_MISSING]. *)
Definition bind_value (limit : Z) (ctx : HttpContext) (p : ParameterPlan) : M S http_error (option hvalue) :=
  match p_kind p with
  | HInject =>
      match p_provider_ref p with
      | None => raise no_dependency
      | Some r => o ← scope_resolve_ref r; mret (Some (VObject o))
      end
  | HContext => mret (Some VContext)
  | HCustom =>
      match p_resolver p with
      | None => raise no_resolver
      | Some o => v ← resolve_parameter o ctx; mret (Some v)
      end
  | HBody => v ← on_request (_read_json_body limit); mret (Some v)
  | HBodyStream => on_request (modify (set_stream (Some (stream_new (p_max_bytes p)))));; mret (Some VStream)
  | _ => q ← gets request_of; lift (_read_http_value p q)
  end.

Fixpoint bind_parameters (limit : Z) (ctx : HttpContext) (ps : list ParameterPlan) (arguments : list (pystr * hvalue))
    : M S http_error (list (pystr * hvalue)) :=
  match ps with
  | [] => mret arguments
  | p :: ps =>
      value ← bind_value limit ctx p;
      v ← match value with
          | Some v => mret v
          | None => if p_has_default p then mret (p_default p) else raise (missing_value p)
          end;
      bind_parameters limit ctx ps (dict_set arguments (p_name p) v)
  end.

Definition _bind_arguments (plan : RoutePlan) (ctx : HttpContext) (limit : Z) : M S http_error (list (pystr * hvalue)) :=
  (if r_rejects_body plan then on_request (_reject_request_body limit) else mret tt);;
  bind_parameters limit ctx (r_parameters plan) [].

(** ** Endpoints *)

Definition validate_stream : M S http_error unit :=
  q ← gets request_of;
  match q_stream q with
  | Some st => throw_if (negb (bs_complete st)) not_consumed
  | None => mret tt
  end.

Definition uses_body_stream (plan : RoutePlan) : bool := existsb (λ p, bool_decide (p_kind p = HBodyStream)) (r_parameters plan).

(** [body_stream.aclose()] in the [finally] clause. *)
Definition close_stream (s : S) : S := set_request (set_stream (with_closed <$> q_stream (request_of s)) (request_of s)) s.

Definition encode_for (plan : RoutePlan) (r : PipelineResult) : M S http_error HttpResponse :=
  lift (_encode_pipeline_result r (r_status_code plan) (r_response_headers plan)).

(** [execute] of [compile_endpoint] *)
Definition execute (global : PipelineBindings) (limit : Z) (plan : RoutePlan) (ctx : HttpContext) : M S http_error HttpResponse :=
  if bool_decide (r_parameters plan = []) && negb (r_rejects_body plan)
  then run global plan ctx (mret []) (encode_for plan) (mret tt)
  else λ s,
    let '(r, s1) := run global plan ctx (_bind_arguments plan ctx limit) (encode_for plan)
                      (if uses_body_stream plan then validate_stream else mret tt) s in
    (r, close_stream s1).

(** ** Dispatch *)

Definition join_methods (ms : list pystr) : pystr :=
  match ms with [] => [] | m :: ms => foldl (λ acc x, acc ++ str ", " ++ x) m ms end.

Definition routing_error (allowed : list pystr) : http_error :=
  match allowed with
  | [] => http_exception 404 "The requested resource was not found."
  | _ => HttpException_new 405 (str "The HTTP method is not allowed.") None (Some [(str "allow", join_methods allowed)]) None
  end.

Definition _response_for_match (global : PipelineBindings) (limit : Z) (m : RouteMatch) (ctx : HttpContext)
    : M S http_error HttpResponse :=
  match rm_redirect_path m with
  | Some path => lift (HttpResponse_new (PyBytes []) (PyInt 307) (Some (str_items [(str "location", path)])))
  | None =>
      match rm_plan m with
      | Some plan => execute global limit plan ctx
      | None => handle_routing_error global (routing_error (rm_allowed_methods m)) ctx
                  (λ r, lift (_encode_pipeline_result r 200 []))
      end
  end.

Record native_app := {
  na_root_module : ModuleId;
  na_routes : list _CompiledRoute;
  na_global : PipelineBindings;
  na_application_id : pystr;
  na_body_size_limit : Z
}.

Definition context_of (app : native_app) (m : RouteMatch) (path method request_id : pystr) : HttpContext :=
  {| hc_path := path; hc_method := method;
     hc_module_identity := match rm_plan m with Some p => r_module_id p | None => na_root_module app end;
     hc_application := na_application_id app; hc_route := r_route_id <$> rm_plan m; hc_request_id := request_id |}.

(** The inner [try] of [_dispatch]: the messages it sends. *)
Definition answer_request (app : native_app) (m : RouteMatch) (ctx : HttpContext) (head : bool) (request_id : pystr)
    : M S http_error (list asgi_send) :=
  try_except
    (response ← _response_for_match (na_global app) (na_body_size_limit app) m ctx;
     lift (_send_response response request_id head))
    (λ e, match e with OSError => mret [] | _ => raise e end).

Definition _dispatch (app : native_app) (path method request_id : pystr) : M S http_error (list asgi_send) :=
  let m := router_match (na_routes app) path method in
  on_request (modify (set_path_params (rm_path_params m)));;
  answer_request app m (context_of app m path method request_id) (bool_decide (method = str "HEAD")) request_id.
End endpoints.
