(* ===== verification/HttpScenarios.v ===== *)
(** * HTTP: a small application

    One controller with one route, [GET /items/{id}], a guard that can be made to
    refuse, and a state that counts the calls of the handler. *)

From Stdlib Require Import ZArith Lia.
From Stdlib Require Import Strings.Byte.
From stdpp Require Import base tactics list gmap strings.
From S2P Require Import Prelude Pipeline DiDeclarations DiCompiler HttpResponses HttpPipeline HttpRoutes AsgiRouter AsgiRequests.
Local Open Scope Z_scope.

(** Case folding of ASCII text, and an encoder that writes [null], [{}] or [0]. Of
    cookies, a slash is refused, as [SimpleCookie] refuses it in a name. *)
#[local] Instance ex_text : HttpText := {
  casefold s := ascii_lower_cp <$> s;
  json_encode v := match v with
                   | VNone => Ok [x6e; x75; x6c; x6c]
                   | VDict _ => Ok [x7b; x7d]
                   | VObject _ => Err HTypeError
                   | _ => Ok [x30]
                   end
}.
Lemma ex_text_laws : HttpTextLaws.
Proof. by split. Qed.

#[local] Instance ex_request_text : RequestText := {
  json_loads b := match b with [] => Err Malformed | _ => Ok (VInt (zlen b)) end;
  parse_qsl _ := [];
  load_cookie v := if existsb (λ c, c =? 47) v then None else Some [];
  str_of_list vs := default [] (head vs)
}.

Definition ascii_bytes (s : string) : bytes := match encode_ascii (str s) with Ok b => b | Err _ => [] end.

Definition ex_request (ms : list asgi_message) : asgi_request :=
  {| q_headers := [(ascii_bytes "content-type", ascii_bytes "application/json")]; q_query_string := []; q_path_params := []; q_incoming := ms; q_body := None;
     q_stream := None |}.

(** The calls of the handler, and the request. *)
Record ex_state := { ex_calls : Z; ex_req : asgi_request }.
Definition ex_start : ex_state := {| ex_calls := 0; ex_req := ex_request [] |}.

Definition count_call (s : ex_state) : ex_state := {| ex_calls := ex_calls s + 1; ex_req := ex_req s |}.

(** Guard 8 lets nobody pass; interceptors call [next] twice and return what the
    second call gave. *)
#[local] Instance ex_application : HttpApplication ex_state := {
  scope_resolve_ref r := mret 1;
  token_object _ := 2;
  handle o ctx := INext (λ r, match r with Ok r => IDone (Ok (VResult (pr_value r) (is_response r))) | Err e => IDone (Err e) end);
  can_activate o ctx := mret (negb (o =? 8));
  transform o v md := mret v;
  intercept o ctx := INext (λ _, INext (λ r, match r with Ok r => IDone (Ok (pr_value r)) | Err e => IDone (Err e) end));
  catch o e ctx := raise e;
  call_handler h args := modify count_call;; mret (CValue VNone)
}.

#[local] Instance ex_host : AsgiHost ex_state := {
  request_of := ex_req;
  set_request q s := {| ex_calls := ex_calls s; ex_req := q |};
  resolve_parameter o ctx := mret VNone
}.

Definition ex_module : ModuleId := {| mid_module := 7; mid_key := None |}.
Definition no_bindings : PipelineBindings :=
  {| pb_middleware := []; pb_guards := []; pb_pipes := []; pb_interceptors := []; pb_filters := [] |}.

(** [GET /items/{id}] takes the identifier from the path, [POST /items/] a body. *)
#[local] Instance ex_reflection : RouteReflection := {
  controller_metadata c := Some (str "items");
  controller_dict c := [(str "read", 30); (str "create", 31)];
  route_metadata h := if h =? 30 then Some (str "GET", str "/{id}") else Some (str "POST", str "");
  status_metadata h := None;
  no_body_metadata h := false;
  pipeline_metadata t := no_bindings;
  response_header_metadata h := [];
  signature h := Some ([{| sp_name := str "self"; sp_variadic := false; sp_annotation := {| ann_base := 0; ann_args := None |};
                           sp_default := None |};
                        {| sp_name := str "value"; sp_variadic := false;
                           sp_annotation := {| ann_base := 1; ann_args := Some [if h =? 30 then MPath (str "id") else MBody] |};
                           sp_default := None |}], 2);
  is_http_context _ := false;
  is_body_stream _ := false
}.

Definition ex_graph : CompiledGraph :=
  {| shape := {| shape_root := ex_module;
                 shape_modules := [{| mp_module_id := ex_module; mp_module := 7;
                                      mp_spec := {| spec_imports := []; spec_providers := []; spec_controllers := [10]; spec_exports := [];
                                                    global_ := false |};
                                      mp_imports := []; mp_providers := [] |}] |};
     providers := []; visibility := ∅; provider_order := [] |}.

Definition ex_plans : list RoutePlan := match compile_routes ex_graph with Ok ps => ps | Err _ => [] end.
Definition ex_routes : list _CompiledRoute := match AsgiRouter_new ex_plans with Ok rs => rs | Err _ => [] end.
Definition ex_plan : RoutePlan := default (with_parameters (with_pipelines
  {| r_module_id := ex_module; r_controller := 0; r_method_name := []; r_handler := 0; r_method := []; r_path := []; r_route_id := [];
     r_status_code := 200; r_parameters := []; r_controller_pipeline := no_bindings; r_route_pipeline := no_bindings;
     r_return_annotation := 0; r_response_headers := []; r_rejects_body := false; r_has_execution_pipeline := false;
     r_handler_is_async := false |} no_bindings no_bindings false) []) (head ex_plans).

Definition ex_context : HttpContext :=
  {| hc_path := str "/items/3"; hc_method := str "GET"; hc_module_identity := ex_module; hc_application := str "app";
     hc_route := Some (r_route_id ex_plan); hc_request_id := str "r" |}.

Definition ex_app : native_app :=
  {| na_root_module := ex_module; na_routes := ex_routes; na_global := no_bindings; na_application_id := str "app";
     na_body_size_limit := 4 |}.

(** A request is routed, handled and answered; the handler's result is encoded. *)
Example ex_served :
  rm_path_params (router_match ex_routes (str "/items/3") (str "GET")) = [(str "id", VStr (str "3"))] ∧
  rm_allowed_methods (router_match ex_routes (str "/items/3") (str "POST")) = [str "GET"; str "HEAD"] ∧
  rm_redirect_path (router_match ex_routes (str "/items/3/") (str "GET")) = Some (str "/items/3") ∧
  ∃ hs s, _dispatch ex_app (str "/items/3") (str "GET") (str "r") ex_start
          = (Ok [ResponseStart 200 hs; ResponseBody [x6e; x75; x6c; x6c]], s) ∧ ex_calls s = 1.
Proof. split_and!; [reflexivity..|]. eexists _, _. split; reflexivity. Qed.
