(* ===== verification/HttpProperties.v ===== *)
(** * HTTP: what routes, pipelines and responses guarantee

    Valid headers and the framing of a response; compiled routes; the frames, error
    paths and fast path of the pipeline. *)

From Stdlib Require Import ZArith Lia.
From Stdlib Require Import Strings.Byte.
From stdpp Require Import base tactics list gmap strings.
From S2P Require Import Prelude DiDeclarations DiCompiler Pipeline HttpResponses HttpPipeline HttpRoutes AsgiRouter AsgiRequests HttpScenarios.
Local Open Scope Z_scope.

(** ** Characters and bytes *)

Lemma token_chars : Forall (λ c, 33 ≤ c < 127) _HEADER_NAME_CHARACTERS.
Proof.
  assert (forallb (λ c, (33 <=? c) && (c <? 127)) _HEADER_NAME_CHARACTERS = true) as Hf by by vm_compute.
  rewrite forallb_forall in Hf. apply Forall_forall. intros c Hc%list_elem_of_In. specialize (Hf _ Hc). lia.
Qed.

Lemma token_char_range c : token_char c = true → 33 ≤ c < 127.
Proof.
  unfold token_char. intros (d & Hd & Hc)%existsb_exists. apply Z.eqb_eq in Hc as ->.
  apply list_elem_of_In in Hd. by eapply Forall_forall in Hd; [|apply token_chars].
Qed.

Lemma token_name_range s : forallb token_char s = true → Forall (λ c, 33 ≤ c < 127) s.
Proof. intros Hs. rewrite forallb_forall in Hs. apply Forall_forall. intros c Hc%list_elem_of_In. by apply token_char_range, Hs. Qed.

Lemma byte_of_cp_ok limit c : 0 ≤ c < limit → limit ≤ 256 → ∃ b, byte_of_cp limit c = Ok b ∧ Z.of_N (Byte.to_N b) = c.
Proof.
  intros Hc Hl. unfold byte_of_cp. destruct (Z.leb_spec 0 c), (Z.ltb_spec c limit); [|lia..]. simpl.
  destruct (Byte.of_N (Z.to_N c)) as [b|] eqn:Hb.
  - exists b. split; [done|]. apply Byte.to_of_N in Hb. rewrite Hb. lia.
  - apply Byte.of_N_None_iff in Hb. lia.
Qed.

Lemma encode_cps_ok limit s : limit ≤ 256 → Forall (λ c, 0 ≤ c < limit) s → ∃ b, rmap (byte_of_cp limit) s = Ok b ∧ decode_latin1 b = s.
Proof.
  intros Hl Hs. induction Hs as [|c s Hc _ (b & Hb & Hd)]; [by exists []|].
  destruct (byte_of_cp_ok limit c Hc Hl) as (x & Hx & Hxc). exists (x :: b). simpl. rewrite Hx. simpl. rewrite Hb. simpl.
  split; [done|]. unfold decode_latin1 in *. simpl. by rewrite Hxc, Hd.
Qed.

Lemma decimal_ascii n : Forall (λ c, 48 ≤ c < 58) (decimal n).
Proof. unfold decimal. generalize (N.to_uint (N.of_nat n)). intros u. induction u; simpl; constructor; (lia || done). Qed.

Lemma Forall_range (a b a' b' : Z) s : a' ≤ a → b ≤ b' → Forall (λ c, a ≤ c < b) s → Forall (λ c, a' ≤ c < b') s.
Proof. intros Ha Hb Hs. eapply Forall_impl; [exact Hs|]. simpl. lia. Qed.

(** ** Valid headers *)

(** A header that no other header or body can be smuggled into. *)
Record valid_header (h : pystr * pystr) : Prop := {
  vh_name : Forall (λ c, 33 ≤ c < 127) h.1;
  vh_value : Forall (λ c, 0 ≤ c < 256 ∧ c ≠ 13 ∧ c ≠ 10) h.2
}.

Section headers.
Context `{HttpText}.

Lemma validate_header_valid name value h : _validate_header name value = Ok h → valid_header h.
Proof.
  unfold _validate_header. intros Hv. apply result_bind_ok in Hv as (n & Hn & Hv). apply result_bind_ok in Hv as (v & _ & Hv).
  apply result_bind_ok in Hv as (? & _ & Hv). apply result_bind_ok in Hv as (? & Hcr%raise_if_ok & Hv).
  apply result_bind_ok in Hv as (? & Hct%raise_if_ok & Hv). apply result_bind_ok in Hv as (? & Hl%raise_if_ok & Hv).
  apply result_bind_ok in Hv as (? & _ & [= <-]). split; simpl.
  - destruct name as [| | |[|c s]| | | | | | |]; try done. apply token_name_range. by destruct (forallb token_char _) eqn:Ht; simplify_eq.
  - apply Forall_forall. intros c Hc%list_elem_of_In. apply negb_false_iff in Hl. rewrite forallb_forall in Hl. specialize (Hl _ Hc).
    assert (∀ p, existsb p v = false → p c = false) as Hex.
    { intros p Hp. destruct (p c) eqn:Hpc; [|done]. apply not_true_iff_false in Hp. destruct Hp. apply existsb_exists. eauto. }
    apply Hex in Hcr, Hct. bool_hyps; lia.
Qed.

Lemma check_headers_valid seen items hs :
  check_headers seen items = Ok hs →
  Forall valid_header hs ∧ NoDup (casefold <$> hs.*1) ∧
  Forall (λ h, casefold h.1 ∉ seen ∧ casefold h.1 ∉ _TRANSPORT_HEADERS) hs.
Proof.
  revert seen hs. induction items as [|[n v] items IH]; intros seen hs Hc; simpl in Hc.
  { simplify_eq. split_and!; constructor. }
  apply result_bind_ok in Hc as (h & Hh%validate_header_valid & Hc). apply result_bind_ok in Hc as (? & Hs%raise_if_ok & Hc).
  apply result_bind_ok in Hc as (? & Ht%raise_if_ok & Hc). apply result_bind_ok in Hc as (rest & Hrest & [= <-]).
  apply bool_decide_eq_false in Hs. unfold transport_header in Ht. apply bool_decide_eq_false in Ht.
  destruct (IH _ _ Hrest) as (Hv & Hnd & Hd). split_and!; [by constructor| |].
  - simpl. apply NoDup_cons. split; [|done]. intros (n' & Hn' & (h' & -> & Hin)%list_elem_of_fmap)%list_elem_of_fmap.
    eapply Forall_forall in Hd as [Hd _]; [|exact Hin]. apply Hd. rewrite <- Hn'. by left.
  - constructor; [done|]. eapply Forall_impl; [exact Hd|]. intros h' [Hx Hx']. split; [|done]. intros ?. apply Hx. by right.
Qed.

Definition valid_response (r : HttpResponse) : Prop :=
  Forall valid_header (headers r) ∧ NoDup (casefold <$> (headers r).*1) ∧
  Forall (λ h, casefold h.1 ∉ _TRANSPORT_HEADERS) (headers r) ∧ 200 ≤ status_code r ≤ 599 ∧
  ((status_code r = 204 ∨ status_code r = 304) → content r = []).

Lemma HttpResponse_new_valid b st hs r : HttpResponse_new b st hs = Ok r → valid_response r.
Proof.
  unfold HttpResponse_new. intros Hr. apply result_bind_ok in Hr as (c & _ & Hr). apply result_bind_ok in Hr as (s & Hs & Hr).
  apply result_bind_ok in Hr as (? & Hc%raise_if_ok & Hr). apply result_bind_ok in Hr as (items & _ & Hr).
  apply result_bind_ok in Hr as (h & Hh%check_headers_valid & [= <-]). destruct Hh as (Hv & Hnd & Hd).
  split_and!; simpl; [done|done| | | |].
  - eapply Forall_impl; [exact Hd|]. by intros h' [].
  - destruct st; try done. destruct (_ && _) eqn:Hb in Hs; simplify_eq. bool_hyps; lia.
  - destruct st; try done. destruct (_ && _) eqn:Hb in Hs; simplify_eq. bool_hyps; lia.
  - intros Hbl. apply andb_false_iff in Hc as [Hc|Hc]; [bool_hyps; lia|]. apply negb_false_iff, bool_decide_eq_true in Hc. done.
Qed.

Lemma encode_header_ok h : valid_header h → ∃ e, encode_header h = Ok e ∧ (decode_latin1 e.1, decode_latin1 e.2) = h.
Proof.
  intros [Hn Hv]. destruct (encode_cps_ok 128 h.1) as (n & Hn' & Hdn); [lia|by eapply Forall_range; [..|exact Hn]; lia|].
  destruct (encode_cps_ok 256 h.2) as (v & Hv' & Hdv); [lia|by eapply Forall_impl; [exact Hv|]; simpl; intros ? []|].
  exists (n, v). unfold encode_header, encode_ascii, encode_latin1. rewrite Hn', Hv'. simpl. rewrite Hdn, Hdv. by destruct h.
Qed.

Definition decoded (hs : list (bytes * bytes)) : list (pystr * pystr) := (λ h, (decode_latin1 h.1, decode_latin1 h.2)) <$> hs.

Lemma encode_headers_ok hs : Forall valid_header hs → ∃ es, rmap encode_header hs = Ok es ∧ decoded es = hs.
Proof.
  intros Hv. induction Hv as [|h hs Hh _ (es & Hes & Hd)]; [by exists []|]. destruct (encode_header_ok _ Hh) as (e & He & Hde).
  exists (e :: es). simpl. rewrite He. simpl. rewrite Hes. simpl. split; [done|]. unfold decoded in *. simpl. by rewrite Hde, Hd.
Qed.
End headers.

(** ** Framing *)

Lemma NoDup_fmap_filter {A B} (f : A → B) (P : A → Prop) `{∀ x, Decision (P x)} l : NoDup (f <$> l) → NoDup (f <$> filter P l).
Proof.
  induction l as [|x l IH]; [done|]. simpl. intros [Hx Hl]%NoDup_cons. rewrite filter_cons. case_decide; [|by apply IH].
  simpl. apply NoDup_cons. split; [|by apply IH]. intros (y & Hy & Hin)%list_elem_of_fmap. apply Hx. rewrite Hy.
  apply list_elem_of_fmap_2. by apply list_elem_of_filter in Hin as [_ Hin].
Qed.

Definition lower_names (hs : list (pystr * pystr)) : list pystr := (λ h : pystr * pystr, map ascii_lower_cp h.1) <$> hs.

Definition own_headers (status : Z) (len : nat) (request_id : pystr) : list (pystr * pystr) :=
  (if (status =? 204) || (status =? 304) then [] else [(str "content-length", decimal len)]) ++
  [(str "x-request-id", request_id)].

Section framing.
Context `{HttpTextLaws}.

Lemma casefold_name h : valid_header h → casefold h.1 = ascii_lower_cp <$> h.1.
Proof. intros [Hn _]. apply casefold_ascii. eapply Forall_range; [..|exact Hn]; lia. Qed.

Lemma kept_names r :
  valid_response r →
  let kept := filter (λ h, is_name h.1 "x-request-id" = false) (headers r) in
  NoDup (lower_names kept) ∧ Forall (λ n, n ∉ _TRANSPORT_HEADERS ∧ n ≠ str "x-request-id") (lower_names kept).
Proof.
  intros (Hv & Hnd & Ht & _) kept.
  assert (lower_names kept = (λ h, casefold h.1) <$> kept) as ->.
  { unfold lower_names. apply list_fmap_ext. intros i h Hi%list_elem_of_lookup_2. symmetry. apply casefold_name.
    apply list_elem_of_filter in Hi as [_ Hi]. by eapply Forall_forall in Hv. }
  split; [apply NoDup_fmap_filter; by rewrite <- list_fmap_compose in Hnd|]. apply Forall_forall.
  intros n (h & -> & [Hn Hin]%list_elem_of_filter)%list_elem_of_fmap. split; [by eapply Forall_forall in Ht|].
  unfold is_name in Hn. by apply bool_decide_eq_false in Hn.
Qed.

Lemma decoded_app a b : decoded (a ++ b) = decoded a ++ decoded b.
Proof. apply fmap_app. Qed.

(** Every response that could be constructed can be sent. *)
Lemma send_valid r id omit :
  valid_response r → Forall (λ c, 0 ≤ c < 128) id →
  ∃ hs, _send_response r id omit = Ok [ResponseStart (status_code r) hs; ResponseBody (if omit then [] else content r)] ∧
    decoded hs = filter (λ h, is_name h.1 "x-request-id" = false) (headers r) ++ own_headers (status_code r) (length (content r)) id.
Proof.
  intros (Hv & _) Hid. unfold _send_response, own_headers.
  destruct (encode_headers_ok (filter (λ h, is_name h.1 "x-request-id" = false) (headers r))) as (es & -> & Hd).
  { apply Forall_forall. intros h [_ Hin]%list_elem_of_filter. by eapply Forall_forall in Hv. }
  destruct (encode_cps_ok 128 id) as (i & Hi & Hdi); [lia|done|]. unfold encode_ascii. rewrite Hi.
  destruct (encode_cps_ok 128 (decimal (length (content r)))) as (n & Hn & Hdn); [lia| |].
  { eapply Forall_range; [..|apply decimal_ascii]; lia. }
  rewrite Hn. destruct (_ || _); simpl; eexists; split; [reflexivity| |reflexivity|].
  all: rewrite decoded_app, Hd; f_equal; unfold decoded; simpl; by rewrite ?Hdn, ?Hdi.
Qed.

Lemma id_char_range c : id_char c = true → 33 ≤ c < 127.
Proof. unfold id_char. intros Hc. bool_hyps; lia. Qed.

Lemma request_id_chars sh fresh : forallb id_char fresh = true → Forall (λ c, 33 ≤ c < 127) (request_id_from_scope sh fresh).
Proof.
  assert (∀ s, forallb id_char s = true → Forall (λ c, 33 ≤ c < 127) s) as Hf.
  { intros s Hs. rewrite forallb_forall in Hs. apply Forall_forall. intros c Hc%list_elem_of_In. by apply id_char_range, Hs. }
  intros Hfr. unfold request_id_from_scope. destruct (filter _ sh) as [|h [|]]; [by apply Hf| |by apply Hf].
  destruct (_ && _) eqn:Hc; [|by apply Hf]. bool_hyps. by apply Hf.
Qed.

Lemma lower_names_app a b : lower_names (a ++ b) = lower_names a ++ lower_names b.
Proof. apply fmap_app. Qed.

Lemma own_names status len id :
  lower_names (own_headers status len id) =
    (if (status =? 204) || (status =? 304) then [] else [str "content-length"]) ++ [str "x-request-id"].
Proof. unfold own_headers. by destruct (_ || _). Qed.

Lemma framed_names r id :
  valid_response r →
  let ns := lower_names (filter (λ h, is_name h.1 "x-request-id" = false) (headers r)) ++
            lower_names (own_headers (status_code r) (length (content r)) id) in
  NoDup ns ∧ str "transfer-encoding" ∉ ns.
Proof.
  intros Hr. destruct (kept_names r Hr) as [Hnd Hk]. rewrite Forall_forall in Hk. simpl. rewrite own_names.
  assert (NoDup ((if (status_code r =? 204) || (status_code r =? 304) then [] else [str "content-length"]) ++ [str "x-request-id"])) as Ho.
  { destruct (_ || _); [apply NoDup_singleton|]. apply NoDup_cons. split; [|apply NoDup_singleton]. by intros ?%list_elem_of_singleton. }
  split.
  - apply NoDup_app. split_and!; [done| |done]. intros n Hn Hin. destruct (Hk _ Hn) as [Ht Hx].
    apply elem_of_app in Hin as [Hin|Hin%list_elem_of_singleton]; [|done].
    destruct (_ || _); [by inversion Hin|]. apply list_elem_of_singleton in Hin as ->. apply Ht. by left.
  - intros [Hin|[Hin|Hin%list_elem_of_singleton]%elem_of_app]%elem_of_app; [..|done].
    + destruct (Hk _ Hin) as [Ht _]. apply Ht. right. by left.
    + destruct (_ || _); [by inversion Hin|]. by apply list_elem_of_singleton in Hin.
Qed.

(** Neither CR nor LF. *)
Definition one_line (h : pystr * pystr) : Prop := Forall (λ c, c ≠ 13 ∧ c ≠ 10) (h.1 ++ h.2).

Lemma framed_lines r id :
  valid_response r → Forall (λ c, 33 ≤ c < 127) id →
  Forall one_line (filter (λ h, is_name h.1 "x-request-id" = false) (headers r) ++ own_headers (status_code r) (length (content r)) id).
Proof.
  assert (∀ a b s, 13 < a → Forall (λ c, a ≤ c < b) s → Forall (λ c, c ≠ 13 ∧ c ≠ 10) s) as Hrange.
  { intros a b s Ha Hs. eapply Forall_impl; [exact Hs|]. simpl. lia. }
  intros (Hv & _) Hid. apply Forall_app. split.
  - rewrite Forall_forall in Hv. apply Forall_forall. intros h [_ Hin]%list_elem_of_filter. destruct (Hv _ Hin) as [Hn Hval].
    apply Forall_app. split; [by apply (Hrange 33 127)|]. eapply Forall_impl; [exact Hval|]. simpl. tauto.
  - unfold own_headers. apply Forall_app.
    split; [destruct (_ || _); [constructor|constructor; [|constructor]]|constructor; [|constructor]];
      apply Forall_app; (split; [by apply (bool_decide_unpack _); vm_compute|]).
    + by apply (Hrange 48 58), decimal_ascii.
    + by apply (Hrange 33 127).
Qed.

(** C34: A response that was constructed is sent as one start and one body message;
    the headers are the handler's and the adapter's own, no name is sent twice, a
    handler can set neither [content-length] nor [transfer-encoding], and no header
    can carry a line break, whatever the client put into its request id. *)
Theorem response_framing b st hs0 r sh fresh omit :
  HttpResponse_new b st hs0 = Ok r → forallb id_char fresh = true →
  let id := request_id_from_scope sh fresh in
  ∃ hs, _send_response r id omit = Ok [ResponseStart (status_code r) hs; ResponseBody (if omit then [] else content r)] ∧
    decoded hs = filter (λ h, is_name h.1 "x-request-id" = false) (headers r) ++ own_headers (status_code r) (length (content r)) id ∧
    NoDup (lower_names (decoded hs)) ∧ str "transfer-encoding" ∉ lower_names (decoded hs) ∧
    Forall one_line (decoded hs).
Proof.
  intros Hr%HttpResponse_new_valid Hf id. pose proof (request_id_chars sh fresh Hf) as Hid.
  destruct (send_valid r id omit Hr) as (hs & Hs & Hd); [by eapply Forall_range; [..|exact Hid]; lia|].
  exists hs. rewrite Hd, lower_names_app. destruct (framed_names r id Hr) as [Hnd Ht].
  split_and!; [done..|]. by apply framed_lines.
Qed.
End framing.

Section example.
#[local] Existing Instances ex_text ex_text_laws ex_request_text ex_application ex_host ex_reflection.

Definition ex_response : HttpResponse :=
  {| content := [x30]; status_code := 200; headers := [(str "ETag", str "1"); (str "X-Request-Id", str "mine")] |}.

Lemma response_framing_witness :
  ∃ hs, _send_response ex_response (str "fresh") false = Ok [ResponseStart 200 hs; ResponseBody [x30]] ∧
    decoded hs = [(str "ETag", str "1"); (str "content-length", str "1"); (str "x-request-id", str "fresh")] ∧
    NoDup (lower_names (decoded hs)) ∧ str "transfer-encoding" ∉ lower_names (decoded hs) ∧ Forall one_line (decoded hs).
Proof.
  destruct (response_framing (PyBytes [x30]) (PyInt 200) (Some (str_items (headers ex_response))) ex_response [] (str "fresh") false)
    as (hs & Hs & Hd & Hrest); [vm_compute; reflexivity..|].
  exists hs. split; [exact Hs|]. split; [rewrite Hd; vm_compute; reflexivity|exact Hrest].
Defined.
End example.

(** ** Paths *)

(** No two slashes in a row. *)
Fixpoint single_slashes (s : pystr) : bool :=
  match s with
  | 47 :: ((47 :: _) as t) => false
  | _ :: t => single_slashes t
  | [] => true
  end.

Lemma single_slashes_cons c s :
  single_slashes (c :: s) = negb ((c =? 47) && starts_with_slash s) && single_slashes s.
Proof.
  unfold starts_with_slash. destruct (Z.eqb_spec c 47) as [->|Hc].
  - destruct s as [|d s]; [done|]. simpl. destruct (Z.eqb_spec d 47) as [->|Hd].
    + by rewrite bool_decide_true.
    + rewrite bool_decide_false by congruence. simpl. by repeat (case_match; try done).
  - simpl. by repeat (case_match; try done).
Qed.

Lemma single_slashes_app a b :
  single_slashes (a ++ b) = single_slashes a && negb (ends_with_slash a && starts_with_slash b) && single_slashes b.
Proof.
  induction a as [|c a IH]; [by destruct b|]. change ((c :: a) ++ b) with (c :: (a ++ b)).
  rewrite !single_slashes_cons, IH. unfold ends_with_slash, starts_with_slash. destruct a as [|d a].
  - change ([] ++ b) with b. change (last [c]) with (Some c). replace (bool_decide (Some c = Some 47)) with (c =? 47).
    + simpl. by destruct (c =? 47), (bool_decide (head b = Some 47)), (single_slashes b).
    + destruct (Z.eqb_spec c 47) as [->|]; [by rewrite bool_decide_true|rewrite bool_decide_false; congruence].
  - change (head ((d :: a) ++ b)) with (Some d). change (head (d :: a)) with (Some d).
    change (last (c :: d :: a)) with (last (d :: a)).
    by destruct (c =? 47), (bool_decide (Some d = Some 47)), (single_slashes (d :: a)), (single_slashes b),
      (bool_decide (last (d :: a) = Some 47)), (bool_decide (head b = Some 47)).
Qed.

Lemma single_slashes_drop1 s : single_slashes s = true → single_slashes (drop 1 s) = true.
Proof. destruct s as [|c s]; [done|]. rewrite single_slashes_cons. intros H. by apply andb_true_iff in H as [_ H]. Qed.

Lemma join_absolute prefix path : starts_with_slash (_join_paths prefix path) = true.
Proof.
  unfold _join_paths. destruct (_ && _); [done|]. by destruct (starts_with_slash (join_raw prefix path)) eqn:?.
Qed.

Lemma starts_drop1 s : single_slashes s = true → starts_with_slash s = true → starts_with_slash (drop 1 s) = false.
Proof.
  destruct s as [|c s]; [done|]. rewrite single_slashes_cons. intros H Hc. unfold starts_with_slash in Hc. bool_hyps; simplify_eq/=;
    by rewrite ?drop_0.
Qed.

Lemma join_raw_single prefix path :
  single_slashes prefix = true → single_slashes path = true → single_slashes (join_raw prefix path) = true.
Proof.
  intros Hp Hq. unfold join_raw. case_bool_decide as Hpe; [done|]. case_bool_decide as Hqe; [done|].
  destruct (ends_with_slash prefix) eqn:He, (starts_with_slash path) eqn:Hs; simpl.
  - by rewrite single_slashes_app, Hp, He, starts_drop1, single_slashes_drop1.
  - by rewrite single_slashes_app, Hp, Hq, He, Hs.
  - by rewrite single_slashes_app, Hp, Hq, He, Hs.
  - change ([47] ++ path) with (47 :: path). by rewrite single_slashes_app, Hp, He, single_slashes_cons, Hs, Hq.
Qed.

(** The path of a route is absolute, and joining the prefix of a controller with
    the path of a method introduces no empty segment. *)
Theorem join_paths_normal prefix path :
  starts_with_slash (_join_paths prefix path) = true ∧
  (single_slashes prefix = true → single_slashes path = true → single_slashes (_join_paths prefix path) = true).
Proof.
  split; [apply join_absolute|]. intros Hp Hq. unfold _join_paths. destruct (_ && _); [done|]. simpl.
  pose proof (join_raw_single _ _ Hp Hq) as Hj. destruct (starts_with_slash _) eqn:Hs; [done|].
  by rewrite single_slashes_cons, Hs, Hj.
Qed.

(** ** Identities *)

Section routes.
Context `{RouteReflection}.
Implicit Types (g : CompiledGraph) (plan : RoutePlan).

Definition plan_identities (plans : list RoutePlan) : list (pystr * pystr) :=
  plans ≫= λ p, identities (r_method p) (r_path p).

Lemma identities_NoDup method path : NoDup (identities method path).
Proof.
  unfold identities. case_bool_decide as Hm; [|apply NoDup_singleton]. subst.
  apply NoDup_cons. split; [|apply NoDup_singleton]. by intros [= ?]%list_elem_of_singleton.
Qed.

Lemma reserve_disjoint method path reserved reserved' :
  NoDup reserved → _reserve_route method path reserved = Ok reserved' →
  reserved' = identities method path ++ reserved ∧ NoDup reserved'.
Proof.
  intros Hnd Hr. unfold _reserve_route in Hr. apply result_bind_ok in Hr as (u & Hn & [= <-]). split; [done|].
  apply raise_if_ok in Hn. apply NoDup_app. split; [apply identities_NoDup|]. split; [|done].
  intros i Hi Hir. apply not_true_iff_false in Hn. apply Hn. apply existsb_exists. exists i.
  split; [by apply list_elem_of_In|]. by apply bool_decide_eq_true.
Qed.

(** What qualification keeps of a plan. *)
Lemma qualified_route g plan plan' :
  _qualify_route_injections g plan = Ok plan' →
  ∃ ps, rmap (qualify_injection g (r_module_id plan)) (r_parameters plan) = Ok ps ∧ plan' = with_parameters plan ps.
Proof. intros Hq. apply result_bind_ok in Hq as (ps & Hps & [= <-]). eauto. Qed.

Lemma reserve_plans_disjoint g reserved plans r :
  NoDup reserved → reserve_plans g reserved plans = Ok r →
  NoDup r.2 ∧ plan_identities r.1 ++ reserved ≡ₚ r.2.
Proof.
  revert reserved r. induction plans as [|p plans IH]; intros reserved r Hnd Hr; simpl in Hr; [by simplify_eq|].
  apply result_bind_ok in Hr as (res1 & Hres & Hr). apply result_bind_ok in Hr as (q & Hq & Hr).
  apply result_bind_ok in Hr as (rest & Hrest & [= <-]). apply qualified_route in Hq as (ps & _ & ->).
  destruct (reserve_disjoint _ _ _ _ Hnd Hres) as [-> Hnd1]. destruct (IH _ _ Hnd1 Hrest) as [Hnd2 Hp]. split; [done|].
  simpl. rewrite <- Hp. unfold plan_identities. simpl. rewrite !(assoc_L (++)). apply Permutation_app_tail, Permutation_app_comm.
Qed.

Lemma compile_controllers_disjoint g reserved cs plans :
  NoDup reserved → compile_controllers g reserved cs = Ok plans → NoDup (plan_identities plans ++ reserved).
Proof.
  revert reserved plans. induction cs as [|[m c] cs IH]; intros reserved plans Hnd Hc; simpl in Hc; [by simplify_eq|].
  apply result_bind_ok in Hc as (ps & _ & Hc). apply result_bind_ok in Hc as (r & Hr & Hc).
  apply result_bind_ok in Hc as (rest & Hrest & [= <-]). destruct (reserve_plans_disjoint _ _ _ _ Hnd Hr) as [Hnd1 Hp].
  specialize (IH _ _ Hnd1 Hrest). unfold plan_identities in *. rewrite bind_app.
  rewrite <- Hp, (assoc_L (++)) in IH. by rewrite (Permutation_app_comm (r.1 ≫= _)).
Qed.
(** ** Plans *)

(** What the kind of a parameter promises about its other fields. *)
Definition complete_parameter (p : ParameterPlan) : Prop :=
  match p_kind p with
  | HPath | HQuery | HHeader | HCookie => is_Some (p_source p)
  | HBodyStream => is_Some (p_max_bytes p)
  | HCustom => is_Some (p_resolver p)
  | HInject => is_Some (p_token p)
  | HBody | HContext => True
  end.

Definition body_parameters (plan : RoutePlan) : list ParameterPlan := filter (λ p, is_body (p_kind p) = true) (r_parameters plan).

Record compiled_plan (plan : RoutePlan) : Prop := {
  cp_path : starts_with_slash (r_path plan) = true;
  cp_parameters : Forall complete_parameter (r_parameters plan);
  cp_one_body : zlen (body_parameters plan) ≤ 1;
  cp_no_body : r_rejects_body plan = true → body_parameters plan = []
}.

Definition injected g (m : ModuleId) (p : ParameterPlan) : Prop :=
  p_kind p = HInject → ∃ t v q, p_token p = Some t ∧ visibility g !! (m, t) = Some v ∧
    dict_get (providers g) v = Some q ∧ p_provider_ref p = Some (pp_canonical q).

Lemma compile_parameter_complete sp p : compile_parameter sp = Ok p → complete_parameter p.
Proof.
  unfold compile_parameter. intros Hc. apply result_bind_ok in Hc as (u & _ & Hc).
  destruct (_annotation_markers _) as [base markers]. apply result_bind_ok in Hc as (m & _ & Hc).
  apply result_bind_ok in Hc as (d & Hd & Hc). do 3 (apply result_bind_ok in Hc as (? & _ & Hc)). simplify_eq/=.
  unfold complete_parameter. destruct m; simplify_eq/=; eauto.
Qed.

Lemma compile_signature_complete h ps a :
  _compile_signature h = Ok (ps, a) →
  Forall complete_parameter ps ∧ zlen (filter (λ p, is_body (p_kind p) = true) ps) ≤ 1.
Proof.
  intros Hc. apply result_bind_ok in Hc as (sig & _ & Hc). apply result_bind_ok in Hc as (qs & Hqs & Hc).
  apply result_bind_ok in Hc as (u & Hn & [= <- <-]). apply raise_if_ok in Hn. split; [|lia].
  apply Forall_forall. intros p Hp. apply rmap_ok_iff in Hqs. apply list_elem_of_lookup in Hp as [i Hi].
  destruct (Forall2_lookup_r _ _ _ _ _ Hqs Hi) as (x & _ & Hx). by eapply compile_parameter_complete.
Qed.

Lemma compile_entry_compiled m c prefix reserved e r plan :
  compile_entry m c prefix reserved e = Ok r → r.1 = Some plan → compiled_plan plan.
Proof.
  unfold compile_entry. destruct (route_metadata e.2) as [[method p]|]; [|by intros [= <-]]. intros Hc.
  apply result_bind_ok in Hc as (res & _ & Hc). apply result_bind_ok in Hc as ([ps a] & Hsig & Hc).
  apply result_bind_ok in Hc as (u & Hn & [= <-]). intros [= <-]. apply raise_if_ok in Hn.
  destruct (compile_signature_complete _ _ _ Hsig) as [Hps Hb]. split; [apply join_absolute|done|done|].
  intros Hr. simpl in Hr, Hn. rewrite Hr in Hn. simpl in Hn. unfold body_parameters. simpl.
  apply elem_of_nil_inv. intros q [Hk Hq]%list_elem_of_filter. apply not_true_iff_false in Hn. apply Hn.
  apply existsb_exists. exists q. split; [by apply list_elem_of_In|done].
Qed.

Lemma compile_controller_compiled m c plans : compile_controller_routes m c = Ok plans → Forall compiled_plan plans.
Proof.
  unfold compile_controller_routes. destruct (controller_metadata c) as [prefix|]; [|done]. generalize (@nil (pystr * pystr)).
  revert plans. induction (controller_dict c) as [|e es IH]; intros plans reserved Hc; simpl in Hc; [by simplify_eq|].
  apply result_bind_ok in Hc as (r & Hr & Hc). apply result_bind_ok in Hc as (ps & Hps & [= <-]).
  destruct r.1 as [p|] eqn:Hp; [|by eapply IH]. constructor; [by eapply compile_entry_compiled|by eapply IH].
Qed.

(** Qualification changes the reference of injected parameters only. *)
Lemma qualify_injection_spec g m p q :
  qualify_injection g m p = Ok q →
  p_kind q = p_kind p ∧ injected g m q ∧ (complete_parameter p → complete_parameter q).
Proof.
  unfold qualify_injection, injected. case_bool_decide as Hk; simpl; [|by intros [= <-]].
  destruct (p_token p) as [t|] eqn:Ht; simpl; [|done]. destruct (visibility g !! _) as [v|] eqn:Hv; [|done].
  destruct (dict_get _ v) as [pl|] eqn:Hpl; [|done]. intros [= <-]. split_and!; [done| |done].
  intros _. exists t, v, pl. done.
Qed.

Lemma qualify_bodies g m ps qs :
  rmap (qualify_injection g m) ps = Ok qs →
  length (filter (λ p, is_body (p_kind p) = true) qs) = length (filter (λ p, is_body (p_kind p) = true) ps).
Proof.
  intros Hq. apply rmap_ok_iff in Hq. induction Hq as [|p q ps qs Hpq _ IH]; [done|].
  apply qualify_injection_spec in Hpq as [Hk _]. rewrite !filter_cons, Hk. destruct (decide _); simpl; lia.
Qed.

Lemma qualify_compiled g plan q :
  _qualify_route_injections g plan = Ok q → compiled_plan plan →
  compiled_plan q ∧ Forall (injected g (r_module_id q)) (r_parameters q).
Proof.
  intros Hq [Hp Hc Hb Hn]. apply qualified_route in Hq as (ps & Hps & ->).
  pose proof (qualify_bodies _ _ _ _ Hps) as Hlen. apply rmap_ok_iff in Hps. split; [split|]; simpl.
  - done.
  - eapply Forall2_Forall_r; [exact Hps|]. eapply Forall_impl; [exact Hc|]. intros p Hcp q Hpq.
    apply qualify_injection_spec in Hpq as (_ & _ & ?). auto.
  - unfold body_parameters, zlen in *. simpl. lia.
  - intros Hr. specialize (Hn Hr). unfold body_parameters in *. simpl. rewrite Hn in Hlen. by apply nil_length_inv.
  - eapply Forall2_Forall_r; [exact Hps|]. apply Forall_true. intros p q Hpq. by apply qualify_injection_spec in Hpq as (_ & ? & _).
Qed.

Lemma reserve_plans_compiled g reserved plans r :
  reserve_plans g reserved plans = Ok r → Forall compiled_plan plans →
  Forall (λ q, compiled_plan q ∧ Forall (injected g (r_module_id q)) (r_parameters q)) r.1.
Proof.
  revert reserved r. induction plans as [|p plans IH]; intros reserved r Hr Hps; simpl in Hr; [by simplify_eq/=|].
  apply result_bind_ok in Hr as (res1 & _ & Hr). apply result_bind_ok in Hr as (q & Hq & Hr).
  apply result_bind_ok in Hr as (rest & Hrest & [= <-]). apply Forall_cons in Hps as [Hp Hps].
  constructor; [by eapply qualify_compiled|by eapply IH].
Qed.

Lemma compile_controllers_compiled g reserved cs plans :
  compile_controllers g reserved cs = Ok plans →
  Forall (λ q, compiled_plan q ∧ Forall (injected g (r_module_id q)) (r_parameters q)) plans.
Proof.
  revert reserved plans. induction cs as [|[m c] cs IH]; intros reserved plans Hc; simpl in Hc; [by simplify_eq|].
  apply result_bind_ok in Hc as (ps & Hps & Hc). apply result_bind_ok in Hc as (r & Hr & Hc).
  apply result_bind_ok in Hc as (rest & Hrest & [= <-]). apply Forall_app. split; [|by eapply IH].
  eapply reserve_plans_compiled; [done|]. by eapply compile_controller_compiled.
Qed.

(** Two elements of a list contribute disjoint parts to a concatenation without
    duplicates. *)
Lemma bind_NoDup_disjoint {A B} (f : A → list B) l i j a b x :
  NoDup (l ≫= f) → l !! i = Some a → l !! j = Some b → i ≠ j → x ∈ f a → x ∉ f b.
Proof.
  revert i j. induction l as [|c l IH]; intros i j Hnd Hi Hj Hij Ha Hb; [done|]. rewrite bind_cons in Hnd.
  apply NoDup_app in Hnd as (_ & Hd & Hnd). destruct i as [|i], j as [|j]; simplify_eq/=.
  - apply (Hd x Ha), list_elem_of_bind. exists b. split; [done|by eapply list_elem_of_lookup_2].
  - apply (Hd x Hb), list_elem_of_bind. exists a. split; [done|by eapply list_elem_of_lookup_2].
  - by eapply (IH i j); [..|lia|done|done].
Qed.

(** The places of two routes differ: no request could be meant for both. *)
Definition apart (p q : RoutePlan) : Prop :=
  r_path p = r_path q → r_method p ≠ r_method q ∧ ¬ (r_method p = str "GET" ∧ r_method q = str "HEAD").

Lemma identities_apart plans i j p q :
  NoDup (plan_identities plans) → plans !! i = Some p → plans !! j = Some q → i ≠ j → apart p q.
Proof.
  intros Hnd Hi Hj Hij Hpath. pose proof (bind_NoDup_disjoint _ _ _ _ _ _ (r_method q, r_path q) Hnd Hi Hj Hij) as Hd.
  assert ((r_method q, r_path q) ∉ identities (r_method p) (r_path p)) as Hn
    by (intros Hin; apply (Hd Hin); unfold identities; case_bool_decide; left).
  rewrite Hpath in Hn. split; [intros Hm|intros [Hg Hh]]; apply Hn; unfold identities.
  - rewrite Hm. case_bool_decide; left.
  - rewrite Hg, Hh. rewrite bool_decide_true by done. rewrite !elem_of_cons. tauto.
Qed.

(** C40: Compiled routes are well formed: no two of them have the same method and
    path, and none has the method [HEAD] on the path of a [GET] route, which answers
    [HEAD] too; paths are absolute; every parameter has what its kind needs; a route
    reads the body at most once, and never when it refuses bodies; and an injected
    parameter refers to the canonical provider its module sees. *)
Theorem routes_well_formed g plans :
  compile_routes g = Ok plans →
  (∀ i j p q, plans !! i = Some p → plans !! j = Some q → i ≠ j → r_path p = r_path q →
     r_method p ≠ r_method q ∧ ¬ (r_method p = str "GET" ∧ r_method q = str "HEAD")) ∧
  NoDup (plan_identities plans) ∧
  Forall (λ q, compiled_plan q ∧ Forall (injected g (r_module_id q)) (r_parameters q)) plans.
Proof.
  intros Hc. assert (NoDup (plan_identities plans)) as Hnd.
  { rewrite <- (app_nil_r (plan_identities plans)). eapply compile_controllers_disjoint; [constructor|exact Hc]. }
  split_and!; [|done|by eapply compile_controllers_compiled]. intros i j p q Hi Hj Hij. by eapply identities_apart.
Qed.
End routes.

(** ** On the small application *)

Section example.
#[local] Existing Instances ex_text ex_text_laws ex_request_text ex_application ex_host ex_reflection.

Lemma routes_well_formed_witness :
  (∀ i j p q, ex_plans !! i = Some p → ex_plans !! j = Some q → i ≠ j → r_path p = r_path q →
     r_method p ≠ r_method q ∧ ¬ (r_method p = str "GET" ∧ r_method q = str "HEAD")) ∧
  NoDup (plan_identities ex_plans) ∧
  Forall (λ q, compiled_plan q ∧ Forall (injected ex_graph (r_module_id q)) (r_parameters q)) ex_plans.
Proof. apply routes_well_formed. vm_compute. reflexivity. Defined.
End example.

Lemma keeps_try_else {S A B T} (view : S → T) (m : M S http_error A) (h : http_error → M S http_error B) k :
  keeps view m → (∀ e, keeps view (h e)) → (∀ a, keeps view (k a)) → keeps view (try_else m h k).
Proof.
  intros Hm Hh Hk s. unfold try_else. rewrite <- (Hm s). destruct (m s) as [[a|e] s1]; simpl; [apply Hk|apply Hh].
Qed.

Lemma grows_try_else {S A B} (count : S → Z) n (m : M S http_error A) (h : http_error → M S http_error B) k :
  grows count n m → (∀ e, keeps count (h e)) → (∀ a, keeps count (k a)) → grows count n (try_else m h k).
Proof.
  intros Hm Hh Hk s. unfold try_else. specialize (Hm s). destruct (m s) as [[a|e] s1]; simpl in *.
  - by rewrite (Hk a s1).
  - by rewrite (Hh e s1).
Qed.

Section frames.
Context {S R : Type} `{HttpApplication S} `{HttpPipelineAdapter R}.
Implicit Types (plan : RoutePlan) (ctx : HttpContext).

(** No code of the application but its handlers changes the view. *)
Record quiet_stages {T} (view : S → T) : Prop := {
  qs_resolve r : keeps view (scope_resolve_ref r);
  qs_middleware o ctx : quiet view (handle o ctx);
  qs_guard o ctx : keeps view (can_activate o ctx);
  qs_pipe o v md : keeps view (transform o v md);
  qs_interceptor o ctx : quiet view (intercept o ctx);
  qs_filter o e ctx : keeps view (catch o e ctx)
}.

Context {T : Type} (view : S → T) (Hq : quiet_stages view) (global : PipelineBindings).

Lemma resolve_one_keeps b : keeps view (resolve_one b).
Proof. destruct Hq, b; simpl; [apply keeps_ret|auto|apply keeps_ret]. Qed.

Lemma resolve_kind_keeps kind plan : keeps view (resolve_kind global kind plan).
Proof.
  unfold resolve_kind, _resolve_pipeline. repeat (apply keeps_bind; [apply keeps_mapM, resolve_one_keeps|intros ?]).
  apply keeps_ret.
Qed.

Lemma http_guards_keep plan ctx : keeps view (_run_guards global plan ctx).
Proof.
  destruct Hq. apply keeps_bind; [apply resolve_kind_keeps|]. intros gs.
  induction gs; simpl; [apply keeps_ret|]. apply keeps_bind; [done|]. intros ok. apply keeps_bind; [apply keeps_throw|]. done.
Qed.

Lemma pipe_value_keeps md pipes args : keeps view (pipe_value md pipes args).
Proof.
  destruct Hq. revert args. induction pipes as [|p pipes IH]; intros args; simpl; [apply keeps_ret|].
  destruct (dict_get args _); [|apply keeps_raise]. apply keeps_bind; [done|]. done.
Qed.

Lemma http_pipes_keep plan args : keeps view (_run_pipes global plan args).
Proof.
  apply keeps_bind; [apply resolve_kind_keeps|]. intros pipes. revert args.
  induction (r_parameters plan) as [|p ps IH]; intros args; simpl; [apply keeps_ret|].
  apply keeps_bind; [|done]. destruct (p_kind p); try apply keeps_ret; apply pipe_value_keeps.
Qed.

Lemma contain_keeps {A} (h : http_error → M S http_error A) e : (∀ e, keeps view (h e)) → keeps view (contain h e).
Proof. intros Hh. unfold contain. destruct (is_abort_exception e), (is_exception e); simpl; auto using keeps_raise. Qed.

Lemma ask_filter_keeps e ctx b : keeps view (ask_filter e ctx b).
Proof.
  destruct Hq. apply keeps_try_else; [apply resolve_one_keeps|intros; apply contain_keeps; intros; apply keeps_ret|].
  intros f. apply keeps_try; [|intros; apply contain_keeps; intros; apply keeps_ret].
  apply keeps_bind; [done|]. intros v.
  destruct v; try apply keeps_ret;
    (apply keeps_bind; [apply keeps_lift|]; intros [r'|]; [apply keeps_ret|apply keeps_raise]).
Qed.

Lemma http_render_keeps oplan ctx (encode : PipelineResult → M S http_error R) e :
  (∀ r, keeps view (encode r)) → keeps view (_render_exception global oplan ctx encode e).
Proof.
  intros He. apply keeps_try; [|intros; apply contain_keeps; intros; apply keeps_lift].
  apply keeps_bind; [|done]. unfold _handle_exception. destruct (is_abort_exception e); [apply keeps_raise|].
  induction (filters_of global oplan) as [|b bs IH]; simpl; [apply keeps_lift|].
  apply keeps_bind; [apply ask_filter_keeps|]. intros [r|]; [apply keeps_ret|done].
Qed.

Lemma wrap_middleware ctx o : keeps view (mret (handle o ctx) : M S http_error _) ∧
  ∀ s p, ((mret (handle o ctx) : M S http_error _) s).1 = Ok p → quiet view p.
Proof. destruct Hq. split; [apply keeps_ret|]. intros s p [= <-]. done. Qed.

Lemma wrap_interceptor ctx o : keeps view (mret (intercept o ctx) : M S http_error _) ∧
  ∀ s p, ((mret (intercept o ctx) : M S http_error _) s).1 = Ok p → quiet view p.
Proof. destruct Hq. split; [apply keeps_ret|]. intros s p [= <-]. done. Qed.
End frames.

Section once.
Context {S R : Type} `{HttpApplication S} `{HttpPipelineAdapter R}.

(** [count] counts calls of handlers: no other code of the application moves it. *)
Record counts_calls (count : S → Z) : Prop := {
  cc_quiet : quiet_stages count;
  cc_value h args s : count s ≤ count (call_handler h args s).2;
  cc_call h args s :
    match call_handler h args s with
    | (Ok (CAwaitable m), s1) => count (m s1).2 ≤ count s + 1 ∧ count s1 ≤ count (m s1).2
    | (_, s1) => count s1 ≤ count s + 1
    end
}.

Context (count : S → Z) (Hc : counts_calls count) (global : PipelineBindings).

Lemma handler_result_grows plan args : grows count 1 (_handler_result plan args).
Proof.
  intros s. unfold _handler_result, mbind, M_bind. pose proof (cc_value _ Hc (r_handler plan) args s) as Hv.
  pose proof (cc_call _ Hc (r_handler plan) args s) as Hcall.
  destruct (call_handler _ _ s) as [[[v|m]|e] s1]; simpl in *; [..|lia].
  - destruct (r_handler_is_async plan); simpl; lia.
  - destruct (m s1) as [[v|e] s2]; simpl in *; lia.
Qed.

Context (bind : M S http_error (list (pystr * hvalue))) (Hb : keeps count bind).

Lemma run_terminal_grows plan ctx : grows count 1 (run_terminal global plan ctx bind).
Proof.
  pose proof (cc_quiet _ Hc). apply grows_bind_r; [done|by apply http_guards_keep|]. intros _.
  apply grows_bind_r; [done|done|]. intros args. apply grows_bind_r; [done|by apply http_pipes_keep|]. intros args'.
  apply grows_bind_r; [done|by apply resolve_kind_keeps|]. intros is'.
  apply dispatch_grows; [done|apply handler_result_grows|]. intros o _. by apply wrap_interceptor.
Qed.

Lemma run_stages_grows plan ctx :
  grows count 1 (if r_has_execution_pipeline plan then _run_middleware global plan ctx bind else _run_handler plan bind).
Proof.
  pose proof (cc_quiet _ Hc). destruct (r_has_execution_pipeline plan).
  - apply grows_bind_r; [done|by apply resolve_kind_keeps|]. intros ms.
    apply dispatch_grows; [done|apply run_terminal_grows|]. intros o _. by apply wrap_middleware.
  - apply grows_bind_r; [done|done|]. intros args. apply handler_result_grows.
Qed.

(** The handler of a route runs at most once per request, however often
    middleware and interceptors call their callbacks, and whether the request goes
    through the full pipeline or the fast path. *)
Theorem http_handler_once plan ctx (encode : PipelineResult → M S http_error R) validate :
  (∀ r, keeps count (encode r)) → keeps count validate →
  grows count 1 (run global plan ctx bind encode validate).
Proof.
  pose proof (cc_quiet _ Hc). intros He Hv.
  assert (∀ e, keeps count (contain (_render_exception global (Some plan) ctx encode) e)) as Hr.
  { intros e. apply contain_keeps. intros e'. by apply http_render_keeps. }
  apply grows_try_else; [|done|intros r; by apply keeps_try].
  apply grows_bind_l; [apply run_stages_grows|]. intros r. apply keeps_bind; [done|]. intros _. apply keeps_ret.
Qed.
End once.

Section errors.
Context {S R : Type} `{HttpApplication S} `{HttpPipelineAdapter R} (global : PipelineBindings).

(** What may leave the pipeline: an abort exception of the adapter, or no
    [Exception]. *)
Definition fatal (e : http_error) : Prop := is_abort_exception e = true ∨ is_exception e = false.

Lemma contain_ensures {A} (P : A → Prop) (h : http_error → M S http_error A) e :
  (∀ e, ensures P fatal (h e)) → ensures P fatal (contain h e).
Proof.
  intros Hh. unfold contain. destruct (is_abort_exception e) eqn:?; [apply ensures_raise; by left|].
  destruct (is_exception e) eqn:?; simpl; [apply Hh|apply ensures_raise; by right].
Qed.

Lemma ensures_try_else {A B} (P : A → Prop) (R' Q : http_error → Prop) (P' : B → Prop) (m : M S http_error A) h k :
  ensures P R' m → (∀ e, R' e → ensures P' Q (h e)) → (∀ a, P a → ensures P' Q (k a)) → ensures P' Q (try_else m h k).
Proof.
  intros Hm Hh Hk s. unfold try_else. specialize (Hm s). destruct (m s) as [[a|e] s1]; simpl in *; [by apply Hk|by apply Hh].
Qed.

Lemma render_ensures plan ctx (encode : PipelineResult → M S http_error R) r e :
  render_emergency ctx = Ok r → ensures (λ _, True) fatal (_render_exception global plan ctx encode e).
Proof.
  intros Hr. eapply ensures_try; [apply ensures_any|]. intros e' _. apply contain_ensures. intros e''.
  unfold _render_emergency. rewrite Hr. by apply ensures_lift.
Qed.

Lemma run_contained plan ctx bind (encode : PipelineResult → M S http_error R) validate r :
  render_emergency ctx = Ok r →
  ensures (λ _, True) fatal (run global plan ctx bind encode validate) ∧
  ∀ e, ensures (λ _, True) fatal (handle_routing_error global e ctx encode).
Proof.
  intros Hr. assert (∀ e, ensures (λ _, True) fatal (contain (_render_exception global (Some plan) ctx encode) e)) as Hc.
  { intros e. apply contain_ensures. intros e'. by eapply render_ensures. }
  split.
  - eapply ensures_try_else; [apply ensures_any|by intros|]. intros a _. eapply ensures_try; [apply ensures_any|by intros].
  - intros e. unfold handle_routing_error. destruct (is_abort_exception e) eqn:?; [apply ensures_raise; by left|].
    by eapply render_ensures.
Qed.

(** What is fatal is offered to no filter. *)
Lemma fatal_escapes plan ctx bind (encode : PipelineResult → M S http_error R) validate s s' e :
  fatal e →
  (r ← (if r_has_execution_pipeline plan then _run_middleware global plan ctx bind else _run_handler plan bind);
   validate;; mret r) s = (Err e, s') →
  run global plan ctx bind encode validate s = (Err e, s').
Proof.
  intros Hf Hs. unfold run, try_else. rewrite Hs. unfold contain.
  destruct (is_abort_exception e) eqn:Ha; [done|]. destruct Hf as [Hf|Hf]; [congruence|]. by rewrite Hf.
Qed.
End errors.

Section answers.
Context {S : Type} `{HttpText} `{RequestText} `{HttpApplication S} `{AsgiHost S} (global : PipelineBindings).

(** The errors the native adapter does not answer, whoever raised them. *)
Lemma fatal_cases e : fatal e ↔ e = ClientDisconnect ∨ e = OSError ∨ ∃ n, e = NotAnException n.
Proof. unfold fatal. simpl. destruct e; simpl; naive_solver. Qed.

(** C32: Whatever the stages of a pipeline, the binding of its arguments, its handler,
    its filters and the encoder raise, a request to the native adapter is answered
    with a response, if the emergency response can be rendered at all, with three
    exceptions: [ClientDisconnect], every [OSError] and what is no [Exception] leave
    the pipeline. They do so also when it is the application's own code that raises
    them: no filter is asked and no response is rendered, and for an [OSError] the
    dispatcher sends nothing and reports nothing. *)
Theorem http_errors_contained plan ctx bind (encode : PipelineResult → M S http_error HttpResponse) validate r :
  render_emergency ctx = Ok r →
  ensures (λ _, True) (λ e, e = ClientDisconnect ∨ e = OSError ∨ ∃ n, e = NotAnException n)
    (run global plan ctx bind encode validate) ∧
  (∀ e, ensures (λ _, True) (λ e, e = ClientDisconnect ∨ e = OSError ∨ ∃ n, e = NotAnException n)
    (handle_routing_error global e ctx encode)) ∧
  (∀ s s' e, e = ClientDisconnect ∨ e = OSError ∨ (∃ n, e = NotAnException n) →
     (result ← (if r_has_execution_pipeline plan then _run_middleware global plan ctx bind else _run_handler plan bind);
      validate;; mret result) s = (Err e, s') →
     run global plan ctx bind encode validate s = (Err e, s')) ∧
  (∀ app m head id s s', _response_for_match (na_global app) (na_body_size_limit app) m ctx s = (Err OSError, s') →
     answer_request app m ctx head id s = (Ok [], s')).
Proof.
  intros Hr. destruct (run_contained global plan ctx bind encode validate r Hr) as [Hrun Hrouting].
  split_and!.
  - eapply ensures_weaken; [exact Hrun|done|]. intros e. apply fatal_cases.
  - intros e. eapply ensures_weaken; [apply Hrouting|done|]. intros e'. apply fatal_cases.
  - intros s s' e He. apply fatal_escapes. by apply fatal_cases.
  - intros app m head id s s' Hm. unfold answer_request, try_except, mbind, M_bind. by rewrite Hm.
Qed.
End answers.

Section fast_path.
Context {S R : Type} `{HttpApplication S} `{HttpPipelineAdapter R}.

Lemma rmap_elem {E A B} (f : A → result E B) l l' y : rmap f l = Ok l' → y ∈ l' → ∃ x, x ∈ l ∧ f x = Ok y.
Proof.
  intros Hl. apply rmap_ok_iff in Hl. intros Hy. apply list_elem_of_lookup in Hy as [i Hi].
  destruct (Forall2_lookup_r _ _ _ _ _ Hl Hi) as (x & Hx & Hf). exists x. split; [by eapply list_elem_of_lookup_2|done].
Qed.

(** What [qualify] leaves in a plan. *)
Lemma qualified_flag g tokens plans global plans' plan :
  qualify g tokens plans = Ok (global, plans') → plan ∈ plans' →
  r_has_execution_pipeline plan = _has_execution_pipeline [global; r_controller_pipeline plan; r_route_pipeline plan].
Proof.
  intros Hq Hp. unfold qualify in Hq. apply result_bind_ok in Hq as (gl & _ & Hq). apply result_bind_ok in Hq as (ps & Hps & [= <- <-]).
  destruct (rmap_elem _ _ _ _ Hps Hp) as (p & _ & Hqp). unfold qualify_plan in Hqp.
  apply result_bind_ok in Hqp as (c & _ & Hqp). by apply result_bind_ok in Hqp as (r & _ & [= <-]).
Qed.

Lemma no_stages p : has_stages p = false →
  pb_middleware p = [] ∧ pb_guards p = [] ∧ pb_pipes p = [] ∧ pb_interceptors p = [].
Proof. unfold has_stages. by repeat case_match. Qed.

Lemma resolve_no_stages global plan kind s :
  kind global = [] → kind (r_controller_pipeline plan) = [] → kind (r_route_pipeline plan) = [] →
  resolve_kind global kind plan s = (Ok [], s).
Proof. intros H1 H2 H3. unfold resolve_kind. by rewrite H1, H2, H3. Qed.

Lemma pipe_parameters_nil plan ps args s : pipe_parameters plan [] ps args s = (Ok args, s).
Proof.
  induction ps as [|p ps IH]; [done|]. simpl. unfold mbind, M_bind.
  destruct (p_kind p); simpl; apply IH.
Qed.

(** C33: The fast path is the pipeline: for every plan [qualify] returns, the full
    pipeline would do, from every state, what the fast path does when the plan
    says that it has no stages. *)
Theorem fast_path_is_pipeline g tokens plans global plans' plan ctx bind (s : S) :
  qualify g tokens plans = Ok (global, plans') → plan ∈ plans' → r_has_execution_pipeline plan = false →
  _run_middleware global plan ctx bind s = _run_handler plan bind s.
Proof.
  intros Hq Hp Hf. rewrite (qualified_flag _ _ _ _ _ _ Hq Hp) in Hf. unfold _has_execution_pipeline in Hf. simpl in Hf.
  apply orb_false_iff in Hf as [Hg Hf]. apply orb_false_iff in Hf as [Hc Hf]. apply orb_false_iff in Hf as [Hr _].
  apply no_stages in Hg as (?&?&?&?), Hc as (?&?&?&?), Hr as (?&?&?&?).
  unfold _run_middleware, run_terminal, _run_guards, _run_handler, _run_pipes, _run_interceptors, mbind, M_bind.
  rewrite resolve_no_stages by done. simpl. rewrite resolve_no_stages by done. simpl.
  destruct (bind s) as [[args|e] s1]; [|done]. rewrite resolve_no_stages by done.
  rewrite pipe_parameters_nil. by rewrite resolve_no_stages by done.
Qed.
End fast_path.

Section guards.
Context {S R : Type} `{HttpApplication S} `{HttpPipelineAdapter R}.

Lemma mapM_ok_elem {A B} (f : A → M S http_error B) l s l' s' x :
  mapM f l s = (Ok l', s') → x ∈ l → ∃ y s1, y ∈ l' ∧ (f x s1).1 = Ok y.
Proof.
  revert s l'. induction l as [|a l IH]; intros s l' Hm Hx; [by inversion Hx|]. simpl in Hm.
  apply M_bind_ok in Hm as (y & s1 & Hf & Hm). apply M_bind_ok in Hm as (ys & s2 & Hl & [= <- <-]).
  apply elem_of_cons in Hx as [->|Hx].
  - exists y, s. rewrite Hf. split; [by left|done].
  - edestruct IH as (y' & s3 & Hy & Hf'); [done..|]. exists y', s3. split; [by right|done].
Qed.

Lemma resolve_kind_objects global kind plan s l s' o :
  resolve_kind global kind plan s = (Ok l, s') →
  HObject o ∈ kind global ++ kind (r_controller_pipeline plan) ++ kind (r_route_pipeline plan) → o ∈ l.
Proof.
  intros Hr Ho. unfold resolve_kind, _resolve_pipeline in Hr. apply M_bind_ok in Hr as (a & s1 & Ha & Hr).
  apply M_bind_ok in Hr as (b & s2 & Hb & Hr). apply M_bind_ok in Hr as (c & s3 & Hc & [= <- <-]).
  rewrite !elem_of_app in Ho. rewrite !elem_of_app.
  destruct Ho as [Ho|[Ho|Ho]]; [destruct (mapM_ok_elem _ _ _ _ _ _ Ha Ho) as (y & s9 & Hy & Hres)
    |destruct (mapM_ok_elem _ _ _ _ _ _ Hb Ho) as (y & s9 & Hy & Hres)
    |destruct (mapM_ok_elem _ _ _ _ _ _ Hc Ho) as (y & s9 & Hy & Hres)]; simpl in Hres; simplify_eq; tauto.
Qed.

Lemma check_guards_refuse ctx gs o :
  o ∈ gs → (∀ s, (can_activate o ctx s).1 ≠ Ok true) → ∀ s, ¬ ∃ u s', check_guards ctx gs s = (Ok u, s').
Proof.
  intros Ho Hn. induction gs as [|g gs IH]; [by inversion Ho|]. intros s (u & s' & Hg). simpl in Hg.
  apply M_bind_ok in Hg as (ok & s1 & Hok & Hg). apply M_bind_ok in Hg as (u' & s2 & Ht & Hg).
  apply elem_of_cons in Ho as [->|Ho]; [|by apply (IH Ho s2); eauto]. apply (Hn s). rewrite Hok. by destruct ok.
Qed.

Lemma keeps_bind_stuck {A B T} (view : S → T) (m : M S http_error A) (f : A → M S http_error B) :
  keeps view m → (∀ s, ¬ ∃ a s', m s = (Ok a, s')) → keeps view (m ≫= f).
Proof.
  intros Hm Hn s. unfold mbind, M_bind. specialize (Hm s). specialize (Hn s). destruct (m s) as [[a|e] s1]; simpl in *; [|done].
  destruct Hn. eauto.
Qed.

(** A guard that never lets a request pass protects the handler and the request
    body: no code between the guards and the response runs, neither the binding of
    the arguments, which reads the body, nor the handler. The view is any part of
    the state that guards, middleware, filters and encoders leave alone. *)
Theorem http_guards_protect {T} (view : S → T) global plan ctx bind (encode : PipelineResult → M S http_error R) validate o :
  quiet_stages view → (∀ r, keeps view (encode r)) → keeps view validate →
  r_has_execution_pipeline plan = true →
  HObject o ∈ pb_guards global ++ pb_guards (r_controller_pipeline plan) ++ pb_guards (r_route_pipeline plan) →
  (∀ s, (can_activate o ctx s).1 ≠ Ok true) →
  keeps view (run global plan ctx bind encode validate).
Proof.
  intros Hq He Hv Hx Ho Hn. unfold run. rewrite Hx.
  assert (∀ e, keeps view (contain (_render_exception global (Some plan) ctx encode) e)) as Hr.
  { intros e. apply contain_keeps. intros e'. by apply http_render_keeps. }
  apply keeps_try_else; [|done|intros r; by apply keeps_try].
  apply keeps_bind; [|intros r; apply keeps_bind; [done|intros _; apply keeps_ret]].
  apply keeps_bind; [by apply resolve_kind_keeps|]. intros ms.
  apply dispatch_keeps; [|intros m _; by apply wrap_middleware].
  apply keeps_bind_stuck; [by apply http_guards_keep|]. intros s (u & s' & Hg).
  apply M_bind_ok in Hg as (gs & s1 & Hgs & Hg). eapply check_guards_refuse; [|done|by eauto].
  by eapply resolve_kind_objects.
Qed.
End guards.

(** ** On the small application *)

Section example.
#[local] Existing Instances ex_text ex_text_laws ex_request_text ex_application ex_host ex_reflection.

Lemma http_errors_contained_witness :
  ensures (λ _, True) (λ e, e = ClientDisconnect ∨ e = OSError ∨ ∃ n, e = NotAnException n)
    (run no_bindings ex_plan ex_context (raise HKeyError) (encode_for ex_plan) (mret tt) : M ex_state http_error HttpResponse) ∧
  run no_bindings ex_plan ex_context (raise OSError) (encode_for ex_plan) (mret tt) ex_start = (Err OSError, ex_start).
Proof.
  split; [eapply proj1, http_errors_contained; vm_compute; reflexivity|].
  edestruct (http_errors_contained no_bindings ex_plan ex_context (raise OSError) (encode_for ex_plan) (mret tt))
    as (_ & _ & Hos & _); [vm_compute; reflexivity|].
  apply Hos; [tauto|vm_compute; reflexivity].
Defined.

Lemma fast_path_is_pipeline_witness :
  _run_middleware no_bindings ex_plan ex_context (mret []) ex_start = _run_handler ex_plan (mret []) ex_start.
Proof.
  apply (fast_path_is_pipeline ex_graph no_bindings ex_plans no_bindings ex_plans); [reflexivity| |reflexivity]. vm_compute. left.
Defined.

(** Interceptors that call [next] twice, and a guard that refuses. *)
Example ex_once_and_refused :
  let once := with_pipelines ex_plan {| pb_middleware := [HObject 5]; pb_guards := [HObject 6]; pb_pipes := [];
                                        pb_interceptors := [HObject 7]; pb_filters := [HObject 9] |} no_bindings true in
  let refused := with_pipelines ex_plan {| pb_middleware := []; pb_guards := [HObject 8]; pb_pipes := [];
                                           pb_interceptors := []; pb_filters := [] |} no_bindings true in
  ex_calls (run no_bindings once ex_context (mret []) (encode_for once) (mret tt) ex_start).2 = 1 ∧
  match run no_bindings refused ex_context (mret []) (encode_for refused) (mret tt) ex_start with
  | (Ok r, s) => status_code r = 403 ∧ ex_calls s = 0
  | _ => False
  end.
Proof. vm_compute. done. Qed.
End example.
