(* ===== verification/AsgiRouterProperties.v ===== *)
(** * ASGI: what the router guarantees *)

From Stdlib Require Import ZArith Lia.
From stdpp Require Import base tactics list gmap strings.
From S2P Require Import Prelude DiDeclarations DiCompiler HttpResponses HttpPipeline HttpRoutes AsgiRouter AsgiRequests HttpScenarios.
Local Open Scope Z_scope.

(** ** Compiling a template needs no more fuel than the path is long *)

Lemma span_app {A} (p : A → bool) l a b : span p l = (a, b) → l = a ++ b.
Proof.
  revert a b. induction l as [|x l IH]; intros a b Hs; simpl in Hs; [by simplify_eq|].
  destruct (p x); [|by simplify_eq]. destruct (span p l) as [a' b']. simplify_eq/=. f_equal. by apply IH.
Qed.

Lemma ident_length s a b : ident s = Some (a, b) → (length b ≤ length s)%nat.
Proof.
  unfold ident. destruct s as [|c s]; [done|]. destruct (ident_start c); [|done]. intros Hi.
  assert (span ident_char (c :: s) = (a, b)) as Hs%span_app by congruence. rewrite Hs, length_app. lia.
Qed.

Lemma match_parameter_length s name conv rest : match_parameter s = Some (name, conv, rest) → (length rest < length s)%nat.
Proof.
  unfold match_parameter. intros Hm. destruct (ident s) as [[a b]|] eqn:Hi; [|done]. apply ident_length in Hi.
  destruct b as [|c b]; [done|]. destruct (decide (c = 125)) as [->|H1]; [simplify_eq/=; lia|].
  destruct (decide (c = 58)) as [->|H2]; [|by repeat (case_match; try done)].
  destruct (ident b) as [[a' b']|] eqn:Hi'; [|done]. apply ident_length in Hi'.
  destruct b' as [|d b']; [done|]. destruct (decide (d = 125)) as [->|H3]; [simplify_eq/=; lia|].
  by repeat (case_match; try done).
Qed.

(** The step of the loop that reads a parameter, whatever the rest gives. *)
Lemma compile_pieces_fuel fuel fuel' s lit names :
  (length s < fuel)%nat → (length s < fuel')%nat → compile_pieces fuel s lit names = compile_pieces fuel' s lit names.
Proof.
  revert fuel' s lit names. induction fuel as [|fuel IH]; intros [|fuel'] s lit names Hf Hf'; [lia..|].
  destruct s as [|c s]; [done|]. simpl in Hf, Hf'. destruct (decide (c = 123)) as [->|Hc]; simpl.
  - destruct (match_parameter s) as [[[name conv] rest]|] eqn:Hm; [|apply IH; lia].
    apply match_parameter_length in Hm. by rewrite (IH fuel' rest) by lia.
  - rewrite (IH fuel' s) by lia. by repeat (case_match; try done).
Qed.

(** ** Matching *)

Lemma first_down_Some {A} (f : nat → option A) n a : first_down f n = Some a → ∃ k, (k ≤ n)%nat ∧ f k = Some a.
Proof.
  induction n as [|n IH]; simpl; intros Hf; destruct (f _) eqn:Hk in Hf; simplify_eq; [by exists 0%nat..|by exists (S n)|].
  destruct (IH Hf) as (k & ? & ?). exists k. split; [lia|done].
Qed.

Lemma first_down_found {A} (f : nat → option A) n k : (k ≤ n)%nat → is_Some (f k) → is_Some (first_down f n).
Proof.
  induction n as [|n IH]; intros Hk Hf; simpl.
  - assert (k = 0%nat) as -> by lia. by destruct Hf as [a ->].
  - destruct (f (S n)) as [a|] eqn:Hn; [done|]. apply IH; [|done]. destruct (decide (k = S n)) as [->|]; [|lia].
    rewrite Hn in Hf. by destruct Hf.
Qed.

Lemma first_down_unique {A} (f : nat → option A) n k a :
  (k ≤ n)%nat → f k = Some a → (∀ j b, (j ≤ n)%nat → f j = Some b → j = k) → first_down f n = Some a.
Proof.
  intros Hk Hf Hu. destruct (first_down_found f n k Hk) as [b Hb]; [by eauto|].
  destruct (first_down_Some _ _ _ Hb) as (j & Hj & Hfj). rewrite (Hu j b Hj Hfj) in Hfj. congruence.
Qed.

Lemma strip_prefix_app p s : strip_prefix p (p ++ s) = Some s.
Proof. induction p as [|c p IH]; simpl; [done|]. by rewrite Z.eqb_refl. Qed.

Lemma strip_prefix_Some p s r : strip_prefix p s = Some r → s = p ++ r.
Proof.
  revert s. induction p as [|c p IH]; intros s Hs; simpl in Hs; [by simplify_eq|]. destruct s as [|d s]; [done|].
  destruct (Z.eqb_spec c d) as [->|]; [|done]. simpl. f_equal. by apply IH.
Qed.

(** The path a template denotes for the values of its parameters, if its
    expressions accept them. *)
Fixpoint build (ps : list piece) (vs : list (pystr * converter * pystr)) : option pystr :=
  match ps, vs with
  | [], [] => Some []
  | PLit l :: ps, vs => s ← build ps vs; Some (l ++ s)
  | PParam name c :: ps, (name', c', v) :: vs =>
      if bool_decide (name = name') && bool_decide (c = c') && accepts c v then s ← build ps vs; Some (v ++ s) else None
  | _, _ => None
  end.

Lemma match_pieces_sound ps s vs : match_pieces ps s = Some vs → build ps vs = Some s.
Proof.
  revert s vs. induction ps as [|[l|name c] ps IH]; intros s vs Hm; simpl in Hm.
  - case_bool_decide; by simplify_eq.
  - apply bind_Some in Hm as (r & Hr & Hm). apply strip_prefix_Some in Hr as ->. simpl. by rewrite (IH _ _ Hm).
  - apply first_down_Some in Hm as (k & Hk & Hm). destruct (accepts c (take k s)) eqn:Ha; [|done].
    apply bind_Some in Hm as (ws & Hw & [= <-]). simpl. rewrite !bool_decide_true, Ha by done. simpl.
    rewrite (IH _ _ Hw). simpl. by rewrite take_drop.
Qed.

Lemma match_pieces_complete ps vs s : build ps vs = Some s → is_Some (match_pieces ps s).
Proof.
  revert vs s. induction ps as [|[l|name c] ps IH]; intros vs s Hb; simpl in Hb.
  - destruct vs; by simplify_eq/=.
  - apply bind_Some in Hb as (r & Hr & [= <-]). simpl. rewrite strip_prefix_app. by eapply IH.
  - destruct vs as [|[[name' c'] v] vs]; [done|].
    destruct (_ && _) eqn:Hc in Hb; [|done]. bool_hyps; subst. apply bind_Some in Hb as (r & Hr & [= <-]).
    simpl. apply (first_down_found _ _ (length v)); [rewrite length_app; lia|].
    rewrite take_app_length, drop_app_length. match goal with Ha : accepts _ v = true |- _ => rewrite Ha end.
    destruct (IH _ _ Hr) as [ws ->]. by eexists.
Qed.

(** The rest of a template that denotes the empty string only. *)
Definition at_end (ps : list piece) : bool := forallb (λ p, match p with PLit [] => true | _ => false end) ps.
Definition at_slash (ps : list piece) : bool := match ps with PLit (47 :: _) :: _ => true | _ => false end.

(** A parameter ends at a slash or at the end of the path. *)
Fixpoint delimited (ps : list piece) : bool :=
  match ps with
  | [] => true
  | PLit _ :: ps => delimited ps
  | PParam _ c :: ps => (at_end ps || at_slash ps && negb (bool_decide (c = CPath))) && delimited ps
  end.

Lemma at_end_build ps vs s : at_end ps = true → build ps vs = Some s → s = [].
Proof.
  revert vs s. induction ps as [|[[|c l]|name c] ps IH]; intros vs s He Hb; simpl in *; try done.
  - destruct vs; by simplify_eq.
  - apply bind_Some in Hb as (r & Hr & [= <-]). by eapply IH.
Qed.

Lemma at_slash_build ps vs s : at_slash ps = true → build ps vs = Some s → ∃ t, s = 47 :: t.
Proof.
  unfold at_slash. destruct ps as [|[[|c l]|] ps]; [done..| |done]. intros Hs Hb. simpl in Hb.
  apply bind_Some in Hb as (r & _ & [= <-]). destruct (decide (c = 47)) as [->|]; [by eauto|]. by repeat (case_match; try done).
Qed.

Lemma digits_no_slash s : forallb digit s = true → 47 ∉ s.
Proof.
  intros Hd Hs. apply list_elem_of_In in Hs. rewrite forallb_forall in Hd. by specialize (Hd _ Hs).
Qed.

Lemma span_forall {A} (p : A → bool) l a b : span p l = (a, b) → forallb p a = true.
Proof.
  revert a b. induction l as [|x l IH]; intros a b Hs; simpl in Hs; [by simplify_eq|].
  destruct (p x) eqn:Hp; [|by simplify_eq]. destruct (span p l) as [a' b']. simplify_eq/=. rewrite Hp. by eapply IH.
Qed.

Lemma float_no_slash s : float_text s = true → 47 ∉ s.
Proof.
  unfold float_text. destruct (span digit s) as [a b] eqn:Hs. pose proof (span_forall _ _ _ _ Hs) as Ha.
  apply span_app in Hs. subst. destruct a as [|x a]; [done|]. destruct b as [|c f].
  - intros _. rewrite app_nil_r. by apply digits_no_slash.
  - destruct (decide (c = 46)) as [->|Hc]; [|by repeat (case_match; try done)]. intros Hf. bool_hyps.
    intros [Hi|[Hi|Hi]%elem_of_cons]%elem_of_app; [|lia|]; by eapply digits_no_slash in Hi.
Qed.

Lemma uuid_no_slash s : uuid_text s = true → 47 ∉ s.
Proof.
  unfold uuid_text. intros Hu [i Hi]%list_elem_of_lookup. apply andb_true_iff in Hu as [Hl Hu]. apply Nat.eqb_eq in Hl.
  pose proof (lookup_lt_Some _ _ _ Hi) as Hlt. rewrite forallb_forall in Hu.
  assert ((i, 47) ∈ zip (seq 0 36) s) as Hz.
  { apply list_elem_of_lookup. exists i. rewrite lookup_zip_with, Hi. by rewrite lookup_seq_lt by lia. }
  apply list_elem_of_In in Hz. specialize (Hu _ Hz). cbv beta in Hu. by destruct (existsb _ _).
Qed.

Lemma accepts_no_slash c v : accepts c v = true → c ≠ CPath → 47 ∉ v.
Proof.
  destruct c; intros Ha Hc; simpl in Ha; bool_hyps; [|done|by apply digits_no_slash|by apply float_no_slash|by apply uuid_no_slash].
  intros Hi%list_elem_of_In. match goal with Hf : forallb _ v = true |- _ => rewrite forallb_forall in Hf; by specialize (Hf _ Hi) end.
Qed.

(** Where a value without slashes ends before a slash. *)
Lemma split_slash (a b : pystr) x y : 47 ∉ a → 47 ∉ b → a ++ 47 :: x = b ++ 47 :: y → a = b.
Proof.
  revert b. induction a as [|c a IH]; intros [|d b] Ha Hb Heq; simplify_eq/=; [done|by destruct Hb; left|by destruct Ha; left|].
  f_equal. eapply IH; [| |done]; intros ?; [apply Ha|apply Hb]; by right.
Qed.

(** A parameter of a delimited template can end in one place only. *)
Lemma delimited_split ps c vs ws v s' w t :
  at_end ps || at_slash ps && negb (bool_decide (c = CPath)) = true →
  accepts c v = true → accepts c w = true → build ps vs = Some s' → build ps ws = Some t →
  v ++ s' = w ++ t → v = w.
Proof.
  intros Hd Hv Hw Hs Ht Heq. destruct (at_end ps) eqn:He; simpl in Hd.
  - rewrite (at_end_build _ _ _ He Hs), (at_end_build _ _ _ He Ht), !app_nil_r in Heq. done.
  - bool_hyps. destruct (at_slash_build ps vs s') as [x ->], (at_slash_build ps ws t) as [y ->]; [done..|].
    eapply split_slash; [..|done]; by apply accepts_no_slash with c.
Qed.

Lemma match_pieces_exact ps vs s : delimited ps = true → build ps vs = Some s → match_pieces ps s = Some vs.
Proof.
  revert vs s. induction ps as [|[l|name c] ps IH]; intros vs s Hd Hb; simpl in Hb, Hd.
  - destruct vs; by simplify_eq/=.
  - apply bind_Some in Hb as (r & Hr & [= <-]). simpl. rewrite strip_prefix_app. by apply IH.
  - destruct vs as [|[[name' c'] v] vs]; [done|]. apply andb_true_iff in Hd as [Hend Hd].
    destruct (_ && _) eqn:Hc in Hb; [|done]. apply andb_true_iff in Hc as [Hnc Ha].
    apply andb_true_iff in Hnc as [<-%bool_decide_eq_true <-%bool_decide_eq_true].
    apply bind_Some in Hb as (r & Hr & [= <-]). simpl. apply (first_down_unique _ _ (length v)).
    + rewrite length_app. lia.
    + rewrite take_app_length, drop_app_length, Ha. by rewrite (IH _ _ Hd Hr).
    + intros j b Hj Hf. destruct (accepts c (take j (v ++ r))) eqn:Haj; [|done].
      apply bind_Some in Hf as (ws & Hw & _). apply match_pieces_sound in Hw.
      assert (v = take j (v ++ r)) as ->.
      { eapply delimited_split; [exact Hend|done|done|exact Hr|exact Hw|]. by rewrite take_drop. }
      rewrite length_take in *. lia.
Qed.

(** C36: Matching a path against a template reads back what the path was built from:
    the values found rebuild the path and are what the converters accept; a path
    built from accepted values is matched; and where every parameter ends at a
    slash or at the end of the path, exactly those values are found. *)
Theorem path_roundtrip ps :
  (∀ s vs, match_pieces ps s = Some vs → build ps vs = Some s) ∧
  (∀ vs s, build ps vs = Some s → is_Some (match_pieces ps s)) ∧
  (delimited ps = true → ∀ vs s, build ps vs = Some s → match_pieces ps s = Some vs).
Proof.
  split_and!; [apply match_pieces_sound|apply match_pieces_complete|]. intros Hd vs s. by apply match_pieces_exact.
Qed.

(** ** Choosing a route *)

Lemma matches_false method path r params :
  match_path r path = Some params → method ∉ cr_allowed_methods r → matches method path r = false.
Proof. intros _ Hn. unfold matches. by rewrite bool_decide_false. Qed.

Lemma add_methods_spec acc ms :
  (NoDup acc → NoDup (add_methods acc ms)) ∧ ∀ x, x ∈ add_methods acc ms ↔ x ∈ acc ∨ x ∈ ms.
Proof.
  unfold add_methods. revert acc. induction ms as [|m ms IH]; intros acc; simpl; [set_solver|].
  destruct (IH (if bool_decide (m ∈ acc) then acc else acc ++ [m])) as [Hnd Hin]. split.
  - intros Ha. apply Hnd. case_bool_decide; [done|]. apply NoDup_app. split_and!; [done| |apply NoDup_singleton]. set_solver.
  - intros x. rewrite Hin. case_bool_decide; set_solver.
Qed.

(** The route found, or the methods of the routes whose path matches. *)
Definition chosen (routes : list _CompiledRoute) (path method : pystr) (plan : RoutePlan) (params : list (pystr * hvalue)) : Prop :=
  ∃ pre r post, routes = pre ++ r :: post ∧ cr_plan r = plan ∧ method ∈ cr_allowed_methods r ∧
    match_path r path = Some params ∧ Forall (λ q, matches method path q = false) pre.

Definition offered (routes : list _CompiledRoute) (path x : pystr) : Prop :=
  ∃ r, r ∈ routes ∧ is_Some (match_path r path) ∧ x ∈ cr_allowed_methods r.

Lemma match_routes_spec routes path method acc :
  match match_routes routes path method acc with
  | inl (plan, params) => chosen routes path method plan params
  | inr allowed => Forall (λ q, matches method path q = false) routes ∧ (NoDup acc → NoDup allowed) ∧
                   ∀ x, x ∈ allowed ↔ x ∈ acc ∨ offered routes path x
  end.
Proof.
  revert acc. induction routes as [|r routes IH]; intros acc; simpl.
  { split_and!; [constructor|done|]. unfold offered. set_solver. }
  destruct (match_path r path) as [params|] eqn:Hm; [case_bool_decide as Hin|].
  - by exists [], r, routes.
  - specialize (IH (add_methods acc (cr_allowed_methods r))). pose proof (matches_false _ _ _ _ Hm Hin) as Hf.
    destruct (add_methods_spec acc (cr_allowed_methods r)) as [Hnd Had].
    destruct (match_routes _ _ _ _) as [[plan ps]|allowed].
    + destruct IH as (pre & q & post & -> & ? & ? & ? & ?). exists (r :: pre), q, post. split_and!; try done. by constructor.
    + destruct IH as (Hall & Hnd' & Hx). split_and!; [by constructor|by auto|]. intros x. rewrite Hx, Had. unfold offered. set_solver.
  - assert (matches method path r = false) as Hf.
    { unfold matches. rewrite Hm. rewrite (bool_decide_false (is_Some None)) by (by intros []). apply andb_false_r. }
    specialize (IH acc). destruct (match_routes _ _ _ _) as [[plan ps]|allowed].
    + destruct IH as (pre & q & post & -> & ? & ? & ? & ?). exists (r :: pre), q, post. split_and!; try done. by constructor.
    + destruct IH as (Hall & Hnd' & Hx). split_and!; [by constructor|done|]. intros x. rewrite Hx. unfold offered.
      split; [set_solver|]. intros [?|(q & [->|Hq]%elem_of_cons & Hs & ?)]; [by left| |right; by exists q].
      rewrite Hm in Hs. by destruct Hs.
Qed.

Lemma existsb_matches method path routes : existsb (matches method path) routes = false ↔ Forall (λ q, matches method path q = false) routes.
Proof.
  rewrite Forall_forall. split.
  - intros He q Hq%list_elem_of_In. destruct (matches method path q) eqn:Hm; [|done]. apply not_true_iff_false in He.
    destruct He. apply existsb_exists. eauto.
  - intros Hall. apply not_true_iff_false. intros (q & Hq%list_elem_of_In & Hm)%existsb_exists. by rewrite Hall in Hm.
Qed.

(** C35: The router picks the first route, in the order of declaration, whose path
    and method match, with the parameters of that route. If there is none it reports
    exactly the methods of the routes whose path matches, each once; if no path
    matches either, it may redirect. *)
Theorem router_precedence routes path method :
  let m := router_match routes path method in
  match rm_plan m with
  | Some plan => chosen routes path method plan (rm_path_params m)
  | None => Forall (λ q, matches method path q = false) routes ∧ NoDup (rm_allowed_methods m) ∧
            (∀ x, x ∈ rm_allowed_methods m ↔ offered routes path x) ∧
            (is_Some (rm_redirect_path m) → rm_allowed_methods m = [])
  end.
Proof.
  simpl. unfold router_match. pose proof (match_routes_spec routes path method []) as Hs.
  destruct (match_routes _ _ _ _) as [[plan ps]|[|a allowed]]; [done|..]; destruct Hs as (Hall & Hnd & Hx).
  - assert (∀ x, x ∈ @nil pystr ↔ offered routes path x) as Hx'.
    { intros x. split; [intros Hn; by inversion Hn|]. intros Ho. apply Hx. by right. }
    destruct (_ && _); simpl; split_and!; try done; constructor.
  - simpl. split_and!; [done|by apply Hnd; constructor| |by intros []].
    intros x. rewrite Hx. split; [intros [Hn|?]; [by inversion Hn|done]|by right].
Qed.

(** A redirect leads to a route: following it with the same method finds one at
    once, so redirects do not loop and never end in an error of the router. *)
Theorem redirect_resolves routes path method alternate :
  rm_redirect_path (router_match routes path method) = Some alternate →
  is_Some (rm_plan (router_match routes alternate method)).
Proof.
  unfold router_match at 1. destruct (match_routes routes path method []) as [[plan ps]|[|a allowed]]; [done| |done].
  destruct (_ && _) eqn:Hc; [|done]. intros [= <-]. apply andb_true_iff in Hc as [_ He].
  unfold router_match. pose proof (match_routes_spec routes (alternate_path path) method []) as Hs.
  destruct (match_routes routes (alternate_path path) method []) as [[plan ps]|allowed]; [by eexists|].
  destruct Hs as (Hall & _). apply existsb_matches in Hall. by rewrite Hall in He.
Qed.

(** ** On the small application *)

Section example.
#[local] Existing Instances ex_text ex_text_laws ex_request_text ex_application ex_host ex_reflection.

Lemma redirect_resolves_witness :
  is_Some (rm_plan (router_match ex_routes (str "/items/3") (str "GET"))).
Proof. apply (redirect_resolves ex_routes (str "/items/3/")). vm_compute. reflexivity. Defined.
End example.
