(* ===== verification/AsgiProperties.v ===== *)
(** * ASGI: what serving a request guarantees

    Bodies and body streams, the binding of arguments, and a redirect that gets no
    response. *)

From Stdlib Require Import ZArith Lia.
From Stdlib Require Import Strings.Byte.
From stdpp Require Import base tactics list gmap strings.
From S2P Require Import Prelude DiDeclarations DiCompiler Pipeline HttpResponses HttpPipeline HttpRoutes AsgiRouter AsgiRequests HttpScenarios HttpProperties.
Local Open Scope Z_scope.

(** The messages of a body that ends with [b], then [rest]. *)
Definition whole_body (pre : list bytes) (b : bytes) (rest : list asgi_message) : list asgi_message :=
  ((λ c, HttpRequest c true) <$> pre) ++ HttpRequest b false :: rest.

Definition body_bytes (pre : list bytes) (b : bytes) : bytes := concat (pre ++ [b]).

Lemma body_bytes_cons c pre b : body_bytes (c :: pre) b = c ++ body_bytes pre b.
Proof. done. Qed.
Lemma body_bytes_nil b : body_bytes [] b = b.
Proof. apply app_nil_r. Qed.

Lemma read_loop_whole limit size chunks pre b rest :
  (size + zlen (body_bytes pre b) ≤ limit →
   read_loop limit size chunks (whole_body pre b rest) = (Ok (rev chunks ++ pre ++ [b]), rest)) ∧
  (limit < size + zlen (body_bytes pre b) →
   (read_loop limit size chunks (whole_body pre b rest)).1 = Err too_large).
Proof.
  revert size chunks. induction pre as [|c pre IH]; intros size chunks.
  - simpl. rewrite body_bytes_nil. destruct (Z.ltb_spec limit (size + zlen b)); split; intros; try lia; done.
  - change (whole_body (c :: pre) b rest) with (HttpRequest c true :: whole_body pre b rest). cbn [read_loop].
    rewrite body_bytes_cons, zlen_app. destruct (IH (size + zlen c) (c :: chunks)) as [IH1 IH2].
    destruct (Z.ltb_spec limit (size + zlen c)) as [Hl|Hl].
    + pose proof (zlen_nonneg (body_bytes pre b)). split; [lia|done].
    + split; intros Hs; [|apply IH2; lia]. rewrite IH1 by lia. simpl. by rewrite <- app_assoc.
Qed.

Lemma read_loop_ok limit size chunks ms cs rest :
  read_loop limit size chunks ms = (Ok cs, rest) → ∃ pre b, ms = whole_body pre b rest ∧ cs = rev chunks ++ pre ++ [b].
Proof.
  revert size chunks. induction ms as [|[b more| |] ms IH]; intros size chunks Hr; simpl in Hr; [done| |done..].
  destruct (limit <? size + zlen b); [done|]. destruct more.
  - apply IH in Hr as (pre & b' & -> & ->). exists (b :: pre), b'. split; [done|]. simpl. by rewrite <- app_assoc.
  - simplify_eq. by exists [], b.
Qed.

Section json.
Context `{HttpText} `{RequestText}.

Definition json_outcome (body : bytes) (q : asgi_request) : result http_error hvalue * asgi_request :=
  match json_loads body with
  | Ok v => (Ok v, set_body (Some v) q)
  | Err Malformed => (Err malformed_json, q)
  | Err (JsonError e) => (Err e, q)
  end.

(** C38: A JSON body is read exactly: from a request that delivers all of its body
    within the limit the handler gets the value of the concatenated chunks and
    nothing after the body is received; a longer body is refused with status 413;
    and a value is only ever returned for a whole body within the limit. *)
Theorem json_body_exact limit q :
  q_body q = None → is_json (media_type_of (header_values (str "content-type") q)) = true →
  (∀ pre b rest, q_incoming q = whole_body pre b rest →
     (zlen (body_bytes pre b) ≤ limit →
      _read_json_body limit q = json_outcome (body_bytes pre b) (set_incoming rest q)) ∧
     (limit < zlen (body_bytes pre b) → (_read_json_body limit q).1 = Err too_large)) ∧
  (∀ v q', _read_json_body limit q = (Ok v, q') →
     ∃ pre b rest, q_incoming q = whole_body pre b rest ∧ zlen (body_bytes pre b) ≤ limit ∧
       json_loads (body_bytes pre b) = Ok v ∧ q_body q' = Some v).
Proof.
  intros Hb Hj.
  assert (∀ cs rest, read_loop limit 0 [] (q_incoming q) = (Ok cs, rest) →
            _read_json_body limit q = json_outcome (concat cs) (set_incoming rest q)) as Hok.
  { intros cs rest Hr. unfold _read_json_body, json_outcome. rewrite run_bind_get, Hb, Hj. simpl. rewrite run_bind_throw, Hr.
    rewrite run_bind_modify, run_bind_lift. destruct (json_loads _) as [v|[|e]]; done. }
  split.
  - intros pre b rest Hq. destruct (read_loop_whole limit 0 [] pre b rest) as [Hw1 Hw2]. rewrite <- Hq in Hw1, Hw2. split; intros Hl.
    + apply (Hok (pre ++ [b])). by apply Hw1.
    + unfold _read_json_body. rewrite run_bind_get, Hb, Hj. simpl. rewrite run_bind_throw. specialize (Hw2 Hl).
      destruct (read_loop _ _ _ _) as [r rest']. simpl in Hw2. subst. done.
  - intros v q' Hr. destruct (read_loop limit 0 [] (q_incoming q)) as [[cs|e] rest] eqn:Hl.
    + rewrite (Hok _ _ eq_refl) in Hr. destruct (read_loop_ok _ _ _ _ _ _ Hl) as (pre & b & Hq & ->). exists pre, b, rest.
      unfold json_outcome in Hr. change (concat (rev [] ++ pre ++ [b])) with (body_bytes pre b) in Hr.
      split_and!; [done| | |].
      * destruct (Z.le_gt_cases (zlen (body_bytes pre b)) limit) as [|Hgt]; [done|].
        destruct (read_loop_whole limit 0 [] pre b rest) as [_ Hw]. rewrite <- Hq, Hl in Hw. by specialize (Hw Hgt).
      * by destruct (json_loads _) as [w|[|e]]; simplify_eq.
      * by destruct (json_loads _) as [w|[|e]]; simplify_eq.
    + unfold _read_json_body in Hr. rewrite run_bind_get, Hb, Hj in Hr. simpl in Hr. by rewrite run_bind_throw, Hl in Hr.
Qed.
End json.

(** ** Streams *)

(** [async for chunk in stream]: how it ends, and the chunks it got; [None] when
    the fuel runs out. *)
Fixpoint drain (fuel : nat) (st : _AsgiBodyStream) (ms : list asgi_message) (chunks : list bytes)
    : option (result http_error unit * list bytes * _AsgiBodyStream) :=
  match fuel with
  | O => None
  | S fuel =>
      match stream_anext st ms with
      | (Ok (Some b), st, ms) => drain fuel st ms (chunks ++ [b])
      | (Ok None, st, _) => Some (Ok tt, chunks, st)
      | (Err e, st, _) => Some (Err e, chunks, st)
      end
  end.

(** A stream that is being read. *)
Record reading (m : Z) (st : _AsgiBodyStream) : Prop := {
  rd_max : bs_max_bytes st = Some m;
  rd_closed : bs_closed st = false;
  rd_complete : bs_complete st = false;
  rd_finished : bs_finished st = false;
  rd_size : bs_size st ≤ m
}.

Lemma reading_more m st n : reading m st → bs_size st + n ≤ m → reading m (with_size st (bs_size st + n) false).
Proof. by intros [????? ] ?. Qed.

(** What is left to read decides how reading ends. *)
Record drained (m size : Z) (ms : list asgi_message) (r : result http_error unit) (cs : list bytes) (st : _AsgiBodyStream) : Prop := {
  dr_bound : size + zlen (concat cs) ≤ m;
  dr_chunks : Forall (λ c, c ≠ []) cs;
  dr_ok : r = Ok tt → bs_complete st = true ∧ ∃ pre b rest, ms = whole_body pre b rest ∧ concat cs = body_bytes pre b;
  dr_whole pre b rest : ms = whole_body pre b rest →
    r = if decide (size + zlen (body_bytes pre b) ≤ m) then Ok tt else Err route_too_large
}.

(** A body with a first chunk that more follows, or with one chunk only. *)
Lemma whole_body_more c ms pre b rest :
  HttpRequest c true :: ms = whole_body pre b rest → ∃ pre', pre = c :: pre' ∧ ms = whole_body pre' b rest.
Proof. destruct pre as [|d pre]; intros Hw; [done|]. simpl in Hw. unfold whole_body in Hw. simplify_eq/=. by exists pre. Qed.

Lemma whole_body_last c ms pre b rest :
  HttpRequest c false :: ms = whole_body pre b rest → pre = [] ∧ b = c.
Proof. destruct pre as [|d pre]; intros Hw; unfold whole_body in Hw; by simplify_eq/=. Qed.

Lemma drained_more m size c ms r cs cs' st :
  drained m (size + zlen c) ms r cs st → concat cs' = c ++ concat cs → Forall (λ c, c ≠ []) cs' →
  drained m size (HttpRequest c true :: ms) r cs' st.
Proof.
  intros [Hb Hc Ho Hw] Hcat Hne. split; [rewrite Hcat, zlen_app; lia|done| |].
  - intros Hr. destruct (Ho Hr) as (Hcm & pre & b & rest & -> & Heq). split; [done|]. exists (c :: pre), b, rest.
    split; [done|]. by rewrite Hcat, Heq, body_bytes_cons.
  - intros pre b rest Hwb. apply whole_body_more in Hwb as (pre' & -> & Hms). rewrite (Hw _ _ _ Hms).
    by rewrite body_bytes_cons, zlen_app, Z.add_assoc.
Qed.

Lemma drained_last m size c ms cs st :
  size + zlen c ≤ m → bs_complete st = true → concat cs = c → Forall (λ c, c ≠ []) cs →
  drained m size (HttpRequest c false :: ms) (Ok tt) cs st.
Proof.
  intros Hl Hcm Hcat Hne. split; [by rewrite Hcat|done| |].
  - intros _. split; [done|]. exists [], c, ms. split; [done|]. by rewrite body_bytes_nil.
  - intros pre b rest [-> ->]%whole_body_last. rewrite body_bytes_nil. by rewrite decide_True.
Qed.

Lemma drained_large m size c more ms st :
  m < size + zlen c → size ≤ m → drained m size (HttpRequest c more :: ms) (Err route_too_large) [] st.
Proof.
  intros Hl Hs. split; [unfold zlen; simpl; lia|constructor|done|]. intros pre b rest Hwb.
  rewrite decide_False; [done|]. destruct more.
  - apply whole_body_more in Hwb as (pre' & -> & _). rewrite body_bytes_cons, zlen_app. pose proof (zlen_nonneg (body_bytes pre' b)). lia.
  - apply whole_body_last in Hwb as [-> ->]. rewrite body_bytes_nil. lia.
Qed.

Lemma drained_cut m size ms e cs st :
  size ≤ m → (∀ pre b rest, ms ≠ whole_body pre b rest) → cs = [] → drained m size ms (Err e) cs st.
Proof. intros Hs Hn ->. split; [unfold zlen; simpl; lia|constructor|done|]. intros pre b rest Hw. by destruct (Hn pre b rest). Qed.

(** What the loop does with one resumption of the generator. *)
Definition drain_with (fuel : nat) (chunks : list bytes) (x : result http_error (option bytes) * _AsgiBodyStream * list asgi_message)
    : option (result http_error unit * list bytes * _AsgiBodyStream) :=
  match x with
  | (Ok (Some b), st, ms) => drain fuel st ms (chunks ++ [b])
  | (Ok None, st, _) => Some (Ok tt, chunks, st)
  | (Err e, st, _) => Some (Err e, chunks, st)
  end.

Lemma drain_step fuel st ms chunks :
  bs_finished st = false → drain (S fuel) st ms chunks = drain_with fuel chunks (iterate st ms).
Proof. intros Hf. simpl. unfold stream_anext. by rewrite Hf. Qed.

Lemma iterate_complete st ms : bs_complete st = true → iterate st ms = (Ok None, with_finished st, ms).
Proof. intros Hc. destruct ms; simpl; by rewrite Hc. Qed.

Lemma iterate_reading m st c more ms :
  reading m st → bs_size st + zlen c ≤ m →
  iterate st (HttpRequest c more :: ms) =
    (if decide (c = []) then iterate (with_size st (bs_size st + zlen c) (negb more)) ms
     else (Ok (Some c), with_size st (bs_size st + zlen c) (negb more), ms)).
Proof.
  intros [Hmax Hcl Hcm _ _] Hl. simpl. rewrite Hcm, Hcl, Hmax. destruct (Z.ltb_spec m (bs_size st + zlen c)); [lia|]. by destruct c.
Qed.

(** A chunk that fits. *)
Lemma drain_chunk m fuel st c more ms chunks :
  reading m st → bs_size st + zlen c ≤ m →
  drain (S fuel) st (HttpRequest c more :: ms) chunks =
    let st' := with_size st (bs_size st + zlen c) (negb more) in
    if decide (c = []) then drain (S fuel) st' ms chunks else drain fuel st' ms (chunks ++ [c]).
Proof.
  intros Hrd Hl. rewrite drain_step by apply Hrd. rewrite (iterate_reading m) by done. simpl.
  destruct (decide (c = [])); [|done]. unfold stream_anext. simpl. by rewrite (rd_finished _ _ Hrd).
Qed.

Lemma drain_complete fuel st ms chunks :
  bs_complete st = true → bs_finished st = false → drain (S fuel) st ms chunks = Some (Ok tt, chunks, with_finished st).
Proof. intros Hc Hf. rewrite drain_step by done. by rewrite iterate_complete. Qed.

(** A message that ends the reading with an error. *)
Lemma drain_error m fuel st ms chunks :
  reading m st →
  match ms with HttpRequest c _ :: _ => m < bs_size st + zlen c | _ => True end →
  ∃ e st', drain (S fuel) st ms chunks = Some (Err e, chunks ++ [], st') ∧ drained m (bs_size st) ms (Err e) [] st'.
Proof.
  intros [Hmax Hcl Hcm Hfin Hsz] Hm. rewrite drain_step, app_nil_r by done.
  destruct ms as [|[c more| |] ms]; simpl; rewrite Hcm, Hcl.
  2: { rewrite Hmax. destruct (Z.ltb_spec m (bs_size st + zlen c)); [|lia]. eexists _, _. split; [done|]. by apply drained_large. }
  all: eexists _, _; split; [done|]; apply drained_cut; [done| |done]; intros [|] ??; done.
Qed.

Lemma drain_spec m ms : ∀ fuel st chunks, reading m st → (length ms < fuel)%nat →
  ∃ r cs st', drain fuel st ms chunks = Some (r, chunks ++ cs, st') ∧ drained m (bs_size st) ms r cs st'.
Proof.
  induction ms as [|x ms IH]; intros [|fuel] st chunks Hrd Hf; simpl in Hf; [lia| |lia|].
  { destruct (drain_error m fuel st [] chunks Hrd I) as (e & st' & ? & ?). by eexists _, [], st'. }
  destruct x as [c more| |];
    [|by destruct (drain_error m fuel st (HttpDisconnect :: ms) chunks Hrd I) as (e & st' & ? & ?); eexists _, [], st'
     |by destruct (drain_error m fuel st (OtherMessage :: ms) chunks Hrd I) as (e & st' & ? & ?); eexists _, [], st'].
  destruct (Z.le_gt_cases (bs_size st + zlen c) m) as [Hl|Hl].
  2: { destruct (drain_error m fuel st (HttpRequest c more :: ms) chunks Hrd) as (e & st' & ? & ?); [lia|]. by eexists _, [], st'. }
  rewrite (drain_chunk m) by done. cbv zeta. pose proof (rd_finished _ _ Hrd) as Hfin. destruct more; cbn [negb].
  - pose proof (reading_more _ _ _ Hrd Hl) as Hmore. case_decide as Hne; [subst c|].
    + destruct (IH (S fuel) _ chunks Hmore) as (r & cs & st' & -> & Hd); [lia|]. eexists r, cs, st'. split; [done|].
      eapply drained_more; [exact Hd|done|apply Hd].
    + destruct (IH fuel _ (chunks ++ [c]) Hmore) as (r & cs & st' & Heq & Hd); [lia|]. eexists r, (c :: cs), st'.
      split; [rewrite <- app_assoc in Heq; exact Heq|]. eapply drained_more; [exact Hd|done|]. constructor; [done|apply Hd].
  - case_decide as Hne; [subst c|].
    + rewrite drain_complete by done. eexists _, [], _. split; [by rewrite app_nil_r|]. by apply drained_last.
    + destruct fuel as [|fuel]; [lia|]. rewrite drain_complete by done. eexists _, [c], _. split; [done|].
      apply drained_last; [done|done|by apply app_nil_r|by repeat constructor].
Qed.

(** C39: A handler that iterates over the body stream gets, in order and without empty
    chunks, bytes that never exceed the limit of the route; the iteration ends
    normally exactly if the request delivers its whole body within the limit, and
    then the chunks are that body; a longer body ends it with status 413. *)
Theorem stream_exact max ms :
  0 ≤ max →
  ∃ r chunks st, drain (S (length ms)) (with_claimed (stream_new (Some max))) ms [] = Some (r, chunks, st) ∧
    drained max 0 ms r chunks st.
Proof.
  intros Hm. destruct (drain_spec max ms (S (length ms)) (with_claimed (stream_new (Some max))) []) as (r & cs & st & Hd & Hs);
    [by split|lia|]. by exists r, cs, st.
Qed.

(** ** On the small application *)

Section example.
#[local] Existing Instances ex_text ex_text_laws ex_request_text ex_application ex_host ex_reflection.

Lemma json_body_exact_witness :
  _read_json_body 4 (ex_request [HttpRequest [x31] true; HttpRequest [x32; x33] false])
  = json_outcome [x31; x32; x33] (ex_request []).
Proof.
  destruct (json_body_exact 4 (ex_request [HttpRequest [x31] true; HttpRequest [x32; x33] false])) as [Hr _];
    [reflexivity|vm_compute; reflexivity|].
  apply (Hr [[x31]] [x32; x33] []); [reflexivity|]. vm_compute. discriminate.
Defined.

Lemma stream_exact_witness :
  ∃ r chunks st, drain 4 (with_claimed (stream_new (Some 4))) [HttpRequest [x31] true; HttpRequest [] true; HttpRequest [x32] false] []
                 = Some (r, chunks, st) ∧
    drained 4 0 [HttpRequest [x31] true; HttpRequest [] true; HttpRequest [x32] false] r chunks st.
Proof. apply (stream_exact 4). vm_compute. discriminate. Defined.
End example.

(** ** Faults of binding *)

Definition takes_json (plan : RoutePlan) : Prop := ∃ p, p ∈ r_parameters plan ∧ p_kind p = HBody.
Definition reads_body (plan : RoutePlan) : Prop := r_rejects_body plan = true ∨ takes_json plan.

(** The errors the client of a request is to blame for: a value it did not send, and
    a body that is too large, cut off, not wanted, or no JSON, where the route reads
    one. *)
Inductive client_fault (plan : RoutePlan) : http_error → Prop :=
| MissingValue p : p ∈ r_parameters plan → needs_source (p_kind p) = true → p_has_default p = false →
    client_fault plan (missing_value p)
| LargeBody : reads_body plan → client_fault plan too_large
| ClientGone : reads_body plan → client_fault plan ClientDisconnect
| UnwantedBody : r_rejects_body plan = true → client_fault plan body_not_allowed
| NoJsonType : takes_json plan → client_fault plan not_json
| BrokenJson : takes_json plan → client_fault plan malformed_json.

(** [SimpleCookie] refuses a header, where the route takes a cookie. *)
Definition cookie_fault (plan : RoutePlan) (e : http_error) : Prop :=
  e = CookieError ∧ ∃ p, p ∈ r_parameters plan ∧ p_kind p = HCookie.

(** The ASGI server delivers a message of another type, where the route reads a
    body. *)
Definition protocol_fault (plan : RoutePlan) (e : http_error) : Prop := e = HRuntimeError ∧ reads_body plan.

Lemma ensures_zoom {S T E A} (proj : S → T) (upd : T → S → S) (m : M T E A) (P : A → Prop) (Q : E → Prop) :
  ensures P Q m → ensures P Q (zoom proj upd m).
Proof. intros Hm s. unfold zoom. specialize (Hm (proj s)). by destruct (m (proj s)) as [[a|e] t]. Qed.

Section bodies.
Context `{HttpText} `{RequestText} (Q : http_error → Prop).
Context (Hjson : ∀ b e, json_loads b = Err (JsonError e) → Q e).

(** What the two loops over the messages of a body raise. *)
Definition loop_error (ms : list asgi_message) (e : http_error) : Prop :=
  e = too_large ∨ e = ClientDisconnect ∨ (e = HRuntimeError ∧ OtherMessage ∈ ms).

Lemma loop_error_cons m ms e : loop_error ms e → loop_error (m :: ms) e.
Proof. unfold loop_error. rewrite elem_of_cons. tauto. Qed.

Lemma loop_error_head ms : loop_error (OtherMessage :: ms) HRuntimeError.
Proof. right; right. split; [done|left]. Qed.

Lemma read_loop_errors limit size chunks ms e :
  (read_loop limit size chunks ms).1 = Err e → loop_error ms e.
Proof.
  revert size chunks. induction ms as [|[b more| |] ms IH]; intros size chunks; simpl.
  - intros [= <-]. right; by left.
  - destruct (limit <? _); [intros [= <-]; by left|]. destruct more; [|done]. intros He. by eapply loop_error_cons, IH.
  - intros [= <-]. right; by left.
  - intros [= <-]. apply loop_error_head.
Qed.

Lemma reject_loop_errors limit size ms e : (reject_loop limit size ms).1 = Err e → loop_error ms e.
Proof.
  revert size. induction ms as [|[b more| |] ms IH]; intros size; simpl.
  - intros [= <-]. right; by left.
  - destruct (limit <? _); [intros [= <-]; by left|]. destruct more; [|done]. intros He. by eapply loop_error_cons, IH.
  - intros [= <-]. right; by left.
  - intros [= <-]. apply loop_error_head.
Qed.

Lemma read_json_errors limit q e :
  (_read_json_body limit q).1 = Err e →
  e = not_json ∨ e = malformed_json ∨ Q e ∨ loop_error (q_incoming q) e.
Proof.
  unfold _read_json_body. rewrite run_bind_get. destruct (q_body q); [done|]. rewrite run_bind_throw.
  destruct (is_json _); simpl; [|intros [= <-]; by left]. pose proof (read_loop_errors limit 0 [] (q_incoming q)) as Hl.
  destruct (read_loop _ _ _ _) as [[cs|x] rest]; simpl in Hl; rewrite run_bind_modify, run_bind_lift.
  - destruct (json_loads _) as [v|[|x]] eqn:Hj; [done|intros [= <-]; tauto|]. intros [= <-]. right; right; left. by eapply Hjson.
  - intros [= <-]. right; right; right. by apply Hl.
Qed.

Lemma reject_errors limit q e :
  (_reject_request_body limit q).1 = Err e → e = body_not_allowed ∨ loop_error (q_incoming q) e.
Proof.
  unfold _reject_request_body. rewrite run_bind_gets. pose proof (reject_loop_errors limit 0 (q_incoming q)) as Hl.
  destruct (reject_loop _ _ _) as [[n|x] rest]; simpl in Hl; rewrite run_bind_modify, run_bind_lift.
  - rewrite run_throw. destruct (negb _); [intros [= <-]; by left|done].
  - intros [= <-]. right. by apply Hl.
Qed.

Lemma load_cookies_spec parsed values :
  match load_cookies parsed values with
  | Ok _ => ∀ v, v ∈ values → load_cookie v ≠ None
  | Err e => e = CookieError ∧ ∃ v, v ∈ values ∧ load_cookie v = None
  end.
Proof.
  revert parsed. induction values as [|v values IH]; intros parsed; simpl; [by intros v Hv; inversion Hv|].
  destruct (load_cookie v) as [ms|] eqn:Hv; [|split; [done|exists v; split; [left|done]]]. specialize (IH (foldl (λ acc m, dict_set acc m.1 m.2) parsed ms)).
  destruct (load_cookies _ values) as [c|e].
  - intros w [->|Hw]%elem_of_cons; [by rewrite Hv|by apply IH].
  - destruct IH as (-> & w & Hw & Hn). split; [done|]. exists w. split; [by right|done].
Qed.

(** A complete parameter is read or missing, unless a cookie header is refused. *)
Lemma read_http_complete p q :
  complete_parameter p → needs_source (p_kind p) = true →
  (∃ o, _read_http_value p q = Ok o) ∨ (p_kind p = HCookie ∧ _read_http_value p q = Err CookieError).
Proof.
  unfold complete_parameter, _read_http_value. destruct (p_kind p); intros Hc; try done; destruct Hc as [x ->]; eauto.
  intros _. pose proof (load_cookies_spec [] (header_values (str "cookie") q)) as Hl. unfold cookies.
  destruct (load_cookies _ _) as [c|e]; simpl; [eauto|]. destruct Hl as [-> _]. by right.
Qed.

Lemma cookie_refused p q :
  p_kind p = HCookie →
  _read_http_value p q = Err CookieError ↔ ∃ v, v ∈ header_values (str "cookie") q ∧ load_cookie v = None.
Proof.
  intros Hk. unfold _read_http_value, cookies. rewrite Hk. pose proof (load_cookies_spec [] (header_values (str "cookie") q)) as Hl.
  destruct (load_cookies _ _) as [c|e]; simpl; [|by destruct Hl as [-> ?]].
  split; [by destruct (p_source p)|]. intros (v & Hv & Hn). by destruct (Hl v Hv).
Qed.
End bodies.

Section binding.
Context {S : Type} `{HttpText} `{RequestText} `{HttpApplication S} `{AsgiHost S} (Q : http_error → Prop) (ctx : HttpContext).
Context (Hjson : ∀ b e, json_loads b = Err (JsonError e) → Q e).
Context (Hres : ∀ r, ensures (λ _, True) Q (scope_resolve_ref r : M S http_error Z)).
Context (Hpar : ∀ o, ensures (λ _, True) Q (resolve_parameter o ctx : M S http_error hvalue)).

Definition faults (plan : RoutePlan) (e : http_error) : Prop :=
  client_fault plan e ∨ cookie_fault plan e ∨ protocol_fault plan e ∨ Q e.

Lemma loop_fault plan ms e : reads_body plan → loop_error ms e → faults plan e.
Proof.
  intros Hb [->|[->|[-> _]]]; [left; by apply LargeBody|left; by apply ClientGone|]. right; right; left. done.
Qed.

Lemma ensures_then {A B} (m : M S http_error A) (f : A → M S http_error B) (R : http_error → Prop) :
  ensures (λ _, True) R m → (∀ a, ensures (λ _, True) R (f a)) → ensures (λ _, True) R (m ≫= f).
Proof. intros Hm Hf. eapply ensures_bind; [exact Hm|]. auto. Qed.

Lemma ensures_errors {T A} (m : M T http_error A) (R : http_error → Prop) :
  (∀ t e, (m t).1 = Err e → R e) → ensures (λ _, True) R m.
Proof. intros Hm t. specialize (Hm t). destruct (m t) as [[a|e] t']; simpl in *; auto. Qed.

Lemma bind_body_faults plan limit : takes_json plan → ensures (λ _, True) (faults plan) (_read_json_body limit).
Proof.
  intros Hb. apply ensures_errors. intros q e He. apply (read_json_errors Q Hjson) in He as [->|[->|[He|He]]].
  - left. by apply NoJsonType.
  - left. by apply BrokenJson.
  - by do 3 right.
  - eapply loop_fault; [by right|done].
Qed.

Lemma reject_body_faults plan limit : r_rejects_body plan = true → ensures (λ _, True) (faults plan) (_reject_request_body limit).
Proof.
  intros Hb. apply ensures_errors. intros q e He. apply reject_errors in He as [->|He].
  - left. by apply UnwantedBody.
  - eapply loop_fault; [by left|done].
Qed.

Lemma bind_source_faults plan p :
  p ∈ r_parameters plan → complete_parameter p → needs_source (p_kind p) = true →
  ensures (λ _, True) (faults plan) (q ← gets request_of; lift (_read_http_value p q) : M S http_error _).
Proof.
  intros Hp Hc Hn s. rewrite run_bind_gets. destruct (read_http_complete p (request_of s) Hc Hn) as [[o ->]|[Hk ->]]; [done|].
  right; left. split; [done|]. by exists p.
Qed.

(** Only what is read from the request can be missing. *)
Lemma bind_value_faults g m plan limit p :
  p ∈ r_parameters plan → complete_parameter p → injected g m p →
  ensures (λ o : option hvalue, o = None → needs_source (p_kind p) = true) (faults plan) (bind_value limit ctx p : M S http_error _).
Proof.
  intros Hp Hc Hi. assert (∀ e, Q e → faults plan e) as HQ by (intros; by do 3 right). unfold bind_value.
  destruct (p_kind p) eqn:Hk; simpl;
    try (eapply ensures_weaken; [apply (bind_source_faults plan p); [done|done|by rewrite Hk]|done|done]).
  - eapply ensures_bind; [apply ensures_zoom, bind_body_faults; by exists p|]. intros v _. by apply ensures_ret.
  - by eapply (ensures_bind (λ _, True)).
  - by apply ensures_ret.
  - destruct (Hi Hk) as (t & v & q & _ & _ & _ & ->). eapply ensures_bind; [by eapply ensures_weaken|]. intros o _. by apply ensures_ret.
  - unfold complete_parameter in Hc. rewrite Hk in Hc. destruct Hc as [o ->]. eapply ensures_bind; [by eapply ensures_weaken|].
    intros v _. by apply ensures_ret.
Qed.

Lemma bind_parameters_faults g m plan limit ps args :
  (∀ p, p ∈ ps → p ∈ r_parameters plan) → Forall complete_parameter ps → Forall (injected g m) ps →
  ensures (λ out : list (pystr * hvalue), (∀ n, n ∈ args.*1 → n ∈ out.*1) ∧ ∀ p, p ∈ ps → p_name p ∈ out.*1) (faults plan)
    (bind_parameters limit ctx ps args : M S http_error _).
Proof.
  intros Hin Hc Hi. revert args. induction ps as [|p ps IH]; intros args; simpl.
  { apply ensures_ret. split; [done|]. intros p Hp. by inversion Hp. }
  apply Forall_cons in Hc as [Hcp Hc]. apply Forall_cons in Hi as [Hip Hi]. assert (p ∈ r_parameters plan) as Hp by (apply Hin; left).
  eapply ensures_bind; [by eapply bind_value_faults|]. intros value Hv. eapply (ensures_bind (λ _, True)).
  { destruct value; [done|]. destruct (p_has_default p) eqn:Hd; [done|]. apply ensures_raise. left. by apply MissingValue; auto. }
  intros v _. eapply ensures_weaken; [apply IH; [|done|done]| |done]; [intros q Hq; apply Hin; by right|].
  intros out [Hkeep Hall]. split.
  - intros n Hn. apply Hkeep. rewrite dict_set_keys. by right.
  - intros q [->|Hq]%elem_of_cons; [|by apply Hall]. apply Hkeep. rewrite dict_set_keys. by left.
Qed.

(** C37: For a compiled route, binding the arguments raises only: a fault of the
    client (a missing value without default, or, where the route reads a body, one
    that is too large, cut off, not wanted, of another media type or malformed); a
    [CookieError], where the route takes a cookie, which happens exactly when
    [SimpleCookie] refuses one of the request's cookie headers; the [RuntimeError]
    for a message the ASGI server must not deliver, where the route reads a body and
    only if such a message came; or an error of the application's own providers and
    resolvers or of the JSON library. The internal errors of the adapter for routes
    that were not compiled cannot occur. If binding succeeds, every parameter of the
    handler has a value. *)
Theorem binding_faults `{RouteReflection} g plans plan limit :
  compile_routes g = Ok plans → plan ∈ plans →
  ensures (λ args : list (pystr * hvalue), ∀ p, p ∈ r_parameters plan → p_name p ∈ args.*1)
    (λ e, client_fault plan e ∨ cookie_fault plan e ∨ protocol_fault plan e ∨ Q e)
    (_bind_arguments plan ctx limit : M S http_error _) ∧
  (∀ p q, p ∈ r_parameters plan → p_kind p = HCookie →
     _read_http_value p q = Err CookieError ↔ ∃ v, v ∈ header_values (str "cookie") q ∧ load_cookie v = None) ∧
  (∀ q, (_reject_request_body limit q).1 = Err HRuntimeError → OtherMessage ∈ q_incoming q) ∧
  (∀ q, (_read_json_body limit q).1 = Err HRuntimeError → OtherMessage ∈ q_incoming q ∨ Q HRuntimeError).
Proof.
  intros Hc Hp. apply compile_controllers_compiled in Hc. eapply Forall_forall in Hc as [Hcp Hinj]; [|exact Hp]. split_and!.
  - unfold _bind_arguments. eapply (ensures_bind (λ _, True)).
    { destruct (r_rejects_body plan) eqn:Hr; [|done]. apply ensures_zoom. by apply reject_body_faults. }
    intros _ _. eapply ensures_weaken; [eapply bind_parameters_faults; [done|apply Hcp|exact Hinj]| |done]. by intros args [_ Hall].
  - intros p q _. apply cookie_refused.
  - intros q He. by apply reject_errors in He as [?|[?|[?|[_ ?]]]].
  - intros q He. apply (read_json_errors Q Hjson) in He as [?|[?|[?|[?|[?|[_ ?]]]]]]; auto; done.
Qed.
End binding.

(** A value outside Latin-1 is refused, whatever else is wrong with it. *)
Lemma unencodable_header `{HttpText} c name v :
  forallb token_char (c :: name) = true → forallb (λ c, c <? 256) v = false →
  _validate_header (PyStr (c :: name)) (PyStr v) = Err HValueError.
Proof.
  intros Hn Hv. unfold _validate_header. rewrite Hn, !result_ok_bind, Hv. cbn [negb].
  destruct (first_blank v || last_blank v); [done|]. rewrite raise_if_false, result_ok_bind.
  destruct (existsb (λ c, (c =? 13) || (c =? 10)) v); [done|]. rewrite raise_if_false, result_ok_bind.
  by destruct (existsb _ v).
Qed.

Local Arguments _validate_header : simpl never.

(** A redirect needs no pipeline, so nothing answers for it when it fails: if the
    other spelling of the path has a character outside Latin-1, the location is not
    a valid header value, no response is sent and the error leaves the adapter. *)
Theorem redirect_unanswered {S : Type} `{HttpText} `{RequestText} `{HttpApplication S} `{AsgiHost S} app path method id s alternate :
  rm_redirect_path (router_match (na_routes app) path method) = Some alternate →
  forallb (λ c, c <? 256) alternate = false →
  (_dispatch app path method id s).1 = Err HValueError.
Proof.
  intros Hr Ha. unfold _dispatch. rewrite M_bind_run with (a := tt) (s1 := set_request
    (set_path_params (rm_path_params (router_match (na_routes app) path method)) (request_of s)) s) by done.
  unfold answer_request, try_except, _response_for_match. rewrite Hr, run_bind_lift.
  assert (HttpResponse_new (PyBytes []) (PyInt 307) (Some (str_items [(str "location", alternate)])) = Err HValueError) as ->; [|done].
  assert (_validate_header (PyStr (str "location")) (PyStr alternate) = Err HValueError) as Hh
    by by apply (unencodable_header 108 (str "ocation")).
  unfold HttpResponse_new. simpl. by rewrite Hh.
Qed.

(** ** On the small application *)

Section example.
#[local] Existing Instances ex_text ex_text_laws ex_request_text ex_application ex_host ex_reflection.

Lemma binding_faults_witness :
  ensures (λ args : list (pystr * hvalue), ∀ p, p ∈ r_parameters ex_plan → p_name p ∈ args.*1)
    (λ e, client_fault ex_plan e ∨ cookie_fault ex_plan e ∨ protocol_fault ex_plan e ∨ False)
    (_bind_arguments ex_plan ex_context 4 : M ex_state http_error _).
Proof.
  refine (proj1 (binding_faults (λ _, False) ex_context _ _ _ ex_graph ex_plans ex_plan 4 _ _)).
  - intros [|b l] e; discriminate.
  - intros r s. exact I.
  - intros o s. exact I.
  - vm_compute. reflexivity.
  - vm_compute. left.
Defined.

(** A cookie header that [SimpleCookie] refuses is answered with status 500. *)
Example ex_cookie_refused :
  let p := {| p_name := str "session"; p_kind := HCookie; p_source := Some (str "session"); p_annotation := 0; p_has_default := true;
              p_default := VNone; p_token := None; p_provider_ref := None; p_resolver := None; p_max_bytes := None |} in
  let q := {| q_headers := [(ascii_bytes "cookie", ascii_bytes "a/b=c")]; q_query_string := []; q_path_params := []; q_incoming := [];
              q_body := None; q_stream := None |} in
  match execute no_bindings 4 (with_parameters ex_plan [p]) ex_context {| ex_calls := 0; ex_req := q |} with
  | (Ok r, s) => status_code r = 500 ∧ ex_calls s = 0
  | _ => False
  end.
Proof. vm_compute. done. Qed.

Example ex_unanswered :
  (_dispatch ex_app (str "/items/" ++ [26085; 47]) (str "GET") (str "r") ex_start).1 = Err HValueError.
Proof. apply redirect_unanswered with (str "/items/" ++ [26085]); vm_compute; reflexivity. Qed.
End example.
