(* ===== verification/AsgiLifespan.v ===== *)
(** * ASGI: the application wrapper

    [ASGIApplication] of [asgi/application.py]: the server opens lifespan scopes, one
    of which starts and stops the application, and HTTP scopes, which are served
    while it is started. A step is what one task does between two awaits; the tasks
    of the lifespan scopes share the lock. *)

From Stdlib Require Import ZArith Lia.
From stdpp Require Import base tactics list gmap strings.
From S2P Require Import Prelude DiDeclarations HttpResponses.
Local Open Scope Z_scope.

Inductive _ASGIState := CREATED | STARTED | STOPPING | STOPPED | FAILED.
#[export] Instance ASGIState_eq_dec : EqDecision _ASGIState.
Proof. solve_decision. Defined.

(** Where a task of a lifespan scope is: before its first message, in the factory
    or [start], before its second message, in [shutdown], or at its end. *)
Inductive lifespan_pc := AwaitStartup | Starting | AwaitShutdown | ShuttingDown | Ended.
#[export] Instance lifespan_pc_eq_dec : EqDecision lifespan_pc.
Proof. solve_decision. Defined.

(** [aa_started] counts the calls of the factory. *)
Record ASGIApplication := {
  aa_application : option Z;
  aa_http_app : option Z;
  aa_state : _ASGIState;
  aa_lifespan_seen : bool;
  aa_lock : option nat;
  aa_tasks : list lifespan_pc;
  aa_started : nat
}.

Definition ASGIApplication_new : ASGIApplication :=
  {| aa_application := None; aa_http_app := None; aa_state := CREATED; aa_lifespan_seen := false; aa_lock := None;
     aa_tasks := []; aa_started := 0 |}.

Inductive lifespan_send := StartupFailed | StartupComplete | ShutdownFailed | ShutdownComplete.

Definition set_pc (i : nat) (pc : lifespan_pc) (a : ASGIApplication) : ASGIApplication :=
  {| aa_application := aa_application a; aa_http_app := aa_http_app a; aa_state := aa_state a;
     aa_lifespan_seen := aa_lifespan_seen a; aa_lock := aa_lock a; aa_tasks := <[i := pc]> (aa_tasks a);
     aa_started := aa_started a |}.
Definition set_lock (l : option nat) (a : ASGIApplication) : ASGIApplication :=
  {| aa_application := aa_application a; aa_http_app := aa_http_app a; aa_state := aa_state a;
     aa_lifespan_seen := aa_lifespan_seen a; aa_lock := l; aa_tasks := aa_tasks a; aa_started := aa_started a |}.
Definition set_phase (s : _ASGIState) (application http_app : option Z) (a : ASGIApplication) : ASGIApplication :=
  {| aa_application := application; aa_http_app := http_app; aa_state := s; aa_lifespan_seen := aa_lifespan_seen a;
     aa_lock := aa_lock a; aa_tasks := aa_tasks a; aa_started := aa_started a |}.
Definition mark_seen (a : ASGIApplication) : ASGIApplication :=
  {| aa_application := aa_application a; aa_http_app := aa_http_app a; aa_state := aa_state a; aa_lifespan_seen := true;
     aa_lock := aa_lock a; aa_tasks := aa_tasks a; aa_started := S (aa_started a) |}.

(** A server opens a lifespan scope. *)
Definition open_lifespan (a : ASGIApplication) : ASGIApplication :=
  {| aa_application := aa_application a; aa_http_app := aa_http_app a; aa_state := aa_state a;
     aa_lifespan_seen := aa_lifespan_seen a; aa_lock := aa_lock a; aa_tasks := aa_tasks a ++ [AwaitStartup];
     aa_started := aa_started a |}.

(** The first message arrives, and the lock is free if it is [lifespan.startup]. *)
Definition receive_startup (i : nat) (is_startup : bool) (a : ASGIApplication) : ASGIApplication * list lifespan_send :=
  if negb is_startup then (set_pc i Ended a, [StartupFailed])
  else if aa_lifespan_seen a then (set_pc i Ended a, [StartupFailed])
  else (set_lock (Some i) (mark_seen (set_pc i Starting a)), []).

(** What calling the factory, getting its adapter and [start] give: the application
    with its adapter's app, an [Exception] before or after the application is
    stored, or another [BaseException]. *)
Inductive start_outcome := StartOk (application http_app : Z) | StartError | StartNoApp (application : Z) | StartAborted.

Definition finish_startup (i : nat) (o : start_outcome) (a : ASGIApplication) : ASGIApplication * list lifespan_send :=
  let a := set_lock None a in
  match o with
  | StartOk app http => (set_pc i AwaitShutdown (set_phase STARTED (Some app) (Some http) a), [StartupComplete])
  | StartError => (set_pc i Ended (set_phase FAILED (aa_application a) (aa_http_app a) a), [StartupFailed])
  | StartNoApp app => (set_pc i Ended (set_phase FAILED (Some app) (aa_http_app a) a), [StartupFailed])
  | StartAborted => (set_pc i Ended a, [])
  end.

(** The second message arrives, and the lock is free if it is [lifespan.shutdown]. *)
Definition receive_shutdown (i : nat) (is_shutdown : bool) (a : ASGIApplication) : ASGIApplication :=
  if negb is_shutdown then set_pc i Ended a
  else set_lock (Some i) (set_pc i ShuttingDown (set_phase STOPPING (aa_application a) None a)).

Inductive stop_outcome := StopOk | StopError | StopAborted.

Definition finish_shutdown (i : nat) (o : stop_outcome) (a : ASGIApplication) : ASGIApplication * list lifespan_send :=
  let a := set_pc i Ended (set_lock None a) in
  match o with
  | StopOk => (set_phase STOPPED (aa_application a) (aa_http_app a) a, [ShutdownComplete])
  | StopError => (set_phase FAILED (aa_application a) (aa_http_app a) a, [ShutdownFailed])
  | StopAborted => (a, [])
  end.

Inductive scope_type := HttpScope | WebSocketScope | LifespanScope | UnknownScope.
Inductive scope_answer := Served (http_app : Z) | Unavailable | WebSocketClosed | Lifespan | Unsupported.

(** [__call__]: where a scope goes. *)
Definition answer_scope (t : scope_type) (a : ASGIApplication) : scope_answer :=
  match t with
  | LifespanScope => Lifespan
  | HttpScope => match aa_state a, aa_http_app a with STARTED, Some app => Served app | _, _ => Unavailable end
  | WebSocketScope => WebSocketClosed
  | UnknownScope => Unsupported
  end.

(** ** Runs *)

Inductive lifespan_step : ASGIApplication → ASGIApplication → Prop :=
| step_open a : lifespan_step a (open_lifespan a)
| step_startup i b a : aa_tasks a !! i = Some AwaitStartup → (b = true → aa_lock a = None) →
    lifespan_step a (receive_startup i b a).1
| step_started i o a : aa_tasks a !! i = Some Starting → lifespan_step a (finish_startup i o a).1
| step_shutdown i b a : aa_tasks a !! i = Some AwaitShutdown → (b = true → aa_lock a = None) →
    lifespan_step a (receive_shutdown i b a)
| step_stopped i o a : aa_tasks a !! i = Some ShuttingDown → lifespan_step a (finish_shutdown i o a).1.

(** The tasks that are past the check for a second startup. *)
Definition active (pc : lifespan_pc) : Prop := pc = Starting ∨ pc = AwaitShutdown ∨ pc = ShuttingDown.
#[export] Instance active_dec pc : Decision (active pc).
Proof. unfold active. apply _. Defined.

Definition idle (ts : list lifespan_pc) : Prop := Forall (λ pc, ¬ active pc) ts.

Definition phase_of (pc : lifespan_pc) : _ASGIState :=
  match pc with Starting => CREATED | AwaitShutdown => STARTED | ShuttingDown => STOPPING | _ => STOPPED end.

(** Before the first startup; while one task, [i], runs the application; and after
    that task has ended. *)
Inductive lifespan_inv (a : ASGIApplication) : Prop :=
| li_unseen : aa_lifespan_seen a = false → aa_started a = 0%nat → aa_state a = CREATED → aa_http_app a = None →
    idle (aa_tasks a) → lifespan_inv a
| li_owned i pc : aa_lifespan_seen a = true → aa_started a = 1%nat → aa_tasks a !! i = Some pc → active pc →
    idle (<[i := Ended]> (aa_tasks a)) → aa_state a = phase_of pc → (is_Some (aa_http_app a) ↔ pc = AwaitShutdown) →
    lifespan_inv a
| li_over : aa_lifespan_seen a = true → aa_started a = 1%nat → idle (aa_tasks a) →
    (is_Some (aa_http_app a) ↔ aa_state a = STARTED) → lifespan_inv a.

Lemma not_active_ended : ¬ active Ended.
Proof. by intros [|[]]. Qed.
Lemma not_active_await : ¬ active AwaitStartup.
Proof. by intros [|[]]. Qed.

Lemma idle_lookup ts i pc : idle ts → ts !! i = Some pc → ¬ active pc.
Proof. unfold idle. rewrite Forall_forall. intros Hi Hl. apply Hi. by eapply list_elem_of_lookup_2. Qed.

Lemma idle_ended ts i : idle ts → idle (<[i := Ended]> ts).
Proof. intros Hi. apply Forall_insert; [done|apply not_active_ended]. Qed.

Lemma task_set (ts : list lifespan_pc) i pc pc' : ts !! i = Some pc → <[i := pc']> ts !! i = Some pc'.
Proof. intros Hi. apply list_lookup_insert_eq. by eapply lookup_lt_Some. Qed.

(** The active task is the owner. *)
Lemma owner_unique ts i j pc : idle (<[i := Ended]> ts) → ts !! j = Some pc → active pc → j = i.
Proof.
  intros Hi Hj Ha. destruct (decide (j = i)) as [|Hne]; [done|]. exfalso. eapply idle_lookup; [exact Hi| |exact Ha].
  by rewrite list_lookup_insert_ne.
Qed.

Lemma lifespan_new_inv : lifespan_inv ASGIApplication_new.
Proof. apply li_unseen; try done. constructor. Qed.

(** What the owner and everybody else find when they are scheduled. *)
Lemma owned_by a i pc :
  lifespan_inv a → aa_tasks a !! i = Some pc → active pc →
  aa_lifespan_seen a = true ∧ aa_started a = 1%nat ∧ idle (<[i := Ended]> (aa_tasks a)) ∧ aa_state a = phase_of pc ∧
  (is_Some (aa_http_app a) ↔ pc = AwaitShutdown).
Proof.
  intros [Hs Hst Hc Hh Hi|j pc' Hs Hst Hj Ha' Hi Hp Hh|Hs Hst Hi Hh] Hl Ha.
  - by destruct (idle_lookup _ _ _ Hi Hl).
  - assert (i = j) as -> by by eapply owner_unique. rewrite Hj in Hl. by simplify_eq.
  - by destruct (idle_lookup _ _ _ Hi Hl).
Qed.

(** A task that is not active comes to its end. *)
Lemma end_other_inv a i : lifespan_inv a → aa_tasks a !! i = Some AwaitStartup → lifespan_inv (set_pc i Ended a).
Proof.
  intros [Hs Hst Hc Hh Hi|j pc Hs Hst Hj Ha Hi Hp Hh|Hs Hst Hi Hh] Hl.
  - apply li_unseen; try done. by apply idle_ended.
  - assert (i ≠ j) as Hne by (intros ->; rewrite Hj in Hl; simplify_eq; by apply not_active_await).
    apply (li_owned _ j pc); simpl; try done; [by rewrite list_lookup_insert_ne|].
    rewrite list_insert_insert_ne by done. by apply idle_ended.
  - apply li_over; try done. by apply idle_ended.
Qed.

Lemma open_inv a : lifespan_inv a → lifespan_inv (open_lifespan a).
Proof.
  assert (∀ ts, idle ts → idle (ts ++ [AwaitStartup])) as Happ.
  { intros ts Hi. apply Forall_app. split; [done|]. constructor; [apply not_active_await|constructor]. }
  intros [Hs Hst Hc Hh Hi|j pc Hs Hst Hj Ha Hi Hp Hh|Hs Hst Hi Hh].
  - apply li_unseen; simpl; auto.
  - apply (li_owned _ j pc); simpl; try done; [by apply lookup_app_l_Some|].
    rewrite insert_app_l by (by eapply lookup_lt_Some). by apply Happ.
  - apply li_over; simpl; auto.
Qed.

(** Every step keeps the invariant. *)
Lemma lifespan_step_inv a a' : lifespan_step a a' → lifespan_inv a → lifespan_inv a'.
Proof.
  intros [b|i b c Hi Hl|i o c Hi|i b c Hi Hl|i o c Hi] Hinv.
  - by apply open_inv.
  - unfold receive_startup. destruct b; simpl; [|by apply end_other_inv].
    destruct (aa_lifespan_seen c) eqn:Hs; simpl; [by apply end_other_inv|].
    destruct Hinv as [_ Hst Hc Hh Hidle|? ? Hs'|Hs']; [|congruence..].
    apply (li_owned _ i Starting); simpl; try done; [by rewrite Hst|by eapply task_set|by left| |].
    + rewrite list_insert_insert_eq. by apply idle_ended.
    + rewrite Hh. split; [by intros []|done].
  - destruct (owned_by _ _ _ Hinv Hi) as (Hs & Hst & Hidle & Hp & Hh); [by left|]. simpl in Hp.
    destruct o; simpl; [|apply li_over; simpl; try done; rewrite ?Hp; naive_solver..].
    apply (li_owned _ i AwaitShutdown); simpl; try done; [by eapply task_set|by right; left|].
    by rewrite list_insert_insert_eq.
  - destruct (owned_by _ _ _ Hinv Hi) as (Hs & Hst & Hidle & Hp & Hh); [by right; left|]. simpl in Hp.
    unfold receive_shutdown. destruct b; simpl.
    + apply (li_owned _ i ShuttingDown); simpl; try done; [by eapply task_set|by right; right|].
      by rewrite list_insert_insert_eq.
    + apply li_over; simpl; try done. rewrite Hp. naive_solver.
  - destruct (owned_by _ _ _ Hinv Hi) as (Hs & Hst & Hidle & Hp & Hh); [by right; right|]. simpl in Hp.
    destruct o; simpl; apply li_over; simpl; try done; rewrite ?Hp; naive_solver.
Qed.

(** The server may open any number of lifespan scopes: the application's factory
    is called at most once, and requests are served exactly while the application is
    started, all others being answered with status 503. *)
Theorem lifespan_once a :
  rtc lifespan_step ASGIApplication_new a →
  (aa_started a ≤ 1)%nat ∧ (∀ app, answer_scope HttpScope a = Served app → aa_state a = STARTED ∧ aa_started a = 1%nat) ∧
  (aa_state a = STARTED → ∃ app, answer_scope HttpScope a = Served app).
Proof.
  intros Hr. assert (lifespan_inv a) as Hinv.
  { eapply (rtc_ind_r (λ a, lifespan_inv a)); [apply lifespan_new_inv| |exact Hr]. intros b c _ Hbc Hb. by eapply lifespan_step_inv. }
  unfold answer_scope. destruct Hinv as [Hs -> -> _ _|i pc Hs -> _ Ha _ Hp Hh|Hs -> _ Hh].
  - split_and!; [lia|done..].
  - rewrite Hp. split_and!; [lia| |].
    + intros app Happ. by destruct pc.
    + intros Hst. destruct pc; simpl in *; try done. destruct Hh as [_ Hh]. destruct (Hh eq_refl) as [app ->]. by eexists.
  - split_and!; [lia| |].
    + intros app Happ. by destruct (aa_state a), (aa_http_app a).
    + intros Hst. rewrite Hst in *. destruct Hh as [_ Hh]. destruct (Hh eq_refl) as [app ->]. by eexists.
Qed.

Definition ex_lifespan : ASGIApplication :=
  (receive_startup 0 true (finish_startup 1 (StartOk 5 6) (receive_startup 1 true (open_lifespan (open_lifespan ASGIApplication_new))).1).1).1.

Lemma lifespan_once_witness : aa_state ex_lifespan = STARTED ∧ (aa_started ex_lifespan ≤ 1)%nat.
Proof.
  split; [reflexivity|]. apply (lifespan_once ex_lifespan).
  eapply rtc_l; [apply step_open|]. eapply rtc_l; [apply step_open|].
  eapply rtc_l; [apply (step_startup 1 true); reflexivity|].
  eapply rtc_l; [apply (step_started 1 (StartOk 5 6)); reflexivity|].
  eapply rtc_l; [apply (step_startup 0 true); reflexivity|]. apply rtc_refl.
Defined.
